(* ===== verification/_CoqProject ===== *)
-Q . S2P
Prelude.v
Plan.v
Lineage.v
Stages.v
Planner.v
PlannerProofs.v
TaskGenerator.v
Api.v
Bytes.v
Shuffle.v
Reports.v
Heap.v
Clones.v
SharedGraph.v
Fifo.v
FifoProofs.v
FifoInvariant.v
FifoSystem.v
FifoTheorems.v
FifoReports.v
Dag.v
DagProofs.v
DagEvents.v
DagTheorems.v
DagResults.v
DagLoop.v
DagLoopProofs.v
DagLoopTheorems.v
LocalScheduler.v
Runtime.v
TextSource.v
Iterator.v
IteratorProofs.v
Runner.v
RunnerProofs.v
MapTasks.v
RunnerTheorems.v
FileStore.v
FileReads.v
FileWrites.v
Json.v
JsonProofs.v
Record.v
ExampleFuncs.v
Exchange.v
WordCount.v
ShuffleTheorems.v
RunnerFuel.v
Meaning.v
PlanShape.v
DagFrame.v
Deployment.v
Attempts.v
JobRun.v
EndToEnd.v
StoreOps.v
StoreOwn.v
StoreSystem.v
Protocol.v
ProtocolProofs.v
Coordinator.v
Growth.v
Worker.v
WorkerProofs.v
Cluster.v
ClusterProofs.v
ClusterTheorems.v
Planned.v
Wire.v
WireProofs.v
Messages.v
MessageTheorems.v
Explain.v
JsonExtend.v
JobSpec.v
JobFiles.v
Commands.v
Http.v
CommandProofs.v
CommandTheorems.v
