(* ===== verification/Prelude.v ===== *)
(** * sparkcore-go: a verification library

    sparkcore-go runs a lazy chain of transformations over a text file as stages
    of tasks: a driver builds an RDD lineage, a planner cuts it into stages at
    its shuffle, a DAG scheduler runs the stages through a FIFO task scheduler,
    workers execute the tasks with iterators, and map tasks hand their records to
    reduce tasks through files.  This library models these parts as executable
    definitions and proves what each promises to the others.

    ** The parts

    - Lineages ([src/plan]): [Plan] has the graph and the shape checks of
      [AddNode]; [Lineage] the depth-first [Validate] with its visit states.
    - Pointers and slices: [Heap] has the data of [plan] and [scheduler] at addresses,
      and every copy the program makes of them; [Clones] proves that a copy reads the
      same and shares nothing; [SharedGraph] puts the graph and a driver on one heap
      ([driver_step]).
    - Driver ([src/api], [src/jobspec]): [Api] builds lineages and translates job
      specifications; [JobSpec] decodes them, into memory as [encoding/json] does,
      [JobFiles] says which files it accepts, and [JsonExtend] has what the JSON
      parser makes of a text with blanks after it.
    - Explanations ([src/plan/explain.go], [src/scheduler/explain.go],
      [src/api/{explain,stage_plan}.go]): [Explain], with the collection of
      ancestors and the texts of lineages and stage plans.
    - Planning ([src/scheduler/{stage,operation,planner,function_validation,
      task_generator,dag_stage_execution}.go]): [Stages] has the data, [Planner]
      the planner, [PlannerProofs] its reference and its proofs, [TaskGenerator]
      the tasks of a plan.
    - Task reports ([src/scheduler/{task,task_output,failure,event}.go]):
      [Reports], with the dynamic values ([any]) that travel in outputs.
    - FIFO task scheduler ([src/scheduler/{fifo_task_scheduler,task_set,options,
      worker_registry,worker_expiry}.go]): [Fifo] has the state behind the mutex
      and every method; [FifoProofs], [FifoInvariant] and [FifoSystem] the
      invariant of the transition system of all calls; [FifoTheorems] and
      [FifoReports] its properties.
    - DAG scheduler ([src/scheduler/{dag_scheduler,dag_stage_execution,
      dag_recovery}.go]): [Dag] has every event handler as a function from a
      state and an event to a state and effects (started task sets, cancelled
      ones, answers); [DagProofs] and [DagEvents] the invariant, [DagTheorems] and
      [DagResults] its properties.
    - The goroutines around it ([event_loop.go], [Run], [Close], [scheduleTaskSet]
      and its observer, [watchCancellation]): [DagLoop] is their transition system
      ([dag_system_step]), [DagLoopProofs] its invariant, [DagLoopTheorems] the
      properties.  [LocalScheduler] is [src/executor/local_task_scheduler.go], the
      physical scheduler of one process.
    - Shuffle metadata ([src/shuffle/{metadata,input,reference,partitioner}.go]):
      [Shuffle]; [Bytes] has UTF-8, FNV-1a, SHA-256 and white space.
    - Shuffle files ([src/shuffle/{filesystem,writer,reader,record}.go]):
      [FileStore] has the store over a directory whose operations may fail;
      [FileReads] and [FileWrites] prove it an instance of the two interfaces
      below.  [StoreOps] has the same methods as programs of single operations, and
      proves that one that runs alone is the function of [FileStore]; [StoreOwn]
      proves what a method does to the directory and the handle it owns, whatever
      its operations return; [StoreSystem] runs any number of writers and readers
      at the same time, operation by operation, with [CleanupRun] and [Close].
      [Json] has the part of [encoding/json] the records use, [JsonProofs]
      that it reads back what it writes, [Record] the record codec.
    - Executor ([src/executor/{function_registry,failure,text_source,iterator,
      reduce,shuffle_read,pipeline,shuffle_map,local_runner}.go]): [Runtime] has
      contexts, handles and registered functions, [TextSource] the partitions of
      a text file, [Iterator] the iterators and the interface [ShuffleStore],
      [Runner] pipelines and [RunTask]; [IteratorProofs], [RunnerProofs] and
      [MapTasks] prove what a task returns and writes, [RunnerTheorems] the
      result tasks.
    - From map to reduce: [Exchange] relates the buckets of all map outputs to the
      sums of a reduce; [ExampleFuncs] has [src/internal/examplefuncs],
      [WordCount] a whole job run by the model, [ShuffleTheorems] the properties
      of records, map tasks, the exchange and [ReduceByKey].
    - A whole job: [RunnerFuel] frees what a task returns from its fuel, [Meaning]
      defines what a specification means on the lines of its file, [PlanShape] has
      the stages of a specification and [DagFrame] what an event can change.
      [Deployment] lets the job scheduler hear only of attempts that were made for
      the task sets it started, over a store that may lose buckets
      ([deploy_step]), and traces every output it holds to those attempts;
      [Attempts] says what they have done, [EndToEnd] what a job is answered
      with, and [JobRun] runs an example to its answer.
    - Messages ([src/protocol]): [Protocol] has the messages and their [Validate]
      methods, [ProtocolProofs] what they accept.  [Wire] has the JSON of Go types
      and [DecodeAndValidate] ([decode.go]), [WireProofs] that what is marshalled
      is decoded, [Messages] the JSON type of every message, [MessageTheorems] the
      properties.
    - Coordinator ([src/coordinator], [src/executor/scheduler_runner.go],
      [src/api/action.go]): [Coordinator] has every handler over the schedulers,
      the job service and the worker monitor; [Growth] what the FIFO scheduler
      never forgets.
    - Worker ([src/worker]): [Worker] has the client, the loop of [Run] and its
      goroutines ([run_step]), [WorkerProofs] their invariant.
    - A worker's calls over the wire: [Http] has the client ([post]) and the
      endpoints on bytes, and relates a call to the handler's answer.
    - The cluster: [Cluster] puts a coordinator and any number of workers
      together, with the messages between them ([cluster_step]); [ClusterProofs]
      has the invariant, [ClusterTheorems] the properties; [Planned] relates the
      tasks the planner makes to what the protocol admits.
    - Commands ([src/cmd]): [Commands] has what each program does once its flags are
      parsed, and what the coordinator writes to a connection; [CommandProofs] that
      raw records are printed as they are, [CommandTheorems] the properties.

    ** State and effects

    Go's errors are the values of [error] below, with [errors.Is] and
    [errors.As]; a function returning [(T, error)] returns [result T].  Machine
    integers are [Z] with [i64] and [u64] written where Go wraps.  A pointer is an
    [option] and a slice a [list], except on the heap of [SharedGraph].  A mutex makes a
    method of a scheduler one step, so each scheduler is a state and functions on it;
    the calls of several goroutines are the steps of a transition system ([fifo_step],
    [run_step], [cluster_step], [dag_system_step], [local_step]).  The mutexes of the
    file store do not cover its operations on the directory, so there a step is one
    operation of a method ([store_step]).  A [context.Context] is what each of its
    reads returns, so that it may end at any of them.  The executor passes a
    [runtime]: the time of the context, the number of open handles, and the state
    of the shuffle store.

    ** Interfaces

    [Planner.FunctionLookup] is what the planner asks of a registry.
    [Iterator.ShuffleStore] is the store the executor is written against;
    [IteratorProofs.StoreReads] and [MapTasks.StoreWrites] are its contract
    towards readers and writers, under which the executor is proved, and which
    [FileReads] and [FileWrites] prove of the file store.  [Messages.Wire] and
    [Messages.WireMessage] are what a record and a message need for the wire: its
    JSON type, both conversions, and that they are inverse on the values of the type.  [FileStore.RecordCodec]
    and [RecordCodecLaws] are what the store asks of the JSON codec, which
    [Record] provides.  [Exchange.Reducer] is what [ReduceByKey] asks of a reduce
    function; [WordCount.SumInt] is an instance.

    ** The theorems

    - A job, end to end: a job that is answered with a result is answered with its
      action on the records its specification means ([job_correct]).
    - Lineages, plans, tasks: [Plan.AddNode_correct], [Lineage.Validate_correct],
      [Api.Build_correct], [PlannerProofs.Plan_correct],
      [TaskGenerator.GenerateTasks_correct], [validateExecutionPlan_correct] and
      [planned_accepted] say exactly which inputs are accepted, and what comes out of them.
    - Lineage is immutable: whatever a driver writes to the heap it shares with the
      graph, the graph is the one of values ([graph_isolated]); the other copies are
      as independent of their originals ([program_copies]).
    - FIFO scheduling: slots and attempts are conserved
      ([fifo_reservations], [fifo_attempts]), each report counts once, no wake-up
      is lost, a submission returns with one success for each partition.
    - DAG scheduling: the one event that panics is a submission with too many
      partitions for an [int] ([handleEvent_safe]), each job is
      answered once and with the merge of the accepted outputs, stages start
      with complete inputs, recovery restarts exactly what was lost and is
      bounded; [Run] returns its own job's answer ([run_answer]) and [Close]
      returns ([Close_completes]).  In one process every task of a set is reported
      once ([local_reports]).
    - Tasks: [text_partitions], [result_task], [map_task]: every attempt returns,
      releases what it opened, and succeeds only with the result its operations
      define.
    - Shuffles: paths are injective, snapshots are complete, records survive,
      every record is delivered once ([shuffle_exchange]), [ReduceByKey] is the sum
      by key; handles that are open at the same time are safe from each other
      ([open_handles]), and publication is atomic and final ([published_once]),
      between any two operations of any of them.
    - Messages arrive as they were sent ([message_received]), nothing but strict
      JSON is accepted ([decode_strict]), and a worker's call over HTTP is the call
      of the handler ([calls_direct]).  [jobspec.Decode] accepts exactly the files of
      a job and returns that job ([Decode_correct]), and a job specification that is
      accepted by the strict decoder is the same job for it ([jobs_agree]).
    - Commands: a job prints the same bytes in one process and on a cluster
      ([same_output]); the lineage that is explained is the one that is computed
      ([ExplainLineage_correct], [explain_returns]); the coordinator stops its parts
      in order ([coordinator_lifecycle]).
    - The cluster: every heartbeat is answered with assignments, which the worker
      starts unless one of them breaks the protocol's rules for an assignment, and
      every reported success is acknowledged ([protocol_agreement]); each attempt is
      started once, where it was assigned ([started_once]).

    ** Fuel

    Recursion that is not structural runs on fuel.  [Lineage.Validate],
    [Planner.PlanAction] and [decodeRecord] give enough of it themselves, as
    [Validate_total], [PlanAction_total] and [decodeRecord_rejected] prove; so do
    [DecodeAndValidate] ([decode_returns]) and [ExplainLineage] ([collectAncestors_spec]).  The
    loops of [RunTask] have a bound that depends on the data they read; the
    theorems say that there is one and that any fuel beyond it gives the result;
    what a task returns on some fuel it returns on any more ([RunTask_fuel]).

    ** Not modelled

    The transport of HTTP, [flag.Parse] and [url.Parse] (what they return is an argument), signals and
    logging.  In [Cluster] a message is received as it was sent, which
    [calls_direct] proves of its text, at most once for a heartbeat and any number
    of times for a report; worker identifiers are unique.  In [Deployment] an attempt
    runs from one state of the store to another; that the calls of attempts that run
    at the same time do not disturb each other is in [StoreSystem], where every
    operation may be followed by one of another goroutine.  A text file does not fail
    once it is open.  Of the standard library, the texts of [encoding/json] and
    [strconv] errors, and which of several [jobspec.Decode] reports. *)

From Stdlib Require Import ZArith Lia.
From stdpp Require Export base tactics strings list gmap fin_maps pretty relations sorting.

#[global] Open Scope Z_scope.

(** ** Identifiers *)

(** The [uint64] identifiers of [plan/ids.go] are [N]; a partition is an [int]. *)
Notation RDDID := N (only parsing).
Notation JobID := N (only parsing).
Notation StageID := N (only parsing).
Notation ShuffleID := N (only parsing).
Notation TaskID := N (only parsing).
Notation PartitionID := Z (only parsing).
Notation StageAttemptID := N (only parsing).
Notation TaskAttemptID := N (only parsing).
Notation WorkerID := string (only parsing).

(** One execution of a map task, which an input error carries. *)
Record AttemptIdentity := mkIdentity {
  ai_RunID : string;
  ai_JobID : JobID;
  ai_ShuffleID : ShuffleID;
  ai_StageID : StageID;
  ai_StageAttemptID : StageAttemptID;
  ai_TaskID : TaskID;
  ai_TaskAttemptID : TaskAttemptID;
  ai_MapPartitionID : PartitionID }.

#[export] Instance AttemptIdentity_eq_dec : EqDecision AttemptIdentity.
Proof. solve_decision. Defined.

(** ** Errors *)

(** Go's [error].  [Errorf format args] is the value [fmt.Errorf] (or
    [errors.New], with no argument) returns; a [%w] argument is a [FWrap], any
    other error argument is printed and so is an [FErr].  [EJoin] is
    [errors.Join].  Sentinel errors are compared by identity in Go, here by
    their (distinct) texts.  [PermanentError] is [scheduler.permanentError] and
    [InputError] is [shuffle.InputError], the two error types of the program
    that [errors.As] looks for. *)
Inductive error :=
  | Errorf (format : string) (args : list farg)
  | Sentinel (name : string)
  | EJoin (errs : list error)
  | PermanentError (err : error)
  | InputError (attempt : AttemptIdentity) (partition : PartitionID) (err : error)
with farg :=
  | FStr (s : string)
  | FInt (z : Z)
  | FErr (e : error)
  | FWrap (e : error).

(** The sentinels the program tests for. *)
Notation context_Canceled := "context canceled"%string (only parsing).
Notation context_DeadlineExceeded := "context deadline exceeded"%string (only parsing).
Notation fs_ErrNotExist := "file does not exist"%string (only parsing).
Notation fs_ErrPermission := "permission denied"%string (only parsing).
Notation ErrInvalidRecord := "invalid shuffle record"%string (only parsing).
Notation ErrRecordTooLarge := "shuffle record exceeds size limit"%string (only parsing).
Notation ErrShuffleInput := "shuffle input unavailable or corrupt"%string (only parsing).

(** A run-time panic.  It is not an [error] value in Go; functions that could
    panic return it here as one, so that a theorem can state they do not. *)
Definition panic_nil : error := Sentinel "panic: nil pointer dereference".
Definition panic_range : error := Sentinel "panic: index or length out of range".

Definition is_panic (e : error) : bool :=
  match e with Sentinel name => String.prefix "panic: " name | _ => false end.

(** The first [Some] a search of the wrapped causes finds, in the order of
    [errors.As]: the error itself, then its causes depth first. *)
Fixpoint errors_find {A} (f : error -> option A) (e : error) : option A :=
  let causes :=
    fix causes (args : list farg) : option A :=
      match args with
      | [] => None
      | FWrap e' :: args =>
          match errors_find f e' with Some a => Some a | None => causes args end
      | _ :: args => causes args
      end in
  let joined :=
    fix joined (es : list error) : option A :=
      match es with
      | [] => None
      | e' :: es => match errors_find f e' with Some a => Some a | None => joined es end
      end in
  match f e with
  | Some a => Some a
  | None =>
      match e with
      | Errorf _ args => causes args
      | Sentinel _ => None
      | EJoin es => joined es
      | PermanentError e' => errors_find f e'
      | InputError _ _ e' => errors_find f e'
      end
  end.

(** [errors.Is e target] for a sentinel; [InputError.Is] also accepts
    [ErrShuffleInput]. *)
Definition errors_Is (e : error) (target : string) : bool :=
  match errors_find (fun e => match e with
      | Sentinel n => if bool_decide (n = target) then Some tt else None
      | InputError _ _ _ => if bool_decide (target = ErrShuffleInput) then Some tt else None
      | _ => None
      end) e with Some _ => true | None => false end.

Definition errors_As_Input (e : error) : option (AttemptIdentity * PartitionID) :=
  errors_find (fun e => match e with InputError a p _ => Some (a, p) | _ => None end) e.

Definition errors_As_Permanent (e : error) : bool :=
  match errors_find (fun e => match e with PermanentError _ => Some tt | _ => None end) e with
  | Some _ => true | None => false end.

(** [errors.Join]: nil errors are dropped, and joining none is nil. *)
Definition errors_Join (es : list (option error)) : option error :=
  match omap id es with [] => None | es => Some (EJoin es) end.

(** ** Fallible results *)

(** A Go function returning [(T, error)]. *)
Inductive result (A : Type) :=
  | Ok (a : A)
  | Err (e : error).
Arguments Ok {A} a.
Arguments Err {A} e.

#[export] Instance result_ret : MRet result := fun A a => Ok a.
#[export] Instance result_bind : MBind result := fun A B k m =>
  match m with Ok a => k a | Err e => Err e end.

Declare Scope go_scope.
Delimit Scope go_scope with go.
#[global] Open Scope go_scope.

(** [fail_if b e ;; k] is Go's [if b { return e }; k]. *)
Notation "'fail_if' b e ';;' k" := (if (b : bool) then Err e else k)
  (at level 100, b at level 9, e at level 9, k at level 200,
   right associativity, format "'fail_if'  b  e  ;; '/' k") : go_scope.

Definition is_Ok {A} (r : result A) : bool := match r with Ok _ => true | Err _ => false end.

(** [if err := f(x); err != nil { return err }] over a list, as [for range] does. *)
Fixpoint check_all {A} (f : nat -> A -> result unit) (i : nat) (l : list A) : result unit :=
  match l with
  | [] => Ok tt
  | x :: l => _ ← f i x; check_all f (S i) l
  end.

(** Replace the error of a result, Go's [if err != nil { return wrap(err) }]. *)
Definition map_err {A} (w : error -> error) (r : result A) : result A :=
  match r with Ok a => Ok a | Err e => Err (w e) end.

(** ** Fuel *)

(** A Go function whose recursion is not structural runs on fuel: [None] is
    "out of fuel", which every such function is proved never to return when
    started with the fuel its caller gives it. *)
Definition fuelled (A : Type) : Type := option (result A).

Definition fbind {A B} (m : fuelled A) (k : A -> fuelled B) : fuelled B :=
  match m with
  | None => None
  | Some (Err e) => Some (Err e)
  | Some (Ok a) => k a
  end.

Notation "x '←?' m ';' k" := (fbind m (fun x => k))
  (at level 100, m at next level, k at level 200, right associativity) : go_scope.

Lemma fbind_Ok {A B} (m : fuelled A) (k : A -> fuelled B) b :
  fbind m k = Some (Ok b) <-> exists a, m = Some (Ok a) /\ k a = Some (Ok b).
Proof. destruct m as [[a|e]|]; cbn; naive_solver. Qed.

Lemma fbind_total {A B} (m : fuelled A) (k : A -> fuelled B) :
  is_Some m -> (forall a, m = Some (Ok a) -> is_Some (k a)) -> is_Some (fbind m k).
Proof. destruct m as [[a|e]|]; cbn; intros [? [=]] ?; eauto. Qed.

(** ** Machine integers *)

(** [uint64] values are [N], [int]/[int64] values are [Z] (Go's [int] is 64-bit
    on the platforms the program targets). *)
Definition u64 (n : N) : N := (n mod 2 ^ 64)%N.
Definition i64 (z : Z) : Z := (z + 2 ^ 63) mod 2 ^ 64 - 2 ^ 63.

Definition in_i64 (z : Z) : Prop := - 2 ^ 63 <= z < 2 ^ 63.

(** The result of a step that may panic is out of the model's range; a [for]
    loop over a list of [int] indices. *)
Definition zindex {A} (l : list A) (i : Z) : option A :=
  if Z.ltb i 0 then None else l !! Z.to_nat i.

(** ** Tactics *)

(** Case analysis on the first [match]/[if] scrutinee of hypothesis [H]. *)
Ltac case_in H :=
  match type of H with
  | context [ match ?x with _ => _ end ] =>
      lazymatch x with
      | context [ match _ with _ => _ end ] => fail
      | _ => let E := fresh "E" in destruct x eqn:E
      end
  end.

(** Run through the early returns of a Go function that returned [Ok]. *)
Ltac go_ok H :=
  repeat (case_in H; try discriminate H);
  repeat match type of H with Ok _ = Ok _ => injection H as H end.

(** Case analysis on the goal's scrutinees. *)
Ltac case_goal :=
  match goal with
  | |- context [ match ?x with _ => _ end ] =>
      lazymatch x with
      | context [ match _ with _ => _ end ] => fail
      | _ => let E := fresh "E" in destruct x eqn:E
      end
  end.

(** Boolean comparisons to propositions. *)
Ltac to_prop :=
  repeat match goal with
  | H : (_ && _)%bool = true |- _ => apply andb_true_iff in H; destruct H
  | H : (_ || _)%bool = false |- _ => apply orb_false_iff in H; destruct H
  | H : negb _ = true |- _ => apply negb_true_iff in H
  | H : negb _ = false |- _ => apply negb_false_iff in H
  | H : (_ <=? _)%Z = true |- _ => apply Z.leb_le in H
  | H : (_ <=? _)%Z = false |- _ => apply Z.leb_gt in H
  | H : (_ <? _)%Z = true |- _ => apply Z.ltb_lt in H
  | H : (_ <? _)%Z = false |- _ => apply Z.ltb_ge in H
  | H : (_ =? _)%Z = true |- _ => apply Z.eqb_eq in H
  | H : (_ =? _)%Z = false |- _ => apply Z.eqb_neq in H
  | H : bool_decide _ = true |- _ => apply bool_decide_eq_true in H
  | H : bool_decide _ = false |- _ => apply bool_decide_eq_false in H
  end.

(** ** Generic lemmas *)

Create HintDb spark.

Lemma i64_id z : in_i64 z -> i64 z = z.
Proof. unfold in_i64, i64. intros H. rewrite Z.mod_small; lia. Qed.

Lemma i64_range z : in_i64 (i64 z).
Proof. unfold in_i64, i64. pose proof (Z.mod_pos_bound (z + 2 ^ 63) (2 ^ 64)). lia. Qed.

Lemma u64_id n : (n < 2 ^ 64)%N -> u64 n = n.
Proof. unfold u64. apply N.mod_small. Qed.

Lemma u64_lt n : (u64 n < 2 ^ 64)%N.
Proof. unfold u64. apply N.mod_lt. discriminate. Qed.

#[export] Hint Resolve i64_range u64_lt : spark.

Lemma bind_Ok {A B} (m : result A) (k : A -> result B) b :
  (m ≫= k) = Ok b <-> exists a, m = Ok a /\ k a = Ok b.
Proof. destruct m; cbn; naive_solver. Qed.

Lemma bind_unit_Ok {B} (m : result unit) (k : unit -> result B) b :
  (m ≫= k) = Ok b <-> m = Ok tt /\ k tt = Ok b.
Proof. destruct m as [[]|]; cbn; naive_solver. Qed.

Lemma check_all_Ok {A} (f : nat -> A -> result unit) i l :
  check_all f i l = Ok tt <-> forall j x, l !! j = Some x -> f (i + j)%nat x = Ok tt.
Proof.
  revert i. induction l as [|y l IH]; intros i; cbn.
  - naive_solver.
  - rewrite bind_Ok. split.
    + intros ([] & Hy & Hl) [|j] x Hx; cbn in Hx.
      * injection Hx as <-. by rewrite Nat.add_0_r.
      * rewrite IH in Hl. rewrite Nat.add_succ_r. by apply (Hl j).
    + intros H. exists tt. split.
      * specialize (H 0%nat y eq_refl). by rewrite Nat.add_0_r in H.
      * apply IH. intros j x Hx. specialize (H (S j) x Hx). by rewrite Nat.add_succ_r in H.
Qed.

Lemma map_err_Ok {A} w (r : result A) a : map_err w r = Ok a <-> r = Ok a.
Proof. destruct r; cbn; naive_solver. Qed.

Lemma zindex_lookup {A} (l : list A) i x :
  zindex l i = Some x <-> 0 <= i /\ l !! Z.to_nat i = Some x.
Proof. unfold zindex. destruct (Z.ltb_spec i 0); naive_solver lia. Qed.

Lemma default_Some {A} (d x : A) : default d (Some x) = x.
Proof. done. Qed.
