(* ===== verification/Plan.v ===== *)
(** * Plan: lineage data and the RDD graph

    Models package [plan]: the identifiers, operators, dependencies,
    partitioners and nodes of [plan/{ids,operator,dependency,partitioner,rdd_node}.go]
    and the graph operations of [plan/graph.go].  A pointer field is an
    [option]; a string-typed enumeration is an inductive with one constructor
    per constant and one for any other string.  Node copies are values here;
    [SharedGraph] has the pointers, and proves that the copies make this right. *)

From S2P Require Import Prelude.

(** ** Operators, dependencies, partitioners *)

Inductive OperatorKind :=
  | OpSource | OpMap | OpFilter | OpMapToPair | OpMapValues | OpReduceByKey
  | OpOther (s : string).

Record OperatorSpec := mkOperatorSpec {
  op_Kind : OperatorKind;
  op_FunctionID : string;
  op_SourcePath : string }.

Inductive DependencyKind := DependencyNarrow | DependencyShuffle | DependencyOther (s : string).
Inductive NarrowMapping := NarrowOneToOne | NarrowOther (s : string).
Inductive PartitionerKind := PartitionerHash | PartitionerOther (s : string).

Record PartitionerSpec := mkPartitionerSpec {
  pt_Kind : PartitionerKind;
  pt_NumPartitions : Z }.

Definition HashPartitioner (numPartitions : Z) : PartitionerSpec :=
  {| pt_Kind := PartitionerHash; pt_NumPartitions := numPartitions |}.

Record NarrowDependencySpec := mkNarrow { nd_Mapping : NarrowMapping }.

Record ShuffleDependencySpec := mkShuffle {
  sd_ShuffleID : ShuffleID;
  sd_Partitioner : PartitionerSpec;
  sd_AggregatorID : string;
  sd_MapSideCombine : bool }.

Record Dependency := mkDependency {
  dep_Kind : DependencyKind;
  dep_ParentID : RDDID;
  dep_Narrow : option NarrowDependencySpec;
  dep_Shuffle : option ShuffleDependencySpec }.

Record RDDNode := mkRDDNode {
  node_ID : RDDID;
  node_Name : string;
  node_Operator : OperatorSpec;
  node_Dependencies : list Dependency;
  node_NumPartitions : Z;
  node_Partitioner : option PartitionerSpec }.

#[export] Instance OperatorKind_eq_dec : EqDecision OperatorKind.
Proof. solve_decision. Defined.
#[export] Instance OperatorSpec_eq_dec : EqDecision OperatorSpec.
Proof. solve_decision. Defined.
#[export] Instance DependencyKind_eq_dec : EqDecision DependencyKind.
Proof. solve_decision. Defined.
#[export] Instance NarrowMapping_eq_dec : EqDecision NarrowMapping.
Proof. solve_decision. Defined.
#[export] Instance PartitionerKind_eq_dec : EqDecision PartitionerKind.
Proof. solve_decision. Defined.
#[export] Instance PartitionerSpec_eq_dec : EqDecision PartitionerSpec.
Proof. solve_decision. Defined.
#[export] Instance NarrowDependencySpec_eq_dec : EqDecision NarrowDependencySpec.
Proof. solve_decision. Defined.
#[export] Instance ShuffleDependencySpec_eq_dec : EqDecision ShuffleDependencySpec.
Proof. solve_decision. Defined.
#[export] Instance Dependency_eq_dec : EqDecision Dependency.
Proof. solve_decision. Defined.
#[export] Instance RDDNode_eq_dec : EqDecision RDDNode.
Proof. solve_decision. Defined.

(** The zero value a Go map lookup returns for a missing key. *)
Definition zeroNode : RDDNode :=
  {| node_ID := 0%N; node_Name := "";
     node_Operator := {| op_Kind := OpOther ""; op_FunctionID := ""; op_SourcePath := "" |};
     node_Dependencies := []; node_NumPartitions := 0; node_Partitioner := None |}.

Definition with_node_ID (n : RDDNode) (id : RDDID) : RDDNode :=
  {| node_ID := id; node_Name := node_Name n; node_Operator := node_Operator n;
     node_Dependencies := node_Dependencies n; node_NumPartitions := node_NumPartitions n;
     node_Partitioner := node_Partitioner n |}.

(** ** Shape validation *)

Definition validatePartitioner (p : PartitionerSpec) : result unit :=
  match pt_Kind p with
  | PartitionerHash =>
      fail_if (pt_NumPartitions p <=? 0)
        (Errorf "invalid partition count %d" [FInt (pt_NumPartitions p)]);;
      Ok tt
  | PartitionerOther s => Err (Errorf "unsupported partitioner kind %q" [FStr s])
  end.

Definition validateDependencyShape (d : Dependency) : result unit :=
  match dep_Kind d with
  | DependencyNarrow =>
      match dep_Narrow d, dep_Shuffle d with
      | Some nd, None =>
          match nd_Mapping nd with
          | NarrowOneToOne => Ok tt
          | NarrowOther s => Err (Errorf "unsupported narrow mapping %q" [FStr s])
          end
      | _, _ => Err (Errorf "narrow dependency must contain only a narrow specification" [])
      end
  | DependencyShuffle =>
      match dep_Shuffle d, dep_Narrow d with
      | Some sd, None =>
          map_err (fun e => Errorf "shuffle partitioner: %w" [FWrap e])
            (validatePartitioner (sd_Partitioner sd))
      | _, _ => Err (Errorf "shuffle dependency must contain only a shuffle specification" [])
      end
  | DependencyOther s => Err (Errorf "unsupported dependency kind %q" [FStr s])
  end.

Definition validateNodePartitioner (n : RDDNode) : result unit :=
  match node_Partitioner n with
  | None => Ok tt
  | Some p =>
      _ ← map_err (fun e => Errorf "RDD %q partitioner: %w" [FStr (node_Name n); FWrap e])
            (validatePartitioner p);
      fail_if (negb (pt_NumPartitions p =? node_NumPartitions n))
        (Errorf "RDD %q has %d partitions but its partitioner has %d"
           [FStr (node_Name n); FInt (node_NumPartitions n); FInt (pt_NumPartitions p)]);;
      Ok tt
  end.

Definition validateNodeShape (n : RDDNode) : result unit :=
  fail_if (node_NumPartitions n <=? 0)
    (Errorf "RDD %q has invalid partition count %d"
       [FStr (node_Name n); FInt (node_NumPartitions n)]);;
  _ ← validateNodePartitioner n;
  check_all (fun i d =>
    map_err (fun e => Errorf "RDD %q dependency %d: %w"
                        [FStr (node_Name n); FInt (Z.of_nat i); FWrap e])
      (validateDependencyShape d)) 0 (node_Dependencies n).

(** ** The graph *)

Record RDDGraph := mkRDDGraph {
  nextRDDID : RDDID;
  nextShuffleID : ShuffleID;
  nodes : gmap RDDID RDDNode }.

Definition NewRDDGraph : RDDGraph :=
  {| nextRDDID := 0%N; nextShuffleID := 0%N; nodes := ∅ |}.

Definition NewShuffleID (g : RDDGraph) : ShuffleID * RDDGraph :=
  (nextShuffleID g,
   {| nextRDDID := nextRDDID g; nextShuffleID := u64 (nextShuffleID g + 1); nodes := nodes g |}).

Definition AddNode (g : RDDGraph) (n : RDDNode) : result (RDDID * RDDGraph) :=
  _ ← validateNodeShape n;
  let id := nextRDDID g in
  Ok (id, {| nextRDDID := u64 (id + 1); nextShuffleID := nextShuffleID g;
             nodes := <[id := with_node_ID n id]> (nodes g) |}).

Definition Node (g : RDDGraph) (id : RDDID) : option RDDNode := nodes g !! id.

(** [Nodes] scans the IDs below [nextRDDID] in increasing order. *)
Definition Nodes (g : RDDGraph) : list RDDNode :=
  omap (fun i => nodes g !! N.of_nat i) (seq 0 (N.to_nat (nextRDDID g))).

Definition Len (g : RDDGraph) : Z := Z.of_nat (size (nodes g)).

(** ** What the checks mean *)

Definition partitioner_ok (p : PartitionerSpec) : Prop :=
  pt_Kind p = PartitionerHash /\ 0 < pt_NumPartitions p.

Definition dependency_ok (d : Dependency) : Prop :=
  (dep_Kind d = DependencyNarrow /\ dep_Narrow d = Some (mkNarrow NarrowOneToOne) /\
   dep_Shuffle d = None) \/
  (exists sd, dep_Kind d = DependencyShuffle /\ dep_Shuffle d = Some sd /\
   dep_Narrow d = None /\ partitioner_ok (sd_Partitioner sd)).

Definition shape_ok (n : RDDNode) : Prop :=
  0 < node_NumPartitions n /\
  (forall p, node_Partitioner n = Some p ->
     partitioner_ok p /\ pt_NumPartitions p = node_NumPartitions n) /\
  (forall d, d ∈ node_Dependencies n -> dependency_ok d).

Lemma validatePartitioner_spec p : validatePartitioner p = Ok tt <-> partitioner_ok p.
Proof.
  unfold validatePartitioner, partitioner_ok.
  destruct (pt_Kind p); [|naive_solver].
  destruct (Z.leb_spec (pt_NumPartitions p) 0); naive_solver lia.
Qed.

Lemma validateDependencyShape_spec d : validateDependencyShape d = Ok tt <-> dependency_ok d.
Proof.
  unfold validateDependencyShape, dependency_ok.
  destruct d as [[| |s] pid [[m]|] [sd|]]; cbn;
    rewrite ?map_err_Ok, ?validatePartitioner_spec;
    try destruct m; naive_solver.
Qed.

Lemma validateNodePartitioner_spec n :
  validateNodePartitioner n = Ok tt <->
  forall p, node_Partitioner n = Some p ->
    partitioner_ok p /\ pt_NumPartitions p = node_NumPartitions n.
Proof.
  unfold validateNodePartitioner. destruct (node_Partitioner n) as [p|]; [|naive_solver].
  rewrite bind_Ok. setoid_rewrite map_err_Ok.
  destruct (Z.eqb_spec (pt_NumPartitions p) (node_NumPartitions n)); cbn.
  - split.
    + intros ([] & Hp & _) q [= <-]. by rewrite <- validatePartitioner_spec.
    + intros H. exists tt. rewrite validatePartitioner_spec. by destruct (H p eq_refl).
  - split; [by intros (? & _ & ?)|]. intros H. by destruct (H p eq_refl).
Qed.

Lemma validateNodeShape_spec n : validateNodeShape n = Ok tt <-> shape_ok n.
Proof.
  unfold validateNodeShape, shape_ok.
  destruct (Z.leb_spec (node_NumPartitions n) 0); [naive_solver lia|].
  rewrite bind_Ok. setoid_rewrite check_all_Ok. setoid_rewrite map_err_Ok.
  setoid_rewrite validateDependencyShape_spec. setoid_rewrite list_elem_of_lookup.
  split.
  - intros ([] & Hp & Hd). rewrite validateNodePartitioner_spec in Hp.
    split; [done|]. split; [done|]. intros d [i Hi]. by eapply Hd.
  - intros (_ & Hp & Hd). exists tt. rewrite validateNodePartitioner_spec.
    split; [done|]. intros i d Hi. apply Hd. by exists i.
Qed.

Lemma result_unit {r : result unit} : is_Ok r = true <-> r = Ok tt.
Proof. destruct r as [[]|]; cbn; naive_solver. Qed.

(** ** The graph invariant *)

(** IDs are dense and every stored node carries its own ID and a valid shape. *)
Record graph_wf (g : RDDGraph) : Prop := {
  wf_dense : forall id, is_Some (nodes g !! id) <-> (id < nextRDDID g)%N;
  wf_id : forall id n, nodes g !! id = Some n -> node_ID n = id;
  wf_shape : forall id n, nodes g !! id = Some n -> shape_ok n }.

Lemma NewRDDGraph_wf : graph_wf NewRDDGraph.
Proof. split; cbn; intros *; rewrite ?lookup_empty; [|done..]. split; [intros [??]; done|lia]. Qed.

Lemma NewShuffleID_wf g : graph_wf g -> graph_wf (NewShuffleID g).2.
Proof. intros []. by split. Qed.

#[export] Hint Resolve NewRDDGraph_wf NewShuffleID_wf : spark.

Lemma shape_with_id n id : shape_ok (with_node_ID n id) <-> shape_ok n.
Proof. done. Qed.

Lemma AddNode_inv g n id g' :
  AddNode g n = Ok (id, g') ->
  shape_ok n /\ id = nextRDDID g /\
  g' = {| nextRDDID := u64 (id + 1); nextShuffleID := nextShuffleID g;
          nodes := <[id := with_node_ID n id]> (nodes g) |}.
Proof.
  unfold AddNode. rewrite bind_Ok. intros ([] & Hs & [= <- <-]).
  by rewrite validateNodeShape_spec in Hs.
Qed.

Lemma AddNode_Ok g n :
  shape_ok n -> exists g', AddNode g n = Ok (nextRDDID g, g').
Proof. intros Hs%validateNodeShape_spec. unfold AddNode. rewrite Hs. cbn. eauto. Qed.

Lemma AddNode_wf_aux g n id g' :
  graph_wf g -> (nextRDDID g + 1 < 2 ^ 64)%N ->
  AddNode g n = Ok (id, g') ->
  graph_wf g' /\ nextRDDID g' = (nextRDDID g + 1)%N.
Proof.
  intros [Hd Hi Hs] Hlt (Hn & -> & ->)%AddNode_inv. cbn.
  rewrite u64_id by lia. split; [|done].
  split; cbn; [|intros i m; rewrite lookup_insert; case_decide; naive_solver..].
  intros i. rewrite lookup_insert. case_decide as E.
  - subst. split; [lia|eauto].
  - rewrite Hd. lia.
Qed.

Lemma Nodes_lookup g i :
  graph_wf g -> (i < N.to_nat (nextRDDID g))%nat -> Nodes g !! i = nodes g !! N.of_nat i.
Proof.
  intros [Hd _ _] Hi. unfold Nodes.
  assert (Hall : forall k, (k <= N.to_nat (nextRDDID g))%nat ->
    exists l, omap (fun i => nodes g !! N.of_nat i) (seq 0 k) = l /\ length l = k /\
      forall j, (j < k)%nat -> l !! j = nodes g !! N.of_nat j).
  { induction k as [|k IH]; intros Hk; [exists []; cbn; naive_solver lia|].
    destruct IH as (l & Hl & Hlen & Hlk); [lia|].
    destruct (proj2 (Hd (N.of_nat k))) as [n Hn]; [lia|].
    exists (l ++ [n]). rewrite seq_S, omap_app, Hl. cbn. rewrite Hn.
    split; [done|]. split; [rewrite length_app; cbn; lia|].
    intros j Hj. destruct (decide (j = k)) as [->|].
    - rewrite lookup_app_r by lia. rewrite Hlen, Nat.sub_diag. by rewrite Hn.
    - rewrite lookup_app_l by lia. apply Hlk. lia. }
  destruct (Hall _ (le_n _)) as (l & -> & _ & Hlk). by apply Hlk.
Qed.

Lemma Nodes_length g : graph_wf g -> length (Nodes g) = N.to_nat (nextRDDID g).
Proof.
  intros [Hd _ _]. unfold Nodes.
  assert (Hall : forall k, (k <= N.to_nat (nextRDDID g))%nat ->
    length (omap (fun i => nodes g !! N.of_nat i) (seq 0 k)) = k).
  { induction k as [|k IH]; intros Hk; [done|].
    destruct (proj2 (Hd (N.of_nat k))) as [n Hn]; [lia|].
    rewrite seq_S, omap_app, length_app, IH by lia. cbn. rewrite Hn. cbn. lia. }
  by apply Hall.
Qed.

Lemma wf_nodes_dom g :
  graph_wf g -> dom (nodes g) = list_to_set (N.of_nat <$> seq 0 (N.to_nat (nextRDDID g))).
Proof.
  intros [Hd _ _]. apply set_eq. intros i. rewrite elem_of_dom, Hd, elem_of_list_to_set.
  rewrite list_elem_of_fmap. setoid_rewrite elem_of_seq. split.
  - intros. exists (N.to_nat i). lia.
  - intros (j & -> & ?). lia.
Qed.

Lemma wf_size g : graph_wf g -> size (nodes g) = N.to_nat (nextRDDID g).
Proof.
  intros Hwf. rewrite <- size_dom, wf_nodes_dom by done.
  rewrite size_list_to_set.
  - by rewrite length_fmap, length_seq.
  - apply NoDup_fmap_2; [apply _|apply NoDup_seq].
Qed.

#[export] Hint Resolve wf_id wf_shape : spark.

(** ** Properties *)

(** [AddNode] on a well-formed graph stores exactly the given node under
    the next dense ID, changes no other node, appends it to [Nodes], counts it
    in [Len] and keeps the graph well formed; it rejects exactly the nodes whose
    shape is invalid. *)
Theorem AddNode_correct g n :
  graph_wf g -> (nextRDDID g + 1 < 2 ^ 64)%N ->
  match AddNode g n with
  | Ok (id, g') =>
      shape_ok n /\ graph_wf g' /\ id = nextRDDID g /\
      Node g' id = Some (with_node_ID n id) /\
      (forall j, j <> id -> Node g' j = Node g j) /\
      Nodes g' = Nodes g ++ [with_node_ID n id] /\
      Len g' = Len g + 1
  | Err _ => ~ shape_ok n
  end.
Proof.
  intros Hwf Hlt. destruct (AddNode g n) as [[id g']|e] eqn:E.
  - destruct (AddNode_wf_aux _ _ _ _ Hwf Hlt E) as [Hwf' Hnext].
    destruct (AddNode_inv _ _ _ _ E) as (Hn & -> & Hg').
    assert (Hother : forall j, j <> nextRDDID g -> Node g' j = Node g j).
    { intros j Hj. subst g'. unfold Node. cbn. by rewrite lookup_insert_ne. }
    assert (Hnew : Node g' (nextRDDID g) = Some (with_node_ID n (nextRDDID g))).
    { subst g'. unfold Node. cbn. by rewrite lookup_insert_eq. }
    unfold Len. rewrite !wf_size, Hnext by done.
    repeat (split; [done || lia|]). split; [|lia].
    apply list_eq_same_length with (n := N.to_nat (nextRDDID g')).
    { rewrite length_app, Nodes_length by done. cbn. lia. }
    { by rewrite Nodes_length. }
    intros i x y Hi. rewrite Nodes_lookup by (done || lia). intros Hx Hy.
    destruct (decide (i = N.to_nat (nextRDDID g))) as [->|Hne].
    + rewrite N2Nat.id in Hx. unfold Node in Hnew. rewrite Hnew in Hx.
      rewrite lookup_app_r in Hy by (rewrite Nodes_length by done; lia).
      rewrite Nodes_length, Nat.sub_diag in Hy by done. cbn in Hy. congruence.
    + rewrite lookup_app_l in Hy by (rewrite Nodes_length by done; lia).
      rewrite Nodes_lookup in Hy by (done || lia).
      pose proof (Hother (N.of_nat i)) as Ho. unfold Node in Ho. rewrite Ho in Hx by lia.
      congruence.
  - intros Hs. destruct (AddNode_Ok g n Hs) as [g' H]. congruence.
Qed.

Definition example_source : RDDNode :=
  {| node_ID := 0%N; node_Name := "source";
     node_Operator := {| op_Kind := OpSource; op_FunctionID := ""; op_SourcePath := "events.txt" |};
     node_Dependencies := []; node_NumPartitions := 2; node_Partitioner := None |}.

Lemma AddNode_correct_witness :
  graph_wf NewRDDGraph /\ (forall id g, AddNode NewRDDGraph example_source = Ok (id, g) -> Nodes g = [example_source]).
Proof. split; [apply NewRDDGraph_wf|].
  pose proof (AddNode_correct NewRDDGraph example_source NewRDDGraph_wf eq_refl) as H.
  intros id g E. rewrite E in H. destruct H as (_ & _ & -> & _ & _ & H & _). exact H.
Defined.
