(* ===== verification/Lineage.v ===== *)
(** * Lineage: validation of the RDD graph

    Models [plan/validate.go] ([RDDGraph.Validate], [validateFrom],
    [validateOperator]).  The depth-first search is recursive over a mutable
    [states] map; the map is threaded and the recursion runs on fuel, [Validate] supplying one more than
    the number of nodes. *)

From S2P Require Import Prelude Plan.
#[local] Open Scope Z_scope.

(** ** The search *)

Inductive visitState := visitUnseen | visitActive | visitDone.
#[export] Instance visitState_eq_dec : EqDecision visitState.
Proof. solve_decision. Defined.

Definition nodeValidationError (n : RDDNode) (detail : farg) : error :=
  Errorf "validate RDD %d (%s): %s" [FInt (Z.of_N (node_ID n)); FStr (node_Name n); detail].

Definition dep_kind_is (k : DependencyKind) (ds : list Dependency) : bool :=
  match ds with [d] => bool_decide (dep_Kind d = k) | _ => false end.

Definition validateOperator (n : RDDNode) : result unit :=
  let op := node_Operator n in
  match op_Kind op with
  | OpSource =>
      fail_if (bool_decide (op_SourcePath op = ""))
        (Errorf "source path must not be empty" []);;
      fail_if (negb (bool_decide (node_Dependencies n = [])))
        (Errorf "source must not have dependencies" []);;
      Ok tt
  | OpMap | OpFilter | OpMapToPair | OpMapValues =>
      fail_if (bool_decide (op_FunctionID op = ""))
        (Errorf "%s function ID must not be empty" []);;
      fail_if (negb (dep_kind_is DependencyNarrow (node_Dependencies n)))
        (Errorf "%s requires one narrow dependency" []);;
      Ok tt
  | OpReduceByKey =>
      fail_if (bool_decide (op_FunctionID op = ""))
        (Errorf "%s function ID must not be empty" []);;
      fail_if (negb (dep_kind_is DependencyShuffle (node_Dependencies n)))
        (Errorf "%s requires one shuffle dependency" []);;
      Ok tt
  | OpOther s => Err (Errorf "unsupported operator kind %q" [FStr s])
  end.

Notation states := (gmap N visitState) (only parsing).

Section visit.
Context (g : RDDGraph) (visit : RDDID -> states -> fuelled states) (n : RDDNode).

(** [dependency.Kind == DependencyShuffle && dependency.Shuffle...NumPartitions != ...] *)
Definition shuffleCountMismatch (d : Dependency) : bool :=
  match dep_Kind d, dep_Shuffle d with
  | DependencyShuffle, Some sd =>
      negb (pt_NumPartitions (sd_Partitioner sd) =? node_NumPartitions n)
  | _, _ => false
  end.

Fixpoint validateDependencies (i : nat) (ds : list Dependency) (st : states) : fuelled states :=
  match ds with
  | [] => Some (Ok st)
  | d :: ds =>
      match nodes g !! dep_ParentID d with
      | None => Some (Err (nodeValidationError n
          (FErr (Errorf "dependency %d references missing parent RDD %d"
                   [FInt (Z.of_nat i); FInt (Z.of_N (dep_ParentID d))]))))
      | Some parent =>
          if shuffleCountMismatch d then
            Some (Err (nodeValidationError n
              (FErr (Errorf "shuffle reduce count %d does not match partitioner count %d"
                       [FInt (node_NumPartitions n)]))))
          else
            st ←? visit (node_ID parent) st;
            validateDependencies (S i) ds st
      end
  end.
End visit.

Fixpoint validateFrom (fuel : nat) (g : RDDGraph) (id : RDDID) (st : states) : fuelled states :=
  match fuel with
  | O => None
  | S fuel =>
      let n := default zeroNode (nodes g !! id) in
      match default visitUnseen (st !! id) with
      | visitActive => Some (Err (nodeValidationError n (FStr "lineage contains a cycle")))
      | visitDone => Some (Ok st)
      | visitUnseen =>
          match validateNodeShape n with
          | Err e => Some (Err (nodeValidationError n (FErr e)))
          | Ok _ =>
              match validateOperator n with
              | Err e => Some (Err (nodeValidationError n (FErr e)))
              | Ok _ =>
                  st ←? validateDependencies g (validateFrom fuel g) n 0 (node_Dependencies n)
                          (<[id := visitActive]> st);
                  Some (Ok (<[id := visitDone]> st))
              end
          end
      end
  end.

(** The zero-valued graph pointer is [None]. *)
Definition Validate (g : option RDDGraph) (target : RDDID) : fuelled unit :=
  match g with
  | None => Some (Err (Errorf "validate target RDD %d: graph is nil" [FInt (Z.of_N target)]))
  | Some g =>
      match nodes g !! target with
      | None => Some (Err (Errorf "validate target RDD %d: does not exist" [FInt (Z.of_N target)]))
      | Some _ =>
          _ ←? validateFrom (S (size (nodes g))) g target ∅;
          Some (Ok tt)
      end
  end.

(** ** The specification *)

Definition operator_ok (n : RDDNode) : Prop :=
  match op_Kind (node_Operator n) with
  | OpSource => op_SourcePath (node_Operator n) <> "" /\ node_Dependencies n = []
  | OpMap | OpFilter | OpMapToPair | OpMapValues =>
      op_FunctionID (node_Operator n) <> "" /\
      exists d, node_Dependencies n = [d] /\ dep_Kind d = DependencyNarrow
  | OpReduceByKey =>
      op_FunctionID (node_Operator n) <> "" /\
      exists d, node_Dependencies n = [d] /\ dep_Kind d = DependencyShuffle
  | OpOther _ => False
  end.

Definition shuffle_count_ok (n : RDDNode) (d : Dependency) : Prop :=
  forall sd, dep_Kind d = DependencyShuffle -> dep_Shuffle d = Some sd ->
    pt_NumPartitions (sd_Partitioner sd) = node_NumPartitions n.

(** A node that may appear in an executable lineage. *)
Definition node_ok (g : RDDGraph) (id : RDDID) (n : RDDNode) : Prop :=
  nodes g !! id = Some n /\ shape_ok n /\ operator_ok n /\
  forall d, d ∈ node_Dependencies n ->
    is_Some (nodes g !! dep_ParentID d) /\ shuffle_count_ok n d.

(** [parent_of g a b]: [b] is a dependency of [a]. *)
Definition parent_of (g : RDDGraph) (a b : RDDID) : Prop :=
  exists n d, nodes g !! a = Some n /\ d ∈ node_Dependencies n /\ dep_ParentID d = b.

(** The lineage of [target] is executable: every reachable node is valid and no
    reachable node is its own ancestor. *)
Definition lineage_valid (g : RDDGraph) (target : RDDID) : Prop :=
  forall id, rtc (parent_of g) target id ->
    (exists n, node_ok g id n) /\ ~ tc (parent_of g) id id.

(** The same, as a well-founded derivation. *)
Inductive lineage_ok (g : RDDGraph) (id : RDDID) : Prop :=
  lineage_ok_intro n :
    node_ok g id n ->
    (forall d, d ∈ node_Dependencies n -> lineage_ok g (dep_ParentID d)) ->
    lineage_ok g id.

Lemma validateOperator_spec n : validateOperator n = Ok tt <-> operator_ok n.
Proof.
  unfold validateOperator, operator_ok, dep_kind_is.
  destruct (op_Kind (node_Operator n)); repeat case_bool_decide; cbn; try naive_solver;
    destruct (node_Dependencies n) as [|d [|]]; cbn; try case_bool_decide; cbn; naive_solver.
Qed.

Lemma shuffleCountMismatch_spec n d : shuffleCountMismatch n d = false <-> shuffle_count_ok n d.
Proof.
  unfold shuffleCountMismatch, shuffle_count_ok.
  destruct (dep_Kind d), (dep_Shuffle d) as [sd|]; try naive_solver.
  destruct (Z.eqb_spec (pt_NumPartitions (sd_Partitioner sd)) (node_NumPartitions n)); naive_solver.
Qed.

(** ** Soundness *)

Section proofs.
Context (g : RDDGraph) (Hwf : graph_wf g).

Definition done_ok (st : states) : Prop :=
  forall x, st !! x = Some visitDone -> lineage_ok g x.
Definition same_active (st st' : states) : Prop :=
  forall x, st' !! x = Some visitActive <-> st !! x = Some visitActive.
Definition grows (st st' : states) : Prop := dom st ⊆ dom st'.

Lemma frame_refl st : done_ok st -> done_ok st /\ same_active st st /\ grows st st.
Proof. intros H. split; [done|]. split; [done|]. unfold grows. set_solver. Qed.

Lemma validateDependencies_sound visit n ds i st st' :
  (forall x st1 st2, visit x st1 = Some (Ok st2) -> is_Some (nodes g !! x) -> done_ok st1 ->
     lineage_ok g x /\ done_ok st2 /\ same_active st1 st2 /\ grows st1 st2) ->
  validateDependencies g visit n i ds st = Some (Ok st') ->
  done_ok st ->
  (forall d, d ∈ ds -> is_Some (nodes g !! dep_ParentID d) /\ shuffle_count_ok n d /\
                        lineage_ok g (dep_ParentID d)) /\
  done_ok st' /\ same_active st st' /\ grows st st'.
Proof.
  intros Hv. revert i st. induction ds as [|d ds IH]; cbn; intros i st H Hd.
  - injection H as <-. split; [|by apply frame_refl].
    intros d Hin. by apply not_elem_of_nil in Hin.
  - destruct (nodes g !! dep_ParentID d) as [p|] eqn:Hp; [|done].
    destruct (shuffleCountMismatch n d) eqn:Hc; [done|].
    apply fbind_Ok in H as (st1 & H1 & H).
    rewrite (wf_id g Hwf _ _ Hp) in H1.
    apply Hv in H1 as (Hl & Hd1 & Ha1 & Hg1); [|by rewrite Hp|done].
    apply IH in H as (Hds & Hd' & Ha' & Hg'); [|done].
    split; [|split; [done|split]].
    + intros d' [->|Hin]%elem_of_cons; [|by apply Hds].
      rewrite Hp. rewrite <- shuffleCountMismatch_spec. eauto.
    + intros x. by rewrite (Ha' x), (Ha1 x).
    + unfold grows in *. set_solver.
Qed.

Lemma state_cases (st : states) id s :
  default visitUnseen (st !! id) = s -> s <> visitUnseen -> st !! id = Some s.
Proof. destruct (st !! id); cbn; congruence. Qed.

Lemma state_unseen (st : states) id :
  default visitUnseen (st !! id) = visitUnseen ->
  st !! id <> Some visitActive /\ st !! id <> Some visitDone.
Proof. destruct (st !! id); cbn; naive_solver. Qed.

Lemma validateFrom_sound fuel id st st' :
  validateFrom fuel g id st = Some (Ok st') -> is_Some (nodes g !! id) -> done_ok st ->
  lineage_ok g id /\ done_ok st' /\ same_active st st' /\ grows st st'.
Proof.
  revert id st st'. induction fuel as [|fuel IH]; intros id st st' H [n Hn] Hd; [done|].
  cbn [validateFrom] in H. rewrite Hn, default_Some in H.
  destruct (default visitUnseen (st !! id)) eqn:Hs; [|done|].
  2:{ injection H as <-. apply state_cases in Hs; [|done].
      split; [by apply Hd|]. by apply frame_refl. }
  apply state_unseen in Hs as [Hna Hnd].
  destruct (validateNodeShape n) as [[]|] eqn:Hshape; [|done].
  destruct (validateOperator n) as [[]|] eqn:Hop; [|done].
  apply fbind_Ok in H as (st1 & H & [= <-]).
  apply validateDependencies_sound in H as (Hds & Hd1 & Ha1 & Hg1); [|exact IH|].
  2:{ intros x. rewrite lookup_insert. case_decide; [done|]. apply Hd. }
  assert (Hl : lineage_ok g id).
  { exists n; [|intros d Hin; by apply Hds].
    rewrite validateNodeShape_spec in Hshape. rewrite validateOperator_spec in Hop.
    split; [done|]. split; [done|]. split; [done|].
    intros d Hin. by destruct (Hds d Hin) as (? & ? & _). }
  split; [done|split; [|split]].
  - intros x. rewrite lookup_insert. case_decide; [by subst|]. apply Hd1.
  - intros x. rewrite lookup_insert. case_decide as E.
    + subst. naive_solver.
    + rewrite (Ha1 x). by rewrite lookup_insert_ne.
  - unfold grows in *. rewrite dom_insert_L in *. set_solver.
Qed.

(** ** Completeness *)

Lemma lineage_ok_reach id x :
  lineage_ok g id -> rtc (parent_of g) id x -> lineage_ok g x.
Proof.
  intros H Hr. revert H. induction Hr as [|a b c (n & d & Hn & Hin & <-) _ IH]; [done|].
  intros [m Hm Hds]. apply IH. destruct Hm as (Hm & _). apply Hds. congruence.
Qed.

Lemma tc_first_step a b : tc (parent_of g) a b ->
  exists c, parent_of g a c /\ rtc (parent_of g) c b.
Proof. intros H. destruct H as [x y|x y z]; eauto using rtc_refl, tc_rtc. Qed.

Lemma lineage_ok_acyclic id : lineage_ok g id -> ~ tc (parent_of g) id id.
Proof.
  intros H. induction H as [id n Hn Hds IH]. intros Hc.
  apply tc_first_step in Hc as (c & (m & d & Hm & Hin & <-) & Hr).
  destruct Hn as (Hn & _). assert (m = n) as -> by congruence.
  apply (IH d Hin). eapply tc_rtc_l; [exact Hr|].
  apply tc_once. by exists n, d.
Qed.

Lemma validateDependencies_complete fuel n ds i st e :
  (forall x st1 e, validateFrom fuel g x st1 = Some (Err e) -> done_ok st1 ->
     (forall y, st1 !! y = Some visitActive -> ~ rtc (parent_of g) x y) ->
     lineage_ok g x -> False) ->
  validateDependencies g (validateFrom fuel g) n i ds st = Some (Err e) ->
  done_ok st ->
  (forall d, d ∈ ds -> is_Some (nodes g !! dep_ParentID d) /\ shuffle_count_ok n d /\
     lineage_ok g (dep_ParentID d) /\
     forall y, st !! y = Some visitActive -> ~ rtc (parent_of g) (dep_ParentID d) y) ->
  False.
Proof.
  intros Hv. revert i st. induction ds as [|d ds IH]; cbn; intros i st H Hd Hds; [done|].
  destruct (Hds d) as ([p Hp] & Hc & Hl & Ha); [by left|].
  rewrite Hp in H. apply shuffleCountMismatch_spec in Hc. rewrite Hc in H.
  rewrite (wf_id g Hwf _ _ Hp) in H.
  destruct (validateFrom fuel g (dep_ParentID d) st) as [[st1|e1]|] eqn:E; cbn in H; [| |done].
  - apply validateFrom_sound in E as (_ & Hd1 & Ha1 & _); [|by rewrite Hp|done].
    eapply IH; [exact H|done|]. intros d' Hin.
    destruct (Hds d') as (? & ? & ? & Hr); [by right|].
    split; [done|]. split; [done|]. split; [done|]. intros y Hy. apply Hr. by apply Ha1.
  - by eapply Hv.
Qed.

Lemma validateFrom_complete fuel id st e :
  validateFrom fuel g id st = Some (Err e) -> done_ok st ->
  (forall y, st !! y = Some visitActive -> ~ rtc (parent_of g) id y) ->
  lineage_ok g id -> False.
Proof.
  revert id st e. induction fuel as [|fuel IH]; intros id st e H Hd Ha Hl; [done|].
  pose proof (lineage_ok_acyclic _ Hl) as Hacyc.
  destruct Hl as [n (Hn & Hshape & Hop & Hdeps) Hds].
  cbn [validateFrom] in H. rewrite Hn, default_Some in H.
  destruct (default visitUnseen (st !! id)) eqn:Hs; [|..|done].
  2:{ apply state_cases in Hs; [|done]. by apply (Ha id). }
  apply validateNodeShape_spec in Hshape. apply validateOperator_spec in Hop.
  rewrite Hshape, Hop in H.
  destruct (validateDependencies _ _ _ _ _ _) as [[st1|e1]|] eqn:E; cbn in H; [done| |done].
  eapply validateDependencies_complete in E; [done|exact IH|..].
  - intros x. rewrite lookup_insert. case_decide; [done|]. apply Hd.
  - intros d Hin. destruct (Hdeps d Hin) as [Hp Hc].
    split; [done|]. split; [done|]. split; [by apply Hds|].
    intros y. rewrite lookup_insert.
    assert (Hstep : parent_of g id (dep_ParentID d)) by (by exists n, d).
    case_decide as Ey.
    + subst y. intros _ Hr. apply Hacyc. eapply tc_rtc_r; [by apply tc_once|done].
    + intros Hy Hr. apply (Ha y Hy). by eapply rtc_l.
Qed.

(** ** Termination *)

Definition unseen (st : states) : nat := size (dom (nodes g) ∖ dom st).

Lemma unseen_grows st st' : grows st st' -> (unseen st' <= unseen st)%nat.
Proof. unfold grows, unseen. intros. apply subseteq_size. set_solver. Qed.

Lemma unseen_insert st id s :
  is_Some (nodes g !! id) -> st !! id = None -> (unseen (<[id := s]> st) < unseen st)%nat.
Proof.
  intros Hn%elem_of_dom Hst%not_elem_of_dom. unfold unseen. apply subset_size.
  rewrite dom_insert_L. set_solver.
Qed.

(** The [states] map only ever holds [visitActive] and [visitDone]. *)
Definition no_unseen (st : states) : Prop := forall x, st !! x <> Some visitUnseen.

Lemma no_unseen_insert st id s : s <> visitUnseen -> no_unseen st -> no_unseen (<[id := s]> st).
Proof. intros Hs Hn x. rewrite lookup_insert. case_decide; [congruence|apply Hn]. Qed.

Ltac err_done := by (eexists; split; [done|intros ? [=]]).

Lemma validateDependencies_terminates visit n ds i st k :
  (forall x st1, is_Some (nodes g !! x) -> no_unseen st1 -> (unseen st1 <= k)%nat ->
     exists r, visit x st1 = Some r /\
       forall st2, r = Ok st2 -> no_unseen st2 /\ grows st1 st2) ->
  no_unseen st -> (unseen st <= k)%nat ->
  exists r, validateDependencies g visit n i ds st = Some r /\
    forall st', r = Ok st' -> no_unseen st' /\ grows st st'.
Proof.
  intros Hv. revert i st. induction ds as [|d ds IH]; cbn; intros i st Hn Hk.
  - eexists; split; [done|]. intros ? [= <-]. split; [done|]. unfold grows; set_solver.
  - destruct (nodes g !! dep_ParentID d) as [p|] eqn:Hp; [|err_done].
    destruct (shuffleCountMismatch n d) eqn:Hc; [err_done|].
    rewrite (wf_id g Hwf _ _ Hp).
    destruct (Hv (dep_ParentID d) st) as ([st1|e] & -> & H1); [by rewrite Hp|done|done| |].
    + cbn. destruct (H1 _ eq_refl) as [Hn1 Hg1].
      destruct (IH (S i) st1) as (r & -> & H2); [done|apply unseen_grows in Hg1; lia|].
      eexists; split; [done|]. intros st' Hst'. destruct (H2 _ Hst').
      split; [done|]. unfold grows in *; set_solver.
    + cbn. err_done.
Qed.

Lemma validateFrom_terminates fuel id st :
  is_Some (nodes g !! id) -> no_unseen st -> (unseen st < fuel)%nat ->
  exists r, validateFrom fuel g id st = Some r /\
    forall st', r = Ok st' -> no_unseen st' /\ grows st st'.
Proof.
  revert id st. induction fuel as [|fuel IH]; intros id st [n Hn] Hu Hf; [lia|].
  cbn [validateFrom]. rewrite Hn, default_Some.
  destruct (st !! id) as [s|] eqn:Hst; cbn.
  { destruct s; [by destruct (Hu id)|err_done|].
    eexists; split; [done|]. intros ? [= <-]. split; [done|]. unfold grows; set_solver. }
  destruct (validateNodeShape n) as [[]|]; [|err_done].
  destruct (validateOperator n) as [[]|]; [|err_done].
  pose proof (unseen_insert st id visitActive (mk_is_Some _ _ Hn) Hst) as Hlt.
  destruct (validateDependencies_terminates (validateFrom fuel g) n
    (node_Dependencies n) 0 (<[id := visitActive]> st) (unseen (<[id := visitActive]> st)))
    as ([st1|e] & -> & H1).
  - intros x st1 Hx Hn1 Hk. apply IH; [done|done|lia].
  - by apply no_unseen_insert.
  - done.
  - cbn. destruct (H1 _ eq_refl) as [Hn1 Hg1].
    eexists; split; [done|]. intros ? [= <-]. split; [by apply no_unseen_insert|].
    unfold grows in *. rewrite dom_insert_L in *. set_solver.
  - cbn. err_done.
Qed.

Lemma lineage_ok_valid id : lineage_ok g id -> lineage_valid g id.
Proof.
  intros H x Hx. pose proof (lineage_ok_reach _ _ H Hx) as Hl. split.
  - destruct Hl as [n ? _]. by exists n.
  - by apply lineage_ok_acyclic.
Qed.

(** A valid lineage is well founded because the graph is finite. *)
Lemma lineage_valid_ok id : lineage_valid g id -> lineage_ok g id.
Proof.
  intros Hv.
  assert (Hind : forall k x (seen : gset N),
    (size (dom (nodes g) ∖ seen) <= k)%nat ->
    (forall y, y ∈ seen -> tc (parent_of g) y x) ->
    rtc (parent_of g) id x -> lineage_ok g x).
  { induction k as [k IH] using lt_wf_ind. intros x seen Hk Hseen Hr.
    destruct (Hv x Hr) as [[n Hn] Hac]. exists n; [done|]. intros d Hin.
    destruct Hn as (Hn & _ & _ & Hdeps).
    assert (Hstep : parent_of g x (dep_ParentID d)) by (by exists n, d).
    assert (x ∉ seen) by (intros Hx%Hseen; done).
    assert (Hx : x ∈ dom (nodes g)) by (apply elem_of_dom; eauto).
    assert (size (dom (nodes g) ∖ ({[x]} ∪ seen)) < size (dom (nodes g) ∖ seen))%nat
      by (apply subset_size; set_solver).
    eapply (IH (size (dom (nodes g) ∖ ({[x]} ∪ seen)))) with (seen := {[x]} ∪ seen); [lia|done| |].
    - intros y [->%elem_of_singleton|Hy%Hseen]%elem_of_union; [by apply tc_once|].
      by eapply tc_r.
    - by eapply rtc_r. }
  eapply (Hind _ id ∅); [done|set_solver|apply rtc_refl].
Qed.

Lemma Validate_total t : exists r, Validate (Some g) t = Some r.
Proof.
  unfold Validate. destruct (nodes g !! t) as [n|] eqn:Hn; [|eauto].
  destruct (validateFrom_terminates (S (size (nodes g))) t ∅) as ([st|e] & -> & _);
    [by rewrite Hn|intros ?; by rewrite lookup_empty| |cbn; eauto..].
  unfold unseen. rewrite dom_empty_L, difference_empty_L, size_dom. lia.
Qed.

Lemma Validate_lineage_ok t : Validate (Some g) t = Some (Ok tt) <-> lineage_ok g t.
Proof.
  split.
  - unfold Validate. destruct (nodes g !! t) as [n|] eqn:Hn; [|done].
    intros (st & H & _)%fbind_Ok.
    apply validateFrom_sound in H as [? _]; [done|by rewrite Hn|].
    intros x. by rewrite lookup_empty.
  - intros Hl. destruct (Validate_total t) as [[[]|e] H]; [done|]. exfalso.
    unfold Validate in H. destruct Hl as [n Hn Hds]. pose proof Hn as (Hn' & _).
    rewrite Hn' in H.
    destruct (validateFrom _ _ _ _) as [[st|e1]|] eqn:E; cbn in H; [done| |done].
    eapply validateFrom_complete; [exact E|..].
    + intros x. by rewrite lookup_empty.
    + intros x. by rewrite lookup_empty.
    + by exists n.
Qed.
End proofs.

(** ** Properties *)

(** C29. [Validate] always terminates, and it accepts a target exactly when the
    target's lineage is executable: every reachable node exists, has a valid
    shape, operator and shuffle partition counts, and no reachable node is its
    own ancestor. *)
Theorem Validate_correct g t :
  graph_wf g ->
  (exists r, Validate (Some g) t = Some r) /\
  (Validate (Some g) t = Some (Ok tt) <-> lineage_valid g t).
Proof.
  intros Hwf. split; [by apply Validate_total|].
  rewrite Validate_lineage_ok by done.
  split; [by apply lineage_ok_valid|by apply lineage_valid_ok].
Qed.

(** A source, a map over it and a reduction of the map. *)
Definition example_map : RDDNode :=
  {| node_ID := 1%N; node_Name := "MapToPair";
     node_Operator := {| op_Kind := OpMapToPair; op_FunctionID := "word_pair"; op_SourcePath := "" |};
     node_Dependencies := [{| dep_Kind := DependencyNarrow; dep_ParentID := 0%N;
                              dep_Narrow := Some (mkNarrow NarrowOneToOne); dep_Shuffle := None |}];
     node_NumPartitions := 2; node_Partitioner := None |}.

Definition example_reduce : RDDNode :=
  {| node_ID := 2%N; node_Name := "ReduceByKey";
     node_Operator := {| op_Kind := OpReduceByKey; op_FunctionID := "sum_int"; op_SourcePath := "" |};
     node_Dependencies := [{| dep_Kind := DependencyShuffle; dep_ParentID := 1%N;
                              dep_Narrow := None;
                              dep_Shuffle := Some {| sd_ShuffleID := 0%N;
                                                     sd_Partitioner := HashPartitioner 3;
                                                     sd_AggregatorID := "sum_int";
                                                     sd_MapSideCombine := true |} |}];
     node_NumPartitions := 3; node_Partitioner := Some (HashPartitioner 3) |}.

Definition add_all (ns : list RDDNode) : RDDGraph :=
  foldl (fun g n => match AddNode g n with Ok (_, g') => g' | Err _ => g end) NewRDDGraph ns.

Definition example_graph : RDDGraph := add_all [example_source; example_map; example_reduce].

Lemma add_all_wf ns : (N.of_nat (length ns) < 2 ^ 64)%N -> graph_wf (add_all ns).
Proof.
  assert (H : (N.of_nat (length ns) < 2 ^ 64)%N ->
    graph_wf (add_all ns) /\ (nextRDDID (add_all ns) <= N.of_nat (length ns))%N);
    [|intros; by apply H].
  induction ns as [|n ns IH] using rev_ind; intros Hlen; [split; [apply NewRDDGraph_wf|cbn; lia]|].
  unfold add_all in *. rewrite foldl_app. rewrite length_app in *. cbn [foldl length] in *.
  destruct IH as [Hwf Hn]; [lia|].
  destruct (AddNode _ n) as [[id g']|e] eqn:E; [|split; [done|lia]].
  apply AddNode_wf_aux in E as [? ->]; [|done|lia]. split; [done|lia].
Qed.

Lemma example_graph_wf : graph_wf example_graph.
Proof. by apply add_all_wf. Qed.

Lemma Validate_correct_witness : lineage_valid example_graph 2%N.
Proof.
  apply (proj1 (proj2 (Validate_correct example_graph 2%N example_graph_wf))).
  vm_compute. reflexivity.
Defined.
