(* ===== verification/Stages.v ===== *)
(** * Stages: the scheduler's plan and task data

    Models [scheduler/{stage,operation,task}.go]: actions, stages, stage
    operations, logical tasks and attempt identities. *)

From S2P Require Import Prelude Plan.
#[local] Open Scope Z_scope.

Inductive StageKind := StageShuffleMap | StageResult | StageOther (s : string).
Inductive ActionKind := ActionCollect | ActionCount | ActionOther (s : string).
Inductive StageOperationKind :=
  | StageOperationRDD | StageOperationShuffleRead | StageOperationOther (s : string).

Record ActionSpec := mkAction {
  act_Kind : ActionKind;
  act_TargetRDD : RDDID }.

Record ShuffleWriteSpec := mkShuffleWrite {
  sw_ShuffleID : ShuffleID;
  sw_Partitioner : PartitionerSpec;
  sw_AggregatorID : string;
  sw_MapSideCombine : bool }.

Record RDDOperationSpec := mkRDDOperation {
  ro_RDDID : RDDID;
  ro_Operator : OperatorSpec }.

Record ShuffleReadSpec := mkShuffleRead {
  sr_ShuffleID : ShuffleID;
  sr_Partitioner : PartitionerSpec }.

Record StageOperation := mkStageOperation {
  so_Kind : StageOperationKind;
  so_RDD : option RDDOperationSpec;
  so_ShuffleRead : option ShuffleReadSpec }.

Record Stage := mkStage {
  st_ID : StageID;
  st_Kind : StageKind;
  st_ParentIDs : list StageID;
  st_NumPartitions : Z;
  st_Operations : list StageOperation;
  st_ShuffleWrite : option ShuffleWriteSpec;
  st_FinalAction : option ActionSpec }.

Record StagePlan := mkStagePlan {
  sp_TargetRDD : RDDID;
  sp_Stages : list Stage }.

Record Task := mkTask {
  t_ID : TaskID;
  t_StageID : StageID;
  t_StageKind : StageKind;
  t_PartitionID : PartitionID;
  t_NumPartitions : Z;
  t_Operations : list StageOperation;
  t_ShuffleWrite : option ShuffleWriteSpec;
  t_FinalAction : option ActionSpec }.

Record TaskAttemptIdentity := mkAttempt {
  ta_ID : TaskAttemptID;
  ta_TaskID : TaskID;
  ta_StageAttemptID : StageAttemptID }.

Inductive TaskState := TaskPending | TaskRunning | TaskSucceeded | TaskFailed.

#[export] Instance StageKind_eq_dec : EqDecision StageKind.
Proof. solve_decision. Defined.
#[export] Instance ActionKind_eq_dec : EqDecision ActionKind.
Proof. solve_decision. Defined.
#[export] Instance StageOperationKind_eq_dec : EqDecision StageOperationKind.
Proof. solve_decision. Defined.
#[export] Instance ActionSpec_eq_dec : EqDecision ActionSpec.
Proof. solve_decision. Defined.
#[export] Instance ShuffleWriteSpec_eq_dec : EqDecision ShuffleWriteSpec.
Proof. solve_decision. Defined.
#[export] Instance RDDOperationSpec_eq_dec : EqDecision RDDOperationSpec.
Proof. solve_decision. Defined.
#[export] Instance ShuffleReadSpec_eq_dec : EqDecision ShuffleReadSpec.
Proof. solve_decision. Defined.
#[export] Instance StageOperation_eq_dec : EqDecision StageOperation.
Proof. solve_decision. Defined.
#[export] Instance Stage_eq_dec : EqDecision Stage.
Proof. solve_decision. Defined.
#[export] Instance Task_eq_dec : EqDecision Task.
Proof. solve_decision. Defined.
#[export] Instance TaskAttemptIdentity_eq_dec : EqDecision TaskAttemptIdentity.
Proof. solve_decision. Defined.
#[export] Instance TaskState_eq_dec : EqDecision TaskState.
Proof. solve_decision. Defined.
