(* ===== verification/Planner.v ===== *)
(** * Planner: stage DAG construction

    Models [scheduler/function_validation.go], [scheduler/planner.go] and
    [validateExecutionPlan] of [scheduler/dag_stage_execution.go].  The
    [stageBuilder] is threaded as state; [buildPipeline], [buildStage] and
    [buildShuffleStage] are mutually recursive on the lineage and run on fuel
    (one more than the number of nodes). *)

From S2P Require Import Prelude Plan Lineage Stages.
#[local] Open Scope Z_scope.

(** ** Function validation *)

(** The [FunctionLookup] interface. *)
Record FunctionLookup := {
  HasMap : string -> bool;
  HasFilter : string -> bool;
  HasPairMap : string -> bool;
  HasValueMap : string -> bool;
  HasReduce : string -> bool }.

Definition validateNodeFunction (n : RDDNode) (fs : FunctionLookup) : result unit :=
  let id := op_FunctionID (node_Operator n) in
  let check (kind : string) (exists_ : bool) : result unit :=
    fail_if (negb exists_) (Errorf "%s function %q is not registered" [FStr kind; FStr id]);;
    Ok tt in
  match op_Kind (node_Operator n) with
  | OpSource => Ok tt
  | OpMap => check "map" (HasMap fs id)
  | OpFilter => check "filter" (HasFilter fs id)
  | OpMapToPair => check "pair-map" (HasPairMap fs id)
  | OpMapValues => check "value-map" (HasValueMap fs id)
  | OpReduceByKey => check "reduce" (HasReduce fs id)
  | OpOther _ => check "" false
  end.

Fixpoint validateFunctionsDeps (visit : RDDID -> gset N -> fuelled (gset N))
    (ds : list Dependency) (visited : gset N) : fuelled (gset N) :=
  match ds with
  | [] => Some (Ok visited)
  | d :: ds =>
      visited ←? visit (dep_ParentID d) visited;
      validateFunctionsDeps visit ds visited
  end.

(** The closure [validateFrom] inside [validateFunctions]. *)
Fixpoint validateFunctionsFrom (fuel : nat) (g : RDDGraph) (fs : FunctionLookup)
    (id : RDDID) (visited : gset N) : fuelled (gset N) :=
  match fuel with
  | O => None
  | S fuel =>
      if bool_decide (id ∈ visited) then Some (Ok visited)
      else
        let n := default zeroNode (Node g id) in
        match validateNodeFunction n fs with
        | Err e => Some (Err (Errorf "validate RDD %d (%s): %w"
                     [FInt (Z.of_N (node_ID n)); FStr (node_Name n); FWrap e]))
        | Ok _ => validateFunctionsDeps (validateFunctionsFrom fuel g fs)
                    (node_Dependencies n) ({[id]} ∪ visited)
        end
  end.

Definition validateFunctions (g : option RDDGraph) (target : RDDID) (fs : option FunctionLookup)
    : fuelled unit :=
  _ ←? Validate g target;
  match g, fs with
  | _, None => Some (Err (Errorf "validate functions for RDD %d: function lookup is nil"
                       [FInt (Z.of_N target)]))
  | None, _ => Some (Err panic_nil)
  | Some g, Some fs =>
      _ ←? validateFunctionsFrom (S (size (nodes g))) g fs target ∅;
      Some (Ok tt)
  end.

(** ** The stage builder *)

Record stageBuilder := mkBuilder {
  b_stages : list Stage;
  b_shuffleStages : gmap ShuffleID StageID }.

Definition pipeline : Type := list StageOperation * list StageID * stageBuilder.

Definition rddOperation (n : RDDNode) : StageOperation :=
  {| so_Kind := StageOperationRDD;
     so_RDD := Some {| ro_RDDID := node_ID n; ro_Operator := node_Operator n |};
     so_ShuffleRead := None |}.

Definition shuffleReadOperation (sd : ShuffleDependencySpec) : StageOperation :=
  {| so_Kind := StageOperationShuffleRead; so_RDD := None;
     so_ShuffleRead := Some {| sr_ShuffleID := sd_ShuffleID sd;
                               sr_Partitioner := sd_Partitioner sd |} |}.

Definition shuffleWriteSpec (sd : ShuffleDependencySpec) : ShuffleWriteSpec :=
  {| sw_ShuffleID := sd_ShuffleID sd; sw_Partitioner := sd_Partitioner sd;
     sw_AggregatorID := sd_AggregatorID sd; sw_MapSideCombine := sd_MapSideCombine sd |}.

Section builder.
Context (g : RDDGraph) (bp : stageBuilder -> RDDID -> fuelled pipeline).

Definition buildStage (b : stageBuilder) (target : RDDID) (kind : StageKind)
    (sw : option ShuffleWriteSpec) (fa : option ActionSpec) : fuelled (StageID * stageBuilder) :=
  p ←? bp b target;
  let '(ops, parents, b) := p in
  let n := default zeroNode (Node g target) in
  let id := N.of_nat (length (b_stages b)) in
  Some (Ok (id,
    {| b_stages := b_stages b ++
         [{| st_ID := id; st_Kind := kind; st_ParentIDs := parents;
             st_NumPartitions := node_NumPartitions n; st_Operations := ops;
             st_ShuffleWrite := sw; st_FinalAction := fa |}];
       b_shuffleStages := b_shuffleStages b |})).

Definition buildShuffleStage (b : stageBuilder) (d : Dependency)
    : fuelled (StageID * stageBuilder) :=
  match dep_Shuffle d with
  | None => Some (Err panic_nil)
  | Some sd =>
      match b_shuffleStages b !! sd_ShuffleID sd with
      | Some id => Some (Ok (id, b))
      | None =>
          p ←? buildStage b (dep_ParentID d) StageShuffleMap (Some (shuffleWriteSpec sd)) None;
          let '(id, b) := p in
          Some (Ok (id, {| b_stages := b_stages b;
                           b_shuffleStages := <[sd_ShuffleID sd := id]> (b_shuffleStages b) |}))
      end
  end.
End builder.

Fixpoint buildPipeline (fuel : nat) (g : RDDGraph) (b : stageBuilder) (id : RDDID)
    : fuelled pipeline :=
  match fuel with
  | O => None
  | S fuel =>
      match Node g id with
      | None => Some (Err (Errorf "build stage pipeline: RDD %d does not exist"
                             [FInt (Z.of_N id)]))
      | Some n =>
          match node_Dependencies n with
          | [] => Some (Ok ([rddOperation n], [], b))
          | d :: _ =>
              match dep_Kind d with
              | DependencyNarrow =>
                  p ←? buildPipeline fuel g b (dep_ParentID d);
                  let '(ops, parents, b) := p in
                  Some (Ok (ops ++ [rddOperation n], parents, b))
              | DependencyShuffle =>
                  p ←? buildShuffleStage g (buildPipeline fuel g) b d;
                  let '(parent, b) := p in
                  match dep_Shuffle d with
                  | None => Some (Err panic_nil)
                  | Some sd => Some (Ok ([shuffleReadOperation sd; rddOperation n], [parent], b))
                  end
              | DependencyOther s =>
                  Some (Err (Errorf "build stage pipeline for RDD %d (%s): unsupported dependency kind %q"
                               [FInt (Z.of_N (node_ID n)); FStr (node_Name n); FStr s]))
              end
          end
      end
  end.

(** ** Planning *)

Definition action_label (a : ActionSpec) : list farg := [FInt (Z.of_N (act_TargetRDD a))].

Definition validateAction (a : ActionSpec) : result unit :=
  match act_Kind a with
  | ActionCollect | ActionCount => Ok tt
  | ActionOther s => Err (Errorf "plan action %q for RDD %d: unsupported action" (FStr s :: action_label a))
  end.

(** The planner pointer is [None] when nil; its only field is the lookup. *)
Definition PlanAction (p : option (option FunctionLookup)) (g : option RDDGraph) (a : ActionSpec)
    : fuelled StagePlan :=
  match p with
  | None => Some (Err (Errorf "plan action %q for RDD %d: planner is nil" (action_label a)))
  | Some fs =>
      match validateAction a with
      | Err e => Some (Err e)
      | Ok _ =>
          match validateFunctions g (act_TargetRDD a) fs with
          | None => None
          | Some (Err e) => Some (Err (Errorf "plan action %q for RDD %d: %w"
                                         (action_label a ++ [FWrap e])))
          | Some (Ok _) =>
              match g with
              | None => Some (Err panic_nil)
              | Some g =>
                  r ←? buildStage g (buildPipeline (S (size (nodes g))) g)
                         {| b_stages := []; b_shuffleStages := ∅ |}
                         (act_TargetRDD a) StageResult None (Some a);
                  Some (Ok {| sp_TargetRDD := act_TargetRDD a; sp_Stages := b_stages r.2 |})
              end
          end
      end
  end.

(** Only narrow jobs and one shuffle followed by a result stage are executable. *)
Definition isSingleShuffle (parent child : Stage) : bool :=
  bool_decide (st_Kind parent = StageShuffleMap) &&
  bool_decide (st_ParentIDs parent = []) &&
  bool_decide (st_Kind child = StageResult) &&
  bool_decide (st_ParentIDs child = [st_ID parent]) &&
  match st_ShuffleWrite parent, st_Operations child with
  | Some sw, op :: _ =>
      match so_ShuffleRead op with
      | Some read => bool_decide (sr_ShuffleID read = sw_ShuffleID sw)
      | None => false
      end
  | _, _ => false
  end.

Definition validateExecutionPlan (p : StagePlan) : result unit :=
  match sp_Stages p with
  | [s] =>
      if bool_decide (st_Kind s = StageResult) && bool_decide (st_ParentIDs s = []) &&
         bool_decide (st_ShuffleWrite s = None)
      then Ok tt
      else Err (Errorf "only narrow or single-shuffle execution is supported" [])
  | [parent; child] =>
      if isSingleShuffle parent child then Ok tt
      else Err (Errorf "only narrow or single-shuffle execution is supported" [])
  | _ => Err (Errorf "only narrow or single-shuffle execution is supported" [])
  end.
