(* ===== verification/PlannerProofs.v ===== *)
(** * PlannerProofs: what a stage plan is

    A validated lineage is a chain of nodes.  The mutually recursive builder of
    [Planner] is shown to compute the structural fold [ref_pipeline] of that
    chain, whatever the contents of the shuffle memo it threads, and the shape
    of the resulting plan is read off the fold. *)

From S2P Require Import Prelude Plan Lineage Stages Planner.
#[local] Open Scope Z_scope.

(** ** Chains *)

(** [chain g id l]: [l] is the lineage of [id], [id]'s node first. *)
Inductive chain (g : RDDGraph) : RDDID -> list RDDNode -> Prop :=
  | chain_source id n :
      node_ok g id n -> node_Dependencies n = [] -> chain g id [n]
  | chain_step id n d l :
      node_ok g id n -> node_Dependencies n = [d] -> chain g (dep_ParentID d) l ->
      chain g id (n :: l).

Section chains.
Context (g : RDDGraph) (Hwf : graph_wf g).

Lemma node_ok_deps id n :
  node_ok g id n -> node_Dependencies n = [] \/ exists d, node_Dependencies n = [d].
Proof.
  intros (_ & _ & Hop & _). unfold operator_ok in Hop.
  destruct (op_Kind (node_Operator n)); naive_solver.
Qed.

Lemma lineage_ok_chain id : lineage_ok g id -> exists l, chain g id l.
Proof.
  induction 1 as [id n Hn _ IH].
  destruct (node_ok_deps _ _ Hn) as [Hd|[d Hd]]; [eauto using chain_source|].
  destruct (IH d) as [l Hl]; [rewrite Hd; by left|]. eauto using chain_step.
Qed.

Lemma chain_head id l : chain g id l -> exists n l', l = n :: l' /\ nodes g !! id = Some n.
Proof. destruct 1 as [? ? (? & _)|? ? ? ? (? & _)]; eauto. Qed.

Lemma chain_elem id l n :
  chain g id l -> n ∈ l -> rtc (parent_of g) id (node_ID n) /\ node_ok g (node_ID n) n.
Proof.
  induction 1 as [id m Hm Hd|id m d l Hm Hd _ IH]; intros Hin.
  - apply list_elem_of_singleton in Hin as ->.
    destruct Hm as (Hl & ?). rewrite (wf_id g Hwf _ _ Hl). split; [apply rtc_refl|by split].
  - apply elem_of_cons in Hin as [->|Hin].
    + destruct Hm as (Hl & ?). rewrite (wf_id g Hwf _ _ Hl). split; [apply rtc_refl|by split].
    + destruct (IH Hin) as [Hr ?]. split; [|done]. eapply rtc_l; [|exact Hr].
      exists m, d. destruct Hm as (? & _). rewrite Hd. split; [done|]. split; [by left|done].
Qed.

Lemma chain_reach id l x :
  chain g id l -> rtc (parent_of g) id x -> exists n, n ∈ l /\ nodes g !! x = Some n.
Proof.
  intros Hc Hr. revert l Hc. induction Hr as [x|x y z Hs Hr IH]; intros l Hc.
  - destruct (chain_head _ _ Hc) as (n & l' & -> & ?). exists n. split; [by left|done].
  - destruct Hs as (m & d & Hm & Hin & <-).
    destruct Hc as [id n (Hn & _) Hd|id n d' l (Hn & _) Hd Hc].
    + assert (m = n) as -> by congruence. rewrite Hd in Hin. by apply not_elem_of_nil in Hin.
    + assert (m = n) as -> by congruence. rewrite Hd in Hin.
      apply list_elem_of_singleton in Hin as ->.
      destruct (IH _ Hc) as (k & ? & ?). exists k. split; [by right|done].
Qed.

Lemma chain_NoDup id l : lineage_ok g id -> chain g id l -> NoDup (node_ID <$> l).
Proof.
  intros Hl Hc. revert Hl. induction Hc as [id n Hn Hd|id n d l Hn Hd Hc IH]; intros Hl; cbn.
  - apply NoDup_singleton.
  - pose proof Hn as (Hn' & _).
    assert (Hstep : parent_of g id (dep_ParentID d))
      by (exists n, d; rewrite Hd; split; [done|split; [by left|done]]).
    apply NoDup_cons. split.
    + intros (m & Hid & Hm)%list_elem_of_fmap. destruct (chain_elem _ _ _ Hc Hm) as [Hr _].
      rewrite (wf_id g Hwf _ _ Hn') in Hid. rewrite <- Hid in Hr.
      apply (lineage_ok_acyclic g id Hl). eapply tc_rtc_r; [by apply tc_once|done].
    + apply IH. eapply lineage_ok_reach; [exact Hl|by apply rtc_once].
Qed.

Lemma chain_length id l : lineage_ok g id -> chain g id l -> (length l <= size (nodes g))%nat.
Proof.
  intros Hl Hc. rewrite <- (length_fmap node_ID), <- size_dom.
  rewrite <- (size_list_to_set (C := gset N)) by by eapply chain_NoDup.
  apply subseteq_size. intros i. rewrite elem_of_list_to_set, list_elem_of_fmap.
  intros (n & -> & Hn). destruct (chain_elem _ _ _ Hc Hn) as (_ & Hk & _).
  apply elem_of_dom. eauto.
Qed.
End chains.

(** ** Function validation on a chain *)

Definition function_ok (fs : FunctionLookup) (n : RDDNode) : Prop :=
  validateNodeFunction n fs = Ok tt.

Definition functions_registered (g : RDDGraph) (target : RDDID) (fs : FunctionLookup) : Prop :=
  forall id n, rtc (parent_of g) target id -> nodes g !! id = Some n -> function_ok fs n.

Section functions.
Context (g : RDDGraph) (Hwf : graph_wf g) (fs : FunctionLookup).

Lemma validateFunctionsFrom_step fuel id visited n :
  nodes g !! id = Some n -> id ∉ visited ->
  validateFunctionsFrom (S fuel) g fs id visited =
  match validateNodeFunction n fs with
  | Err e => Some (Err (Errorf "validate RDD %d (%s): %w"
               [FInt (Z.of_N (node_ID n)); FStr (node_Name n); FWrap e]))
  | Ok _ => validateFunctionsDeps (validateFunctionsFrom fuel g fs)
              (node_Dependencies n) ({[id]} ∪ visited)
  end.
Proof. intros Hn Hv. cbn. unfold Node. by rewrite bool_decide_eq_false_2, Hn. Qed.

Lemma validateFunctionsFrom_chain id l fuel visited :
  chain g id l -> (length l <= fuel)%nat ->
  NoDup (node_ID <$> l) -> (forall n, n ∈ l -> node_ID n ∉ visited) ->
  exists r, validateFunctionsFrom fuel g fs id visited = Some r /\
    (is_Ok r = true <-> Forall (function_ok fs) l).
Proof.
  intros Hc. revert fuel visited.
  induction Hc as [id n Hn Hd|id n d l Hn Hd Hc IH]; intros [|fuel] visited Hf Hnd Hv;
    cbn in Hf; try lia; pose proof Hn as (Hl & _); pose proof (wf_id g Hwf _ _ Hl) as Hid;
    (rewrite (validateFunctionsFrom_step _ _ _ n);
      [|done|rewrite <- Hid; apply Hv; by left]);
    setoid_rewrite Forall_cons; unfold function_ok at 1; rewrite Hd;
    (destruct (validateNodeFunction n fs) as [[]|e];
       [|eexists; split; [done|]; cbn; naive_solver]); cbn.
  - eexists; split; [done|]. cbn. by rewrite Forall_nil.
  - apply NoDup_cons in Hnd as [Hni Hnd].
    destruct (IH fuel ({[id]} ∪ visited)) as (r & -> & Hr); [lia|done| |].
    + intros m Hm [E%elem_of_singleton|E]%elem_of_union; [|by eapply Hv; [right|]].
      apply Hni. rewrite Hid, <- E. apply list_elem_of_fmap. eauto.
    + destruct r as [v|e]; cbn in *; eexists; (split; [done|]); cbn; naive_solver.
Qed.

Lemma chain_functions id l :
  chain g id l -> (Forall (function_ok fs) l <-> functions_registered g id fs).
Proof.
  intros Hc. rewrite Forall_forall. split.
  - intros H x n Hr Hn. destruct (chain_reach g _ _ _ Hc Hr) as (m & Hm & Hx).
    assert (m = n) as -> by congruence. by apply H.
  - intros H n Hn. destruct (chain_elem g Hwf _ _ _ Hc Hn) as [Hr (Hk & _)]. by eapply H.
Qed.

Lemma validateFunctions_spec t :
  exists r, validateFunctions (Some g) t (Some fs) = Some r /\
    (r = Ok tt <-> lineage_ok g t /\ functions_registered g t fs).
Proof.
  unfold validateFunctions. destruct (Validate_total g Hwf t) as [[[]|e] H]; rewrite H; cbn.
  - apply Validate_lineage_ok in H as Hl; [|done].
    destruct (lineage_ok_chain g _ Hl) as [l Hc].
    pose proof (chain_length g Hwf _ _ Hl Hc) as Hlen.
    destruct (validateFunctionsFrom_chain t l (S (size (nodes g))) ∅ Hc) as (r & Hr & Hok);
      [lia|by eapply chain_NoDup|set_solver|].
    cbn [validateFunctionsFrom] in Hr |- *. rewrite Hr.
    rewrite (chain_functions _ _ Hc) in Hok.
    destruct r as [v|e]; cbn in *; eexists; (split; [done|]); naive_solver.
  - eexists; split; [done|]. rewrite <- Validate_lineage_ok by done. naive_solver.
Qed.
End functions.

(** ** The builder computes a fold of the chain *)

(** The closed stages, the open pipeline and the open stage's parents of a chain. *)
Fixpoint ref_pipeline (l : list RDDNode) : list Stage * list StageOperation * list StageID :=
  match l with
  | [] => ([], [], [])
  | n :: l =>
      let '(sts, ops, parents) := ref_pipeline l in
      match node_Dependencies n with
      | [] => (sts, [rddOperation n], [])
      | d :: _ =>
          match dep_Shuffle d with
          | None => (sts, ops ++ [rddOperation n], parents)
          | Some sd =>
              let id := N.of_nat (length sts) in
              (sts ++ [{| st_ID := id; st_Kind := StageShuffleMap; st_ParentIDs := parents;
                          st_NumPartitions := node_NumPartitions (default zeroNode (head l));
                          st_Operations := ops; st_ShuffleWrite := Some (shuffleWriteSpec sd);
                          st_FinalAction := None |}],
               [shuffleReadOperation sd; rddOperation n], [id])
          end
      end
  end.

Lemma node_ok_dep g id n d :
  node_ok g id n -> node_Dependencies n = [d] -> dependency_ok d.
Proof. intros (_ & (_ & _ & H) & _) Hd. apply H. rewrite Hd. by left. Qed.

Section build.
Context (g : RDDGraph).

Lemma buildPipeline_ref id l fuel :
  chain g id l -> (length l <= fuel)%nat ->
  exists memo, buildPipeline fuel g {| b_stages := []; b_shuffleStages := ∅ |} id =
    Some (Ok ((ref_pipeline l).1.2, (ref_pipeline l).2,
              {| b_stages := (ref_pipeline l).1.1; b_shuffleStages := memo |})).
Proof.
  intros Hc. revert fuel.
  induction Hc as [id n Hn Hd|id n d l Hn Hd Hc IH]; intros [|fuel] Hf; cbn in Hf; try lia;
    cbn [buildPipeline]; unfold Node; pose proof Hn as (Hl & _); rewrite Hl, Hd.
  - exists ∅. cbn. by rewrite Hd.
  - destruct (IH fuel) as [memo Hb]; [lia|].
    destruct (chain_head _ _ _ Hc) as (p & l' & El & Hp).
    cbn [ref_pipeline]. rewrite Hd.
    destruct (ref_pipeline l) as [[sts ops] parents] eqn:Er. cbn in Hb. subst l.
    pose proof (node_ok_dep _ _ _ _ Hn Hd) as [(Hk & _ & Hs)|(sd & Hk & Hs & _ & _)];
      rewrite Hk, Hs.
    + exists memo. rewrite Hb. done.
    + unfold buildShuffleStage. rewrite Hs. cbn [b_shuffleStages]. rewrite lookup_empty.
      unfold buildStage. rewrite Hb. cbn. unfold Node. rewrite Hp. eauto.
Qed.
End build.

(** ** The shape of a plan *)

Definition stage_rdds (s : Stage) : list RDDID :=
  omap (fun op => ro_RDDID <$> so_RDD op) (st_Operations s).

Definition is_shuffle_node (n : RDDNode) : bool :=
  bool_decide (op_Kind (node_Operator n) = OpReduceByKey).

Definition narrow_kind (k : OperatorKind) : bool :=
  match k with OpMap | OpFilter | OpMapToPair | OpMapValues => true | _ => false end.

Definition narrow_operation (op : StageOperation) : Prop :=
  exists n, op = rddOperation n /\ narrow_kind (op_Kind (node_Operator n)) = true.

(** How the pipeline of a stage starts, given the previous stage. *)
Definition head_ok (prev : option Stage) (ops : list StageOperation) : Prop :=
  exists n rest, Forall narrow_operation rest /\
  match prev with
  | None => ops = rddOperation n :: rest /\ op_Kind (node_Operator n) = OpSource
  | Some s => exists sd, st_ShuffleWrite s = Some (shuffleWriteSpec sd) /\ partitioner_ok (sd_Partitioner sd) /\
      ops = shuffleReadOperation sd :: rddOperation n :: rest /\
      op_Kind (node_Operator n) = OpReduceByKey
  end.

Definition prev_stage (sts : list Stage) (i : nat) : option Stage :=
  match i with O => None | S j => sts !! j end.
Definition prev_ids (i : nat) : list StageID :=
  match i with O => [] | S j => [N.of_nat j] end.

(** What the planner promises of the [i]th stage. *)
Record stage_wf (sts : list Stage) (i : nat) (s : Stage) : Prop := {
  sw_id : st_ID s = N.of_nat i;
  sw_parents : st_ParentIDs s = prev_ids i;
  sw_head : head_ok (prev_stage sts i) (st_Operations s);
  sw_positive : 0 < st_NumPartitions s }.

Definition map_stage (s : Stage) : Prop :=
  st_Kind s = StageShuffleMap /\ st_FinalAction s = None /\ is_Some (st_ShuffleWrite s).
Definition result_stage (a : ActionSpec) (s : Stage) : Prop :=
  st_Kind s = StageResult /\ st_FinalAction s = Some a /\ st_ShuffleWrite s = None.

Lemma prev_stage_app sts s i : (i <= length sts)%nat -> prev_stage (sts ++ s) i = prev_stage sts i.
Proof. destruct i as [|i]; cbn; [done|]. intros. by rewrite lookup_app_l by lia. Qed.

Lemma stage_wf_app sts s' i s : (i <= length sts)%nat -> stage_wf sts i s -> stage_wf (sts ++ s') i s.
Proof. intros Hi []. split; [done|done|by rewrite prev_stage_app|done]. Qed.

Lemma rdds_app ops ops' :
  omap (fun op => ro_RDDID <$> so_RDD op) (ops ++ ops') =
  omap (fun op => ro_RDDID <$> so_RDD op) ops ++ omap (fun op => ro_RDDID <$> so_RDD op) ops'.
Proof. apply omap_app. Qed.

(** The invariant of [ref_pipeline]. *)
Record ref_inv (l : list RDDNode) (sts : list Stage) (ops : list StageOperation)
    (parents : list StageID) : Prop := {
  ri_stages : forall i s, sts !! i = Some s -> stage_wf sts i s /\ map_stage s;
  ri_parents : parents = prev_ids (length sts);
  ri_head : head_ok (prev_stage sts (length sts)) ops;
  ri_rdds : concat (stage_rdds <$> sts) ++ omap (fun op => ro_RDDID <$> so_RDD op) ops =
            reverse (node_ID <$> l);
  ri_count : length sts = length (List.filter is_shuffle_node l) }.

Lemma node_kind g id n d :
  node_ok g id n -> node_Dependencies n = [d] ->
  match dep_Shuffle d with
  | Some _ => op_Kind (node_Operator n) = OpReduceByKey
  | None => narrow_kind (op_Kind (node_Operator n)) = true
  end.
Proof.
  intros Hn Hd. destruct (node_ok_dep _ _ _ _ Hn Hd) as [(Hk & _ & ->)|(sd & Hk & -> & _)];
    destruct Hn as (_ & _ & Hop & _); unfold operator_ok in Hop; rewrite Hd in Hop;
    destruct (op_Kind (node_Operator n)); cbn; try done;
    solve [destruct Hop; congruence | destruct Hop as (_ & d' & [= <-] & ?); congruence].
Qed.

Lemma node_source g id n :
  node_ok g id n -> node_Dependencies n = [] -> op_Kind (node_Operator n) = OpSource.
Proof.
  intros (_ & _ & Hop & _) Hd. unfold operator_ok in Hop. rewrite Hd in Hop.
  destruct (op_Kind (node_Operator n)); try done;
    by destruct Hop as (_ & d & ? & _).
Qed.

Lemma ref_inv_narrow l sts ops parents n :
  ref_inv l sts ops parents -> narrow_kind (op_Kind (node_Operator n)) = true ->
  ref_inv (n :: l) sts (ops ++ [rddOperation n]) parents.
Proof.
  intros [Hs Hp (m & rest & Hrest & Hh) Hr Hc] Hn. split; [done|done| | |].
  - exists m, (rest ++ [rddOperation n]). split.
    { apply Forall_app. split; [done|]. apply Forall_singleton. by exists n. }
    destruct (prev_stage sts (length sts)) as [s|].
    + destruct Hh as (sd & ? & ? & -> & ?). by exists sd.
    + destruct Hh as [-> ?]. done.
  - by rewrite rdds_app, app_assoc, Hr, fmap_cons, reverse_cons.
  - cbn. unfold is_shuffle_node at 1.
    rewrite bool_decide_eq_false_2; [done|]. by destruct (op_Kind (node_Operator n)).
Qed.

Lemma ref_inv_shuffle l sts ops parents n sd k :
  ref_inv l sts ops parents -> op_Kind (node_Operator n) = OpReduceByKey -> 0 < k ->
  partitioner_ok (sd_Partitioner sd) ->
  ref_inv (n :: l)
    (sts ++ [{| st_ID := N.of_nat (length sts); st_Kind := StageShuffleMap;
                st_ParentIDs := parents; st_NumPartitions := k; st_Operations := ops;
                st_ShuffleWrite := Some (shuffleWriteSpec sd); st_FinalAction := None |}])
    [shuffleReadOperation sd; rddOperation n] [N.of_nat (length sts)].
Proof.
  intros [Hs Hp Hh Hr Hc] Hn Hk Hsd. split.
  - intros i s Hi. destruct (decide (i < length sts)%nat).
    + rewrite lookup_app_l in Hi by done. destruct (Hs _ _ Hi).
      split; [|done]. apply stage_wf_app; [lia|done].
    + assert (i = length sts) as ->.
      { apply lookup_lt_Some in Hi. rewrite length_app in Hi. cbn in Hi. lia. }
      rewrite lookup_app_r, Nat.sub_diag in Hi by lia. injection Hi as <-.
      split; [|by split]. split; cbn; [done|done|by rewrite prev_stage_app by lia|done].
  - rewrite length_app, Nat.add_comm. done.
  - exists n, []. split; [by apply Forall_nil|].
    rewrite length_app, Nat.add_comm. cbn. rewrite lookup_app_r, Nat.sub_diag by lia. cbn.
    by exists sd.
  - rewrite fmap_app, concat_app. rewrite (fmap_cons node_ID), reverse_cons, <- Hr. cbn. by rewrite app_nil_r.
  - rewrite length_app. cbn. unfold is_shuffle_node at 1. rewrite bool_decide_eq_true_2 by done.
    cbn. lia.
Qed.

Lemma chain_ref_inv g id l :
  chain g id l ->
  ref_inv l (ref_pipeline l).1.1 (ref_pipeline l).1.2 (ref_pipeline l).2.
Proof.
  induction 1 as [id n Hn Hd|id n d l Hn Hd Hc IH].
  - cbn. rewrite Hd. cbn. pose proof (node_source _ _ _ Hn Hd) as Hk. split; cbn; [done|done| | |].
    + exists n, []. split; [by apply Forall_nil|done].
    + done.
    + unfold is_shuffle_node. by rewrite Hk, bool_decide_eq_false_2.
  - cbn [ref_pipeline]. rewrite Hd. pose proof (node_kind _ _ _ _ Hn Hd) as Hk.
    destruct (ref_pipeline l) as [[sts ops] parents]. cbn in IH.
    pose proof (node_ok_dep _ _ _ _ Hn Hd) as Hdep.
    destruct (dep_Shuffle d) as [sd|] eqn:Esd; cbn.
    + apply ref_inv_shuffle; [done|done| |by destruct Hdep as [(_ & _ & ?)|(sd' & _ & E & _ & ?)]; [congruence|]; replace sd with sd' by congruence].
      by destruct Hc as [? ? (_ & (Hpos & _) & _)|? ? ? ? (_ & (Hpos & _) & _)].
    + by apply ref_inv_narrow.
Qed.

(** ** Plans *)

(** A plan for action [a]: stages numbered in parent-before-child order, each
    with the previous one as its only parent, map stages first and one result
    stage last; every pipeline begins with the source or by reading what the
    previous stage writes, and the pipelines together apply the lineage's
    operators once each, source first. *)
Definition plan_ok (g : RDDGraph) (a : ActionSpec) (p : StagePlan) : Prop :=
  sp_TargetRDD p = act_TargetRDD a /\
  exists l sts s,
    chain g (act_TargetRDD a) l /\
    sp_Stages p = sts ++ [s] /\
    (forall i s', sp_Stages p !! i = Some s' -> stage_wf (sp_Stages p) i s') /\
    Forall map_stage sts /\ result_stage a s /\
    concat (stage_rdds <$> sp_Stages p) = reverse (node_ID <$> l) /\
    length sts = length (List.filter is_shuffle_node l).

Definition action_ok (a : ActionSpec) : Prop :=
  act_Kind a = ActionCollect \/ act_Kind a = ActionCount.

Lemma validateAction_spec a : validateAction a = Ok tt <-> action_ok a.
Proof. unfold validateAction, action_ok. destruct (act_Kind a); naive_solver. Qed.

Section plan.
Context (g : RDDGraph) (Hwf : graph_wf g).

Lemma buildStage_plan_ok a :
  lineage_ok g (act_TargetRDD a) ->
  exists id b, buildStage g (buildPipeline (S (size (nodes g))) g)
      {| b_stages := []; b_shuffleStages := ∅ |} (act_TargetRDD a) StageResult None (Some a) =
      Some (Ok (id, b)) /\
    plan_ok g a {| sp_TargetRDD := act_TargetRDD a; sp_Stages := b_stages b |}.
Proof.
  intros Hl. destruct (lineage_ok_chain g _ Hl) as [l Hc].
  pose proof (chain_length g Hwf _ _ Hl Hc) as Hlen.
  destruct (buildPipeline_ref g _ _ (S (size (nodes g))) Hc) as [memo Hb]; [lia|].
  pose proof (chain_ref_inv _ _ _ Hc) as Hinv.
  unfold buildStage. rewrite Hb.
  destruct (ref_pipeline l) as [[sts ops] parents]. cbn in *.
  destruct (chain_head _ _ _ Hc) as (n & l' & El & Hn). unfold Node. rewrite Hn. cbn.
  assert (Hpos : 0 < node_NumPartitions n) by by apply (wf_shape g Hwf _ _ Hn).
  eexists _, _. split; [done|]. split; [done|].
  destruct Hinv as [Hs -> Hh Hr Hcount].
  eexists l, sts, _. cbn. split; [done|]. split; [done|]. split; [|split; [|split; [|split]]].
  - intros i s' Hi. destruct (decide (i < length sts)%nat).
    + rewrite lookup_app_l in Hi by done. apply stage_wf_app; [lia|]. by apply Hs.
    + assert (i = length sts) as ->.
      { apply lookup_lt_Some in Hi. rewrite length_app in Hi. cbn in Hi. lia. }
      rewrite lookup_app_r, Nat.sub_diag in Hi by lia. injection Hi as <-.
      split; cbn; [done|done|by rewrite prev_stage_app by lia|done].
  - apply Forall_forall. intros s [i Hi]%list_elem_of_lookup. by apply (Hs _ _ Hi).
  - done.
  - rewrite fmap_app, concat_app. cbn. rewrite app_nil_r. done.
  - done.
Qed.

Lemma PlanAction_total fs a :
  exists r, PlanAction (Some (Some fs)) (Some g) a = Some r /\
    match r with
    | Ok p => plan_ok g a p /\ action_ok a /\ lineage_ok g (act_TargetRDD a) /\
              functions_registered g (act_TargetRDD a) fs
    | Err _ => ~ (action_ok a /\ lineage_ok g (act_TargetRDD a) /\
                  functions_registered g (act_TargetRDD a) fs)
    end.
Proof.
  unfold PlanAction. pose proof (validateAction_spec a) as Ha.
  destruct (validateAction a) as [[]|e]; [|eexists; split; [done|]; naive_solver].
  destruct (validateFunctions_spec g Hwf fs (act_TargetRDD a)) as (r & -> & Hr).
  destruct r as [[]|e]; [|eexists; split; [done|]; naive_solver].
  destruct (proj1 Hr eq_refl) as [Hl Hf].
  destruct (buildStage_plan_ok a Hl) as (id & b & -> & Hp). cbn.
  eexists; split; [done|]. split; [done|]. naive_solver.
Qed.

(** An error of the planner is an ordinary one. *)
Lemma PlanAction_error fs a e : PlanAction (Some (Some fs)) (Some g) a = Some (Err e) -> is_panic e = false.
Proof.
  unfold PlanAction. destruct (validateAction a) as [[]|e1] eqn:Ha.
  2: { intros [= <-]. unfold validateAction in Ha. by destruct (act_Kind a); simplify_eq. }
  destruct (validateFunctions_spec g Hwf fs (act_TargetRDD a)) as (r & -> & Hr).
  destruct r as [[]|e1]; [|by intros [= <-]].
  destruct (proj1 Hr eq_refl) as [Hl Hf]. by destruct (buildStage_plan_ok a Hl) as (id & b & -> & Hp).
Qed.
End plan.

(** C28. [Plan] terminates for every graph built by [AddNode]; it succeeds exactly
    when the action is supported, the target's lineage is executable and every
    function on it is registered, and then the plan has the promised shape. *)
Theorem Plan_correct g fs a :
  graph_wf g ->
  exists r, PlanAction (Some (Some fs)) (Some g) a = Some r /\
    match r with
    | Ok p => plan_ok g a p /\ action_ok a /\ lineage_valid g (act_TargetRDD a) /\
              functions_registered g (act_TargetRDD a) fs
    | Err _ => ~ (action_ok a /\ lineage_valid g (act_TargetRDD a) /\
                  functions_registered g (act_TargetRDD a) fs)
    end.
Proof.
  intros Hwf. destruct (PlanAction_total g Hwf fs a) as (r & Hr & H).
  exists r. split; [done|].
  destruct r as [p|e].
  - destruct H as (? & ? & ?%lineage_ok_valid & ?); done.
  - intros (? & Hv & ?). apply H. split; [done|]. split; [by apply lineage_valid_ok|done].
Qed.

Definition example_functions : FunctionLookup :=
  {| HasMap := fun s => bool_decide (s = "normalize");
     HasFilter := fun s => bool_decide (s = "non_empty");
     HasPairMap := fun s => bool_decide (s = "word_pair");
     HasValueMap := fun _ => false;
     HasReduce := fun s => bool_decide (s = "sum_int") |}.

Lemma Plan_correct_witness :
  exists p, PlanAction (Some (Some example_functions)) (Some example_graph)
              {| act_Kind := ActionCount; act_TargetRDD := 2%N |} = Some (Ok p) /\
            plan_ok example_graph {| act_Kind := ActionCount; act_TargetRDD := 2%N |} p /\
            length (sp_Stages p) = 2%nat.
Proof.
  destruct (Plan_correct example_graph example_functions
    {| act_Kind := ActionCount; act_TargetRDD := 2%N |} example_graph_wf) as (r & Hr & H).
  vm_compute in Hr. injection Hr as <-. eexists. split; [vm_compute; reflexivity|].
  split; [exact (proj1 H)|reflexivity].
Defined.
