(* ===== verification/TaskGenerator.v ===== *)
(** * TaskGenerator: logical tasks of a plan

    Models [scheduler/task_generator.go] and states which plans
    [validateExecutionPlan] lets through.  The clones of the generator copy
    values; they are in [Heap] with their addresses. *)

From S2P Require Import Prelude Plan Lineage Stages Planner PlannerProofs.
#[local] Open Scope Z_scope.

(** [taskCount += stage.NumPartitions] over the stages, on a wrapping [int]. *)
Fixpoint countTasks (taskCount : Z) (stages : list Stage) : result Z :=
  match stages with
  | [] => Ok taskCount
  | s :: stages =>
      fail_if (st_NumPartitions s <=? 0)
        (Errorf "generate tasks for stage %d: invalid partition count %d"
           [FInt (Z.of_N (st_ID s)); FInt (st_NumPartitions s)]);;
      countTasks (i64 (taskCount + st_NumPartitions s)) stages
  end.

Definition newTask (s : Stage) (id : nat) (partition : nat) : Task :=
  {| t_ID := N.of_nat id; t_StageID := st_ID s; t_StageKind := st_Kind s;
     t_PartitionID := Z.of_nat partition; t_NumPartitions := st_NumPartitions s;
     t_Operations := st_Operations s; t_ShuffleWrite := st_ShuffleWrite s;
     t_FinalAction := st_FinalAction s |}.

(** The inner loop appends one task per partition; an ID is [len(tasks)]. *)
Definition appendStage (tasks : list Task) (s : Stage) : list Task :=
  foldl (fun tasks partition => tasks ++ [newTask s (length tasks) partition])
    tasks (seq 0 (Z.to_nat (st_NumPartitions s))).

(** [make] panics on a negative capacity; the answer is then [panic_range]. *)
Definition GenerateTasks (p : StagePlan) : result (list Task) :=
  taskCount ← countTasks 0 (sp_Stages p);
  fail_if (taskCount <? 0) panic_range;;
  Ok (foldl appendStage [] (sp_Stages p)).

(** ** The tasks of a stage *)

Definition stage_tasks (s : Stage) (tasks : list Task) : list Task :=
  List.filter (fun t => bool_decide (t_StageID t = st_ID s)) tasks.

Fixpoint total_partitions (stages : list Stage) : Z :=
  match stages with
  | [] => 0
  | s :: stages => st_NumPartitions s + total_partitions stages
  end.

Lemma countTasks_Ok n stages :
  0 <= n -> Forall (fun s => 0 < st_NumPartitions s) stages ->
  n + total_partitions stages < 2 ^ 63 ->
  countTasks n stages = Ok (n + total_partitions stages).
Proof.
  intros Hn Hs. revert n Hn. induction Hs as [|s stages Hs Hss IH]; intros n Hn Ht; cbn in *.
  - by rewrite Z.add_0_r.
  - destruct (Z.leb_spec (st_NumPartitions s) 0); [lia|].
    assert (0 <= total_partitions stages).
    { clear -Hss. induction Hss; cbn in *; lia. }
    rewrite i64_id by (unfold in_i64; lia). rewrite IH by lia. f_equal. lia.
Qed.

Lemma countTasks_positive n stages m :
  countTasks n stages = Ok m -> Forall (fun s => 0 < st_NumPartitions s) stages.
Proof.
  revert n. induction stages as [|s stages IH]; intros n H; cbn in *; [by constructor|].
  destruct (Z.leb_spec (st_NumPartitions s) 0); [done|]. constructor; [done|by eapply IH].
Qed.

(** The sum wraps once, at the end as well as along the way. *)
Lemma i64_add_l a b : i64 (i64 a + b) = i64 (a + b).
Proof.
  unfold i64. f_equal. replace ((a + 2 ^ 63) mod 2 ^ 64 - 2 ^ 63 + b + 2 ^ 63) with ((a + 2 ^ 63) mod 2 ^ 64 + b) by lia.
  rewrite Zplus_mod_idemp_l. f_equal. lia.
Qed.

Lemma countTasks_wrap n stages : Forall (fun s => 0 < st_NumPartitions s) stages ->
  countTasks (i64 n) stages = Ok (i64 (n + total_partitions stages)).
Proof.
  intros Hs. revert n. induction Hs as [|s stages Hs _ IH]; intros n; cbn; [by rewrite Z.add_0_r|].
  destruct (Z.leb_spec (st_NumPartitions s) 0); [lia|]. rewrite i64_add_l, IH. f_equal. f_equal. lia.
Qed.

(** Whether [GenerateTasks] panics on a plan whose counts are positive. *)
Lemma GenerateTasks_wrap p : Forall (fun s => 0 < st_NumPartitions s) (sp_Stages p) ->
  GenerateTasks p = if i64 (total_partitions (sp_Stages p)) <? 0 then Err panic_range
                    else Ok (foldl appendStage [] (sp_Stages p)).
Proof.
  intros Hs. unfold GenerateTasks. pose proof (countTasks_wrap 0 _ Hs) as E. change (i64 0) with 0 in E. rewrite E. cbn. by destruct (_ <? 0).
Qed.

Lemma appendStage_eq tasks s :
  appendStage tasks s =
  tasks ++ ((fun i => newTask s (length tasks + i) i) <$> seq 0 (Z.to_nat (st_NumPartitions s))).
Proof.
  unfold appendStage. generalize (Z.to_nat (st_NumPartitions s)) as k.
  induction k as [|k IH]; [by rewrite app_nil_r|].
  rewrite seq_S, foldl_app, IH, fmap_app. cbn.
  by rewrite length_app, length_fmap, length_seq, app_assoc.
Qed.

(** IDs are positions. *)
Definition ids_dense (tasks : list Task) : Prop :=
  forall i t, tasks !! i = Some t -> t_ID t = N.of_nat i.

Lemma appendStage_dense tasks s : ids_dense tasks -> ids_dense (appendStage tasks s).
Proof.
  intros H i t. rewrite appendStage_eq. intros [Hi|[Hl Hi]]%lookup_app_Some; [by apply H|].
  rewrite list_lookup_fmap in Hi. apply fmap_Some in Hi as (j & Hj & ->).
  apply lookup_seq in Hj as [-> _]. cbn. f_equal. lia.
Qed.

Lemma stage_tasks_same s k ps :
  stage_tasks s ((fun i => newTask s (k + i) i) <$> ps) = (fun i => newTask s (k + i) i) <$> ps.
Proof.
  unfold stage_tasks. induction ps as [|p ps IH]; cbn; [done|].
  rewrite bool_decide_eq_true_2 by done. by f_equal.
Qed.

Lemma stage_tasks_other s s' k ps :
  st_ID s <> st_ID s' -> stage_tasks s ((fun i => newTask s' (k + i) i) <$> ps) = [].
Proof.
  intros Hne. unfold stage_tasks. induction ps as [|p ps IH]; cbn; [done|].
  by rewrite bool_decide_eq_false_2.
Qed.

Lemma stage_tasks_app s l l' : stage_tasks s (l ++ l') = stage_tasks s l ++ stage_tasks s l'.
Proof. apply List.filter_app. Qed.

Lemma appendStages_dense stages tasks :
  ids_dense tasks -> ids_dense (foldl appendStage tasks stages).
Proof. revert tasks. induction stages; cbn; auto using appendStage_dense. Qed.

Lemma appendStages_length stages tasks :
  Forall (fun s => 0 < st_NumPartitions s) stages ->
  Z.of_nat (length (foldl appendStage tasks stages)) =
  Z.of_nat (length tasks) + total_partitions stages.
Proof.
  intros Hs. revert tasks. induction Hs as [|s stages Hs _ IH]; intros tasks; cbn; [lia|].
  rewrite IH, appendStage_eq, length_app, length_fmap, length_seq. lia.
Qed.

(** Tasks of [s] generated among stages with other IDs. *)
Lemma appendStages_other stages tasks s :
  st_ID s ∉ st_ID <$> stages ->
  stage_tasks s (foldl appendStage tasks stages) = stage_tasks s tasks.
Proof.
  revert tasks. induction stages as [|s' stages IH]; intros tasks Hni; cbn [foldl]; [done|].
  rewrite fmap_cons, not_elem_of_cons in Hni. destruct Hni as [Hne Hni].
  rewrite IH by done. by rewrite appendStage_eq, stage_tasks_app, stage_tasks_other, app_nil_r.
Qed.

Lemma appendStages_stage stages tasks s :
  NoDup (st_ID <$> stages) -> s ∈ stages -> stage_tasks s tasks = [] ->
  exists k, stage_tasks s (foldl appendStage tasks stages) =
    (fun i => newTask s (k + i) i) <$> seq 0 (Z.to_nat (st_NumPartitions s)).
Proof.
  revert tasks. induction stages as [|s' stages IH]; intros tasks Hnd Hin Ht.
  { by apply not_elem_of_nil in Hin. }
  rewrite fmap_cons, NoDup_cons in Hnd. destruct Hnd as [Hni Hnd]. cbn [foldl].
  apply elem_of_cons in Hin as [->|Hin].
  - exists (length tasks). rewrite appendStages_other by done.
    by rewrite appendStage_eq, stage_tasks_app, Ht, stage_tasks_same.
  - apply IH; [done|done|]. rewrite appendStage_eq, stage_tasks_app, Ht, stage_tasks_other; [done|].
    intros E. apply Hni. rewrite <- E. by apply list_elem_of_fmap_2.
Qed.

(** For a plan with positive partition counts, distinct stage IDs and fewer
    than 2^63 partitions in all, [GenerateTasks] returns one task per stage
    partition: task IDs are the positions in the list, and the tasks of a stage,
    in order, are its partitions [0 .. n-1] with the stage's pipeline, write and
    action.  A plan with a nonpositive count is rejected. *)
Theorem GenerateTasks_correct p :
  NoDup (st_ID <$> sp_Stages p) ->
  total_partitions (sp_Stages p) < 2 ^ 63 ->
  match GenerateTasks p with
  | Ok tasks =>
      Forall (fun s => 0 < st_NumPartitions s) (sp_Stages p) /\
      Z.of_nat (length tasks) = total_partitions (sp_Stages p) /\
      (forall i t, tasks !! i = Some t -> t_ID t = N.of_nat i) /\
      (forall s, s ∈ sp_Stages p -> exists k,
         stage_tasks s tasks =
         (fun i => newTask s (k + i) i) <$> seq 0 (Z.to_nat (st_NumPartitions s)))
  | Err _ => ~ Forall (fun s => 0 < st_NumPartitions s) (sp_Stages p)
  end.
Proof.
  intros Hnd Hlt. unfold GenerateTasks.
  destruct (countTasks 0 (sp_Stages p)) as [n|e] eqn:E; cbn.
  - pose proof (countTasks_positive _ _ _ E) as Hpos.
    rewrite countTasks_Ok, Z.add_0_l in E by (done || lia). injection E as <-.
    pose proof (appendStages_length (sp_Stages p) [] Hpos) as Hlen. cbn in Hlen.
    destruct (Z.ltb_spec (total_partitions (sp_Stages p)) 0); [lia|].
    split; [done|]. split; [done|]. split; [by apply appendStages_dense|].
    intros s Hs. by apply appendStages_stage.
  - intros Hpos. by rewrite countTasks_Ok in E by (done || lia).
Qed.

Definition example_plan : StagePlan :=
  {| sp_TargetRDD := 1%N;
     sp_Stages := [ {| st_ID := 0%N; st_Kind := StageResult; st_ParentIDs := [];
                       st_NumPartitions := 3; st_Operations := [rddOperation example_source];
                       st_ShuffleWrite := None;
                       st_FinalAction := Some {| act_Kind := ActionCount; act_TargetRDD := 0%N |} |} ] |}.

Lemma GenerateTasks_correct_witness :
  exists tasks, GenerateTasks example_plan = Ok tasks /\ Z.of_nat (length tasks) = 3.
Proof.
  pose proof (GenerateTasks_correct example_plan) as H.
  assert (Hnd : NoDup (st_ID <$> sp_Stages example_plan)) by (apply NoDup_singleton).
  specialize (H Hnd eq_refl). destruct (GenerateTasks example_plan) as [tasks|e] eqn:E.
  - exists tasks. split; [reflexivity|]. exact (proj1 (proj2 H)).
  - vm_compute in E. discriminate E.
Defined.

(** ** Which plans execute *)

(** The execution check accepts a plan produced by the planner exactly when
    its lineage has at most one shuffle: with none the plan is the result stage
    alone, with one a map stage whose output the result stage reads first. *)
Theorem validateExecutionPlan_correct g a p :
  plan_ok g a p ->
  exists l, chain g (act_TargetRDD a) l /\
  (validateExecutionPlan p = Ok tt <-> (length (List.filter is_shuffle_node l) <= 1)%nat).
Proof.
  intros (_ & l & sts & s & Hc & Hst & Hwf & Hmap & (Hk & _ & Hsw) & _ & Hlen).
  exists l. split; [done|]. rewrite <- Hlen. unfold validateExecutionPlan. rewrite Hst in *.
  destruct sts as [|m [|m' sts]]; cbn.
  - destruct (Hwf 0%nat s eq_refl) as [_ Hp _ _]. cbn in Hp.
    rewrite Hk, Hp, Hsw, !bool_decide_eq_true_2 by done. split; [lia|done].
  - destruct (Hwf 0%nat m eq_refl) as [Hi Hp _ _]. cbn in Hp, Hi.
    destruct (Hwf 1%nat s eq_refl) as [_ Hp' (n & rest & _ & sd & Hw & _ & Hops & _) _]. cbn in Hp'.
    apply Forall_cons in Hmap as [(Hkm & _ & _) _].
    unfold isSingleShuffle. rewrite Hk, Hkm, Hp, Hp', Hi, Hw, Hops.
    cbn. rewrite !bool_decide_eq_true_2 by done. cbn. split; [lia|done].
  - split; [|lia]. by destruct sts.
Qed.

Lemma validateExecutionPlan_correct_witness :
  exists p, PlanAction (Some (Some example_functions)) (Some example_graph)
              {| act_Kind := ActionCollect; act_TargetRDD := 2%N |} = Some (Ok p) /\
            exists l, (length (List.filter is_shuffle_node l) <= 1)%nat /\
              chain example_graph 2%N l.
Proof.
  destruct (PlanAction_total example_graph example_graph_wf example_functions
    {| act_Kind := ActionCollect; act_TargetRDD := 2%N |}) as (r & Hr & H).
  vm_compute in Hr. injection Hr as <-. eexists. split; [vm_compute; reflexivity|].
  destruct (validateExecutionPlan_correct _ _ _ (proj1 H)) as (l & Hc & Hiff).
  exists l. split; [|exact Hc]. apply (proj1 Hiff). vm_compute. reflexivity.
Defined.
