(* ===== verification/Api.v ===== *)
(** * Api: lazy lineage construction

    Models [api/context.go] ([TextFile]), [api/rdd.go] and [jobspec] ([Spec],
    [Validate], [Build], [applyTransformation]).  An [RDD] handle is its node ID;
    the graph its context owns is threaded as state, and is returned with an
    error too because a failed call may have drawn a shuffle ID. *)

From S2P Require Import Prelude Plan Lineage Stages Planner PlannerProofs.
#[local] Open Scope Z_scope.

(** ** The driver API *)

(** A call returns the handle or an error, and the context's graph. *)
Definition api (A : Type) : Type := RDDGraph -> result A * RDDGraph.

Definition addNode (n : RDDNode) (wrap : error -> error) : api RDDID := fun g =>
  match AddNode g n with
  | Ok (id, g') => (Ok id, g')
  | Err e => (Err (wrap e), g)
  end.

Definition TextFile (path : string) (numPartitions : Z) : api RDDID :=
  addNode
    {| node_ID := 0%N; node_Name := "TextFile";
       node_Operator := {| op_Kind := OpSource; op_FunctionID := ""; op_SourcePath := path |};
       node_Dependencies := []; node_NumPartitions := numPartitions; node_Partitioner := None |}
    (fun e => Errorf "create TextFile RDD: %w" [FWrap e]).

Definition narrowNode (name : string) (kind : OperatorKind) (functionID : string)
    (parent : RDDID) (n : RDDNode) (preservePartitioner : bool) : RDDNode :=
  {| node_ID := 0%N; node_Name := name;
     node_Operator := {| op_Kind := kind; op_FunctionID := functionID; op_SourcePath := "" |};
     node_Dependencies := [{| dep_Kind := DependencyNarrow; dep_ParentID := parent;
                              dep_Narrow := Some (mkNarrow NarrowOneToOne);
                              dep_Shuffle := None |}];
     node_NumPartitions := node_NumPartitions n;
     node_Partitioner := if preservePartitioner then node_Partitioner n else None |}.

Definition addNarrowTransformation (name : string) (kind : OperatorKind) (functionID : string)
    (preservePartitioner : bool) (r : RDDID) : api RDDID := fun g =>
  match Node g r with
  | None => (Err (Errorf "%s RDD %d: parent does not exist" [FStr name; FInt (Z.of_N r)]), g)
  | Some n =>
      addNode (narrowNode name kind functionID r n preservePartitioner)
        (fun e => Errorf "%s RDD %d: %w" [FStr name; FInt (Z.of_N r); FWrap e]) g
  end.

Definition Map (r : RDDID) (functionID : string) : api RDDID :=
  addNarrowTransformation "Map" OpMap functionID false r.
Definition Filter (r : RDDID) (functionID : string) : api RDDID :=
  addNarrowTransformation "Filter" OpFilter functionID true r.
Definition MapToPair (r : RDDID) (functionID : string) : api RDDID :=
  addNarrowTransformation "MapToPair" OpMapToPair functionID false r.
Definition MapValues (r : RDDID) (functionID : string) : api RDDID :=
  addNarrowTransformation "MapValues" OpMapValues functionID true r.

Definition reduceNode (r : RDDID) (functionID : string) (p : PartitionerSpec) (sid : ShuffleID)
    : RDDNode :=
  {| node_ID := 0%N; node_Name := "ReduceByKey";
     node_Operator := {| op_Kind := OpReduceByKey; op_FunctionID := functionID; op_SourcePath := "" |};
     node_Dependencies :=
       [{| dep_Kind := DependencyShuffle; dep_ParentID := r; dep_Narrow := None;
           dep_Shuffle := Some {| sd_ShuffleID := sid; sd_Partitioner := p;
                                  sd_AggregatorID := functionID; sd_MapSideCombine := true |} |}];
     node_NumPartitions := pt_NumPartitions p;
     node_Partitioner := Some p |}.

Definition ReduceByKey (r : RDDID) (functionID : string) (p : PartitionerSpec) : api RDDID := fun g =>
  match Node g r with
  | None => (Err (Errorf "reduce-by-key RDD %d: parent does not exist" [FInt (Z.of_N r)]), g)
  | Some _ =>
      let '(sid, g) := NewShuffleID g in
      addNode (reduceNode r functionID p sid)
        (fun e => Errorf "reduce-by-key RDD %d: %w" [FInt (Z.of_N r); FWrap e]) g
  end.

(** ** Job specifications *)

Record SourceSpec := mkSource { src_Path : string; src_NumPartitions : Z }.
Record TransformationSpec := mkTransformation {
  tr_Kind : OperatorKind; tr_FunctionID : string; tr_NumPartitions : Z }.
Record Spec := mkSpec {
  spec_Source : SourceSpec;
  spec_Transformations : list TransformationSpec;
  spec_Action : ActionKind }.

Definition validateTransformation (t : TransformationSpec) : result unit :=
  _ ← match tr_Kind t with
      | OpMap | OpFilter | OpMapToPair | OpMapValues =>
          fail_if (negb (tr_NumPartitions t =? 0))
            (Errorf "operator %q does not accept num_partitions" []);; Ok tt
      | OpReduceByKey =>
          fail_if (tr_NumPartitions t <=? 0)
            (Errorf "operator %q requires a positive num_partitions" []);; Ok tt
      | OpSource => Err (Errorf "unsupported operator %q" [FStr "source"])
      | OpOther s => Err (Errorf "unsupported operator %q" [FStr s])
      end;
  fail_if (bool_decide (tr_FunctionID t = "")) (Errorf "operator %q requires function_id" []);;
  Ok tt.

Definition validateSpec (s : Spec) : result unit :=
  fail_if (bool_decide (src_Path (spec_Source s) = ""))
    (Errorf "validate job: source path must not be empty" []);;
  fail_if (src_NumPartitions (spec_Source s) <=? 0)
    (Errorf "validate job: source partition count must be positive" []);;
  _ ← check_all (fun i t => map_err (fun e => Errorf "validate job transformation %d: %w"
                                               [FInt (Z.of_nat i); FWrap e])
                              (validateTransformation t)) 0 (spec_Transformations s);
  match spec_Action s with
  | ActionCollect | ActionCount => Ok tt
  | ActionOther k => Err (Errorf "validate job: unsupported action %q" [FStr k])
  end.

Definition applyTransformation (r : RDDID) (t : TransformationSpec) : api RDDID :=
  match tr_Kind t with
  | OpMap => Map r (tr_FunctionID t)
  | OpFilter => Filter r (tr_FunctionID t)
  | OpMapToPair => MapToPair r (tr_FunctionID t)
  | OpMapValues => MapValues r (tr_FunctionID t)
  | OpReduceByKey => ReduceByKey r (tr_FunctionID t) (HashPartitioner (tr_NumPartitions t))
  | OpSource => fun g => (Err (Errorf "unsupported operator %q" [FStr "source"]), g)
  | OpOther s => fun g => (Err (Errorf "unsupported operator %q" [FStr s]), g)
  end.

Fixpoint applyTransformations (i : nat) (ts : list TransformationSpec) (r : RDDID) : api RDDID := fun g =>
  match ts with
  | [] => (Ok r, g)
  | t :: ts =>
      match applyTransformation r t g with
      | (Ok r, g) => applyTransformations (S i) ts r g
      | (Err e, g) => (Err (Errorf "build job transformation %d: %w" [FInt (Z.of_nat i); FWrap e]), g)
      end
  end.

(** [Build] on a non-nil context. *)
Definition Build (s : Spec) : api RDDID := fun g =>
  match validateSpec s with
  | Err e => (Err e, g)
  | Ok _ =>
      match TextFile (src_Path (spec_Source s)) (src_NumPartitions (spec_Source s)) g with
      | (Err e, g) => (Err (Errorf "build job source: %w" [FWrap e]), g)
      | (Ok r, g) => applyTransformations 0 (spec_Transformations s) r g
      end
  end.

(** ** Meaning of a specification *)

Definition transformation_ok (t : TransformationSpec) : Prop :=
  tr_FunctionID t <> "" /\
  (tr_Kind t = OpReduceByKey /\ 0 < tr_NumPartitions t \/
   narrow_kind (tr_Kind t) = true /\ tr_NumPartitions t = 0).

Definition spec_ok (s : Spec) : Prop :=
  src_Path (spec_Source s) <> "" /\ 0 < src_NumPartitions (spec_Source s) /\
  Forall transformation_ok (spec_Transformations s) /\
  (spec_Action s = ActionCollect \/ spec_Action s = ActionCount).

Lemma validateTransformation_spec t : validateTransformation t = Ok tt <-> transformation_ok t.
Proof.
  unfold validateTransformation, transformation_ok. rewrite bind_unit_Ok.
  case_bool_decide; destruct (tr_Kind t); cbn;
    destruct (Z.eqb_spec (tr_NumPartitions t) 0), (Z.leb_spec (tr_NumPartitions t) 0);
    cbn; naive_solver lia.
Qed.

Lemma validateSpec_spec s : validateSpec s = Ok tt <-> spec_ok s.
Proof.
  unfold validateSpec, spec_ok. case_bool_decide; [naive_solver|].
  destruct (Z.leb_spec (src_NumPartitions (spec_Source s)) 0); [naive_solver lia|].
  rewrite bind_unit_Ok, check_all_Ok. setoid_rewrite map_err_Ok.
  setoid_rewrite validateTransformation_spec. rewrite Forall_forall.
  setoid_rewrite list_elem_of_lookup. split.
  - intros (Hts & Ha). split; [done|]. split; [done|]. split.
    + intros t [i Hi]. by eapply Hts.
    + destruct (spec_Action s); naive_solver.
  - intros (_ & _ & Hts & Ha). split.
    + intros i t Hi. apply Hts. eauto.
    + destruct Ha as [-> | ->]; done.
Qed.

(** ** Building keeps lineages executable *)

Lemma lineage_ok_mono g g' id :
  nodes g ⊆ nodes g' -> lineage_ok g id -> lineage_ok g' id.
Proof.
  intros Hsub. induction 1 as [id n (Hn & Hs & Ho & Hd) _ IH]. exists n; [|exact IH].
  split; [by eapply lookup_weaken|]. split; [done|]. split; [done|].
  intros d Hin. destruct (Hd d Hin) as [[p Hp] Hc]. split; [|done].
  exists p. by eapply lookup_weaken.
Qed.

(** The target's operators, last first: what the lineage must compute. *)
Definition chain_ops (l : list RDDNode) : list (OperatorKind * string) :=
  (fun n => (op_Kind (node_Operator n), op_FunctionID (node_Operator n))) <$> l.

Definition spec_ops (ts : list TransformationSpec) : list (OperatorKind * string) :=
  (fun t => (tr_Kind t, tr_FunctionID t)) <$> ts.

Lemma chain_mono g g' id l : nodes g ⊆ nodes g' -> chain g id l -> chain g' id l.
Proof.
  intros Hsub.
  assert (Hm : forall id n, node_ok g id n -> node_ok g' id n).
  { intros i n (Hn & Hs & Ho & Hd). split; [by eapply lookup_weaken|]. split; [done|].
    split; [done|]. intros d Hin. destruct (Hd d Hin) as [[p Hp] Hc]. split; [|done].
    exists p. by eapply lookup_weaken. }
  induction 1; eauto using chain.
Qed.

(** The node [n] that a transformation adds after node [p]. *)
Definition made_by (t : TransformationSpec) (p n : RDDNode) : Prop :=
  op_Kind (node_Operator n) = tr_Kind t /\ op_FunctionID (node_Operator n) = tr_FunctionID t /\
  exists d, node_Dependencies n = [d] /\
    match tr_Kind t with
    | OpReduceByKey => exists sid, node_NumPartitions n = tr_NumPartitions t /\
        dep_Shuffle d = Some {| sd_ShuffleID := sid; sd_Partitioner := HashPartitioner (tr_NumPartitions t);
                                sd_AggregatorID := tr_FunctionID t; sd_MapSideCombine := true |}
    | _ => node_NumPartitions n = node_NumPartitions p /\ dep_Shuffle d = None
    end.

(** The nodes of transformations after a source, last first. *)
Fixpoint nodes_made (src : RDDNode) (ts : list TransformationSpec) (l : list RDDNode) : Prop :=
  match ts, l with
  | [], [] => True
  | t :: ts, n :: l => made_by t (default src (head l)) n /\ nodes_made src ts l
  | _, _ => False
  end.

Lemma nodes_made_app src ts ts' l l' :
  nodes_made (default src (head l)) ts' l' -> nodes_made src ts l -> nodes_made src (ts' ++ ts) (l' ++ l).
Proof.
  intros H Hl. revert l' H. induction ts' as [|t ts' IH]; intros [|n l'] H; try done.
  destruct H as [Hn H]. split; [|by apply IH]. by destruct l'.
Qed.

Lemma made_by_ops t p n : made_by t p n -> chain_ops [n] = spec_ops [t].
Proof. intros (Hk & Hf & _). unfold chain_ops, spec_ops. cbn. by rewrite Hk, Hf. Qed.

Lemma nodes_made_ops src ts l : nodes_made src ts l -> chain_ops l = spec_ops ts.
Proof.
  revert l. induction ts as [|t ts IH]; intros [|n l]; try done. intros [Hn%made_by_ops H%IH].
  unfold chain_ops, spec_ops in *. cbn in *. congruence.
Qed.

(** A graph under construction and the handle returned last. *)
Record building (g : RDDGraph) (r : RDDID) (l : list RDDNode) : Prop := {
  bu_wf : graph_wf g;
  bu_lineage : lineage_ok g r;
  bu_chain : chain g r l }.

Lemma addNode_building g n wrap l d :
  graph_wf g -> (nextRDDID g + 1 < 2 ^ 64)%N ->
  shape_ok n -> operator_ok n -> node_Dependencies n = [d] -> shuffle_count_ok n d ->
  building g (dep_ParentID d) l ->
  exists r g', addNode n wrap g = (Ok r, g') /\ nextRDDID g' = (nextRDDID g + 1)%N /\
    building g' r (with_node_ID n r :: l).
Proof.
  intros Hwf Hlt Hs Ho Hd Hc [_ Hl Hch]. unfold addNode.
  destruct (AddNode_Ok g n Hs) as [g' E]. rewrite E.
  destruct (AddNode_wf_aux _ _ _ _ Hwf Hlt E) as [Hwf' Hnext].
  apply AddNode_inv in E as (_ & _ & Hg').
  exists (nextRDDID g), g'. split; [done|]. split; [done|].
  assert (Hsub : nodes g ⊆ nodes g').
  { subst g'. cbn. apply insert_subseteq. apply eq_None_not_Some.
    rewrite (wf_dense g Hwf). lia. }
  pose proof (lineage_ok_mono _ _ _ Hsub Hl) as Hl'.
  assert (Hn : node_ok g' (nextRDDID g) (with_node_ID n (nextRDDID g))).
  { split; [subst g'; cbn; by rewrite lookup_insert_eq|]. split; [done|]. split; [done|].
    cbn. rewrite Hd. intros d' ->%list_elem_of_singleton. split; [|done].
    destruct Hl' as [m (Hm & _)]. eauto. }
  split; [done| |].
  - exists (with_node_ID n (nextRDDID g)); [done|]. cbn. rewrite Hd.
    by intros d' ->%list_elem_of_singleton.
  - eapply chain_step; [done|exact Hd|]. by eapply chain_mono.
Qed.

Lemma applyTransformation_building g r l t :
  building g r l -> transformation_ok t -> (nextRDDID g + 1 < 2 ^ 64)%N ->
  exists r' g' n, applyTransformation r t g = (Ok r', g') /\
    nextRDDID g' = (nextRDDID g + 1)%N /\ building g' r' (n :: l) /\
    made_by t (default zeroNode (head l)) n.
Proof.
  intros Hb (Hf & Hk) Hlt. pose proof Hb as [Hwf Hl Hch].
  assert (Hr : exists n, Node g r = Some n /\ shape_ok n).
  { destruct Hl as [n (Hn & Hs & _) _]. eauto. }
  destruct Hr as (p & Hp & Hpos & Hpart & _).
  assert (Hhead : default zeroNode (head l) = p).
  { destruct (chain_head _ _ _ Hch) as (n & l' & -> & Hn). cbn. unfold Node in Hp. congruence. }
  rewrite Hhead.
  assert (Hnarrow : forall name kind pres, narrow_kind kind = true ->
    exists r' g' n, addNarrowTransformation name kind (tr_FunctionID t) pres r g = (Ok r', g') /\
    nextRDDID g' = (nextRDDID g + 1)%N /\ building g' r' (n :: l) /\
    op_Kind (node_Operator n) = kind /\ op_FunctionID (node_Operator n) = tr_FunctionID t /\
    exists d, node_Dependencies n = [d] /\ node_NumPartitions n = node_NumPartitions p /\ dep_Shuffle d = None).
  { intros name kind pres Hkind. unfold addNarrowTransformation. rewrite Hp.
    edestruct (addNode_building g
      (narrowNode name kind (tr_FunctionID t) r p pres)
      (fun e => Errorf "%s RDD %d: %w" [FStr name; FInt (Z.of_N r); FWrap e]) l)
      as (r' & g' & -> & ? & ?);
      [done|done| | |reflexivity| |exact Hb|].
    - split; [done|]. split; cbn.
      + destruct pres; [|done]. intros q Hq. by apply Hpart.
      + intros d ->%list_elem_of_singleton. left. done.
    - unfold operator_ok. cbn. destruct kind; try done; (split; [done|]); eauto.
    - done.
    - do 3 eexists. split; [done|]. split; [done|]. split; [done|]. split; [done|]. split; [done|]. by eexists. }
  unfold applyTransformation. destruct Hk as [[Hk Hnp]|[Hk Hnp]].
  - unfold made_by. rewrite Hk. unfold ReduceByKey. rewrite Hp. cbn [NewShuffleID].
    edestruct (addNode_building (NewShuffleID g).2
      (reduceNode r (tr_FunctionID t) (HashPartitioner (tr_NumPartitions t)) (nextShuffleID g))
      (fun e => Errorf "reduce-by-key RDD %d: %w" [FInt (Z.of_N r); FWrap e]) l)
      as (r' & g' & E & ? & ?); [by apply NewShuffleID_wf|done| | |reflexivity| | |].
    + split; [done|]. split; cbn.
      * intros q [= <-]. done.
      * intros d ->%list_elem_of_singleton. right. eexists. done.
    + unfold operator_ok. cbn. split; [done|]. eauto.
    + intros sd _ [= <-]. done.
    + destruct Hb as [_ Hl' Hc]. split; [by apply NewShuffleID_wf| |].
      * by eapply lineage_ok_mono; [|exact Hl'].
      * by eapply chain_mono; [|exact Hc].
    + cbn in E. rewrite E. do 3 eexists. split; [done|]. split; [done|]. split; [done|]. split; [done|]. split; [done|].
      eexists. split; [done|]. by eexists.
  - unfold made_by. destruct (tr_Kind t); try done; by apply Hnarrow.
Qed.

Lemma applyTransformations_building ts i g r l :
  building g r l -> Forall transformation_ok ts ->
  (nextRDDID g + N.of_nat (length ts) < 2 ^ 64)%N ->
  exists r' g' l', applyTransformations i ts r g = (Ok r', g') /\
    building g' r' (l' ++ l) /\ nodes_made (default zeroNode (head l)) (reverse ts) l'.
Proof.
  intros Hb Hts. revert i g r l Hb. induction Hts as [|t ts Ht _ IH]; intros i g r l Hb Hlt.
  - exists r, g, []. done.
  - cbn [length] in Hlt. cbn [applyTransformations].
    destruct (applyTransformation_building g r l t Hb Ht) as (r1 & g1 & n & -> & Hn & Hb1 & Hmade);
      [lia|].
    destruct (IH (S i) g1 r1 (n :: l) Hb1) as (r' & g' & l' & -> & Hb' & Hops); [lia|].
    exists r', g', (l' ++ [n]). split; [done|]. rewrite <- app_assoc. split; [done|].
    rewrite reverse_cons. apply nodes_made_app; [done|]. by split.
Qed.

Lemma TextFile_building path k g :
  graph_wf g -> (nextRDDID g + 1 < 2 ^ 64)%N -> path <> "" -> 0 < k ->
  exists r g' n, TextFile path k g = (Ok r, g') /\ nextRDDID g' = (nextRDDID g + 1)%N /\
    building g' r [n] /\ op_SourcePath (node_Operator n) = path /\ node_NumPartitions n = k.
Proof.
  intros Hwf Hlt Hpath Hk. unfold TextFile, addNode.
  destruct (AddNode g _) as [[id g']|e] eqn:E.
  - pose proof (AddNode_wf_aux _ _ _ _ Hwf Hlt E) as [Hwf' Hnext].
    apply AddNode_inv in E as (Hs & -> & Hg').
    match type of Hg' with context [with_node_ID ?m] => set (n := m) in * end.
    assert (Hn : node_ok g' (nextRDDID g) (with_node_ID n (nextRDDID g))).
    { split; [subst g'; cbn; by rewrite lookup_insert_eq|]. split; [done|]. split; [done|].
      cbn. intros d Hin. by apply not_elem_of_nil in Hin. }
    exists (nextRDDID g), g', (with_node_ID n (nextRDDID g)).
    split; [done|]. split; [done|]. split; [|done]. split; [done| |].
    + eexists; [exact Hn|]. cbn. intros d Hin. by apply not_elem_of_nil in Hin.
    + by apply chain_source.
  - exfalso. match type of E with AddNode _ ?n = _ => destruct (AddNode_Ok g n) as [g' H] end.
    + split; [done|]. split; [done|]. intros d Hin. by apply not_elem_of_nil in Hin.
    + congruence.
Qed.

(** Building a valid specification. *)
Lemma Build_Ok s : spec_ok s -> (N.of_nat (length (spec_Transformations s)) + 1 < 2 ^ 64)%N ->
  exists r g l src, Build s NewRDDGraph = (Ok r, g) /\ building g r (l ++ [src]) /\
    op_SourcePath (node_Operator src) = src_Path (spec_Source s) /\
    node_NumPartitions src = src_NumPartitions (spec_Source s) /\
    nodes_made src (reverse (spec_Transformations s)) l.
Proof.
  intros Hs Hlen. unfold Build. rewrite (proj2 (validateSpec_spec s) Hs). destruct Hs as (Hpath & Hk & Hts & Ha).
  destruct (TextFile_building (src_Path (spec_Source s)) (src_NumPartitions (spec_Source s))
    NewRDDGraph) as (r & g & n & -> & Hnext & Hb & Hp & Hnp); [apply NewRDDGraph_wf|done..|].
  destruct (applyTransformations_building (spec_Transformations s) 0 g r [n] Hb Hts)
    as (r' & g' & l & -> & Hb' & Hops); [rewrite Hnext; cbn [nextRDDID NewRDDGraph]; lia|].
  by exists r', g', l, n.
Qed.

Lemma Build_invalid s : ~ spec_ok s -> is_Ok (Build s NewRDDGraph).1 = false.
Proof.
  rewrite <- validateSpec_spec. unfold Build. by destruct (validateSpec s) as [[]|].
Qed.

(** C32. Building a job specification on a fresh context succeeds exactly when
    the specification is valid.  The graph is then well formed, the returned
    target has an executable lineage, and that lineage is the source followed by
    the specified transformations, in order. *)
Theorem Build_correct s :
  (N.of_nat (length (spec_Transformations s)) + 1 < 2 ^ 64)%N ->
  match Build s NewRDDGraph with
  | (Ok r, g) =>
      spec_ok s /\ graph_wf g /\ lineage_valid g r /\
      exists l src, chain g r (l ++ [src]) /\
        op_SourcePath (node_Operator src) = src_Path (spec_Source s) /\
        node_NumPartitions src = src_NumPartitions (spec_Source s) /\
        chain_ops l = reverse (spec_ops (spec_Transformations s))
  | (Err _, _) => ~ spec_ok s
  end.
Proof.
  intros Hlen. destruct (validateSpec s) as [[]|e] eqn:E.
  - apply validateSpec_spec in E. destruct (Build_Ok s E Hlen) as (r & g & l & src & -> & [Hwf Hl Hc] & Hp & Hn & Hmade).
    split; [done|]. split; [done|]. split; [by apply lineage_ok_valid|]. exists l, src. split_and!; try done.
    rewrite (nodes_made_ops _ _ _ Hmade). unfold spec_ops. by rewrite fmap_reverse.
  - assert (Hs : ~ spec_ok s) by (rewrite <- validateSpec_spec; congruence).
    pose proof (Build_invalid s Hs) as H. by destruct (Build s NewRDDGraph) as [[]].
Qed.

(** [examples/reduce_by_key.json]. *)
Definition example_spec : Spec :=
  {| spec_Source := {| src_Path := "examples/input.txt"; src_NumPartitions := 4 |};
     spec_Transformations :=
       [ {| tr_Kind := OpMap; tr_FunctionID := "normalize"; tr_NumPartitions := 0 |};
         {| tr_Kind := OpFilter; tr_FunctionID := "non_empty"; tr_NumPartitions := 0 |};
         {| tr_Kind := OpMapToPair; tr_FunctionID := "word_pair"; tr_NumPartitions := 0 |};
         {| tr_Kind := OpReduceByKey; tr_FunctionID := "sum_int"; tr_NumPartitions := 2 |} ];
     spec_Action := ActionCollect |}.

Lemma Build_correct_witness :
  exists r g, Build example_spec NewRDDGraph = (Ok r, g) /\ lineage_valid g r.
Proof.
  pose proof (Build_correct example_spec eq_refl) as H.
  destruct (Build example_spec NewRDDGraph) as [[r|e] g] eqn:E.
  - exists r, g. split; [reflexivity|]. exact (proj1 (proj2 (proj2 H))).
  - vm_compute in E. discriminate E.
Defined.
