(* ===== verification/Bytes.v ===== *)
(** * Bytes: the byte-level routines of Go's standard library the program uses

    Byte strings, UTF-8 validity ([unicode/utf8]), lowercase hexadecimal,
    FNV-1a ([hash/fnv]), SHA-256 ([crypto/sha256]) and the decimal formatting of
    [%d], all executable and checked against published vectors. *)

From Stdlib Require Import Ascii.
From S2P Require Import Prelude.
#[local] Open Scope Z_scope.

(** ** Byte strings *)

Fixpoint bytes_of (s : string) : list N :=
  match s with
  | EmptyString => []
  | String c s => Ascii.N_of_ascii c :: bytes_of s
  end.

Fixpoint string_of (bs : list N) : string :=
  match bs with
  | [] => EmptyString
  | b :: bs => String (Ascii.ascii_of_N b) (string_of bs)
  end.

Lemma string_of_bytes s : string_of (bytes_of s) = s.
Proof. induction s as [|c s IH]; cbn; [done|]. by rewrite Ascii.ascii_N_embedding, IH. Qed.

Lemma bytes_of_lt s b : b ∈ bytes_of s -> (b < 256)%N.
Proof.
  induction s as [|c s IH]; cbn; [by intros ?%not_elem_of_nil|].
  intros [->|H]%elem_of_cons; [apply Ascii.N_ascii_bounded|auto].
Qed.

Lemma append_cons c s t : String c s +:+ t = String c (s +:+ t).
Proof. done. Qed.
Lemma append_nil s : "" +:+ s = s.
Proof. done. Qed.

Lemma bytes_of_app s t : bytes_of (s +:+ t) = bytes_of s ++ bytes_of t.
Proof. induction s as [|c s IH]; [done|]. rewrite append_cons. cbn. by rewrite IH. Qed.

Lemma bytes_of_length s : length (bytes_of s) = String.length s.
Proof. induction s; cbn; congruence. Qed.

Definition newline : N := 10.

Definition in_range (lo hi b : N) : bool := (lo <=? b)%N && (b <=? hi)%N.

(** ** UTF-8 *)

Definition cont (b : N) : bool := in_range 128 191 b.

(** [utf8.Valid]: shortest form, no surrogates, at most U+10FFFF. *)
Fixpoint utf8_Valid (bs : list N) : bool :=
  match bs with
  | [] => true
  | b0 :: t0 =>
      if (b0 <? 128)%N then utf8_Valid t0
      else
        match t0 with
        | [] => false
        | b1 :: t1 =>
            if in_range 194 223 b0 then cont b1 && utf8_Valid t1
            else
              match t1 with
              | [] => false
              | b2 :: t2 =>
                  if in_range 224 239 b0 then
                    in_range (if (b0 =? 224)%N then 160 else 128)
                             (if (b0 =? 237)%N then 159 else 191) b1 &&
                    cont b2 && utf8_Valid t2
                  else
                    match t2 with
                    | [] => false
                    | b3 :: t3 =>
                        in_range 240 244 b0 &&
                        in_range (if (b0 =? 240)%N then 144 else 128)
                                 (if (b0 =? 244)%N then 143 else 191) b1 &&
                        cont b2 && cont b3 && utf8_Valid t3
                    end
              end
        end
  end.

Definition utf8_ValidString (s : string) : bool := utf8_Valid (bytes_of s).

Lemma utf8_Valid_ascii bs : (forall b, b ∈ bs -> (b < 128)%N) -> utf8_Valid bs = true.
Proof.
  induction bs as [|b bs IH]; intros H; cbn; [done|].
  destruct (N.ltb_spec b 128) as [_|Hb]; [|specialize (H b (list_elem_of_here _ _)); lia].
  apply IH. intros. apply H. by right.
Qed.

(** ** White space *)

(** The white space of Unicode that is encoded in one, two and three bytes:
    tab to carriage return and space; U+0085 and U+00A0; U+1680, U+2000 to
    U+200A, U+2028, U+2029, U+202F, U+205F and U+3000. *)
Definition space1 (b : N) : bool := in_range 9 13 b || (b =? 32)%N.
Definition space2 (b0 b1 : N) : bool := (b0 =? 194)%N && ((b1 =? 133) || (b1 =? 160))%N.
Definition space3 (b0 b1 b2 : N) : bool :=
  ((b0 =? 225) && (b1 =? 154) && (b2 =? 128) ||
   (b0 =? 226) && (b1 =? 128) && (in_range 128 138 b2 || (b2 =? 168) || (b2 =? 169) || (b2 =? 175)) ||
   (b0 =? 226) && (b1 =? 129) && (b2 =? 159) ||
   (b0 =? 227) && (b1 =? 128) && (b2 =? 128))%N.

Fixpoint trimLeft (bs : list N) : list N :=
  match bs with
  | b0 :: t0 =>
      if space1 b0 then trimLeft t0
      else
        match t0 with
        | b1 :: t1 =>
            if space2 b0 b1 then trimLeft t1
            else
              match t1 with
              | b2 :: t2 => if space3 b0 b1 b2 then trimLeft t2 else bs
              | [] => bs
              end
        | [] => bs
        end
  | [] => []
  end.

(** The same from the end, on the reversed bytes: the encoding of a space ends
    with no other rune. *)
Fixpoint trimReversed (bs : list N) : list N :=
  match bs with
  | b0 :: t0 =>
      if space1 b0 then trimReversed t0
      else
        match t0 with
        | b1 :: t1 =>
            if space2 b1 b0 then trimReversed t1
            else
              match t1 with
              | b2 :: t2 => if space3 b2 b1 b0 then trimReversed t2 else bs
              | [] => bs
              end
        | [] => bs
        end
  | [] => []
  end.

(** [strings.TrimSpace]. *)
Definition TrimSpace (s : string) : string :=
  string_of (rev (trimReversed (rev (trimLeft (bytes_of s))))).

Example trim_example : TrimSpace (string_of [32; 226; 128; 131; 97; 32; 98; 194; 160; 10]%N) = "a b".
Proof. reflexivity. Qed.

(** ** FNV-1a *)

Definition fnv_offset : N := 14695981039346656037.
Definition fnv_prime : N := 1099511628211.

(** [fnv.New64a]: xor the byte, then multiply, on 64 bits. *)
Definition fnv64a (bs : list N) : N :=
  foldl (fun h b => (N.lxor h b * fnv_prime) mod 2 ^ 64)%N fnv_offset bs.

Example fnv_empty : fnv64a (bytes_of "") = 0xcbf29ce484222325%N.
Proof. reflexivity. Qed.
Example fnv_a : fnv64a (bytes_of "a") = 0xaf63dc4c8601ec8c%N.
Proof. vm_compute. reflexivity. Qed.
Example fnv_foobar : fnv64a (bytes_of "foobar") = 0x85944171f73967e8%N.
Proof. vm_compute. reflexivity. Qed.

(** ** Hexadecimal *)

Definition hexDigit (d : N) : N := (if (d <? 10) then 48 + d else 87 + d)%N.

(** [hex.EncodeToString]. *)
Definition hex_EncodeToString (bs : list N) : string :=
  string_of (concat ((fun b => [hexDigit (b / 16); hexDigit (b mod 16)])%N <$> bs)).

(** ** SHA-256 *)

Module Sha256.
Local Open Scope N_scope.

Definition add32 (x y : N) : N := (x + y) mod 2 ^ 32.
Definition rotr (x : N) (n : N) : N :=
  N.lor (N.shiftr x n) ((N.shiftl x (32 - n)) mod 2 ^ 32).
Definition not32 (x : N) : N := N.lxor x (2 ^ 32 - 1).
Definition Ch (x y z : N) : N := N.lxor (N.land x y) (N.land (not32 x) z).
Definition Maj (x y z : N) : N := N.lxor (N.lxor (N.land x y) (N.land x z)) (N.land y z).
Definition S0 (x : N) : N := N.lxor (N.lxor (rotr x 2) (rotr x 13)) (rotr x 22).
Definition S1 (x : N) : N := N.lxor (N.lxor (rotr x 6) (rotr x 11)) (rotr x 25).
Definition s0 (x : N) : N := N.lxor (N.lxor (rotr x 7) (rotr x 18)) (N.shiftr x 3).
Definition s1 (x : N) : N := N.lxor (N.lxor (rotr x 17) (rotr x 19)) (N.shiftr x 10).

(** The round constants and the initial state are the first 32 bits of the
    fractional parts of the cube and square roots of the first primes. *)
Definition is_prime (n : N) : bool :=
  (2 <=? n) && forallb (fun d => negb (n mod N.of_nat d =? 0)) (seq 2 (N.to_nat n - 2)).
Definition primes (count : nat) : list N :=
  take count (List.filter is_prime (N.of_nat <$> seq 2 320)).

(** The largest [r < 2 ^ n + acc] that adds bits to [acc] with [r ^ k <= x]. *)
Fixpoint root (k : N) (n : nat) (acc x : N) : N :=
  match n with
  | O => acc
  | S n =>
      let r := acc + 2 ^ N.of_nat n in
      root k n (if r ^ k <=? x then r else acc) x
  end.
Definition root_fraction (k p : N) : N := root k 40 0 (p * 2 ^ (32 * k)) mod 2 ^ 32.

Definition K : list N := Eval vm_compute in root_fraction 3 <$> primes 64.
Definition H0 : list N := Eval vm_compute in root_fraction 2 <$> primes 8.

(** Big-endian bytes of an [n]-byte word. *)
Fixpoint be_bytes (n : nat) (w : N) : list N :=
  match n with
  | O => []
  | S n => N.shiftr w (8 * N.of_nat n) mod 256 :: be_bytes n w
  end.

Fixpoint words (bs : list N) : list N :=
  match bs with
  | a :: b :: c :: d :: bs => (((a * 256 + b) * 256 + c) * 256 + d) :: words bs
  | _ => []
  end.

Definition pad (bs : list N) : list N :=
  let len := length bs in
  let zeros := Nat.modulo (119 - Nat.modulo len 64) 64 in
  bs ++ [128] ++ replicate zeros 0 ++ be_bytes 8 (8 * N.of_nat len).

(** The message schedule, last word first. *)
Fixpoint schedule (n : nat) (rev_w : list N) : list N :=
  match n with
  | O => rev_w
  | S n =>
      let w k := nth k rev_w 0 in
      schedule n (add32 (add32 (s1 (w 1%nat)) (w 6%nat)) (add32 (s0 (w 14%nat)) (w 15%nat)) :: rev_w)
  end.

Definition round (st : list N) (kw : N * N) : list N :=
  match st with
  | [a; b; c; d; e; f; g; h] =>
      let t1 := add32 (add32 (add32 h (S1 e)) (add32 (Ch e f g) kw.1)) kw.2 in
      let t2 := add32 (S0 a) (Maj a b c) in
      [add32 t1 t2; a; b; c; add32 d t1; e; f; g]
  | _ => st
  end.

Definition block (st ws : list N) : list N :=
  let w := reverse (schedule 48 (reverse ws)) in
  zip_with add32 st (foldl round st (zip K w)).

Fixpoint blocks (fuel : nat) (st ws : list N) : list N :=
  match fuel with
  | O => st
  | S fuel => blocks fuel (block st (take 16 ws)) (drop 16 ws)
  end.

Definition Sum256 (bs : list N) : list N :=
  let ws := words (pad bs) in
  concat (be_bytes 4 <$> blocks (Nat.div (length ws) 16) H0 ws).
End Sha256.

(** [hex.EncodeToString(sha256.Sum256(data))], also written with [%x]. *)
Definition sha256_hex (bs : list N) : string := hex_EncodeToString (Sha256.Sum256 bs).

Example sha_empty :
  sha256_hex [] = "e3b0c44298fc1c149afbf4c8996fb92427ae41e4649b934ca495991b7852b855".
Proof. vm_compute. reflexivity. Qed.
Example sha_abc :
  sha256_hex (bytes_of "abc") = "ba7816bf8f01cfea414140de5dae2223b00361a396177a9cb410ff61f20015ad".
Proof. vm_compute. reflexivity. Qed.

(** ** Decimal formatting and separators *)

(** No ['/'] in a string. *)
Fixpoint no_slash (s : string) : bool :=
  match s with
  | EmptyString => true
  | String c s => negb (Ascii.eqb c "/"%char) && no_slash s
  end.

Lemma no_slash_app s t : no_slash (s +:+ t) = no_slash s && no_slash t.
Proof.
  induction s as [|c s IH]; [done|].
  rewrite append_cons. cbn. rewrite IH. by rewrite andb_assoc.
Qed.

Lemma pretty_N_go_no_slash x acc : no_slash acc = true -> no_slash (pretty_N_go x acc) = true.
Proof.
  revert acc. induction (N.lt_wf_0 x) as [x _ IH]; intros acc Hacc.
  destruct (decide (0 < x)%N) as [Hx|Hx].
  - rewrite pretty_N_go_step by done. apply IH; [by apply N.div_lt|].
    cbn. rewrite Hacc, andb_true_r.
    by repeat (unfold pretty_N_char; case_match).
  - assert (x = 0%N) as -> by lia. by rewrite pretty_N_go_0.
Qed.

Lemma pretty_N_no_slash (n : N) : no_slash (pretty n) = true.
Proof. unfold pretty, pretty_N. case_decide; [done|]. by apply pretty_N_go_no_slash. Qed.

Lemma pretty_Z_no_slash (z : Z) : no_slash (pretty z) = true.
Proof.
  destruct z as [|p|p]; [done|exact (pretty_N_no_slash (N.pos p))|].
  change (no_slash ("-" +:+ pretty (N.pos p)) = true).
  by rewrite no_slash_app, pretty_N_no_slash.
Qed.

(** A separator that occurs in neither prefix splits equal strings alike. *)
Lemma slash_split s t s' t' :
  no_slash s = true -> no_slash s' = true ->
  s +:+ "/" +:+ t = s' +:+ "/" +:+ t' -> s = s' /\ t = t'.
Proof.
  revert s'. induction s as [|c s IH]; intros [|c' s'] Hs Hs' E;
    rewrite ?append_cons, ?append_nil in E; cbn in Hs, Hs'.
  - injection E as ->. done.
  - injection E as <- E. by rewrite Ascii.eqb_refl in Hs'.
  - injection E as -> E. by rewrite Ascii.eqb_refl in Hs.
  - injection E as -> E. apply andb_true_iff in Hs as [_ Hs]. apply andb_true_iff in Hs' as [_ Hs'].
    destruct (IH _ Hs Hs' E) as [-> ->]. done.
Qed.

Lemma prefix_inj (p s t : string) : p +:+ s = p +:+ t -> s = t.
Proof. induction p as [|c p IH]; [done|]. rewrite !append_cons. intros [= E]. by apply IH. Qed.

(** ** [%q] *)

(** [strconv.Quote] of a string all of whose non-ASCII runes are printable
    (they are written as they are). *)
Definition quoteByte (b : N) : list N :=
  if (b =? 34)%N || (b =? 92)%N then [92%N; b]
  else if in_range 32 126 b || (128 <=? b)%N then [b]
  else if (b =? 7)%N then [92%N; 97%N]
  else if (b =? 8)%N then [92%N; 98%N]
  else if (b =? 12)%N then [92%N; 102%N]
  else if (b =? 10)%N then [92%N; 110%N]
  else if (b =? 13)%N then [92%N; 114%N]
  else if (b =? 9)%N then [92%N; 116%N]
  else if (b =? 11)%N then [92%N; 118%N]
  else [92%N; 120%N] ++ bytes_of (hex_EncodeToString [b]).

Definition quoteString (s : string) : string :=
  string_of ([34%N] ++ concat (quoteByte <$> bytes_of s) ++ [34%N]).
