(* ===== verification/Shuffle.v ===== *)
(** * Shuffle: identities, metadata and partitioning of intermediate data

    Models [shuffle/{metadata,input,reference,partitioner}.go] and
    [attemptPath]/[bucketName] of [shuffle/filesystem.go].  Slice clones copy
    values; they are in [Heap] with their addresses. *)

From S2P Require Import Prelude Bytes Plan.
#[local] Open Scope Z_scope.

Definition FormatVersion : Z := 1.

(** ** Lowercase hexadecimal *)

Definition is_lower_hex (b : N) : bool := in_range 48 57 b || in_range 97 102 b.

(** [for _, c := range s] ranges over runes; a byte of a multi-byte rune and an
    invalid byte both fail the test, as the rune does. *)
Definition lowerHex (s : string) (length : nat) : bool :=
  (String.length s =? length)%nat && forallb is_lower_hex (bytes_of s).

(** ** Attempt identities *)

Definition validateIdentity (a : AttemptIdentity) : result unit :=
  fail_if (negb (lowerHex (ai_RunID a) 32))
    (Errorf "run_id must contain 32 lowercase hexadecimal characters" []);;
  fail_if (ai_MapPartitionID a <? 0)
    (Errorf "map_partition_id must be nonnegative" []);;
  Ok tt.

(** ** Map outputs *)

Record BucketMetadata := mkBucket {
  bk_PartitionID : PartitionID;
  bk_RecordCount : Z;
  bk_ByteCount : Z;
  bk_SHA256 : string }.

Record MapOutput := mkMapOutput {
  mo_Version : Z;
  mo_Attempt : AttemptIdentity;
  mo_NumMapPartitions : Z;
  mo_NumReducePartitions : Z;
  mo_Buckets : list BucketMetadata }.

#[export] Instance BucketMetadata_eq_dec : EqDecision BucketMetadata.
Proof. solve_decision. Defined.
#[export] Instance MapOutput_eq_dec : EqDecision MapOutput.
Proof. solve_decision. Defined.

(** [fmt.Sprintf("%x", sha256.Sum256(nil))]; see [Bytes.sha_empty]. *)
Definition emptyDigest : string := Eval vm_compute in sha256_hex [].

Definition validateBucket (i : nat) (b : BucketMetadata) : result unit :=
  fail_if (negb (bk_PartitionID b =? Z.of_nat i))
    (Errorf "bucket %d must have partition_id %d" [FInt (Z.of_nat i); FInt (Z.of_nat i)]);;
  fail_if ((bk_RecordCount b <? 0) || (bk_ByteCount b <? 0) || negb (lowerHex (bk_SHA256 b) 64))
    (Errorf "bucket %d requires nonnegative counts and a SHA-256 digest" [FInt (Z.of_nat i)]);;
  if bk_RecordCount b =? 0 then
    fail_if (negb (bk_ByteCount b =? 0) || negb (bool_decide (bk_SHA256 b = emptyDigest)))
      (Errorf "bucket %d has inconsistent empty metadata" [FInt (Z.of_nat i)]);;
    Ok tt
  else
    fail_if (bk_ByteCount b <? bk_RecordCount b)
      (Errorf "bucket %d has too few bytes for its records" [FInt (Z.of_nat i)]);;
    Ok tt.

Definition validateMapOutput (o : MapOutput) : result unit :=
  fail_if (negb (mo_Version o =? FormatVersion))
    (Errorf "unsupported shuffle format version %d" [FInt (mo_Version o)]);;
  _ ← validateIdentity (mo_Attempt o);
  fail_if ((mo_NumMapPartitions o <=? 0) ||
           (mo_NumMapPartitions o <=? ai_MapPartitionID (mo_Attempt o)))
    (Errorf "map partition must be within positive num_map_partitions" []);;
  fail_if ((mo_NumReducePartitions o <=? 0) ||
           negb (Z.of_nat (length (mo_Buckets o)) =? mo_NumReducePartitions o))
    (Errorf "buckets must contain every reduce partition" []);;
  check_all validateBucket 0 (mo_Buckets o).

(** ** Input snapshots *)

Record InputSnapshot := mkSnapshot {
  is_RunID : string;
  is_JobID : JobID;
  is_ShuffleID : ShuffleID;
  is_StageID : StageID;
  is_StageAttemptID : StageAttemptID;
  is_NumMapPartitions : Z;
  is_NumReducePartitions : Z;
  is_Outputs : list MapOutput }.

#[export] Instance InputSnapshot_eq_dec : EqDecision InputSnapshot.
Proof. solve_decision. Defined.

Definition matchesSnapshot (s : InputSnapshot) (a : AttemptIdentity) : bool :=
  bool_decide (ai_RunID a = is_RunID s) && bool_decide (ai_JobID a = is_JobID s) &&
  bool_decide (ai_ShuffleID a = is_ShuffleID s) && bool_decide (ai_StageID a = is_StageID s) &&
  bool_decide (ai_StageAttemptID a = is_StageAttemptID s).

Definition validateSnapshotOutput (s : InputSnapshot) (i : nat) (o : MapOutput) : result unit :=
  _ ← map_err (fun e => Errorf "map output %d: %w" [FInt (Z.of_nat i); FWrap e]) (validateMapOutput o);
  fail_if (negb (matchesSnapshot s (mo_Attempt o)))
    (Errorf "map output %d does not match shuffle input identity" [FInt (Z.of_nat i)]);;
  fail_if (negb (ai_MapPartitionID (mo_Attempt o) =? Z.of_nat i) ||
           negb (mo_NumMapPartitions o =? is_NumMapPartitions s) ||
           negb (mo_NumReducePartitions o =? is_NumReducePartitions s))
    (Errorf "map output %d does not match shuffle input partitions" [FInt (Z.of_nat i)]);;
  Ok tt.

Definition validateSnapshot (s : InputSnapshot) : result unit :=
  fail_if (negb (lowerHex (is_RunID s) 32) || (is_NumMapPartitions s <=? 0) ||
           (is_NumReducePartitions s <=? 0))
    (Errorf "shuffle input requires a valid run ID and positive partition counts" []);;
  fail_if (negb (Z.of_nat (length (is_Outputs s)) =? is_NumMapPartitions s))
    (Errorf "shuffle input must contain every map partition" []);;
  check_all (validateSnapshotOutput s) 0 (is_Outputs s).

(** ** Input references *)

Record InputReference := mkReference {
  ir_Attempt : AttemptIdentity;
  ir_PartitionID : PartitionID }.

#[export] Instance InputReference_eq_dec : EqDecision InputReference.
Proof. solve_decision. Defined.

Definition validateReference (r : InputReference) : result unit :=
  _ ← validateIdentity (ir_Attempt r);
  fail_if (ir_PartitionID r <? 0) (Errorf "input partition must be nonnegative" []);;
  Ok tt.

(** ** Partitioning *)

Definition PartitionFor (key : string) (numPartitions : Z) : result PartitionID :=
  fail_if (numPartitions <=? 0) (Errorf "shuffle partition count must be positive" []);;
  fail_if (negb (utf8_ValidString key)) (Errorf "shuffle key must be valid UTF-8" []);;
  Ok (i64 (Z.of_N (fnv64a (bytes_of key) mod Z.to_N numPartitions)%N)).

(** ** Paths *)

(** [filepath.Join] of elements that are nonempty, contain no ['/'] and are
    neither ["."] nor [".."], on which [filepath.Clean] is the identity. *)
Fixpoint joinPath (elements : list string) : string :=
  match elements with
  | [] => ""
  | [e] => e
  | e :: es => e +:+ "/" +:+ joinPath es
  end.

Definition attemptPath (a : AttemptIdentity) : string :=
  joinPath
    [ ai_RunID a;
      "job-" +:+ pretty (ai_JobID a);
      "shuffle-" +:+ pretty (ai_ShuffleID a);
      "stage-" +:+ pretty (ai_StageID a);
      "stage-attempt-" +:+ pretty (ai_StageAttemptID a);
      "map-" +:+ pretty (ai_MapPartitionID a);
      "task-attempt-" +:+ pretty (ai_TaskAttemptID a) ].

Definition bucketName (id : PartitionID) : string :=
  "bucket-" +:+ pretty id +:+ ".jsonl".

(** ** What the checks mean *)

Definition identity_ok (a : AttemptIdentity) : Prop :=
  lowerHex (ai_RunID a) 32 = true /\ 0 <= ai_MapPartitionID a.

Record bucket_ok (i : nat) (b : BucketMetadata) : Prop := {
  bo_partition : bk_PartitionID b = Z.of_nat i;
  bo_records : 0 <= bk_RecordCount b;
  bo_digest : lowerHex (bk_SHA256 b) 64 = true;
  bo_empty : bk_RecordCount b = 0 -> bk_ByteCount b = 0 /\ bk_SHA256 b = emptyDigest;
  bo_bytes : bk_RecordCount b <= bk_ByteCount b }.

Record map_output_ok (o : MapOutput) : Prop := {
  mo_version : mo_Version o = FormatVersion;
  mo_identity : identity_ok (mo_Attempt o);
  mo_map : ai_MapPartitionID (mo_Attempt o) < mo_NumMapPartitions o;
  mo_reduce : 0 < mo_NumReducePartitions o;
  mo_length : Z.of_nat (length (mo_Buckets o)) = mo_NumReducePartitions o;
  mo_buckets : forall i b, mo_Buckets o !! i = Some b -> bucket_ok i b }.

(** A snapshot holds exactly one output per map partition, in order, all from
    the one stage attempt it names. *)
Record snapshot_ok (s : InputSnapshot) : Prop := {
  so_run : lowerHex (is_RunID s) 32 = true;
  so_maps : 0 < is_NumMapPartitions s;
  so_reduces : 0 < is_NumReducePartitions s;
  so_complete : Z.of_nat (length (is_Outputs s)) = is_NumMapPartitions s;
  so_outputs : forall i o, is_Outputs s !! i = Some o ->
    map_output_ok o /\ ai_MapPartitionID (mo_Attempt o) = Z.of_nat i /\
    mo_NumMapPartitions o = is_NumMapPartitions s /\
    mo_NumReducePartitions o = is_NumReducePartitions s /\
    ai_RunID (mo_Attempt o) = is_RunID s /\ ai_JobID (mo_Attempt o) = is_JobID s /\
    ai_ShuffleID (mo_Attempt o) = is_ShuffleID s /\ ai_StageID (mo_Attempt o) = is_StageID s /\
    ai_StageAttemptID (mo_Attempt o) = is_StageAttemptID s }.

(** Case analysis on the conditions of a chain of [fail_if]s. *)
Ltac fail_if_cases :=
  repeat match goal with
  | |- context [ if (?a <? ?b)%Z then _ else _ ] => destruct (Z.ltb_spec a b)
  | |- context [ if (?a <=? ?b)%Z then _ else _ ] => destruct (Z.leb_spec a b)
  end.

Lemma fail_if_Ok {A} (b : bool) e (k : result A) x :
  (fail_if b e;; k) = Ok x <-> b = false /\ k = Ok x.
Proof. destruct b; naive_solver. Qed.

Lemma PartitionFor_range key n q : PartitionFor key n = Ok q -> n < 2 ^ 63 -> 0 <= q < n.
Proof.
  unfold PartitionFor. rewrite !fail_if_Ok, Z.leb_gt. intros (Hn & _ & [= <-]) Hb.
  pose proof (N.mod_lt (fnv64a (bytes_of key)) (Z.to_N n) ltac:(lia)) as H.
  revert H. generalize (fnv64a (bytes_of key) mod Z.to_N n)%N. intros h H. rewrite i64_id by (unfold in_i64; lia). lia.
Qed.

Lemma validateIdentity_spec a : validateIdentity a = Ok tt <-> identity_ok a.
Proof.
  unfold validateIdentity, identity_ok. rewrite !fail_if_Ok, negb_false_iff, Z.ltb_ge. naive_solver.
Qed.

Lemma validateBucket_spec i b : validateBucket i b = Ok tt <-> bucket_ok i b.
Proof.
  unfold validateBucket. rewrite !fail_if_Ok, !orb_false_iff, !negb_false_iff, Z.eqb_eq, !Z.ltb_ge.
  destruct (Z.eqb_spec (bk_RecordCount b) 0) as [E|E];
    rewrite fail_if_Ok, ?orb_false_iff, ?negb_false_iff, ?Z.eqb_eq, ?bool_decide_eq_true, ?Z.ltb_ge.
  - split; [intros (? & ((? & ?) & ?) & (? & ?) & _); split; auto; lia|].
    intros [? ? ? He ?]. destruct (He E). split_and!; auto; lia.
  - split; [intros (? & ((? & ?) & ?) & ? & _); split; auto; lia|].
    intros []. split_and!; auto; lia.
Qed.

Lemma validateMapOutput_spec o : validateMapOutput o = Ok tt <-> map_output_ok o.
Proof.
  unfold validateMapOutput.
  rewrite fail_if_Ok, bind_unit_Ok, !fail_if_Ok, !orb_false_iff, !negb_false_iff,
    !Z.eqb_eq, !Z.leb_gt, validateIdentity_spec, check_all_Ok.
  setoid_rewrite validateBucket_spec. split.
  - intros (? & ? & (? & ?) & (? & ?) & ?). by split.
  - intros [? [? ?] ? ? ? ?]. split_and!; auto; try lia. by split.
Qed.

Lemma validateSnapshotOutput_spec s i o :
  validateSnapshotOutput s i o = Ok tt <->
  map_output_ok o /\ ai_MapPartitionID (mo_Attempt o) = Z.of_nat i /\
  mo_NumMapPartitions o = is_NumMapPartitions s /\
  mo_NumReducePartitions o = is_NumReducePartitions s /\
  ai_RunID (mo_Attempt o) = is_RunID s /\ ai_JobID (mo_Attempt o) = is_JobID s /\
  ai_ShuffleID (mo_Attempt o) = is_ShuffleID s /\ ai_StageID (mo_Attempt o) = is_StageID s /\
  ai_StageAttemptID (mo_Attempt o) = is_StageAttemptID s.
Proof.
  unfold validateSnapshotOutput, matchesSnapshot.
  rewrite bind_unit_Ok, map_err_Ok, validateMapOutput_spec, !fail_if_Ok, !orb_false_iff,
    !negb_false_iff, !andb_true_iff, !bool_decide_eq_true, !Z.eqb_eq.
  naive_solver.
Qed.

Lemma validateSnapshot_spec s : validateSnapshot s = Ok tt <-> snapshot_ok s.
Proof.
  unfold validateSnapshot.
  rewrite !fail_if_Ok, !orb_false_iff, !negb_false_iff, Z.eqb_eq, !Z.leb_gt, check_all_Ok.
  setoid_rewrite validateSnapshotOutput_spec. split.
  - intros (((? & ?) & ?) & ? & ?). by split.
  - intros []. split_and!; auto.
Qed.

Lemma validateReference_spec r :
  validateReference r = Ok tt <-> identity_ok (ir_Attempt r) /\ 0 <= ir_PartitionID r.
Proof.
  unfold validateReference.
  rewrite bind_unit_Ok, fail_if_Ok, validateIdentity_spec, Z.ltb_ge. naive_solver.
Qed.

Lemma lowerHex_no_slash s n : lowerHex s n = true -> no_slash s = true.
Proof.
  intros [_ H]%andb_true_iff. induction s as [|c s IH]; [done|]. cbn in *.
  apply andb_true_iff in H as [Hc Hs]. rewrite (IH Hs), andb_true_r.
  apply negb_true_iff, Ascii.eqb_neq. intros ->. by vm_compute in Hc.
Qed.

Lemma joinPath_inj e es e' es' :
  no_slash e = true -> no_slash e' = true -> es <> [] -> es' <> [] ->
  joinPath (e :: es) = joinPath (e' :: es') -> e = e' /\ joinPath es = joinPath es'.
Proof.
  intros He He' Hn Hn' H. destruct es as [|f es], es' as [|f' es']; try done.
  by apply slash_split.
Qed.

Lemma tagged_no_slash (p : string) (n : N) :
  no_slash p = true -> no_slash (p +:+ pretty n) = true.
Proof. intros H. by rewrite no_slash_app, H, pretty_N_no_slash. Qed.

Lemma taggedZ_no_slash (p : string) (z : Z) :
  no_slash p = true -> no_slash (p +:+ pretty z) = true.
Proof. intros H. by rewrite no_slash_app, H, pretty_Z_no_slash. Qed.

Lemma tagged_inj (p : string) (n m : N) : p +:+ pretty n = p +:+ pretty m -> n = m.
Proof. intros H%prefix_inj. by apply (inj pretty). Qed.

Lemma taggedZ_inj (p : string) (n m : Z) : p +:+ pretty n = p +:+ pretty m -> n = m.
Proof. intros H%prefix_inj. by apply (inj pretty). Qed.

#[export] Hint Resolve lowerHex_no_slash tagged_no_slash taggedZ_no_slash : spark.

Lemma attemptPath_inj a b :
  identity_ok a -> identity_ok b -> attemptPath a = attemptPath b ->
  ai_RunID a = ai_RunID b /\ ai_JobID a = ai_JobID b /\ ai_ShuffleID a = ai_ShuffleID b /\
  ai_StageID a = ai_StageID b /\ ai_StageAttemptID a = ai_StageAttemptID b /\
  ai_MapPartitionID a = ai_MapPartitionID b /\ ai_TaskAttemptID a = ai_TaskAttemptID b.
Proof.
  intros [Ha _] [Hb _] H. unfold attemptPath in H.
  repeat match goal with
  | H : joinPath (_ :: _ :: _) = joinPath (_ :: _ :: _) |- _ =>
      apply joinPath_inj in H as [? H]; [|solve [eauto with spark]..|done|done]
  end.
  cbn [joinPath] in H. split_and!; solve [eassumption | eapply tagged_inj; eassumption | eapply taggedZ_inj; eassumption].
Qed.

(** ** Properties *)

(** [PartitionFor] accepts exactly the valid UTF-8 keys and positive counts,
    and then returns the FNV-1a hash modulo the count, a partition within
    range. *)
Theorem PartitionFor_correct key n :
  n < 2 ^ 63 ->
  match PartitionFor key n with
  | Ok p => 0 < n /\ utf8_ValidString key = true /\ 0 <= p < n /\
            p = Z.of_N (fnv64a (bytes_of key)) mod n
  | Err _ => n <= 0 \/ utf8_ValidString key = false
  end.
Proof.
  intros Hn. unfold PartitionFor. destruct (Z.leb_spec n 0); [by left|].
  destruct (utf8_ValidString key); cbn [negb]; [|by right].
  assert (Heq : Z.of_N (fnv64a (bytes_of key) mod Z.to_N n)
                = Z.of_N (fnv64a (bytes_of key)) mod n)
    by (rewrite N2Z.inj_mod, Z2N.id; lia).
  pose proof (Z.mod_pos_bound (Z.of_N (fnv64a (bytes_of key))) n ltac:(lia)) as Hlt.
  rewrite Heq, i64_id by (unfold in_i64; lia).
  split; [done|]. split; [done|]. split; [done|done].
Qed.

Lemma PartitionFor_correct_witness :
  exists p, PartitionFor "alpha" 7 = Ok p /\ 0 <= p < 7.
Proof.
  pose proof (PartitionFor_correct "alpha" 7 eq_refl) as H.
  destruct (PartitionFor "alpha" 7) as [p|e] eqn:E.
  - exists p. split; [reflexivity|]. exact (proj1 (proj2 (proj2 H))).
  - vm_compute in E. discriminate E.
Defined.

(** C33. Two valid attempt identities are stored in the same directory only if
    they agree on run, job, shuffle, stage, stage attempt, map partition and task
    attempt: attempts of different stage or task attempts never share files. *)
Theorem attemptPath_isolates a b :
  validateIdentity a = Ok tt -> validateIdentity b = Ok tt ->
  attemptPath a = attemptPath b ->
  b = {| ai_RunID := ai_RunID a; ai_JobID := ai_JobID a; ai_ShuffleID := ai_ShuffleID a;
         ai_StageID := ai_StageID a; ai_StageAttemptID := ai_StageAttemptID a;
         ai_TaskID := ai_TaskID b; ai_TaskAttemptID := ai_TaskAttemptID a;
         ai_MapPartitionID := ai_MapPartitionID a |}.
Proof.
  rewrite !validateIdentity_spec. intros Ha Hb H.
  destruct (attemptPath_inj _ _ Ha Hb H) as (-> & -> & -> & -> & -> & -> & ->). by destruct b.
Qed.

Definition example_run : string := "0123456789abcdef0123456789abcdef".

Definition example_identity (map task_attempt : N) : AttemptIdentity :=
  {| ai_RunID := example_run; ai_JobID := 0%N; ai_ShuffleID := 0%N; ai_StageID := 0%N;
     ai_StageAttemptID := 0%N; ai_TaskID := map; ai_TaskAttemptID := task_attempt;
     ai_MapPartitionID := Z.of_N map |}.

(** The same attempt under another task ID: the directory is the same, and with it
    all the other fields. *)
Definition renamed (task : N) (a : AttemptIdentity) : AttemptIdentity :=
  {| ai_RunID := ai_RunID a; ai_JobID := ai_JobID a; ai_ShuffleID := ai_ShuffleID a; ai_StageID := ai_StageID a;
     ai_StageAttemptID := ai_StageAttemptID a; ai_TaskID := task; ai_TaskAttemptID := ai_TaskAttemptID a;
     ai_MapPartitionID := ai_MapPartitionID a |}.

Lemma attemptPath_isolates_witness :
  (exists a b, a <> b /\ attemptPath a = attemptPath b /\ ai_TaskAttemptID b = ai_TaskAttemptID a) /\
  attemptPath (example_identity 1 12) <> attemptPath (example_identity 1 13) /\
  attemptPath (example_identity 1 12) <> attemptPath (example_identity 2 12).
Proof.
  split; [|split].
  - exists (example_identity 1 12), (renamed 7 (example_identity 1 12)). split; [discriminate|]. split; [reflexivity|].
    exact (f_equal ai_TaskAttemptID (attemptPath_isolates (example_identity 1 12) (renamed 7 (example_identity 1 12))
      eq_refl eq_refl eq_refl)).
  - intros E. pose proof (attemptPath_isolates (example_identity 1 12) (example_identity 1 13) eq_refl eq_refl E) as H.
    discriminate H.
  - intros E. pose proof (attemptPath_isolates (example_identity 1 12) (example_identity 2 12) eq_refl eq_refl E) as H.
    discriminate H.
Defined.

(** [InputSnapshot.Validate] accepts exactly the complete snapshots: one
    valid output per map partition, in order, all from the named run, job,
    shuffle, stage and stage attempt; their directories are then pairwise
    distinct. *)
Theorem validateSnapshot_correct s :
  (validateSnapshot s = Ok tt <-> snapshot_ok s) /\
  (validateSnapshot s = Ok tt -> NoDup ((fun o => attemptPath (mo_Attempt o)) <$> is_Outputs s)).
Proof.
  split; [apply validateSnapshot_spec|]. rewrite validateSnapshot_spec. intros [_ _ _ _ Ho].
  apply NoDup_fmap_2_strong; cycle 1.
  - apply NoDup_alt. intros i j o Hi Hj.
    destruct (Ho _ _ Hi) as (_ & Ei & _), (Ho _ _ Hj) as (_ & Ej & _). lia.
  - intros o o' [i Hi]%list_elem_of_lookup [j Hj]%list_elem_of_lookup E.
    destruct (Ho _ _ Hi) as ([_ Hoi _ _ _ _] & Ei & _), (Ho _ _ Hj) as ([_ Hoj _ _ _ _] & Ej & _).
    destruct (attemptPath_inj _ _ Hoi Hoj E) as (_ & _ & _ & _ & _ & Em & _).
    assert (i = j) as -> by lia. congruence.
Qed.

Definition empty_bucket (i : Z) : BucketMetadata :=
  {| bk_PartitionID := i; bk_RecordCount := 0; bk_ByteCount := 0; bk_SHA256 := emptyDigest |}.

Definition example_output (map : N) : MapOutput :=
  {| mo_Version := 1; mo_Attempt := example_identity map map; mo_NumMapPartitions := 2;
     mo_NumReducePartitions := 2; mo_Buckets := [empty_bucket 0; empty_bucket 1] |}.

Definition example_snapshot : InputSnapshot :=
  {| is_RunID := example_run; is_JobID := 0%N; is_ShuffleID := 0%N; is_StageID := 0%N;
     is_StageAttemptID := 0%N; is_NumMapPartitions := 2; is_NumReducePartitions := 2;
     is_Outputs := [example_output 0; example_output 1] |}.

Lemma validateSnapshot_correct_witness :
  snapshot_ok example_snapshot /\
  NoDup ((fun o => attemptPath (mo_Attempt o)) <$> is_Outputs example_snapshot).
Proof.
  split.
  - apply (proj1 (proj1 (validateSnapshot_correct example_snapshot))). reflexivity.
  - apply (proj2 (validateSnapshot_correct example_snapshot)). reflexivity.
Defined.
