(* ===== verification/Reports.v ===== *)
(** * Reports: task execution identities, outputs and failures

    Models [scheduler/{task,task_output,failure}.go] and [TaskOutput] of
    [scheduler/event.go]: what a worker is assigned, what it reports, and the
    checks made before a report is accepted. *)

From S2P Require Import Prelude Bytes Plan Stages Shuffle.
#[local] Open Scope Z_scope.

(** ** Dynamic values *)

(** The dynamic types that travel in Go's [any] in this program. *)
Inductive any :=
  | ANil
  | ABool (b : bool)
  | AString (s : string)
  | AInt (z : Z)
  | AInt64 (z : Z)
  | ANumber (s : string)                     (* json.Number *)
  | AKeyValue (key : string) (value : any)   (* executor.KeyValue *)
  | ARaw (s : string)                        (* json.RawMessage *)
  | AArray (l : list any)                    (* []any *)
  | AMap (l : list (string * any))           (* map[string]any, by key *)
  | AOther (type : string).

(** ** Outputs and executions *)

(** A nil [Records] slice differs from an empty one. *)
Record TaskOutput := mkOutput {
  to_Records : option (list any);
  to_Count : Z;
  to_ShuffleOutput : option MapOutput }.

Record TaskExecution := mkExecution {
  te_RunID : string;
  te_JobID : JobID;
  te_Task : Task;
  te_Attempt : TaskAttemptIdentity;
  te_WorkerID : WorkerID;
  te_ShuffleInputs : option InputSnapshot }.

Inductive FailureKind :=
  | FailureExecution | FailurePermanent | FailureShuffleInput | FailureCanceled
  | FailureWorkerLost | FailureOther (s : string).

#[export] Instance FailureKind_eq_dec : EqDecision FailureKind.
Proof. solve_decision. Defined.

Record TaskAttemptSuccess := mkSuccess {
  ts_JobID : JobID;
  ts_StageID : StageID;
  ts_Attempt : TaskAttemptIdentity;
  ts_PartitionID : PartitionID;
  ts_WorkerID : WorkerID;
  ts_Output : TaskOutput }.

Record TaskAttemptFailure := mkFailure {
  tf_Kind : FailureKind;
  tf_ShuffleInput : option InputReference;
  tf_JobID : JobID;
  tf_StageID : StageID;
  tf_Attempt : TaskAttemptIdentity;
  tf_PartitionID : PartitionID;
  tf_WorkerID : WorkerID;
  tf_Error : string }.

(** ** Execution identity *)

Definition is_upper (b : N) : bool := in_range 65 90 b.

(** [len != 32 || strings.ToLower(id) != id] on a byte string: no ASCII upper
    case letter.  (An identifier with non-ASCII bytes, which [ToLower] may
    change as well, is rejected in any case, here always by the hex check that
    follows.) *)
Definition runIDShape (s : string) : bool :=
  (String.length s =? 32)%nat && negb (existsb is_upper (bytes_of s)).

Definition is_hex (b : N) : bool := is_lower_hex b || in_range 65 70 b.

(** [hex.DecodeString] of an even number of digits stops at the first byte that
    is not one. *)
Definition decodeHex (s : string) : result unit :=
  match List.find (fun b => negb (is_hex b)) (bytes_of s) with
  | Some b => Err (Errorf "invalid run_id: %w"
                     [FWrap (Errorf "encoding/hex: invalid byte: %#U" [FInt (Z.of_N b)])])
  | None => Ok tt
  end.

(** [strings.TrimSpace(s)] is empty. *)
Definition blankString (s : string) : bool := bool_decide (TrimSpace s = "").

Definition validateExecution (e : TaskExecution) : result unit :=
  fail_if (negb (runIDShape (te_RunID e)))
    (Errorf "run_id must contain 32 lowercase hexadecimal characters" []);;
  _ ← decodeHex (te_RunID e);
  fail_if (blankString (te_WorkerID e)) (Errorf "execution requires a worker ID" []);;
  fail_if (negb (ta_TaskID (te_Attempt e) =? t_ID (te_Task e))%N)
    (Errorf "execution attempt and task identities do not match" []);;
  Ok tt.

(** ** Output validation *)

(** The comparison of a map output's identity with the assigned attempt. *)
Definition matchesAssignment (o : MapOutput) (e : TaskExecution) (w : ShuffleWriteSpec) : bool :=
  let a := mo_Attempt o in
  let t := te_Task e in
  bool_decide (ai_RunID a = te_RunID e) && bool_decide (ai_JobID a = te_JobID e) &&
  bool_decide (ai_ShuffleID a = sw_ShuffleID w) && bool_decide (ai_StageID a = t_StageID t) &&
  bool_decide (ai_StageAttemptID a = ta_StageAttemptID (te_Attempt e)) &&
  bool_decide (ai_TaskID a = t_ID t) &&
  bool_decide (ai_TaskAttemptID a = ta_ID (te_Attempt e)) &&
  bool_decide (ai_MapPartitionID a = t_PartitionID t) &&
  bool_decide (mo_NumMapPartitions o = t_NumPartitions t) &&
  bool_decide (mo_NumReducePartitions o = pt_NumPartitions (sw_Partitioner w)).

Definition ValidateFor (o : TaskOutput) (e : TaskExecution) : result unit :=
  let t := te_Task e in
  if bool_decide (t_StageKind t = StageShuffleMap) then
    match t_ShuffleWrite t, t_FinalAction t, to_ShuffleOutput o, to_Records o with
    | Some w, None, Some m, None =>
        fail_if (negb (to_Count o =? 0)) (Errorf "map task requires only shuffle output" []);;
        _ ← validateMapOutput m;
        fail_if (negb (matchesAssignment m e w))
          (Errorf "shuffle output does not match assigned map attempt" []);;
        Ok tt
    | _, _, _, _ => Err (Errorf "map task requires only shuffle output" [])
    end
  else
    match t_FinalAction t, to_ShuffleOutput o with
    | Some a, None =>
        fail_if (negb (bool_decide (t_StageKind t = StageResult)) || (to_Count o <? 0))
          (Errorf "result task requires action output" []);;
        match act_Kind a with
        | ActionCount =>
            match to_Records o with
            | None => Ok tt
            | Some _ => Err (Errorf "Count output must not contain records" [])
            end
        | ActionCollect =>
            match to_Records o with
            | Some _ =>
                fail_if (negb (to_Count o =? 0))
                  (Errorf "Collect output requires a records array and zero count" []);;
                Ok tt
            | None => Err (Errorf "Collect output requires a records array and zero count" [])
            end
        | ActionOther s => Err (Errorf "unsupported result action %q" [FStr s])
        end
    | _, _ => Err (Errorf "result task requires action output" [])
    end.

(** ** Failures *)

Definition ValidateFailure (kind : FailureKind) (input : option InputReference) : result unit :=
  match kind with
  | FailureShuffleInput =>
      match input with
      | None => Err (Errorf "shuffle_input failure requires input identity" [])
      | Some r => validateReference r
      end
  | FailureExecution | FailurePermanent | FailureCanceled =>
      match input with
      | Some _ => Err (Errorf "only shuffle_input failure may contain input identity" [])
      | None => Ok tt
      end
  | FailureWorkerLost => Err (Errorf "unknown failure kind %q" [FStr "worker_lost"])
  | FailureOther s => Err (Errorf "unknown failure kind %q" [FStr s])
  end.

(** [PermanentFailure] on a possibly nil error. *)
Definition PermanentFailure (err : option error) : option error := PermanentError <$> err.

(** [ctx] is the error of the task's context, if it has ended. *)
Definition ClassifyFailure (ctx : option error) (err : error)
    : FailureKind * option InputReference :=
  if bool_decide (is_Some ctx) || errors_Is err context_Canceled ||
     errors_Is err context_DeadlineExceeded
  then (FailureCanceled, None)
  else
    match errors_As_Input err with
    | Some (a, p) => (FailureShuffleInput, Some {| ir_Attempt := a; ir_PartitionID := p |})
    | None =>
        if errors_As_Permanent err || errors_Is err fs_ErrNotExist ||
           errors_Is err fs_ErrPermission || errors_Is err ErrInvalidRecord ||
           errors_Is err ErrRecordTooLarge
        then (FailurePermanent, None)
        else (FailureExecution, None)
    end.

(** ** What the checks mean *)

(** The output a task of this execution may be credited with. *)
Definition output_ok (o : TaskOutput) (e : TaskExecution) : Prop :=
  let t := te_Task e in
  match t_StageKind t with
  | StageShuffleMap =>
      exists w m, t_ShuffleWrite t = Some w /\ t_FinalAction t = None /\
        o = {| to_Records := None; to_Count := 0; to_ShuffleOutput := Some m |} /\
        map_output_ok m /\ matchesAssignment m e w = true
  | StageResult =>
      exists a, t_FinalAction t = Some a /\ to_ShuffleOutput o = None /\
      match act_Kind a with
      | ActionCount => to_Records o = None /\ 0 <= to_Count o
      | ActionCollect => is_Some (to_Records o) /\ to_Count o = 0
      | ActionOther _ => False
      end
  | StageOther _ => False
  end.

Lemma ValidateFor_spec o e : ValidateFor o e = Ok tt <-> output_ok o e.
Proof.
  unfold ValidateFor, output_ok. destruct (t_StageKind (te_Task e)); cbn.
  - rewrite bool_decide_eq_true_2 by done.
    destruct (t_ShuffleWrite (te_Task e)) as [w|], (t_FinalAction (te_Task e)) as [a|],
      o as [[rs|] c [m|]]; cbn; try (split; [done|naive_solver]).
    rewrite fail_if_Ok, bind_unit_Ok, fail_if_Ok, !negb_false_iff, Z.eqb_eq, validateMapOutput_spec.
    naive_solver.
  - rewrite bool_decide_eq_false_2 by done.
    destruct (t_FinalAction (te_Task e)) as [a|], (to_ShuffleOutput o) as [m|] eqn:Em; cbn;
      try (split; [done|naive_solver]).
    rewrite fail_if_Ok, bool_decide_eq_true_2 by done. cbn. rewrite Z.ltb_ge.
    destruct (act_Kind a) eqn:Ek, (to_Records o) as [rs|] eqn:Er;
      rewrite ?fail_if_Ok, ?negb_false_iff, ?Z.eqb_eq;
      split; try (by intros []);
      try (intros [? ?]; exists a; rewrite Ek; naive_solver);
      intros (a' & [= <-] & _ & H); rewrite Ek in H; naive_solver lia.
  - rewrite bool_decide_eq_false_2 by done.
    destruct (t_FinalAction (te_Task e)), (to_ShuffleOutput o); cbn; done.
Qed.

Lemma ValidateFailure_spec k i :
  ValidateFailure k i = Ok tt <->
  (k = FailureShuffleInput /\ exists r, i = Some r /\ identity_ok (ir_Attempt r) /\ 0 <= ir_PartitionID r) \/
  ((k = FailureExecution \/ k = FailurePermanent \/ k = FailureCanceled) /\ i = None).
Proof.
  unfold ValidateFailure. destruct k, i as [r|]; rewrite ?validateReference_spec; naive_solver.
Qed.
