(* ===== verification/Heap.v ===== *)
(** * Heap: pointers, slices and the copies of the program

    Elsewhere in this library a pointer field is an [option] and a slice a [list],
    which is right only while nobody else writes through them.  Here they are
    addresses of a heap: the data of [plan] and [scheduler] as Go lays it out, and
    the copies the program makes where data crosses an ownership boundary
    ([cloneRDDNode], [cloneTask], [TaskOutput.Clone], [InputSnapshot.Clone]).
    [Layout] is what a type has for this: the value of the model that is read from
    the heap, and the addresses it is read through. *)

From S2P Require Import Prelude Plan Stages Shuffle Reports.
#[local] Open Scope Z_scope.

(** ** Memory *)

Notation loc := positive (only parsing).

(** A pointer may be nil; a slice is nil or a window of an array. *)
Definition pointer (A : Type) : Type := option loc.
Record window := mkWindow { wn_array : loc; wn_off : nat; wn_len : nat }.
Definition slice (A : Type) : Type := option window.
#[global] Typeclasses Opaque pointer slice.

Record heapDependency := mkHeapDependency {
  hd_Kind : DependencyKind;
  hd_ParentID : RDDID;
  hd_Narrow : pointer NarrowDependencySpec;
  hd_Shuffle : pointer ShuffleDependencySpec }.

Record heapNode := mkHeapNode {
  hn_ID : RDDID;
  hn_Name : string;
  hn_Operator : OperatorSpec;
  hn_Dependencies : slice heapDependency;
  hn_NumPartitions : Z;
  hn_Partitioner : pointer PartitionerSpec }.

Record heapOperation := mkHeapOperation {
  ho_Kind : StageOperationKind;
  ho_RDD : pointer RDDOperationSpec;
  ho_ShuffleRead : pointer ShuffleReadSpec }.

Record heapTask := mkHeapTask {
  ht_ID : TaskID;
  ht_StageID : StageID;
  ht_StageKind : StageKind;
  ht_PartitionID : PartitionID;
  ht_NumPartitions : Z;
  ht_Operations : slice heapOperation;
  ht_ShuffleWrite : pointer ShuffleWriteSpec;
  ht_FinalAction : pointer ActionSpec }.

Record heapMapOutput := mkHeapMapOutput {
  hm_Version : Z;
  hm_Attempt : AttemptIdentity;
  hm_NumMapPartitions : Z;
  hm_NumReducePartitions : Z;
  hm_Buckets : slice BucketMetadata }.

Record heapSnapshot := mkHeapSnapshot {
  hs_RunID : string;
  hs_JobID : JobID;
  hs_ShuffleID : ShuffleID;
  hs_StageID : StageID;
  hs_StageAttemptID : StageAttemptID;
  hs_NumMapPartitions : Z;
  hs_NumReducePartitions : Z;
  hs_Outputs : slice heapMapOutput }.

Record heapOutput := mkHeapOutput {
  hp_Records : slice any;
  hp_Count : Z;
  hp_ShuffleOutput : pointer heapMapOutput }.

(** ** The addresses in a value *)

Class Linked (H : Type) := refs : H -> gset loc.
#[export] Instance pointer_linked A : Linked (pointer A) := fun p => match p with Some l => {[l]} | None => ∅ end.
#[export] Instance slice_linked A : Linked (slice A) := fun s => match s with Some w => {[wn_array w]} | None => ∅ end.
#[export] Instance list_linked `{Linked H} : Linked (list H) := fun xs => ⋃ (refs <$> xs).
#[export] Instance dependency_linked : Linked heapDependency := fun d => refs (hd_Narrow d) ∪ refs (hd_Shuffle d).
#[export] Instance node_linked : Linked heapNode := fun n => refs (hn_Dependencies n) ∪ refs (hn_Partitioner n).
#[export] Instance operation_linked : Linked heapOperation := fun o => refs (ho_RDD o) ∪ refs (ho_ShuffleRead o).
#[export] Instance task_linked : Linked heapTask :=
  fun t => refs (ht_Operations t) ∪ refs (ht_ShuffleWrite t) ∪ refs (ht_FinalAction t).
#[export] Instance map_output_linked : Linked heapMapOutput := fun m => refs (hm_Buckets m).
#[export] Instance snapshot_linked : Linked heapSnapshot := fun s => refs (hs_Outputs s).
#[export] Instance output_linked : Linked heapOutput := fun o => refs (hp_Records o) ∪ refs (hp_ShuffleOutput o).

(** Data without an address. *)
Class Flat (A : Type) : Prop := flat : True.
#[export] Instance flat_linked `{Flat A} : Linked A := fun _ => ∅.
#[export] Instance partitioner_flat : Flat PartitionerSpec := I.
#[export] Instance narrow_flat : Flat NarrowDependencySpec := I.
#[export] Instance shuffle_flat : Flat ShuffleDependencySpec := I.
#[export] Instance rdd_operation_flat : Flat RDDOperationSpec := I.
#[export] Instance shuffle_read_flat : Flat ShuffleReadSpec := I.
#[export] Instance shuffle_write_flat : Flat ShuffleWriteSpec := I.
#[export] Instance action_flat : Flat ActionSpec := I.
#[export] Instance bucket_flat : Flat BucketMetadata := I.
#[export] Instance any_flat : Flat any := I.

(** What an address holds: a value behind a pointer, or an array. *)
Inductive cell :=
  | CPartitioner (v : PartitionerSpec) | CNarrow (v : NarrowDependencySpec) | CShuffle (v : ShuffleDependencySpec)
  | CDependencies (vs : list heapDependency)
  | CRDDOperation (v : RDDOperationSpec) | CShuffleRead (v : ShuffleReadSpec) | COperations (vs : list heapOperation)
  | CShuffleWrite (v : ShuffleWriteSpec) | CAction (v : ActionSpec)
  | CBuckets (vs : list BucketMetadata) | CMapOutput (v : heapMapOutput) | CMapOutputs (vs : list heapMapOutput)
  | CSnapshot (v : heapSnapshot) | CRecords (vs : list any).

Definition cell_refs (c : cell) : gset loc :=
  match c with
  | CPartitioner v => refs v | CNarrow v => refs v | CShuffle v => refs v
  | CDependencies vs => refs vs
  | CRDDOperation v => refs v | CShuffleRead v => refs v | COperations vs => refs vs
  | CShuffleWrite v => refs v | CAction v => refs v
  | CBuckets vs => refs vs | CMapOutput v => refs v | CMapOutputs vs => refs vs
  | CSnapshot v => refs v | CRecords vs => refs vs
  end.

Notation heap := (gmap positive cell) (only parsing).

(** A computation on the heap; none where Go's types exclude what it meets. *)
Definition heapM (A : Type) : Type := heap -> option (A * heap).
#[export] Instance heapM_ret : MRet heapM := fun A a h => Some (a, h).
#[export] Instance heapM_bind : MBind heapM := fun A B f m h => '(a, h) ← m h; f a h.

(** The types whose values have a cell. *)
Class Stored (A : Type) `{Linked A} := {
  inject : A -> cell;
  project : cell -> option A;
  project_inject a : project (inject a) = Some a;
  inject_project c a : project c = Some a -> c = inject a;
  cell_refs_inject a : cell_refs (inject a) = refs a }.

#[local] Ltac stored con proj := refine {| inject := con; project := proj |};
  [done|by intros []; try done; intros ? [= <-]|done].

#[export] Instance partitioner_stored : Stored PartitionerSpec.
Proof. stored CPartitioner (fun c => match c with CPartitioner v => Some v | _ => None end). Defined.
#[export] Instance narrow_stored : Stored NarrowDependencySpec.
Proof. stored CNarrow (fun c => match c with CNarrow v => Some v | _ => None end). Defined.
#[export] Instance shuffle_stored : Stored ShuffleDependencySpec.
Proof. stored CShuffle (fun c => match c with CShuffle v => Some v | _ => None end). Defined.
#[export] Instance dependencies_stored : Stored (list heapDependency).
Proof. stored CDependencies (fun c => match c with CDependencies v => Some v | _ => None end). Defined.
#[export] Instance rdd_operation_stored : Stored RDDOperationSpec.
Proof. stored CRDDOperation (fun c => match c with CRDDOperation v => Some v | _ => None end). Defined.
#[export] Instance shuffle_read_stored : Stored ShuffleReadSpec.
Proof. stored CShuffleRead (fun c => match c with CShuffleRead v => Some v | _ => None end). Defined.
#[export] Instance operations_stored : Stored (list heapOperation).
Proof. stored COperations (fun c => match c with COperations v => Some v | _ => None end). Defined.
#[export] Instance shuffle_write_stored : Stored ShuffleWriteSpec.
Proof. stored CShuffleWrite (fun c => match c with CShuffleWrite v => Some v | _ => None end). Defined.
#[export] Instance action_stored : Stored ActionSpec.
Proof. stored CAction (fun c => match c with CAction v => Some v | _ => None end). Defined.
#[export] Instance buckets_stored : Stored (list BucketMetadata).
Proof. stored CBuckets (fun c => match c with CBuckets v => Some v | _ => None end). Defined.
#[export] Instance map_output_stored : Stored heapMapOutput.
Proof. stored CMapOutput (fun c => match c with CMapOutput v => Some v | _ => None end). Defined.
#[export] Instance map_outputs_stored : Stored (list heapMapOutput).
Proof. stored CMapOutputs (fun c => match c with CMapOutputs v => Some v | _ => None end). Defined.
#[export] Instance snapshot_stored : Stored heapSnapshot.
Proof. stored CSnapshot (fun c => match c with CSnapshot v => Some v | _ => None end). Defined.
#[export] Instance records_stored : Stored (list any).
Proof. stored CRecords (fun c => match c with CRecords v => Some v | _ => None end). Defined.

(** Reading through an address, and allocating one. *)
Definition load `{Stored A} (h : heap) (l : loc) : option A := h !! l ≫= project.
Definition loadWindow `{Stored (list A)} (h : heap) (w : window) : option (list A) :=
  vs ← load h (wn_array w);
  if bool_decide (wn_off w + wn_len w <= length vs)%nat then Some (take (wn_len w) (drop (wn_off w) vs)) else None.
Definition deref `{Stored A} (l : loc) : heapM A := fun h => v ← load h l; Some (v, h).
Definition elements `{Stored (list A)} (w : window) : heapM (list A) := fun h => vs ← loadWindow h w; Some (vs, h).
Definition new `{Stored A} (v : A) : heapM loc :=
  fun h => let l := fresh (dom h) in Some (l, <[l := inject v]> h).
Definition newArray `{Stored (list A)} (vs : list A) : heapM window :=
  l ← new vs; mret (mkWindow l 0 (length vs)).

(** ** The copies *)

(** [if p != nil { v := *p; ...; clone = &v }], the dots being [f]. *)
Definition clonePointer `{Stored A} (f : A -> heapM A) (p : pointer A) : heapM (pointer A) :=
  match p with
  | None => mret None
  | Some l => v ← deref l; v' ← f v; l' ← new v'; mret (Some l')
  end.

(** A fresh array of the copied elements: nil only for nil ([make]), or for every
    empty slice ([append] to nil). *)
Definition cloneSlice `{Stored (list A)} (f : A -> heapM A) (s : slice A) : heapM (slice A) :=
  match s with
  | None => mret None
  | Some w => vs ← elements w; vs' ← mapM f vs; w' ← newArray vs'; mret (Some w')
  end.
Definition appendNil `{Stored (list A)} (f : A -> heapM A) (s : slice A) : heapM (slice A) :=
  match s with
  | None => mret None
  | Some w =>
      vs ← elements w;
      if bool_decide (vs = []) then mret None else (vs' ← mapM f vs; w' ← newArray vs'; mret (Some w'))
  end.

Definition cloneDependency (dependency : heapDependency) : heapM heapDependency :=
  narrow ← clonePointer mret (hd_Narrow dependency);
  shuffle ← clonePointer mret (hd_Shuffle dependency);
  mret (mkHeapDependency (hd_Kind dependency) (hd_ParentID dependency) narrow shuffle).

Definition cloneRDDNode (node : heapNode) : heapM heapNode :=
  partitioner ← clonePointer mret (hn_Partitioner node);
  dependencies ← cloneSlice cloneDependency (hn_Dependencies node);
  mret (mkHeapNode (hn_ID node) (hn_Name node) (hn_Operator node) dependencies (hn_NumPartitions node) partitioner).

Definition cloneStageOperation (operation : heapOperation) : heapM heapOperation :=
  rdd ← clonePointer mret (ho_RDD operation);
  shuffleRead ← clonePointer mret (ho_ShuffleRead operation);
  mret (mkHeapOperation (ho_Kind operation) rdd shuffleRead).
Definition cloneStageOperations : slice heapOperation -> heapM (slice heapOperation) := cloneSlice cloneStageOperation.
Definition cloneShuffleWrite : pointer ShuffleWriteSpec -> heapM (pointer ShuffleWriteSpec) := clonePointer mret.
Definition cloneAction : pointer ActionSpec -> heapM (pointer ActionSpec) := clonePointer mret.

Definition cloneTask (task : heapTask) : heapM heapTask :=
  operations ← cloneStageOperations (ht_Operations task);
  write ← cloneShuffleWrite (ht_ShuffleWrite task);
  action ← cloneAction (ht_FinalAction task);
  mret (mkHeapTask (ht_ID task) (ht_StageID task) (ht_StageKind task) (ht_PartitionID task) (ht_NumPartitions task)
          operations write action).

(** [Clone] of an output keeps an empty slice; its buckets are appended to an empty
    slice without capacity, which is nil only for nil. *)
Definition cloneBuckets (copy : slice BucketMetadata -> heapM (slice BucketMetadata)) (m : heapMapOutput) : heapM heapMapOutput :=
  buckets ← copy (hm_Buckets m);
  mret (mkHeapMapOutput (hm_Version m) (hm_Attempt m) (hm_NumMapPartitions m) (hm_NumReducePartitions m) buckets).
Definition TaskOutput_Clone (o : heapOutput) : heapM heapOutput :=
  records ← cloneSlice mret (hp_Records o);
  shuffleOutput ← clonePointer (cloneBuckets (cloneSlice mret)) (hp_ShuffleOutput o);
  mret (mkHeapOutput records (hp_Count o) shuffleOutput).

Definition InputSnapshot_Clone (s : heapSnapshot) : heapM heapSnapshot :=
  outputs ← appendNil (cloneBuckets (appendNil mret)) (hs_Outputs s);
  mret (mkHeapSnapshot (hs_RunID s) (hs_JobID s) (hs_ShuffleID s) (hs_StageID s) (hs_StageAttemptID s)
          (hs_NumMapPartitions s) (hs_NumReducePartitions s) outputs).
Definition CloneInput : pointer heapSnapshot -> heapM (pointer heapSnapshot) := clonePointer InputSnapshot_Clone.

