(* ===== verification/Clones.v ===== *)
(** * Clones: a copy reads the same and shares nothing

    [Layout] relates the values of [Heap] to those of the rest of the library, and
    the copies of the program are proved to return the same value at addresses that
    did not exist before. *)

From S2P Require Import Prelude Plan Stages Shuffle Reports Heap.
#[local] Open Scope Z_scope.

(** ** What is read from the heap *)

(** Cells that are kept, with every cell that is reached from them. *)
Definition keeps_cells (P : positive -> Prop) (h h' : heap) : Prop :=
  forall l c, P l -> h !! l = Some c -> h' !! l = Some c /\ forall l', l' ∈ cell_refs c -> P l'.

Class Layout (H A : Type) `{Linked H} := {
  view : heap -> H -> option A;
  view_kept P h h' x a : (forall l, l ∈ refs x -> P l) -> keeps_cells P h h' -> view h x = Some a -> view h' x = Some a }.

#[export] Instance flat_layout `{Flat A} : Layout A A.
Proof. by refine {| view _ a := Some a |}. Defined.

Definition viewPointer `{Stored H, !Layout H A} (h : heap) (p : pointer H) : option (option A) :=
  match p with
  | None => Some None
  | Some l => x ← load h l; a ← view h x; Some (Some a)
  end.
Definition viewSlice `{Linked H, !Stored (list H), !Layout H A} (h : heap) (s : slice H) : option (option (list A)) :=
  match s with
  | None => Some None
  | Some w => xs ← loadWindow h w; l ← mapM (view h) xs; Some (Some l)
  end.

Lemma load_Some `{Stored H} h l (x : H) : load h l = Some x <-> h !! l = Some (inject x).
Proof.
  unfold load. rewrite bind_Some. split.
  - intros (c & Hc & Hp). by apply inject_project in Hp as ->.
  - intros Hl. eexists. split; [done|]. apply project_inject.
Qed.

Lemma loadWindow_Some `{Linked H, !Stored (list H)} h w (xs : list H) : loadWindow h w = Some xs ->
  exists vs, h !! wn_array w = Some (inject vs) /\ xs = take (wn_len w) (drop (wn_off w) vs) /\
    (wn_off w + wn_len w <= length vs)%nat.
Proof.
  unfold loadWindow. rewrite bind_Some. intros (vs & Hl%load_Some & Hx). case_bool_decide; [|done]. injection Hx as <-. eauto.
Qed.

Lemma elem_of_refs `{Linked H} (xs : list H) l : l ∈ refs xs <-> exists x, x ∈ xs /\ l ∈ refs x.
Proof.
  unfold refs, list_linked. rewrite elem_of_union_list. setoid_rewrite list_elem_of_fmap. naive_solver.
Qed.

Lemma refs_pointer {A} l l' : l' ∈ refs (Some l : pointer A) <-> l' = l.
Proof. change (l' ∈ ({[l]} : gset positive) <-> l' = l). apply elem_of_singleton. Qed.

Lemma refs_slice {A} w l' : l' ∈ refs (Some w : slice A) <-> l' = wn_array w.
Proof. change (l' ∈ ({[wn_array w]} : gset positive) <-> l' = wn_array w). apply elem_of_singleton. Qed.

#[export] Instance pointer_layout `{Stored H, !Layout H A} : Layout (pointer H) (option A).
Proof.
  refine {| view := viewPointer |}. intros P h h' [l|] a Hrefs Hkeep; [|done]. cbn. rewrite bind_Some.
  intros (x & Hx%load_Some & Hv). apply bind_Some in Hv as (v & Hv & [= <-]).
  destruct (Hkeep l (inject x)) as [Hl Hnext]; [by apply Hrefs, refs_pointer|done|]. rewrite cell_refs_inject in Hnext.
  rewrite (proj2 (load_Some h' l x) Hl). cbn. by rewrite (view_kept P h h' x v).
Defined.

Lemma views_kept `{Layout H A} P h h' (xs : list H) (l : list A) :
  (forall l', l' ∈ refs xs -> P l') -> keeps_cells P h h' -> mapM (view h) xs = Some l -> mapM (view h') xs = Some l.
Proof.
  intros Hrefs Hkeep. rewrite !mapM_Some. intros Hall. apply Forall2_same_length_lookup.
  apply Forall2_same_length_lookup in Hall as [Hlen Hall]. split; [done|]. intros i x a Hx Ha.
  apply (view_kept P h); [|done|by eapply Hall]. intros l' Hl'. apply Hrefs, elem_of_refs. exists x.
  split; [by eapply list_elem_of_lookup_2|done].
Qed.

#[export] Instance slice_layout `{Linked H, !Stored (list H), !Layout H A} : Layout (slice H) (option (list A)).
Proof.
  refine {| view := viewSlice |}. intros P h h' [w|] a Hrefs Hkeep; [|done]. cbn. rewrite bind_Some.
  intros (xs & Hw & Hv). apply bind_Some in Hv as (v & Hv & [= <-]).
  destruct (loadWindow_Some _ _ _ Hw) as (vs & Hl & -> & Hlen).
  destruct (Hkeep _ _ (Hrefs (wn_array w) ltac:(by apply refs_slice)) Hl) as [Hl' Hnext]. rewrite cell_refs_inject in Hnext.
  unfold loadWindow. rewrite (proj2 (load_Some h' (wn_array w) vs) Hl'). cbn. rewrite bool_decide_eq_true_2 by done. cbn.
  rewrite (views_kept P h h' _ v); [done| |done|done]. intros l' (x & Hx & Hlx)%elem_of_refs. apply Hnext, elem_of_refs.
  exists x. split; [|done]. by eapply subseteq_drop, subseteq_take.
Defined.

(** A slice whose model has no nil. *)
Definition viewList `{Linked H, !Stored (list H), !Layout H A} (h : heap) (s : slice H) : option (list A) :=
  default [] <$> view h s.

Lemma viewList_kept `{Linked H, !Stored (list H), !Layout H A} P h h' (s : slice H) l :
  (forall l, l ∈ refs s -> P l) -> keeps_cells P h h' -> viewList h s = Some l -> viewList h' s = Some l.
Proof.
  unfold viewList. intros Hrefs Hkeep. rewrite !fmap_Some. intros (o & Ho & ->). exists o. split; [|done].
  by apply (view_kept P h h').
Qed.

Lemma kept_bind {A B} (m m' : option A) (k k' : A -> option B) b :
  (forall v, m = Some v -> m' = Some v) -> (forall v, k v = Some b -> k' v = Some b) -> m ≫= k = Some b -> m' ≫= k' = Some b.
Proof. intros Hm Hk (v & Hv & Hb)%bind_Some. rewrite (Hm v Hv). by apply Hk. Qed.

(** The fields of a record are kept, one after the other. *)
#[local] Ltac kept linked :=
  let P := fresh "P" in let h := fresh "h" in let h' := fresh "h'" in let x := fresh "x" in let Hrefs := fresh "Hrefs" in
  intros P h h' x ? Hrefs ?; change (refs x) with (linked x) in Hrefs; unfold linked in Hrefs;
  repeat (apply kept_bind;
    [intros ?; first [apply (viewList_kept P h h') | apply (view_kept P h h')];
     [intros; apply Hrefs; rewrite ?elem_of_union; tauto|done]|intros ?]);
  done.

#[export] Instance dependency_layout : Layout heapDependency Dependency.
Proof.
  refine {| view h d :=
    narrow ← view h (hd_Narrow d); shuffle ← view h (hd_Shuffle d);
    Some (mkDependency (hd_Kind d) (hd_ParentID d) narrow shuffle) |}.
  kept dependency_linked.
Defined.

#[export] Instance node_layout : Layout heapNode RDDNode.
Proof.
  refine {| view h n :=
    dependencies ← viewList h (hn_Dependencies n); partitioner ← view h (hn_Partitioner n);
    Some (mkRDDNode (hn_ID n) (hn_Name n) (hn_Operator n) dependencies (hn_NumPartitions n) partitioner) |}.
  kept node_linked.
Defined.

#[export] Instance operation_layout : Layout heapOperation StageOperation.
Proof.
  refine {| view h o :=
    rdd ← view h (ho_RDD o); shuffleRead ← view h (ho_ShuffleRead o);
    Some (mkStageOperation (ho_Kind o) rdd shuffleRead) |}.
  kept operation_linked.
Defined.

#[export] Instance task_layout : Layout heapTask Task.
Proof.
  refine {| view h t :=
    operations ← viewList h (ht_Operations t); write ← view h (ht_ShuffleWrite t); action ← view h (ht_FinalAction t);
    Some (mkTask (ht_ID t) (ht_StageID t) (ht_StageKind t) (ht_PartitionID t) (ht_NumPartitions t) operations write action) |}.
  kept task_linked.
Defined.

#[export] Instance map_output_layout : Layout heapMapOutput MapOutput.
Proof.
  refine {| view h m :=
    buckets ← viewList h (hm_Buckets m);
    Some (mkMapOutput (hm_Version m) (hm_Attempt m) (hm_NumMapPartitions m) (hm_NumReducePartitions m) buckets) |}.
  kept map_output_linked.
Defined.

#[export] Instance snapshot_layout : Layout heapSnapshot InputSnapshot.
Proof.
  refine {| view h s :=
    outputs ← viewList h (hs_Outputs s);
    Some (mkSnapshot (hs_RunID s) (hs_JobID s) (hs_ShuffleID s) (hs_StageID s) (hs_StageAttemptID s)
            (hs_NumMapPartitions s) (hs_NumReducePartitions s) outputs) |}.
  kept snapshot_linked.
Defined.

#[export] Instance output_layout : Layout heapOutput TaskOutput.
Proof.
  refine {| view h o :=
    records ← view h (hp_Records o); shuffleOutput ← view h (hp_ShuffleOutput o);
    Some (mkOutput records (hp_Count o) shuffleOutput) |}.
  kept output_linked.
Defined.

(** ** What a copy does *)

(** The heap grew from [h0] by cells that point only to new ones. *)
Definition created (h0 h : heap) (l : positive) : Prop := h0 !! l = None /\ is_Some (h !! l).
Definition grown (h0 h : heap) : Prop :=
  h0 ⊆ h /\ forall l c, h !! l = Some c -> h0 !! l = None -> forall l', l' ∈ cell_refs c -> created h0 h l'.

(** A computation that writes only where it allocates, with what then holds. *)
Definition makes {B} (h0 h : heap) (m : heapM B) (Q : B -> heap -> Prop) : Prop :=
  exists b h', m h = Some (b, h') /\ grown h0 h' /\ h ⊆ h' /\ Q b h'.

(** Every address in a value is new. *)
Definition detached `{Linked H} (h0 h : heap) (x : H) : Prop := forall l, l ∈ refs x -> created h0 h l.

(** A copy: the same value, at new addresses. *)
Definition copies `{Layout H A} (clone : H -> heapM H) : Prop :=
  forall h0 h (x : H) (a : A), grown h0 h -> view h x = Some a ->
  makes h0 h (clone x) (fun x' h' => view h' x' = Some a /\ detached h0 h' x').

Lemma grown_refl h : grown h h.
Proof. split; [done|]. congruence. Qed.

Lemma created_mono h0 h h' l : h ⊆ h' -> created h0 h l -> created h0 h' l.
Proof. intros Hsub [Hn [c Hc]]. split; [done|]. exists c. by eapply lookup_weaken. Qed.

Lemma view_mono `{Layout H A} h h' (x : H) (a : A) : h ⊆ h' -> view h x = Some a -> view h' x = Some a.
Proof. intros Hsub. apply (view_kept (fun _ => True)); [done|]. intros l c _ Hl. split; [by eapply lookup_weaken|done]. Qed.

Lemma new_grown `{Stored A} h0 h (v : A) : grown h0 h -> detached h0 h v ->
  exists l h', new v h = Some (l, h') /\ grown h0 h' /\ h ⊆ h' /\ created h0 h' l /\ h' !! l = Some (inject v).
Proof.
  intros [Hsub Hnew] Hrefs. set (l := fresh (dom h)). assert (Hl : h !! l = None) by apply not_elem_of_dom, is_fresh.
  assert (Hgrow : h ⊆ <[l := inject v]> h) by by apply insert_subseteq.
  exists l, (<[l := inject v]> h). assert (Hat : <[l := inject v]> h !! l = Some (inject v)) by apply lookup_insert_eq.
  split; [done|]. split; [|split; [done|split; [|done]]].
  - split; [by etrans|]. intros k c Hk Hk0 l' Hl'. apply (created_mono h0 h); [done|].
    destruct (decide (k = l)) as [->|Hne].
    + rewrite Hat in Hk. injection Hk as <-. rewrite cell_refs_inject in Hl'. by apply Hrefs.
    + rewrite lookup_insert_ne in Hk by done. by apply (Hnew k c).
  - split; [|eauto]. destruct (h0 !! l) eqn:E; [|done]. by rewrite (lookup_weaken _ _ _ _ E Hsub) in Hl.
Qed.

Lemma mret_copies `{Flat A} : copies (mret : A -> heapM A).
Proof.
  intros h0 h x a Hg Hv. exists x, h. split; [done|]. split; [done|]. split; [done|]. split; [done|].
  intros l Hl. by apply not_elem_of_empty in Hl.
Qed.

Lemma makes_bind {B C} h0 h (m : heapM B) (f : B -> heapM C) Q R :
  makes h0 h m Q -> (forall b h', grown h0 h' -> h ⊆ h' -> Q b h' -> makes h0 h' (f b) R) -> makes h0 h (m ≫= f) R.
Proof.
  intros (b & h1 & Hm & Hg & Hsub & Hq) Hf. destruct (Hf b h1 Hg Hsub Hq) as (c & h2 & Hc & Hg2 & Hsub2 & Hr).
  exists c, h2. split; [change (('(a, hh) ← m h; f a hh) = Some (c, h2)); by rewrite Hm|]. split; [done|]. split; [by etrans|done].
Qed.

Lemma makes_ret {B} h0 h (b : B) (Q : B -> heap -> Prop) : grown h0 h -> Q b h -> makes h0 h (mret b) Q.
Proof. intros Hg Hq. by exists b, h. Qed.

Lemma makes_new `{Stored A} h0 h (v : A) : grown h0 h -> detached h0 h v ->
  makes h0 h (new v) (fun l h' => created h0 h' l /\ h' !! l = Some (inject v)).
Proof.
  intros Hg Hr. destruct (new_grown h0 h v Hg Hr) as (l & h' & Hn & Hg' & Hsub & Hl). by exists l, h'.
Qed.

Lemma clonePointer_copies `{Stored H, !Layout H A} (f : H -> heapM H) : copies f -> copies (clonePointer f).
Proof.
  intros Hf h0 h [l|] a Hg Hv; [|by apply makes_ret; [|split; [|intros l Hl; by apply not_elem_of_empty in Hl]]].
  cbn in Hv. apply bind_Some in Hv as (x & Hl & Hv). apply bind_Some in Hv as (v & Hx & [= <-]).
  apply (makes_bind h0 h _ _ (fun y h1 => y = x /\ h1 = h)); [exists x, h; split; [unfold deref; by rewrite Hl|done]|].
  intros y h1 _ _ [-> ->]. apply (makes_bind h0 h _ _ _ _ (Hf h0 h x v Hg Hx)). intros x' h1 Hg1 _ [Hx' Hrefs].
  apply (makes_bind h0 h1 _ _ _ _ (makes_new h0 h1 x' Hg1 Hrefs)). intros l' h2 Hg2 Hsub [Hl' Hat].
  apply makes_ret; [done|]. split; [|by intros k ->%refs_pointer].
  cbn. rewrite (proj2 (load_Some h2 l' x') Hat). cbn. by rewrite (view_mono h1 h2 x' v).
Qed.

Lemma mapM_copies `{Layout H A} (f : H -> heapM H) : copies f -> forall xs h0 h (l : list A), grown h0 h -> mapM (view h) xs = Some l ->
  makes h0 h (mapM f xs) (fun xs' h' => mapM (view h') xs' = Some l /\ detached h0 h' xs').
Proof.
  intros Hf. induction xs as [|x xs IH]; intros h0 h l Hg Hl.
  - apply makes_ret; [done|]. split; [done|]. intros k (y & Hy & _)%elem_of_refs. by apply not_elem_of_nil in Hy.
  - cbn in Hl. apply bind_Some in Hl as (a & Ha & Hl). apply bind_Some in Hl as (l' & Hl & [= <-]).
    cbn [mapM]. apply (makes_bind h0 h _ _ _ _ (Hf h0 h x a Hg Ha)). intros x' h1 Hg1 Hsub1 [Hx' Hr'].
    assert (Hxs : mapM (view h1) xs = Some l').
    { apply (views_kept (fun _ => True) h); [done| |done]. intros k c _ Hk. split; [by eapply lookup_weaken|done]. }
    apply (makes_bind h0 h1 _ _ _ _ (IH h0 h1 l' Hg1 Hxs)). intros xs' h2 Hg2 Hsub2 [Hxs' Hrs].
    apply makes_ret; [done|]. split.
    + cbn. rewrite (view_mono h1 h2 x' a Hsub2 Hx'). cbn. by rewrite Hxs'.
    + intros k (y & [->|Hy]%elem_of_cons & Hk)%elem_of_refs.
      * apply (created_mono h0 h1); [done|]. by apply Hr'.
      * apply Hrs, elem_of_refs. eauto.
Qed.

(** The elements of a window are read, copied and put in an array of their own. *)
Lemma elements_makes `{Linked H, !Stored (list H), !Layout H A} h0 h w (xs : list H) : grown h0 h -> loadWindow h w = Some xs ->
  makes h0 h (elements w) (fun ys h1 => ys = xs /\ h1 = h).
Proof. intros Hg Hl. exists xs, h. split; [unfold elements; by rewrite Hl|done]. Qed.

Lemma newArray_makes `{Linked H, !Stored (list H), !Layout H A} h0 h (xs : list H) (l : list A) :
  grown h0 h -> mapM (view h) xs = Some l -> detached h0 h xs ->
  makes h0 h (w ← newArray xs; mret (Some w)) (fun (s : slice H) h' => view h' s = Some (Some l) /\ detached h0 h' s).
Proof.
  intros Hg Hl Hr. apply (makes_bind h0 h _ _ (fun w h1 => created h0 h1 (wn_array w) /\ h1 !! wn_array w = Some (inject xs) /\
    wn_off w = O /\ wn_len w = length xs)).
  - unfold newArray. apply (makes_bind h0 h _ _ _ _ (makes_new h0 h xs Hg Hr)). intros k h1 Hg1 _ [Hk Hat]. by apply makes_ret.
  - intros w h1 Hg1 Hsub (Hw & Hat & Hoff & Hlen). apply makes_ret; [done|]. split; [|by intros k ->%refs_slice].
    cbn. unfold loadWindow. rewrite (proj2 (load_Some h1 (wn_array w) xs) Hat). cbn. rewrite Hoff, Hlen, bool_decide_eq_true_2 by lia.
    cbn. rewrite drop_0, firstn_all. rewrite (views_kept (fun _ => True) h h1 xs l); [done|done| |done].
    intros k c _ Hk. split; [by eapply lookup_weaken|done].
Qed.

Lemma nil_copies `{Linked H, !Stored (list H), !Layout H A} h0 h : grown h0 h ->
  makes h0 h (mret (None : slice H)) (fun s h' => view h' s = Some (None : option (list A)) /\ detached h0 h' s).
Proof. intros Hg. apply makes_ret; [done|]. split; [done|]. intros k Hk. by apply not_elem_of_empty in Hk. Qed.

Lemma cloneSlice_copies `{Linked H, !Stored (list H), !Layout H A} (f : H -> heapM H) : copies f -> copies (cloneSlice f).
Proof.
  intros Hf h0 h [w|] a Hg Hv; [|cbn in Hv; injection Hv as <-; by apply nil_copies].
  cbn in Hv. apply bind_Some in Hv as (xs & Hl & Hv). apply bind_Some in Hv as (v & Hx & [= <-]).
  apply (makes_bind h0 h _ _ _ _ (elements_makes h0 h w xs Hg Hl)). intros y h1 _ _ [-> ->].
  apply (makes_bind h0 h _ _ _ _ (mapM_copies f Hf xs h0 h v Hg Hx)). intros xs' h1 Hg1 _ [Hx' Hr].
  by apply newArray_makes.
Qed.

(** What [append] to nil does, in a model without nil. *)
Definition copies_list `{Linked H, !Stored (list H), !Layout H A} (clone : slice H -> heapM (slice H)) : Prop :=
  forall h0 h (s : slice H) (l : list A), grown h0 h -> viewList h s = Some l ->
  makes h0 h (clone s) (fun s' h' => viewList h' s' = Some l /\ detached h0 h' s').

Lemma makes_weaken {B} h0 h (m : heapM B) (Q R : B -> heap -> Prop) : makes h0 h m Q -> (forall b h', Q b h' -> R b h') -> makes h0 h m R.
Proof. intros (b & h' & Hm & Hg & Hsub & Hq) HR. exists b, h'. eauto 6. Qed.

Lemma cloneSlice_list `{Linked H, !Stored (list H), !Layout H A} (f : H -> heapM H) : copies f -> copies_list (cloneSlice f).
Proof.
  intros Hf h0 h s l Hg (o & Ho & ->)%fmap_Some. eapply makes_weaken; [by apply (cloneSlice_copies f Hf)|].
  intros s' h' [Hv Hr]. split; [|done]. unfold viewList. by rewrite Hv.
Qed.

Lemma appendNil_list `{Linked H, !Stored (list H), !Layout H A} (f : H -> heapM H) : copies f -> copies_list (appendNil f).
Proof.
  intros Hf h0 h [w|] l Hg (o & Ho & ->)%fmap_Some;
    [|eapply makes_weaken; [by apply nil_copies|]; intros s' h' [Hv Hr]; split; [unfold viewList; rewrite Hv; by injection Ho as <-|done]].
  cbn in Ho. apply bind_Some in Ho as (xs & Hl & Hv). apply bind_Some in Hv as (v & Hx & [= <-]).
  apply (makes_bind h0 h _ _ _ _ (elements_makes h0 h w xs Hg Hl)). intros y h1 _ _ [-> ->]. case_bool_decide as Hnil.
  - subst xs. injection Hx as <-. eapply makes_weaken; [by apply nil_copies|]. intros s' h' [Hs Hr].
    split; [unfold viewList; by rewrite Hs|done].
  - apply (makes_bind h0 h _ _ _ _ (mapM_copies f Hf xs h0 h v Hg Hx)). intros xs' h1 Hg1 _ [Hx' Hr].
    eapply makes_weaken; [by apply newArray_makes|]. intros s' h' [Hs Hk]. split; [unfold viewList; by rewrite Hs|done].
Qed.

(** ** The copies of the program *)


Lemma viewList_mono `{Linked H, !Stored (list H), !Layout H A} h h' (s : slice H) l : h ⊆ h' -> viewList h s = Some l -> viewList h' s = Some l.
Proof.
  intros Hsub. apply (viewList_kept (fun _ => True)); [done|]. intros k c _ Hk. split; [by eapply lookup_weaken|done].
Qed.

Lemma refs_mono `{Linked H} h0 h h' (x : H) : h ⊆ h' -> detached h0 h x -> detached h0 h' x.
Proof. intros Hsub Hr l Hl. by apply (created_mono h0 h), Hr. Qed.

(** The fields of a record are copied one after the other; [onward] carries what is
    known of the others to the heap after each. *)
#[local] Ltac fields Hv := cbn [view dependency_layout node_layout operation_layout task_layout map_output_layout snapshot_layout output_layout] in Hv;
  repeat (apply bind_Some in Hv as (? & ? & Hv)); injection Hv as <-.
#[local] Ltac onward Hsub := match type of Hsub with ?h ⊆ ?h' =>
    repeat match goal with
    | H : @view _ _ _ _ h _ = Some _ |- _ => apply (view_mono h h' _ _ Hsub) in H
    | H : @viewList _ _ _ _ _ h _ = Some _ |- _ => apply (viewList_mono h h' _ _ Hsub) in H
    | H : @detached _ _ _ h ?x |- _ => apply (refs_mono _ h h' x Hsub) in H
    end; clear Hsub end.
#[local] Tactic Notation "copy_field" uconstr(Hcopy) := eapply makes_bind; [eapply Hcopy; eassumption|];
  let Hsub := fresh "Hsub" in intros ? ? ? Hsub [? ?]; onward Hsub.
#[local] Ltac copied layout linked := apply makes_ret; [done|]; split;
  [cbn [view layout];
   repeat (apply bind_Some; eexists; split; [eassumption|]); done
  |let k := fresh "k" in let Hk := fresh "Hk" in intros k Hk;
   match type of Hk with k ∈ @refs _ _ ?x => change (refs x) with (linked x) in Hk end;
   unfold linked in Hk; rewrite ?elem_of_union in Hk; destruct_or? Hk;
   match goal with H : @detached _ _ _ _ _ |- _ => solve [apply H; exact Hk] end].

Lemma cloneDependency_copies : copies cloneDependency.
Proof.
  intros h0 h d a Hg Hv. fields Hv.
  do 2 copy_field (clonePointer_copies mret mret_copies). copied dependency_layout dependency_linked.
Qed.

Lemma cloneRDDNode_copies : copies cloneRDDNode.
Proof.
  intros h0 h n a Hg Hv. fields Hv. copy_field (clonePointer_copies mret mret_copies).
  copy_field (cloneSlice_list cloneDependency cloneDependency_copies). copied node_layout node_linked.
Qed.

Lemma cloneStageOperation_copies : copies cloneStageOperation.
Proof.
  intros h0 h o a Hg Hv. fields Hv.
  do 2 copy_field (clonePointer_copies mret mret_copies). copied operation_layout operation_linked.
Qed.

Lemma cloneTask_copies : copies cloneTask.
Proof.
  intros h0 h t a Hg Hv. fields Hv. unfold cloneTask.
  copy_field (cloneSlice_list cloneStageOperation cloneStageOperation_copies).
  do 2 copy_field (clonePointer_copies mret mret_copies). copied task_layout task_linked.
Qed.

Lemma cloneBuckets_copies copy : copies_list copy -> copies (cloneBuckets copy).
Proof.
  intros Hcopy h0 h m a Hg Hv. fields Hv. copy_field Hcopy. copied map_output_layout map_output_linked.
Qed.

Lemma TaskOutput_Clone_copies : copies TaskOutput_Clone.
Proof.
  intros h0 h o a Hg Hv. fields Hv. copy_field (cloneSlice_copies mret mret_copies).
  copy_field (clonePointer_copies _ (cloneBuckets_copies _ (cloneSlice_list mret mret_copies))).
  copied output_layout output_linked.
Qed.

Lemma InputSnapshot_Clone_copies : copies InputSnapshot_Clone.
Proof.
  intros h0 h s a Hg Hv. fields Hv.
  copy_field (appendNil_list _ (cloneBuckets_copies _ (appendNil_list mret mret_copies))).
  copied snapshot_layout snapshot_linked.
Qed.

Lemma CloneInput_copies : copies CloneInput.
Proof. apply clonePointer_copies, InputSnapshot_Clone_copies. Qed.

(** A copy and its original are independent: whatever is written to the old cells,
    the copy reads the same, and whatever is written to the new ones, the original. *)
Lemma copies_isolated `{Layout H A} (clone : H -> heapM H) h x a : copies clone -> view h x = Some a ->
  exists x' h', clone x h = Some (x', h') /\ h ⊆ h' /\
    (forall h2, (forall l c, h' !! l = Some c -> h !! l = None -> h2 !! l = Some c) -> view h2 x' = Some a) /\
    (forall h2, (forall l c, h !! l = Some c -> h2 !! l = Some c) -> view h2 x = Some a).
Proof.
  intros Hf Hv. destruct (Hf h h x a (grown_refl h) Hv) as (x' & h' & Hc & [_ Hnew] & Hsub & Hv' & Hd).
  exists x', h'. split; [done|]. split; [done|]. split.
  - intros h2 Hkeep. apply (view_kept (created h h') h'); [done| |done]. intros l c [Hl _] Hc'. split; [by apply Hkeep|].
    by apply (Hnew l c).
  - intros h2 Hkeep. apply (view_mono h); [|done]. by apply map_subseteq_spec.
Qed.

(** The copies that cross between the driver, the schedulers and the executors: the
    task of a submission and of an assignment, a reported output, the inputs. *)
Theorem program_copies :
  copies cloneTask /\ copies TaskOutput_Clone /\ copies InputSnapshot_Clone /\ copies CloneInput /\
  (forall (t : heapTask) (a : Task) h, view h t = Some a ->
     exists t' h', cloneTask t h = Some (t', h') /\ h ⊆ h' /\
       (forall h2, (forall l c, h' !! l = Some c -> h !! l = None -> h2 !! l = Some c) -> view h2 t' = Some a) /\
       (forall h2, (forall l c, h !! l = Some c -> h2 !! l = Some c) -> view h2 t = Some a)).
Proof.
  split_and!; [apply cloneTask_copies|apply TaskOutput_Clone_copies|apply InputSnapshot_Clone_copies|apply CloneInput_copies|].
  intros t a h. apply copies_isolated, cloneTask_copies.
Qed.
