(* ===== verification/SharedGraph.v ===== *)
(** * SharedGraph: the lineage graph on a shared heap

    [RDDGraph] and a driver use one heap: the driver passes nodes whose pointers and
    slices it keeps, and receives some.  [driver_step] lets it allocate, follow any
    address it knows and write whatever it likes there, between its calls; the
    graph is proved to be that of [Plan], on values. *)

From S2P Require Import Prelude Plan Heap Clones.
#[local] Open Scope Z_scope.

(** ** The graph *)

Record heapGraph := mkHeapGraph {
  hg_nextRDDID : RDDID;
  hg_nextShuffleID : ShuffleID;
  hg_nodes : gmap RDDID heapNode }.

Definition NewHeapGraph : heapGraph := mkHeapGraph 0%N 0%N ∅.

Definition heapNewShuffleID (g : heapGraph) : ShuffleID * heapGraph :=
  (hg_nextShuffleID g, mkHeapGraph (hg_nextRDDID g) (u64 (hg_nextShuffleID g + 1)) (hg_nodes g)).

(** The shape check reads a node and what it points to. *)
Definition checkNodeShape (node : heapNode) : heapM (result unit) :=
  fun h => shape ← view h node; Some (validateNodeShape shape, h).

Definition with_heap_ID (n : heapNode) (id : RDDID) : heapNode :=
  mkHeapNode id (hn_Name n) (hn_Operator n) (hn_Dependencies n) (hn_NumPartitions n) (hn_Partitioner n).

Definition heapAddNode (g : heapGraph) (node : heapNode) : heapM (result RDDID * heapGraph) :=
  err ← checkNodeShape node;
  match err with
  | Err e => mret (Err e, g)
  | Ok _ =>
      let id := hg_nextRDDID g in
      clone ← cloneRDDNode (with_heap_ID node id);
      mret (Ok id, mkHeapGraph (u64 (id + 1)) (hg_nextShuffleID g) (<[id := clone]> (hg_nodes g)))
  end.

Definition heapNodeOf (g : heapGraph) (id : RDDID) : heapM (option heapNode) :=
  match hg_nodes g !! id with
  | None => mret None
  | Some node => clone ← cloneRDDNode node; mret (Some clone)
  end.

Definition heapNodes (g : heapGraph) : heapM (list heapNode) :=
  mapM cloneRDDNode (omap (fun i => hg_nodes g !! N.of_nat i) (seq 0 (N.to_nat (hg_nextRDDID g)))).

Definition heapLen (g : heapGraph) : Z := Z.of_nat (size (hg_nodes g)).

(** ** The driver *)

(** A call of the graph with the values of its arguments and of its results. *)
Inductive graphCall :=
  | CallAddNode (node : RDDNode) (id : result RDDID)
  | CallNode (id : RDDID) (node : option RDDNode)
  | CallNodes (nodes : list RDDNode)
  | CallNewShuffleID (id : ShuffleID)
  | CallLen (len : Z).

(** [dr_known] are the addresses the driver has seen. *)
Record driver := mkDriver {
  dr_heap : heap;
  dr_graph : heapGraph;
  dr_known : gset positive }.

Definition driver0 : driver := mkDriver ∅ NewHeapGraph ∅.

Inductive driver_step : driver -> option graphCall -> driver -> Prop :=
  | drive_alloc h g known l c :
      h !! l = None -> cell_refs c ⊆ known ->
      driver_step (mkDriver h g known) None (mkDriver (<[l := c]> h) g ({[l]} ∪ known))
  | drive_write h g known l c :
      l ∈ known -> cell_refs c ⊆ known ->
      driver_step (mkDriver h g known) None (mkDriver (<[l := c]> h) g known)
  | drive_follow h g known l c :
      l ∈ known -> h !! l = Some c ->
      driver_step (mkDriver h g known) None (mkDriver h g (cell_refs c ∪ known))
  | drive_add h g known node v r g' h' :
      refs node ⊆ known -> view h node = Some v -> heapAddNode g node h = Some ((r, g'), h') ->
      driver_step (mkDriver h g known) (Some (CallAddNode v r)) (mkDriver h' g' known)
  | drive_node_none h g known id h' :
      heapNodeOf g id h = Some (None, h') ->
      driver_step (mkDriver h g known) (Some (CallNode id None)) (mkDriver h' g known)
  | drive_node h g known id node v h' :
      heapNodeOf g id h = Some (Some node, h') -> view h' node = Some v ->
      driver_step (mkDriver h g known) (Some (CallNode id (Some v))) (mkDriver h' g (refs node ∪ known))
  | drive_nodes h g known l vs h' :
      heapNodes g h = Some (l, h') -> mapM (view h') l = Some vs ->
      driver_step (mkDriver h g known) (Some (CallNodes vs)) (mkDriver h' g (refs l ∪ known))
  | drive_shuffle h g known :
      driver_step (mkDriver h g known) (Some (CallNewShuffleID (heapNewShuffleID g).1))
        (mkDriver h (heapNewShuffleID g).2 known)
  | drive_len h g known :
      driver_step (mkDriver h g known) (Some (CallLen (heapLen g))) (mkDriver h g known).

(** The same calls on the graph of values. *)
Inductive graph_step : RDDGraph -> graphCall -> RDDGraph -> Prop :=
  | graph_add g v id g' : AddNode g v = Ok (id, g') -> graph_step g (CallAddNode v (Ok id)) g'
  | graph_add_err g v e : AddNode g v = Err e -> graph_step g (CallAddNode v (Err e)) g
  | graph_node g id : graph_step g (CallNode id (Node g id)) g
  | graph_nodes g : graph_step g (CallNodes (Nodes g)) g
  | graph_shuffle g : graph_step g (CallNewShuffleID (NewShuffleID g).1) (NewShuffleID g).2
  | graph_len g : graph_step g (CallLen (Len g)) g.

Inductive driver_run : driver -> list graphCall -> driver -> Prop :=
  | driver_done d : driver_run d [] d
  | driver_own d d1 d2 calls : driver_step d None d1 -> driver_run d1 calls d2 -> driver_run d calls d2
  | driver_call d d1 d2 c calls : driver_step d (Some c) d1 -> driver_run d1 calls d2 -> driver_run d (c :: calls) d2.

Inductive graph_run : RDDGraph -> list graphCall -> RDDGraph -> Prop :=
  | graph_done g : graph_run g [] g
  | graph_call g g1 g2 c calls : graph_step g c g1 -> graph_run g1 calls g2 -> graph_run g (c :: calls) g2.

(** ** The invariant *)

(** Every node of the graph reads as the node of values. *)
Definition reads_as (h : heap) (g : heapGraph) (p : RDDGraph) : Prop :=
  hg_nextRDDID g = nextRDDID p /\ hg_nextShuffleID g = nextShuffleID p /\
  forall id, option_Forall2 (fun n v => view h n = Some v) (hg_nodes g !! id) (nodes p !! id).

(** The cells [O] belong to the graph: they point only to each other, nothing else
    points to them, and the driver knows none of them. *)
Record owned (d : driver) (O : gset positive) : Prop := mkOwned {
  ow_alloc : O ⊆ dom (dr_heap d);
  ow_known : dr_known d ⊆ dom (dr_heap d) ∖ O;
  ow_in l c : dr_heap d !! l = Some c -> l ∈ O -> cell_refs c ⊆ O;
  ow_out l c : dr_heap d !! l = Some c -> l ∉ O -> cell_refs c ⊆ dom (dr_heap d) ∖ O;
  ow_nodes id n : hg_nodes (dr_graph d) !! id = Some n -> refs n ⊆ O }.

Definition driver_inv (d : driver) (p : RDDGraph) : Prop :=
  reads_as (dr_heap d) (dr_graph d) p /\ exists O, owned d O.

Lemma driver0_inv : driver_inv driver0 NewRDDGraph.
Proof.
  split; [split_and!; [done|done|constructor]|]. exists ∅. split; cbn; set_solver.
Qed.

(** A write outside the cells of the graph leaves it. *)
Lemma reads_as_kept h h' g p O : (forall id n, hg_nodes g !! id = Some n -> refs n ⊆ O) ->
  keeps_cells (fun l => l ∈ O) h h' -> reads_as h g p -> reads_as h' g p.
Proof.
  intros Hn Hk (H1 & H2 & Hv). split_and!; [done|done|]. intros id. specialize (Hv id).
  destruct (hg_nodes g !! id) as [n|] eqn:En; inversion Hv as [? v Hview|]; constructor.
  apply (view_kept (fun l => l ∈ O) h); [|done|done]. intros l Hl. by apply (Hn id n).
Qed.

Lemma reads_as_grown h h' g p : h ⊆ h' -> reads_as h g p -> reads_as h' g p.
Proof.
  intros Hsub (H1 & H2 & Hv). split_and!; [done|done|]. intros id. specialize (Hv id).
  inversion Hv; constructor. by apply (view_mono h).
Qed.

Lemma created_dom h h' l : created h h' l <-> l ∈ dom h' ∖ dom h.
Proof. unfold created. rewrite elem_of_difference, !elem_of_dom, eq_None_not_Some. tauto. Qed.

Lemma detached_dom `{Linked H} h h' (x : H) : detached h h' x <-> refs x ⊆ dom h' ∖ dom h.
Proof. unfold detached. setoid_rewrite created_dom. set_solver. Qed.

Lemma grown_cell h h' l c : grown h h' -> h' !! l = Some c -> h !! l = Some c \/ (l ∉ dom h /\ cell_refs c ⊆ dom h' ∖ dom h).
Proof.
  intros [Hsub Hnew] Hc. destruct (h !! l) as [c0|] eqn:E.
  - left. rewrite (lookup_weaken _ _ _ _ E Hsub) in Hc. congruence.
  - right. split; [by apply not_elem_of_dom|]. intros l' Hl'. apply created_dom. by eapply Hnew.
Qed.

(** New cells that the driver receives. *)
Lemma owned_public h g known h' known' O : grown h h' -> owned (mkDriver h g known) O ->
  known' ⊆ known ∪ (dom h' ∖ dom h) -> owned (mkDriver h' g known') O.
Proof.
  intros Hg [Ha Hk Hin Hout Hn] Hk'. cbn in *. assert (Hd : dom h ⊆ dom h') by apply subseteq_dom, Hg.
  split; cbn; [set_solver|set_solver| | |done]; intros l c Hc Hl.
  - destruct (grown_cell h h' l c Hg Hc) as [Hc'|[Hnew _]]; [by eapply Hin|set_solver].
  - destruct (grown_cell h h' l c Hg Hc) as [Hc'|[_ Hnew]]; [|set_solver]. specialize (Hout l c Hc' Hl). set_solver.
Qed.

(** New cells that the graph keeps. *)
Lemma owned_private h g known h' g' O : grown h h' -> owned (mkDriver h g known) O ->
  (forall id n, hg_nodes g' !! id = Some n -> refs n ⊆ O ∪ (dom h' ∖ dom h)) ->
  owned (mkDriver h' g' known) (O ∪ (dom h' ∖ dom h)).
Proof.
  intros Hg [Ha Hk Hin Hout Hn] Hn'. cbn in *. assert (Hd : dom h ⊆ dom h') by apply subseteq_dom, Hg.
  split; cbn; [set_solver|set_solver| | |done]; intros l c Hc Hl.
  - destruct (grown_cell h h' l c Hg Hc) as [Hc'|[Hnew Hr]]; [|set_solver].
    assert (l ∈ dom h) by by eapply elem_of_dom_2. specialize (Hin l c Hc'). set_solver.
  - destruct (grown_cell h h' l c Hg Hc) as [Hc'|[Hnew Hr]]; [|apply elem_of_dom_2 in Hc; set_solver].
    assert (l ∈ dom h) by by eapply elem_of_dom_2. specialize (Hout l c Hc' ltac:(set_solver)). set_solver.
Qed.

(** ** The calls *)

Lemma view_with_ID h n v id : view h n = Some v -> view h (with_heap_ID n id) = Some (with_node_ID v id).
Proof.
  cbn. intros (ds & Hd & Hv)%bind_Some. apply bind_Some in Hv as (pt & Hp & [= <-]). rewrite Hd. cbn. by rewrite Hp.
Qed.

#[local] Arguments view : simpl never.

(** [AddNode] on the heap: the error of the value, or a node of new cells. *)
Lemma heapAddNode_spec g node h v : view h node = Some v ->
  match validateNodeShape v with
  | Err e => heapAddNode g node h = Some ((Err e, g), h)
  | Ok _ => let id := hg_nextRDDID g in
      exists n h', heapAddNode g node h = Some ((Ok id, mkHeapGraph (u64 (id + 1)) (hg_nextShuffleID g) (<[id := n]> (hg_nodes g))), h') /\
        grown h h' /\ detached h h' n /\ view h' n = Some (with_node_ID v id)
  end.
Proof.
  intros Hv. unfold heapAddNode.
  assert (Hs : checkNodeShape node h = Some (validateNodeShape v, h)) by (unfold checkNodeShape; by rewrite Hv).
  destruct (validateNodeShape v) as [[]|e] eqn:Ev.
  - destruct (cloneRDDNode_copies h h _ _ (grown_refl h) (view_with_ID h node v (hg_nextRDDID g) Hv)) as (n & h' & Hc & Hg & _ & Hn & Hd).
    exists n, h'. split; [|done]. unfold mbind, heapM_bind. rewrite Hs. cbn. unfold mbind, heapM_bind. by rewrite Hc.
  - unfold mbind, heapM_bind. by rewrite Hs.
Qed.

Lemma heapNodeOf_spec g p h id : reads_as h g p ->
  match Node p id with
  | None => heapNodeOf g id h = Some (None, h)
  | Some v => exists n h', heapNodeOf g id h = Some (Some n, h') /\ grown h h' /\ detached h h' n /\ view h' n = Some v
  end.
Proof.
  intros (_ & _ & Hv). specialize (Hv id). unfold Node, heapNodeOf.
  destruct (hg_nodes g !! id) as [n0|]; inversion Hv as [? v Hn|]; [|done].
  destruct (cloneRDDNode_copies h h n0 v (grown_refl h) Hn) as (n & h' & Hc & Hg & _ & Hn' & Hd).
  exists n, h'. split; [|done]. unfold mbind, heapM_bind. by rewrite Hc.
Qed.

Lemma omap_views {K H A} (R : H -> A -> Prop) (f : K -> option H) (f' : K -> option A) (l : list K) :
  (forall k, option_Forall2 R (f k) (f' k)) -> Forall2 R (omap f l) (omap f' l).
Proof. intros Hf. induction l as [|k l IH]; cbn; [done|]. destruct (Hf k); [by constructor|done]. Qed.

Lemma heapNodes_spec g p h : reads_as h g p ->
  exists l h', heapNodes g h = Some (l, h') /\ grown h h' /\ detached h h' l /\ mapM (view h') l = Some (Nodes p).
Proof.
  intros (Hid & _ & Hv). unfold heapNodes, Nodes. rewrite Hid.
  edestruct (mapM_copies cloneRDDNode cloneRDDNode_copies) as (l & h' & Hl & Hg & _ & Hr & Hd); [apply (grown_refl h)| |by exists l, h'].
  apply mapM_Some. apply omap_views. intros k. apply Hv.
Qed.

Lemma heapLen_spec g p h : reads_as h g p -> heapLen g = Len p.
Proof.
  intros (_ & _ & Hv). unfold heapLen, Len. f_equal. rewrite <- !size_dom. f_equal. apply set_eq. intros id.
  rewrite !elem_of_dom. specialize (Hv id). inversion Hv; split; intros [? ?]; done || by eexists.
Qed.

Lemma AddNode_cases p v : AddNode p v =
  match validateNodeShape v with
  | Err e => Err e
  | Ok _ => let id := nextRDDID p in
      Ok (id, mkRDDGraph (u64 (id + 1)) (nextShuffleID p) (<[id := with_node_ID v id]> (nodes p)))
  end.
Proof. unfold AddNode. by destruct (validateNodeShape v). Qed.

(** Writes of the driver never reach the graph. *)
Lemma own_step d d' p : driver_step d None d' -> driver_inv d p -> driver_inv d' p.
Proof.
  intros Hstep. inversion Hstep as [h g known l c Hl Hc|h g known l c Hl Hc|h g known l c Hl Hc| | | | | |]; subst; intros [Hr [O HO]];
    pose proof HO as [Ha Hk Hin Hout Hn]; cbn in *.
  - assert (Hnew : l ∉ dom h) by by apply not_elem_of_dom. split.
    + apply (reads_as_grown h); [by apply insert_subseteq|done].
    + exists O. split; cbn; rewrite ?dom_insert_L; [set_solver|set_solver| | |done]; intros k ck Hck HkO;
        (destruct (decide (k = l)) as [->|Hne];
          [rewrite lookup_insert_eq in Hck; injection Hck as <-; set_solver|rewrite lookup_insert_ne in Hck by done]);
        [by eapply Hin|specialize (Hout k ck Hck HkO); set_solver].
  - assert (HlO : l ∉ O) by set_solver. split.
    + apply (reads_as_kept h _ _ _ O); [done| |done]. intros k ck HkO Hck.
      cbn. rewrite lookup_insert_ne by (by intros ->). split; [done|]. intros k' Hk'. by apply (Hin k ck).
    + exists O. split; cbn; rewrite ?dom_insert_L; [set_solver|set_solver| | |done]; intros k ck Hck HkO;
        (destruct (decide (k = l)) as [->|Hne];
          [rewrite lookup_insert_eq in Hck; injection Hck as <-; set_solver|rewrite lookup_insert_ne in Hck by done]);
        [by eapply Hin|specialize (Hout k ck Hck HkO); set_solver].
  - split; [done|]. exists O. split; cbn; [done| |done|done|done]. specialize (Hout l c Hc ltac:(set_solver)). set_solver.
Qed.

Lemma add_step h g known p node v r g' h' : view h node = Some v -> heapAddNode g node h = Some ((r, g'), h') ->
  driver_inv (mkDriver h g known) p -> exists p', graph_step p (CallAddNode v r) p' /\ driver_inv (mkDriver h' g' known) p'.
Proof.
  intros Hv Hadd [Hr [O HO]]. pose proof (heapAddNode_spec g node h v Hv) as Hspec. pose proof (AddNode_cases p v) as Hp.
  destruct (validateNodeShape v) as [[]|e].
  - destruct Hspec as (n & h1 & Hadd' & Hg & Hd & Hn). rewrite Hadd in Hadd'. injection Hadd' as -> -> ->.
    destruct Hr as (Hid & Hsh & Hnodes). cbn in *. exists (mkRDDGraph (u64 (nextRDDID p + 1)) (nextShuffleID p)
      (<[nextRDDID p := with_node_ID v (nextRDDID p)]> (nodes p))). rewrite Hid in *. split; [by constructor|]. split.
    + split_and!; [done|done|]. intros id. cbn. destruct (decide (id = nextRDDID p)) as [->|Hne].
      * rewrite !lookup_insert_eq. by constructor.
      * rewrite !lookup_insert_ne by done. specialize (Hnodes id). inversion Hnodes; constructor. apply (view_mono h); [apply Hg|done].
    + exists (O ∪ (dom h1 ∖ dom h)). apply (owned_private h g known); [done|done|]. cbn. intros id m Hm.
      destruct (decide (id = nextRDDID p)) as [->|Hne].
      * rewrite lookup_insert_eq in Hm. injection Hm as <-. apply detached_dom in Hd. set_solver.
      * rewrite lookup_insert_ne in Hm by done. pose proof (ow_nodes _ _ HO id m Hm). cbn in *. set_solver.
  - rewrite Hadd in Hspec. injection Hspec as -> -> ->. exists p. split; [by constructor|]. split; [done|by exists O].
Qed.

Lemma received h g known h' known' p : grown h h' -> known' ⊆ known ∪ (dom h' ∖ dom h) ->
  driver_inv (mkDriver h g known) p -> driver_inv (mkDriver h' g known') p.
Proof.
  intros Hg Hk [Hr [O HO]]. split; [by apply (reads_as_grown h); [apply Hg|]|]. exists O. by apply (owned_public h g known).
Qed.

Lemma call_step d c d' p : driver_step d (Some c) d' -> driver_inv d p -> exists p', graph_step p c p' /\ driver_inv d' p'.
Proof.
  intros Hstep Hinv. inversion Hstep as [| | |h g known node v r g' h' Href Hv Hadd|h g known id h' Hc|h g known id node v h' Hc Hv|
    h g known l vs h' Hc Hv| |]; subst.
  - by eapply add_step.
  - pose proof (heapNodeOf_spec g p h id (proj1 Hinv)) as Hspec. destruct (Node p id) eqn:Ep.
    { destruct Hspec as (n & h1 & Hn & _). congruence. }
    rewrite Hc in Hspec. injection Hspec as ->. exists p. split; [rewrite <- Ep; constructor|done].
  - pose proof (heapNodeOf_spec g p h id (proj1 Hinv)) as Hspec. destruct (Node p id) eqn:Ep; [|congruence].
    destruct Hspec as (n & h1 & Hn & Hg & Hd & Hview). rewrite Hc in Hn. injection Hn as -> ->.
    exists p. assert (r = v) as -> by congruence. split; [rewrite <- Ep; constructor|].
    apply (received h g known); [done| |done]. apply detached_dom in Hd. set_solver.
  - destruct (heapNodes_spec g p h (proj1 Hinv)) as (l' & h1 & Hn & Hg & Hd & Hview). rewrite Hc in Hn. injection Hn as -> ->.
    exists p. assert (vs = Nodes p) as -> by congruence. split; [constructor|].
    apply (received h g known); [done| |done]. apply detached_dom in Hd. set_solver.
  - destruct Hinv as [(H1 & H2 & H3) [O HO]]. cbn in *. exists (NewShuffleID p).2. split; [rewrite H2; constructor|].
    split; [split_and!; cbn; [done|congruence|done]|]. exists O. by destruct HO; split.
  - exists p. rewrite (heapLen_spec g p h (proj1 Hinv)). split; [constructor|done].
Qed.

Lemma run_step calls d d' p : driver_run d calls d' -> driver_inv d p -> exists p', graph_run p calls p' /\ driver_inv d' p'.
Proof.
  intros Hrun. revert p. induction Hrun as [d|d d1 d2 calls Hs _ IH|d d1 d2 c calls Hs _ IH]; intros p Hinv.
  - exists p. split; [constructor|done].
  - apply IH. by eapply own_step.
  - destruct (call_step d c d1 p Hs Hinv) as (p1 & Hp & Hinv1). destruct (IH p1 Hinv1) as (p2 & Hp2 & Hinv2).
    exists p2. split; [by econstructor|done].
Qed.

(** C27. Lineage is immutable.  Whatever a driver that shares the heap with its graph
    allocates, follows and overwrites between its calls - in the nodes it passed, in
    those it received, through any address it has seen - every call returns what it
    returns on the graph of values, and every node of the graph still reads as the node
    that was added.  No call meets a value it cannot read: [AddNode] returns for each
    readable node, [Node] for each identifier, and [Nodes] returns. *)
Theorem graph_isolated calls d : driver_run driver0 calls d ->
  exists p, graph_run NewRDDGraph calls p /\ reads_as (dr_heap d) (dr_graph d) p /\
    (forall node v, view (dr_heap d) node = Some v -> is_Some (heapAddNode (dr_graph d) node (dr_heap d))) /\
    (forall id, is_Some (heapNodeOf (dr_graph d) id (dr_heap d))) /\
    is_Some (heapNodes (dr_graph d) (dr_heap d)).
Proof.
  intros Hrun. destruct (run_step calls driver0 d NewRDDGraph Hrun driver0_inv) as (p & Hp & Hr & _).
  exists p. split; [done|]. split; [done|]. split_and!.
  - intros node v Hv. pose proof (heapAddNode_spec (dr_graph d) node (dr_heap d) v Hv) as Hs.
    destruct (validateNodeShape v); [destruct Hs as (n & h' & Hs & _)|]; rewrite Hs; by eexists.
  - intros id. pose proof (heapNodeOf_spec (dr_graph d) p (dr_heap d) id Hr) as Hs.
    destruct (Node p id); [destruct Hs as (n & h' & Hs & _)|]; rewrite Hs; by eexists.
  - destruct (heapNodes_spec (dr_graph d) p (dr_heap d) Hr) as (l & h' & Hl & _). rewrite Hl. by eexists.
Qed.

(** ** An example *)

(** A driver adds a node with a partitioner, overwrites the partitioner it passed
    and the one it receives, and still finds the node it added. *)
Definition shared_node : heapNode :=
  mkHeapNode 0 "words" (mkOperatorSpec OpSource "" "in.txt") None 2 (Some 1%positive).
Definition shared_value : RDDNode :=
  mkRDDNode 0 "words" (mkOperatorSpec OpSource "" "in.txt") [] 2 (Some (HashPartitioner 2)).
Definition shared_calls : list graphCall :=
  [CallAddNode shared_value (Ok 0%N); CallNode 0 (Some shared_value); CallNode 0 (Some shared_value)].

Lemma graph_isolated_witness : exists d, driver_run driver0 shared_calls d /\
  exists p, graph_run NewRDDGraph shared_calls p /\ reads_as (dr_heap d) (dr_graph d) p.
Proof.
  assert (Hrun : exists d, driver_run driver0 shared_calls d).
  { eexists. eapply driver_own; [apply (drive_alloc ∅ NewHeapGraph ∅ 1 (CPartitioner (HashPartitioner 2))); [done|set_solver]|].
    eapply driver_call; [eapply (drive_add _ _ _ shared_node); [set_solver|vm_compute; reflexivity|vm_compute; reflexivity]|].
    eapply driver_own; [apply (drive_write _ _ _ 1 (CPartitioner (HashPartitioner 7))); set_solver|].
    eapply driver_call; [eapply drive_node; [vm_compute; reflexivity|vm_compute; reflexivity]|].
    eapply driver_own; [apply (drive_write _ _ _ 3 (CPartitioner (HashPartitioner 9))); [vm_compute; reflexivity|set_solver]|].
    eapply driver_call; [eapply drive_node; [vm_compute; reflexivity|vm_compute; reflexivity]|]. constructor. }
  destruct Hrun as [d Hrun]. exists d. split; [done|].
  destruct (graph_isolated shared_calls d Hrun) as (p & Hp & Hr & _). by exists p.
Defined.
