(* ===== verification/Fifo.v ===== *)
(** * Fifo: the physical task scheduler

    Models [scheduler/{fifo_task_scheduler,worker_registry,worker_expiry,
    task_set,options}.go].  Every exported method runs under one mutex, so it is
    one function on the [scheduler] state; a [*fifoTaskSet] pointer is its key
    in [sets] (sets are never removed) and a [*logicalTaskState] pointer is a
    set key with an index.  [ScheduleTaskSet] holds the mutex twice, in its
    submission and in each round of its loop, and is the two functions
    [submitTaskSet] and [drainReports]; [system] adds the position of every
    loop and what its observer has seen.

    The submitter's [context.Context] is outside the scheduler: an operation
    takes the value of [set.ctx.Err()] at the time it runs as an argument
    [ctxErr].  Times are [Z] nanoseconds read from the clock by the caller.
    Log lines have no counterpart; slice clones are in [Heap]. *)

From S2P Require Import Prelude Bytes Plan Stages Shuffle Reports.
#[local] Open Scope Z_scope.

(** ** Options *)

Definition DefaultMaxTaskAttempts : Z := 3.
Definition DefaultMaxStageAttempts : Z := 2.

Record schedulerOptions := mkOptions {
  op_maxTaskAttempts : Z;
  op_maxStageAttempts : Z }.

(** An [Option] panics at its construction when its argument is not positive. *)
Inductive Option' :=
  | WithMaxStageAttempts (max : Z)
  | WithMaxTaskAttempts (max : Z).

Definition applyOption (c : schedulerOptions) (o : Option') : result schedulerOptions :=
  match o with
  | WithMaxStageAttempts max =>
      fail_if (max <=? 0) (Sentinel "panic: max stage attempts must be positive");;
      Ok {| op_maxTaskAttempts := op_maxTaskAttempts c; op_maxStageAttempts := max |}
  | WithMaxTaskAttempts max =>
      fail_if (max <=? 0) (Sentinel "panic: max task attempts must be positive");;
      Ok {| op_maxTaskAttempts := max; op_maxStageAttempts := op_maxStageAttempts c |}
  end.

Definition resolveSchedulerOptions (options : list Option') : result schedulerOptions :=
  foldl (fun c o => c ← c; applyOption c o)
    (Ok {| op_maxTaskAttempts := DefaultMaxTaskAttempts;
           op_maxStageAttempts := DefaultMaxStageAttempts |}) options.

(** ** Errors *)

Notation ErrUnknownWorker := "unknown worker"%string (only parsing).
Notation ErrWorkerLost := "worker is lost"%string (only parsing).
Notation ErrWorkerConflict := "worker registration conflict"%string (only parsing).
Notation ErrInvalidWorker := "invalid worker registration"%string (only parsing).
Notation ErrInvalidResourceOffer := "invalid resource offer"%string (only parsing).
Notation ErrUnknownAttempt := "unknown attempt"%string (only parsing).
Notation ErrMismatchedReport := "mismatched task report"%string (only parsing).
Notation ErrInvalidTaskReport := "invalid task report"%string (only parsing).
Definition ErrTaskSchedulerClosed : error := Sentinel "FIFO task scheduler is closed".

(** ** Workers *)

Inductive WorkerStatus := WorkerAlive | WorkerLost.

#[export] Instance WorkerStatus_eq_dec : EqDecision WorkerStatus.
Proof. solve_decision. Defined.

(** [workerState]: the snapshot's fields kept between calls, with [reserved]. *)
Record workerState := mkWorker {
  wk_ID : WorkerID;
  wk_Status : WorkerStatus;
  wk_TotalSlots : Z;
  wk_ReportedFreeSlots : Z;
  wk_RunningAttemptIDs : list TaskAttemptID;
  wk_LastHeartbeat : Z;
  wk_reserved : gset TaskAttemptID }.

Record WorkerSnapshot := mkWorkerSnapshot {
  ws_ID : WorkerID;
  ws_Status : WorkerStatus;
  ws_TotalSlots : Z;
  ws_ReportedFreeSlots : Z;
  ws_RunningAttemptIDs : list TaskAttemptID;
  ws_LastHeartbeat : Z;
  ws_ReservedSlots : Z }.

Definition register (workers : gmap WorkerID workerState) (id : WorkerID) (slots now : Z)
    : result (gmap WorkerID workerState) :=
  fail_if (bool_decide (id = "") || (slots <=? 0))
    (Errorf "%w: worker ID must be nonempty and slots positive" [FWrap (Sentinel ErrInvalidWorker)]);;
  match workers !! id with
  | Some worker =>
      fail_if (bool_decide (wk_Status worker = WorkerLost))
        (Errorf "%w %q: restart with a new worker ID" [FWrap (Sentinel ErrWorkerLost); FStr id]);;
      fail_if (negb (wk_TotalSlots worker =? slots))
        (Errorf "%w: worker %q already has capacity %d"
           [FWrap (Sentinel ErrWorkerConflict); FStr id; FInt (wk_TotalSlots worker)]);;
      Ok workers
  | None =>
      Ok (<[id := {| wk_ID := id; wk_Status := WorkerAlive; wk_TotalSlots := slots;
                     wk_ReportedFreeSlots := 0; wk_RunningAttemptIDs := [];
                     wk_LastHeartbeat := now; wk_reserved := ∅ |}]> workers)
  end.

Definition snapshot (workers : gmap WorkerID workerState) (id : WorkerID) : result WorkerSnapshot :=
  match workers !! id with
  | None => Err (Errorf "%w %q" [FWrap (Sentinel ErrUnknownWorker); FStr id])
  | Some w =>
      Ok {| ws_ID := wk_ID w; ws_Status := wk_Status w; ws_TotalSlots := wk_TotalSlots w;
            ws_ReportedFreeSlots := wk_ReportedFreeSlots w;
            ws_RunningAttemptIDs := merge_sort N.le (wk_RunningAttemptIDs w);
            ws_LastHeartbeat := wk_LastHeartbeat w;
            ws_ReservedSlots := Z.of_nat (size (wk_reserved w)) |}
  end.

Definition with_status (st : WorkerStatus) (w : workerState) : workerState :=
  mkWorker (wk_ID w) st (wk_TotalSlots w) (wk_ReportedFreeSlots w) (wk_RunningAttemptIDs w)
    (wk_LastHeartbeat w) (wk_reserved w).
Definition with_heartbeat (free : Z) (running : list TaskAttemptID) (now : Z) (w : workerState) :=
  mkWorker (wk_ID w) (wk_Status w) (wk_TotalSlots w) free running now (wk_reserved w).
Definition with_reserved (f : gset TaskAttemptID -> gset TaskAttemptID) (w : workerState) :=
  mkWorker (wk_ID w) (wk_Status w) (wk_TotalSlots w) (wk_ReportedFreeSlots w)
    (wk_RunningAttemptIDs w) (wk_LastHeartbeat w) (f (wk_reserved w)).

(** ** Task sets and attempts *)

Record TaskSet := mkTaskSet {
  tset_ShuffleInputs : option InputSnapshot;
  tset_JobID : JobID;
  tset_StageID : StageID;
  tset_StageAttemptID : StageAttemptID;
  tset_Tasks : list Task }.

Record TaskAttempt := mkTaskAttempt {
  at_Identity : TaskAttemptIdentity;
  at_Task : Task;
  at_WorkerID : WorkerID;
  at_State : TaskState }.

Record TaskAssignment := mkAssignment {
  asg_ShuffleInputs : option InputSnapshot;
  asg_RunID : string;
  asg_JobID : JobID;
  asg_StageID : StageID;
  asg_Attempt : TaskAttempt }.

Record taskSetKey := mkKey {
  key_job : JobID;
  key_stage : StageID;
  key_attempt : StageAttemptID }.

#[export] Instance taskSetKey_eq_dec : EqDecision taskSetKey.
Proof. solve_decision. Defined.
#[export] Program Instance taskSetKey_countable : Countable taskSetKey :=
  inj_countable' (fun k => (key_job k, key_stage k, key_attempt k))
    (fun '(j, s, a) => mkKey j s a) _.
Next Obligation. by intros []. Qed.

Record logicalTaskState := mkTaskState {
  lt_task : Task;
  lt_state : TaskState;
  lt_active : TaskAttemptID;
  lt_output : TaskOutput;
  lt_attempts : Z }.

Record terminalReport := mkReport {
  tr_success : option TaskAttemptSuccess;
  tr_failure : option TaskAttemptFailure;
  tr_requeued : bool;
  tr_exhausted : bool;
  tr_attempts : Z }.

(** [wake] is a channel of capacity one: [fs_wake] says it holds a token. *)
Record fifoTaskSet := mkSet {
  fs_inputs : option InputSnapshot;
  fs_key : taskSetKey;
  fs_sequence : N;
  fs_tasks : list logicalTaskState;
  fs_remaining : Z;
  fs_reports : list terminalReport;
  fs_wake : bool;
  fs_terminal : bool;
  fs_err : option error }.

Record assignedAttempt := mkAssigned {
  aa_assignment : TaskAssignment;
  aa_set : taskSetKey;
  aa_task : nat;
  aa_terminal : bool }.

Record scheduler := mkScheduler {
  maxTaskAttempts : Z;
  runID : string;
  workers : gmap WorkerID workerState;
  sets : gmap taskSetKey fifoTaskSet;
  queue : list taskSetKey;
  attempts : gmap TaskAttemptID assignedAttempt;
  nextSequence : N;
  nextAttempt : TaskAttemptID;
  closed : bool }.

Definition zeroOutput : TaskOutput := mkOutput None 0 None.

(** Field updates. *)
Definition with_task (i : nat) (f : logicalTaskState -> logicalTaskState) (set : fifoTaskSet) :=
  mkSet (fs_inputs set) (fs_key set) (fs_sequence set) (alter f i (fs_tasks set))
    (fs_remaining set) (fs_reports set) (fs_wake set) (fs_terminal set) (fs_err set).
Definition with_remaining (n : Z) (set : fifoTaskSet) :=
  mkSet (fs_inputs set) (fs_key set) (fs_sequence set) (fs_tasks set)
    n (fs_reports set) (fs_wake set) (fs_terminal set) (fs_err set).
Definition with_reports (rs : list terminalReport) (set : fifoTaskSet) :=
  mkSet (fs_inputs set) (fs_key set) (fs_sequence set) (fs_tasks set)
    (fs_remaining set) rs (fs_wake set) (fs_terminal set) (fs_err set).
Definition with_wake (b : bool) (set : fifoTaskSet) :=
  mkSet (fs_inputs set) (fs_key set) (fs_sequence set) (fs_tasks set)
    (fs_remaining set) (fs_reports set) b (fs_terminal set) (fs_err set).
Definition with_terminal (err : option error) (set : fifoTaskSet) :=
  mkSet (fs_inputs set) (fs_key set) (fs_sequence set) (fs_tasks set)
    (fs_remaining set) (fs_reports set) (fs_wake set) true err.

Definition task_state (st : TaskState) (t : logicalTaskState) :=
  mkTaskState (lt_task t) st (lt_active t) (lt_output t) (lt_attempts t).
Definition task_output (o : TaskOutput) (t : logicalTaskState) :=
  mkTaskState (lt_task t) (lt_state t) (lt_active t) o (lt_attempts t).
Definition task_assigned (id : TaskAttemptID) (t : logicalTaskState) :=
  mkTaskState (lt_task t) TaskRunning id (lt_output t) (lt_attempts t + 1).

Definition set_workers (f : gmap WorkerID workerState -> gmap WorkerID workerState) (s : scheduler) :=
  mkScheduler (maxTaskAttempts s) (runID s) (f (workers s)) (sets s) (queue s) (attempts s)
    (nextSequence s) (nextAttempt s) (closed s).
Definition set_sets (f : gmap taskSetKey fifoTaskSet -> gmap taskSetKey fifoTaskSet) (s : scheduler) :=
  mkScheduler (maxTaskAttempts s) (runID s) (workers s) (f (sets s)) (queue s) (attempts s)
    (nextSequence s) (nextAttempt s) (closed s).
Definition set_queue (q : list taskSetKey) (s : scheduler) :=
  mkScheduler (maxTaskAttempts s) (runID s) (workers s) (sets s) q (attempts s)
    (nextSequence s) (nextAttempt s) (closed s).
Definition set_attempts (f : gmap TaskAttemptID assignedAttempt -> gmap TaskAttemptID assignedAttempt)
    (s : scheduler) :=
  mkScheduler (maxTaskAttempts s) (runID s) (workers s) (sets s) (queue s) (f (attempts s))
    (nextSequence s) (nextAttempt s) (closed s).

Definition get_task (s : scheduler) (key : taskSetKey) (i : nat) : option logicalTaskState :=
  set ← sets s !! key; fs_tasks set !! i.

(** ** Construction *)

(** [run] is the fresh [NewRunID()]; a panicking option yields an error. *)
Definition NewFIFOTaskScheduler (options : list Option') (run : string) : result scheduler :=
  config ← resolveSchedulerOptions options;
  Ok {| maxTaskAttempts := op_maxTaskAttempts config; runID := run; workers := ∅; sets := ∅;
        queue := []; attempts := ∅; nextSequence := 0; nextAttempt := 0; closed := false |}.

Definition RegisterWorker (s : scheduler) (id : WorkerID) (slots now : Z) : result scheduler :=
  fail_if (closed s) ErrTaskSchedulerClosed;;
  ws ← register (workers s) id slots now;
  Ok (set_workers (fun _ => ws) s).

Definition Worker (s : scheduler) (id : WorkerID) : result WorkerSnapshot := snapshot (workers s) id.

(** ** Submission *)

Fixpoint prepareTasks (input : TaskSet) (ids : gset TaskID) (partitions : gset PartitionID)
    (acc : list logicalTaskState) (tasks : list Task) : result (list logicalTaskState) :=
  match tasks with
  | [] => Ok acc
  | task :: tasks =>
      fail_if (negb (t_StageID task =? tset_StageID input)%N || (t_PartitionID task <? 0) ||
               bool_decide (t_ID task ∈ ids) || bool_decide (t_PartitionID task ∈ partitions))
        (Errorf "invalid or duplicate task %d partition %d in stage %d"
           [FInt (Z.of_N (t_ID task)); FInt (t_PartitionID task); FInt (Z.of_N (tset_StageID input))]);;
      prepareTasks input ({[t_ID task]} ∪ ids) ({[t_PartitionID task]} ∪ partitions)
        (acc ++ [{| lt_task := task; lt_state := TaskPending; lt_active := 0%N;
                    lt_output := zeroOutput; lt_attempts := 0 |}]) tasks
  end.

Definition partition_le (a b : logicalTaskState) : Prop :=
  t_PartitionID (lt_task a) <= t_PartitionID (lt_task b).

#[export] Instance partition_le_dec : RelDecision partition_le.
Proof. intros a b. unfold partition_le. apply _. Defined.

Definition prepareTaskSet (input : TaskSet) : result fifoTaskSet :=
  fail_if (length (tset_Tasks input) =? 0)%nat (Errorf "task set has no tasks" []);;
  _ ← match tset_ShuffleInputs input with Some inputs => validateSnapshot inputs | None => Ok tt end;
  tasks ← prepareTasks input ∅ ∅ [] (tset_Tasks input);
  Ok {| fs_inputs := tset_ShuffleInputs input;
        fs_key := mkKey (tset_JobID input) (tset_StageID input) (tset_StageAttemptID input);
        fs_sequence := 0; fs_tasks := merge_sort partition_le tasks;
        fs_remaining := Z.of_nat (length (tset_Tasks input)); fs_reports := []; fs_wake := false;
        fs_terminal := false; fs_err := None |}.

Definition with_sequence (n : N) (set : fifoTaskSet) :=
  mkSet (fs_inputs set) (fs_key set) n (fs_tasks set) (fs_remaining set) (fs_reports set)
    (fs_wake set) (fs_terminal set) (fs_err set).

(** The first critical section of [ScheduleTaskSet]; [observer] says it is not nil. *)
Definition submitTaskSet (s : scheduler) (input : TaskSet) (observer : bool) (ctxErr : option error)
    : result (scheduler * taskSetKey) :=
  fail_if (negb observer) (Errorf "task-set observer is nil" []);;
  set ← prepareTaskSet input;
  fail_if (closed s) ErrTaskSchedulerClosed;;
  match ctxErr with
  | Some err => Err err
  | None =>
      fail_if (bool_decide (is_Some (sets s !! fs_key set)))
        (Errorf "task set %+v already submitted"
           [FInt (Z.of_N (key_job (fs_key set))); FInt (Z.of_N (key_stage (fs_key set)));
            FInt (Z.of_N (key_attempt (fs_key set)))]);;
      Ok (mkScheduler (maxTaskAttempts s) (runID s) (workers s)
            (<[fs_key set := with_sequence (nextSequence s) set]> (sets s))
            (queue s ++ [fs_key set]) (attempts s)
            (u64 (nextSequence s + 1)) (nextAttempt s) (closed s), fs_key set)
  end.

(** ** Completion of a set *)

Definition notify (set : fifoTaskSet) : fifoTaskSet := with_wake true set.

Definition finish_set (err : option error) (set : fifoTaskSet) : fifoTaskSet :=
  if fs_terminal set then set else notify (with_terminal err set).

Definition finish (key : taskSetKey) (err : option error) (s : scheduler) : scheduler :=
  set_sets (alter (finish_set err) key) s.

(** One round of the loop of [ScheduleTaskSet] under the mutex: the reports it
    takes, and whether the set has ended and with which error. *)
Definition drainReports (s : scheduler) (key : taskSetKey) (ctxErr : option error)
    : scheduler * (list terminalReport * bool * option error) :=
  let s := match ctxErr with Some err => finish key (Some err) s | None => s end in
  match sets s !! key with
  | None => (s, ([], true, Some panic_nil))
  | Some set =>
      (set_sets (alter (with_reports []) key) s, (fs_reports set, fs_terminal set, fs_err set))
  end.

Inductive observation :=
  | ObserveSuccess (r : TaskAttemptSuccess)
  | ObserveFailure (r : TaskAttemptFailure).

(** The observer call made for a report, outside the mutex: none for a requeued failure. *)
Definition deliver (r : terminalReport) : option observation :=
  match tr_success r with
  | Some r => Some (ObserveSuccess r)
  | None => if tr_requeued r then None else ObserveFailure <$> tr_failure r
  end.

(** ** Resource offers *)

(** The check of [running] in [OfferResources]; the result is [seen]. *)
Fixpoint checkRunning (s : scheduler) (id : WorkerID) (seen : gset TaskAttemptID)
    (running : list TaskAttemptID) : result (gset TaskAttemptID) :=
  match running with
  | [] => Ok seen
  | attemptID :: running =>
      let bad := Errorf "%w: invalid running attempt %d for worker %q"
                   [FWrap (Sentinel ErrInvalidResourceOffer); FInt (Z.of_N attemptID); FStr id] in
      match attempts s !! attemptID with
      | None => Err bad
      | Some attempt =>
          fail_if (bool_decide (attemptID ∈ seen) ||
                   negb (bool_decide (at_WorkerID (asg_Attempt (aa_assignment attempt)) = id))) bad;;
          checkRunning s id ({[attemptID]} ∪ seen) running
      end
  end.

(** The state of the nested loops: scheduler, [available], [assignments]. *)
Definition offer : Type := scheduler * Z * list TaskAssignment.

(** The assignment made for a pending task. *)
Definition newAssignment (s : scheduler) (id : WorkerID) (set : fifoTaskSet) (task : logicalTaskState)
    : TaskAssignment :=
  {| asg_ShuffleInputs := fs_inputs set; asg_RunID := runID s; asg_JobID := key_job (fs_key set);
     asg_StageID := key_stage (fs_key set);
     asg_Attempt :=
       {| at_Identity := {| ta_ID := nextAttempt s; ta_TaskID := t_ID (lt_task task);
                            ta_StageAttemptID := key_attempt (fs_key set) |};
          at_Task := lt_task task; at_WorkerID := id; at_State := TaskRunning |} |}.

(** Assign task [i] of the set to the worker. *)
Definition assign (s : scheduler) (id : WorkerID) (key : taskSetKey) (i : nat) (a : TaskAssignment)
    : scheduler :=
  mkScheduler (maxTaskAttempts s) (runID s)
    (alter (with_reserved (fun r => {[nextAttempt s]} ∪ r)) id (workers s))
    (alter (with_task i (task_assigned (nextAttempt s))) key (sets s)) (queue s)
    (<[nextAttempt s := {| aa_assignment := a; aa_set := key; aa_task := i; aa_terminal := false |}]>
       (attempts s))
    (nextSequence s) (u64 (nextAttempt s + 1)) (closed s).

(** The body of the inner loop for the task at index [i]. *)
Definition offerTask (id : WorkerID) (key : taskSetKey) (o : offer) (i : nat) : offer :=
  let '(s, available, assignments) := o in
  if available <=? 0 then o
  else
    match sets s !! key, get_task s key i with
    | Some set, Some task =>
        if bool_decide (lt_state task = TaskPending) then
          let a := newAssignment s id set task in
          (assign s id key i a, available - 1, assignments ++ [a])
        else o
    | _, _ => o
    end.

(** The body of the outer loop. *)
Definition offerSet (ctxErr : taskSetKey -> option error) (id : WorkerID) (o : offer)
    (key : taskSetKey) : offer :=
  let '(s, available, assignments) := o in
  match sets s !! key with
  | None => o
  | Some set =>
      if fs_terminal set then o
      else match ctxErr key with
           | Some err => (finish key (Some err) s, available, assignments)
           | None => foldl (offerTask id key) o (seq 0 (length (fs_tasks set)))
           end
  end.

Definition is_live (s : scheduler) (key : taskSetKey) : bool :=
  match sets s !! key with Some set => negb (fs_terminal set) | None => false end.

Definition compactQueue (s : scheduler) : scheduler :=
  set_queue (List.filter (is_live s) (queue s)) s.

(** [available] after the heartbeat's accounting. *)
Definition availableSlots (w : workerState) (free : Z) (seen : gset TaskAttemptID) : Z :=
  Z.min (free - Z.of_nat (size (wk_reserved w ∖ seen)))
    (wk_TotalSlots w - Z.of_nat (size (wk_reserved w))).

Definition OfferResources (s : scheduler) (id : WorkerID) (free : Z) (running : list TaskAttemptID)
    (now : Z) (ctxErr : taskSetKey -> option error) : result (scheduler * list TaskAssignment) :=
  fail_if (closed s) ErrTaskSchedulerClosed;;
  match workers s !! id with
  | None => Err (Errorf "%w %q" [FWrap (Sentinel ErrUnknownWorker); FStr id])
  | Some worker =>
      fail_if (bool_decide (wk_Status worker = WorkerLost))
        (Errorf "%w %q" [FWrap (Sentinel ErrWorkerLost); FStr id]);;
      fail_if ((free <? 0) || (wk_TotalSlots worker <? free) ||
               (wk_TotalSlots worker - free <? Z.of_nat (length running)))
        (Errorf "%w: invalid capacity for worker %q"
           [FWrap (Sentinel ErrInvalidResourceOffer); FStr id]);;
      seen ← checkRunning s id ∅ running;
      let s := set_workers (alter (with_heartbeat free running now) id) s in
      let '(s, _, assignments) :=
        foldl (offerSet ctxErr id) (s, availableSlots worker free seen, []) (queue s) in
      Ok (compactQueue s, assignments)
  end.

(** ** Reports *)

(** [Ok None] is the [nil, nil] of a duplicate or obsolete report. *)
Definition validateReport (s : scheduler) (job : JobID) (stage : StageID)
    (identity : TaskAttemptIdentity) (partition : PartitionID) (worker : WorkerID)
    : result (option assignedAttempt) :=
  fail_if (closed s) ErrTaskSchedulerClosed;;
  fail_if (bool_decide (workers s !! worker = None))
    (Errorf "%w %q" [FWrap (Sentinel ErrUnknownWorker); FStr worker]);;
  match attempts s !! ta_ID identity with
  | None => Err (Errorf "%w %d" [FWrap (Sentinel ErrUnknownAttempt); FInt (Z.of_N (ta_ID identity))])
  | Some attempt =>
      let a := aa_assignment attempt in
      fail_if (negb (asg_JobID a =? job)%N || negb (asg_StageID a =? stage)%N ||
               negb (bool_decide (at_Identity (asg_Attempt a) = identity)) ||
               negb (t_PartitionID (at_Task (asg_Attempt a)) =? partition) ||
               negb (bool_decide (at_WorkerID (asg_Attempt a) = worker)))
        (Errorf "%w for attempt %d" [FWrap (Sentinel ErrMismatchedReport); FInt (Z.of_N (ta_ID identity))]);;
      match get_task s (aa_set attempt) (aa_task attempt) with
      | None => Err panic_nil
      | Some task =>
          if aa_terminal attempt || negb (lt_active task =? ta_ID identity)%N then Ok None
          else Ok (Some attempt)
      end
  end.

Definition retire (st : TaskState) (a : assignedAttempt) : assignedAttempt :=
  let g := aa_assignment a in
  let t := asg_Attempt g in
  {| aa_assignment :=
       {| asg_ShuffleInputs := asg_ShuffleInputs g; asg_RunID := asg_RunID g;
          asg_JobID := asg_JobID g; asg_StageID := asg_StageID g;
          asg_Attempt := {| at_Identity := at_Identity t; at_Task := at_Task t;
                            at_WorkerID := at_WorkerID t; at_State := st |} |};
     aa_set := aa_set a; aa_task := aa_task a; aa_terminal := true |}.

Definition release (s : scheduler) (attempt : assignedAttempt) (st : TaskState) : scheduler :=
  let a := asg_Attempt (aa_assignment attempt) in
  let id := ta_ID (at_Identity a) in
  mkScheduler (maxTaskAttempts s) (runID s)
    (alter (with_reserved (fun r => r ∖ {[id]})) (at_WorkerID a) (workers s))
    (alter (with_task (aa_task attempt) (task_state st)) (aa_set attempt) (sets s)) (queue s)
    (alter (retire st) id (attempts s)) (nextSequence s) (nextAttempt s) (closed s).

(** What [ReportSuccess] does to the set of an accepted report, after [release]. *)
Definition acceptSuccess (i : nat) (report : TaskAttemptSuccess) (set : fifoTaskSet) : fifoTaskSet :=
  let set := with_task i (task_output (ts_Output report)) set in
  let set := with_remaining (fs_remaining set - 1) set in
  let set := with_reports (fs_reports set ++ [mkReport (Some report) None false false 0]) set in
  if fs_remaining set =? 0 then finish_set None set else notify set.

Definition ReportSuccess (s : scheduler) (report : TaskAttemptSuccess)
    (ctxErr : taskSetKey -> option error) : result scheduler :=
  attempt ← validateReport s (ts_JobID report) (ts_StageID report) (ts_Attempt report)
              (ts_PartitionID report) (ts_WorkerID report);
  match attempt with
  | None => Ok s
  | Some attempt =>
      let a := aa_assignment attempt in
      _ ← map_err (fun err => Errorf "%w: %w" [FWrap (Sentinel ErrInvalidTaskReport); FWrap err])
            (ValidateFor (ts_Output report)
               (mkExecution (asg_RunID a) (asg_JobID a) (at_Task (asg_Attempt a))
                  (at_Identity (asg_Attempt a)) "" None));
      let s := release s attempt TaskSucceeded in
      match sets s !! aa_set attempt with
      | None => Err panic_nil
      | Some set =>
          if fs_terminal set then Ok s
          else match ctxErr (aa_set attempt) with
               | Some err => Ok (finish (aa_set attempt) (Some err) s)
               | None => Ok (set_sets (alter (acceptSuccess (aa_task attempt) report) (aa_set attempt)) s)
               end
      end
  end.

(** What [failAttempt] does to the live set of the attempt, after [release]. *)
Definition recordFailure (max : Z) (i : nat) (report : TaskAttemptFailure) (set : fifoTaskSet)
    : fifoTaskSet :=
  let attempts := match fs_tasks set !! i with Some t => lt_attempts t | None => 0 end in
  let retryable := bool_decide (tf_Kind report = FailureExecution) ||
                   bool_decide (tf_Kind report = FailureWorkerLost) in
  let requeued := retryable && (attempts <? max) in
  let set := with_reports (fs_reports set ++
    [mkReport None (Some report) requeued (retryable && negb requeued) attempts]) set in
  if requeued then notify (with_task i (task_state TaskPending) set)
  else finish_set (Some (Errorf "stage %d task %d partition %d: %s"
         [FInt (Z.of_N (tf_StageID report)); FInt (Z.of_N (ta_TaskID (tf_Attempt report)));
          FInt (tf_PartitionID report); FStr (tf_Error report)])) set.

Definition failAttempt (s : scheduler) (attempt : assignedAttempt) (report : TaskAttemptFailure)
    (ctxErr : taskSetKey -> option error) : result scheduler :=
  let s := release s attempt TaskFailed in
  match sets s !! aa_set attempt with
  | None => Err panic_nil
  | Some set =>
      if fs_terminal set then Ok s
      else match ctxErr (aa_set attempt) with
           | Some err => Ok (finish (aa_set attempt) (Some err) s)
           | None => Ok (set_sets (alter (recordFailure (maxTaskAttempts s) (aa_task attempt) report)
                                     (aa_set attempt)) s)
           end
  end.

(** The check of a reported input against the assigned snapshot. *)
Definition checkFailureInput (a : TaskAssignment) (input : option InputReference) : result unit :=
  match input with
  | None => Ok tt
  | Some ref =>
      let bad := Errorf "%w: failure does not identify an assigned shuffle input"
                   [FWrap (Sentinel ErrInvalidTaskReport)] in
      match asg_ShuffleInputs a with
      | None => Err bad
      | Some inputs =>
          fail_if (negb (ir_PartitionID ref =? t_PartitionID (at_Task (asg_Attempt a))) ||
                   (Z.of_nat (length (is_Outputs inputs)) <=? ai_MapPartitionID (ir_Attempt ref))) bad;;
          match zindex (is_Outputs inputs) (ai_MapPartitionID (ir_Attempt ref)) with
          | None => Err panic_range
          | Some o => fail_if (negb (bool_decide (mo_Attempt o = ir_Attempt ref))) bad;; Ok tt
          end
      end
  end.

Definition ReportFailure (s : scheduler) (report : TaskAttemptFailure)
    (ctxErr : taskSetKey -> option error) : result scheduler :=
  fail_if (bool_decide (tf_Error report = ""))
    (Errorf "%w: task failure message is empty" [FWrap (Sentinel ErrInvalidTaskReport)]);;
  attempt ← validateReport s (tf_JobID report) (tf_StageID report) (tf_Attempt report)
              (tf_PartitionID report) (tf_WorkerID report);
  match attempt with
  | None => Ok s
  | Some attempt =>
      _ ← map_err (fun err => Errorf "%w: %w" [FWrap (Sentinel ErrInvalidTaskReport); FWrap err])
            (ValidateFailure (tf_Kind report) (tf_ShuffleInput report));
      _ ← checkFailureInput (aa_assignment attempt) (tf_ShuffleInput report);
      failAttempt s attempt report ctxErr
  end.

(** ** Worker expiry *)

Definition lostReport (a : TaskAssignment) (id : WorkerID) : TaskAttemptFailure :=
  {| tf_Kind := FailureWorkerLost; tf_ShuffleInput := None; tf_JobID := asg_JobID a;
     tf_StageID := asg_StageID a; tf_Attempt := at_Identity (asg_Attempt a);
     tf_PartitionID := t_PartitionID (at_Task (asg_Attempt a)); tf_WorkerID := id;
     tf_Error := "worker " +:+ quoteString id +:+ " heartbeat expired" |}.

(** Retire the reservations of a lost worker one by one; [ctxErr] may change in between. *)
Fixpoint retireAll (ctxErr : TaskAttemptID -> taskSetKey -> option error) (id : WorkerID)
    (ids : list TaskAttemptID) (s : scheduler) : result scheduler :=
  match ids with
  | [] => Ok s
  | attemptID :: ids =>
      match attempts s !! attemptID with
      | None => Err panic_nil
      | Some attempt =>
          s ← failAttempt s attempt (lostReport (aa_assignment attempt) id) (ctxErr attemptID);
          retireAll ctxErr id ids s
      end
  end.

Definition loseWorker (ctxErr : TaskAttemptID -> taskSetKey -> option error) (s : scheduler)
    (id : WorkerID) : result scheduler :=
  match workers s !! id with
  | None => Err panic_nil
  | Some worker =>
      retireAll ctxErr id (merge_sort N.le (elements (wk_reserved worker)))
        (set_workers (alter (with_status WorkerLost) id) s)
  end.

Definition isExpired (now timeout : Z) (w : workerState) : bool :=
  bool_decide (wk_Status w = WorkerAlive) && (timeout <=? now - wk_LastHeartbeat w).

(** Map iteration order is undone by the sort. *)
Definition expiredWorkers (s : scheduler) (now timeout : Z) : list WorkerID :=
  merge_sort String.le (List.filter
    (fun id => match workers s !! id with Some w => isExpired now timeout w | None => false end)
    (elements (dom (workers s)))).

Definition ExpireWorkers (s : scheduler) (now timeout : Z)
    (ctxErr : TaskAttemptID -> taskSetKey -> option error) : result (scheduler * list WorkerID) :=
  fail_if (timeout <=? 0) (Errorf "worker timeout must be positive" []);;
  fail_if (closed s) ErrTaskSchedulerClosed;;
  let lost := expiredWorkers s now timeout in
  s ← foldl (fun s id => s ← s; loseWorker ctxErr s id) (Ok s) lost;
  Ok (compactQueue s, lost).

(** ** Closing *)

(** The critical section of [Close]; it then waits for the loops to return. *)
Definition Close (s : scheduler) : scheduler :=
  mkScheduler (maxTaskAttempts s) (runID s) (workers s)
    (finish_set (Some ErrTaskSchedulerClosed) <$> sets s) (queue s) (attempts s)
    (nextSequence s) (nextAttempt s) true.

(** ** The scheduler with its submission loops *)

(** Where a [ScheduleTaskSet] call is: about to take the mutex, blocked in its
    [select], or back in its caller. *)
Inductive loopState := LoopDraining | LoopWaiting | LoopReturned (err : option error).

Record submission := mkSubmission {
  sub_state : loopState;
  sub_observed : list terminalReport }.

Record system := mkSystem {
  sys_fifo : scheduler;
  sys_loops : gmap taskSetKey submission }.

(** One round of the loop: drain, deliver, then return or block. *)
Definition drainLoop (y : system) (key : taskSetKey) (l : submission) (ctxErr : option error) : system :=
  let '(s, (reports, terminal, err)) := drainReports (sys_fifo y) key ctxErr in
  mkSystem s
    (<[key := {| sub_state := if terminal then LoopReturned err else LoopWaiting;
                 sub_observed := sub_observed l ++ reports |}]> (sys_loops y)).

Definition consumeWake (y : system) (key : taskSetKey) (l : submission) : system :=
  mkSystem (set_sets (alter (with_wake false) key) (sys_fifo y))
    (<[key := {| sub_state := LoopDraining; sub_observed := sub_observed l |}]> (sys_loops y)).

Definition enterLoop (y : system) (s : scheduler) (key : taskSetKey) : system :=
  mkSystem s (<[key := {| sub_state := LoopDraining; sub_observed := [] |}]> (sys_loops y)).

(** The interleavings of the methods.  A rejected call leaves the state as it
    is and needs no step. *)
Inductive fifo_step : system -> system -> Prop :=
  | step_register y id slots now s :
      RegisterWorker (sys_fifo y) id slots now = Ok s ->
      fifo_step y (mkSystem s (sys_loops y))
  | step_submit y input observer s key :
      submitTaskSet (sys_fifo y) input observer None = Ok (s, key) ->
      fifo_step y (enterLoop y s key)
  | step_offer y id free running now ctxErr s assignments :
      OfferResources (sys_fifo y) id free running now ctxErr = Ok (s, assignments) ->
      (nextAttempt (sys_fifo y) + Z.to_N free < 2 ^ 64)%N ->
      fifo_step y (mkSystem s (sys_loops y))
  | step_success y report ctxErr s :
      ReportSuccess (sys_fifo y) report ctxErr = Ok s ->
      fifo_step y (mkSystem s (sys_loops y))
  | step_failure y report ctxErr s :
      ReportFailure (sys_fifo y) report ctxErr = Ok s ->
      fifo_step y (mkSystem s (sys_loops y))
  | step_expire y now timeout ctxErr s lost :
      ExpireWorkers (sys_fifo y) now timeout ctxErr = Ok (s, lost) ->
      fifo_step y (mkSystem s (sys_loops y))
  | step_close y : fifo_step y (mkSystem (Close (sys_fifo y)) (sys_loops y))
  | step_drain y key l ctxErr :
      sys_loops y !! key = Some l -> sub_state l = LoopDraining ->
      fifo_step y (drainLoop y key l ctxErr)
  | step_wake y key l set :
      sys_loops y !! key = Some l -> sub_state l = LoopWaiting ->
      sets (sys_fifo y) !! key = Some set -> fs_wake set = true ->
      fifo_step y (consumeWake y key l)
  | step_ctx y key l :
      sys_loops y !! key = Some l -> sub_state l = LoopWaiting ->
      fifo_step y (mkSystem (sys_fifo y)
        (<[key := {| sub_state := LoopDraining; sub_observed := sub_observed l |}]> (sys_loops y))).

(** The states a scheduler with these options can reach. *)
Inductive fifo_reachable : system -> Prop :=
  | fifo_init options run s :
      NewFIFOTaskScheduler options run = Ok s -> lowerHex run 32 = true ->
      fifo_reachable (mkSystem s ∅)
  | fifo_next y y' : fifo_reachable y -> fifo_step y y' -> fifo_reachable y'.
