(* ===== verification/FifoProofs.v ===== *)
(** * FifoProofs: the life of a task set, and the scheduler's invariant

    [set_step] is the state machine one task set follows; every method of the
    scheduler moves each set along it, so what one set guarantees (its counts,
    its log of reports, its wake-up token) is proved once, on the machine. *)

From S2P Require Import Prelude Bytes Plan Stages Shuffle Reports Fifo.
#[local] Open Scope Z_scope.

(** ** One task set *)

Definition succeeded (t : logicalTaskState) : bool :=
  match lt_state t with TaskSucceeded => true | _ => false end.
Definition unsucceeded (t : logicalTaskState) : bool := negb (succeeded t).

(** What the code relies on about one set, whatever the workers do. *)
Record set_ok (max : Z) (set : fifoTaskSet) : Prop := {
  so_nodup : NoDup ((fun t => t_PartitionID (lt_task t)) <$> fs_tasks set);
  so_sorted : StronglySorted partition_le (fs_tasks set);
  so_tasks i t : fs_tasks set !! i = Some t ->
    t_StageID (lt_task t) = key_stage (fs_key set) /\ 0 <= lt_attempts t <= max /\
    (lt_state t = TaskPending -> lt_attempts t < max);
  so_live : fs_terminal set = false ->
    fs_err set = None /\ 0 < fs_remaining set /\
    fs_remaining set = Z.of_nat (length (List.filter unsucceeded (fs_tasks set))) /\
    forall i t, fs_tasks set !! i = Some t -> lt_state t <> TaskFailed;
  so_done : fs_terminal set = true -> fs_err set = None ->
    forall i t, fs_tasks set !! i = Some t -> lt_state t = TaskSucceeded }.

(** The report of the success of a task. *)
Definition success_of (set : fifoTaskSet) (i : nat) (t : logicalTaskState) (r : TaskAttemptSuccess) : Prop :=
  ts_JobID r = key_job (fs_key set) /\ ts_StageID r = key_stage (fs_key set) /\
  ta_StageAttemptID (ts_Attempt r) = key_attempt (fs_key set) /\
  ta_TaskID (ts_Attempt r) = t_ID (lt_task t) /\ ts_PartitionID r = t_PartitionID (lt_task t) /\
  exists run, output_ok (ts_Output r)
    (mkExecution run (key_job (fs_key set)) (lt_task t) (ts_Attempt r) "" None).

(** The moves of a set. *)
Inductive set_step (max : Z) (set : fifoTaskSet) : fifoTaskSet -> Prop :=
  | ss_assign i t id :
      fs_terminal set = false -> fs_tasks set !! i = Some t -> lt_state t = TaskPending ->
      set_step max set (with_task i (task_assigned id) set)
  | ss_finish err :
      fs_terminal set = false -> set_step max set (finish_set (Some err) set)
  | ss_late i t st :
      fs_terminal set = true -> fs_tasks set !! i = Some t -> lt_state t = TaskRunning ->
      st = TaskSucceeded \/ st = TaskFailed ->
      set_step max set (with_task i (task_state st) set)
  | ss_cancel i t st err :
      fs_terminal set = false -> fs_tasks set !! i = Some t -> lt_state t = TaskRunning ->
      st = TaskSucceeded \/ st = TaskFailed ->
      set_step max set (finish_set (Some err) (with_task i (task_state st) set))
  | ss_accept i t r :
      fs_terminal set = false -> fs_tasks set !! i = Some t -> lt_state t = TaskRunning ->
      success_of set i t r ->
      set_step max set (acceptSuccess i r (with_task i (task_state TaskSucceeded) set))
  | ss_fail i t r :
      fs_terminal set = false -> fs_tasks set !! i = Some t -> lt_state t = TaskRunning ->
      set_step max set (recordFailure max i r (with_task i (task_state TaskFailed) set)).

(** *** Changing one task *)

Lemma alter_map {A B} (g : A -> B) (f : A -> A) (i : nat) (l : list A) :
  (forall x, g (f x) = g x) -> g <$> alter f i l = g <$> l.
Proof.
  intros H. revert i. induction l as [|x l IH]; intros [|i]; cbn; f_equal; auto.
Qed.

Lemma alter_sorted f (i : nat) l :
  (forall t, lt_task (f t) = lt_task t) ->
  StronglySorted partition_le l -> StronglySorted partition_le (alter f i l).
Proof.
  intros Hf. revert i. induction l as [|x l IH]; intros i H; [by destruct i|].
  apply StronglySorted_inv in H as [Hl Hx].
  assert (Hall : forall P : Task -> Prop, Forall (fun t => P (lt_task t)) l ->
    forall j, Forall (fun t => P (lt_task t)) (alter f j l)).
  { intros P HP j. apply Forall_lookup. intros k t Hk.
    rewrite list_lookup_alter in Hk. case_decide; [|by eapply (Forall_lookup_1 _ _ _ _ HP)].
    apply fmap_Some in Hk as (u & Hu & ->). rewrite Hf. by eapply (Forall_lookup_1 _ _ _ _ HP). }
  destruct i as [|i]; cbn.
  - constructor; [done|]. unfold partition_le. by rewrite Hf.
  - constructor; [by apply IH|].
    exact (Hall (fun u => t_PartitionID (lt_task x) <= t_PartitionID u) Hx i).
Qed.

Lemma alter_filter_length (p : logicalTaskState -> bool) f (i : nat) l t :
  l !! i = Some t ->
  (length (List.filter p (alter f i l)) + (if p t then 1 else 0) =
   length (List.filter p l) + (if p (f t) then 1 else 0))%nat.
Proof.
  revert i. induction l as [|x l IH]; intros [|i]; cbn; [done|done| |].
  - intros [= ->]. destruct (p t), (p (f t)); cbn; lia.
  - intros H. specialize (IH i H). change (list_alter f i l) with (alter f i l) in *.
    destruct (p x); cbn; lia.
Qed.

(** The tasks other than [i] are kept, and what identifies task [i] too. *)
Lemma with_task_ok max i f set t :
  set_ok max set -> fs_tasks set !! i = Some t ->
  (forall t, lt_task (f t) = lt_task t) ->
  NoDup ((fun t => t_PartitionID (lt_task t)) <$> fs_tasks (with_task i f set)) /\
  StronglySorted partition_le (fs_tasks (with_task i f set)) /\
  (forall j u, fs_tasks (with_task i f set) !! j = Some u ->
     (j = i /\ u = f t) \/ (j <> i /\ fs_tasks set !! j = Some u)).
Proof.
  intros H Hi Hf. split_and!; cbn.
  - rewrite alter_map by (intros; by rewrite Hf). apply H.
  - apply alter_sorted; [done|apply H].
  - intros j u. rewrite list_lookup_alter. case_decide; subst; [|naive_solver].
    rewrite Hi. cbn. naive_solver.
Qed.

Lemma alter_compose {A} (f g : A -> A) (i : nat) (l : list A) :
  alter f i (alter g i l) = alter (fun x => f (g x)) i l.
Proof. revert i. induction l as [|x l IH]; intros [|i]; cbn; f_equal; auto. Qed.

(** A live set stays a good one when task [i] moves, if the count follows. *)
Lemma set_ok_task max i f set t set' :
  set_ok max set -> fs_terminal set = false -> fs_tasks set !! i = Some t ->
  (forall t, lt_task (f t) = lt_task t) ->
  0 <= lt_attempts (f t) <= max -> (lt_state (f t) = TaskPending -> lt_attempts (f t) < max) ->
  fs_tasks set' = fs_tasks (with_task i f set) -> fs_key set' = fs_key set ->
  (fs_terminal set' = false ->
     fs_err set' = None /\ 0 < fs_remaining set' /\ lt_state (f t) <> TaskFailed /\
     fs_remaining set' - fs_remaining set =
       (if unsucceeded (f t) then 1 else 0) - (if unsucceeded t then 1 else 0)) ->
  (fs_terminal set' = true -> fs_err set' = None ->
     fs_remaining set = 1 /\ unsucceeded t = true /\ lt_state (f t) = TaskSucceeded) ->
  set_ok max set'.
Proof.
  intros H Hlive Hi Hf Ha Hp Et Ek Hl Hd.
  destruct (with_task_ok max i f set t H Hi Hf) as (Hn & Hs & Hu).
  destruct (so_live _ _ H Hlive) as (_ & _ & Hr & Hnf).
  split; rewrite ?Et, ?Ek; auto.
  - intros j u [[-> ->]|[_ Hj]]%Hu; [|by eapply H].
    rewrite Hf. split; [|done]. by destruct (so_tasks _ _ H _ _ Hi).
  - intros Hl'. destruct (Hl Hl') as (? & ? & Hst & Hd').
    split_and!; [done|done| |].
    + pose proof (alter_filter_length unsucceeded f i _ t Hi). cbn.
      destruct (unsucceeded (f t)), (unsucceeded t); lia.
    + intros j u [[-> ->]|[_ Hj]]%Hu; [done|by eapply Hnf].
  - intros Ht' He'. destruct (Hd Ht' He') as (Hone & Hut & Hst).
    intros j u [[-> ->]|[Hne Hj]]%Hu; [done|].
    destruct (decide (lt_state u = TaskSucceeded)) as [|Hus]; [done|exfalso].
    assert (Hun : unsucceeded u = true).
    { unfold unsucceeded, succeeded. by destruct (lt_state u). }
    pose proof (alter_filter_length unsucceeded f i _ t Hi) as Hlen.
    rewrite Hut in Hlen. assert (Hfu : unsucceeded (f t) = false).
    { unfold unsucceeded, succeeded. by rewrite Hst. }
    rewrite Hfu in Hlen.
    assert (Hin : In u (List.filter unsucceeded (alter f i (fs_tasks set)))).
    { apply filter_In. split; [|done]. apply list_elem_of_In.
      apply (list_elem_of_lookup_2 _ j). by rewrite list_lookup_alter_ne. }
    destruct (List.filter unsucceeded (alter f i (fs_tasks set))); cbn in *; [done|lia].
Qed.

Lemma set_step_ok max set set' : set_ok max set -> set_step max set set' -> set_ok max set'.
Proof.
  intros H [i t id Hl Hi Hs|err Hl|i t st Hl Hi Hs Hst|i t st err Hl Hi Hs Hst|i t r Hl Hi Hs Hr|i t r Hl Hi Hs].
  - destruct (so_tasks _ _ H _ _ Hi) as (_ & Ha & Hp). specialize (Hp Hs).
    destruct (so_live _ _ H Hl) as (He & Hpos & _).
    eapply (set_ok_task max i (task_assigned id) set t); cbn; auto; try lia; try congruence.
    intros _. split_and!; auto. unfold unsucceeded, succeeded. rewrite Hs. cbn. lia.
  - unfold finish_set. rewrite Hl. split; cbn; try done; apply H.
  - destruct (with_task_ok max i (task_state st) set t H Hi) as (Hn & Hsd & Hu); [done|].
    split; cbn; auto; [|congruence|].
    + intros j u [[-> ->]|[_ Hj]]%Hu; [|by eapply H]. cbn.
      destruct (so_tasks _ _ H _ _ Hi) as (? & ? & ?). split_and!; [done|lia|lia|].
      by destruct Hst as [->| ->].
    + intros _ He j u. pose proof (so_done _ _ H Hl He _ _ Hi). congruence.
  - destruct (so_tasks _ _ H _ _ Hi) as (_ & Ha & _).
    eapply (set_ok_task max i (task_state st) set t); cbn; auto; unfold finish_set; cbn; rewrite ?Hl; cbn; try done.
    by destruct Hst as [->| ->].
  - destruct (so_tasks _ _ H _ _ Hi) as (_ & Ha & _).
    destruct (so_live _ _ H Hl) as (He & Hpos & _).
    assert (Hu : unsucceeded t = true) by (unfold unsucceeded, succeeded; by rewrite Hs).
    eapply (set_ok_task max i (fun t => task_output (ts_Output r) (task_state TaskSucceeded t)) set t);
      cbn; auto; try done; unfold acceptSuccess, finish_set; cbn;
      destruct (Z.eqb_spec (fs_remaining set - 1) 0) as [|]; cbn; rewrite ?Hl; cbn; rewrite ?Hl; try done.
    + apply alter_compose.
    + apply alter_compose.
    + intros _. rewrite Hu. split_and!; auto; lia.
    + intros _ _. split_and!; auto. lia.
  - destruct (so_tasks _ _ H _ _ Hi) as (_ & Ha & _).
    destruct (so_live _ _ H Hl) as (He & Hpos & _).
    assert (Hu : unsucceeded t = true) by (unfold unsucceeded, succeeded; by rewrite Hs).
    unfold recordFailure. cbn. rewrite list_lookup_alter_eq, Hi. cbn.
    destruct (_ && _) eqn:Hreq; to_prop.
    + eapply (set_ok_task max i (fun t => task_state TaskPending (task_state TaskFailed t)) set t);
        cbn; auto; try done.
      * apply alter_compose.
      * intros _. rewrite Hu. split_and!; auto. cbn. lia.
      * congruence.
    + eapply (set_ok_task max i (task_state TaskFailed) set t); cbn; auto; unfold finish_set; cbn;
        rewrite ?Hl; cbn; try done.
Qed.

(** *** The log of a set

    [log] is what the observer has seen followed by the pending reports. *)

Definition successes (log : list terminalReport) : list TaskAttemptSuccess := omap tr_success log.
Definition tagged (r : TaskAttemptSuccess) : PartitionID * TaskOutput := (ts_PartitionID r, ts_Output r).
Definition task_result (t : logicalTaskState) : PartitionID * TaskOutput :=
  (t_PartitionID (lt_task t), lt_output t).
Definition results (set : fifoTaskSet) : list (PartitionID * TaskOutput) :=
  task_result <$> List.filter succeeded (fs_tasks set).

Record log_ok (set : fifoTaskSet) (log : list terminalReport) : Prop := {
  lg_sub : tagged <$> successes log ⊆+ results set;
  lg_all : fs_terminal set = false \/ fs_err set = None -> tagged <$> successes log ≡ₚ results set;
  lg_sound r : r ∈ successes log -> exists i t, fs_tasks set !! i = Some t /\ success_of set i t r;
  lg_failed r : r ∈ log -> tr_success r = None ->
    (exists f, tr_failure r = Some f) /\
    (tr_requeued r = false -> fs_terminal set = true /\ fs_err set <> None) }.

Lemma results_same f (i : nat) l t :
  l !! i = Some t -> succeeded t = false -> succeeded (f t) = false ->
  List.filter succeeded (alter f i l) = List.filter succeeded l.
Proof.
  revert i. induction l as [|x l IH]; intros [|i]; cbn; [done|done| |].
  - intros [= ->] Ht Hf. by rewrite Ht, Hf.
  - intros Hi Ht Hf. change (list_alter f i l) with (alter f i l). by rewrite IH.
Qed.

Lemma results_new f (i : nat) l t :
  l !! i = Some t -> succeeded t = false -> succeeded (f t) = true ->
  task_result <$> List.filter succeeded (alter f i l) ≡ₚ
  task_result (f t) :: (task_result <$> List.filter succeeded l).
Proof.
  revert i. induction l as [|x l IH]; intros [|i]; cbn; [done|done| |].
  - intros [= ->] Ht Hf. by rewrite Ht, Hf.
  - intros Hi Ht Hf. change (list_alter f i l) with (alter f i l).
    destruct (succeeded x); cbn; rewrite IH by done; [apply Permutation_swap|done].
Qed.

Lemma lookup_task_kept f (i : nat) (l : list logicalTaskState) j u :
  (forall t, lt_task (f t) = lt_task t) -> l !! j = Some u ->
  exists u', alter f i l !! j = Some u' /\ lt_task u' = lt_task u.
Proof.
  intros Hf Hj. rewrite list_lookup_alter. case_decide; [|naive_solver].
  subst j. rewrite Hj. cbn. naive_solver.
Qed.

(** Soundness of the log only depends on which tasks the set has. *)
Lemma log_sound_kept f i set set' log :
  (forall r, r ∈ successes log -> exists i t, fs_tasks set !! i = Some t /\ success_of set i t r) ->
  (forall t, lt_task (f t) = lt_task t) -> fs_tasks set' = alter f i (fs_tasks set) ->
  fs_key set' = fs_key set ->
  forall r, r ∈ successes log -> exists i t, fs_tasks set' !! i = Some t /\ success_of set' i t r.
Proof.
  intros H Hf Et Ek r Hr. destruct (H r Hr) as (j & u & Hj & Hs).
  destruct (lookup_task_kept f i _ j u Hf Hj) as (u' & Hu' & Eu).
  exists j, u'. rewrite Et. split; [done|]. unfold success_of in *. by rewrite Ek, Eu.
Qed.

(** A move that adds no report and no accepted result. *)
Lemma log_ok_quiet f i t set set' log :
  log_ok set log -> fs_tasks set !! i = Some t -> succeeded t = false ->
  (forall t, lt_task (f t) = lt_task t) -> fs_tasks set' = alter f i (fs_tasks set) ->
  fs_key set' = fs_key set -> (fs_terminal set = true -> fs_terminal set' = true /\ fs_err set' = fs_err set) ->
  (succeeded (f t) = true -> fs_terminal set' = true /\ fs_err set' <> None) ->
  (fs_terminal set = false -> fs_terminal set' = true -> fs_err set' <> None) ->
  log_ok set' log.
Proof.
  intros H Hi Ht Hf Et Ek Hterm Hs Hend. split.
  - unfold results. rewrite Et. destruct (succeeded (f t)) eqn:Hft.
    + rewrite results_new by done. constructor. apply H.
    + erewrite results_same by done. apply H.
  - intros Hl. unfold results. rewrite Et.
    destruct (succeeded (f t)) eqn:Hft; [destruct (Hs eq_refl), Hl; congruence|].
    erewrite results_same by done. apply (lg_all _ _ H).
    destruct (fs_terminal set) eqn:Hst; [|by left]. right.
    destruct (Hterm eq_refl) as [? He]. destruct Hl; congruence.
  - eapply log_sound_kept; [apply H|done..].
  - intros r Hr Hn. destruct (lg_failed _ _ H r Hr Hn) as [? Hq]. split; [done|].
    intros Hrq. destruct (Hq Hrq) as [Hst He]. destruct (Hterm Hst) as [-> ->]. done.
Qed.

Lemma acceptSuccess_fields i r set :
  fs_terminal set = false ->
  let set1 := acceptSuccess i r (with_task i (task_state TaskSucceeded) set) in
  fs_tasks set1 =
    alter (fun t => task_output (ts_Output r) (task_state TaskSucceeded t)) i (fs_tasks set) /\
  fs_key set1 = fs_key set /\
  fs_reports set1 = fs_reports set ++ [mkReport (Some r) None false false 0] /\
  (fs_err set = None -> fs_err set1 = None).
Proof.
  intros Hl. unfold acceptSuccess, finish_set. cbn.
  destruct (_ =? 0); cbn; rewrite ?Hl; cbn; split_and!; auto; by rewrite alter_compose.
Qed.

Lemma set_step_log max set set' obs :
  set_ok max set -> log_ok set (obs ++ fs_reports set) -> set_step max set set' ->
  log_ok set' (obs ++ fs_reports set').
Proof.
  intros Hok H [i t id Hl Hi Hs|err Hl|i t st Hl Hi Hs Hst|i t st err Hl Hi Hs Hst|i t r Hl Hi Hs Hr|i t r Hl Hi Hs];
    try (assert (Hus : succeeded t = false) by (unfold succeeded; by rewrite Hs)).
  - eapply (log_ok_quiet (task_assigned id) i t set); cbn; auto; cbn; congruence.
  - unfold finish_set. rewrite Hl. split; cbn; try apply H.
    + intros [|]; done.
    + intros r Hr Hn. split; [|done]. by apply (lg_failed _ _ H r Hr Hn).
  - eapply (log_ok_quiet (task_state st) i t set); cbn; auto; try congruence.
    intros _. split; [done|]. intros He. pose proof (so_done _ _ Hok Hl He _ _ Hi). congruence.
  - assert (Er : fs_reports (finish_set (Some err) (with_task i (task_state st) set)) = fs_reports set).
    { unfold finish_set. cbn. by rewrite Hl. }
    rewrite Er.
    eapply (log_ok_quiet (task_state st) i t set); unfold finish_set; cbn; rewrite ?Hl; cbn; auto; try congruence.
  - set (f := fun t => task_output (ts_Output r) (task_state TaskSucceeded t)).
    set (set1 := acceptSuccess i r (with_task i (task_state TaskSucceeded) set)).
    destruct (acceptSuccess_fields i r set Hl) as (Et & Ek & Er & Ee).
    fold set1 f in Et, Ek, Er, Ee. destruct (so_live _ _ Hok Hl) as [He _]. specialize (Ee He).
    rewrite Er, app_assoc. set (log := obs ++ fs_reports set) in *.
    assert (Es : successes (log ++ [mkReport (Some r) None false false 0]) = successes log ++ [r]).
    { unfold successes. by rewrite omap_app. }
    assert (Hperm : tagged <$> successes (log ++ [mkReport (Some r) None false false 0]) ≡ₚ results set1).
    { rewrite Es, fmap_app. unfold results. rewrite Et, results_new by done. cbn.
      rewrite (lg_all _ _ H (or_introl Hl)). rewrite Permutation_app_comm. cbn.
      unfold tagged at 1, task_result at 2. cbn.
      destruct Hr as (_ & _ & _ & _ & -> & _). done. }
    split; [by rewrite Hperm|done| |].
    + intros r' Hr'. rewrite Es in Hr'. apply elem_of_app in Hr' as [Hr'|Hr'].
      * by eapply (log_sound_kept f i set); [apply H|done..].
      * apply list_elem_of_singleton in Hr' as ->.
        destruct (lookup_task_kept f i _ i t (fun _ => eq_refl) Hi) as (t' & Ht' & Eq).
        exists i, t'. rewrite Et. split; [done|]. unfold success_of in *. by rewrite Ek, Eq.
    + intros r' [Hr'|Hr']%elem_of_app Hn; [|by apply list_elem_of_singleton in Hr' as ->].
      destruct (lg_failed _ _ H r' Hr' Hn) as [? Hq]. split; [done|].
      intros Hrq. destruct (Hq Hrq). congruence.
  - set (requeue := (bool_decide (tf_Kind r = FailureExecution) ||
                     bool_decide (tf_Kind r = FailureWorkerLost)) && (lt_attempts t <? max)).
    set (set1 := recordFailure max i r (with_task i (task_state TaskFailed) set)).
    set (f := fun t => task_state (if requeue then TaskPending else TaskFailed) t).
    assert (Hset1 : fs_tasks set1 = alter f i (fs_tasks set) /\ fs_key set1 = fs_key set /\
      (exists b n, fs_reports set1 = fs_reports set ++ [mkReport None (Some r) requeue b n]) /\
      fs_terminal set1 = negb requeue /\ (requeue = false -> fs_err set1 <> None)).
    { unfold set1, recordFailure, f, requeue. cbn. rewrite list_lookup_alter_eq, Hi. cbn.
      destruct (_ && _); unfold finish_set; cbn; rewrite ?Hl; cbn; rewrite ?Hl;
        split_and!; eauto; try done; by rewrite alter_compose. }
    destruct Hset1 as (Et & Ek & (b & n & Er) & Eterm & Ee). rewrite Er, app_assoc.
    assert (Hf : succeeded (f t) = false) by (unfold f; by destruct requeue).
    assert (Hq : log_ok set1 (obs ++ fs_reports set)).
    { eapply (log_ok_quiet f i t set); auto; [congruence|by rewrite Hf|].
      intros _. rewrite Eterm. intros ?%negb_true_iff. by apply Ee. }
    set (log := obs ++ fs_reports set) in *.
    assert (Es : successes (log ++ [mkReport None (Some r) requeue b n]) = successes log).
    { unfold successes. rewrite omap_app. cbn. by rewrite app_nil_r. }
    split; rewrite ?Es; try apply Hq.
    intros r' [Hr'|Hr']%elem_of_app Hn; [by eapply (lg_failed _ _ Hq)|].
    apply list_elem_of_singleton in Hr' as ->. cbn. split; [eauto|].
    intros ->. rewrite Eterm. split; [done|by apply Ee].
Qed.

(** A blocked loop has a wake-up token whenever it has something to do. *)
Definition wake_ok (set : fifoTaskSet) : Prop :=
  fs_terminal set = true \/ fs_reports set <> [] -> fs_wake set = true.

Lemma set_step_wake max set set' : wake_ok set -> set_step max set set' -> wake_ok set'.
Proof.
  unfold wake_ok. intros H [i t id Hl Hi Hs|err Hl|i t st Hl Hi Hs Hst|i t st err Hl Hi Hs Hst|i t r Hl Hi Hs Hr|i t r Hl Hi Hs];
    unfold acceptSuccess, recordFailure, finish_set; cbn; rewrite ?Hl in *; auto;
    repeat case_goal; cbn; rewrite ?Hl; auto.
Qed.

(** An ended set stays as it ended, and takes no more reports. *)
Lemma set_step_terminal max set set' :
  fs_terminal set = true -> set_step max set set' ->
  fs_terminal set' = true /\ fs_err set' = fs_err set /\ fs_reports set' = fs_reports set /\
  fs_wake set' = fs_wake set.
Proof. intros Ht []; cbn; auto; congruence. Qed.

(** Every move keeps the identity of the set and of its tasks. *)
Lemma set_step_kept max set set' :
  set_step max set set' ->
  fs_key set' = fs_key set /\ fs_inputs set' = fs_inputs set /\ fs_sequence set' = fs_sequence set /\
  lt_task <$> fs_tasks set' = lt_task <$> fs_tasks set.
Proof.
  intros []; unfold acceptSuccess, recordFailure, finish_set; cbn; repeat case_goal; cbn;
    split_and!; auto; rewrite ?alter_map by done; done.
Qed.
