(* ===== verification/FifoInvariant.v ===== *)
(** * FifoInvariant: what every method of the scheduler maintains

    The links between attempts, tasks and reservations ([sched_inv]), and that
    each method of the scheduler moves every set along [set_step]. *)

From S2P Require Import Prelude Bytes Plan Stages Shuffle Reports Fifo FifoProofs.
#[local] Open Scope Z_scope.

(** ** The invariant *)

(** The assignment [g] of attempt [id] is one of task [t] of [set]. *)
Definition assigned_to (run : string) (set : fifoTaskSet) (t : logicalTaskState) (id : TaskAttemptID)
    (g : TaskAssignment) : Prop :=
  asg_RunID g = run /\ asg_ShuffleInputs g = fs_inputs set /\
  asg_JobID g = key_job (fs_key set) /\ asg_StageID g = key_stage (fs_key set) /\
  at_Identity (asg_Attempt g) = mkAttempt id (t_ID (lt_task t)) (key_attempt (fs_key set)) /\
  at_Task (asg_Attempt g) = lt_task t.

Definition attempt_worker (a : assignedAttempt) : WorkerID := at_WorkerID (asg_Attempt (aa_assignment a)).

Definition attempt_ok (s : scheduler) (id : TaskAttemptID) (a : assignedAttempt) : Prop :=
  (id < nextAttempt s)%N /\
  (exists set t, sets s !! aa_set a = Some set /\ fs_tasks set !! aa_task a = Some t /\
     assigned_to (runID s) set t id (aa_assignment a) /\
     (aa_terminal a = false -> lt_state t = TaskRunning /\ lt_active t = id)) /\
  (exists w, workers s !! attempt_worker a = Some w /\
     (aa_terminal a = false -> id ∈ wk_reserved w)).

Definition worker_ok (s : scheduler) (id : WorkerID) (w : workerState) : Prop :=
  wk_ID w = id /\ 0 < wk_TotalSlots w /\ Z.of_nat (size (wk_reserved w)) <= wk_TotalSlots w /\
  forall aid, aid ∈ wk_reserved w -> exists a,
    attempts s !! aid = Some a /\ aa_terminal a = false /\ attempt_worker a = id.

Definition inputs_ok (set : fifoTaskSet) : Prop :=
  match fs_inputs set with Some inputs => snapshot_ok inputs | None => True end.

Record sched_inv (s : scheduler) : Prop := {
  inv_max : 0 < maxTaskAttempts s;
  inv_run : lowerHex (runID s) 32 = true;
  inv_sets key set : sets s !! key = Some set ->
    fs_key set = key /\ set_ok (maxTaskAttempts s) set /\ inputs_ok set;
  inv_running key set i t : sets s !! key = Some set -> fs_tasks set !! i = Some t ->
    lt_state t = TaskRunning -> exists a, attempts s !! lt_active t = Some a /\
      aa_terminal a = false /\ aa_set a = key /\ aa_task a = i;
  inv_attempts id a : attempts s !! id = Some a -> attempt_ok s id a;
  inv_workers id w : workers s !! id = Some w -> worker_ok s id w;
  inv_queue : NoDup (queue s);
  inv_queued key : key ∈ queue s -> is_Some (sets s !! key);
  inv_live key set : sets s !! key = Some set -> fs_terminal set = false -> key ∈ queue s;
  inv_closed : closed s = true -> forall key set, sets s !! key = Some set -> fs_terminal set = true }.

(** A task has one live attempt at a time. *)
Lemma live_attempt_unique s id1 a1 id2 a2 :
  sched_inv s -> attempts s !! id1 = Some a1 -> attempts s !! id2 = Some a2 ->
  aa_terminal a1 = false -> aa_terminal a2 = false ->
  aa_set a1 = aa_set a2 -> aa_task a1 = aa_task a2 -> id1 = id2.
Proof.
  intros H H1 H2 T1 T2 Es Et.
  destruct (inv_attempts _ H _ _ H1) as (_ & (set1 & t1 & Hs1 & Ht1 & _ & L1) & _).
  destruct (inv_attempts _ H _ _ H2) as (_ & (set2 & t2 & Hs2 & Ht2 & _ & L2) & _).
  destruct (L1 T1) as [_ <-], (L2 T2) as [_ <-]. rewrite Es in Hs1. rewrite Et in Ht1.
  congruence.
Qed.

(** ** The changes the methods make *)

(** A set moves without touching its tasks. *)
Definition put_set (key : taskSetKey) (set : fifoTaskSet) (s : scheduler) : scheduler :=
  set_sets (insert key set) s.

Lemma alter_put f key set s :
  sets s !! key = Some set -> set_sets (alter f key) s = put_set key (f set) s.
Proof.
  intros H. unfold put_set, set_sets. f_equal. apply map_eq. intros k.
  rewrite lookup_alter, lookup_insert. case_decide; subst; [by rewrite H|done].
Qed.

Lemma inv_put s key set set' :
  sched_inv s -> sets s !! key = Some set -> set_ok (maxTaskAttempts s) set' ->
  fs_tasks set' = fs_tasks set -> fs_key set' = fs_key set -> fs_inputs set' = fs_inputs set ->
  (fs_terminal set = true -> fs_terminal set' = true) ->
  sched_inv (put_set key set' s).
Proof.
  intros H Hk Hok Et Ek Ei Hterm. destruct (inv_sets _ H _ _ Hk) as (Hkey & _ & Hin).
  split; cbn; try apply H.
  - intros k u. rewrite lookup_insert_Some. intros [[<- <-]|[_ Hu]]; [|by apply H].
    split_and!; [by rewrite Ek|done|]. unfold inputs_ok in *. by rewrite Ei.
  - intros k u i t. rewrite lookup_insert_Some. intros [[<- <-]|[_ Hu]]; [|by eapply H].
    rewrite Et. by eapply H.
  - intros id a Ha. destruct (inv_attempts _ H _ _ Ha) as (? & (u & t & Hu & Ht & Has & Hl) & Hw).
    split_and!; [done| |done]. cbn. destruct (decide (key = aa_set a)) as [Eq|].
    + rewrite <- Eq in *. exists set', t. assert (u = set) as -> by congruence. rewrite lookup_insert_eq, Et.
      split_and!; auto. unfold assigned_to in *. by rewrite Ei, Ek.
    + exists u, t. rewrite lookup_insert_ne by done. done.
  - intros k Hq. apply lookup_insert_is_Some'. right. by apply H.
  - intros k u. rewrite lookup_insert_Some. intros [[<- <-]|[_ Hu]]; [|by apply H].
    intros Hl. apply (inv_live _ H _ _ Hk). destruct (fs_terminal set); [|done]. naive_solver.
  - intros Hc k u. rewrite lookup_insert_Some. intros [[<- <-]|[_ Hu]].
    + apply Hterm. by eapply H.
    + by eapply H.
Qed.

(** A worker's record changes, not its reservations. *)
Lemma inv_worker s f id :
  sched_inv s -> (forall w, wk_ID (f w) = wk_ID w /\ wk_TotalSlots (f w) = wk_TotalSlots w /\
                            wk_reserved (f w) = wk_reserved w) ->
  sched_inv (set_workers (alter f id) s).
Proof.
  intros H Hf. split; cbn; try apply H.
  - intros aid a Ha. destruct (inv_attempts _ H _ _ Ha) as (? & ? & (w & Hw & Hr)).
    split_and!; [done|done|]. cbn. rewrite lookup_alter. case_decide; subst; [|eauto].
    rewrite Hw. cbn. eexists. split; [done|]. destruct (Hf w) as (_ & _ & ->). done.
  - intros wid w. rewrite lookup_alter_Some. intros [(<- & v & Hv & ->)|[_ Hw]]; [|by apply H].
    destruct (inv_workers _ H _ _ Hv) as (? & ? & ? & ?), (Hf v) as (E1 & E2 & E3).
    unfold worker_ok. cbn. by rewrite E1, E2, E3.
Qed.

(** Attempt [id] ends: its slot is freed, its task leaves [TaskRunning]. *)
Definition retired (s : scheduler) (id : TaskAttemptID) (a : assignedAttempt) (st : TaskState)
    (set' : fifoTaskSet) : scheduler :=
  mkScheduler (maxTaskAttempts s) (runID s)
    (alter (with_reserved (fun r => r ∖ {[id]})) (attempt_worker a) (workers s))
    (<[aa_set a := set']> (sets s)) (queue s) (alter (retire st) id (attempts s))
    (nextSequence s) (nextAttempt s) (closed s).

Lemma retired_worker s id a st set' wid w :
  sched_inv s -> attempts s !! id = Some a ->
  workers (retired s id a st set') !! wid = Some w -> worker_ok (retired s id a st set') wid w.
Proof.
  intros H Ha. cbn. rewrite lookup_alter_Some. intros [(<- & v & Hv & ->)|[Hne Hw]].
  - destruct (inv_workers _ H _ _ Hv) as (? & ? & Hsz & Hr). unfold worker_ok. cbn.
    split_and!; [done|done| |].
    + assert (size (wk_reserved v ∖ {[id]}) <= size (wk_reserved v))%nat by (apply subseteq_size; set_solver).
      lia.
    + intros aid [Hin Hx]%elem_of_difference. rewrite not_elem_of_singleton in Hx.
      rewrite lookup_alter_ne by done. by apply Hr.
  - destruct (inv_workers _ H _ _ Hw) as (? & ? & Hsz & Hr). split_and!; try done.
    intros aid Hin. destruct (Hr aid Hin) as (b & Hb & ? & Hbw). cbn.
    rewrite lookup_alter_ne; [eauto|]. intros <-. congruence.
Qed.

Lemma inv_retired s id a st set g set' :
  sched_inv s -> attempts s !! id = Some a -> aa_terminal a = false ->
  sets s !! aa_set a = Some set -> set_ok (maxTaskAttempts s) set' ->
  fs_tasks set' = alter g (aa_task a) (fs_tasks set) ->
  (forall t, lt_task (g t) = lt_task t /\ lt_state (g t) <> TaskRunning) ->
  fs_key set' = fs_key set -> fs_inputs set' = fs_inputs set ->
  (fs_terminal set = true -> fs_terminal set' = true) ->
  sched_inv (retired s id a st set').
Proof.
  intros H Ha Hlive Hk Hok Et Hg Ek Ei Hterm. destruct (inv_sets _ H _ _ Hk) as (Hkey & _ & Hin).
  split; cbn; try apply H.
  - intros k u. rewrite lookup_insert_Some. intros [[<- <-]|[_ Hu]]; [|by apply H].
    split_and!; [by rewrite Ek|done|]. unfold inputs_ok in *. by rewrite Ei.
  - intros k u i t Hu Ht Hrun.
    assert (Hold : exists u, sets s !! k = Some u /\ fs_tasks u !! i = Some t /\
                             ~ (k = aa_set a /\ i = aa_task a)).
    { apply lookup_insert_Some in Hu as [[<- <-]|[? Hu]]; [|naive_solver].
      rewrite Et, list_lookup_alter in Ht. case_decide as Hi; [|naive_solver].
      apply fmap_Some in Ht as (v & Hv & ->). by destruct (Hg v). }
    destruct Hold as (v & Hv & Hvt & Hne).
    destruct (inv_running _ H _ _ _ _ Hv Hvt Hrun) as (b & Hb & Tb & Sb & Ib).
    exists b. rewrite lookup_alter_ne; [done|]. intros ->. naive_solver.
  - intros bid b Hb.
    assert (Hold : exists b0, attempts s !! bid = Some b0 /\ aa_set b = aa_set b0 /\
      aa_task b = aa_task b0 /\ attempt_worker b = attempt_worker b0 /\
      (forall t u, assigned_to (runID s) u t bid (aa_assignment b0) ->
                   assigned_to (runID s) u t bid (aa_assignment b)) /\
      (aa_terminal b = false -> aa_terminal b0 = false /\ bid <> id)).
    { apply lookup_alter_Some in Hb as [(-> & v & Hv & ->)|[Hne Hb]].
      - exists v. split_and!; done.
      - exists b. split_and!; auto. }
    destruct Hold as (b0 & Hb0 & Es & Eti & Ew & Has & Htb).
    destruct (inv_attempts _ H _ _ Hb0) as (Hlt & (u & t & Hu & Ht & Hto & Hl) & (w & Hw & Hr)).
    split_and!; cbn; [done| |].
    + rewrite Es, Eti. destruct (decide (aa_set a = aa_set b0)) as [Eq|Hne].
      * rewrite <- Eq, lookup_insert_eq. assert (u = set) as -> by congruence.
        destruct (decide (aa_task a = aa_task b0)) as [Eq'|Hne'].
        -- exists set', (g t). rewrite Et, Eq', list_lookup_alter_eq, Ht. destruct (Hg t) as [Gt Gs].
           split_and!; [done|done| |].
           ++ apply Has. unfold assigned_to in *. by rewrite Ei, Ek, Gt.
           ++ intros Tb. destruct (Htb Tb) as [Tb0 Hne]. destruct Hne.
              by eapply (live_attempt_unique s bid b0 id a).
        -- exists set', t. rewrite Et, list_lookup_alter_ne by done.
           split_and!; [done|done| |naive_solver]. apply Has. unfold assigned_to in *. by rewrite Ei, Ek.
      * rewrite lookup_insert_ne by done. exists u, t. split_and!; auto. naive_solver.
    + rewrite Ew, lookup_alter. case_decide as Eq; [rewrite Eq|]; rewrite Hw; cbn;
        eexists; (split; [done|]); intros Tb; destruct (Htb Tb); [cbn; set_solver|auto].
  - intros wid w Hw. exact (retired_worker s id a st set' wid w H Ha Hw).
  - intros k Hq. apply lookup_insert_is_Some'. right. by apply H.
  - intros k u. rewrite lookup_insert_Some. intros [[<- <-]|[_ Hu]]; [|by apply H].
    intros Hl. apply (inv_live _ H _ _ Hk). destruct (fs_terminal set); [|done]. naive_solver.
  - intros Hc k u. rewrite lookup_insert_Some. intros [[<- <-]|[_ Hu]].
    + apply Hterm. by eapply H.
    + by eapply H.
Qed.

(** A pending task is assigned to a worker with a free slot. *)
Lemma inv_assign s id w key set i t :
  sched_inv s -> workers s !! id = Some w -> sets s !! key = Some set ->
  fs_terminal set = false -> fs_tasks set !! i = Some t -> lt_state t = TaskPending ->
  Z.of_nat (size (wk_reserved w)) < wk_TotalSlots w -> (nextAttempt s + 1 < 2 ^ 64)%N ->
  sched_inv (assign s id key i (newAssignment s id set t)).
Proof.
  intros H Hw Hk Hlive Hi Hp Hroom Hnext.
  assert (Hfresh : attempts s !! nextAttempt s = None).
  { destruct (attempts s !! nextAttempt s) as [b|] eqn:Hb; [|done].
    destruct (inv_attempts _ H _ _ Hb) as [Hlt _]. lia. }
  set (f := task_assigned (nextAttempt s)). set (set' := with_task i f set).
  destruct (inv_sets _ H _ _ Hk) as (Hkey & Hok & Hin).
  assert (Hok' : set_ok (maxTaskAttempts s) set').
  { eapply set_step_ok; [done|]. by eapply ss_assign. }
  assert (Esets : alter (with_task i f) key (sets s) = <[key := set']> (sets s)).
  { apply map_eq. intros k. rewrite lookup_alter, lookup_insert. case_decide; subst; [by rewrite Hk|done]. }
  assert (Hnew : forall b, b ∈ wk_reserved w -> b <> nextAttempt s).
  { intros b Hb ->. destruct (inv_workers _ H _ _ Hw) as (_ & _ & _ & Hr).
    destruct (Hr _ Hb) as (? & ? & _). congruence. }
  unfold assign. fold f. rewrite Esets. split; cbn; try apply H; rewrite ?u64_id by lia.
  - intros k u. rewrite lookup_insert_Some. intros [[<- <-]|[_ Hu]]; [|by apply H]. done.
  - intros k u j v Hu Hv Hrun.
    apply lookup_insert_Some in Hu as [[<- <-]|[Hne Hu]].
    + cbn in Hv. rewrite list_lookup_alter in Hv. case_decide as Hj.
      * subst j. rewrite Hi in Hv. injection Hv as <-. cbn. rewrite lookup_insert_eq. eexists. by split_and!.
      * destruct (inv_running _ H _ _ _ _ Hk Hv Hrun) as (b & Hb & ?).
        exists b. rewrite lookup_insert_ne; [done|]. intros E. rewrite E in Hfresh. congruence.
    + destruct (inv_running _ H _ _ _ _ Hu Hv Hrun) as (b & Hb & ?).
      exists b. rewrite lookup_insert_ne; [done|]. intros E. rewrite E in Hfresh. congruence.
  - intros bid b. rewrite lookup_insert_Some. intros [[<- <-]|[Hne Hb]].
    + split_and!; cbn; [lia| |].
      * exists set', (f t). rewrite lookup_insert_eq. cbn. rewrite list_lookup_alter_eq, Hi.
        split_and!; [done|done| |done]. by split_and!.
      * unfold attempt_worker. cbn. rewrite lookup_alter_eq, Hw. eexists. split; [done|]. cbn. set_solver.
    + destruct (inv_attempts _ H _ _ Hb) as (Hlt & (u & v & Hu & Hv & Hto & Hl) & (x & Hx & Hr)).
      split_and!; cbn; [lia| |].
      * destruct (decide (key = aa_set b)) as [Eq|].
        -- rewrite <- Eq in *. assert (u = set) as -> by congruence. rewrite lookup_insert_eq.
           destruct (decide (i = aa_task b)) as [Eqi|].
           ++ rewrite <- Eqi in *. assert (v = t) as -> by congruence.
              exists set', (f t). cbn. rewrite list_lookup_alter_eq, Hi. split_and!; try done.
              intros Tb. destruct (Hl Tb). congruence.
           ++ exists set', v. cbn. rewrite list_lookup_alter_ne by done. done.
        -- rewrite lookup_insert_ne by done. exists u, v. done.
      * rewrite lookup_alter. case_decide as Eq; [|eauto].
        rewrite Eq, Hx. cbn. eexists. split; [done|]. cbn. set_solver.
  - intros wid x. rewrite lookup_alter_Some. intros [(<- & y & Hy & ->)|[Hne Hx]].
    + assert (y = w) as -> by congruence.
      destruct (inv_workers _ H _ _ Hw) as (? & ? & Hsz & Hr). unfold worker_ok. cbn.
      split_and!; [done|done| |].
      * rewrite size_union, size_singleton by set_solver. lia.
      * intros aid [->%elem_of_singleton|Hin']%elem_of_union.
        -- rewrite lookup_insert_eq. eexists. by split_and!.
        -- rewrite lookup_insert_ne; [by apply Hr|]. symmetry. by apply Hnew.
    + destruct (inv_workers _ H _ _ Hx) as (? & ? & Hsz & Hr). split_and!; try done. cbn.
      intros aid Hin'. destruct (Hr aid Hin') as (b & Hb & ?). exists b.
      rewrite lookup_insert_ne; [done|]. intros E. rewrite E in Hfresh. congruence.
  - intros k Hq. apply lookup_insert_is_Some'. right. by apply H.
  - intros k u. rewrite lookup_insert_Some. intros [[<- <-]|[_ Hu]]; [|by apply H].
    intros _. by eapply inv_live.
  - intros Hc k u. rewrite lookup_insert_Some. intros [[<- <-]|[_ Hu]].
    + cbn. by eapply H.
    + by eapply H.
Qed.

(** ** How the sets move *)

(** Every set of [s] has moved along [set_step]; there is no new one. *)
Record moves (s s' : scheduler) : Prop := {
  mv_max : maxTaskAttempts s' = maxTaskAttempts s;
  mv_run : runID s' = runID s;
  mv_sets key set : sets s !! key = Some set ->
    exists set', sets s' !! key = Some set' /\ rtc (set_step (maxTaskAttempts s)) set set';
  mv_none key : sets s !! key = None -> sets s' !! key = None }.

#[export] Instance moves_refl : Reflexive moves.
Proof. intros s. split; eauto using rtc_refl. Qed.

#[export] Instance moves_trans : Transitive moves.
Proof.
  intros s1 s2 s3 [M1 R1 S1 N1] [M2 R2 S2 N2]. split; [congruence|congruence| |auto].
  intros key set (set2 & H2 & St2)%S1. destruct (S2 _ _ H2) as (set3 & H3 & St3).
  exists set3. rewrite M1 in St3. split; [done|]. by transitivity set2.
Qed.

Lemma moves_put s s' key set set' :
  maxTaskAttempts s' = maxTaskAttempts s -> runID s' = runID s ->
  sets s !! key = Some set -> sets s' = <[key := set']> (sets s) ->
  rtc (set_step (maxTaskAttempts s)) set set' -> moves s s'.
Proof.
  intros Em Er Hk Es Hst. split; [done|done| |]; rewrite Es.
  - intros k u Hu. destruct (decide (key = k)) as [<-|].
    + exists set'. rewrite lookup_insert_eq. split; [done|]. congruence.
    + exists u. rewrite lookup_insert_ne by done. split; [done|apply rtc_refl].
  - intros k Hn. rewrite lookup_insert_ne by congruence. done.
Qed.

Lemma moves_same_sets s s' :
  maxTaskAttempts s' = maxTaskAttempts s -> runID s' = runID s -> sets s' = sets s -> moves s s'.
Proof. intros Em Er Es. split; [done|done| |]; rewrite Es; eauto using rtc_refl. Qed.

(** ** Every method keeps the invariant *)

(** The methods' guarantee: the invariant, and moves of the sets. *)
Definition keeps (s s' : scheduler) : Prop := sched_inv s' /\ moves s s'.

Lemma keeps_trans s1 s2 s3 : keeps s1 s2 -> (sched_inv s2 -> keeps s2 s3) -> keeps s1 s3.
Proof. intros [H1 M1] H. destruct (H H1) as [? M2]. split; [done|by transitivity s2]. Qed.

Lemma keeps_refl s : sched_inv s -> keeps s s.
Proof. by split. Qed.

Lemma finish_set_kept err set :
  fs_tasks (finish_set err set) = fs_tasks set /\ fs_key (finish_set err set) = fs_key set /\
  fs_inputs (finish_set err set) = fs_inputs set /\ fs_terminal (finish_set err set) = true.
Proof. unfold finish_set. destruct (fs_terminal set) eqn:E; cbn; auto. Qed.

Lemma finish_set_moves max err set : rtc (set_step max) set (finish_set (Some err) set).
Proof.
  destruct (fs_terminal set) eqn:E; [|by apply rtc_once, ss_finish].
  unfold finish_set. rewrite E. apply rtc_refl.
Qed.

Lemma set_steps_ok max set set' : set_ok max set -> rtc (set_step max) set set' -> set_ok max set'.
Proof. intros H Hs. induction Hs; eauto using set_step_ok. Qed.

Lemma finish_keeps s key err : sched_inv s -> keeps s (finish key (Some err) s).
Proof.
  intros H. unfold finish. destruct (sets s !! key) as [set|] eqn:Hk.
  - rewrite (alter_put _ _ set) by done. destruct (finish_set_kept (Some err) set) as (? & ? & ? & ?).
    split.
    + eapply inv_put; [done|done| |done..].
      eapply set_steps_ok; [apply (inv_sets _ H _ _ Hk)|apply finish_set_moves].
    + eapply (moves_put s _ key set); [done..|apply finish_set_moves].
  - assert (E : set_sets (alter (finish_set (Some err)) key) s = s).
    { destruct s. unfold set_sets. cbn in *. f_equal. apply map_eq. intros k.
      rewrite lookup_alter. case_decide; [|done]. subst k. by rewrite Hk. }
    rewrite E. by apply keeps_refl.
Qed.

(** *** Offers *)

(** What the loops of [OfferResources] keep, for the worker offering. *)
Definition offer_good (s0 : scheduler) (id : WorkerID) (o : offer) : Prop :=
  let '(s, available, _) := o in
  keeps s0 s /\ closed s = closed s0 /\ exists w, workers s !! id = Some w /\
    (0 < available -> Z.of_nat (size (wk_reserved w)) + available <= wk_TotalSlots w /\
                      (nextAttempt s + Z.to_N available < 2 ^ 64)%N).

Lemma is_live_Some s key :
  is_live s key = true <-> exists set, sets s !! key = Some set /\ fs_terminal set = false.
Proof.
  unfold is_live. destruct (sets s !! key) as [set|]; [|naive_solver].
  rewrite negb_true_iff. naive_solver.
Qed.

(** Induction over the nested loops of [OfferResources]. *)
Section offer_ind.

Context (ctxErr : taskSetKey -> option error) (id : WorkerID) (P : offer -> Prop).
Context (Hassign : forall s available assignments key set i t,
  P (s, available, assignments) -> 0 < available -> sets s !! key = Some set ->
  fs_terminal set = false -> fs_tasks set !! i = Some t -> lt_state t = TaskPending ->
  P (assign s id key i (newAssignment s id set t), available - 1,
     assignments ++ [newAssignment s id set t])).
Context (Hfinish : forall s available assignments key err,
  P (s, available, assignments) -> P (finish key (Some err) s, available, assignments)).

Lemma offerTask_ind key o i :
  P o -> is_live o.1.1 key = true ->
  P (offerTask id key o i) /\ is_live (offerTask id key o i).1.1 key = true.
Proof.
  destruct o as [[s available] assignments]. unfold offerTask. cbn.
  destruct (Z.leb_spec available 0) as [|Hpos]; [done|].
  intros HP Hl. pose proof Hl as (set & Hk & Hlive)%is_live_Some.
  unfold get_task. rewrite Hk. cbn.
  destruct (fs_tasks set !! i) as [t|] eqn:Hi; [|done].
  destruct (bool_decide _) eqn:Hp; [|done]. apply bool_decide_eq_true in Hp.
  split; [by eapply Hassign|].
  apply is_live_Some. cbn. rewrite lookup_alter_eq, Hk. eexists. split; [done|]. done.
Qed.

Lemma offerTasks_ind key ids o :
  P o -> is_live o.1.1 key = true -> P (foldl (offerTask id key) o ids).
Proof.
  revert o. induction ids as [|i ids IH]; intros o HP Hl; cbn; [done|].
  destruct (offerTask_ind key o i HP Hl). by apply IH.
Qed.

Lemma offer_ind q o : P o -> P (foldl (offerSet ctxErr id) o q).
Proof.
  revert o. induction q as [|key q IH]; intros o HP; [done|]. apply IH. clear IH.
  destruct o as [[s available] assignments]. unfold offerSet.
  destruct (sets s !! key) as [set|] eqn:Hk; [|done].
  destruct (fs_terminal set) eqn:Hlive; [done|].
  destruct (ctxErr key) as [err|]; [by apply Hfinish|].
  apply offerTasks_ind; [done|]. apply is_live_Some. eauto.
Qed.

End offer_ind.

Lemma offer_good_assign s0 id s available assignments key set i t :
  offer_good s0 id (s, available, assignments) -> 0 < available -> sets s !! key = Some set ->
  fs_terminal set = false -> fs_tasks set !! i = Some t -> lt_state t = TaskPending ->
  offer_good s0 id (assign s id key i (newAssignment s id set t), available - 1,
     assignments ++ [newAssignment s id set t]).
Proof.
  intros ([H M] & Hc & w & Hw & Hroom) Hpos Hk Hlive Hi Hp.
  destruct (Hroom Hpos) as [Hfree Hnext]. split_and!; [split| |].
  - eapply inv_assign; eauto; lia.
  - transitivity s; [done|]. eapply (moves_put s _ key set); [done..| |].
    + cbn. apply map_eq. intros k. rewrite lookup_alter, lookup_insert.
      case_decide; subst; [by rewrite Hk|done].
    + by eapply rtc_once, ss_assign.
  - done.
  - cbn. rewrite lookup_alter_eq, Hw. eexists. split; [done|]. intros Hav. cbn.
    assert (size ({[nextAttempt s]} ∪ wk_reserved w) <= S (size (wk_reserved w)))%nat.
    { rewrite size_union_alt, size_singleton.
      assert (size (wk_reserved w ∖ {[nextAttempt s]}) <= size (wk_reserved w))%nat
        by (apply subseteq_size; set_solver). lia. }
    rewrite u64_id by lia. lia.
Qed.

Lemma offer_good_finish s0 id s available assignments key err :
  offer_good s0 id (s, available, assignments) ->
  offer_good s0 id (finish key (Some err) s, available, assignments).
Proof.
  intros (K & Hc & w & Hw & Hroom). split_and!; [|done|].
  - eapply keeps_trans; [done|]. intros. by apply finish_keeps.
  - exists w. done.
Qed.

Lemma offers_good s0 ctxErr id q o :
  offer_good s0 id o -> offer_good s0 id (foldl (offerSet ctxErr id) o q).
Proof. apply offer_ind; eauto using offer_good_assign, offer_good_finish. Qed.

Lemma compactQueue_keeps s : sched_inv s -> keeps s (compactQueue s).
Proof.
  intros H. split; [|by apply moves_same_sets].
  assert (Hin : forall k, k ∈ List.filter (is_live s) (queue s) <-> k ∈ queue s /\ is_live s k = true).
  { intros k. rewrite !list_elem_of_In. apply filter_In. }
  split; cbn; try apply H.
  - apply NoDup_ListNoDup. apply List.NoDup_filter. apply NoDup_ListNoDup, H.
  - intros k [Hq _]%Hin. by apply H.
  - intros k set Hk Hl. apply Hin. split; [by eapply H|]. apply is_live_Some. eauto.
Qed.

Lemma heartbeat_keeps s id f :
  sched_inv s -> (forall w, wk_ID (f w) = wk_ID w /\ wk_TotalSlots (f w) = wk_TotalSlots w /\
                            wk_reserved (f w) = wk_reserved w) ->
  keeps s (set_workers (alter f id) s).
Proof. intros H Hf. split; [by apply inv_worker|by apply moves_same_sets]. Qed.

Lemma OfferResources_keeps s id free running now ctxErr s' assignments :
  sched_inv s -> OfferResources s id free running now ctxErr = Ok (s', assignments) ->
  (nextAttempt s + Z.to_N free < 2 ^ 64)%N -> keeps s s'.
Proof.
  intros H Hok Hnext. unfold OfferResources in Hok. destruct (closed s); [done|].
  destruct (workers s !! id) as [w|] eqn:Hw; [|done].
  destruct (bool_decide _); [done|].
  apply fail_if_Ok in Hok as [Hcap Hok]. to_prop.
  apply bind_Ok in Hok as (seen & _ & Hok).
  set (s1 := set_workers (alter (with_heartbeat free running now) id) s) in *.
  assert (K1 : keeps s s1) by (by apply heartbeat_keeps).
  assert (G : offer_good s id (foldl (offerSet ctxErr id) (s1, availableSlots w free seen, []) (queue s1))).
  { assert (G1 : offer_good s id (s1, availableSlots w free seen, [])).
    { split_and!; [done|done|]. exists (with_heartbeat free running now w). cbn.
      rewrite lookup_alter_eq, Hw. split; [done|]. intros Hav. unfold availableSlots in *. cbn. lia. }
    by apply offers_good. }
  destruct (foldl _ _ _) as [[s2 av] asg]. injection Hok as <- _. destruct G as (K2 & _).
  eapply keeps_trans; [done|]. intros. by apply compactQueue_keeps.
Qed.

(** *** Reports *)

(** The set of an attempt after its failure, and after its success. *)
Definition failed_set (max : Z) (ctx : option error) (i : nat) (r : TaskAttemptFailure)
    (set : fifoTaskSet) : fifoTaskSet :=
  let set1 := with_task i (task_state TaskFailed) set in
  if fs_terminal set then set1
  else match ctx with
       | Some err => finish_set (Some err) set1
       | None => recordFailure max i r set1
       end.

Definition succeeded_set (ctx : option error) (i : nat) (r : TaskAttemptSuccess)
    (set : fifoTaskSet) : fifoTaskSet :=
  let set1 := with_task i (task_state TaskSucceeded) set in
  if fs_terminal set then set1
  else match ctx with
       | Some err => finish_set (Some err) set1
       | None => acceptSuccess i r set1
       end.

Lemma attempt_id s id a :
  sched_inv s -> attempts s !! id = Some a -> ta_ID (at_Identity (asg_Attempt (aa_assignment a))) = id.
Proof.
  intros H Ha. destruct (inv_attempts _ H _ _ Ha) as (_ & (? & ? & _ & _ & Hto & _) & _).
  destruct Hto as (_ & _ & _ & _ & -> & _). done.
Qed.

Lemma release_retired s id a st set :
  sched_inv s -> attempts s !! id = Some a -> sets s !! aa_set a = Some set ->
  release s a st = retired s id a st (with_task (aa_task a) (task_state st) set).
Proof.
  intros H Ha Hk. unfold release, retired. rewrite (attempt_id s id a) by done.
  f_equal. apply map_eq. intros k. rewrite lookup_alter, lookup_insert.
  case_decide; subst; [by rewrite Hk|done].
Qed.

Lemma put_retired s id a st set set' :
  put_set (aa_set a) set' (retired s id a st set) = retired s id a st set'.
Proof. unfold put_set, set_sets, retired. cbn. by rewrite insert_insert_eq. Qed.

Lemma failAttempt_eq s id a r ctxErr set :
  sched_inv s -> attempts s !! id = Some a -> sets s !! aa_set a = Some set ->
  failAttempt s a r ctxErr =
  Ok (retired s id a TaskFailed
        (failed_set (maxTaskAttempts s) (ctxErr (aa_set a)) (aa_task a) r set)).
Proof.
  intros H Ha Hk. unfold failAttempt. rewrite (release_retired s id a TaskFailed set) by done.
  cbn. rewrite lookup_insert_eq. cbn. unfold failed_set.
  destruct (fs_terminal set); [done|]. destruct (ctxErr (aa_set a)); unfold finish;
    rewrite (alter_put _ _ (with_task (aa_task a) (task_state TaskFailed) set))
      by (cbn; by rewrite lookup_insert_eq);
    by rewrite put_retired.
Qed.

(** The task of a live attempt is running. *)
Lemma live_attempt_task s id a :
  sched_inv s -> attempts s !! id = Some a -> aa_terminal a = false ->
  exists set t, sets s !! aa_set a = Some set /\ fs_tasks set !! aa_task a = Some t /\
    lt_state t = TaskRunning /\ lt_active t = id /\ assigned_to (runID s) set t id (aa_assignment a) /\
    fs_key set = aa_set a /\ set_ok (maxTaskAttempts s) set.
Proof.
  intros H Ha Hl. destruct (inv_attempts _ H _ _ Ha) as (_ & (set & t & Hk & Ht & Hto & Hr) & _).
  destruct (Hr Hl), (inv_sets _ H _ _ Hk) as (? & ? & _). exists set, t. by split_and!.
Qed.

Lemma retired_keeps s id a st set g set' :
  sched_inv s -> attempts s !! id = Some a -> aa_terminal a = false ->
  sets s !! aa_set a = Some set -> set_step (maxTaskAttempts s) set set' ->
  fs_tasks set' = alter g (aa_task a) (fs_tasks set) ->
  (forall t, lt_task (g t) = lt_task t /\ lt_state (g t) <> TaskRunning) ->
  keeps s (retired s id a st set').
Proof.
  intros H Ha Hl Hk Hst Et Hg. destruct (set_step_kept _ _ _ Hst) as (Ek & Ei & _).
  split.
  - eapply inv_retired; eauto.
    + eapply set_step_ok; [apply (inv_sets _ H _ _ Hk)|done].
    + intros Ht. by destruct (set_step_terminal _ _ _ Ht Hst) as (? & _).
  - eapply (moves_put s _ (aa_set a) set set'); [done..|by apply rtc_once].
Qed.

Lemma failAttempt_keeps s id a r ctxErr :
  sched_inv s -> attempts s !! id = Some a -> aa_terminal a = false ->
  exists s', failAttempt s a r ctxErr = Ok s' /\ keeps s s' /\ closed s' = closed s.
Proof.
  intros H Ha Hl. destruct (live_attempt_task s id a H Ha Hl) as (set & t & Hk & Ht & Hrun & _).
  rewrite (failAttempt_eq s id a r ctxErr set) by done. eexists. split; [done|]. split; [|done].
  unfold failed_set. destruct (fs_terminal set) eqn:Hterm.
  - eapply (retired_keeps s id a TaskFailed set (task_state TaskFailed)); try done.
    eapply ss_late; eauto.
  - destruct (ctxErr (aa_set a)) as [err|].
    + eapply (retired_keeps s id a TaskFailed set (task_state TaskFailed)); try done.
      * eapply ss_cancel; eauto.
      * unfold finish_set. cbn. by rewrite Hterm.
    + destruct ((bool_decide (tf_Kind r = FailureExecution) ||
                 bool_decide (tf_Kind r = FailureWorkerLost)) && (lt_attempts t <? maxTaskAttempts s)) eqn:Hrq.
      * eapply (retired_keeps s id a TaskFailed set
                  (fun t => task_state TaskPending (task_state TaskFailed t))); try done.
        -- by eapply ss_fail.
        -- unfold recordFailure. cbn. rewrite list_lookup_alter_eq, Ht. cbn. rewrite Hrq. cbn.
           by rewrite alter_compose.
      * eapply (retired_keeps s id a TaskFailed set (task_state TaskFailed)); try done.
        -- by eapply ss_fail.
        -- unfold recordFailure. cbn. rewrite list_lookup_alter_eq, Ht. cbn. rewrite Hrq.
           unfold finish_set. cbn. by rewrite Hterm.
Qed.

(** What an accepted report identifies. *)
Definition report_matches (a : assignedAttempt) (job : JobID) (stage : StageID)
    (identity : TaskAttemptIdentity) (partition : PartitionID) (worker : WorkerID) : Prop :=
  let g := aa_assignment a in
  asg_JobID g = job /\ asg_StageID g = stage /\ at_Identity (asg_Attempt g) = identity /\
  t_PartitionID (at_Task (asg_Attempt g)) = partition /\ attempt_worker a = worker.

Lemma validateReport_spec s job stage identity partition worker r :
  sched_inv s -> validateReport s job stage identity partition worker = Ok r ->
  exists a, attempts s !! ta_ID identity = Some a /\
    report_matches a job stage identity partition worker /\
    r = if aa_terminal a then None else Some a.
Proof.
  intros H Hv. unfold validateReport in Hv. apply fail_if_Ok in Hv as [_ Hv].
  apply fail_if_Ok in Hv as [_ Hv].
  destruct (attempts s !! ta_ID identity) as [a|] eqn:Ha; [|done].
  apply fail_if_Ok in Hv as [Hm Hv]. rewrite !orb_false_iff, !negb_false_iff in Hm.
  destruct Hm as ((((Hj & Hs) & Hi) & Hp) & Hw). to_prop.
  apply N.eqb_eq in Hj, Hs. exists a. split; [done|]. split; [done|].
  destruct (inv_attempts _ H _ _ Ha) as (_ & (set & t & Hk & Ht & _ & Hr) & _).
  unfold get_task in Hv. rewrite Hk in Hv. cbn in Hv. rewrite Ht in Hv.
  destruct (aa_terminal a); cbn in Hv; [congruence|].
  destruct (Hr eq_refl) as [_ Ea]. rewrite Ea, N.eqb_refl in Hv. cbn in Hv. congruence.
Qed.

(** What [ReportSuccess] does once the report is validated. *)
Lemma success_effect s id a r ctxErr set :
  sched_inv s -> attempts s !! id = Some a -> sets s !! aa_set a = Some set ->
  (let s := release s a TaskSucceeded in
   match sets s !! aa_set a with
   | None => Err panic_nil
   | Some set =>
       if fs_terminal set then Ok s
       else match ctxErr (aa_set a) with
            | Some err => Ok (finish (aa_set a) (Some err) s)
            | None => Ok (set_sets (alter (acceptSuccess (aa_task a) r) (aa_set a)) s)
            end
   end) = Ok (retired s id a TaskSucceeded (succeeded_set (ctxErr (aa_set a)) (aa_task a) r set)).
Proof.
  intros H Ha Hk. rewrite (release_retired s id a TaskSucceeded set) by done.
  cbn. rewrite lookup_insert_eq. cbn. unfold succeeded_set.
  destruct (fs_terminal set); [done|]. destruct (ctxErr (aa_set a)); unfold finish;
    rewrite (alter_put _ _ (with_task (aa_task a) (task_state TaskSucceeded) set))
      by (cbn; by rewrite lookup_insert_eq);
    by rewrite put_retired.
Qed.

Lemma success_keeps s id a r ctx set t :
  sched_inv s -> attempts s !! id = Some a -> aa_terminal a = false ->
  sets s !! aa_set a = Some set -> fs_tasks set !! aa_task a = Some t -> lt_state t = TaskRunning ->
  success_of set (aa_task a) t r ->
  keeps s (retired s id a TaskSucceeded (succeeded_set ctx (aa_task a) r set)).
Proof.
  intros H Ha Hl Hk Ht Hrun Hs. unfold succeeded_set. destruct (fs_terminal set) eqn:Hterm.
  - eapply (retired_keeps s _ a TaskSucceeded set (task_state TaskSucceeded)); try done.
    eapply ss_late; eauto.
  - destruct ctx as [err|].
    + eapply (retired_keeps s _ a TaskSucceeded set (task_state TaskSucceeded)); try done.
      * eapply ss_cancel; eauto.
      * unfold finish_set. cbn. by rewrite Hterm.
    + destruct (acceptSuccess_fields (aa_task a) r set Hterm) as (Et & _).
      eapply (retired_keeps s _ a TaskSucceeded set
                (fun t => task_output (ts_Output r) (task_state TaskSucceeded t))); try done.
      eapply ss_accept; eauto.
Qed.

Lemma ReportSuccess_keeps s report ctxErr s' :
  sched_inv s -> ReportSuccess s report ctxErr = Ok s' -> keeps s s'.
Proof.
  intros H Hok. unfold ReportSuccess in Hok. apply bind_Ok in Hok as (r & Hv & Hok).
  destruct (validateReport_spec _ _ _ _ _ _ _ H Hv) as (a & Ha & Hm & ->).
  destruct (aa_terminal a) eqn:Hl; [injection Hok as <-; by apply keeps_refl|].
  apply bind_unit_Ok in Hok as [Hval Hok]. rewrite map_err_Ok, ValidateFor_spec in Hval.
  destruct (live_attempt_task s _ a H Ha Hl) as (set & t & Hk & Ht & Hrun & _ & Hto & Hkey & Hset).
  pose proof (eq_trans (eq_sym (success_effect s _ a report ctxErr set H Ha Hk)) Hok) as E. injection E as <-.
  eapply success_keeps; try done.
  destruct Hm as (Hj & Hs & Hi & Hp & _), Hto as (Hr1 & _ & Hj1 & Hs1 & Hi1 & Ht1).
  rewrite Ht1 in *. unfold success_of. rewrite <- Hj, <- Hs, <- Hi, Hi1. cbn.
  split_and!; auto. exists (asg_RunID (aa_assignment a)).
  rewrite <- Hi1, <- Hj1. exact Hval.
Qed.

Lemma ReportFailure_keeps s report ctxErr s' :
  sched_inv s -> ReportFailure s report ctxErr = Ok s' -> keeps s s'.
Proof.
  intros H Hok. unfold ReportFailure in Hok. apply fail_if_Ok in Hok as [_ Hok].
  apply bind_Ok in Hok as (r & Hv & Hok).
  destruct (validateReport_spec _ _ _ _ _ _ _ H Hv) as (a & Ha & _ & ->).
  destruct (aa_terminal a) eqn:Hl; [injection Hok as <-; by apply keeps_refl|].
  apply bind_unit_Ok in Hok as [_ Hok]. apply bind_unit_Ok in Hok as [_ Hok].
  destruct (failAttempt_keeps s _ a report ctxErr H Ha Hl) as (s2 & E & K & _). congruence.
Qed.

(** *** Worker expiry *)

Lemma alter_reserved_compose f g id (ws : gmap WorkerID workerState) :
  alter (with_reserved f) id (alter (with_reserved g) id ws) = alter (with_reserved (fun r => f (g r))) id ws.
Proof.
  apply map_eq. intros k. rewrite !lookup_alter. case_decide; [|done].
  rewrite decide_True by done. by destruct (ws !! id).
Qed.

(** Retiring reservations of one worker succeeds and frees exactly those. *)
Lemma retireAll_spec ctxErr id ids s :
  sched_inv s -> NoDup ids ->
  (forall aid, aid ∈ ids -> exists a, attempts s !! aid = Some a /\ aa_terminal a = false /\
                                      attempt_worker a = id) ->
  exists s', retireAll ctxErr id ids s = Ok s' /\ keeps s s' /\ closed s' = closed s /\
    workers s' = alter (with_reserved (fun r => r ∖ list_to_set ids)) id (workers s) /\
    (forall aid, is_Some (attempts s' !! aid) <-> is_Some (attempts s !! aid)).
Proof.
  intros H Hn. revert s H. induction Hn as [|aid ids Hnin _ IH]; intros s H Hids; cbn.
  - exists s. split_and!; auto using keeps_refl. apply map_eq. intros k. rewrite lookup_alter.
    case_decide; [|done]. subst k. destruct (workers s !! id) as [w|]; [|done]. cbn. f_equal. destruct w.
    unfold with_reserved. cbn. f_equal. set_solver.
  - destruct (Hids aid ltac:(set_solver)) as (a & Ha & Hl & Hw). rewrite Ha.
    destruct (failAttempt_keeps s aid a (lostReport (aa_assignment a) id) (ctxErr aid) H Ha Hl)
      as (s1 & E & [H1 M1] & Hc). rewrite E. cbn.
    destruct (live_attempt_task s aid a H Ha Hl) as (set & t & Hk & _).
    rewrite (failAttempt_eq s aid a _ _ set) in E by done. injection E as <-.
    edestruct IH as (s' & E' & [H' M'] & Hc' & Hws & Hat); [exact H1| |].
    { intros bid Hb. destruct (Hids bid ltac:(set_solver)) as (b & Hb' & ?).
      exists b. cbn. rewrite lookup_alter_ne; [done|]. intros <-. done. }
    exists s'. split; [done|]. split; [split; [done|by etransitivity]|]. split; [congruence|].
    split.
    + rewrite Hws. cbn. rewrite Hw, alter_reserved_compose. apply map_eq. intros k.
      rewrite !lookup_alter. case_decide; [|done]. destruct (workers s !! id) as [w|]; [|done]. cbn. f_equal.
      unfold with_reserved. f_equal. set_solver.
    + intros bid. rewrite Hat. cbn. rewrite lookup_alter_is_Some. done.
Qed.

(** A worker that is lost: fenced, and holding nothing. *)
Definition lost_worker (w : workerState) : workerState := with_reserved (fun _ => ∅) (with_status WorkerLost w).

Lemma loseWorker_spec ctxErr s id w :
  sched_inv s -> workers s !! id = Some w ->
  exists s', loseWorker ctxErr s id = Ok s' /\ keeps s s' /\ closed s' = closed s /\
    workers s' = <[id := lost_worker w]> (workers s).
Proof.
  intros H Hw. unfold loseWorker. rewrite Hw.
  set (s1 := set_workers (alter (with_status WorkerLost) id) s).
  assert (K1 : keeps s s1) by by apply heartbeat_keeps.
  destruct (inv_workers _ H _ _ Hw) as (_ & _ & _ & Hr).
  destruct (retireAll_spec ctxErr id (merge_sort N.le (elements (wk_reserved w))) s1) as (s' & E & K & Hc & Hws & _).
  - apply K1.
  - rewrite merge_sort_Permutation. apply NoDup_elements.
  - intros aid. rewrite merge_sort_Permutation, elem_of_elements. apply Hr.
  - exists s'. split; [done|]. split; [eapply keeps_trans; [done|auto]|]. split; [done|].
    rewrite Hws. cbn. apply map_eq. intros k. rewrite lookup_alter, lookup_insert. case_decide as Ek.
    + subst k. rewrite lookup_alter_eq, Hw. cbn. f_equal. unfold lost_worker, with_reserved. cbn. f_equal.
      apply set_eq. intros aid. rewrite elem_of_difference, elem_of_list_to_set, merge_sort_Permutation, elem_of_elements.
      set_solver.
    + by rewrite lookup_alter_ne.
Qed.

Lemma loseWorkers_spec ctxErr ids s :
  sched_inv s -> NoDup ids -> (forall id, id ∈ ids -> is_Some (workers s !! id)) ->
  exists s', foldl (fun s id => s ← s; loseWorker ctxErr s id) (Ok s) ids = Ok s' /\ keeps s s' /\
    closed s' = closed s /\
    forall id, workers s' !! id =
      if decide (id ∈ ids) then lost_worker <$> workers s !! id else workers s !! id.
Proof.
  intros H Hn. revert s H. induction Hn as [|id ids Hnin _ IH]; intros s H Hids; cbn.
  - exists s. split; [done|]. split; [by apply keeps_refl|]. split; [done|]. intros id. case_decide; [set_solver|done].
  - destruct (Hids id ltac:(set_solver)) as [w Hw].
    destruct (loseWorker_spec ctxErr s id w H Hw) as (s1 & -> & [H1 M1] & Hc1 & Hw1).
    destruct (IH s1 H1) as (s' & E & [H' M'] & Hc & Hws).
    { intros id' Hin. rewrite Hw1. apply lookup_insert_is_Some'. right. apply Hids. set_solver. }
    exists s'. split; [done|]. split; [split; [done|by etransitivity]|]. split; [congruence|].
    intros id'. rewrite Hws, Hw1. destruct (decide (id' = id)) as [->|Hne].
    + rewrite decide_False by done. rewrite lookup_insert_eq, decide_True by set_solver. by rewrite Hw.
    + rewrite lookup_insert_ne by done. do 2 case_decide; set_solver.
Qed.

Lemma elem_of_expiredWorkers s now timeout id :
  id ∈ expiredWorkers s now timeout <->
  exists w, workers s !! id = Some w /\ wk_Status w = WorkerAlive /\ timeout <= now - wk_LastHeartbeat w.
Proof.
  unfold expiredWorkers. rewrite merge_sort_Permutation, list_elem_of_In, filter_In, <- list_elem_of_In,
    elem_of_elements, elem_of_dom. unfold isExpired.
  destruct (workers s !! id) as [w|].
  - rewrite andb_true_iff, bool_decide_eq_true, Z.leb_le. naive_solver.
  - split; [intros [[? ?] ?]; done|naive_solver].
Qed.

Lemma ExpireWorkers_spec s now timeout ctxErr :
  sched_inv s -> 0 < timeout -> closed s = false ->
  exists s', ExpireWorkers s now timeout ctxErr = Ok (s', expiredWorkers s now timeout) /\ keeps s s' /\
    closed s' = false /\
    forall id, workers s' !! id =
      if decide (id ∈ expiredWorkers s now timeout) then lost_worker <$> workers s !! id
      else workers s !! id.
Proof.
  intros H Ht Hc. unfold ExpireWorkers. destruct (Z.leb_spec timeout 0); [lia|]. rewrite Hc.
  destruct (loseWorkers_spec ctxErr (expiredWorkers s now timeout) s H) as (s1 & -> & K & Hc1 & Hws).
  - unfold expiredWorkers. rewrite merge_sort_Permutation. apply NoDup_ListNoDup, List.NoDup_filter,
      NoDup_ListNoDup, NoDup_elements.
  - intros id (w & Hw & _)%elem_of_expiredWorkers. eauto.
  - cbn. eexists. split; [done|]. split; [eapply keeps_trans; [done|apply compactQueue_keeps]|].
    split; [cbn; congruence|]. exact Hws.
Qed.
