(* ===== verification/FifoSystem.v ===== *)
(** * FifoSystem: every reachable state of the scheduler and its submissions

    The remaining methods (registration, submission, draining, closing), the
    fencing of lost workers, and the invariant of [system] by induction on
    [fifo_reachable]. *)

From S2P Require Import Prelude Bytes Plan Stages Shuffle Reports Fifo FifoProofs FifoInvariant.
#[local] Open Scope Z_scope.

(** ** Lost workers hold no slot *)

Definition lost_inv (s : scheduler) : Prop :=
  forall id w, workers s !! id = Some w -> wk_Status w = WorkerLost -> wk_reserved w = ∅.

Lemma lost_inv_alter f id s s' :
  lost_inv s -> workers s' = alter f id (workers s) ->
  (forall w, wk_Status (f w) = wk_Status w /\ (wk_reserved w = ∅ -> wk_reserved (f w) = ∅)) ->
  lost_inv s'.
Proof.
  intros H Ew Hf k w. rewrite Ew, lookup_alter_Some. intros [(<- & v & Hv & ->)|[_ Hw]] Hs; [|by eapply H].
  destruct (Hf v) as [E Hr]. apply Hr. eapply H; [done|congruence].
Qed.

Lemma lost_inv_failAttempt s id a r ctxErr s' :
  sched_inv s -> attempts s !! id = Some a -> aa_terminal a = false -> lost_inv s ->
  failAttempt s a r ctxErr = Ok s' -> lost_inv s'.
Proof.
  intros H Ha Hl Hlost E. destruct (live_attempt_task s id a H Ha Hl) as (set & t & Hk & _).
  rewrite (failAttempt_eq s id a r ctxErr set) in E by done. injection E as <-.
  eapply lost_inv_alter; [done|done|]. intros w. cbn. split; [done|]. set_solver.
Qed.

Lemma lost_inv_ReportFailure s r ctxErr s' :
  sched_inv s -> lost_inv s -> ReportFailure s r ctxErr = Ok s' -> lost_inv s'.
Proof.
  intros H Hlost Hok. unfold ReportFailure in Hok. apply fail_if_Ok in Hok as [_ Hok].
  apply bind_Ok in Hok as (v & Hv & Hok).
  destruct (validateReport_spec _ _ _ _ _ _ _ H Hv) as (a & Ha & _ & ->).
  destruct (aa_terminal a) eqn:Hl; [injection Hok as <-; done|].
  apply bind_unit_Ok in Hok as [_ Hok]. apply bind_unit_Ok in Hok as [_ Hok].
  by eapply lost_inv_failAttempt.
Qed.

Lemma lost_inv_ReportSuccess s r ctxErr s' :
  sched_inv s -> lost_inv s -> ReportSuccess s r ctxErr = Ok s' -> lost_inv s'.
Proof.
  intros H Hlost Hok. unfold ReportSuccess in Hok. apply bind_Ok in Hok as (v & Hv & Hok).
  destruct (validateReport_spec _ _ _ _ _ _ _ H Hv) as (a & Ha & _ & ->).
  destruct (aa_terminal a) eqn:Hl; [injection Hok as <-; done|].
  apply bind_unit_Ok in Hok as [_ Hok].
  assert (Hw : exists wid f, workers s' = alter (with_reserved f) wid (workers s) /\ forall r, f r ⊆ r).
  { unfold release in Hok. cbn in Hok.
    eexists _, (fun r => r ∖ {[_]}). repeat case_in Hok; try discriminate Hok; injection Hok as <-; cbn;
      (split; [done|set_solver]). }
  destruct Hw as (wid & f & Hw & Hf). eapply lost_inv_alter; [done|exact Hw|].
  intros w. cbn. split; [done|]. intros E. specialize (Hf (wk_reserved w)). set_solver.
Qed.

Lemma lost_inv_OfferResources s id free running now ctxErr s' assignments :
  lost_inv s -> OfferResources s id free running now ctxErr = Ok (s', assignments) -> lost_inv s'.
Proof.
  intros H Hok. unfold OfferResources in Hok. destruct (closed s); [done|].
  destruct (workers s !! id) as [w|] eqn:Hw; [|done].
  destruct (bool_decide _) eqn:Hs; [done|]. apply bool_decide_eq_false in Hs.
  apply fail_if_Ok in Hok as [_ Hok]. apply bind_Ok in Hok as (seen & _ & Hok).
  set (P := fun o : offer => lost_inv o.1.1 /\
              forall w, workers o.1.1 !! id = Some w -> wk_Status w <> WorkerLost).
  assert (HP : P (foldl (offerSet ctxErr id)
    (set_workers (alter (with_heartbeat free running now) id) s, availableSlots w free seen, []) (queue s))).
  { apply (offer_ind ctxErr id P); unfold P; clear -H Hw Hs; cbn.
    - intros s2 available assignments key set i t [Hl Ha] _ _ _ _ _. split.
      + intros k x. cbn. rewrite lookup_alter_Some. intros [(<- & v & Hv & ->)|[_ Hx]] Hst.
        * by destruct (Ha _ Hv).
        * by eapply Hl.
      + intros x. rewrite lookup_alter_eq. intros (v & Hv & ->)%fmap_Some. cbn. by apply Ha.
    - done.
    - split.
      + by eapply lost_inv_alter.
      + intros x. rewrite lookup_alter_eq, Hw. intros [= <-]. done. }
  unfold set_workers at 1 in Hok. cbn in Hok.
  destruct (foldl _ _ _) as [[s2 av] asg]. injection Hok as <- _. apply HP.
Qed.

(** ** Registration, submission and closing *)

Lemma RegisterWorker_keeps s id slots now s' :
  sched_inv s -> RegisterWorker s id slots now = Ok s' -> keeps s s'.
Proof.
  intros H Hok. unfold RegisterWorker, register in Hok. apply fail_if_Ok in Hok as [_ Hok].
  apply bind_Ok in Hok as (ws & Hreg & Hok). injection Hok as <-.
  apply fail_if_Ok in Hreg as [Hv Hreg]. to_prop.
  split; [|by apply moves_same_sets].
  destruct (workers s !! id) as [w|] eqn:Hw.
  - apply fail_if_Ok in Hreg as [_ Hreg]. apply fail_if_Ok in Hreg as [_ Hreg].
    injection Hreg as <-. destruct s; exact H.
  - injection Hreg as <-. split; cbn; try apply H.
    + intros aid a Ha. destruct (inv_attempts _ H _ _ Ha) as (? & ? & (x & Hx & ?)).
      split_and!; [done|done|]. cbn. exists x. rewrite lookup_insert_ne by congruence. done.
    + intros wid x. rewrite lookup_insert_Some. intros [[<- <-]|[_ Hx]]; [|by apply H].
      unfold worker_ok. cbn. rewrite size_empty. split_and!; [done|lia|lia|set_solver].
Qed.

Lemma lost_inv_RegisterWorker s id slots now s' :
  lost_inv s -> RegisterWorker s id slots now = Ok s' -> lost_inv s'.
Proof.
  intros H Hok. unfold RegisterWorker, register in Hok. apply fail_if_Ok in Hok as [_ Hok].
  apply bind_Ok in Hok as (ws & Hreg & Hok). injection Hok as <-.
  apply fail_if_Ok in Hreg as [_ Hreg].
  destruct (workers s !! id) as [w|] eqn:Hw.
  - apply fail_if_Ok in Hreg as [_ Hreg]. apply fail_if_Ok in Hreg as [_ Hreg].
    injection Hreg as <-. exact H.
  - injection Hreg as <-. intros k x. cbn. rewrite lookup_insert_Some.
    intros [[<- <-]|[_ Hx]]; [done|by eapply H].
Qed.

(** The task sets [prepareTaskSet] accepts. *)
Definition task_set_ok (input : TaskSet) : Prop :=
  tset_Tasks input <> [] /\
  match tset_ShuffleInputs input with Some inputs => snapshot_ok inputs | None => True end /\
  Forall (fun t => t_StageID t = tset_StageID input /\ 0 <= t_PartitionID t) (tset_Tasks input) /\
  NoDup (t_ID <$> tset_Tasks input) /\ NoDup (t_PartitionID <$> tset_Tasks input).

Definition pending_task (t : Task) : logicalTaskState := mkTaskState t TaskPending 0%N zeroOutput 0.

Lemma Forall_fresh (a : TaskID) (b : PartitionID) ids ps (tasks : list Task) :
  Forall (fun t => t_ID t ∉ ({[a]} ∪ ids : gset N) /\ t_PartitionID t ∉ ({[b]} ∪ ps : gset Z)) tasks <->
  Forall (fun t => t_ID t ∉ ids /\ t_PartitionID t ∉ ps) tasks /\
  a ∉ (t_ID <$> tasks) /\ b ∉ (t_PartitionID <$> tasks).
Proof.
  induction tasks as [|t tasks IH]; cbn.
  - split; [intros _; split_and!; [constructor|set_solver|set_solver]|by constructor].
  - rewrite !Forall_cons, IH, !not_elem_of_cons, !not_elem_of_union, !not_elem_of_singleton.
    intuition congruence.
Qed.

Lemma prepareTasks_spec input ids partitions acc tasks l :
  prepareTasks input ids partitions acc tasks = Ok l <->
  l = acc ++ (pending_task <$> tasks) /\
  Forall (fun t => t_StageID t = tset_StageID input /\ 0 <= t_PartitionID t) tasks /\
  NoDup (t_ID <$> tasks) /\ NoDup (t_PartitionID <$> tasks) /\
  Forall (fun t => t_ID t ∉ ids /\ t_PartitionID t ∉ partitions) tasks.
Proof.
  revert ids partitions acc. induction tasks as [|t tasks IH]; intros ids partitions acc; cbn.
  - rewrite app_nil_r. split; [intros [= <-]; split_and!; by constructor|by intros (-> & _)].
  - rewrite fail_if_Ok, !orb_false_iff, negb_false_iff, N.eqb_eq, Z.ltb_ge, !bool_decide_eq_false, IH.
    rewrite !Forall_cons, !NoDup_cons, <- app_assoc. cbn.
    rewrite Forall_fresh. tauto.
Qed.

#[export] Instance partition_le_total : Total partition_le.
Proof. intros a b. unfold partition_le. lia. Qed.
#[export] Instance partition_le_trans : Transitive partition_le.
Proof. intros a b c. unfold partition_le. lia. Qed.

Lemma prepareTaskSet_spec input set :
  prepareTaskSet input = Ok set <->
  task_set_ok input /\
  set = mkSet (tset_ShuffleInputs input)
          (mkKey (tset_JobID input) (tset_StageID input) (tset_StageAttemptID input)) 0
          (merge_sort partition_le (pending_task <$> tset_Tasks input))
          (Z.of_nat (length (tset_Tasks input))) [] false false None.
Proof.
  unfold prepareTaskSet, task_set_ok. rewrite fail_if_Ok, bind_unit_Ok, bind_Ok, Nat.eqb_neq.
  assert (Hin : match tset_ShuffleInputs input with Some inputs => validateSnapshot inputs | None => Ok tt end
                = Ok tt <-> match tset_ShuffleInputs input with Some inputs => snapshot_ok inputs | None => True end).
  { destruct (tset_ShuffleInputs input); [apply validateSnapshot_spec|done]. }
  assert (Hlen : length (tset_Tasks input) <> 0%nat <-> tset_Tasks input <> []).
  { destruct (tset_Tasks input); cbn; naive_solver lia. }
  rewrite Hin, Hlen. setoid_rewrite prepareTasks_spec. cbn. split.
  - intros (? & ? & l & (-> & ? & ? & ? & ?) & [= <-]). done.
  - intros ((? & ? & ? & ? & ?) & ->). split_and!; [done|done|].
    eexists. split; [split_and!; [reflexivity|done..|]|done].
    apply Forall_forall. set_solver.
Qed.

(** What a submission starts from. *)
Definition new_set (input : TaskSet) (sequence : N) : fifoTaskSet :=
  mkSet (tset_ShuffleInputs input)
    (mkKey (tset_JobID input) (tset_StageID input) (tset_StageAttemptID input)) sequence
    (merge_sort partition_le (pending_task <$> tset_Tasks input))
    (Z.of_nat (length (tset_Tasks input))) [] false false None.

Lemma submitTaskSet_spec s input observer ctxErr s' key :
  submitTaskSet s input observer ctxErr = Ok (s', key) <->
  observer = true /\ task_set_ok input /\ closed s = false /\ ctxErr = None /\
  key = mkKey (tset_JobID input) (tset_StageID input) (tset_StageAttemptID input) /\
  sets s !! key = None /\
  s' = mkScheduler (maxTaskAttempts s) (runID s) (workers s)
         (<[key := new_set input (nextSequence s)]> (sets s)) (queue s ++ [key]) (attempts s)
         (u64 (nextSequence s + 1)) (nextAttempt s) (closed s).
Proof.
  unfold submitTaskSet. rewrite fail_if_Ok, negb_false_iff, bind_Ok.
  setoid_rewrite prepareTaskSet_spec. setoid_rewrite fail_if_Ok. split.
  - intros (-> & set & (Hok & ->) & Hc & Hk). cbn in Hk.
    destruct ctxErr; [done|]. apply fail_if_Ok in Hk as [Hs [= <- <-]].
    apply bool_decide_eq_false, eq_None_not_Some in Hs. done.
  - intros (-> & Hok & Hc & -> & -> & Hs & ->). split; [done|]. eexists. split; [done|]. cbn.
    split; [done|]. apply fail_if_Ok. split; [|done].
    apply bool_decide_eq_false, eq_None_not_Some. done.
Qed.

Lemma new_set_pending input sequence i t :
  fs_tasks (new_set input sequence) !! i = Some t ->
  exists u, u ∈ tset_Tasks input /\ t = pending_task u.
Proof.
  intros Ht%list_elem_of_lookup_2. cbn in Ht. rewrite merge_sort_Permutation in Ht.
  apply list_elem_of_fmap in Ht as (u & -> & Hu). eauto.
Qed.

Lemma filter_all {A} (f : A -> bool) l :
  (forall x, x ∈ l -> f x = true) -> List.filter f l = l.
Proof.
  induction l as [|x l IH]; intros H; cbn; [done|].
  rewrite H by set_solver. rewrite IH; [done|]. set_solver.
Qed.

Lemma filter_none {A} (f : A -> bool) l :
  (forall x, x ∈ l -> f x = false) -> List.filter f l = [].
Proof.
  induction l as [|x l IH]; intros H; cbn; [done|].
  rewrite H by set_solver. apply IH. set_solver.
Qed.

Lemma new_set_ok max input sequence :
  0 < max -> task_set_ok input ->
  set_ok max (new_set input sequence) /\ inputs_ok (new_set input sequence) /\
  log_ok (new_set input sequence) [].
Proof.
  intros Hmax (Hne & Hin & Hall & _ & Hnd).
  assert (Hst : forall t, t ∈ fs_tasks (new_set input sequence) -> lt_state t = TaskPending).
  { intros t [i Hi]%list_elem_of_lookup_1. by apply new_set_pending in Hi as (u & _ & ->). }
  split_and!; [split|done|split].
  - cbn. rewrite merge_sort_Permutation, <- list_fmap_compose. exact Hnd.
  - cbn. apply StronglySorted_merge_sort; apply _.
  - intros i t (u & Hu & ->)%new_set_pending. cbn.
    destruct (proj1 (Forall_forall _ _) Hall u Hu). split_and!; [done|lia|lia|lia].
  - intros _. split_and!; [done| | |].
    + cbn. destruct (tset_Tasks input); cbn; [done|lia].
    + rewrite filter_all.
      * cbn. by rewrite merge_sort_Permutation, length_fmap.
      * intros t Ht. unfold unsucceeded, succeeded. by rewrite (Hst t Ht).
    + intros i t Ht. rewrite (Hst t); [done|]. by eapply list_elem_of_lookup_2.
  - done.
  - cbn. apply submseteq_nil_l.
  - intros _. unfold results. rewrite filter_none; [done|].
    intros t Ht. unfold succeeded. by rewrite (Hst t Ht).
  - intros r. cbn. set_solver.
  - intros r. set_solver.
Qed.

Lemma submitTaskSet_inv s input observer s' key :
  sched_inv s -> submitTaskSet s input observer None = Ok (s', key) -> sched_inv s'.
Proof.
  intros H (_ & Hin & Hc & _ & -> & Hs & ->)%submitTaskSet_spec.
  destruct (new_set_ok (maxTaskAttempts s) input (nextSequence s) (inv_max _ H) Hin) as (Hok & Hi & _).
  set (key := mkKey _ _ _) in *. split; cbn; try apply H.
  - intros k u. rewrite lookup_insert_Some. intros [[<- <-]|[_ Hu]]; [done|by apply H].
  - intros k u i t. rewrite lookup_insert_Some. intros [[<- <-]|[_ Hu]]; [|by eapply H].
    intros (v & _ & ->)%new_set_pending. done.
  - intros id a Ha. destruct (inv_attempts _ H _ _ Ha) as (? & (u & t & Hu & ?) & ?).
    split_and!; [done| |done]. exists u, t. cbn. rewrite lookup_insert_ne by congruence. done.
  - apply NoDup_app. split_and!; [apply H| |apply NoDup_singleton].
    intros k Hk ->%list_elem_of_singleton. destruct (inv_queued _ H _ Hk). congruence.
  - intros k [Hk|Hk]%elem_of_app; apply lookup_insert_is_Some'; [right; by apply H|left].
    by apply list_elem_of_singleton in Hk.
  - intros k u. rewrite lookup_insert_Some. intros [[<- <-]|[_ Hu]] Hl; [set_solver|].
    apply elem_of_app. left. by eapply H.
  - congruence.
Qed.

Lemma Close_keeps s : sched_inv s -> keeps s (Close s).
Proof.
  intros H.
  assert (Hget : forall k u, sets (Close s) !! k = Some u ->
    exists v, sets s !! k = Some v /\ u = finish_set (Some ErrTaskSchedulerClosed) v).
  { intros k u. cbn. rewrite lookup_fmap. intros (v & ? & ->)%fmap_Some. eauto. }
  assert (Hput : forall k v, sets s !! k = Some v ->
    sets (Close s) !! k = Some (finish_set (Some ErrTaskSchedulerClosed) v)).
  { intros k v Hv. cbn. by rewrite lookup_fmap, Hv. }
  split; [split; try apply H|split; try done].
  - intros k u (v & Hv & ->)%Hget. destruct (inv_sets _ H _ _ Hv) as (? & ? & Hi).
    destruct (finish_set_kept (Some ErrTaskSchedulerClosed) v) as (_ & Ek & Ei & _). rewrite Ek.
    split_and!; [done|eapply set_steps_ok; [done|apply finish_set_moves]|].
    unfold inputs_ok in *. by rewrite Ei.
  - intros k u i t (v & Hv & ->)%Hget.
    destruct (finish_set_kept (Some ErrTaskSchedulerClosed) v) as (-> & _). by eapply H.
  - intros id a Ha. destruct (inv_attempts _ H _ _ Ha) as (? & (u & t & Hu & Ht & Hto & ?) & ?).
    destruct (finish_set_kept (Some ErrTaskSchedulerClosed) u) as (Et & Ek & Ei & _).
    split_and!; [done| |done]. exists (finish_set (Some ErrTaskSchedulerClosed) u), t. rewrite (Hput _ _ Hu), Et.
    split_and!; auto. unfold assigned_to in *. by rewrite Ek, Ei.
  - intros k Hk. destruct (inv_queued _ H _ Hk) as [v Hv]. rewrite (Hput _ _ Hv). eauto.
  - intros k u (v & Hv & ->)%Hget. destruct (finish_set_kept (Some ErrTaskSchedulerClosed) v) as (_ & _ & _ & ->).
    done.
  - intros _ k u (v & Hv & ->)%Hget. apply finish_set_kept.
  - intros k v Hv. exists (finish_set (Some ErrTaskSchedulerClosed) v). split; [by apply Hput|apply finish_set_moves].
  - intros k Hn. cbn. by rewrite lookup_fmap, Hn.
Qed.

(** ** The system *)

(** What a submission's loop and its set agree on. *)
Record loop_ok (l : submission) (set : fifoTaskSet) : Prop := {
  lo_log : log_ok set (sub_observed l ++ fs_reports set);
  lo_wake : sub_state l = LoopWaiting -> wake_ok set;
  lo_return err : sub_state l = LoopReturned err ->
    fs_terminal set = true /\ fs_err set = err /\ fs_reports set = [] }.

Lemma loop_ok_steps max l set set' :
  loop_ok l set -> set_ok max set -> rtc (set_step max) set set' -> loop_ok l set'.
Proof.
  intros Hl Hok Hs. induction Hs as [|set1 set2 set3 Hst Hs IH]; [done|].
  apply IH; [|by eapply set_step_ok]. split.
  - eapply set_step_log; [done|apply Hl|done].
  - intros Hw. eapply set_step_wake; [by apply Hl|done].
  - intros err He. destruct (lo_return _ _ Hl err He) as (Ht & Herr & Hr).
    destruct (set_step_terminal _ _ _ Ht Hst) as (? & ? & ? & ?). split_and!; congruence.
Qed.

Record sys_inv (y : system) : Prop := {
  si_fifo : sched_inv (sys_fifo y);
  si_lost : lost_inv (sys_fifo y);
  si_dom key : is_Some (sys_loops y !! key) <-> is_Some (sets (sys_fifo y) !! key);
  si_loop key l set : sys_loops y !! key = Some l -> sets (sys_fifo y) !! key = Some set -> loop_ok l set }.

(** A worker-facing method. *)
Lemma sys_inv_keeps y s :
  sys_inv y -> keeps (sys_fifo y) s -> lost_inv s -> sys_inv (mkSystem s (sys_loops y)).
Proof.
  intros H [Hs M] Hlost. split; cbn; [done|done| |].
  - intros k. rewrite (si_dom _ H). split.
    + intros [u Hu]. destruct (mv_sets _ _ M _ _ Hu) as (v & ? & _). eauto.
    + destruct (sets (sys_fifo y) !! k) as [u|] eqn:Hu; [eauto|]. rewrite (mv_none _ _ M _ Hu). by intros [].
  - intros k l set Hl Hk. destruct (sets (sys_fifo y) !! k) as [u|] eqn:Hu.
    + destruct (mv_sets _ _ M _ _ Hu) as (v & Hv & St). assert (v = set) as -> by congruence.
      eapply loop_ok_steps; [by eapply H| |done]. apply (inv_sets _ (si_fifo _ H) _ _ Hu).
    + rewrite (mv_none _ _ M _ Hu) in Hk. done.
Qed.

(** A move of one loop, with its set. *)
Lemma sys_inv_loop y key l' set set' :
  sys_inv y -> sets (sys_fifo y) !! key = Some set ->
  set_ok (maxTaskAttempts (sys_fifo y)) set' -> fs_tasks set' = fs_tasks set ->
  fs_key set' = fs_key set -> fs_inputs set' = fs_inputs set ->
  (fs_terminal set = true -> fs_terminal set' = true) -> loop_ok l' set' ->
  sys_inv (mkSystem (put_set key set' (sys_fifo y)) (<[key := l']> (sys_loops y))).
Proof.
  intros H Hk Hok Et Ek Ei Hterm Hl'. split; cbn.
  - eapply inv_put; eauto. apply H.
  - exact (si_lost _ H).
  - intros k. rewrite !lookup_insert_is_Some'. rewrite (si_dom _ H). done.
  - intros k l u. rewrite !lookup_insert_Some. intros [[<- <-]|[? Hl]] [[? <-]|[? Hu]]; try done.
    by eapply H.
Qed.

Lemma put_set_same key set s : sets s !! key = Some set -> put_set key set s = s.
Proof. intros H. unfold put_set, set_sets. rewrite insert_id by done. by destruct s. Qed.

Lemma set_ok_quiet max set set' :
  set_ok max set -> fs_tasks set' = fs_tasks set -> fs_key set' = fs_key set ->
  fs_remaining set' = fs_remaining set -> fs_terminal set' = fs_terminal set ->
  fs_err set' = fs_err set -> set_ok max set'.
Proof. intros H Et Ek Er Eterm Ee. split; rewrite ?Et, ?Ek, ?Er, ?Eterm, ?Ee; apply H. Qed.

Lemma drainReports_eq s key ctxErr set :
  sets s !! key = Some set ->
  let set1 := match ctxErr with Some err => finish_set (Some err) set | None => set end in
  drainReports s key ctxErr =
    (put_set key (with_reports [] set1) s, (fs_reports set1, fs_terminal set1, fs_err set1)).
Proof.
  intros Hk. unfold drainReports, finish. destruct ctxErr as [err|].
  - rewrite (alter_put _ _ set) by done. cbn. rewrite lookup_insert_eq.
    rewrite (alter_put _ _ (finish_set (Some err) set)) by (cbn; by rewrite lookup_insert_eq).
    unfold put_set, set_sets. cbn. by rewrite insert_insert_eq.
  - rewrite Hk. by rewrite (alter_put _ _ set).
Qed.

Lemma drainLoop_inv y key l ctxErr :
  sys_inv y -> sys_loops y !! key = Some l -> sub_state l = LoopDraining ->
  sys_inv (drainLoop y key l ctxErr).
Proof.
  intros H Hl Hst. destruct (proj1 (si_dom _ H key) ltac:(eauto)) as [set Hk].
  unfold drainLoop. rewrite (drainReports_eq _ _ _ set) by done.
  set (set1 := match ctxErr with Some err => finish_set (Some err) set | None => set end).
  assert (Hmove : rtc (set_step (maxTaskAttempts (sys_fifo y))) set set1).
  { unfold set1. destruct ctxErr; [apply finish_set_moves|apply rtc_refl]. }
  destruct (inv_sets _ (si_fifo _ H) _ _ Hk) as (_ & Hok & _).
  pose proof (set_steps_ok _ _ _ Hok Hmove) as Hok1.
  pose proof (loop_ok_steps _ _ _ _ (si_loop _ H _ _ _ Hl Hk) Hok Hmove) as Hlo.
  assert (Hkept : fs_tasks set1 = fs_tasks set /\ fs_key set1 = fs_key set /\ fs_inputs set1 = fs_inputs set /\
                  (fs_terminal set = true -> fs_terminal set1 = true)).
  { unfold set1. destruct ctxErr as [err|]; [|done].
    destruct (finish_set_kept (Some err) set) as (? & ? & ? & ?). by split_and!. }
  destruct Hkept as (Et & Ek & Ei & Hterm).
  eapply sys_inv_loop; try done.
  - by eapply set_ok_quiet.
  - split; cbn.
    + rewrite app_nil_r. destruct (lo_log _ _ Hlo). by split.
    + intros Hw [Ht|?]; [|done]. cbn in Ht. by rewrite Ht in Hw.
    + intros err. destruct (fs_terminal set1); [|done]. by intros [= <-].
Qed.

Lemma fifo_step_inv y y' : sys_inv y -> fifo_step y y' -> sys_inv y'.
Proof.
  intros H Hstep. pose proof (si_fifo _ H) as Hs. pose proof (si_lost _ H) as Hlost.
  destruct Hstep as [y id slots now s Hr|y input observer s key Hsub|y id free running now ctxErr s asg Ho Hn
    |y r ctxErr s Hr|y r ctxErr s Hr|y now timeout ctxErr s lost He|y|y key l ctxErr Hl Hst
    |y key l set Hl Hst Hk Hw|y key l Hl Hst].
  - apply sys_inv_keeps; [done|by eapply RegisterWorker_keeps|by eapply lost_inv_RegisterWorker].
  - pose proof (submitTaskSet_inv _ _ _ _ _ Hs Hsub) as Hs'.
    apply submitTaskSet_spec in Hsub as (_ & Hin & _ & _ & -> & Hnone & ->).
    destruct (new_set_ok (maxTaskAttempts (sys_fifo y)) input (nextSequence (sys_fifo y)) (inv_max _ Hs) Hin)
      as (_ & _ & Hlog).
    split; cbn; [done|done| |].
    + intros k. rewrite !lookup_insert_is_Some'. by rewrite (si_dom _ H).
    + intros k l u. rewrite !lookup_insert_Some. intros [[<- <-]|[? Hl]] [[? <-]|[? Hu]]; try done.
      by eapply H.
  - apply sys_inv_keeps; [done|by eapply OfferResources_keeps|by eapply lost_inv_OfferResources].
  - apply sys_inv_keeps; [done|by eapply ReportSuccess_keeps|by eapply lost_inv_ReportSuccess].
  - apply sys_inv_keeps; [done|by eapply ReportFailure_keeps|by eapply lost_inv_ReportFailure].
  - pose proof He as He'. unfold ExpireWorkers in He'. apply fail_if_Ok in He' as [Ht He'].
    apply fail_if_Ok in He' as [Hc _]. apply Z.leb_gt in Ht.
    destruct (ExpireWorkers_spec _ now timeout ctxErr Hs Ht Hc) as (s2 & E & K & _ & Hws).
    rewrite E in He. injection He as <- <-. apply sys_inv_keeps; [done|done|].
    intros id w. rewrite Hws. case_decide; [|by apply Hlost].
    intros (v & _ & ->)%fmap_Some. done.
  - apply sys_inv_keeps; [done|by apply Close_keeps|done].
  - by apply drainLoop_inv.
  - unfold consumeWake. rewrite (alter_put _ _ set) by done.
    destruct (inv_sets _ Hs _ _ Hk) as (_ & Hok & _).
    eapply sys_inv_loop; try done; [by eapply set_ok_quiet|].
    destruct (si_loop _ H _ _ _ Hl Hk) as [Hlog _ _]. split; cbn; [|done|done].
    destruct Hlog. by split.
  - destruct (proj1 (si_dom _ H key) ltac:(eauto)) as [set Hk].
    rewrite <- (put_set_same key set (sys_fifo y)) by done.
    destruct (inv_sets _ Hs _ _ Hk) as (_ & Hok & _).
    eapply sys_inv_loop; try done.
    destruct (si_loop _ H _ _ _ Hl Hk) as [Hlog _ _]. by split.
Qed.

Lemma resolveSchedulerOptions_pos options c :
  resolveSchedulerOptions options = Ok c -> 0 < op_maxTaskAttempts c /\ 0 < op_maxStageAttempts c.
Proof.
  unfold resolveSchedulerOptions.
  assert (G : forall r, (forall c, r = Ok c -> 0 < op_maxTaskAttempts c /\ 0 < op_maxStageAttempts c) ->
    foldl (fun c o => c ← c; applyOption c o) r options = Ok c ->
    0 < op_maxTaskAttempts c /\ 0 < op_maxStageAttempts c).
  { induction options as [|o options IH]; cbn; intros r Hr Hf; [by apply Hr|].
    eapply IH; [|exact Hf]. intros c' (d & Hd & Ho)%bind_Ok. destruct (Hr d Hd).
    destruct o; apply fail_if_Ok in Ho as [Hm [= <-]]; to_prop; cbn; lia. }
  apply G. intros d [= <-]. cbn. unfold DefaultMaxTaskAttempts, DefaultMaxStageAttempts. lia.
Qed.

Lemma NewFIFOTaskScheduler_inv options run s :
  NewFIFOTaskScheduler options run = Ok s -> lowerHex run 32 = true -> sys_inv (mkSystem s ∅).
Proof.
  unfold NewFIFOTaskScheduler. intros (c & Hc & [= <-])%bind_Ok Hrun.
  apply resolveSchedulerOptions_pos in Hc as [Hpos _].
  split; cbn; try done.
  - split; cbn; try done; try (intros *; rewrite lookup_empty; done); [constructor|set_solver].
  - intros key. by rewrite !lookup_empty.
Qed.

Lemma fifo_reachable_inv y : fifo_reachable y -> sys_inv y.
Proof. induction 1; eauto using fifo_step_inv, NewFIFOTaskScheduler_inv. Qed.
