(* ===== verification/FifoTheorems.v ===== *)
(** * FifoTheorems: what the physical scheduler promises

    The properties of the scheduler for its clients: workers are never
    overcommitted, work is handed out first in first out, an attempt counts
    once, a task set ends with one accepted output per task, retries stay
    within their budget, lost workers are fenced, no wake-up is lost. *)

From S2P Require Import Prelude Bytes Plan Stages Shuffle Reports Fifo FifoProofs FifoInvariant FifoSystem.
#[local] Open Scope Z_scope.
#[local] Arguments succeeded : simpl never.

(** ** The order of assignments *)

Definition is_pending (t : logicalTaskState) : bool :=
  match lt_state t with TaskPending => true | _ => false end.

(** The pending tasks of a set that may still be worked on, with the set's key. *)
Definition offerable (s : scheduler) (ctxErr : taskSetKey -> option error) (key : taskSetKey)
    : list (taskSetKey * Task) :=
  match sets s !! key with
  | Some set =>
      if fs_terminal set || bool_decide (is_Some (ctxErr key)) then []
      else (fun t => (key, lt_task t)) <$> List.filter is_pending (fs_tasks set)
  | None => []
  end.

(** The task an assignment is for. *)
Definition assigned_task (a : TaskAssignment) : taskSetKey * Task :=
  (mkKey (asg_JobID a) (asg_StageID a) (ta_StageAttemptID (at_Identity (asg_Attempt a))),
   at_Task (asg_Attempt a)).

Lemma offerTasks_order id key n k s available assignments set :
  sets s !! key = Some set -> fs_key set = key -> (k + n = length (fs_tasks set))%nat ->
  exists s' new,
    foldl (offerTask id key) (s, available, assignments) (seq k n) =
      (s', available - Z.of_nat (length new), assignments ++ new) /\
    assigned_task <$> new = take (Z.to_nat available)
      ((fun t => (key, lt_task t)) <$> List.filter is_pending (drop k (fs_tasks set))) /\
    forall key', key' <> key -> sets s' !! key' = sets s !! key'.
Proof.
  revert k s available assignments set.
  induction n as [|n IH]; intros k s available assignments set Hk Hkey Hn; cbn [seq foldl].
  - exists s, []. rewrite app_nil_r, drop_ge by lia. cbn. rewrite Z.sub_0_r, take_nil. done.
  - destruct (lookup_lt_is_Some_2 (fs_tasks set) k) as [t Ht]; [lia|].
    rewrite (drop_S _ t k) by done.
    unfold offerTask at 2. destruct (Z.leb_spec available 0) as [Hav|Hav].
    + destruct (IH (S k) s available assignments set Hk Hkey) as (s' & new & -> & Hnew & Hs); [lia|].
      exists s', new. split; [done|]. split; [|done]. rewrite Hnew.
      by replace (Z.to_nat available) with 0%nat by lia.
    + unfold get_task. rewrite Hk. cbn. rewrite Ht.
      destruct (bool_decide (lt_state t = TaskPending)) eqn:Hp; to_prop.
      * set (a := newAssignment s id set t).
        destruct (IH (S k) (assign s id key k a) (available - 1) (assignments ++ [a])
                    (with_task k (task_assigned (nextAttempt s)) set)) as (s' & new & E & Hnew & Hs).
        { cbn. by rewrite lookup_alter_eq, Hk. }
        { done. }
        { cbn. rewrite length_alter. lia. }
        exists s', (a :: new). rewrite E. split_and!.
        -- rewrite <- app_assoc.
           by replace (available - 1 - Z.of_nat (length new))
             with (available - Z.of_nat (length (a :: new))) by (cbn; lia).
        -- unfold is_pending at 1. rewrite Hp. cbn in Hnew |- *. rewrite drop_alter_lt in Hnew by lia.
           rewrite Hnew. replace (Z.to_nat available) with (S (Z.to_nat (available - 1))) by lia. cbn.
           f_equal. unfold assigned_task, a, newAssignment. cbn. rewrite Hkey. by destruct key.
        -- intros key' Hne. rewrite Hs by done. cbn. by rewrite lookup_alter_ne.
      * destruct (IH (S k) s available assignments set Hk Hkey) as (s' & new & -> & Hnew & Hs); [lia|].
        exists s', new. split; [done|]. split; [|done].
        cbn. unfold is_pending at 1. destruct (lt_state t); done.
Qed.

Lemma offerSets_order ctxErr id q s available assignments :
  (forall key set, sets s !! key = Some set -> fs_key set = key) -> NoDup q ->
  exists s' new available',
    foldl (offerSet ctxErr id) (s, available, assignments) q = (s', available', assignments ++ new) /\
    assigned_task <$> new = take (Z.to_nat available) (flat_map (offerable s ctxErr) q).
Proof.
  intros Hkeys Hn. revert s available assignments Hkeys.
  induction Hn as [|key q Hnin _ IH]; intros s available assignments Hkeys.
  - exists s, [], available. cbn. rewrite app_nil_r, take_nil. done.
  - assert (Hstep : exists s1 new1,
      offerSet ctxErr id (s, available, assignments) key =
        (s1, available - Z.of_nat (length new1), assignments ++ new1) /\
      assigned_task <$> new1 = take (Z.to_nat available) (offerable s ctxErr key) /\
      (forall key', key' <> key -> sets s1 !! key' = sets s !! key') /\
      (forall key' set, sets s1 !! key' = Some set -> fs_key set = key')).
    { unfold offerSet, offerable. destruct (sets s !! key) as [set|] eqn:Hk.
      2:{ exists s, []. cbn. rewrite app_nil_r, Z.sub_0_r, take_nil. done. }
      destruct (fs_terminal set); cbn; [exists s, []; cbn; rewrite app_nil_r, Z.sub_0_r, take_nil; done|].
      destruct (ctxErr key) as [err|]; cbn.
      - exists (finish key (Some err) s), []. rewrite app_nil_r, Z.sub_0_r, take_nil.
        split_and!; try done; cbn; intros key'.
        + intros Hne. by rewrite lookup_alter_ne.
        + intros set'. rewrite lookup_alter_Some. intros [(<- & v & Hv & ->)|[_ Hs]]; [|by apply Hkeys].
          destruct (finish_set_kept (Some err) v) as (_ & -> & _). by apply Hkeys.
      - destruct (offerTasks_order id key (length (fs_tasks set)) 0 s available assignments set)
          as (s1 & new & E & Hnew & Hs); [done|by apply Hkeys|done|].
        exists s1, new. split_and!; [done|done|done|]. intros key' set'.
        destruct (decide (key' = key)) as [->|Hne]; [|rewrite Hs by done; apply Hkeys].
        assert (G : forall o, (forall u, sets o.1.1 !! key = Some u -> fs_key u = key) -> forall l u,
          sets (foldl (offerTask id key) o l).1.1 !! key = Some u -> fs_key u = key).
        { intros o Ho l. revert o Ho. induction l as [|i l IHl]; intros o Ho; [exact Ho|].
          cbn. apply IHl. destruct o as [[s2 av] asg]. unfold offerTask.
          destruct (av <=? 0); [done|]. pose proof Ho as Ho0. cbn in Ho.
          destruct (sets s2 !! key) eqn:Hs2; [|exact Ho0].
          destruct (get_task s2 key i); [|exact Ho0]. case_bool_decide; [|exact Ho0].
          cbn. intros u. rewrite lookup_alter_eq, Hs2. intros [= <-]. exact (Ho _ eq_refl). }
        specialize (G (s, available, assignments) (fun u Hu => Hkeys key u Hu) (seq 0 (length (fs_tasks set)))).
        rewrite E in G. apply G. }
    destruct Hstep as (s1 & new1 & E1 & Hnew1 & Hs1 & Hkeys1).
    destruct (IH s1 (available - Z.of_nat (length new1)) (assignments ++ new1) Hkeys1)
      as (s' & new2 & av' & E2 & Hnew2).
    exists s', (new1 ++ new2), av'. cbn [foldl]. rewrite E1, E2, app_assoc. split; [done|].
    cbn [flat_map]. rewrite fmap_app, Hnew1, Hnew2, take_app.
    f_equal. assert (Hlen : length new1 = min (Z.to_nat available) (length (offerable s ctxErr key))).
    { by rewrite <- (length_fmap assigned_task), Hnew1, length_take. }
    assert (Eoff : flat_map (offerable s1 ctxErr) q = flat_map (offerable s ctxErr) q).
    { clear -Hs1 Hnin. induction q as [|k q IH]; cbn; [done|]. rewrite IH by set_solver.
      unfold offerable at 1 3. rewrite Hs1 by set_solver. done. }
    rewrite Eoff. destruct (decide (Z.to_nat available <= length (offerable s ctxErr key))%nat).
    + replace (Z.to_nat (available - Z.of_nat (length new1))) with 0%nat by lia.
      by replace (Z.to_nat available - length (offerable s ctxErr key))%nat with 0%nat by lia.
    + f_equal. lia.
Qed.

(** ** Running a script of calls *)

(** The methods, called with contexts that have not ended; [None] when the call
    is rejected. *)
Inductive call :=
  | CallRegister (id : WorkerID) (slots now : Z)
  | CallSubmit (input : TaskSet)
  | CallOffer (id : WorkerID) (free : Z) (running : list TaskAttemptID) (now : Z)
  | CallSuccess (r : TaskAttemptSuccess)
  | CallFailure (r : TaskAttemptFailure)
  | CallExpire (now timeout : Z)
  | CallClose
  | CallDrain (key : taskSetKey).

Definition exec (y : system) (c : call) : option system :=
  let s := sys_fifo y in
  let put r := match r with Ok s => Some (mkSystem s (sys_loops y)) | Err _ => None end in
  match c with
  | CallRegister id slots now => put (RegisterWorker s id slots now)
  | CallSubmit input =>
      match submitTaskSet s input true None with
      | Ok (s, key) => Some (enterLoop y s key)
      | Err _ => None
      end
  | CallOffer id free running now =>
      if (nextAttempt s + Z.to_N free <? 2 ^ 64)%N then
        match OfferResources s id free running now (fun _ => None) with
        | Ok (s, _) => Some (mkSystem s (sys_loops y))
        | Err _ => None
        end
      else None
  | CallSuccess r => put (ReportSuccess s r (fun _ => None))
  | CallFailure r => put (ReportFailure s r (fun _ => None))
  | CallExpire now timeout =>
      match ExpireWorkers s now timeout (fun _ _ => None) with
      | Ok (s, _) => Some (mkSystem s (sys_loops y))
      | Err _ => None
      end
  | CallClose => put (Ok (Close s))
  | CallDrain key =>
      match sys_loops y !! key with
      | Some l => match sub_state l with
                  | LoopDraining => Some (drainLoop y key l None)
                  | _ => None
                  end
      | None => None
      end
  end.

Definition run_calls (cs : list call) (y : system) : option system :=
  foldl (fun y c => y ← y; exec y c) (Some y) cs.

Lemma exec_step y c y' : exec y c = Some y' -> fifo_step y y'.
Proof.
  destruct c as [id slots now|input|id free running now|r|r|now timeout| |key]; unfold exec; intros E.
  - case_in E; [|done]. injection E as <-. by eapply step_register.
  - destruct (submitTaskSet _ _ _ _) as [[s key]|] eqn:Es; [|done]. injection E as <-.
    by eapply step_submit.
  - destruct (N.ltb_spec (nextAttempt (sys_fifo y) + Z.to_N free) (2 ^ 64)); [|done].
    destruct (OfferResources _ _ _ _ _ _) as [[s asg]|] eqn:Es; [|done]. injection E as <-.
    by eapply step_offer.
  - case_in E; [|done]. injection E as <-. by eapply step_success.
  - case_in E; [|done]. injection E as <-. by eapply step_failure.
  - destruct (ExpireWorkers _ _ _ _) as [[s lost]|] eqn:Es; [|done]. injection E as <-.
    by eapply step_expire.
  - injection E as <-. apply step_close.
  - destruct (sys_loops y !! key) as [l|] eqn:Hl; [|done].
    destruct (sub_state l) eqn:Hs; try done. injection E as <-. by apply step_drain.
Qed.

Lemma run_calls_reachable cs y y' :
  fifo_reachable y -> run_calls cs y = Some y' -> fifo_reachable y'.
Proof.
  unfold run_calls. revert y. induction cs as [|c cs IH]; intros y Hy; cbn.
  - by intros [= <-].
  - destruct (exec y c) as [y1|] eqn:E.
    + apply IH. eapply fifo_next; [done|by eapply exec_step].
    + intros H. exfalso. clear -H. induction cs as [|d cs IHcs]; [done|exact (IHcs H)].
Qed.

Definition empty_system : system :=
  mkSystem (mkScheduler 2 example_run ∅ ∅ [] ∅ 0 0 false) ∅.

Lemma empty_reachable : fifo_reachable empty_system.
Proof. by eapply (fifo_init [WithMaxTaskAttempts 2]). Qed.

Definition example_task (i : nat) : Task :=
  {| t_ID := N.of_nat i; t_StageID := 0%N; t_StageKind := StageResult; t_PartitionID := Z.of_nat i;
     t_NumPartitions := 2; t_Operations := []; t_ShuffleWrite := None;
     t_FinalAction := Some {| act_Kind := ActionCount; act_TargetRDD := 0%N |} |}.

Definition example_set : TaskSet := mkTaskSet None 7%N 0%N 0%N [example_task 1; example_task 0].
Definition example_key : taskSetKey := mkKey 7%N 0%N 0%N.

Definition example_success (attempt : N) (task : nat) (worker : WorkerID) : TaskAttemptSuccess :=
  mkSuccess 7%N 0%N (mkAttempt attempt (N.of_nat task) 0%N) (Z.of_nat task) worker (mkOutput None 5 None).

Definition example_failure (attempt : N) (task : nat) (worker : WorkerID) : TaskAttemptFailure :=
  mkFailure FailureExecution None 7%N 0%N (mkAttempt attempt (N.of_nat task) 0%N) (Z.of_nat task) worker "boom".

(** Two workers; one task fails and is retried, one worker is lost. *)
Definition example_calls : list call :=
  [ CallRegister "a" 1 0; CallRegister "b" 2 100; CallSubmit example_set;
    CallOffer "a" 1 [] 0; CallOffer "b" 2 [] 100; CallExpire 100 50;
    CallFailure (example_failure 1 1 "b") ].

Definition example_mid : system := default empty_system (run_calls example_calls empty_system).

Definition example_end : system :=
  default empty_system (run_calls
    [ CallOffer "b" 2 [] 120; CallSuccess (example_success 2 0 "b");
      CallSuccess (example_success 3 1 "b"); CallDrain example_key ] example_mid).

Lemma run_default cs y :
  (match run_calls cs y with Some _ => true | None => false end) = true ->
  run_calls cs y = Some (default empty_system (run_calls cs y)).
Proof. by destruct (run_calls cs y). Qed.

Lemma example_mid_reachable : fifo_reachable example_mid.
Proof.
  eapply run_calls_reachable; [apply empty_reachable|].
  apply run_default. vm_compute. reflexivity.
Qed.
Lemma example_end_reachable : fifo_reachable example_end.
Proof.
  eapply run_calls_reachable; [apply example_mid_reachable|].
  apply run_default. vm_compute. reflexivity.
Qed.

(** ** Reservations *)

(** C8. In every reachable state a worker's reserved slots are exactly its
    unfinished attempts, at most as many as its capacity, and none once it is
    lost. *)
Theorem fifo_reservations y id w :
  fifo_reachable y -> workers (sys_fifo y) !! id = Some w ->
  Z.of_nat (size (wk_reserved w)) <= wk_TotalSlots w /\
  (forall aid, aid ∈ wk_reserved w <-> exists a,
     attempts (sys_fifo y) !! aid = Some a /\ aa_terminal a = false /\ attempt_worker a = id) /\
  (wk_Status w = WorkerLost -> wk_reserved w = ∅).
Proof.
  intros [H Hlost _ _]%fifo_reachable_inv Hw. destruct (inv_workers _ H _ _ Hw) as (_ & _ & Hsz & Hr).
  split_and!; [done| |by eapply Hlost]. intros aid. split; [apply Hr|].
  intros (a & Ha & Hl & Hwa). destruct (inv_attempts _ H _ _ Ha) as (_ & _ & (v & Hv & Hin)).
  rewrite Hwa, Hw in Hv. injection Hv as <-. by apply Hin.
Qed.

Definition with_worker (y : system) (id : WorkerID) (P : workerState -> Prop) : Prop :=
  match workers (sys_fifo y) !! id with Some w => P w | None => False end.

Lemma fifo_reservations_witness :
  with_worker example_mid "a" (fun w => wk_Status w = WorkerLost /\ wk_reserved w = ∅) /\
  with_worker example_mid "b" (fun w => Z.of_nat (size (wk_reserved w)) <= wk_TotalSlots w).
Proof.
  unfold with_worker.
  destruct (workers (sys_fifo example_mid) !! "a") as [a|] eqn:Ea; [|by vm_compute in Ea].
  destruct (workers (sys_fifo example_mid) !! "b") as [b|] eqn:Eb; [|by vm_compute in Eb].
  assert (Hs : wk_Status <$> workers (sys_fifo example_mid) !! "a" = Some WorkerLost)
    by (vm_compute; reflexivity).
  rewrite Ea in Hs. injection Hs as Hs. split; [split; [done|]|].
  - exact (proj2 (proj2 (fifo_reservations example_mid "a" a example_mid_reachable Ea)) Hs).
  - exact (proj1 (fifo_reservations example_mid "b" b example_mid_reachable Eb)).
Defined.

(** ** Attempts *)

(** C9. In every reachable state a logical task has used at most
    [maxTaskAttempts] attempts, a pending one may still be retried, a running
    one has exactly one unfinished attempt, its active one, and no attempt is
    unfinished otherwise. *)
Theorem fifo_attempts y key set i t :
  fifo_reachable y -> sets (sys_fifo y) !! key = Some set -> fs_tasks set !! i = Some t ->
  0 <= lt_attempts t <= maxTaskAttempts (sys_fifo y) /\
  (lt_state t = TaskPending -> lt_attempts t < maxTaskAttempts (sys_fifo y)) /\
  (forall id, (exists a, attempts (sys_fifo y) !! id = Some a /\ aa_terminal a = false /\
                         aa_set a = key /\ aa_task a = i) <->
     lt_state t = TaskRunning /\ id = lt_active t).
Proof.
  intros [H _ _ _]%fifo_reachable_inv Hk Hi. destruct (inv_sets _ H _ _ Hk) as (_ & Hok & _).
  destruct (so_tasks _ _ Hok _ _ Hi) as (_ & ? & ?).
  split; [done|]. split; [done|]. intros id. split.
  - intros (a & Ha & Hl & <- & <-).
    destruct (live_attempt_task _ id a H Ha Hl) as (u & v & Hu & Hv & Hrun & Hact & _).
    assert (u = set) as -> by congruence. assert (v = t) as -> by congruence. done.
  - intros [Hrun ->]. by eapply H.
Qed.

Definition with_task_of (y : system) (key : taskSetKey) (i : nat) (P : logicalTaskState -> Prop) : Prop :=
  match get_task (sys_fifo y) key i with Some t => P t | None => False end.

(** The task that failed on "b" is pending again and may be retried. *)
Lemma fifo_attempts_witness :
  with_task_of example_mid example_key 1
    (fun t => lt_state t = TaskPending /\ lt_attempts t < maxTaskAttempts (sys_fifo example_mid)).
Proof.
  unfold with_task_of, get_task.
  destruct (sets (sys_fifo example_mid) !! example_key) as [set|] eqn:Es; [|by vm_compute in Es].
  assert (E : (sets (sys_fifo example_mid) !! example_key ≫= fun set => lt_state <$> fs_tasks set !! 1%nat)
              = Some TaskPending) by (vm_compute; reflexivity).
  rewrite Es in E. cbn in E |- *. destruct (fs_tasks set !! 1%nat) as [t|] eqn:Ei; [|done].
  injection E as E. split; [done|].
  by apply (fifo_attempts example_mid example_key set 1 t example_mid_reachable Es Ei).
Defined.

(** ** The outcome of a task set *)

Lemma success_partition log set :
  log_ok set log -> ts_PartitionID <$> successes log ⊆+
    (fun t => t_PartitionID (lt_task t)) <$> fs_tasks set.
Proof.
  intros [Hsub _ _ _]. apply (fmap_submseteq fst) in Hsub. rewrite <- list_fmap_compose in Hsub.
  etrans; [exact Hsub|]. unfold results. rewrite <- list_fmap_compose.
  change (fst ∘ task_result) with (fun t => t_PartitionID (lt_task t)).
  generalize (fs_tasks set) as l. intros l. induction l as [|t l IH]; cbn; [done|].
  destruct (succeeded t); cbn; [by apply submseteq_skip|by apply submseteq_cons].
Qed.

(** C6. When [ScheduleTaskSet] returns, the set has ended with the returned
    error; its observer saw at most one success per partition, each the
    validated output of a task of the set; a final failure was seen only with
    an error; and when it returns nil, every partition succeeded exactly once. *)
Theorem ScheduleTaskSet_outcome y key l set err :
  fifo_reachable y -> sys_loops y !! key = Some l -> sets (sys_fifo y) !! key = Some set ->
  sub_state l = LoopReturned err ->
  let seen := successes (sub_observed l) in
  fs_terminal set = true /\ fs_err set = err /\
  NoDup (ts_PartitionID <$> seen) /\
  (forall r, r ∈ seen -> exists i t, fs_tasks set !! i = Some t /\ success_of set i t r) /\
  (forall r, r ∈ sub_observed l -> (exists f, deliver r = Some (ObserveFailure f)) -> err <> None) /\
  (err = None -> ts_PartitionID <$> seen ≡ₚ (fun t => t_PartitionID (lt_task t)) <$> fs_tasks set).
Proof.
  intros [H _ _ Hloop]%fifo_reachable_inv Hl Hk Hret seen.
  destruct (Hloop _ _ _ Hl Hk) as [Hlog _ Hr]. destruct (Hr err Hret) as (Ht & He & Hrep).
  rewrite Hrep, app_nil_r in Hlog. destruct (inv_sets _ H _ _ Hk) as (_ & Hok & _).
  split_and!; [done|done| | | |].
  - pose proof (success_partition _ _ Hlog) as [k Hk']%submseteq_Permutation.
    pose proof (so_nodup _ _ Hok) as Hnd. rewrite Hk' in Hnd. by apply NoDup_app in Hnd as (? & _).
  - apply Hlog.
  - intros r Hin (f & Hf). unfold deliver in Hf. destruct (tr_success r) eqn:Hs; [done|].
    destruct (tr_requeued r) eqn:Hq; [done|]. destruct (lg_failed _ _ Hlog r Hin Hs) as (_ & Hend).
    destruct (Hend Hq). congruence.
  - intros ->. assert (Hperm : tagged <$> seen ≡ₚ results set) by (apply (lg_all _ _ Hlog); by right).
    apply (fmap_Permutation fst) in Hperm. rewrite <- !list_fmap_compose in Hperm.
    unfold results in Hperm. rewrite <- list_fmap_compose in Hperm. rewrite filter_all in Hperm; [done|].
    intros t [i Hi]%list_elem_of_lookup_1. unfold succeeded. by rewrite (so_done _ _ Hok Ht He _ _ Hi).
Qed.

(** The example job: both partitions succeed after a loss and a retry. *)
Lemma ScheduleTaskSet_outcome_witness :
  exists l set, sys_loops example_end !! example_key = Some l /\
    sets (sys_fifo example_end) !! example_key = Some set /\ sub_state l = LoopReturned None /\
    ts_PartitionID <$> successes (sub_observed l) ≡ₚ (fun t => t_PartitionID (lt_task t)) <$> fs_tasks set.
Proof.
  destruct (sys_loops example_end !! example_key) as [l|] eqn:El; [|by vm_compute in El].
  destruct (sets (sys_fifo example_end) !! example_key) as [set|] eqn:Es; [|by vm_compute in Es].
  assert (E : (match sys_loops example_end !! example_key with
               | Some l => match sub_state l with LoopReturned None => true | _ => false end
               | None => false end) = true) by (vm_compute; reflexivity).
  rewrite El in E. destruct (sub_state l) as [| |[e|]] eqn:Est; try discriminate E.
  exists l, set. split_and!; [done..|].
  by apply (ScheduleTaskSet_outcome example_end example_key l set None example_end_reachable El Es Est).
Defined.

(** ** Offers *)

Lemma checkRunning_spec s id seen running r :
  checkRunning s id seen running = Ok r <->
  r = list_to_set running ∪ seen /\ NoDup running /\
  Forall (fun aid => aid ∉ seen /\ exists a, attempts s !! aid = Some a /\ attempt_worker a = id) running.
Proof.
  revert seen. induction running as [|aid running IH]; intros seen; cbn.
  - split; [intros [= <-]|intros (-> & _)].
    + split_and!; [set_solver|constructor|constructor].
    + f_equal. set_solver.
  - rewrite NoDup_cons, Forall_cons. destruct (attempts s !! aid) as [a|] eqn:Ha; cycle 1.
    { split; [done|]. intros (_ & _ & (_ & a & ? & _) & _). done. }
    rewrite fail_if_Ok, IH, orb_false_iff, negb_false_iff, bool_decide_eq_false, bool_decide_eq_true.
    rewrite !Forall_forall. unfold attempt_worker. split.
    + intros ((Hs & Hw) & -> & Hn & Hf). split_and!; try done.
      * set_solver.
      * intros Hin. destruct (Hf aid Hin) as [? _]. set_solver.
      * eauto.
      * intros b Hb. destruct (Hf b Hb) as [? ?]. set_solver.
    + intros (-> & (Hnin & Hn) & (Hs & b & Hb & Hw) & Hf). split_and!; try done; try congruence.
      * set_solver.
      * intros b' Hb'. destruct (Hf b' Hb') as [? ?]. split; [set_solver|done].
Qed.

(** The heartbeats the scheduler accepts from worker [w]. *)
Definition heartbeat_ok (s : scheduler) (w : workerState) (free : Z) (running : list TaskAttemptID) : Prop :=
  closed s = false /\ wk_Status w = WorkerAlive /\ 0 <= free <= wk_TotalSlots w /\
  Z.of_nat (length running) <= wk_TotalSlots w - free /\ NoDup running /\
  Forall (fun aid => exists a, attempts s !! aid = Some a /\ attempt_worker a = wk_ID w) running.

Lemma OfferResources_spec s id free running now ctxErr s' asg :
  sched_inv s -> OfferResources s id free running now ctxErr = Ok (s', asg) <->
  exists w s2 av, workers s !! id = Some w /\ heartbeat_ok s w free running /\
    foldl (offerSet ctxErr id)
      (set_workers (alter (with_heartbeat free running now) id) s,
       availableSlots w free (list_to_set running), []) (queue s) = (s2, av, asg) /\
    s' = compactQueue s2.
Proof.
  intros H. unfold OfferResources, heartbeat_ok. rewrite fail_if_Ok.
  destruct (workers s !! id) as [w|] eqn:Hw; [|split; [by intros [_ ?]|by intros (? & ? & ? & [=] & _)]].
  destruct (inv_workers _ H _ _ Hw) as (Hid & _).
  rewrite !fail_if_Ok, !orb_false_iff, !Z.ltb_ge, bool_decide_eq_false, bind_Ok.
  setoid_rewrite checkRunning_spec.
  assert (Eset : list_to_set running ∪ ∅ =@{gset N} list_to_set running).
  { set_solver. }
  assert (Est : wk_Status w <> WorkerLost <-> wk_Status w = WorkerAlive).
  { destruct (wk_Status w); naive_solver. }
  rewrite Est, Eset. split.
  - intros (Hc & Hst & ((Hf & Hf') & Hlen) & seen & (-> & Hn & Hr) & Hok).
    destruct (foldl _ _ _) as [[s2 av] asg2] eqn:E. injection Hok as <- <-.
    exists w, s2, av. split; [done|]. split; [|done].
    repeat split; try done. rewrite Hid. apply Forall_forall. intros b Hb.
    apply (proj1 (Forall_forall _ _) Hr b Hb).
  - intros (w' & s2 & av & [= <-] & (Hc & Hst & Hf & Hlen & Hn & Hr) & E & ->).
    split_and!; try done; try lia. exists (list_to_set running). split.
    + split_and!; [done|done|]. rewrite Hid in Hr. apply Forall_forall. intros b Hb.
      split; [set_solver|]. apply (proj1 (Forall_forall _ _) Hr b Hb).
    + cbn [queue set_workers]. by rewrite E.
Qed.

(** What the loops of [OfferResources] have assigned so far. *)
Definition offer_fresh (s0 : scheduler) (id : WorkerID) (o : offer) : Prop :=
  offer_good s0 id o /\
  let '(s, _, asg) := o in
  (nextAttempt s0 <= nextAttempt s)%N /\
  StronglySorted N.lt ((fun a => ta_ID (at_Identity (asg_Attempt a))) <$> asg) /\
  forall a, a ∈ asg -> let aid := ta_ID (at_Identity (asg_Attempt a)) in
    (nextAttempt s0 <= aid < nextAttempt s)%N /\ at_WorkerID (asg_Attempt a) = id /\
    at_State (asg_Attempt a) = TaskRunning /\ asg_RunID a = runID s0 /\
    exists i, attempts s !! aid = Some (mkAssigned a (assigned_task a).1 i false).

Lemma offers_fresh s0 ctxErr id q o :
  offer_fresh s0 id o -> offer_fresh s0 id (foldl (offerSet ctxErr id) o q).
Proof.
  apply offer_ind; clear.
  - intros s available asg key set i t (Hg & Hle & Hsorted & Hasg) Hpos Hk Hlive Hi Hp.
    pose proof Hg as ([H M] & _ & w & Hw & Hroom). destruct (Hroom Hpos) as [_ Hnext].
    split; [by eapply (offer_good_assign s0 id s available asg key set i t)|].
    cbn. rewrite u64_id by lia. split; [lia|]. split.
    + rewrite fmap_app. apply StronglySorted_app. split_and!; [|done|cbn; repeat constructor].
      intros x1 x2 (a & -> & Ha)%list_elem_of_fmap ->%list_elem_of_singleton.
      destruct (Hasg a Ha) as ([_ ?] & _). done.
    + intros a [Ha| ->%list_elem_of_singleton]%elem_of_app.
      * destruct (Hasg a Ha) as (? & ? & ? & ? & j & Hj). split_and!; try done; try lia.
        exists j. rewrite lookup_insert_ne by lia. done.
      * cbn. split_and!; try done; try lia; [apply M|].
        exists i. rewrite lookup_insert_eq. unfold assigned_task. cbn.
        destruct (inv_sets _ H _ _ Hk) as (<- & _). by destruct (fs_key set).
  - intros s available asg key err (Hg & Hrest). split; [by apply offer_good_finish|done].
Qed.

(** The assignments of an accepted offer. *)
Lemma OfferResources_assigns s id free running now ctxErr s' asg w :
  sched_inv s -> (nextAttempt s + Z.to_N free < 2 ^ 64)%N ->
  OfferResources s id free running now ctxErr = Ok (s', asg) -> workers s !! id = Some w ->
  let available := availableSlots w free (list_to_set running) in
  assigned_task <$> asg = take (Z.to_nat available) (flat_map (offerable s ctxErr) (queue s)) /\
  Z.of_nat (length asg) <= free /\ StronglySorted N.lt ((fun a => ta_ID (at_Identity (asg_Attempt a))) <$> asg) /\
  forall a, a ∈ asg -> let aid := ta_ID (at_Identity (asg_Attempt a)) in
    at_WorkerID (asg_Attempt a) = id /\ at_State (asg_Attempt a) = TaskRunning /\
    asg_RunID a = runID s /\ attempts s !! aid = None /\
    exists i, attempts s' !! aid = Some (mkAssigned a (assigned_task a).1 i false).
Proof.
  intros H Hnext (w' & s2 & av & Hw & (_ & _ & Hfree & _) & E & ->)%OfferResources_spec; [|done].
  rewrite Hw. intros [= ->]. set (s1 := set_workers _ s) in E.
  set (available := availableSlots w free (list_to_set running)) in *. cbn.
  destruct (offerSets_order ctxErr id (queue s) s1 available []) as (s3 & new & av' & E' & Horder).
  { intros key set. apply (inv_sets _ H). }
  { apply H. }
  rewrite E in E'. injection E' as <- <- Enew. cbn in Enew. subst new. cbn in Horder.
  assert (Hlen : (length asg <= Z.to_nat available)%nat).
  { rewrite <- (length_fmap assigned_task), Horder, length_take. lia. }
  assert (G : offer_fresh s id (foldl (offerSet ctxErr id) (s1, available, []) (queue s))).
  { apply offers_fresh. split; [|split_and!; [done|constructor|set_solver]].
    split_and!; [by apply heartbeat_keeps|done|]. exists (with_heartbeat free running now w). cbn.
    rewrite lookup_alter_eq, Hw. split; [done|]. intros Hav. unfold available, availableSlots in *. cbn. lia. }
  rewrite E in G. destruct G as (_ & _ & Hsorted & Hasg).
  split; [done|]. split; [unfold available, availableSlots in *; lia|]. split; [done|].
  intros a Ha. destruct (Hasg a Ha) as ([Hge _] & ? & ? & ? & ?). split_and!; try done.
  destruct (attempts s !! _) as [b|] eqn:Hb; [|done].
  destruct (inv_attempts _ H _ _ Hb) as [Hlt _]. lia.
Qed.

Lemma OfferResources_accepts s id free running now ctxErr : sched_inv s ->
  is_Ok (OfferResources s id free running now ctxErr) = true <->
  exists w, workers s !! id = Some w /\ heartbeat_ok s w free running.
Proof.
  intros H. split.
  - destruct (OfferResources _ _ _ _ _ _) as [[s' asg]|] eqn:E; [|done]. intros _.
    apply OfferResources_spec in E as (w & _ & _ & ? & ? & _); eauto.
  - intros (w & Hw & Hhb).
    destruct (foldl (offerSet ctxErr id) (set_workers (alter (with_heartbeat free running now) id) s,
      availableSlots w free (list_to_set running), []) (queue s)) as [[s2 av] asg] eqn:E.
    assert (EO : OfferResources s id free running now ctxErr = Ok (compactQueue s2, asg)).
    { apply OfferResources_spec; [done|]. exists w, s2, av. done. }
    by rewrite EO.
Qed.

(** C23. [OfferResources] accepts exactly the well-formed heartbeats of live
    workers, and then hands out the oldest pending partitions: the assignments
    are the first [available] pending tasks of the queued sets, in submission
    order and by partition within a set, under fresh and distinct attempt IDs,
    never more than the worker's free slots. *)
Theorem OfferResources_correct y id free running now ctxErr :
  fifo_reachable y -> (nextAttempt (sys_fifo y) + Z.to_N free < 2 ^ 64)%N ->
  let s := sys_fifo y in
  (is_Ok (OfferResources s id free running now ctxErr) = true <->
   exists w, workers s !! id = Some w /\ heartbeat_ok s w free running) /\
  (forall s' asg w, OfferResources s id free running now ctxErr = Ok (s', asg) ->
    workers s !! id = Some w ->
    let available := availableSlots w free (list_to_set running) in
    assigned_task <$> asg = take (Z.to_nat available) (flat_map (offerable s ctxErr) (queue s)) /\
    Z.of_nat (length asg) <= free /\ StronglySorted N.lt ((fun a => ta_ID (at_Identity (asg_Attempt a))) <$> asg) /\
    forall a, a ∈ asg -> let aid := ta_ID (at_Identity (asg_Attempt a)) in
      at_WorkerID (asg_Attempt a) = id /\ at_State (asg_Attempt a) = TaskRunning /\
      asg_RunID a = runID s /\ attempts s !! aid = None /\
      exists i, attempts s' !! aid = Some (mkAssigned a (assigned_task a).1 i false)).
Proof.
  intros [H _ _ _]%fifo_reachable_inv Hnext s. split; [by apply OfferResources_accepts|].
  intros s' asg w. by apply OfferResources_assigns.
Qed.

Lemma OfferResources_correct_witness :
  exists s' asg, OfferResources (sys_fifo example_mid) "b" 2 [] 130 (fun _ => None) = Ok (s', asg) /\
    assigned_task <$> asg = [(example_key, example_task 0); (example_key, example_task 1)].
Proof.
  destruct (OfferResources (sys_fifo example_mid) "b" 2 [] 130 (fun _ => None)) as [[s' asg]|e] eqn:E;
    [|by vm_compute in E].
  destruct (workers (sys_fifo example_mid) !! "b") as [w|] eqn:Ew; [|by vm_compute in Ew].
  exists s', asg. split; [done|].
  assert (Hn : (nextAttempt (sys_fifo example_mid) + Z.to_N 2 < 2 ^ 64)%N) by (vm_compute; reflexivity).
  destruct (OfferResources_correct example_mid "b" 2 [] 130 (fun _ => None) example_mid_reachable Hn) as [_ H].
  destruct (H s' asg w E Ew) as [-> _].
  assert (Hav : (fun w => availableSlots w 2 (list_to_set [])) <$> workers (sys_fifo example_mid) !! "b" = Some 2)
    by (vm_compute; reflexivity).
  rewrite Ew in Hav. assert (Hav' : availableSlots w 2 (list_to_set []) = 2) by (injection Hav; done).
  rewrite Hav'. vm_compute. reflexivity.
Defined.

(** ** Wake-ups *)

(** The moves of one submission's own loop, while its context lives. *)
Inductive loop_step (key : taskSetKey) : system -> system -> Prop :=
  | loop_wake y l set :
      sys_loops y !! key = Some l -> sub_state l = LoopWaiting ->
      sets (sys_fifo y) !! key = Some set -> fs_wake set = true ->
      loop_step key y (consumeWake y key l)
  | loop_drain y l :
      sys_loops y !! key = Some l -> sub_state l = LoopDraining ->
      loop_step key y (drainLoop y key l None).

(** C24. No wake-up is lost: in every reachable state a submission that has not
    returned, and whose set has reports or has ended (which closing the
    scheduler makes every set do), can proceed on its own; it then observes
    every pending report, and returns the set's error if the set has ended. *)
Theorem ScheduleTaskSet_progress y key l set :
  fifo_reachable y -> sys_loops y !! key = Some l -> sets (sys_fifo y) !! key = Some set ->
  (forall err, sub_state l <> LoopReturned err) ->
  fs_terminal set = true \/ fs_reports set <> [] \/ closed (sys_fifo y) = true ->
  exists y' l', rtc (loop_step key) y y' /\ sys_loops y' !! key = Some l' /\
    sub_observed l' = sub_observed l ++ fs_reports set /\
    sub_state l' = if fs_terminal set then LoopReturned (fs_err set) else LoopWaiting.
Proof.
  intros [H _ _ Hloop]%fifo_reachable_inv Hl Hk Hret Hwork.
  assert (Hwork' : fs_terminal set = true \/ fs_reports set <> []).
  { destruct Hwork as [?|[?|Hc]]; auto. left. by eapply (inv_closed _ H). }
  assert (Hdrain : forall y1 l1 set1, sys_loops y1 !! key = Some l1 -> sets (sys_fifo y1) !! key = Some set1 ->
    sub_state l1 = LoopDraining -> sub_observed l1 = sub_observed l -> fs_reports set1 = fs_reports set ->
    fs_terminal set1 = fs_terminal set -> fs_err set1 = fs_err set ->
    exists y' l', rtc (loop_step key) y1 y' /\ sys_loops y' !! key = Some l' /\
      sub_observed l' = sub_observed l ++ fs_reports set /\
      sub_state l' = if fs_terminal set then LoopReturned (fs_err set) else LoopWaiting).
  { intros y1 l1 set1 Hl1 Hk1 Hs1 Ho Hr Ht He. eexists (drainLoop y1 key l1 None), _.
    split; [by eapply rtc_once, loop_drain|].
    unfold drainLoop. rewrite (drainReports_eq _ _ _ set1) by done. cbn.
    rewrite lookup_insert_eq. split; [done|]. cbn. by rewrite Ho, Hr, Ht, He. }
  destruct (sub_state l) eqn:Hst; [by eapply Hdrain| |by destruct (Hret err)].
  pose proof (lo_wake _ _ (Hloop _ _ _ Hl Hk) Hst Hwork') as Hwake.
  edestruct (Hdrain (consumeWake y key l)) as (y' & l' & Hsteps & Hrest);
    [unfold consumeWake; cbn; by rewrite lookup_insert_eq
    |unfold consumeWake; cbn; by rewrite lookup_alter_eq, Hk|done..|].
  exists y', l'. split; [|done]. eapply rtc_l; [by eapply loop_wake|done].
Qed.

(** The submission blocked when its worker's reports arrive, after closing. *)
Definition example_closed : system :=
  default empty_system (run_calls [CallDrain example_key; CallClose] example_mid).

Lemma example_closed_reachable : fifo_reachable example_closed.
Proof.
  eapply run_calls_reachable; [apply example_mid_reachable|]. apply run_default. vm_compute. reflexivity.
Qed.

Lemma ScheduleTaskSet_progress_witness :
  exists y' l', rtc (loop_step example_key) example_closed y' /\ sys_loops y' !! example_key = Some l' /\
    sub_state l' = LoopReturned (Some ErrTaskSchedulerClosed).
Proof.
  destruct (sys_loops example_closed !! example_key) as [l|] eqn:El; [|by vm_compute in El].
  destruct (sets (sys_fifo example_closed) !! example_key) as [set|] eqn:Es; [|by vm_compute in Es].
  assert (Hl : sub_state <$> sys_loops example_closed !! example_key = Some LoopWaiting)
    by (vm_compute; reflexivity).
  assert (Hs : (fun set => (fs_terminal set, fs_err set)) <$> sets (sys_fifo example_closed) !! example_key
               = Some (true, Some ErrTaskSchedulerClosed)) by (vm_compute; reflexivity).
  rewrite El in Hl. rewrite Es in Hs. injection Hl as Hl. injection Hs as Ht He.
  destruct (ScheduleTaskSet_progress example_closed example_key l set example_closed_reachable El Es)
    as (y' & l' & ? & ? & _ & Hst); [intros err; rewrite Hl; discriminate|left; exact Ht|].
  exists y', l'. rewrite Ht, He in Hst. split_and!; assumption.
Defined.
