(* ===== verification/FifoReports.v ===== *)
(** * FifoReports: reports, retries, lost workers and submissions

    What one report changes, and the properties of the scheduler's methods that
    clients call one by one. *)

From S2P Require Import Prelude Bytes Plan Stages Shuffle Reports Fifo FifoProofs FifoInvariant FifoSystem FifoTheorems.
#[local] Open Scope Z_scope.
#[local] Arguments succeeded : simpl never.

(** ** Validation of a report *)

(** The identity a report carries. *)
Record report_id := mkReportID {
  rid_job : JobID;
  rid_stage : StageID;
  rid_attempt : TaskAttemptIdentity;
  rid_partition : PartitionID;
  rid_worker : WorkerID }.

Definition success_id (r : TaskAttemptSuccess) : report_id :=
  mkReportID (ts_JobID r) (ts_StageID r) (ts_Attempt r) (ts_PartitionID r) (ts_WorkerID r).
Definition failure_id (r : TaskAttemptFailure) : report_id :=
  mkReportID (tf_JobID r) (tf_StageID r) (tf_Attempt r) (tf_PartitionID r) (tf_WorkerID r).

Definition matches_id (a : assignedAttempt) (r : report_id) : Prop :=
  report_matches a (rid_job r) (rid_stage r) (rid_attempt r) (rid_partition r) (rid_worker r).

Definition validate_id (s : scheduler) (r : report_id) : result (option assignedAttempt) :=
  validateReport s (rid_job r) (rid_stage r) (rid_attempt r) (rid_partition r) (rid_worker r).

(** The attempt a report is about, in a scheduler that takes reports. *)
Definition known (s : scheduler) (r : report_id) (a : assignedAttempt) : Prop :=
  closed s = false /\ attempts s !! ta_ID (rid_attempt r) = Some a /\ matches_id a r.

Lemma validateReport_iff s r v :
  sched_inv s -> validate_id s r = Ok v <->
  exists a, known s r a /\ v = if aa_terminal a then None else Some a.
Proof.
  intros H. unfold validate_id, known. split.
  - intros Hv. pose proof Hv as Hc. unfold validateReport in Hc. apply fail_if_Ok in Hc as [Hc _].
    destruct (validateReport_spec _ _ _ _ _ _ _ H Hv) as (a & Ha & Hm & ->). by exists a.
  - intros (a & (Hc & Ha & Hm) & ->). destruct Hm as (<- & <- & Hi & <- & Hw).
    destruct (inv_attempts _ H _ _ Ha) as (_ & (set & t & Hk & Ht & _ & Hr) & (w & Hwk & _)).
    unfold validateReport. rewrite Hc. cbn. rewrite <- Hw, Hwk.
    rewrite bool_decide_eq_false_2 by done. rewrite Ha, !N.eqb_refl, Z.eqb_refl. cbn.
    unfold attempt_worker. rewrite !bool_decide_eq_true_2 by done. cbn.
    unfold get_task. rewrite Hk. cbn. rewrite Ht.
    destruct (aa_terminal a); cbn; [done|].
    destruct (Hr eq_refl) as [_ ->]. by rewrite N.eqb_refl.
Qed.

(** A report of an unfinished attempt is applied, to the set of that attempt. *)
Lemma ReportSuccess_spec s r ctxErr s' :
  sched_inv s -> ReportSuccess s r ctxErr = Ok s' <->
  exists a, known s (success_id r) a /\
    if aa_terminal a then s' = s
    else output_ok (ts_Output r) (mkExecution (asg_RunID (aa_assignment a)) (asg_JobID (aa_assignment a))
           (at_Task (asg_Attempt (aa_assignment a))) (at_Identity (asg_Attempt (aa_assignment a))) "" None) /\
         exists set, sets s !! aa_set a = Some set /\
           s' = retired s (ta_ID (ts_Attempt r)) a TaskSucceeded
                  (succeeded_set (ctxErr (aa_set a)) (aa_task a) r set).
Proof.
  intros H. unfold ReportSuccess. rewrite bind_Ok.
  change (validateReport s _ _ _ _ _) with (validate_id s (success_id r)).
  setoid_rewrite (fun v => validateReport_iff s (success_id r) v H). split.
  - intros (v & (a & Ha & ->) & Hok). exists a. split; [done|].
    destruct (aa_terminal a) eqn:Hl; [by injection Hok as ->|].
    apply bind_unit_Ok in Hok as [Hval Hok]. rewrite map_err_Ok, ValidateFor_spec in Hval.
    split; [done|]. destruct Ha as (_ & Ha & _). cbn in Ha.
    destruct (live_attempt_task s _ a H Ha Hl) as (set & t & Hk & _). exists set. split; [done|].
    pose proof (eq_trans (eq_sym (success_effect s _ a r ctxErr set H Ha Hk)) Hok) as E. by injection E as <-.
  - intros (a & Ha & Hs). exists (if aa_terminal a then None else Some a). split; [by exists a|].
    destruct (aa_terminal a) eqn:Hl; [by rewrite Hs|]. destruct Hs as (Hval & set & Hk & ->).
    destruct Ha as (_ & Ha & _). cbn in Ha.
    apply bind_unit_Ok. rewrite map_err_Ok, ValidateFor_spec. split; [done|].
    exact (success_effect s _ a r ctxErr set H Ha Hk).
Qed.

(** The failures a worker may report for an attempt. *)
Definition failure_ok (a : TaskAssignment) (r : TaskAttemptFailure) : Prop :=
  match tf_Kind r, tf_ShuffleInput r with
  | FailureShuffleInput, Some ref =>
      0 <= ir_PartitionID ref /\
      exists inputs o, asg_ShuffleInputs a = Some inputs /\
        ir_PartitionID ref = t_PartitionID (at_Task (asg_Attempt a)) /\
        is_Outputs inputs !! Z.to_nat (ai_MapPartitionID (ir_Attempt ref)) = Some o /\
        mo_Attempt o = ir_Attempt ref
  | (FailureExecution | FailurePermanent | FailureCanceled), None => True
  | _, _ => False
  end.

(** An assigned snapshot is a valid one. *)
Lemma assigned_inputs s id a inputs :
  sched_inv s -> attempts s !! id = Some a -> asg_ShuffleInputs (aa_assignment a) = Some inputs ->
  snapshot_ok inputs.
Proof.
  intros H Ha Hi. destruct (inv_attempts _ H _ _ Ha) as (_ & (set & t & Hk & _ & (_ & E & _) & _) & _).
  destruct (inv_sets _ H _ _ Hk) as (_ & _ & Hin). unfold inputs_ok in Hin.
  by rewrite <- E, Hi in Hin.
Qed.

Lemma failure_checks s id a r :
  sched_inv s -> attempts s !! id = Some a ->
  (ValidateFailure (tf_Kind r) (tf_ShuffleInput r) = Ok tt /\
   checkFailureInput (aa_assignment a) (tf_ShuffleInput r) = Ok tt) <-> failure_ok (aa_assignment a) r.
Proof.
  intros H Ha. rewrite ValidateFailure_spec. unfold failure_ok, checkFailureInput.
  destruct (tf_ShuffleInput r) as [ref|] eqn:Eref; cycle 1.
  { destruct (tf_Kind r); naive_solver. }
  destruct (asg_ShuffleInputs (aa_assignment a)) as [inputs|] eqn:Ein; cycle 1.
  { destruct (tf_Kind r); naive_solver. }
  pose proof (assigned_inputs s id a inputs H Ha Ein) as [_ _ _ _ Hout].
  rewrite fail_if_Ok, orb_false_iff, negb_false_iff, Z.eqb_eq, Z.leb_gt.
  split.
  - intros [[(Hk & r' & [= <-] & [_ Hm] & Hp)|(_ & ?)] [(Ep & Hlt) Hz]]; [|done].
    rewrite Hk. split; [done|]. destruct (zindex _ _) as [o|] eqn:Eo; [|done].
    apply zindex_lookup in Eo as [_ Eo]. apply fail_if_Ok in Hz as [Hz _]. to_prop. eauto 10.
  - destruct (tf_Kind r); try done. intros (Hp & inp & o & [= <-] & Ep & Ho & Eat).
    destruct (Hout _ _ Ho) as ([_ [Hrun Hm] _ _ _ _] & Emap & _). rewrite Eat in *.
    split; [left; split; [done|]; exists ref; by repeat split|].
    apply lookup_lt_Some in Ho as Hlt. split; [lia|].
    assert (Ez : zindex (is_Outputs inputs) (ai_MapPartitionID (ir_Attempt ref)) = Some o)
      by by apply zindex_lookup.
    rewrite Ez. apply fail_if_Ok. split; [|done]. apply negb_false_iff. by apply bool_decide_eq_true.
Qed.

Lemma ReportFailure_spec s r ctxErr s' :
  sched_inv s -> ReportFailure s r ctxErr = Ok s' <->
  tf_Error r <> ""%string /\ exists a, known s (failure_id r) a /\
    if aa_terminal a then s' = s
    else failure_ok (aa_assignment a) r /\
         exists set, sets s !! aa_set a = Some set /\
           s' = retired s (ta_ID (tf_Attempt r)) a TaskFailed
                  (failed_set (maxTaskAttempts s) (ctxErr (aa_set a)) (aa_task a) r set).
Proof.
  intros H. unfold ReportFailure. rewrite fail_if_Ok, bool_decide_eq_false, bind_Ok.
  change (validateReport s _ _ _ _ _) with (validate_id s (failure_id r)).
  setoid_rewrite (fun v => validateReport_iff s (failure_id r) v H). split.
  - intros (Hne & v & (a & Hkn & ->) & Hok). split; [done|]. exists a. split; [done|].
    destruct (aa_terminal a) eqn:Hl; [by injection Hok as ->|].
    rewrite !bind_unit_Ok, map_err_Ok in Hok. destruct Hok as (Hv & Hc & Hok).
    pose proof Hkn as (_ & Ha & _). cbn in Ha. split; [by apply (failure_checks s _ a r H Ha)|].
    destruct (live_attempt_task s _ a H Ha Hl) as (set & t & Hk & _). exists set. split; [done|].
    rewrite (failAttempt_eq s _ a r ctxErr set H Ha Hk) in Hok. by injection Hok as ->.
  - intros (Hne & a & Hkn & Hs). split; [done|]. exists (if aa_terminal a then None else Some a).
    split; [by exists a|]. destruct (aa_terminal a) eqn:Hl; [by rewrite Hs|].
    destruct Hs as (Hf & set & Hk & ->). pose proof Hkn as (_ & Ha & _). cbn in Ha.
    destruct (proj2 (failure_checks s _ a r H Ha) Hf). rewrite !bind_unit_Ok, map_err_Ok.
    split_and!; [done|done|]. exact (failAttempt_eq s _ a r ctxErr set H Ha Hk).
Qed.

(** ** The properties *)

(** One accepted call with this report identity. *)
Definition reported (s s' : scheduler) (id : report_id) : Prop :=
  (exists r ctxErr, success_id r = id /\ ReportSuccess s r ctxErr = Ok s') \/
  (exists r ctxErr, failure_id r = id /\ ReportFailure s r ctxErr = Ok s').

Lemma reported_known s s' id :
  sched_inv s -> reported s s' id -> exists a, known s id a /\
    exists a', known s' id a' /\ aa_terminal a' = true.
Proof.
  intros H Hr.
  assert (Hcase : exists a, known s id a /\ (s' = s /\ aa_terminal a = true \/
    exists st set', s' = retired s (ta_ID (rid_attempt id)) a st set')).
  { destruct Hr as [(r & c & <- & Hr)|(r & c & <- & Hr)].
    - apply ReportSuccess_spec in Hr as (a & Hkn & Hs); [|done]. exists a. split; [done|].
      destruct (aa_terminal a); [by left|]. destruct Hs as (_ & set & _ & ->). right. by eexists _, _.
    - apply ReportFailure_spec in Hr as (_ & a & Hkn & Hs); [|done]. exists a. split; [done|].
      destruct (aa_terminal a); [by left|]. destruct Hs as (_ & set & _ & ->). right. by eexists _, _. }
  destruct Hcase as (a & Hkn & [[-> Hl]|(st & set' & ->)]); exists a; (split; [done|]).
  - by exists a.
  - exists (retire st a). destruct Hkn as (Hc & Ha & Hm). split; [|done].
    split_and!; [done| |done]. cbn. by rewrite lookup_alter_eq, Ha.
Qed.

(** C25. Only reports that name an assigned attempt with all of its identities
    are taken, and an attempt counts once: after an accepted report, any
    further success or failure report with the same identity is accepted and
    changes nothing, whatever it carries. *)
Theorem report_once y id s' :
  fifo_reachable y -> reported (sys_fifo y) s' id ->
  (exists a, attempts (sys_fifo y) !! ta_ID (rid_attempt id) = Some a /\ matches_id a id) /\
  (forall r ctxErr, success_id r = id -> ReportSuccess s' r ctxErr = Ok s') /\
  (forall r ctxErr, failure_id r = id -> tf_Error r <> ""%string -> ReportFailure s' r ctxErr = Ok s').
Proof.
  intros [H _ _ _]%fifo_reachable_inv Hr.
  destruct (reported_known _ _ _ H Hr) as (a & (_ & Ha & Hm) & a' & Hkn & Hl).
  assert (H' : sched_inv s').
  { destruct Hr as [(r & c & _ & Hr)|(r & c & _ & Hr)];
      [by eapply ReportSuccess_keeps|by eapply ReportFailure_keeps]. }
  split; [by exists a|]. split.
  - intros r ctxErr <-. apply ReportSuccess_spec; [done|]. exists a'. by rewrite Hl.
  - intros r ctxErr <- Hne. apply ReportFailure_spec; [done|]. split; [done|]. exists a'. by rewrite Hl.
Qed.

(** Worker "b" is running attempts 2 (partition 0) and 3 (partition 1, its second). *)
Definition example_live : system :=
  default empty_system (run_calls [CallOffer "b" 2 [] 120] example_mid).

Lemma example_live_reachable : fifo_reachable example_live.
Proof.
  eapply run_calls_reachable; [apply example_mid_reachable|]. apply run_default. vm_compute. reflexivity.
Qed.

Lemma report_once_witness :
  exists s', ReportSuccess (sys_fifo example_live) (example_success 2 0 "b") (fun _ => None) = Ok s' /\
    ReportFailure s' (example_failure 2 0 "b") (fun _ => None) = Ok s'.
Proof.
  destruct (ReportSuccess (sys_fifo example_live) (example_success 2 0 "b") (fun _ => None)) as [s'|e] eqn:E;
    [|by vm_compute in E].
  exists s'. split; [reflexivity|].
  assert (Hr : reported (sys_fifo example_live) s' (success_id (example_success 2 0 "b"))).
  { left. eexists _, _. split; [reflexivity|exact E]. }
  apply (proj2 (proj2 (report_once example_live _ s' example_live_reachable Hr))); [reflexivity|discriminate].
Defined.

(** The success of the task at index [i] of a live set, whose context lives. *)
Lemma accepted_set max i r set t :
  set_ok max set -> fs_terminal set = false -> fs_tasks set !! i = Some t ->
  let set' := succeeded_set None i r set in
  set_ok max set' ->
  fs_tasks set' !! i = Some (task_output (ts_Output r) (task_state TaskSucceeded t)) /\
  deliver <$> fs_reports set' = (deliver <$> fs_reports set) ++ [Some (ObserveSuccess r)] /\
  fs_wake set' = true /\ fs_err set' = None /\
  (fs_terminal set' = true <-> forall j u, fs_tasks set !! j = Some u -> j <> i ->
     lt_state u = TaskSucceeded).
Proof.
  intros Hset Hterm Ht set' Hok'.
  destruct (acceptSuccess_fields i r set Hterm) as (Et & _ & Er & Ee).
  assert (Eset : set' = acceptSuccess i r (with_task i (task_state TaskSucceeded) set)).
  { unfold set', succeeded_set. by rewrite Hterm. }
  rewrite <- Eset in Et, Er, Ee. destruct (so_live _ _ Hset Hterm) as (He & _).
  split; [by rewrite Et, list_lookup_alter_eq, Ht|]. split; [by rewrite Er, fmap_app|].
  split; [|split; [by apply Ee|split]].
  - rewrite Eset. unfold acceptSuccess, finish_set. cbn. destruct (_ =? 0); cbn; by rewrite ?Hterm.
  - intros Hterm' j u Hj Hne. apply (so_done _ _ Hok' Hterm' (Ee He) j u).
    by rewrite Et, list_lookup_alter_ne.
  - intros Hall. destruct (fs_terminal set') eqn:Hterm'; [done|exfalso].
    destruct (so_live _ _ Hok' Hterm') as (_ & Hpos & Hcount & _). rewrite Hcount in Hpos.
    rewrite filter_none in Hpos; [cbn in Hpos; lia|].
    intros u [j Hj]%list_elem_of_lookup_1. rewrite Et, list_lookup_alter in Hj.
    unfold unsucceeded, succeeded. case_decide as Hd.
    + subst j. rewrite Ht in Hj. injection Hj as <-. done.
    + by rewrite (Hall j u Hj) by done.
Qed.

(** A finished attempt's slot is free again. *)
Lemma retired_frees s id a st set' w :
  workers s !! attempt_worker a = Some w ->
  exists w', workers (retired s id a st set') !! attempt_worker a = Some w' /\
    wk_reserved w' = wk_reserved w ∖ {[id]}.
Proof. intros Hw. cbn. rewrite lookup_alter_eq, Hw. eexists. split; [done|]. done. Qed.

(** Accepting a success of an unfinished attempt frees its slot; if its
    set is still live and its context has not ended, the output is recorded
    for its partition and reported, and the set ends without error exactly
    when this was its last task. *)
Theorem ReportSuccess_correct y r ctxErr s' a set t :
  fifo_reachable y -> let s := sys_fifo y in
  attempts s !! ta_ID (ts_Attempt r) = Some a -> aa_terminal a = false ->
  sets s !! aa_set a = Some set -> fs_tasks set !! aa_task a = Some t ->
  ReportSuccess s r ctxErr = Ok s' ->
  (forall w, workers s !! ts_WorkerID r = Some w -> exists w', workers s' !! ts_WorkerID r = Some w' /\
     wk_reserved w' = wk_reserved w ∖ {[ta_ID (ts_Attempt r)]}) /\
  (fs_terminal set = false -> ctxErr (aa_set a) = None ->
     exists set', sets s' !! aa_set a = Some set' /\
       ts_PartitionID r = t_PartitionID (lt_task t) /\
       fs_tasks set' !! aa_task a = Some (task_output (ts_Output r) (task_state TaskSucceeded t)) /\
       deliver <$> fs_reports set' = (deliver <$> fs_reports set) ++ [Some (ObserveSuccess r)] /\
       fs_wake set' = true /\ fs_err set' = None /\
       (fs_terminal set' = true <-> forall i u, fs_tasks set !! i = Some u -> i <> aa_task a ->
          lt_state u = TaskSucceeded)).
Proof.
  intros [H _ _ _]%fifo_reachable_inv s Ha Hl Hk Ht Hok. fold s in H.
  pose proof Hok as [H' _]%ReportSuccess_keeps; [|done].
  apply ReportSuccess_spec in Hok as (a' & (_ & Ha' & Hm) & Hs); [|done].
  cbn in Ha'. assert (a' = a) as -> by congruence. rewrite Hl in Hs.
  destruct Hs as (_ & set1 & Hk1 & ->). assert (set1 = set) as -> by congruence.
  destruct (live_attempt_task s _ a H Ha Hl) as (u & v & Hu & Hv & _ & _ & Hto & _ & Hset).
  assert (u = set) as -> by congruence. assert (v = t) as -> by congruence.
  destruct Hm as (_ & _ & _ & Hp & Hw). cbn in Hp, Hw. rewrite <- Hw. split.
  - intros w. apply retired_frees.
  - intros Hterm Hctx. rewrite Hctx in *. eexists. split; [cbn; by rewrite lookup_insert_eq|].
    destruct Hto as (_ & _ & _ & _ & _ & Htask). split; [by rewrite <- Htask|].
    eapply (accepted_set (maxTaskAttempts s)); try done.
    eapply (inv_sets _ H' (aa_set a)). cbn. by rewrite lookup_insert_eq.
Qed.

(** The state of [example_live], as far as attempt [id] is concerned. *)
Lemma live_example id :
  (match attempts (sys_fifo example_live) !! id with
   | Some a => negb (aa_terminal a) && bool_decide (aa_set a = example_key) &&
       match get_task (sys_fifo example_live) example_key (aa_task a) with Some _ => true | None => false end
   | None => false
   end) = true ->
  exists a set t, attempts (sys_fifo example_live) !! id = Some a /\ aa_terminal a = false /\
    aa_set a = example_key /\
    sets (sys_fifo example_live) !! example_key = Some set /\ fs_tasks set !! aa_task a = Some t.
Proof.
  destruct (attempts _ !! id) as [a|]; [|discriminate]. intros [[Hl Hs]%andb_true_iff Hg]%andb_true_iff.
  apply negb_true_iff in Hl. apply bool_decide_eq_true in Hs. unfold get_task in Hg.
  destruct (sets (sys_fifo example_live) !! example_key) as [set|]; [|discriminate]. cbn in Hg.
  destruct (fs_tasks set !! aa_task a) as [t|] eqn:Ht; [|discriminate].
  exists a, set, t. split_and!; try assumption; reflexivity.
Qed.

Lemma ReportSuccess_correct_witness :
  exists s' set', ReportSuccess (sys_fifo example_live) (example_success 2 0 "b") (fun _ => None) = Ok s' /\
    sets s' !! example_key = Some set' /\ fs_wake set' = true /\ fs_err set' = None.
Proof.
  destruct (ReportSuccess (sys_fifo example_live) (example_success 2 0 "b") (fun _ => None)) as [s'|e] eqn:E;
    [|by vm_compute in E].
  destruct (live_example 2) as (a & set & t & Ha & Hl & Hs & Hk & Ht); [vm_compute; reflexivity|].
  rewrite <- Hs in Hk.
  assert (Hterm : fs_terminal set = false).
  { assert (E' : fs_terminal <$> sets (sys_fifo example_live) !! example_key = Some false)
      by (vm_compute; reflexivity).
    rewrite <- Hs, Hk in E'. injection E' as E'. exact E'. }
  destruct (proj2 (ReportSuccess_correct example_live (example_success 2 0 "b") (fun _ => None) s' a set t
    example_live_reachable Ha Hl Hk Ht E) Hterm eq_refl) as (set' & Hk' & _ & _ & _ & Hw & He & _).
  exists s', set'. rewrite Hs in Hk'. split_and!; [reflexivity|assumption..].
Defined.

(** Failures the scheduler may retry. *)
Definition retryable (k : FailureKind) : bool :=
  bool_decide (k = FailureExecution) || bool_decide (k = FailureWorkerLost).

Lemma failed_live_set max i r set t :
  fs_terminal set = false -> fs_tasks set !! i = Some t ->
  let set' := failed_set max None i r set in
  let requeued := retryable (tf_Kind r) && (lt_attempts t <? max) in
  fs_wake set' = true /\ fs_terminal set' = negb requeued /\
  fs_tasks set' !! i = Some (task_state (if requeued then TaskPending else TaskFailed) t) /\
  deliver <$> fs_reports set' =
    (deliver <$> fs_reports set) ++ [if requeued then None else Some (ObserveFailure r)] /\
  (if requeued then fs_err set' = fs_err set
   else fs_err set' = Some (Errorf "stage %d task %d partition %d: %s"
          [FInt (Z.of_N (tf_StageID r)); FInt (Z.of_N (ta_TaskID (tf_Attempt r)));
           FInt (tf_PartitionID r); FStr (tf_Error r)])).
Proof.
  intros Hterm Ht. unfold failed_set, recordFailure, retryable. rewrite Hterm. cbn.
  rewrite list_lookup_alter_eq, Ht. cbn.
  destruct (_ && _); unfold finish_set; cbn; rewrite ?Hterm; cbn;
    rewrite ?list_lookup_alter_eq, ?Ht; cbn; rewrite ?list_lookup_alter_eq, ?Ht; cbn;
    rewrite ?fmap_app; split_and!; done.
Qed.

(** C26. Retry policy.  A failure of an unfinished attempt frees its slot; if
    its set is still live and its context has not ended, then an execution
    failure (or the loss of the worker) puts the task back in its place in the
    queue while it has attempts left, unseen by the observer, and any other
    failure, or the last attempt's, ends the set with an error and is shown. *)
Theorem ReportFailure_correct y r ctxErr s' a set t :
  fifo_reachable y -> let s := sys_fifo y in
  attempts s !! ta_ID (tf_Attempt r) = Some a -> aa_terminal a = false ->
  sets s !! aa_set a = Some set -> fs_tasks set !! aa_task a = Some t ->
  fs_terminal set = false -> ctxErr (aa_set a) = None ->
  ReportFailure s r ctxErr = Ok s' ->
  (forall w, workers s !! tf_WorkerID r = Some w -> exists w', workers s' !! tf_WorkerID r = Some w' /\
     wk_reserved w' = wk_reserved w ∖ {[ta_ID (tf_Attempt r)]}) /\
  exists set', sets s' !! aa_set a = Some set' /\ fs_wake set' = true /\
    if retryable (tf_Kind r) && (lt_attempts t <? maxTaskAttempts s) then
      fs_terminal set' = false /\ fs_tasks set' !! aa_task a = Some (task_state TaskPending t) /\
      deliver <$> fs_reports set' = (deliver <$> fs_reports set) ++ [None] /\ aa_set a ∈ queue s'
    else
      fs_terminal set' = true /\ is_Some (fs_err set') /\
      deliver <$> fs_reports set' = (deliver <$> fs_reports set) ++ [Some (ObserveFailure r)].
Proof.
  intros [H _ _ _]%fifo_reachable_inv s Ha Hl Hk Ht Hterm Hctx Hok. fold s in H.
  apply ReportFailure_spec in Hok as (_ & a' & (_ & Ha' & Hm) & Hs); [|done].
  cbn in Ha'. assert (a' = a) as -> by congruence. rewrite Hl in Hs.
  destruct Hs as (_ & set1 & Hk1 & ->). assert (set1 = set) as -> by congruence.
  destruct Hm as (_ & _ & _ & _ & Hw). cbn in Hw. rewrite <- Hw. split.
  - intros w. apply retired_frees.
  - rewrite Hctx. eexists. split; [cbn; by rewrite lookup_insert_eq|].
    destruct (failed_live_set (maxTaskAttempts s) (aa_task a) r set t Hterm Ht) as (Hwk & Et & Ei & Ed & Ee).
    split; [done|]. destruct (_ && _) eqn:Hrq.
    + split_and!; [done|done|done|]. exact (inv_live _ H _ _ Hk Hterm).
    + split_and!; [done|by eexists|done].
Qed.

(** Attempt 3 is the second and last of partition 1: its failure ends the set. *)
Lemma ReportFailure_correct_witness :
  exists s' set', ReportFailure (sys_fifo example_live) (example_failure 3 1 "b") (fun _ => None) = Ok s' /\
    sets s' !! example_key = Some set' /\ fs_terminal set' = true /\ is_Some (fs_err set').
Proof.
  destruct (ReportFailure (sys_fifo example_live) (example_failure 3 1 "b") (fun _ => None)) as [s'|e] eqn:E;
    [|by vm_compute in E].
  destruct (live_example 3) as (a & set & t & Ha & Hl & Hs & Hk & Ht); [vm_compute; reflexivity|].
  assert (E' : (fun set => (fs_terminal set, lt_attempts <$> fs_tasks set !! 1%nat)) <$>
                 sets (sys_fifo example_live) !! example_key = Some (false, Some 2)) by (vm_compute; reflexivity).
  assert (Et : aa_task <$> attempts (sys_fifo example_live) !! 3%N = Some 1%nat) by (vm_compute; reflexivity).
  rewrite Ha in Et. injection Et as Et. rewrite Hk in E'. cbn in E'. rewrite <- Et, Ht in E'.
  injection E' as Hterm Hn. rewrite <- Hs in Hk.
  destruct (ReportFailure_correct example_live (example_failure 3 1 "b") (fun _ => None) s' a set t
    example_live_reachable Ha Hl Hk Ht Hterm eq_refl E) as (_ & set' & Hk' & _ & Hc).
  assert (Em : maxTaskAttempts (sys_fifo example_live) = 2) by (vm_compute; reflexivity).
  rewrite Em, Hn in Hc. cbn in Hc. destruct Hc as (? & ? & _).
  exists s', set'. rewrite Hs in Hk'. split_and!; [reflexivity|assumption..].
Defined.

(** ** Lost workers *)

Lemma set_step_succeeded max set set' i t :
  set_step max set set' -> fs_tasks set !! i = Some t -> lt_state t = TaskSucceeded ->
  fs_tasks set' !! i = Some t.
Proof.
  intros Hst Hi Hs.
  assert (Hne : forall j u f, fs_tasks set !! j = Some u -> lt_state u <> TaskSucceeded ->
    alter f j (fs_tasks set) !! i = Some t).
  { intros j u f Hj Hu. rewrite list_lookup_alter_ne; [done|]. intros ->. congruence. }
  destruct Hst as [j u id Hl Hj Hu|err Hl|j u st Hl Hj Hu Hst|j u st err Hl Hj Hu Hst|j u r Hl Hj Hu Hr|j u r Hl Hj Hu];
    unfold acceptSuccess, recordFailure, finish_set; cbn; rewrite ?Hl; cbn; try done;
    try (eapply Hne; [done|congruence]);
    repeat case_goal; cbn; rewrite ?alter_compose; eapply Hne; first [done|congruence].
Qed.

Lemma set_steps_succeeded max set set' i t :
  rtc (set_step max) set set' -> fs_tasks set !! i = Some t -> lt_state t = TaskSucceeded ->
  fs_tasks set' !! i = Some t.
Proof. intros Hs. induction Hs; eauto using set_step_succeeded. Qed.

(** Expiry.  [ExpireWorkers] never fails on an open scheduler; it declares
    lost exactly the live workers that have been silent for the timeout, in
    order; they keep no slot, can neither offer nor register again, and the
    other workers are untouched; every accepted output survives. *)
Theorem ExpireWorkers_correct y now timeout ctxErr :
  fifo_reachable y -> let s := sys_fifo y in 0 < timeout -> closed s = false ->
  exists s' lost, ExpireWorkers s now timeout ctxErr = Ok (s', lost) /\
    StronglySorted String.le lost /\
    (forall id, id ∈ lost <-> exists w, workers s !! id = Some w /\ wk_Status w = WorkerAlive /\
       timeout <= now - wk_LastHeartbeat w) /\
    (forall id w', id ∈ lost -> workers s' !! id = Some w' -> wk_Status w' = WorkerLost /\ wk_reserved w' = ∅) /\
    (forall id slots t free running t' c, id ∈ lost ->
       is_Ok (RegisterWorker s' id slots t) = false /\ is_Ok (OfferResources s' id free running t' c) = false) /\
    (forall id, id ∉ lost -> workers s' !! id = workers s !! id) /\
    (forall key i t, get_task s key i = Some t -> lt_state t = TaskSucceeded -> get_task s' key i = Some t).
Proof.
  intros [H _ _ _]%fifo_reachable_inv s Ht Hc. fold s in H.
  destruct (ExpireWorkers_spec s now timeout ctxErr H Ht Hc) as (s' & E & [H' M] & Hc' & Hws).
  exists s', (expiredWorkers s now timeout). split; [done|].
  assert (Hlost : forall id, id ∈ expiredWorkers s now timeout ->
    exists w, workers s' !! id = Some (lost_worker w)).
  { intros id Hid. rewrite Hws, decide_True by done.
    apply elem_of_expiredWorkers in Hid as (w & -> & _). by exists w. }
  split; [apply StronglySorted_merge_sort; apply _|].
  split; [intros id; apply elem_of_expiredWorkers|]. split_and!.
  - intros id w' Hid Hw'. destruct (Hlost id Hid) as (w & Hw). rewrite Hw in Hw'. by injection Hw' as <-.
  - intros id slots t free running t' c Hid. destruct (Hlost id Hid) as (w & Hw).
    unfold RegisterWorker, register, OfferResources. rewrite Hc', Hw. cbn.
    by destruct (_ || _).
  - intros id Hid. by rewrite Hws, decide_False.
  - intros key i t. unfold get_task. destruct (sets s !! key) as [set|] eqn:Hk; [|done]. cbn. intros Hi Hs.
    destruct (mv_sets _ _ M _ _ Hk) as (set' & -> & Hst). cbn. by eapply set_steps_succeeded.
Qed.

Lemma ExpireWorkers_correct_witness :
  exists s' lost, ExpireWorkers (sys_fifo example_live) 200 50 (fun _ _ => None) = Ok (s', lost) /\
    ("b" ∈ lost <-> exists w, workers (sys_fifo example_live) !! "b" = Some w /\
       wk_Status w = WorkerAlive /\ 50 <= 200 - wk_LastHeartbeat w).
Proof.
  destruct (ExpireWorkers_correct example_live 200 50 (fun _ _ => None) example_live_reachable)
    as (s' & lost & E & _ & Hl & _); [reflexivity|vm_compute; reflexivity|].
  exists s', lost. split; [exact E|apply Hl].
Defined.

(** ** Submission *)

(** Submission.  [ScheduleTaskSet] queues exactly the well-formed, fresh
    task sets of live contexts while the scheduler is open: nonempty, of one
    stage, with distinct task IDs and nonnegative distinct partitions and a
    valid shuffle input; the set then waits behind all earlier ones, every
    task pending, by ascending partition. *)
Theorem submitTaskSet_correct s input observer ctxErr :
  let key := mkKey (tset_JobID input) (tset_StageID input) (tset_StageAttemptID input) in
  (is_Ok (submitTaskSet s input observer ctxErr) = true <->
   observer = true /\ task_set_ok input /\ closed s = false /\ ctxErr = None /\ sets s !! key = None) /\
  forall s' k, submitTaskSet s input observer ctxErr = Ok (s', k) ->
    k = key /\ queue s' = queue s ++ [key] /\
    exists set, sets s' !! key = Some set /\ fs_terminal set = false /\
      fs_inputs set = tset_ShuffleInputs input /\ lt_task <$> fs_tasks set ≡ₚ tset_Tasks input /\
      StronglySorted partition_le (fs_tasks set) /\
      Forall (fun t => lt_state t = TaskPending /\ lt_attempts t = 0) (fs_tasks set).
Proof.
  intros key. split.
  - destruct (submitTaskSet s input observer ctxErr) as [[s' k]|] eqn:E; split; try done.
    + intros _. apply submitTaskSet_spec in E as (? & ? & ? & ? & -> & ? & _). done.
    + intros (? & ? & ? & ? & ?). exfalso.
      assert (E' : submitTaskSet s input observer ctxErr = Ok (mkScheduler (maxTaskAttempts s) (runID s) (workers s)
         (<[key := new_set input (nextSequence s)]> (sets s)) (queue s ++ [key]) (attempts s)
         (u64 (nextSequence s + 1)) (nextAttempt s) (closed s), key)).
      { apply submitTaskSet_spec. by split_and!. }
      congruence.
  - intros s' k (_ & (_ & _ & Hall & _) & _ & _ & -> & _ & ->)%submitTaskSet_spec. cbn.
    split; [done|]. split; [done|]. eexists. rewrite lookup_insert_eq. split; [done|]. cbn.
    split_and!; [done|done| |apply StronglySorted_merge_sort; apply _|].
    + rewrite merge_sort_Permutation, <- list_fmap_compose. cbn. by rewrite list_fmap_id.
    + apply Forall_forall. intros t Ht. rewrite merge_sort_Permutation in Ht.
      by apply list_elem_of_fmap in Ht as (u & -> & _).
Qed.

Lemma submitTaskSet_correct_witness :
  is_Ok (submitTaskSet (sys_fifo example_mid) (mkTaskSet None 8%N 0%N 0%N [example_task 0]) true None) = true.
Proof.
  apply (proj1 (submitTaskSet_correct (sys_fifo example_mid) (mkTaskSet None 8%N 0%N 0%N [example_task 0]) true None)).
  split_and!; [reflexivity| |vm_compute; reflexivity|reflexivity|vm_compute; reflexivity].
  split_and!; [discriminate|exact I| | |].
  - repeat constructor. discriminate.
  - apply NoDup_singleton.
  - apply NoDup_singleton.
Defined.
