(* ===== verification/Dag.v ===== *)
(** * Dag: jobs, stages and recovery

    Models [scheduler/{dag_scheduler,dag_stage_execution,dag_recovery,event}.go].
    The event loop runs one handler at a time, so a handler is a function from
    the scheduler's state to its next state and the effects it has outside the
    loop: answers on response channels, task sets handed to the physical
    scheduler, cancelled contexts.  An outer [Err] is a run-time panic.

    [ctx] and [ctx'] are the values of [job.ctx.Err()] at the first and the
    second time a handler reads it.  A response channel is named by its job. *)

From S2P Require Import Prelude Bytes Plan Stages Planner TaskGenerator Shuffle Reports Fifo.
#[local] Open Scope Z_scope.

Definition ErrSchedulerClosed : error := Sentinel "DAG scheduler is closed".

(** ** State *)

Inductive stageExecutionStatus := stagePending | stageRunning | stageSucceeded.

#[export] Instance stageExecutionStatus_eq_dec : EqDecision stageExecutionStatus.
Proof. solve_decision. Defined.

(** [sg_cancel] says the stage's [CancelFunc] is not nil. *)
Record stageState := mkStageState {
  sg_stage : Stage;
  sg_attemptID : StageAttemptID;
  sg_status : stageExecutionStatus;
  sg_attempts : Z;
  sg_cancel : bool;
  sg_tasks : list Task;
  sg_remaining : Z;
  sg_outputs : gmap PartitionID TaskOutput }.

Record jobState := mkJob {
  js_action : ActionSpec;
  js_runID : string;
  js_stages : gmap StageID stageState;
  js_order : list StageID;
  js_resultStageID : StageID }.

(** [dag_planner] is the planner's lookup and [dag_taskScheduler] says the
    physical scheduler is not nil. *)
Record dag := mkDag {
  dag_maxStageAttempts : Z;
  dag_planner : option FunctionLookup;
  dag_taskScheduler : bool;
  dag_jobs : gmap JobID jobState;
  dag_nextStageAttemptID : StageAttemptID;
  dag_stopping : bool }.

Record JobResult := mkResult {
  jr_Records : option (list any);
  jr_Count : Z }.

Definition jobCompletion : Type := result JobResult.

Inductive effect :=
  | Respond (job : JobID) (completion : jobCompletion)
  | CancelJob (job : JobID)
  | CancelStage (job : JobID) (stage : StageID) (attempt : StageAttemptID)
  | WatchCancellation (job : JobID)
  | StartTaskSet (set : TaskSet)
  | Stopped.

Definition with_jobs (f : gmap JobID jobState -> gmap JobID jobState) (s : dag) : dag :=
  mkDag (dag_maxStageAttempts s) (dag_planner s) (dag_taskScheduler s) (f (dag_jobs s))
    (dag_nextStageAttemptID s) (dag_stopping s).
Definition with_next (n : StageAttemptID) (s : dag) : dag :=
  mkDag (dag_maxStageAttempts s) (dag_planner s) (dag_taskScheduler s) (dag_jobs s) n (dag_stopping s).
Definition with_stages (f : gmap StageID stageState -> gmap StageID stageState) (j : jobState) : jobState :=
  mkJob (js_action j) (js_runID j) (f (js_stages j)) (js_order j) (js_resultStageID j).
Definition with_runID (r : string) (j : jobState) : jobState :=
  mkJob (js_action j) r (js_stages j) (js_order j) (js_resultStageID j).

(** [functions] is the lookup given to [NewPlanner]. *)
Definition NewDAGScheduler (functions : option FunctionLookup) (taskScheduler : bool)
    (options : list Option') : result dag :=
  config ← resolveSchedulerOptions options;
  Ok {| dag_maxStageAttempts := op_maxStageAttempts config; dag_planner := functions;
        dag_taskScheduler := taskScheduler; dag_jobs := ∅; dag_nextStageAttemptID := 0%N;
        dag_stopping := false |}.

(** ** Ending a job *)

Definition failJob (s : dag) (jobID : JobID) (err : error) : dag * list effect :=
  match dag_jobs s !! jobID with
  | None => (s, [])
  | Some _ => (with_jobs (delete jobID) s, [CancelJob jobID; Respond jobID (Err err)])
  end.

(** [append] of records: appending nothing keeps a nil slice nil. *)
Definition appendRecords (rs : option (list any)) (more : option (list any)) : option (list any) :=
  match default [] more with
  | [] => rs
  | more => Some (default [] rs ++ more)
  end.

(** A missing map entry reads as the zero output. *)
Definition mergeOutput (kind : ActionKind) (r : JobResult) (o : TaskOutput) : JobResult :=
  match kind with
  | ActionCollect => mkResult (appendRecords (jr_Records r) (to_Records o)) (jr_Count r)
  | ActionCount => mkResult (jr_Records r) (i64 (jr_Count r + to_Count o))
  | ActionOther _ => r
  end.

Definition mergeTaskOutputs (kind : ActionKind) (outputs : gmap PartitionID TaskOutput) : JobResult :=
  foldl (fun r p => mergeOutput kind r (default zeroOutput (outputs !! Z.of_nat p)))
    (mkResult None 0) (seq 0 (size outputs)).

(** ** Starting stages *)

(** The state [startReadyStages] threads. *)
Record launch := mkLaunch {
  ln_job : jobState;
  ln_next : StageAttemptID;
  ln_effects : list effect }.

Fixpoint parentsReady (stages : gmap StageID stageState) (parents : list StageID) : result bool :=
  match parents with
  | [] => Ok true
  | parent :: parents =>
      match stages !! parent with
      | None => Err panic_nil
      | Some p =>
          ready ← parentsReady stages parents;
          Ok (bool_decide (sg_status p = stageSucceeded) && ready)
      end
  end.

(** [*outputs[partition].ShuffleOutput] for every task of the parent. *)
Fixpoint collectOutputs (outputs : gmap PartitionID TaskOutput) (partitions : list nat)
    : result (list MapOutput) :=
  match partitions with
  | [] => Ok []
  | p :: partitions =>
      match to_ShuffleOutput (default zeroOutput (outputs !! Z.of_nat p)) with
      | None => Err panic_nil
      | Some o => os ← collectOutputs outputs partitions; Ok (o :: os)
      end
  end.

(** The input snapshot of a stage with parents; the inner error is the one
    [startReadyStages] returns. *)
Definition buildInputs (jobID : JobID) (job : jobState) (id : StageID) (stage : stageState)
    (parentID : StageID) : result (result InputSnapshot) :=
  match js_stages job !! parentID with
  | None => Err panic_nil
  | Some parent =>
      match st_ShuffleWrite (sg_stage parent) with
      | None => Err panic_nil
      | Some w =>
          outputs ← collectOutputs (sg_outputs parent) (seq 0 (length (sg_tasks parent)));
          let inputs :=
            {| is_RunID := js_runID job; is_JobID := jobID; is_ShuffleID := sw_ShuffleID w;
               is_StageID := st_ID (sg_stage parent); is_StageAttemptID := sg_attemptID parent;
               is_NumMapPartitions := Z.of_nat (length (sg_tasks parent));
               is_NumReducePartitions := st_NumPartitions (sg_stage stage);
               is_Outputs := outputs |} in
          Ok (match validateSnapshot inputs with
              | Err err => Err (Errorf "build stage %d inputs: %w" [FInt (Z.of_N id); FWrap err])
              | Ok _ => Ok inputs
              end)
      end
  end.

Definition startedStage (attempt : StageAttemptID) (st : stageState) : stageState :=
  mkStageState (sg_stage st) attempt stageRunning (sg_attempts st + 1) true (sg_tasks st)
    (sg_remaining st) (sg_outputs st).

(** The body of the loop of [startReadyStages] for the stage [id]. *)
Definition startStage (max : Z) (jobID : JobID) (l : launch) (id : StageID)
    : result (launch * option error) :=
  let job := ln_job l in
  match js_stages job !! id with
  | None => Err panic_nil
  | Some stage =>
      if negb (bool_decide (sg_status stage = stagePending)) then Ok (l, None)
      else
        ready ← parentsReady (js_stages job) (st_ParentIDs (sg_stage stage));
        if negb ready then Ok (l, None)
        else if max <=? sg_attempts stage then
          Ok (l, Some (Errorf "stage %d exhausted its %d stage attempts" [FInt (Z.of_N id); FInt max]))
        else
          inputs ← match st_ParentIDs (sg_stage stage) with
                   | [] => Ok (Ok None)
                   | parentID :: _ =>
                       r ← buildInputs jobID job id stage parentID;
                       Ok (match r with Ok i => Ok (Some i) | Err e => Err e end)
                   end;
          match inputs with
          | Err err => Ok (l, Some err)
          | Ok inputs =>
              let set := mkTaskSet inputs jobID id (ln_next l) (sg_tasks stage) in
              Ok (mkLaunch (with_stages (insert id (startedStage (ln_next l) stage)) job)
                    (u64 (ln_next l + 1)) (ln_effects l ++ [StartTaskSet set]), None)
          end
  end.

Fixpoint startStages (max : Z) (jobID : JobID) (l : launch) (order : list StageID)
    : result (launch * option error) :=
  match order with
  | [] => Ok (l, None)
  | id :: order =>
      r ← startStage max jobID l id;
      match r with
      | (l, Some err) => Ok (l, Some err)
      | (l, None) => startStages max jobID l order
      end
  end.

Definition startReadyStages (max : Z) (jobID : JobID) (ctx : option error) (l : launch)
    : result (launch * option error) :=
  match ctx with
  | Some err => Ok (l, Some err)
  | None => startStages max jobID l (js_order (ln_job l))
  end.

(** [if err := s.startReadyStages(...); err != nil { s.failJob(...) }], on a job
    that is (or has just been) put in [jobs]. *)
Definition startOrFail (s : dag) (jobID : JobID) (ctx : option error) (job : jobState)
    (effects : list effect) : result (dag * list effect) :=
  r ← startReadyStages (dag_maxStageAttempts s) jobID ctx (mkLaunch job (dag_nextStageAttemptID s) effects);
  let '(l, err) := r in
  let s := with_next (ln_next l) (with_jobs (insert jobID (ln_job l)) s) in
  match err with
  | None => Ok (s, ln_effects l)
  | Some err => let '(s, es) := failJob s jobID err in Ok (s, ln_effects l ++ es)
  end.

(** ** Submission *)

Definition rejectJob (s : dag) (jobID : JobID) (err : error) : dag * list effect :=
  (s, [Respond jobID (Err err)]).

Definition newStageState (st : Stage) : stageState :=
  mkStageState st 0%N stagePending 0 false [] (st_NumPartitions st) ∅.

(** The first loop over the stages of the plan. *)
Definition addStage (j : jobState) (st : Stage) : jobState :=
  mkJob (js_action j) (js_runID j) (<[st_ID st := newStageState st]> (js_stages j))
    (js_order j ++ [st_ID st])
    (if bool_decide (st_Kind st = StageResult) then st_ID st else js_resultStageID j).

Definition addStageTask (t : Task) (st : stageState) : stageState :=
  mkStageState (sg_stage st) (sg_attemptID st) (sg_status st) (sg_attempts st) (sg_cancel st)
    (sg_tasks st ++ [t]) (sg_remaining st) (sg_outputs st).

(** The second loop, over the tasks. *)
Fixpoint addTasks (j : jobState) (tasks : list Task) : result jobState :=
  match tasks with
  | [] => Ok j
  | t :: tasks =>
      match js_stages j !! t_StageID t with
      | None => Err panic_nil
      | Some st => addTasks (with_stages (insert (t_StageID t) (addStageTask t st)) j) tasks
      end
  end.

Definition newJob (a : ActionSpec) (p : StagePlan) (tasks : list Task) : result jobState :=
  addTasks (foldl addStage (mkJob a "" ∅ [] 0%N) (sp_Stages p)) tasks.

(** The planning of a job: its plan and tasks, the error it is rejected with, or
    the panic of a call. *)
Definition planJob (s : dag) (g : option RDDGraph) (a : ActionSpec) : fuelled (StagePlan * list Task) :=
  p ←? PlanAction (Some (dag_planner s)) g a;
  match validateExecutionPlan p with
  | Err e => Some (Err e)
  | Ok _ =>
      match GenerateTasks p with
      | Err e => Some (Err e)
      | Ok tasks => Some (Ok (p, tasks))
      end
  end.

(** [None] when planning runs out of fuel, which it does not on a graph built by
    [AddNode].  A panic in planning is one of the event loop. *)
Definition handleJobSubmitted (s : dag) (jobID : JobID) (ctx : option error) (g : option RDDGraph)
    (a : ActionSpec) : fuelled (dag * list effect) :=
  if dag_stopping s then Some (Ok (rejectJob s jobID ErrSchedulerClosed))
  else if negb (dag_taskScheduler s) then
    Some (Ok (rejectJob s jobID (Errorf "task scheduler is nil" [])))
  else
    match planJob s g a with
    | None => None
    | Some (Err e) => if is_panic e then Some (Err e) else Some (Ok (rejectJob s jobID e))
    | Some (Ok (p, tasks)) =>
        Some (job ← newJob a p tasks;
              startOrFail s jobID ctx job [WatchCancellation jobID])
    end.

(** ** Reports *)

(** [Ok None] is the nil job of an ignored report. *)
Definition pendingTask (s : dag) (jobID : JobID) (stageID : StageID) (attempt : TaskAttemptIdentity)
    (partition : PartitionID) : option (jobState * stageState * Task) :=
  job ← dag_jobs s !! jobID;
  stage ← js_stages job !! stageID;
  if negb (bool_decide (sg_status stage = stageRunning)) ||
     negb (ta_StageAttemptID attempt =? sg_attemptID stage)%N || (partition <? 0) ||
     (Z.of_nat (length (sg_tasks stage)) <=? partition)
  then None
  else
    task ← sg_tasks stage !! Z.to_nat partition;
    if negb (t_ID task =? ta_TaskID attempt)%N then None
    else if bool_decide (is_Some (sg_outputs stage !! partition)) then None
    else Some (job, stage, task).

(** [stage.outputs[partition] = output; stage.remaining--]. *)
Definition addOutput (p : PartitionID) (o : TaskOutput) (st : stageState) : stageState :=
  mkStageState (sg_stage st) (sg_attemptID st) (sg_status st) (sg_attempts st) (sg_cancel st)
    (sg_tasks st) (sg_remaining st - 1) (<[p := o]> (sg_outputs st)).

Definition with_status (status : stageExecutionStatus) (st : stageState) : stageState :=
  mkStageState (sg_stage st) (sg_attemptID st) status (sg_attempts st) (sg_cancel st)
    (sg_tasks st) (sg_remaining st) (sg_outputs st).

(** The run a report is checked against: the first map output decides it. *)
Definition reportRun (job : jobState) (o : TaskOutput) : string :=
  match to_ShuffleOutput o with
  | Some m => if bool_decide (js_runID job = "") then ai_RunID (mo_Attempt m) else js_runID job
  | None => js_runID job
  end.

Definition put_job (jobID : JobID) (job : jobState) (s : dag) : dag := with_jobs (insert jobID job) s.

Definition handleTaskSucceeded (s : dag) (report : TaskAttemptSuccess) (ctx ctx' : option error)
    : result (dag * list effect) :=
  let jobID := ts_JobID report in
  let stageID := ts_StageID report in
  match pendingTask s jobID stageID (ts_Attempt report) (ts_PartitionID report) with
  | None => Ok (s, [])
  | Some (job, stage, task) =>
      match ctx with
      | Some err => Ok (failJob s jobID err)
      | None =>
          let runID := reportRun job (ts_Output report) in
          match ValidateFor (ts_Output report)
                  (mkExecution runID jobID task (ts_Attempt report) "" None) with
          | Err err => Ok (failJob s jobID (Errorf "invalid stage output: %w" [FWrap err]))
          | Ok _ =>
              let job := if bool_decide (st_Kind (sg_stage stage) = StageShuffleMap)
                         then with_runID runID job else job in
              let stage := addOutput (ts_PartitionID report) (ts_Output report) stage in
              if negb (sg_remaining stage =? 0) then
                Ok (put_job jobID (with_stages (insert stageID stage) job) s, [])
              else
                let stage := with_status stageSucceeded stage in
                let job := with_stages (insert stageID stage) job in
                if negb (stageID =? js_resultStageID job)%N then
                  startOrFail s jobID ctx' job []
                else
                  Ok (with_jobs (delete jobID) s,
                      [CancelJob jobID;
                       Respond jobID (Ok (mergeTaskOutputs (act_Kind (js_action job)) (sg_outputs stage)))])
          end
      end
  end.

(** ** Recovery *)

Definition resetStage (st : stageState) : stageState :=
  mkStageState (sg_stage st) (sg_attemptID st) stagePending (sg_attempts st) false (sg_tasks st)
    (Z.of_nat (length (sg_tasks st))) ∅.

(** [inl err]: the error [recoverShuffle] returns before it changes anything;
    [inr]: both stages are reset, with the cancellations made. *)
Definition prepareRecovery (max : Z) (jobID : JobID) (job : jobState) (child : stageState)
    (report : TaskAttemptFailure) : result (error + (jobState * list effect)) :=
  let stageID := tf_StageID report in
  let noParent := Errorf "stage %d has no recoverable shuffle parent" [FInt (Z.of_N stageID)] in
  let noComplete := Errorf "stage %d has no completed shuffle parent" [FInt (Z.of_N stageID)] in
  match st_ParentIDs (sg_stage child) with
  | [parentID] =>
      if negb (bool_decide (st_Kind (sg_stage child) = StageResult)) then Ok (inl noParent)
      else
        match js_stages job !! parentID with
        | None => Ok (inl noComplete)
        | Some parent =>
            if negb (bool_decide (st_Kind (sg_stage parent) = StageShuffleMap)) ||
               negb (bool_decide (sg_status parent = stageSucceeded)) then Ok (inl noComplete)
            else
              match ValidateFailure (tf_Kind report) (tf_ShuffleInput report) with
              | Err err => Ok (inl (Errorf "invalid shuffle failure: %w" [FWrap err]))
              | Ok _ =>
                  match tf_ShuffleInput report with
                  | None => Err panic_nil
                  | Some ref =>
                      let accepted := to_ShuffleOutput (default zeroOutput
                        (sg_outputs parent !! ai_MapPartitionID (ir_Attempt ref))) in
                      if negb (ir_PartitionID ref =? tf_PartitionID report) ||
                         negb (match accepted with
                               | Some m => bool_decide (mo_Attempt m = ir_Attempt ref)
                               | None => false
                               end)
                      then Ok (inl (Errorf "shuffle failure does not reference a current accepted input for stage %d"
                                      [FInt (Z.of_N stageID)]))
                      else
                        match List.find (fun st => max <=? sg_attempts st) [parent; child] with
                        | Some st =>
                            Ok (inl (Errorf "stage %d exhausted its %d stage attempts after shuffle input failure: %s"
                                       [FInt (Z.of_N (st_ID (sg_stage st))); FInt max; FStr (tf_Error report)]))
                        | None =>
                            if negb (sg_cancel parent) || negb (sg_cancel child) then Err panic_nil
                            else
                              Ok (inr (with_stages (fun m => <[stageID := resetStage child]>
                                                      (<[parentID := resetStage parent]> m)) job,
                                       [CancelStage jobID parentID (sg_attemptID parent);
                                        CancelStage jobID stageID (sg_attemptID child)]))
                        end
                  end
              end
        end
  | _ => Ok (inl noParent)
  end.

Definition handleTaskFailed (s : dag) (report : TaskAttemptFailure) (ctx ctx' : option error)
    : result (dag * list effect) :=
  let jobID := tf_JobID report in
  match pendingTask s jobID (tf_StageID report) (tf_Attempt report) (tf_PartitionID report) with
  | None => Ok (s, [])
  | Some (job, stage, _) =>
      match ctx with
      | Some err => Ok (failJob s jobID err)
      | None =>
          if bool_decide (tf_Kind report = FailureShuffleInput) then
            r ← prepareRecovery (dag_maxStageAttempts s) jobID job stage report;
            match r with
            | inl err => Ok (failJob s jobID err)
            | inr (job, effects) => startOrFail s jobID ctx' job effects
            end
          else
            Ok (failJob s jobID (Errorf "stage %d task %d partition %d: %s"
              [FInt (Z.of_N (tf_StageID report)); FInt (Z.of_N (ta_TaskID (tf_Attempt report)));
               FInt (tf_PartitionID report); FStr (tf_Error report)]))
      end
  end.

(** ** The other events *)

Definition handleTaskSetFinished (s : dag) (jobID : JobID) (stageID : StageID)
    (attempt : StageAttemptID) (err ctx : option error) : dag * list effect :=
  match dag_jobs s !! jobID with
  | None => (s, [])
  | Some job =>
      match js_stages job !! stageID with
      | None => (s, [])
      | Some stage =>
          if negb (bool_decide (sg_status stage = stageRunning)) || negb (sg_attemptID stage =? attempt)%N
          then (s, [])
          else
            let unfinished := Errorf "task scheduler exited with %d unfinished partitions"
                                [FInt (sg_remaining stage)] in
            failJob s jobID (default (default unfinished err) ctx)
      end
  end.

(** Map iteration order is not specified; the jobs are independent. *)
Definition handleStopping (s : dag) : dag * list effect :=
  let s := mkDag (dag_maxStageAttempts s) (dag_planner s) (dag_taskScheduler s) (dag_jobs s)
             (dag_nextStageAttemptID s) true in
  let '(s, es) := foldl (fun r jobID => let '(s, es) := failJob r.1 jobID ErrSchedulerClosed in
                                        (s, r.2 ++ es)) (s, []) (map_to_list (dag_jobs s)).*1 in
  (s, es ++ [Stopped]).

Inductive schedulerEvent :=
  | jobSubmitted (jobID : JobID) (ctx : option error) (graph : option RDDGraph) (action : ActionSpec)
  | taskSucceeded (r : TaskAttemptSuccess) (ctx ctx' : option error)
  | taskFailed (r : TaskAttemptFailure) (ctx ctx' : option error)
  | taskSetFinished (jobID : JobID) (stageID : StageID) (attempt : StageAttemptID) (err ctx : option error)
  | jobCanceled (jobID : JobID) (err : error)
  | schedulerStopping.

Definition handleEvent (s : dag) (e : schedulerEvent) : fuelled (dag * list effect) :=
  match e with
  | jobSubmitted jobID ctx graph action => handleJobSubmitted s jobID ctx graph action
  | taskSucceeded r ctx ctx' => Some (handleTaskSucceeded s r ctx ctx')
  | taskFailed r ctx ctx' => Some (handleTaskFailed s r ctx ctx')
  | taskSetFinished jobID stageID attempt err ctx =>
      Some (Ok (handleTaskSetFinished s jobID stageID attempt err ctx))
  | jobCanceled jobID err => Some (Ok (failJob s jobID err))
  | schedulerStopping => Some (Ok (handleStopping s))
  end.

(** ** The observer of a submission *)

Definition observeSucceeded (jobID : JobID) (stageID : StageID) (attempt : StageAttemptID)
    (r : TaskAttemptSuccess) : bool :=
  bool_decide (ts_JobID r = jobID) && bool_decide (ts_StageID r = stageID) &&
  bool_decide (ta_StageAttemptID (ts_Attempt r) = attempt).

Definition observeFailed (jobID : JobID) (stageID : StageID) (attempt : StageAttemptID)
    (r : TaskAttemptFailure) : bool :=
  bool_decide (tf_JobID r = jobID) && bool_decide (tf_StageID r = stageID) &&
  bool_decide (ta_StageAttemptID (tf_Attempt r) = attempt).
