(* ===== verification/DagProofs.v ===== *)
(** * DagProofs: the invariant of an active job

    Between two events every active job has exactly one running stage: the
    result stage of a narrow job, or the map stage or the result stage of a
    job with one shuffle.  Starting the next stage is the only step between the
    phases, and is specified here once. *)

From S2P Require Import Prelude Bytes Plan Stages Planner TaskGenerator Shuffle Reports Fifo FifoSystem Dag.
#[local] Open Scope Z_scope.

(** ** Stages *)

(** The logical tasks of a stage: one per partition, in order. *)
Definition tasks_of (st : Stage) (id : StageID) (tasks : list Task) : Prop :=
  tasks <> [] /\ NoDup (t_ID <$> tasks) /\
  forall i t, tasks !! i = Some t ->
    t_StageID t = id /\ t_StageKind t = st_Kind st /\ t_PartitionID t = Z.of_nat i /\
    t_NumPartitions t = Z.of_nat (length tasks) /\ t_ShuffleWrite t = st_ShuffleWrite st /\
    t_FinalAction t = st_FinalAction st.

(** The output stored for a partition is one of an attempt of its task, in the
    stage attempt that runs or ran. *)
Definition accepted (run : string) (jobID : JobID) (st : stageState) (p : PartitionID) (o : TaskOutput) : Prop :=
  0 <= p /\ exists task attempt,
    sg_tasks st !! Z.to_nat p = Some task /\
    output_ok o (mkExecution run jobID task (mkAttempt attempt (t_ID task) (sg_attemptID st)) "" None).

Record stage_inv (max : Z) (next : StageAttemptID) (run : string) (jobID : JobID) (id : StageID)
    (st : stageState) : Prop := {
  sgi_id : st_ID (sg_stage st) = id;
  sgi_two : (id < 2)%N;
  sgi_tasks : tasks_of (sg_stage st) id (sg_tasks st);
  sgi_attempts : 0 <= sg_attempts st <= max;
  sgi_outputs p o : sg_outputs st !! p = Some o -> accepted run jobID st p o;
  sgi_remaining : sg_remaining st = Z.of_nat (length (sg_tasks st)) - Z.of_nat (size (sg_outputs st));
  sgi_pending : sg_status st = stagePending -> sg_outputs st = ∅;
  sgi_running : sg_status st = stageRunning -> 0 < sg_remaining st;
  sgi_succeeded : sg_status st = stageSucceeded -> sg_remaining st = 0;
  sgi_started : sg_status st <> stagePending ->
    (sg_attemptID st < next)%N /\ sg_cancel st = true /\ 0 < sg_attempts st }.

(** ** Jobs *)

(** The stages of a job: a result stage, behind a map stage or not. *)
Definition job_is (job : jobState) (m : option (StageID * stageState)) (c : StageID) (cs : stageState) : Prop :=
  js_resultStageID job = c /\ st_Kind (sg_stage cs) = StageResult /\
  st_FinalAction (sg_stage cs) = Some (js_action job) /\
  match m with
  | None => js_order job = [c] /\ js_stages job = {[c := cs]} /\ st_ParentIDs (sg_stage cs) = []
  | Some (mid, ms) =>
      js_order job = [mid; c] /\ mid <> c /\ js_stages job = <[mid := ms]> {[c := cs]} /\
      st_ParentIDs (sg_stage cs) = [mid] /\ st_ParentIDs (sg_stage ms) = [] /\
      st_Kind (sg_stage ms) = StageShuffleMap /\ is_Some (st_ShuffleWrite (sg_stage ms)) /\
      st_FinalAction (sg_stage ms) = None
  end.

(** The phases of an active job, and those in which a stage is about to start. *)
Definition phase (m : option (StageID * stageState)) (cs : stageState) : Prop :=
  match m with
  | None => sg_status cs = stageRunning
  | Some (_, ms) =>
      (sg_status ms = stageRunning /\ sg_status cs = stagePending) \/
      (sg_status ms = stageSucceeded /\ sg_status cs = stageRunning)
  end.

Definition startable (m : option (StageID * stageState)) (cs : stageState) : Prop :=
  sg_status cs = stagePending /\
  match m with
  | None => True
  | Some (_, ms) => sg_status ms = stagePending \/ sg_status ms = stageSucceeded
  end.

Definition stages_inv (max : Z) (next : StageAttemptID) (jobID : JobID) (job : jobState) : Prop :=
  forall id st, js_stages job !! id = Some st -> stage_inv max next (js_runID job) jobID id st.

Definition job_ok (max : Z) (next : StageAttemptID) (jobID : JobID) (job : jobState) : Prop :=
  stages_inv max next jobID job /\ exists m c cs, job_is job m c cs /\ phase m cs.

(** *** Lookups in the two shapes *)

Lemma job_is_result job m c cs : job_is job m c cs -> js_stages job !! c = Some cs.
Proof.
  intros (_ & _ & _ & H). destruct m as [[mid ms]|].
  - destruct H as (_ & Hne & -> & _). by rewrite lookup_insert_ne, lookup_singleton_eq.
  - destruct H as (_ & -> & _). by rewrite lookup_singleton_eq.
Qed.

Lemma job_is_map job mid ms c cs : job_is job (Some (mid, ms)) c cs -> js_stages job !! mid = Some ms.
Proof. intros (_ & _ & _ & _ & _ & -> & _). by rewrite lookup_insert_eq. Qed.

Lemma job_is_stage job m c cs id st :
  job_is job m c cs -> js_stages job !! id = Some st ->
  (id = c /\ st = cs) \/ (exists mid ms, m = Some (mid, ms) /\ id = mid /\ st = ms).
Proof.
  intros (_ & _ & _ & H) Hid. destruct m as [[mid ms]|].
  - destruct H as (_ & Hne & E & _). rewrite E in Hid. apply lookup_insert_Some in Hid as [[<- <-]|[_ Hid]].
    + right. by exists mid, ms.
    + apply lookup_singleton_Some in Hid as [<- <-]. by left.
  - destruct H as (_ & E & _). rewrite E in Hid. apply lookup_singleton_Some in Hid as [<- <-]. by left.
Qed.

(** Replacing a stage by one with the same plan. *)
Lemma job_is_put_result job m c cs cs' :
  job_is job m c cs -> sg_stage cs' = sg_stage cs -> job_is (with_stages (insert c cs') job) m c cs'.
Proof.
  intros (Hr & Hk & Hf & H) E. unfold job_is. rewrite E. split_and!; try done.
  destruct m as [[mid ms]|].
  - destruct H as (Ho & Hne & Es & Hrest). split; [done|]. split; [done|]. split; [|done].
    cbn. rewrite Es. rewrite insert_insert_ne by done. by rewrite insert_singleton_eq.
  - destruct H as (? & Es & ?). split_and!; try done. cbn. by rewrite Es, insert_singleton_eq.
Qed.

Lemma job_is_put_map job mid ms ms' c cs :
  job_is job (Some (mid, ms)) c cs -> sg_stage ms' = sg_stage ms ->
  job_is (with_stages (insert mid ms') job) (Some (mid, ms')) c cs.
Proof.
  intros (Hr & Hk & Hf & Ho & Hne & Es & Hrest) E. unfold job_is. rewrite E.
  split; [done|]. split; [done|]. split; [done|]. split; [done|]. split; [done|]. split; [|done].
  cbn. by rewrite Es, insert_insert_eq.
Qed.

(** ** Outputs *)

(** The run only matters to map outputs. *)
Lemma output_ok_run o e run :
  t_StageKind (te_Task e) <> StageShuffleMap -> output_ok o e ->
  output_ok o (mkExecution run (te_JobID e) (te_Task e) (te_Attempt e) (te_WorkerID e) (te_ShuffleInputs e)).
Proof. unfold output_ok. cbn. destruct (t_StageKind (te_Task e)); done. Qed.

Lemma output_ok_map o e :
  t_StageKind (te_Task e) = StageShuffleMap -> output_ok o e ->
  exists m w, to_ShuffleOutput o = Some m /\ t_ShuffleWrite (te_Task e) = Some w /\
    map_output_ok m /\ matchesAssignment m e w = true.
Proof.
  unfold output_ok. intros -> (w & m & Hw & _ & -> & Hm & Hma). exists m, w. done.
Qed.

Lemma matchesAssignment_spec m e w :
  matchesAssignment m e w = true <->
  mo_Attempt m = mkIdentity (te_RunID e) (te_JobID e) (sw_ShuffleID w) (t_StageID (te_Task e))
     (ta_StageAttemptID (te_Attempt e)) (t_ID (te_Task e)) (ta_ID (te_Attempt e)) (t_PartitionID (te_Task e)) /\
  mo_NumMapPartitions m = t_NumPartitions (te_Task e) /\
  mo_NumReducePartitions m = pt_NumPartitions (sw_Partitioner w).
Proof.
  unfold matchesAssignment. rewrite !andb_true_iff, !bool_decide_eq_true.
  destruct (mo_Attempt m); cbn. split.
  - intros H. destruct_and!. subst. done.
  - intros (E & -> & ->). injection E as -> -> -> -> -> -> -> ->. done.
Qed.

(** A map of [n] entries below [n] has them all. *)
Lemma full_map {A} (m : gmap Z A) n i :
  (forall p o, m !! p = Some o -> 0 <= p < Z.of_nat n) -> size m = n -> (i < n)%nat -> is_Some (m !! Z.of_nat i).
Proof.
  intros H Hn Hi. assert (Hsub : dom m ⊆ list_to_set (Z.of_nat <$> seq 0 n)).
  { intros p [o Ho]%elem_of_dom. apply H in Ho. apply elem_of_list_to_set, list_elem_of_fmap.
    exists (Z.to_nat p). split; [lia|]. apply elem_of_seq. lia. }
  assert (Heq : dom m = list_to_set (Z.of_nat <$> seq 0 n)).
  { apply set_subseteq_size_eq; [done|]. rewrite size_list_to_set, length_fmap, length_seq, size_dom; [lia|].
    apply NoDup_fmap; [intros ? ?; lia|apply NoDup_seq]. }
  apply elem_of_dom. rewrite Heq. apply elem_of_list_to_set, list_elem_of_fmap.
  exists i. split; [done|]. apply elem_of_seq. lia.
Qed.

(** The outputs of a stage are of its partitions. *)
Lemma outputs_range max next run jobID id st p o :
  stage_inv max next run jobID id st -> sg_outputs st !! p = Some o -> 0 <= p < Z.of_nat (length (sg_tasks st)).
Proof. intros H Ho. destruct (sgi_outputs _ _ _ _ _ _ H p o Ho) as (Hp & t & a & Ht%lookup_lt_Some & _). lia. Qed.

(** A stage has an output for each of its partitions exactly when none remains. *)
Lemma outputs_complete max next run jobID id st i :
  stage_inv max next run jobID id st -> sg_remaining st = 0 -> (i < length (sg_tasks st))%nat ->
  is_Some (sg_outputs st !! Z.of_nat i).
Proof.
  intros H Hrem Hi. pose proof (sgi_remaining _ _ _ _ _ _ H). apply (full_map _ (length (sg_tasks st))); [|lia|done].
  intros p o. by eapply outputs_range.
Qed.

(** A new stage attempt ID leaves every started stage in place. *)
Lemma stage_inv_next max next next' run jobID id st :
  stage_inv max next run jobID id st -> (next <= next')%N -> stage_inv max next' run jobID id st.
Proof.
  intros [] Hle. split; try done. intros Hs. destruct (sgi_started0 Hs) as (? & ? & ?). split_and!; [lia|done|done].
Qed.

(** ** Starting a stage *)

(** Where the inputs of a stage come from: the outputs its parent's current
    attempt has accepted, one per map partition. *)
Definition inputs_from (jobID : JobID) (job : jobState) (st : stageState) (inputs : option InputSnapshot) : Prop :=
  match st_ParentIDs (sg_stage st) with
  | [] => inputs = None
  | parent :: _ =>
      exists ps i, js_stages job !! parent = Some ps /\ sg_status ps = stageSucceeded /\
        inputs = Some i /\ snapshot_ok i /\ is_JobID i = jobID /\
        is_StageID i = st_ID (sg_stage ps) /\ is_StageAttemptID i = sg_attemptID ps /\
        length (is_Outputs i) = length (sg_tasks ps) /\
        forall k o, is_Outputs i !! k = Some o ->
          exists out, sg_outputs ps !! Z.of_nat k = Some out /\ to_ShuffleOutput out = Some o
  end.

Lemma collectOutputs_spec outputs ps :
  (forall p, p ∈ ps -> exists out o, outputs !! Z.of_nat p = Some out /\ to_ShuffleOutput out = Some o) ->
  exists os, collectOutputs outputs ps = Ok os /\ length os = length ps /\
    forall k o, os !! k = Some o -> exists p out, ps !! k = Some p /\
      outputs !! Z.of_nat p = Some out /\ to_ShuffleOutput out = Some o.
Proof.
  induction ps as [|p ps IH]; intros H; cbn.
  - exists []. done.
  - destruct (H p ltac:(set_solver)) as (out & o & Hout & Ho). rewrite Hout. cbn. rewrite Ho.
    destruct IH as (os & -> & Hlen & Hos); [set_solver|]. cbn. exists (o :: os).
    split; [done|]. split; [by rewrite <- Hlen|]. intros [|k] o'; cbn; [|apply Hos].
    intros [= <-]. by exists p, out.
Qed.

(** A succeeded map stage has a map output for every partition. *)
Lemma map_outputs max next run jobID id st :
  stage_inv max next run jobID id st -> sg_status st = stageSucceeded ->
  st_Kind (sg_stage st) = StageShuffleMap ->
  forall p, p ∈ seq 0 (length (sg_tasks st)) -> exists out o,
    sg_outputs st !! Z.of_nat p = Some out /\ to_ShuffleOutput out = Some o.
Proof.
  intros H Hs Hk p Hp%elem_of_seq.
  destruct (outputs_complete _ _ _ _ _ _ p H (sgi_succeeded _ _ _ _ _ _ H Hs)) as [out Hout]; [lia|].
  destruct (sgi_outputs _ _ _ _ _ _ H _ _ Hout) as (_ & t & a & Ht & Hok).
  destruct (sgi_tasks _ _ _ _ _ _ H) as (_ & _ & Htasks). destruct (Htasks _ _ Ht) as (_ & Hkt & _).
  apply output_ok_map in Hok as (o & w & Ho & _); [|cbn; congruence]. by exists out, o.
Qed.

Lemma buildInputs_spec max next jobID job id st parent ps :
  js_stages job !! parent = Some ps -> stage_inv max next (js_runID job) jobID parent ps ->
  sg_status ps = stageSucceeded -> st_Kind (sg_stage ps) = StageShuffleMap ->
  is_Some (st_ShuffleWrite (sg_stage ps)) ->
  exists r, buildInputs jobID job id st parent = Ok r /\
    forall i, r = Ok i -> snapshot_ok i /\ is_JobID i = jobID /\
      is_StageID i = st_ID (sg_stage ps) /\ is_StageAttemptID i = sg_attemptID ps /\
      length (is_Outputs i) = length (sg_tasks ps) /\
      forall k o, is_Outputs i !! k = Some o ->
        exists out, sg_outputs ps !! Z.of_nat k = Some out /\ to_ShuffleOutput out = Some o.
Proof.
  intros Hp H Hs Hk [w Hw]. unfold buildInputs. rewrite Hp, Hw.
  destruct (collectOutputs_spec (sg_outputs ps) (seq 0 (length (sg_tasks ps)))) as (os & -> & Hlen & Hos).
  { by eapply map_outputs. }
  cbn. eexists. split; [done|]. intros i Hi.
  destruct (validateSnapshot _) as [[]|e] eqn:Hv; [|done]. injection Hi as <-.
  apply validateSnapshot_spec in Hv. cbn. rewrite length_seq in Hlen. split_and!; try done.
  intros k o (p & out & Hpk & Hout & Ho)%Hos. apply lookup_seq in Hpk as [-> _]. by exists out.
Qed.

(** The loop body on a stage that can start. *)
Lemma startStage_ready max jobID l id st :
  js_stages (ln_job l) !! id = Some st -> sg_status st = stagePending ->
  stages_inv max (ln_next l) jobID (ln_job l) ->
  (forall parent, parent ∈ st_ParentIDs (sg_stage st) -> exists ps,
     js_stages (ln_job l) !! parent = Some ps /\ sg_status ps = stageSucceeded /\
     st_Kind (sg_stage ps) = StageShuffleMap /\ is_Some (st_ShuffleWrite (sg_stage ps))) ->
  exists l' err, startStage max jobID l id = Ok (l', err) /\
    match err with
    | Some _ => l' = l
    | None => sg_attempts st < max /\ exists inputs, inputs_from jobID (ln_job l) st inputs /\
        l' = mkLaunch (with_stages (insert id (startedStage (ln_next l) st)) (ln_job l)) (u64 (ln_next l + 1))
               (ln_effects l ++ [StartTaskSet (mkTaskSet inputs jobID id (ln_next l) (sg_tasks st))])
    end.
Proof.
  intros Hid Hst Hinv Hpar. unfold startStage, inputs_from. rewrite Hid, Hst.
  rewrite bool_decide_eq_true_2 by done. cbn [negb].
  assert (Hready : parentsReady (js_stages (ln_job l)) (st_ParentIDs (sg_stage st)) = Ok true).
  { revert Hpar. induction (st_ParentIDs (sg_stage st)) as [|p ps IH]; intros Hpar; cbn; [done|].
    destruct (Hpar p ltac:(set_solver)) as (q & -> & Hq & _). rewrite IH by set_solver. cbn.
    by rewrite bool_decide_eq_true_2. }
  rewrite Hready. cbn [mbind result_bind negb].
  destruct (Z.leb_spec max (sg_attempts st)); [by eexists l, _|].
  destruct (st_ParentIDs (sg_stage st)) as [|parent ps]; cbn.
  - eexists _, None. split; [done|]. split; [done|]. by exists None.
  - destruct (Hpar parent ltac:(set_solver)) as (q & Hq & Hqs & Hqk & Hqw).
    destruct (buildInputs_spec max (ln_next l) jobID (ln_job l) id st parent q) as (r & -> & Hr);
      [done|by apply Hinv|done..|]. cbn.
    destruct r as [i|e]; cbn; [|by eexists l, _].
    eexists _, None. split; [done|]. split; [done|]. exists (Some i). split; [|done].
    exists q, i. split_and!; try done; apply (Hr i eq_refl).
Qed.

Lemma startStage_skip max jobID l id st :
  js_stages (ln_job l) !! id = Some st -> sg_status st <> stagePending ->
  startStage max jobID l id = Ok (l, None).
Proof.
  intros Hid Hst. unfold startStage. rewrite Hid. by rewrite bool_decide_eq_false_2.
Qed.

Lemma startStage_waits max jobID l id st parent ps :
  js_stages (ln_job l) !! id = Some st -> st_ParentIDs (sg_stage st) = [parent] ->
  js_stages (ln_job l) !! parent = Some ps -> sg_status ps <> stageSucceeded ->
  startStage max jobID l id = Ok (l, None).
Proof.
  intros Hid Hpar Hp Hs. unfold startStage. rewrite Hid. destruct (negb _); [done|].
  rewrite Hpar. cbn. rewrite Hp. cbn. by rewrite bool_decide_eq_false_2.
Qed.

Lemma started_inv max next run jobID id st :
  stage_inv max next run jobID id st -> sg_status st = stagePending -> sg_attempts st < max ->
  stage_inv max (next + 1) run jobID id (startedStage next st).
Proof.
  intros H Hs Ha. pose proof (sgi_pending _ _ _ _ _ _ H Hs) as Ho.
  destruct (sgi_tasks _ _ _ _ _ _ H) as (Hne & _). destruct H. split; cbn; try done.
  - lia.
  - intros p o. rewrite Ho, lookup_empty. done.
  - intros _. rewrite sgi_remaining0, Ho, map_size_empty. destruct (sg_tasks st); [done|]. cbn. lia.
  - intros _. split_and!; [lia|done|lia].
Qed.

Lemma stages_inv_insert max next jobID job id st :
  stages_inv max next jobID job -> stage_inv max next (js_runID job) jobID id st ->
  stages_inv max next jobID (with_stages (insert id st) job).
Proof.
  intros H Hst k st'. cbn. rewrite lookup_insert_Some. intros [[<- <-]|[_ Hk]]; [done|by apply H].
Qed.

Lemma stages_inv_next max next next' jobID job :
  stages_inv max next jobID job -> (next <= next')%N -> stages_inv max next' jobID job.
Proof. intros H Hle id st Hid. eapply stage_inv_next; [by apply H|done]. Qed.

(** One stage of the job starts: which, with what, and what the job becomes. *)
Definition one_started (max : Z) (jobID : JobID) (l l' : launch) : Prop :=
  exists id st inputs, js_stages (ln_job l) !! id = Some st /\ sg_status st = stagePending /\
    sg_attempts st < max /\ inputs_from jobID (ln_job l) st inputs /\
    ln_job l' = with_stages (insert id (startedStage (ln_next l) st)) (ln_job l) /\
    ln_next l' = (ln_next l + 1)%N /\
    ln_effects l' = ln_effects l ++ [StartTaskSet (mkTaskSet inputs jobID id (ln_next l) (sg_tasks st))].

(** [startReadyStages] on a job with a stage to start: it starts exactly that
    stage, or fails without having started any. *)
Lemma startReadyStages_spec max jobID ctx l m c cs :
  job_is (ln_job l) m c cs -> startable m cs -> stages_inv max (ln_next l) jobID (ln_job l) ->
  (ln_next l + 1 < 2 ^ 64)%N ->
  exists l' err, startReadyStages max jobID ctx l = Ok (l', err) /\
    match err with
    | Some _ => l' = l
    | None => ctx = None /\ one_started max jobID l l' /\ job_ok max (ln_next l') jobID (ln_job l')
    end.
Proof.
  intros Hj [Hcs Hm] Hinv Hnext. unfold startReadyStages.
  destruct ctx as [err|]; [by eexists l, (Some err)|].
  pose proof (job_is_result _ _ _ _ Hj) as Hc.
  assert (Hfinish : forall id st, js_stages (ln_job l) !! id = Some st -> sg_status st = stagePending ->
    forall inputs, inputs_from jobID (ln_job l) st inputs -> sg_attempts st < max ->
    (exists m' cs', job_is (with_stages (insert id (startedStage (ln_next l) st)) (ln_job l)) m' c cs' /\
                    phase m' cs') ->
    let l' := mkLaunch (with_stages (insert id (startedStage (ln_next l) st)) (ln_job l)) (u64 (ln_next l + 1))
                (ln_effects l ++ [StartTaskSet (mkTaskSet inputs jobID id (ln_next l) (sg_tasks st))]) in
    one_started max jobID l l' /\ job_ok max (ln_next l') jobID (ln_job l')).
  { intros id st Hid Hst inputs Hin Ha (m' & cs' & Hj' & Hp') l'. cbn. rewrite u64_id by done. split.
    - exists id, st, inputs. cbn. by rewrite u64_id.
    - split; [|by exists m', c, cs']. apply stages_inv_insert.
      + eapply stages_inv_next; [done|lia].
      + apply started_inv; [by apply Hinv|done|done]. }
  destruct m as [[mid ms]|]; pose proof Hj as (_ & _ & _ & Hshape).
  - destruct Hshape as (-> & Hne & Es & Hpc & Hpm & Hkm & Hwm & _). cbn [startStages].
    pose proof (job_is_map _ _ _ _ _ Hj) as Hmid. destruct Hm as [Hm|Hm].
    + destruct (startStage_ready max jobID l mid ms) as (l' & err & E & Hr); try done.
      { rewrite Hpm. set_solver. }
      rewrite E. cbn [mbind result_bind]. destruct err as [err|]; [by eexists _, _|].
      destruct Hr as (Ha & inputs & Hin & ->). cbn -[startStage].
      assert (Hj' := job_is_put_map _ _ _ (startedStage (ln_next l) ms) _ _ Hj eq_refl).
      erewrite (startStage_waits max jobID _ c cs mid); cbn; [|by rewrite lookup_insert_ne|done|by rewrite lookup_insert_eq|done].
      eexists _, None. split; [done|]. split; [done|].
      apply Hfinish; try done. eexists _, _. split; [done|]. by left.
    + rewrite (startStage_skip max jobID l mid ms) by congruence. cbn [mbind result_bind].
      destruct (startStage_ready max jobID l c cs) as (l' & err & E & Hr); try done.
      { rewrite Hpc. intros parent ->%list_elem_of_singleton. by exists ms. }
      rewrite E. cbn. destruct err as [err|]; [by eexists _, _|].
      destruct Hr as (Ha & inputs & Hin & ->).
      eexists _, None. split; [done|]. split; [done|]. apply Hfinish; try done.
      eexists _, _. split; [by eapply job_is_put_result|]. by right.
  - destruct Hshape as (-> & Es & Hpc). cbn [startStages].
    destruct (startStage_ready max jobID l c cs) as (l' & err & E & Hr); try done.
    { rewrite Hpc. set_solver. }
    rewrite E. cbn. destruct err as [err|]; [by eexists _, _|].
    destruct Hr as (Ha & inputs & Hin & ->).
    eexists _, None. split; [done|]. split; [done|]. apply Hfinish; try done.
    eexists _, _. split; [by eapply job_is_put_result|]. done.
Qed.

(** ** The scheduler *)

Record dag_inv (s : dag) : Prop := {
  di_max : 0 < dag_maxStageAttempts s;
  di_jobs jobID job : dag_jobs s !! jobID = Some job ->
    job_ok (dag_maxStageAttempts s) (dag_nextStageAttemptID s) jobID job;
  di_stopping : dag_stopping s = true -> dag_jobs s = ∅ }.

(** What one handler may do to the scheduler: keep its configuration, consume
    stage attempt IDs, and change one job. *)
Definition same_config (s s' : dag) : Prop :=
  dag_maxStageAttempts s' = dag_maxStageAttempts s /\ dag_planner s' = dag_planner s /\
  dag_taskScheduler s' = dag_taskScheduler s /\ dag_stopping s' = dag_stopping s.

Lemma dag_inv_put s s' jobID job :
  dag_inv s -> same_config s s' -> dag_stopping s = false ->
  (dag_nextStageAttemptID s <= dag_nextStageAttemptID s')%N ->
  dag_jobs s' = <[jobID := job]> (dag_jobs s) ->
  job_ok (dag_maxStageAttempts s) (dag_nextStageAttemptID s') jobID job -> dag_inv s'.
Proof.
  intros H (Em & _ & _ & Es) Hs Hle Ej Hjob. split; [by rewrite Em; apply H| |congruence].
  intros k j. rewrite Ej, Em, lookup_insert_Some. intros [[<- <-]|[_ Hj]]; [done|].
  destruct (di_jobs _ H _ _ Hj) as [Hst Hp]. split; [|done]. by eapply stages_inv_next.
Qed.

Lemma dag_inv_delete s s' jobID :
  dag_inv s -> same_config s s' -> (dag_nextStageAttemptID s <= dag_nextStageAttemptID s')%N ->
  dag_jobs s' = delete jobID (dag_jobs s) -> dag_inv s'.
Proof.
  intros H (Em & _ & _ & Es) Hle Ej. split; [by rewrite Em; apply H| |].
  - intros k j. rewrite Ej, Em, lookup_delete_Some. intros [_ Hj].
    destruct (di_jobs _ H _ _ Hj) as [Hst Hp]. split; [|done]. by eapply stages_inv_next.
  - rewrite Es, Ej. intros Hs. by rewrite (di_stopping _ H Hs), delete_empty.
Qed.

(** [startOrFail]: the job is stored with one stage started, or it is answered
    with an error and gone. *)
Lemma startOrFail_spec s jobID ctx job effects m c cs :
  job_is job m c cs -> startable m cs ->
  stages_inv (dag_maxStageAttempts s) (dag_nextStageAttemptID s) jobID job ->
  (dag_nextStageAttemptID s + 1 < 2 ^ 64)%N ->
  exists s' es, startOrFail s jobID ctx job effects = Ok (s', es) /\ same_config s s' /\
    ((exists err, dag_jobs s' = delete jobID (dag_jobs s) /\
        dag_nextStageAttemptID s' = dag_nextStageAttemptID s /\
        es = effects ++ [CancelJob jobID; Respond jobID (Err err)]) \/
     (ctx = None /\ exists l', one_started (dag_maxStageAttempts s) jobID (mkLaunch job (dag_nextStageAttemptID s) effects) l' /\
        job_ok (dag_maxStageAttempts s) (dag_nextStageAttemptID s') jobID (ln_job l') /\
        dag_nextStageAttemptID s' = (dag_nextStageAttemptID s + 1)%N /\
        dag_jobs s' = <[jobID := ln_job l']> (dag_jobs s) /\ es = ln_effects l')).
Proof.
  intros Hj Hst Hinv Hnext. unfold startOrFail.
  destruct (startReadyStages_spec (dag_maxStageAttempts s) jobID ctx (mkLaunch job (dag_nextStageAttemptID s) effects)
    m c cs Hj Hst Hinv Hnext) as (l' & err & -> & Hr). cbn [mbind result_bind].
  destruct err as [err|].
  - rewrite Hr. unfold failJob. cbn. rewrite lookup_insert_eq. eexists _, _. split; [done|].
    split; [done|]. left. exists err. cbn. split; [|done]. apply delete_insert_eq.
  - destruct Hr as (Hctx & Hone & Hok). eexists _, _. split; [done|]. split; [done|]. right.
    split; [done|]. exists l'. cbn. split_and!; try done.
    destruct Hone as (? & ? & ? & _ & _ & _ & _ & _ & E & _). done.
Qed.
