(* ===== verification/DagEvents.v ===== *)
(** * DagEvents: what every handler of the event loop guarantees

    [handled] is the contract all handlers share; it is proved for each event
    from the phases of [DagProofs]. *)

From S2P Require Import Prelude Bytes Plan Lineage Stages Planner PlannerProofs TaskGenerator Shuffle Reports.
From S2P Require Import Fifo FifoSystem Dag DagProofs.
#[local] Open Scope Z_scope.

(** ** Effects *)

Definition responses (es : list effect) : list JobID :=
  omap (fun e => match e with Respond j _ => Some j | _ => None end) es.
Definition starts (es : list effect) : list TaskSet :=
  omap (fun e => match e with StartTaskSet set => Some set | _ => None end) es.

(** How often a stage was started among these task sets. *)
Definition started_count (job : JobID) (stage : StageID) (sets : list TaskSet) : Z :=
  Z.of_nat (length (List.filter (fun set => bool_decide (tset_JobID set = job /\ tset_StageID set = stage)) sets)).

Lemma responses_app es es' : responses (es ++ es') = responses es ++ responses es'.
Proof. apply omap_app. Qed.
Lemma starts_app es es' : starts (es ++ es') = starts es ++ starts es'.
Proof. apply omap_app. Qed.
Lemma started_count_app job stage l l' :
  started_count job stage (l ++ l') = started_count job stage l + started_count job stage l'.
Proof. unfold started_count. rewrite List.filter_app, length_app. lia. Qed.

(** ** The contract of a handler *)

Definition stage_of (s : dag) (jobID : JobID) (id : StageID) : option stageState :=
  job ← dag_jobs s !! jobID; js_stages job !! id.

Definition attempts_of (s : dag) (jobID : JobID) (id : StageID) : Z :=
  match stage_of s jobID id with Some st => sg_attempts st | None => 0 end.

(** The task set of a stage that has just started. *)
Definition set_started (s : dag) (jobID : JobID) (set : TaskSet) : Prop :=
  task_set_ok set /\ tset_JobID set = jobID /\
  exists job st, dag_jobs s !! jobID = Some job /\ js_stages job !! tset_StageID set = Some st /\
    sg_status st = stageRunning /\ sg_attemptID st = tset_StageAttemptID set /\
    sg_tasks st = tset_Tasks set /\ inputs_from jobID job st (tset_ShuffleInputs set).

(** [active] says the job must be answered: it was active, or is being submitted. *)
Record handled (active : bool) (s : dag) (jobID : JobID) (s' : dag) (es : list effect) : Prop := {
  hd_inv : dag_inv s';
  hd_config : same_config s s';
  hd_other k : k <> jobID -> dag_jobs s' !! k = dag_jobs s !! k;
  hd_answer :
    (responses es = [] /\ (is_Some (dag_jobs s' !! jobID) <-> active = true)) \/
    (responses es = [jobID] /\ active = true /\ dag_jobs s' !! jobID = None);
  hd_starts :
    (starts es = [] /\ dag_nextStageAttemptID s' = dag_nextStageAttemptID s) \/
    (exists set, starts es = [set] /\ tset_StageAttemptID set = dag_nextStageAttemptID s /\
       dag_nextStageAttemptID s' = (dag_nextStageAttemptID s + 1)%N /\ set_started s' jobID set);
  hd_count id :
    attempts_of s jobID id + started_count jobID id (starts es) <= dag_maxStageAttempts s /\
    (is_Some (dag_jobs s' !! jobID) ->
     attempts_of s' jobID id = attempts_of s jobID id + started_count jobID id (starts es)) }.

Definition is_active (s : dag) (jobID : JobID) : bool := bool_decide (is_Some (dag_jobs s !! jobID)).

Lemma same_config_refl s : same_config s s.
Proof. done. Qed.

Lemma attempts_of_bound s jobID id : dag_inv s -> 0 <= attempts_of s jobID id <= dag_maxStageAttempts s.
Proof.
  intros H. unfold attempts_of, stage_of. pose proof (di_max _ H).
  destruct (dag_jobs s !! jobID) as [job|] eqn:Hj; cbn; [|lia].
  destruct (js_stages job !! id) as [st|] eqn:Hst; [|lia].
  destruct (di_jobs _ H _ _ Hj) as [Hinv _]. apply (sgi_attempts _ _ _ _ _ _ (Hinv _ _ Hst)).
Qed.

Lemma handled_ignore s jobID : dag_inv s -> handled (is_active s jobID) s jobID s [].
Proof.
  intros H. split; try done.
  - left. split; [done|]. unfold is_active. by rewrite bool_decide_eq_true.
  - by left.
  - intros id. pose proof (attempts_of_bound s jobID id H). cbn. unfold started_count. cbn. split; [lia|]. intros _. lia.
Qed.

(** The job is answered and removed. *)
Lemma handled_answer s jobID c es :
  dag_inv s -> responses es = [] -> starts es = [] -> is_Some (dag_jobs s !! jobID) ->
  handled true s jobID (with_jobs (delete jobID) s) (es ++ [CancelJob jobID; Respond jobID c]).
Proof.
  intros H Hr Hst Hj. split; cbn.
  - by eapply dag_inv_delete.
  - done.
  - intros k Hk. by rewrite lookup_delete_ne.
  - right. rewrite responses_app, Hr. split; [done|]. split; [done|]. apply lookup_delete_eq.
  - left. rewrite starts_app, Hst. done.
  - intros id. rewrite starts_app, Hst. pose proof (attempts_of_bound s jobID id H).
    unfold started_count. cbn. split; [lia|]. rewrite lookup_delete_eq. by intros [].
Qed.

Lemma failJob_handled s jobID err s' es :
  dag_inv s -> failJob s jobID err = (s', es) -> handled (is_active s jobID) s jobID s' es.
Proof.
  intros H E. unfold failJob in E. destruct (dag_jobs s !! jobID) as [job|] eqn:Hj; injection E as <- <-.
  - unfold is_active. rewrite Hj, bool_decide_eq_true_2 by done.
    apply (handled_answer s jobID (Err err) []); [done..|]. rewrite Hj. done.
  - by apply handled_ignore.
Qed.

(** The job changes without a stage starting. *)
Lemma handled_put s jobID job job' :
  dag_inv s -> dag_jobs s !! jobID = Some job ->
  job_ok (dag_maxStageAttempts s) (dag_nextStageAttemptID s) jobID job' ->
  (forall id, sg_attempts <$> js_stages job' !! id = sg_attempts <$> js_stages job !! id) ->
  handled true s jobID (put_job jobID job' s) [].
Proof.
  intros H Hj Hok Hatt.
  assert (Hstop : dag_stopping s = false).
  { destruct (dag_stopping s) eqn:E; [|done]. rewrite (di_stopping _ H E), lookup_empty in Hj. done. }
  split; cbn.
  - by eapply dag_inv_put.
  - done.
  - intros k Hk. by rewrite lookup_insert_ne.
  - left. split; [done|]. by rewrite lookup_insert_eq.
  - by left.
  - intros id. pose proof (attempts_of_bound s jobID id H). unfold started_count. cbn.
    split; [lia|]. intros _. unfold attempts_of, stage_of. cbn. rewrite lookup_insert_eq, Hj. cbn.
    specialize (Hatt id). destruct (js_stages job' !! id), (js_stages job !! id); cbn in *; try done;
      injection Hatt as ->; lia.
Qed.

(** *** Starting *)

Lemma task_set_started s jobID job id st inputs :
  stage_inv (dag_maxStageAttempts s) (dag_nextStageAttemptID s) (js_runID job) jobID id st ->
  inputs_from jobID job st inputs ->
  task_set_ok (mkTaskSet inputs jobID id (dag_nextStageAttemptID s) (sg_tasks st)).
Proof.
  intros Hst Hin. destruct (sgi_tasks _ _ _ _ _ _ Hst) as (Hne & Hnd & Htasks).
  split_and!; cbn; [done| | |done|].
  - unfold inputs_from in Hin. destruct (st_ParentIDs (sg_stage st)); [by rewrite Hin|].
    destruct Hin as (ps & i & _ & _ & -> & Hi & _). done.
  - apply Forall_lookup. intros i t Ht. destruct (Htasks i t Ht) as (-> & _ & -> & _). split; [done|lia].
  - apply NoDup_fmap_2_strong; cycle 1.
    + eapply NoDup_fmap_1. exact Hnd.
    + intros t t' [i Hi]%list_elem_of_lookup [j Hj]%list_elem_of_lookup E.
      destruct (Htasks _ _ Hi) as (_ & _ & Ei & _), (Htasks _ _ Hj) as (_ & _ & Ej & _).
      assert (i = j) as -> by lia. congruence.
Qed.

(** [startOrFail] on a job whose stages were tried as often as before. *)
Lemma startOrFail_handled s jobID ctx job effects m c cs :
  dag_inv s -> dag_stopping s = false -> job_is job m c cs -> startable m cs ->
  stages_inv (dag_maxStageAttempts s) (dag_nextStageAttemptID s) jobID job ->
  (dag_nextStageAttemptID s + 1 < 2 ^ 64)%N ->
  responses effects = [] -> starts effects = [] ->
  (forall id, match js_stages job !! id with Some st => sg_attempts st | None => 0 end = attempts_of s jobID id) ->
  exists s' es, startOrFail s jobID ctx job effects = Ok (s', es) /\ handled true s jobID s' es.
Proof.
  intros H Hstop Hj Hst Hinv Hnext Hr Hs Hatt.
  destruct (startOrFail_spec s jobID ctx job effects m c cs Hj Hst Hinv Hnext) as (s' & es & E & Hcfg & Hcase).
  exists s', es. split; [done|]. destruct Hcase as [(err & Ejobs & En & ->)|(_ & l' & Hone & Hok & En & Ejobs & ->)].
  - split; [eapply dag_inv_delete; [done|done|rewrite En; lia|done]|done| | | |].
    + intros k Hk. by rewrite Ejobs, lookup_delete_ne.
    + right. rewrite responses_app, Hr, Ejobs. split; [done|]. split; [done|]. apply lookup_delete_eq.
    + left. rewrite starts_app, Hs. done.
    + intros id. rewrite starts_app, Hs. pose proof (attempts_of_bound s jobID id H).
      unfold started_count. cbn. split; [lia|]. rewrite Ejobs, lookup_delete_eq. by intros [].
  - destruct Hone as (id & st & inputs & Hid & Hp & Ha & Hin & El & _ & Ee). cbn in *.
    assert (Hs1 : starts (ln_effects l') = [mkTaskSet inputs jobID id (dag_nextStageAttemptID s) (sg_tasks st)]).
    { by rewrite Ee, starts_app, Hs. }
    split; [eapply dag_inv_put; try done; lia|done| | | |].
    + intros k Hk. by rewrite Ejobs, lookup_insert_ne.
    + left. rewrite Ee, responses_app, Hr. split; [done|]. by rewrite Ejobs, lookup_insert_eq.
    + right. rewrite Hs1. eexists. split; [done|]. split; [done|]. split; [done|].
      split; [by apply task_set_started with (job := job); [apply Hinv|]|]. split; [done|].
      exists (ln_job l'), (startedStage (dag_nextStageAttemptID s) st).
      rewrite Ejobs, lookup_insert_eq, El. cbn. rewrite lookup_insert_eq. split_and!; try done.
      unfold inputs_from in *. cbn. destruct (st_ParentIDs (sg_stage st)) as [|p ps]; [done|].
      destruct Hin as (q & i & Hq & Hqs & Hrest). exists q, i.
      rewrite lookup_insert_ne; [done|]. intros <-. congruence.
    + intros id'. rewrite Hs1. pose proof (attempts_of_bound s jobID id' H).
      pose proof (Hatt id') as Hatt'. unfold started_count. cbn.
      destruct (decide (id = id')) as [<-|Hne].
      * rewrite bool_decide_eq_true_2 by done. cbn. rewrite Hid in Hatt'. split; [lia|]. intros _.
        unfold attempts_of at 1, stage_of. rewrite Ejobs, lookup_insert_eq. cbn. rewrite El. cbn.
        rewrite lookup_insert_eq. cbn. lia.
      * rewrite bool_decide_eq_false_2 by naive_solver. cbn. split; [lia|]. intros _.
        unfold attempts_of at 1, stage_of. rewrite Ejobs, lookup_insert_eq. cbn. rewrite El. cbn.
        rewrite lookup_insert_ne by done. rewrite Hatt'. lia.
Qed.

(** ** Submission *)

Definition tasks_with (id : StageID) (tasks : list Task) : list Task :=
  List.filter (fun t => bool_decide (t_StageID t = id)) tasks.

Definition append_tasks (ts : list Task) (st : stageState) : stageState :=
  mkStageState (sg_stage st) (sg_attemptID st) (sg_status st) (sg_attempts st) (sg_cancel st)
    (sg_tasks st ++ ts) (sg_remaining st) (sg_outputs st).

Lemma addTasks_spec tasks j :
  (forall t, t ∈ tasks -> is_Some (js_stages j !! t_StageID t)) ->
  exists j', addTasks j tasks = Ok j' /\ js_action j' = js_action j /\ js_runID j' = js_runID j /\
    js_order j' = js_order j /\ js_resultStageID j' = js_resultStageID j /\
    forall id, js_stages j' !! id = append_tasks (tasks_with id tasks) <$> js_stages j !! id.
Proof.
  revert j. induction tasks as [|t tasks IH]; intros j H; cbn.
  - exists j. split_and!; try done. intros id. destruct (js_stages j !! id) as [st|]; [|done]. cbn. f_equal.
    destruct st. unfold append_tasks. cbn. by rewrite app_nil_r.
  - destruct (H t ltac:(set_solver)) as [st Hst]. rewrite Hst.
    destruct (IH (with_stages (insert (t_StageID t) (addStageTask t st)) j)) as (j' & E & E1 & E2 & E3 & E4 & Hj).
    { intros u Hu. cbn. apply lookup_insert_is_Some'. right. apply H. set_solver. }
    exists j'. split_and!; try done. intros id. rewrite Hj. cbn.
    destruct (decide (t_StageID t = id)) as [<-|Hne].
    + rewrite lookup_insert_eq, Hst, bool_decide_eq_true_2 by done. cbn. f_equal.
      unfold append_tasks. cbn. by rewrite <- app_assoc.
    + by rewrite lookup_insert_ne, bool_decide_eq_false_2 by done.
Qed.

Lemma tasks_with_stage s tasks : tasks_with (st_ID s) tasks = stage_tasks s tasks.
Proof. done. Qed.

(** The generated tasks of a stage are its logical tasks. *)
Lemma new_tasks_of s k :
  0 < st_NumPartitions s ->
  tasks_of s (st_ID s) ((fun i => newTask s (k + i) i) <$> seq 0 (Z.to_nat (st_NumPartitions s))) /\
  Z.of_nat (length ((fun i => newTask s (k + i) i) <$> seq 0 (Z.to_nat (st_NumPartitions s)))) = st_NumPartitions s.
Proof.
  intros Hpos. rewrite length_fmap, length_seq. split; [|lia]. split_and!.
  - destruct (Z.to_nat (st_NumPartitions s)) eqn:E; [lia|done].
  - rewrite <- list_fmap_compose. apply NoDup_fmap; [intros i j; cbn; lia|apply NoDup_seq].
  - intros i t. rewrite list_lookup_fmap. intros (j & Hj & ->)%fmap_Some.
    apply lookup_seq in Hj as [-> Hi]. cbn. rewrite length_fmap, length_seq. split_and!; try done. lia.
Qed.

(** A stage as [newJob] sets it up. *)
Lemma fresh_stage_inv max next run jobID s tasks k :
  0 < max -> 0 < st_NumPartitions s -> (st_ID s < 2)%N ->
  tasks_with (st_ID s) tasks = (fun i => newTask s (k + i) i) <$> seq 0 (Z.to_nat (st_NumPartitions s)) ->
  stage_inv max next run jobID (st_ID s) (append_tasks (tasks_with (st_ID s) tasks) (newStageState s)).
Proof.
  intros Hmax Hpos Htwo E. destruct (new_tasks_of s k Hpos) as [Ht Hlen]. rewrite E.
  split; cbn; try done; try lia.
  rewrite map_size_empty. lia.
Qed.

Lemma newJob_spec g a p tasks max next jobID :
  0 < max -> plan_ok g a p -> validateExecutionPlan p = Ok tt -> GenerateTasks p = Ok tasks ->
  exists job m c cs, newJob a p tasks = Ok job /\ job_is job m c cs /\ startable m cs /\
    stages_inv max next jobID job /\ js_runID job = "" /\ js_action job = a /\
    forall id st, js_stages job !! id = Some st -> sg_attempts st = 0.
Proof.
  intros Hmax (_ & l & sts & s & _ & Hst & Hwf & Hmap & (Hk & Hf & Hw) & _) Hv Hg.
  unfold GenerateTasks in Hg. apply bind_Ok in Hg as (n & Hn & Hg). apply fail_if_Ok in Hg as [_ [= <-]].
  set (tasks := foldl appendStage [] (sp_Stages p)).
  assert (Hids : NoDup (st_ID <$> sp_Stages p)).
  { apply NoDup_alt. intros i j x. rewrite !list_lookup_fmap.
    intros (si & Hi & ->)%fmap_Some (sj & Hj & E)%fmap_Some.
    destruct (Hwf _ _ Hi) as [Ei _ _ _], (Hwf _ _ Hj) as [Ej _ _ _]. lia. }
  assert (Hstage : forall s', s' ∈ sp_Stages p -> exists k, tasks_with (st_ID s') tasks =
    (fun i => newTask s' (k + i) i) <$> seq 0 (Z.to_nat (st_NumPartitions s'))).
  { intros s' Hs'. rewrite tasks_with_stage. by apply appendStages_stage. }
  assert (Hdom : forall t, t ∈ tasks -> t_StageID t ∈ st_ID <$> sp_Stages p).
  { intros t Ht. destruct (decide (t_StageID t ∈ st_ID <$> sp_Stages p)) as [|Hni]; [done|exfalso].
    assert (E : tasks_with (t_StageID t) tasks = []).
    { pose proof (appendStages_other (sp_Stages p) [] (mkStage (t_StageID t) StageResult [] 0 [] None None) Hni) as E.
      exact E. }
    assert (Hin : In t (tasks_with (t_StageID t) tasks)).
    { apply filter_In. split; [by apply list_elem_of_In|by apply bool_decide_eq_true]. }
    by rewrite E in Hin. }
  unfold newJob, validateExecutionPlan in *. rewrite Hst in *.
  destruct sts as [|ms [|? [|? ?]]]; cbn in Hv; try done; cbn [foldl app].
  - destruct (Hwf 0%nat s eq_refl) as [Hi Hp _ Hpos]. cbn in Hi, Hp.
    set (j0 := addStage _ _). destruct (addTasks_spec tasks j0) as (job & -> & Ea & Er & Eo & Ers & Hj).
    { intros t Ht. apply Hdom in Ht. cbn in Ht. apply list_elem_of_singleton in Ht as ->.
      cbn. rewrite lookup_insert_eq. done. }
    set (cs := append_tasks (tasks_with (st_ID s) tasks) (newStageState s)).
    assert (Es : js_stages job = {[st_ID s := cs]}).
    { apply map_eq. intros id. rewrite Hj. cbn. destruct (decide (st_ID s = id)) as [<-|Hne].
      - by rewrite lookup_insert_eq, lookup_singleton_eq.
      - rewrite lookup_insert_ne, lookup_empty, lookup_singleton_ne by done. done. }
    exists job, None, (st_ID s), cs. split; [done|]. split.
    { unfold job_is. rewrite Ers, Eo, Ea, Es. cbn. rewrite bool_decide_eq_true_2 by done. done. }
    split; [done|]. split.
    { intros id st. rewrite Es, lookup_singleton_Some. intros [<- <-].
      destruct (Hstage s) as [k Hs]; [set_solver|]. eapply fresh_stage_inv; [done|done|rewrite ?Hi, ?Him; lia|done]. }
    split; [done|]. split; [done|]. intros id st. rewrite Es, lookup_singleton_Some. by intros [<- <-].
  - destruct (Hwf 0%nat ms eq_refl) as [Him Hpm _ Hposm]. cbn in Him, Hpm.
    destruct (Hwf 1%nat s eq_refl) as [Hi Hp _ Hpos]. cbn in Hi, Hp.
    apply Forall_cons in Hmap as [(Hkm & Hfm & Hwm) _].
    assert (Hne : st_ID ms <> st_ID s) by lia.
    set (j0 := addStage _ _). destruct (addTasks_spec tasks j0) as (job & -> & Ea & Er & Eo & Ers & Hj).
    { intros t Ht. apply Hdom in Ht. cbn in Ht |- *. apply lookup_insert_is_Some'.
      apply elem_of_cons in Ht as [->|Ht]; [right|left].
      - by rewrite lookup_insert_eq.
      - by apply list_elem_of_singleton in Ht. }
    set (cs := append_tasks (tasks_with (st_ID s) tasks) (newStageState s)).
    set (mst := append_tasks (tasks_with (st_ID ms) tasks) (newStageState ms)).
    assert (Es : js_stages job = <[st_ID ms := mst]> {[st_ID s := cs]}).
    { apply map_eq. intros id. rewrite Hj. cbn. destruct (decide (st_ID s = id)) as [<-|Hns].
      - by rewrite lookup_insert_eq, lookup_insert_ne, lookup_singleton_eq.
      - rewrite lookup_insert_ne by done. destruct (decide (st_ID ms = id)) as [<-|Hnm].
        + by rewrite !lookup_insert_eq.
        + rewrite !lookup_insert_ne, lookup_empty, lookup_singleton_ne by done. done. }
    exists job, (Some (st_ID ms, mst)), (st_ID s), cs. split; [done|]. split.
    { unfold job_is. rewrite Ers, Eo, Ea, Es. cbn. rewrite Hk, Hkm, bool_decide_eq_true_2 by done.
      split_and!; try done. by rewrite Hp, Him. }
    split; [by split; [|left]|]. split.
    { intros id st. rewrite Es, lookup_insert_Some, lookup_singleton_Some. intros [[<- <-]|[_ [<- <-]]].
      - destruct (Hstage ms) as [k Hs]; [set_solver|]. eapply fresh_stage_inv; [done|done|rewrite Him; lia|done].
      - destruct (Hstage s) as [k Hs]; [set_solver|]. eapply fresh_stage_inv; [done|done|rewrite ?Hi, ?Him; lia|done]. }
    split; [done|]. split; [done|].
    intros id st. rewrite Es, lookup_insert_Some, lookup_singleton_Some. by intros [[<- <-]|[_ [<- <-]]].
Qed.

(** A rejected submission is answered without a trace. *)
Lemma rejectJob_handled s jobID err :
  dag_inv s -> dag_jobs s !! jobID = None -> handled true s jobID s [Respond jobID (Err err)].
Proof.
  intros H Hn. split; try done.
  - by right.
  - by left.
  - intros id. pose proof (attempts_of_bound s jobID id H). unfold started_count. cbn.
    split; [lia|]. rewrite Hn. by intros [].
Qed.

Definition graph_ok (g : option RDDGraph) : Prop :=
  match g with Some g => graph_wf g | None => True end.

(** The partitions of the plan of a submission do not fit an [int]: their sum,
    the capacity that [GenerateTasks] makes its tasks with, is negative. *)
Definition overflows (s : dag) (g : option RDDGraph) (a : ActionSpec) : Prop :=
  exists p, PlanAction (Some (dag_planner s)) g a = Some (Ok p) /\ validateExecutionPlan p = Ok tt /\
    i64 (total_partitions (sp_Stages p)) < 0.

(** With at most two stages, whose counts are of type [int], that is a total of
    2^63 or more. *)
Lemma overflow_total p : validateExecutionPlan p = Ok tt ->
  Forall (fun s => 0 < st_NumPartitions s < 2 ^ 63) (sp_Stages p) ->
  i64 (total_partitions (sp_Stages p)) < 0 <-> 2 ^ 63 <= total_partitions (sp_Stages p).
Proof.
  unfold validateExecutionPlan. intros Hv Hs.
  assert (Ht : 0 < total_partitions (sp_Stages p) < 2 ^ 64).
  { destruct (sp_Stages p) as [|s1 [|s2 [|? ?]]]; try done; cbn.
    - apply Forall_cons in Hs as [? _]. lia.
    - apply Forall_cons in Hs as [? [? _]%Forall_cons]. lia. }
  unfold i64. destruct (Z.ltb_spec (total_partitions (sp_Stages p)) (2 ^ 63)).
  - rewrite Z.mod_small; lia.
  - assert (E : total_partitions (sp_Stages p) + 2 ^ 63 = (total_partitions (sp_Stages p) - 2 ^ 63) + 1 * 2 ^ 64) by lia.
    rewrite E, Z_mod_plus_full, Z.mod_small; lia.
Qed.

Lemma plan_ok_positive g a p : plan_ok g a p -> Forall (fun s => 0 < st_NumPartitions s) (sp_Stages p).
Proof.
  intros (_ & l & sts & s & _ & _ & Hwf & _). apply Forall_lookup_2. intros i s' Hi. by destruct (Hwf _ _ Hi).
Qed.

Lemma planJob_spec s g a :
  graph_ok g -> exists r, planJob s g a = Some r /\
    match r with
    | Ok (p, tasks) => exists g', g = Some g' /\ plan_ok g' a p /\
        validateExecutionPlan p = Ok tt /\ GenerateTasks p = Ok tasks /\ ~ overflows s g a
    | Err e => if is_panic e then e = panic_range /\ overflows s g a else ~ overflows s g a
    end.
Proof.
  intros Hwf. unfold planJob, overflows. destruct g as [g|]; cycle 1.
  { unfold PlanAction. destruct (validateAction a) as [[]|e] eqn:Ha; eexists; (split; [done|]); cbn; [by intros (p & ? & _)|].
    unfold validateAction in Ha. destruct (act_Kind a); simplify_eq. by intros (p & ? & _). }
  destruct (dag_planner s) as [fs|] eqn:Ep.
  - destruct (PlanAction_total g Hwf fs a) as (r & Hr' & Hr). rewrite Hr'. destruct r as [p|e]; cbn [fbind].
    2: { eexists. split; [done|]. cbv beta iota. rewrite (PlanAction_error g Hwf fs a e Hr'). by intros (p & ? & _). }
    destruct (validateExecutionPlan p) as [[]|e] eqn:Hv.
    2: { eexists. split; [done|]. unfold validateExecutionPlan in Hv.
      assert (Hp : is_panic e = false) by (repeat case_match; by simplify_eq). cbv beta iota. rewrite Hp.
      intros (p' & [= <-] & Hv' & _). unfold validateExecutionPlan in Hv'. congruence. }
    destruct Hr as (Hok & _). rewrite (GenerateTasks_wrap _ (plan_ok_positive _ _ _ Hok)).
    destruct (Z.ltb_spec (i64 (total_partitions (sp_Stages p))) 0) as [Hlt|Hge]; eexists; (split; [done|]).
    + split; [done|]. by exists p.
    + exists g. split_and!; try done; [rewrite GenerateTasks_wrap by by eapply plan_ok_positive|].
      { by destruct (Z.ltb_spec (i64 (total_partitions (sp_Stages p))) 0); [lia|]. }
      intros (p' & [= <-] & _ & ?). lia.
  - unfold PlanAction. destruct (validateAction a) as [[]|e] eqn:Ha; cbn [fbind].
    2: { eexists. split; [done|]. unfold validateAction in Ha. destruct (act_Kind a); simplify_eq. by intros (p & ? & _). }
    unfold validateFunctions. destruct (Validate_total g Hwf (act_TargetRDD a)) as [[[]|e] ->]; cbn;
      (eexists; split; [done|]); by intros (p & ? & _).
Qed.

(** The submission that panics. *)
Definition submission_panics (s : dag) (g : option RDDGraph) (a : ActionSpec) : Prop :=
  dag_stopping s = false /\ dag_taskScheduler s = true /\ overflows s g a.

Lemma handleJobSubmitted_handled s jobID ctx g a :
  dag_inv s -> graph_ok g -> dag_jobs s !! jobID = None -> (dag_nextStageAttemptID s + 1 < 2 ^ 64)%N ->
  (submission_panics s g a /\ handleJobSubmitted s jobID ctx g a = Some (Err panic_range)) \/
  (~ submission_panics s g a /\
   exists s' es, handleJobSubmitted s jobID ctx g a = Some (Ok (s', es)) /\ handled true s jobID s' es).
Proof.
  intros H Hwf Hn Hnext. unfold handleJobSubmitted, submission_panics.
  destruct (dag_stopping s) eqn:Hstop; [right; split; [naive_solver|]; eexists _, _; split; [done|by apply rejectJob_handled]|].
  destruct (dag_taskScheduler s); cbn [negb]; [|right; split; [naive_solver|]; eexists _, _; split; [done|by apply rejectJob_handled]].
  destruct (planJob_spec s g a Hwf) as (r & -> & Hr).
  destruct r as [[p tasks]|e].
  2: { destruct (is_panic e); [destruct Hr as [-> ?]; by left|].
    right. split; [naive_solver|]. eexists _, _. split; [done|by apply rejectJob_handled]. }
  destruct Hr as (g' & -> & Hp & Hv & Hg & Hno). right. split; [naive_solver|].
  destruct (newJob_spec g' a p tasks (dag_maxStageAttempts s) (dag_nextStageAttemptID s) jobID (di_max _ H) Hp Hv Hg)
    as (job & m & c & cs & -> & Hj & Hst & Hinv & _ & _ & Hatt).
  cbn [mbind result_bind].
  destruct (startOrFail_handled s jobID ctx job [WatchCancellation jobID] m c cs) as (s' & es & -> & Hh); try done.
  - intros id. unfold attempts_of, stage_of. rewrite Hn. cbn.
    destruct (js_stages job !! id) as [st|] eqn:Hid; [by eapply Hatt|done].
  - by exists s', es.
Qed.

(** ** Reports *)

Lemma pendingTask_Some s jobID stageID attempt partition job st task :
  pendingTask s jobID stageID attempt partition = Some (job, st, task) <->
  dag_jobs s !! jobID = Some job /\ js_stages job !! stageID = Some st /\
  sg_status st = stageRunning /\ ta_StageAttemptID attempt = sg_attemptID st /\ 0 <= partition /\
  sg_tasks st !! Z.to_nat partition = Some task /\ ta_TaskID attempt = t_ID task /\
  sg_outputs st !! partition = None.
Proof.
  unfold pendingTask. destruct (dag_jobs s !! jobID) as [j|] eqn:Hj; cbn; [|naive_solver].
  destruct (js_stages j !! stageID) as [st'|] eqn:Hst; cbn; [|naive_solver].
  destruct (negb _ || negb _ || _ || _) eqn:Hc.
  - split; [done|]. intros ([= <-] & E & Hr & Ha & Hp & Ht & _). rewrite Hst in E. injection E as <-.
    apply lookup_lt_Some in Ht.
    rewrite !orb_true_iff, !negb_true_iff, bool_decide_eq_false, N.eqb_neq, Z.ltb_lt, Z.leb_le in Hc.
    destruct Hc as [[[?|?]|?]|?]; congruence || lia.
  - rewrite !orb_false_iff, !negb_false_iff, bool_decide_eq_true, N.eqb_eq, Z.ltb_ge, Z.leb_gt in Hc.
    destruct Hc as (((Hr & Ha) & Hp) & Hl).
    destruct (sg_tasks st' !! Z.to_nat partition) as [t|] eqn:Ht; cbn; [|naive_solver].
    destruct (N.eqb_spec (t_ID t) (ta_TaskID attempt)) as [Et|]; cbn; cycle 1.
    { split; [done|]. intros (? & ? & ? & ? & ? & ? & ? & ?). congruence. }
    destruct (bool_decide (is_Some (sg_outputs st' !! partition))) eqn:Ho; to_prop.
    { split; [done|]. intros ([= <-] & E & _ & _ & _ & _ & _ & Hn). rewrite Hst in E. injection E as <-.
      rewrite Hn in Ho. by destruct Ho. }
    apply eq_None_not_Some in Ho. split; [intros [= <- <- <-]; done|].
    intros ([= <-] & E & _ & _ & _ & Ht' & _). rewrite Hst in E. injection E as <-. congruence.
Qed.

(** The running stage of an active job, among its stages. *)
Lemma running_stage job m c cs id st :
  job_is job m c cs -> phase m cs -> js_stages job !! id = Some st -> sg_status st = stageRunning ->
  (exists mid ms, m = Some (mid, ms) /\ id = mid /\ st = ms /\ sg_status cs = stagePending) \/
  (id = c /\ st = cs /\ match m with Some (_, ms) => sg_status ms = stageSucceeded | None => True end).
Proof.
  intros Hj Hp Hid Hr. destruct (job_is_stage _ _ _ _ _ _ Hj Hid) as [[-> ->]|(mid & ms & -> & -> & ->)].
  - right. split_and!; [done|done|]. destruct m as [[mid ms]|]; [|done].
    destruct Hp as [[_ ?]|[? _]]; congruence.
  - left. exists mid, ms. split_and!; try done. destruct Hp as [[_ ?]|[? _]]; congruence.
Qed.

(** A validated output of the task of a running stage. *)
Lemma addOutput_inv max next run jobID id st p o task attempt :
  stage_inv max next run jobID id st -> sg_status st = stageRunning -> 0 <= p ->
  sg_tasks st !! Z.to_nat p = Some task -> sg_outputs st !! p = None ->
  output_ok o (mkExecution run jobID task (mkAttempt attempt (t_ID task) (sg_attemptID st)) "" None) ->
  let st' := addOutput p o st in
  (sg_remaining st' <> 0 -> stage_inv max next run jobID id st') /\
  (sg_remaining st' = 0 -> stage_inv max next run jobID id (with_status stageSucceeded st')).
Proof.
  intros H Hr Hp Ht Hn Ho st'.
  pose proof (sgi_running _ _ _ _ _ _ H Hr) as Hpos. pose proof (sgi_started _ _ _ _ _ _ H) as Hs.
  rewrite Hr in Hs. specialize (Hs ltac:(done)).
  assert (Hout : forall q u, sg_outputs st' !! q = Some u -> accepted run jobID st q u).
  { intros q u. cbn. rewrite lookup_insert_Some. intros [[<- <-]|[_ Hq]]; [|by eapply H].
    split; [done|]. by exists task, attempt. }
  assert (Hrem : sg_remaining st' = Z.of_nat (length (sg_tasks st)) - Z.of_nat (size (sg_outputs st'))).
  { cbn. rewrite map_size_insert_None by done. pose proof (sgi_remaining _ _ _ _ _ _ H). lia. }
  destruct H. split; intros Hz; (split; [done|done|done|done|exact Hout|exact Hrem|..]); cbn in *; rewrite ?Hr; try done.
  intros _. lia.
Qed.

(** No map output has the empty run. *)
Lemma accepted_empty_run jobID st p o t :
  accepted "" jobID st p o -> sg_tasks st !! Z.to_nat p = Some t -> t_StageKind t = StageShuffleMap -> False.
Proof.
  intros (_ & task & a & Ht & Ho) Ht' Hk. assert (task = t) as -> by congruence.
  apply output_ok_map in Ho as (m & w & _ & _ & [_ [Hrun _] _ _ _ _] & Hm); [|done].
  apply matchesAssignment_spec in Hm as (E & _). rewrite E in Hrun. cbn in Hrun. done.
Qed.

Lemma stages_inv_run max next jobID job run :
  js_runID job = "" -> stages_inv max next jobID job ->
  stages_inv max next jobID (with_runID run job).
Proof.
  intros Hr H id st Hid. cbn in Hid |- *. specialize (H id st Hid). rewrite Hr in H.
  assert (Hout : forall p o, sg_outputs st !! p = Some o -> accepted run jobID st p o).
  { intros p o Hp. pose proof (sgi_outputs _ _ _ _ _ _ H p o Hp) as Hacc.
    pose proof Hacc as (Hp0 & t & a & Ht & Ho). split; [done|]. exists t, a. split; [done|].
    destruct (decide (t_StageKind t = StageShuffleMap)) as [Hk|Hk].
    - destruct (accepted_empty_run _ _ _ _ _ Hacc Ht Hk).
    - exact (output_ok_run _ (mkExecution "" jobID t (mkAttempt a (t_ID t) (sg_attemptID st)) "" None) run Hk Ho). }
  destruct H. by split.
Qed.

Lemma with_runID_is run job m c cs : job_is job m c cs -> job_is (with_runID run job) m c cs.
Proof. done. Qed.

(** Adopting the run of a validated output keeps the stages. *)
Lemma stages_inv_report max next jobID job o :
  stages_inv max next jobID job -> stages_inv max next jobID (with_runID (reportRun job o) job).
Proof.
  intros H. unfold reportRun. destruct (to_ShuffleOutput o) as [m|].
  - destruct (bool_decide (js_runID job = "")) eqn:E; to_prop; [by apply stages_inv_run|].
    intros id st Hid. by apply H.
  - intros id st Hid. by apply H.
Qed.

(** The result of the action, once the last output of the result stage is in. *)
Definition finished (s : dag) (r : TaskAttemptSuccess) (job : jobState) (st : stageState) : dag * list effect :=
  (with_jobs (delete (ts_JobID r)) s,
   [CancelJob (ts_JobID r);
    Respond (ts_JobID r) (Ok (mergeTaskOutputs (act_Kind (js_action job))
      (<[ts_PartitionID r := ts_Output r]> (sg_outputs st))))]).

(** A validated success of the running stage. *)
Lemma success_handled s r ctx' job st task :
  dag_inv s -> (dag_nextStageAttemptID s + 1 < 2 ^ 64)%N ->
  pendingTask s (ts_JobID r) (ts_StageID r) (ts_Attempt r) (ts_PartitionID r) = Some (job, st, task) ->
  output_ok (ts_Output r)
    (mkExecution (reportRun job (ts_Output r)) (ts_JobID r) task (ts_Attempt r) "" None) ->
  exists s' es, handleTaskSucceeded s r None ctx' = Ok (s', es) /\ handled true s (ts_JobID r) s' es /\
    (sg_remaining st = 1 -> ts_StageID r = js_resultStageID job -> (s', es) = finished s r job st) /\
    (sg_remaining st <> 1 -> es = [] /\ exists job', dag_jobs s' !! ts_JobID r = Some job' /\
       js_stages job' !! ts_StageID r = Some (addOutput (ts_PartitionID r) (ts_Output r) st)).
Proof.
  intros H Hnext Hpend Ho. unfold handleTaskSucceeded. rewrite Hpend.
  rewrite (proj2 (ValidateFor_spec _ _) Ho).
  apply pendingTask_Some in Hpend as (Hj & Hst & Hr & Ha & Hp & Ht & Hid & Hn).
  assert (Hstop : dag_stopping s = false).
  { destruct (dag_stopping s) eqn:E; [|done]. rewrite (di_stopping _ H E), lookup_empty in Hj. done. }
  destruct (di_jobs _ H _ _ Hj) as [Hinv (m & c & cs & His & Hph)].
  set (run := reportRun job (ts_Output r)) in *.
  set (job1 := if bool_decide (st_Kind (sg_stage st) = StageShuffleMap) then with_runID run job else job).
  assert (Hjob1 : stages_inv (dag_maxStageAttempts s) (dag_nextStageAttemptID s) (ts_JobID r) job1 /\
    job_is job1 m c cs /\ js_stages job1 = js_stages job /\ js_resultStageID job1 = js_resultStageID job /\
    js_action job1 = js_action job /\
    output_ok (ts_Output r) (mkExecution (js_runID job1) (ts_JobID r) task
      (mkAttempt (ta_ID (ts_Attempt r)) (t_ID task) (sg_attemptID st)) "" None)).
  { assert (Eat : mkAttempt (ta_ID (ts_Attempt r)) (t_ID task) (sg_attemptID st) = ts_Attempt r).
    { rewrite <- Hid, <- Ha. by destruct (ts_Attempt r). }
    rewrite Eat. unfold job1. destruct (bool_decide _) eqn:Hk; to_prop; split_and!; try done.
    - by apply stages_inv_report.
    - destruct (sgi_tasks _ _ _ _ _ _ (Hinv _ _ Hst)) as (_ & _ & Htasks).
      destruct (Htasks _ _ Ht) as (_ & Hkt & _).
      exact (output_ok_run _ (mkExecution run (ts_JobID r) task (ts_Attempt r) "" None) (js_runID job)
               ltac:(cbn; congruence) Ho). }
  destruct Hjob1 as (Hinv1 & His1 & Es1 & Er1 & Ea1 & Ho1). clearbody job1.
  assert (Hst1 : js_stages job1 !! ts_StageID r = Some st) by by rewrite Es1.
  destruct (addOutput_inv _ _ _ _ _ _ _ _ _ _ (Hinv1 _ _ Hst1) Hr Hp Ht Hn Ho1) as [Hmore Hdone].
  set (st' := addOutput (ts_PartitionID r) (ts_Output r) st) in *.
  assert (Erem : sg_remaining st' = sg_remaining st - 1) by done.
  destruct (Z.eqb_spec (sg_remaining st') 0) as [Hz|Hz]; cbn [negb].
  2: { eexists _, _. split; [done|]. split; [|split; [lia|]].
       - eapply handled_put; [done|done| |].
         + split; [by apply stages_inv_insert; auto|].
           destruct (running_stage _ _ _ _ _ _ His1 Hph Hst1 Hr) as [(mid & ms & -> & Eid & Ems & Hcs)|(Eid & Ecs & Hms)].
           * rewrite Eid, <- Ems in *. eexists _, _, _. split; [by eapply job_is_put_map|]. left. done.
           * rewrite Eid, <- Ecs in *. eexists _, _, _. split; [by eapply job_is_put_result|].
             destruct m as [[mid ms]|]; [right|]; done.
         + intros id. cbn. rewrite Es1. destruct (decide (ts_StageID r = id)) as [<-|Hne].
           * by rewrite lookup_insert_eq, Hst.
           * by rewrite lookup_insert_ne.
       - intros _. split; [done|]. cbn. rewrite lookup_insert_eq. eexists. split; [done|]. cbn.
         by rewrite lookup_insert_eq. }
  cbn [js_resultStageID with_stages]. rewrite Er1. specialize (Hdone Hz).
  destruct (running_stage _ _ _ _ _ _ His1 Hph Hst1 Hr) as [(mid & ms & -> & Eid & Ems & Hcs)|(Eid & Ecs & Hms)].
  - pose proof His1 as (Erc & _ & _ & _ & Hne & _). rewrite <- Er1, Erc, Eid.
    destruct (N.eqb_spec mid c); [done|]. cbn [negb].
    destruct (startOrFail_handled s (ts_JobID r) ctx'
      (with_stages (insert mid (with_status stageSucceeded st')) job1) []
      (Some (mid, with_status stageSucceeded st')) c cs) as (s' & es & E & Hh); try done.
    + eapply job_is_put_map; [done|]. by rewrite <- Ems.
    + split; [done|]. by right.
    + apply stages_inv_insert; [done|]. by rewrite <- Eid.
    + intros id. cbn. unfold attempts_of, stage_of. rewrite Hj, Es1. cbn.
      destruct (decide (mid = id)) as [<-|Hne'].
      * rewrite lookup_insert_eq. rewrite Eid in Hst. by rewrite Hst.
      * by rewrite lookup_insert_ne.
    + exists s', es. split; [exact E|]. split; [done|]. split; [|lia]. intros _ E'. by rewrite E' in n.
  - pose proof His1 as (Erc & _). rewrite <- Er1, Erc, Eid, N.eqb_refl. cbn [negb].
    eexists _, _. split; [done|]. split; [|split; [|lia]].
    + apply (handled_answer s _ _ []); [done..|]. by rewrite Hj.
    + intros _ _. unfold finished. by rewrite <- Ea1.
Qed.

Lemma active_job s jobID job : dag_jobs s !! jobID = Some job -> is_active s jobID = true.
Proof. intros H. unfold is_active. rewrite H. by apply bool_decide_eq_true_2. Qed.

Lemma not_stopping s jobID job : dag_inv s -> dag_jobs s !! jobID = Some job -> dag_stopping s = false.
Proof.
  intros H Hj. destruct (dag_stopping s) eqn:E; [|done].
  by rewrite (di_stopping _ H E), lookup_empty in Hj.
Qed.

Lemma failJob_handled_pair s jobID err :
  dag_inv s -> exists s' es, failJob s jobID err = (s', es) /\ handled (is_active s jobID) s jobID s' es.
Proof.
  intros H. destruct (failJob s jobID err) as [s' es] eqn:E. exists s', es. split; [done|].
  by eapply failJob_handled.
Qed.

Lemma handleTaskSucceeded_handled s r ctx ctx' :
  dag_inv s -> (dag_nextStageAttemptID s + 1 < 2 ^ 64)%N ->
  exists s' es, handleTaskSucceeded s r ctx ctx' = Ok (s', es) /\
    handled (is_active s (ts_JobID r)) s (ts_JobID r) s' es.
Proof.
  intros H Hnext.
  destruct (pendingTask s (ts_JobID r) (ts_StageID r) (ts_Attempt r) (ts_PartitionID r)) as [[[job st] task]|] eqn:Hp.
  2: { exists s, []. split; [unfold handleTaskSucceeded; by rewrite Hp|by apply handled_ignore]. }
  pose proof Hp as (Hj & _)%pendingTask_Some.
  assert (Hfail : forall err, exists s' es, Ok (failJob s (ts_JobID r) err) = Ok (s', es) /\
    handled (is_active s (ts_JobID r)) s (ts_JobID r) s' es).
  { intros err. destruct (failJob_handled_pair s (ts_JobID r) err H) as (s' & es & E & Hh).
    exists s', es. by rewrite E. }
  destruct ctx as [err|]; [unfold handleTaskSucceeded; rewrite Hp; apply Hfail|].
  destruct (ValidateFor (ts_Output r)
    (mkExecution (reportRun job (ts_Output r)) (ts_JobID r) task (ts_Attempt r) "" None)) as [[]|e] eqn:Hv.
  - apply ValidateFor_spec in Hv.
    destruct (success_handled s r ctx' job st task H Hnext Hp Hv) as (s' & es & E & Hh & _).
    exists s', es. split; [done|]. by rewrite (active_job _ _ _ Hj).
  - unfold handleTaskSucceeded. rewrite Hp, Hv. apply Hfail.
Qed.

(** *** Recovery *)

Lemma resetStage_inv max next run jobID id st :
  stage_inv max next run jobID id st -> stage_inv max next run jobID id (resetStage st).
Proof. intros []. split; cbn; try done. rewrite map_size_empty. lia. Qed.

(** What makes the loss of a shuffle input recoverable. *)
Definition recoverable (max : Z) (job : jobState) (child : stageState) (r : TaskAttemptFailure)
    (parentID : StageID) (parent : stageState) (ref : InputReference) : Prop :=
  st_ParentIDs (sg_stage child) = [parentID] /\ js_stages job !! parentID = Some parent /\
  sg_status parent = stageSucceeded /\ tf_ShuffleInput r = Some ref /\
  identity_ok (ir_Attempt ref) /\ 0 <= ir_PartitionID ref /\ ir_PartitionID ref = tf_PartitionID r /\
  (exists out m, sg_outputs parent !! ai_MapPartitionID (ir_Attempt ref) = Some out /\
     to_ShuffleOutput out = Some m /\ mo_Attempt m = ir_Attempt ref) /\
  sg_attempts parent < max /\ sg_attempts child < max.

Lemma prepareRecovery_spec max next jobID job m c cs child r :
  job_is job m c cs -> stages_inv max next jobID job -> phase m cs ->
  js_stages job !! tf_StageID r = Some child -> sg_status child = stageRunning ->
  tf_Kind r = FailureShuffleInput ->
  (exists err, prepareRecovery max jobID job child r = Ok (inl err) /\
     forall parentID parent ref, ~ recoverable max job child r parentID parent ref) \/
  (exists parentID parent ref, recoverable max job child r parentID parent ref /\
     m = Some (parentID, parent) /\ tf_StageID r = c /\ child = cs /\
     prepareRecovery max jobID job child r =
       Ok (inr (with_stages (fun m => <[c := resetStage cs]> (<[parentID := resetStage parent]> m)) job,
                [CancelStage jobID parentID (sg_attemptID parent); CancelStage jobID c (sg_attemptID cs)]))).
Proof.
  intros His Hinv Hph Hst Hr Hkind. unfold prepareRecovery.
  destruct (running_stage _ _ _ _ _ _ His Hph Hst Hr) as [(mid & ms & -> & Eid & -> & Hcs)|(Eid & -> & Hms)].
  { left. destruct His as (_ & _ & _ & _ & _ & _ & _ & Hpm & _). rewrite Hpm. eexists. split; [done|].
    intros ? ? ? (Hp & _). congruence. }
  destruct m as [[mid ms]|].
  2: { left. destruct His as (_ & _ & _ & _ & _ & Hpm). rewrite Hpm. eexists. split; [done|].
       intros ? ? ? (Hp & _). congruence. }
  pose proof His as (_ & Hk & _ & _ & Hne & _ & Hpc & _ & Hkm & _).
  pose proof (job_is_map _ _ _ _ _ His) as Hmid.
  rewrite Hpc, Hk, Hmid, Hkm, Hms. rewrite !bool_decide_eq_true_2 by done. cbn [negb orb].
  rewrite Hkind. unfold ValidateFailure.
  destruct (tf_ShuffleInput r) as [ref|] eqn:Eref.
  2: { left. eexists. split; [done|]. intros ? ? ? (_ & _ & _ & ? & _). congruence. }
  destruct (validateReference ref) as [[]|e] eqn:Hv.
  2: { left. eexists. split; [done|]. intros ? ? ref' (_ & _ & _ & E & Hi & Hp & _).
       rewrite E in Eref. injection Eref as ->.
       assert (validateReference ref = Ok tt) by by apply validateReference_spec. congruence. }
  apply validateReference_spec in Hv as [Hi Hp].
  destruct (Z.eqb_spec (ir_PartitionID ref) (tf_PartitionID r)) as [Epart|Epart]; cbn [negb orb].
  2: { left. eexists. split; [done|]. intros ? ? ref' (_ & _ & _ & E & _ & _ & Ep & _). congruence. }
  destruct (sg_outputs ms !! ai_MapPartitionID (ir_Attempt ref)) as [out|] eqn:Eout; cbn [default].
  2: { left. eexists. split; [done|]. intros ? ? ref' (Hp' & Hq & _ & E & _ & _ & _ & (out & ? & Ho & _) & _).
       assert (ref' = ref) as -> by congruence. congruence. }
  destruct (to_ShuffleOutput out) as [o|] eqn:Eo; cbn [negb].
  2: { left. cbn. rewrite Eo. eexists. split; [done|].
       intros ? ? ref' (Hp' & Hq & _ & E & _ & _ & _ & (out' & ? & Ho & ? & _) & _).
       assert (ref' = ref) as -> by congruence. congruence. }
  cbn. rewrite Eo. destruct (bool_decide (mo_Attempt o = ir_Attempt ref)) eqn:Ea; to_prop; cbn [negb].
  2: { left. eexists. split; [done|].
       intros ? ? ref' (Hp' & Hq & _ & E & _ & _ & _ & (out' & ? & Ho & ? & ?) & _).
       assert (ref' = ref) as -> by congruence. congruence. }
  destruct (Z.leb_spec max (sg_attempts ms)).
  { left. eexists. split; [done|]. intros ? q ref' (Hp' & Hq & _ & _ & _ & _ & _ & _ & ? & _).
    assert (q = ms) as -> by congruence. lia. }
  destruct (Z.leb_spec max (sg_attempts cs)).
  { left. eexists. split; [done|]. intros ? ? ref' (_ & _ & _ & _ & _ & _ & _ & _ & _ & ?). lia. }
  right. exists mid, ms, ref.
  destruct (sgi_started _ _ _ _ _ _ (Hinv _ _ Hmid)) as (_ & -> & _); [congruence|].
  destruct (sgi_started _ _ _ _ _ _ (Hinv _ _ Hst)) as (_ & -> & _); [congruence|].
  cbn. split; [|split_and!; try done; by rewrite Eid].
  split_and!; try done. by exists out, o.
Qed.

Lemma recovery_handled s r ctx' job m c cs parentID parent :
  dag_inv s -> (dag_nextStageAttemptID s + 1 < 2 ^ 64)%N -> dag_jobs s !! tf_JobID r = Some job ->
  job_is job m c cs -> stages_inv (dag_maxStageAttempts s) (dag_nextStageAttemptID s) (tf_JobID r) job ->
  m = Some (parentID, parent) ->
  let job' := with_stages (fun m => <[c := resetStage cs]> (<[parentID := resetStage parent]> m)) job in
  let es0 := [CancelStage (tf_JobID r) parentID (sg_attemptID parent); CancelStage (tf_JobID r) c (sg_attemptID cs)] in
  job_is job' (Some (parentID, resetStage parent)) c (resetStage cs) /\
  exists s' es, startOrFail s (tf_JobID r) ctx' job' es0 = Ok (s', es) /\ handled true s (tf_JobID r) s' es.
Proof.
  intros H Hnext Hj His Hinv -> job' es0.
  pose proof (job_is_map _ _ _ _ _ His) as Hmid. pose proof (job_is_result _ _ _ _ His) as Hc.
  assert (Hne : parentID <> c) by by destruct His as (_ & _ & _ & _ & ? & _).
  assert (His' : job_is job' (Some (parentID, resetStage parent)) c (resetStage cs)).
  { pose proof (job_is_put_map _ _ _ (resetStage parent) _ _ His eq_refl) as H1.
    exact (job_is_put_result _ _ _ _ (resetStage cs) H1 eq_refl). }
  split; [done|]. apply (startOrFail_handled s (tf_JobID r) ctx' job' es0 (Some (parentID, resetStage parent)) c (resetStage cs) H); try done.
  - by eapply not_stopping.
  - split; [done|]. by left.
  - intros id st. cbn. rewrite !lookup_insert_Some. intros [[<- <-]|[_ [[<- <-]|[_ Hid]]]].
    + apply resetStage_inv. by apply Hinv.
    + apply resetStage_inv. by apply Hinv.
    + by apply Hinv.
  - intros id. cbn. unfold attempts_of, stage_of. rewrite Hj. cbn.
    destruct (decide (c = id)) as [<-|Hc']; [by rewrite lookup_insert_eq, Hc|]. rewrite lookup_insert_ne by done.
    destruct (decide (parentID = id)) as [<-|Hm']; [by rewrite lookup_insert_eq, Hmid|]. by rewrite lookup_insert_ne.
Qed.

Lemma handleTaskFailed_handled s r ctx ctx' :
  dag_inv s -> (dag_nextStageAttemptID s + 1 < 2 ^ 64)%N ->
  exists s' es, handleTaskFailed s r ctx ctx' = Ok (s', es) /\
    handled (is_active s (tf_JobID r)) s (tf_JobID r) s' es.
Proof.
  intros H Hnext. unfold handleTaskFailed.
  destruct (pendingTask s (tf_JobID r) (tf_StageID r) (tf_Attempt r) (tf_PartitionID r)) as [[[job st] task]|] eqn:Hp.
  2: { exists s, []. split; [done|by apply handled_ignore]. }
  apply pendingTask_Some in Hp as (Hj & Hst & Hr & _).
  assert (Hfail : forall err, exists s' es, Ok (failJob s (tf_JobID r) err) = Ok (s', es) /\
    handled (is_active s (tf_JobID r)) s (tf_JobID r) s' es).
  { intros err. destruct (failJob_handled_pair s (tf_JobID r) err H) as (s' & es & E & Hh).
    exists s', es. by rewrite E. }
  destruct ctx as [err|]; [apply Hfail|].
  destruct (bool_decide (tf_Kind r = FailureShuffleInput)) eqn:Hk; to_prop; [|apply Hfail].
  destruct (di_jobs _ H _ _ Hj) as [Hinv (m & c & cs & His & Hph)].
  destruct (prepareRecovery_spec _ _ _ _ _ _ _ _ _ His Hinv Hph Hst Hr Hk)
    as [(err & -> & _)|(parentID & parent & ref & _ & Hm & Eid & -> & E)]; cbn [mbind result_bind]; [apply Hfail|].
  rewrite E. cbn [mbind result_bind].
  destruct (recovery_handled s r ctx' job m c cs parentID parent H Hnext Hj His Hinv Hm) as (_ & s' & es & E' & Hh).
  exists s', es. split; [exact E'|]. by rewrite (active_job _ _ _ Hj).
Qed.

Lemma handleTaskSetFinished_handled s jobID stageID attempt err ctx s' es :
  dag_inv s -> handleTaskSetFinished s jobID stageID attempt err ctx = (s', es) ->
  handled (is_active s jobID) s jobID s' es.
Proof.
  intros H E. unfold handleTaskSetFinished in E.
  destruct (dag_jobs s !! jobID) as [job|]; [|injection E as <- <-; by apply handled_ignore].
  destruct (js_stages job !! stageID) as [st|]; [|injection E as <- <-; by apply handled_ignore].
  destruct (_ || _); [injection E as <- <-; by apply handled_ignore|]. by eapply failJob_handled.
Qed.

(** ** Stopping *)

Lemma stop_jobs_spec s0 ids es0 :
  NoDup ids -> (forall j, j ∈ ids -> is_Some (dag_jobs s0 !! j)) ->
  exists s' es, foldl (fun r jobID => let '(s, es) := failJob r.1 jobID ErrSchedulerClosed in (s, r.2 ++ es))
      (s0, es0) ids = (s', es0 ++ es) /\
    same_config s0 s' /\ dag_nextStageAttemptID s' = dag_nextStageAttemptID s0 /\
    (forall j, dag_jobs s' !! j = if decide (j ∈ ids) then None else dag_jobs s0 !! j) /\
    responses es = ids /\ starts es = [].
Proof.
  intros Hn. revert s0 es0. induction Hn as [|j ids Hni _ IH]; intros s0 es0 Hj; cbn [foldl].
  - exists s0, []. rewrite app_nil_r. split_and!; try done.
  - unfold failJob at 2. cbn [fst snd]. destruct (Hj j ltac:(set_solver)) as [job Hjob]. rewrite Hjob.
    destruct (IH (with_jobs (delete j) s0) (es0 ++ [CancelJob j; Respond j (Err ErrSchedulerClosed)]))
      as (s' & es & E & Hc & Hnx & Hjobs & Hr & Hs).
    { intros k Hk. cbn. rewrite lookup_delete_ne by set_solver. apply Hj. set_solver. }
    exists s', ([CancelJob j; Respond j (Err ErrSchedulerClosed)] ++ es).
    rewrite E, app_assoc. split_and!; try done.
    + intros k. rewrite Hjobs. cbn. destruct (decide (k = j)) as [->|Hne].
      * rewrite decide_False, lookup_delete_eq, decide_True by set_solver. done.
      * rewrite lookup_delete_ne by done. do 2 case_decide; set_solver.
    + rewrite responses_app, Hr. done.
Qed.

Lemma handleStopping_spec s :
  dag_inv s -> exists s' es, handleStopping s = (s', es) /\ dag_inv s' /\ dag_jobs s' = ∅ /\
    dag_maxStageAttempts s' = dag_maxStageAttempts s /\
    dag_nextStageAttemptID s' = dag_nextStageAttemptID s /\ dag_stopping s' = true /\
    responses es ≡ₚ (map_to_list (dag_jobs s)).*1 /\ starts es = [].
Proof.
  intros H. unfold handleStopping.
  set (s0 := mkDag _ _ _ _ _ true).
  destruct (stop_jobs_spec s0 (map_to_list (dag_jobs s0)).*1 []) as (s' & es & E & (Em & _ & _ & Est) & En & Hj & Hr & Hs).
  - apply NoDup_fst_map_to_list.
  - intros j (p & -> & Hp)%list_elem_of_fmap. destruct p as [j job]. apply elem_of_map_to_list in Hp. cbn. eauto.
  - rewrite E. cbn. assert (Hempty : dag_jobs s' = ∅).
    { apply map_eq. intros j. rewrite Hj, lookup_empty. case_decide as Hin; [done|].
      destruct (dag_jobs s !! j) as [job|] eqn:Ej; [|done]. destruct Hin.
      apply list_elem_of_fmap. exists (j, job). split; [done|]. by apply elem_of_map_to_list. }
    exists s', (es ++ [Stopped]). split_and!; try done.
    + split; [by rewrite Em; apply H| |done]. intros j job. by rewrite Hempty, lookup_empty.
    + rewrite responses_app, Hr. cbn. by rewrite app_nil_r.
    + rewrite starts_app, Hs. done.
Qed.
