(* ===== verification/DagTheorems.v ===== *)
(** * DagTheorems: what the job scheduler promises

    Every reachable state of the event loop with the log of its effects: which
    event makes a handler panic, each job is answered once, stages start with
    complete inputs and within their attempts, stale reports change nothing. *)

From S2P Require Import Prelude Bytes Plan Lineage Stages Planner PlannerProofs TaskGenerator Shuffle Reports.
From S2P Require Import Fifo FifoSystem Dag DagProofs DagEvents.
#[local] Open Scope Z_scope.

(** ** The event loop with its log *)

Record world := mkWorld {
  w_dag : dag;
  w_submitted : gset JobID;
  w_log : list effect }.

(** [Run] draws a fresh job ID for every submission, and graphs are built by
    [AddNode]; every other event may be anything. *)
Definition event_ok (w : world) (e : schedulerEvent) : Prop :=
  (dag_nextStageAttemptID (w_dag w) + 1 < 2 ^ 64)%N /\
  match e with
  | jobSubmitted jobID _ g _ =>
      jobID ∉ w_submitted w /\ graph_ok g
  | _ => True
  end.

Definition submitted_by (e : schedulerEvent) : gset JobID :=
  match e with jobSubmitted jobID _ _ _ => {[jobID]} | _ => ∅ end.

Inductive dag_step (w : world) : world -> Prop :=
  | dag_handle e s es :
      event_ok w e -> handleEvent (w_dag w) e = Some (Ok (s, es)) ->
      dag_step w (mkWorld s (submitted_by e ∪ w_submitted w) (w_log w ++ es)).

Inductive dag_reachable : world -> Prop :=
  | dag_start functions taskScheduler options s :
      NewDAGScheduler functions taskScheduler options = Ok s -> dag_reachable (mkWorld s ∅ [])
  | dag_next w w' : dag_reachable w -> dag_step w w' -> dag_reachable w'.

(** ** The invariant of the log *)

Record world_inv (w : world) : Prop := {
  wi_dag : dag_inv (w_dag w);
  wi_active j : is_Some (dag_jobs (w_dag w) !! j) -> j ∈ w_submitted w;
  wi_answers j : length (List.filter (fun k => bool_decide (k = j)) (responses (w_log w))) =
    if bool_decide (j ∈ w_submitted w) && negb (is_active (w_dag w) j) then 1%nat else 0%nat;
  wi_fresh : StronglySorted N.lt (tset_StageAttemptID <$> starts (w_log w));
  wi_next set : set ∈ starts (w_log w) ->
    (tset_StageAttemptID set < dag_nextStageAttemptID (w_dag w))%N /\ task_set_ok set /\
    tset_JobID set ∈ w_submitted w /\ (tset_StageID set < 2)%N;
  wi_count j id : started_count j id (starts (w_log w)) <= dag_maxStageAttempts (w_dag w) /\
    (is_Some (dag_jobs (w_dag w) !! j) ->
     started_count j id (starts (w_log w)) = attempts_of (w_dag w) j id) }.

Lemma started_count_none j id sets :
  (forall set, set ∈ sets -> tset_JobID set <> j) -> started_count j id sets = 0.
Proof.
  intros H. unfold started_count. rewrite filter_none; [done|].
  intros set Hs. apply bool_decide_eq_false. intros [E _]. by destruct (H set Hs).
Qed.

Lemma is_active_true s j : is_active s j = true <-> is_Some (dag_jobs s !! j).
Proof. apply bool_decide_eq_true. Qed.

(** A handled event of job [jobID] extends the log. *)
Section handled.

Context (w : world) (jobID : JobID) (act : bool) (s' : dag) (es : list effect) (sub : gset JobID).
Context (H : world_inv w) (Hh : handled act (w_dag w) jobID s' es).
Context (Hsub : sub = w_submitted w /\ act = is_active (w_dag w) jobID \/
  sub = {[jobID]} ∪ w_submitted w /\ act = true /\ jobID ∉ w_submitted w).

Lemma sub_grows j : j ∈ w_submitted w -> j ∈ sub.
Proof. destruct Hsub as [[-> _]|[-> _]]; set_solver. Qed.

Lemma sub_active : act = true -> jobID ∈ sub.
Proof.
  intros Ha. destruct Hsub as [[-> E]|[-> _]]; [|set_solver]. apply (wi_active _ H).
  rewrite Ha in E. symmetry in E. by apply is_active_true in E.
Qed.

Lemma sub_other j : j <> jobID -> j ∈ sub <-> j ∈ w_submitted w.
Proof. intros Hj. destruct Hsub as [[-> _]|[-> _]]; set_solver. Qed.

Lemma handled_answers j :
  length (List.filter (fun k => bool_decide (k = j)) (responses (w_log w ++ es))) =
  if bool_decide (j ∈ sub) && negb (is_active s' j) then 1%nat else 0%nat.
Proof.
  pose proof sub_active as Hact. pose proof sub_other as Hoth.
  rewrite responses_app, List.filter_app, length_app, (wi_answers _ H j).
  destruct (decide (j = jobID)) as [->|Hne].
  + assert (Hbefore : (bool_decide (jobID ∈ w_submitted w) && negb (is_active (w_dag w) jobID) =
                       negb act && bool_decide (jobID ∈ w_submitted w))%bool).
    { destruct Hsub as [[_ ->]|(_ & -> & Hn)]; [|by rewrite (bool_decide_eq_false_2 _ Hn)].
      destruct (is_active _ _), (bool_decide _); done. }
    rewrite Hbefore. destruct (hd_answer _ _ _ _ _ Hh) as [[-> E]|(-> & -> & E)]; cbn.
    * destruct act; cbn.
      -- rewrite (proj2 (is_active_true s' jobID)) by by apply E. by rewrite andb_false_r.
      -- assert (Ef : is_active s' jobID = false).
         { apply bool_decide_eq_false. intros Hs. by apply E in Hs. }
         rewrite Ef, andb_true_r, Nat.add_0_r. destruct Hsub as [[-> _]|(_ & ? & _)]; done.
    * rewrite bool_decide_eq_true_2 by done. cbn.
      rewrite bool_decide_eq_true_2 by by apply Hact. unfold is_active. rewrite E.
      by rewrite bool_decide_eq_false_2 by by intros [].
  + assert (Eresp : List.filter (fun k => bool_decide (k = j)) (responses es) = []).
    { apply filter_none. intros k Hk. apply bool_decide_eq_false. intros ->.
      destruct (hd_answer _ _ _ _ _ Hh) as [[E _]|(E & _)]; rewrite E in Hk; set_solver. }
    rewrite Eresp. unfold is_active. rewrite (hd_other _ _ _ _ _ Hh) by done.
    rewrite (bool_decide_ext _ _ (Hoth j Hne)). cbn. lia.
Qed.

Lemma handled_fresh : StronglySorted N.lt (tset_StageAttemptID <$> starts (w_log w ++ es)).
Proof.
  rewrite starts_app, fmap_app. apply StronglySorted_app. split_and!; [|apply H|].
  + intros x1 x2 (set1 & -> & H1)%list_elem_of_fmap (set2 & -> & H2)%list_elem_of_fmap.
    destruct (wi_next _ H _ H1) as [Hlt _].
    destruct (hd_starts _ _ _ _ _ Hh) as [[E _]|(set & E & Ea & _)]; rewrite E in H2; [set_solver|].
    apply list_elem_of_singleton in H2 as ->. by rewrite Ea.
  + destruct (hd_starts _ _ _ _ _ Hh) as [[-> _]|(set & -> & _)]; repeat constructor.
Qed.

Lemma handled_next set :
  set ∈ starts (w_log w ++ es) ->
  (tset_StageAttemptID set < dag_nextStageAttemptID s')%N /\ task_set_ok set /\ tset_JobID set ∈ sub /\
  (tset_StageID set < 2)%N.
Proof.
  pose proof sub_active as Hact. pose proof sub_grows as Hin.
  rewrite starts_app. intros [Hs|Hs]%elem_of_app.
  + destruct (wi_next _ H _ Hs) as (Hlt & ? & ? & ?). split_and!; [|done|by apply Hin|done].
    destruct (hd_starts _ _ _ _ _ Hh) as [[_ ->]|(? & _ & _ & -> & _)]; lia.
  + destruct (hd_starts _ _ _ _ _ Hh) as [[E _]|(set' & E & Ea & En & Hok & Hj & job & st & Hjob & Hst & _)];
      rewrite E in Hs; [set_solver|]. apply list_elem_of_singleton in Hs as ->.
    split_and!; [rewrite Ea, En; lia|done| |].
    - rewrite Hj. destruct (hd_answer _ _ _ _ _ Hh) as [[_ Ei]|(_ & _ & Ei)]; [|congruence].
      apply Hact, Ei. by rewrite Hjob.
    - destruct (di_jobs _ (hd_inv _ _ _ _ _ Hh) _ _ Hjob) as [Hinv _]. exact (sgi_two _ _ _ _ _ _ (Hinv _ _ Hst)).
Qed.

Lemma handled_counts j id :
  started_count j id (starts (w_log w ++ es)) <= dag_maxStageAttempts (w_dag w) /\
  (is_Some (dag_jobs s' !! j) -> started_count j id (starts (w_log w ++ es)) = attempts_of s' j id).
Proof.
  rewrite starts_app, started_count_app.
  destruct (decide (j = jobID)) as [->|Hne].
  + destruct (hd_count _ _ _ _ _ Hh id) as [Hle Hc].
    assert (Hold : started_count jobID id (starts (w_log w)) <= attempts_of (w_dag w) jobID id \/
                   starts es = [] /\ act = false).
    { destruct (is_active (w_dag w) jobID) eqn:Ea.
      - left. apply is_active_true in Ea. rewrite (proj2 (wi_count _ H jobID id) Ea). lia.
      - destruct Hsub as [[_ ->]|(_ & -> & Hn)].
        + right. split; [|done]. destruct (hd_starts _ _ _ _ _ Hh) as [[-> _]|(set & _ & _ & _ & _ & _ & job & _ & Hjob & _)]; [done|].
          destruct (hd_answer _ _ _ _ _ Hh) as [[_ Ei]|(_ & ? & _)]; [|done].
          assert (false = true) by (apply Ei; by rewrite Hjob). done.
        + left. rewrite started_count_none.
          * pose proof (attempts_of_bound (w_dag w) jobID id (wi_dag _ H)). lia.
          * intros set Hs E. destruct (wi_next _ H _ Hs) as (_ & _ & Hi & _). by rewrite E in Hi. }
    split.
    * destruct Hold as [Hold|[-> _]]; [lia|]. pose proof (proj1 (wi_count _ H jobID id)).
      unfold started_count at 2. cbn. lia.
    * intros Hs. rewrite (Hc Hs). f_equal.
      destruct (hd_answer _ _ _ _ _ Hh) as [[_ Ei]|(_ & _ & Ei)]; [|rewrite Ei in Hs; by destruct Hs].
      apply Ei in Hs as ->. destruct Hsub as [[_ Ea]|(_ & _ & Hn)].
      -- symmetry in Ea. apply is_active_true in Ea. apply (wi_count _ H), Ea.
      -- rewrite started_count_none by (intros set Hs' E; destruct (wi_next _ H _ Hs') as (_ & _ & Hi & _); by rewrite E in Hi).
         unfold attempts_of, stage_of. destruct (dag_jobs (w_dag w) !! jobID) eqn:Ej; [|done].
         destruct Hn. apply (wi_active _ H). by rewrite Ej.
  + rewrite (started_count_none _ _ (starts es)).
    * rewrite Z.add_0_r. unfold attempts_of, stage_of. rewrite (hd_other _ _ _ _ _ Hh) by done. apply H.
    * intros set Hs. destruct (hd_starts _ _ _ _ _ Hh) as [[E _]|(set' & E & _ & _ & _ & Hj & _)];
        rewrite E in Hs; [set_solver|]. apply list_elem_of_singleton in Hs as ->. congruence.
Qed.

Lemma world_inv_handled : world_inv (mkWorld s' sub (w_log w ++ es)).
Proof.
  split; cbn.
  - apply Hh.
  - intros j Hj. destruct (decide (j = jobID)) as [->|Hne].
    + destruct (hd_answer _ _ _ _ _ Hh) as [[_ E]|(_ & _ & E)]; [|rewrite E in Hj; by destruct Hj].
      apply sub_active. by apply E.
    + rewrite (hd_other _ _ _ _ _ Hh) in Hj by done. by apply sub_grows, (wi_active _ H).
  - apply handled_answers.
  - apply handled_fresh.
  - apply handled_next.
  - intros j id. assert (Hmax : dag_maxStageAttempts s' = dag_maxStageAttempts (w_dag w))
      by apply (hd_config _ _ _ _ _ Hh). rewrite Hmax. apply handled_counts.
Qed.

End handled.

(** ** Every reachable state *)

Definition event_job (e : schedulerEvent) : option JobID :=
  match e with
  | jobSubmitted j _ _ _ | taskSetFinished j _ _ _ _ | jobCanceled j _ => Some j
  | taskSucceeded r _ _ => Some (ts_JobID r)
  | taskFailed r _ _ => Some (tf_JobID r)
  | schedulerStopping => None
  end.

(** The event whose handling panics: the submission of a job with too many
    partitions. *)
Definition event_panics (s : dag) (e : schedulerEvent) : Prop :=
  match e with jobSubmitted _ _ g a => submission_panics s g a | _ => False end.

(** Every event about one job is handled, or panics. *)
Lemma handleEvent_handled w e j :
  world_inv w -> event_ok w e -> event_job e = Some j ->
  (event_panics (w_dag w) e /\ handleEvent (w_dag w) e = Some (Err panic_range)) \/
  (~ event_panics (w_dag w) e /\
   exists act s' es, handleEvent (w_dag w) e = Some (Ok (s', es)) /\ handled act (w_dag w) j s' es /\
    (submitted_by e = ∅ /\ act = is_active (w_dag w) j \/
     submitted_by e = {[j]} /\ act = true /\ j ∉ w_submitted w)).
Proof.
  intros H [Hnext He] Hj. pose proof (wi_dag _ H) as Hd.
  destruct e as [jobID ctx g a|r ctx ctx'|r ctx ctx'|jobID stageID attempt err ctx|jobID err|]; cbn in *;
    try discriminate Hj; injection Hj as <-.
  - destruct He as [Hn Hg].
    destruct (handleJobSubmitted_handled (w_dag w) jobID ctx g a Hd Hg) as [?|(Hp & s' & es & E & Hh)]; [|done|by left|].
    + apply eq_None_not_Some. intros Hs. by apply (wi_active _ H) in Hs.
    + right. split; [done|]. exists true, s', es. split_and!; [done|done|]. by right.
  - destruct (handleTaskSucceeded_handled (w_dag w) r ctx ctx' Hd Hnext) as (s' & es & -> & Hh).
    right. split; [tauto|]. eexists _, _, _. split; [done|]. split; [done|]. by left.
  - destruct (handleTaskFailed_handled (w_dag w) r ctx ctx' Hd Hnext) as (s' & es & -> & Hh).
    right. split; [tauto|]. eexists _, _, _. split; [done|]. split; [done|]. by left.
  - destruct (handleTaskSetFinished (w_dag w) jobID stageID attempt err ctx) as [s' es] eqn:E.
    right. split; [tauto|]. eexists _, _, _. split; [done|]. split; [by eapply handleTaskSetFinished_handled|]. by left.
  - destruct (failJob_handled_pair (w_dag w) jobID err Hd) as (s' & es & E & Hh). rewrite E.
    right. split; [tauto|]. eexists _, _, _. split; [done|]. split; [done|]. by left.
Qed.

Lemma handleEvent_Ok w e j s es :
  world_inv w -> event_ok w e -> event_job e = Some j -> handleEvent (w_dag w) e = Some (Ok (s, es)) ->
  exists act, handled act (w_dag w) j s es /\
    (submitted_by e = ∅ /\ act = is_active (w_dag w) j \/
     submitted_by e = {[j]} /\ act = true /\ j ∉ w_submitted w).
Proof.
  intros H He Hj E. destruct (handleEvent_handled w e j H He Hj) as [[_ E']|(_ & act & s' & es' & E' & Hh)]; [congruence|].
  rewrite E in E'. injection E' as <- <-. by exists act.
Qed.

Lemma NoDup_count (l : list JobID) j :
  NoDup l -> length (List.filter (fun k => bool_decide (k = j)) l) = if decide (j ∈ l) then 1%nat else 0%nat.
Proof.
  induction 1 as [|k l Hni _ IH]; cbn; [done|].
  destruct (decide (k = j)) as [->|Hne].
  - rewrite bool_decide_eq_true_2, decide_True by set_solver. cbn. rewrite IH, decide_False by done. done.
  - rewrite bool_decide_eq_false_2, IH by done. do 2 case_decide; set_solver.
Qed.

Lemma stopping_inv w s' es :
  world_inv w -> handleStopping (w_dag w) = (s', es) ->
  world_inv (mkWorld s' (w_submitted w) (w_log w ++ es)).
Proof.
  intros H E. destruct (handleStopping_spec (w_dag w) (wi_dag _ H)) as (s2 & es2 & E2 & Hd & Hj & Hm & Hn & _ & Hr & Hs).
  rewrite E in E2. injection E2 as <- <-. split; cbn; rewrite ?starts_app, ?Hs, ?app_nil_r.
  - done.
  - intros j. rewrite Hj, lookup_empty. by intros [].
  - intros j. rewrite responses_app, List.filter_app, length_app, (wi_answers _ H j).
    assert (Hres : length (List.filter (fun k => bool_decide (k = j)) (responses es)) =
                   if is_active (w_dag w) j then 1%nat else 0%nat).
    { assert (HP : forall l l' : list JobID, l ≡ₚ l' -> length (List.filter (fun k => bool_decide (k = j)) l) =
        length (List.filter (fun k => bool_decide (k = j)) l')).
      { induction 1; cbn; repeat case_match; cbn; congruence. }
      rewrite (HP _ _ Hr), NoDup_count by apply NoDup_fst_map_to_list.
      unfold is_active. case_decide as Hin.
      - rewrite bool_decide_eq_true_2; [done|]. apply list_elem_of_fmap in Hin as ([k job] & -> & Hk).
        apply elem_of_map_to_list in Hk. cbn. by rewrite Hk.
      - rewrite bool_decide_eq_false_2; [done|]. intros [job Hjob]. destruct Hin. apply list_elem_of_fmap.
        exists (j, job). split; [done|]. by apply elem_of_map_to_list. }
    assert (Ef : is_active s' j = false).
    { apply bool_decide_eq_false. rewrite Hj, lookup_empty. by intros []. }
    rewrite Hres, Ef. cbn. rewrite andb_true_r.
    destruct (is_active (w_dag w) j) eqn:Ea; cbn; rewrite ?andb_false_r, ?andb_true_r; [|lia].
    rewrite bool_decide_eq_true_2; [done|]. apply (wi_active _ H). by apply is_active_true.
  - apply H.
  - intros set. rewrite Hn. apply H.
  - intros j id. rewrite Hm, Hj, lookup_empty. split; [apply (wi_count _ H)|by intros []].
Qed.

Lemma dag_reachable_inv w : dag_reachable w -> world_inv w.
Proof.
  induction 1 as [fs ts options s Hs|w w' _ H [e s es He E]].
  - unfold NewDAGScheduler in Hs. apply bind_Ok in Hs as (c & Hc & [= <-]).
    apply resolveSchedulerOptions_pos in Hc as [_ Hpos].
    assert (Hne : forall j (P : Prop), is_Some ((∅ : gmap JobID jobState) !! j) -> P).
    { intros j P. rewrite lookup_empty. by intros []. }
    split; cbn.
    + split; cbn; [done| |done]. intros j job Hj. eapply (Hne j). by rewrite Hj.
    + intros j. apply Hne.
    + intros j. by rewrite bool_decide_eq_false_2 by set_solver.
    + constructor.
    + intros set Hset. by apply not_elem_of_nil in Hset.
    + intros j id. unfold started_count. cbn. split; [lia|]. apply Hne.
  - destruct (event_job e) as [j|] eqn:Hj.
    + destruct (handleEvent_Ok w e j s es H He Hj E) as (act & Hh & Hsub). eapply world_inv_handled; [done|done|].
      destruct Hsub as [[-> ->]|(-> & -> & ?)]; [left; split; [set_solver|done]|by right].
    + destruct e; try discriminate Hj. cbn in E |- *. injection E as E.
      rewrite union_empty_l_L. by apply stopping_inv.
Qed.

(** ** An example run *)

Definition step_world (w : world) (e : schedulerEvent) : option world :=
  if (dag_nextStageAttemptID (w_dag w) + 1 <? 2 ^ 64)%N then
    match handleEvent (w_dag w) e with
    | Some (Ok (s, es)) => Some (mkWorld s (submitted_by e ∪ w_submitted w) (w_log w ++ es))
    | _ => None
    end
  else None.

Definition is_report (e : schedulerEvent) : bool :=
  match e with jobSubmitted _ _ _ _ => false | _ => true end.

Definition run_events (es : list schedulerEvent) (w : world) : option world :=
  foldl (fun w e => w ← w; if is_report e then step_world w e else None) (Some w) es.

Lemma step_world_step w e w' :
  dag_reachable w -> (is_report e = true \/ event_ok w e) -> step_world w e = Some w' -> dag_reachable w'.
Proof.
  unfold step_world. intros Hw He Hs.
  destruct (N.ltb_spec (dag_nextStageAttemptID (w_dag w) + 1) (2 ^ 64)); [|done].
  destruct (handleEvent (w_dag w) e) as [[[s es]|]|] eqn:E; try done. injection Hs as <-.
  eapply dag_next; [done|]. econstructor; [|done]. destruct He as [Hr|He]; [|done].
  split; [done|]. by destruct e.
Qed.

Lemma run_events_reachable es w w' : dag_reachable w -> run_events es w = Some w' -> dag_reachable w'.
Proof.
  unfold run_events. revert w. induction es as [|e es IH]; intros w Hw; cbn.
  - by intros [= <-].
  - destruct (is_report e) eqn:Hr.
    + destruct (step_world w e) as [w1|] eqn:E.
      * apply IH. eapply step_world_step; [done|by left|done].
      * intros H. exfalso. clear -H. induction es as [|d es IHes]; [done|exact (IHes H)].
    + intros H. exfalso. clear -H. induction es as [|d es IHes]; [done|exact (IHes H)].
Qed.

Definition example_dag : dag := mkDag 2 (Some example_functions) true ∅ 0 false.
Definition example_action : ActionSpec := {| act_Kind := ActionCount; act_TargetRDD := 2%N |}.
Definition empty_world : world := mkWorld example_dag ∅ [].

Definition example_submit : schedulerEvent := jobSubmitted 0%N None (Some example_graph) example_action.

(** Attempt [attempt] of map task [task] of stage attempt [stageAttempt]. *)
Definition example_map_identity (stageAttempt attempt task : N) : AttemptIdentity :=
  mkIdentity example_run 0 0 0 stageAttempt task attempt (Z.of_N task).

Definition example_map_success (stageAttempt attempt task : N) : schedulerEvent :=
  taskSucceeded
    (mkSuccess 0 0 (mkAttempt attempt task stageAttempt) (Z.of_N task) "w"
       (mkOutput None 0 (Some (mkMapOutput 1 (example_map_identity stageAttempt attempt task) 2 3
          [empty_bucket 0; empty_bucket 1; empty_bucket 2])))) None None.

(** The count of result partition [p]; its task IDs follow those of the map stage. *)
Definition example_count (stageAttempt : N) (p : N) (n : Z) : TaskAttemptSuccess :=
  mkSuccess 0 1 (mkAttempt (10 + p) (2 + p) stageAttempt) (Z.of_N p) "w" (mkOutput None n None).

(** A reduce task cannot read the output of map partition 0. *)
Definition example_loss (stageAttempt : N) : TaskAttemptFailure :=
  mkFailure FailureShuffleInput
    (Some (mkReference (example_map_identity 0 0 0) 1)) 0 1 (mkAttempt 11 3 stageAttempt) 1 "w" "bucket missing".

(** Submitted; in the result stage; after two of three counts. *)
Definition example_w1 : world := default empty_world (step_world empty_world example_submit).
Definition example_w2 : world :=
  default empty_world (run_events [example_map_success 0 0 0; example_map_success 0 1 1] example_w1).
Definition example_w3 : world :=
  default empty_world (run_events [taskSucceeded (example_count 1 0 4) None None;
                                   taskSucceeded (example_count 1 2 5) None None] example_w2).

Lemma run_events_default es w :
  (match run_events es w with Some _ => true | None => false end) = true ->
  run_events es w = Some (default empty_world (run_events es w)).
Proof. by destruct (run_events es w). Qed.

Lemma example_w1_reachable : dag_reachable example_w1.
Proof.
  assert (H0 : dag_reachable empty_world) by by eapply (dag_start _ _ []).
  eapply (step_world_step empty_world example_submit); [exact H0| |].
  - right. split; [done|]. split; [set_solver|]. exact example_graph_wf.
  - assert (E : (match step_world empty_world example_submit with Some _ => true | None => false end) = true)
      by (vm_compute; reflexivity).
    unfold example_w1. destruct (step_world empty_world example_submit); [reflexivity|discriminate E].
Qed.

Lemma example_w2_reachable : dag_reachable example_w2.
Proof.
  eapply run_events_reachable; [exact example_w1_reachable|]. apply run_events_default. vm_compute. reflexivity.
Qed.

Lemma example_w3_reachable : dag_reachable example_w3.
Proof.
  eapply run_events_reachable; [exact example_w2_reachable|]. apply run_events_default. vm_compute. reflexivity.
Qed.

(** ** Properties *)

(** Exactly one stage of the job is running, with partitions left to finish. *)
Definition one_running (job : jobState) : Prop :=
  exists id st, js_stages job !! id = Some st /\ sg_status st = stageRunning /\ 0 < sg_remaining st /\
    forall id' st', js_stages job !! id' = Some st' -> sg_status st' = stageRunning -> id' = id.

Lemma job_ok_running max next jobID job : job_ok max next jobID job -> one_running job.
Proof.
  intros [Hinv (m & c & cs & Hj & Hp)].
  assert (Huniq : forall id id' st st', js_stages job !! id = Some st -> js_stages job !! id' = Some st' ->
    sg_status st = stageRunning -> sg_status st' = stageRunning -> id' = id).
  { intros id id' st st' H H' Hr Hr'.
    destruct (running_stage _ _ _ _ _ _ Hj Hp H Hr) as [(a & b & E & -> & -> & Hc)|(-> & -> & Hc)],
      (running_stage _ _ _ _ _ _ Hj Hp H' Hr') as [(a' & b' & E' & -> & -> & Hc')|(-> & -> & Hc')];
      try congruence; exfalso; first [rewrite E in Hc'; congruence|rewrite E' in Hc; congruence]. }
  assert (Hex : exists id st, js_stages job !! id = Some st /\ sg_status st = stageRunning).
  { destruct m as [[mid ms]|]; [destruct Hp as [[Hr _]|[_ Hr]]|].
    - exists mid, ms. split; [by eapply job_is_map|done].
    - exists c, cs. split; [by eapply job_is_result|done].
    - exists c, cs. split; [by eapply job_is_result|done]. }
  destruct Hex as (id & st & Hid & Hr). exists id, st. split_and!; [done|done| |by intros; eapply Huniq].
  exact (sgi_running _ _ _ _ _ _ (Hinv _ _ Hid) Hr).
Qed.

(** C7. In every reachable state the handling of every event ends, and it panics
    exactly when the event is the submission, to a scheduler that is not
    stopping and has a task scheduler, of a job whose plan is accepted but has
    more partitions in all than an [int] can count (the capacity that
    [GenerateTasks] passes to [make] has wrapped to a negative one).  Memory is
    unbounded here: a capacity that is not negative is granted.  Otherwise,
    in the next state, as in every reachable one, each active job has exactly
    one running stage, with unfinished partitions, so a job is never left
    without an event that will advance or end it. *)
Theorem handleEvent_safe w e :
  dag_reachable w -> event_ok w e ->
  (forall j job, dag_jobs (w_dag w) !! j = Some job -> one_running job) /\
  exists r, handleEvent (w_dag w) e = Some r /\
    match r with
    | Ok (s, es) => ~ event_panics (w_dag w) e /\ forall j job, dag_jobs s !! j = Some job -> one_running job
    | Err err => err = panic_range /\ event_panics (w_dag w) e
    end.
Proof.
  intros Hw He. pose proof (dag_reachable_inv w Hw) as H.
  assert (Hrun : forall s, dag_inv s -> forall j job, dag_jobs s !! j = Some job -> one_running job).
  { intros s Hs j job Hj. eapply job_ok_running. by apply (di_jobs _ Hs). }
  split; [by apply Hrun, H|]. destruct (event_job e) as [j|] eqn:Hj.
  - destruct (handleEvent_handled w e j H He Hj) as [[Hp E]|(Hp & act & s' & es & E & Hh & _)];
      (eexists; split; [done|]); [done|]. split; [done|]. apply Hrun, Hh.
  - destruct e; try discriminate Hj. cbn.
    destruct (handleStopping_spec (w_dag w) (wi_dag _ H)) as (s' & es & E & Hd & _).
    rewrite E. eexists. split; [done|]. split; [tauto|]. by apply Hrun.
Qed.

(** The example with 2^62 partitions on both sides of its shuffle. *)
Definition with_partitions (n : Z) (node : RDDNode) : RDDNode :=
  {| node_ID := node_ID node; node_Name := node_Name node; node_Operator := node_Operator node;
     node_Dependencies := (fun d => {| dep_Kind := dep_Kind d; dep_ParentID := dep_ParentID d; dep_Narrow := dep_Narrow d;
       dep_Shuffle := (fun s => {| sd_ShuffleID := sd_ShuffleID s; sd_Partitioner := HashPartitioner n;
         sd_AggregatorID := sd_AggregatorID s; sd_MapSideCombine := sd_MapSideCombine s |}) <$> dep_Shuffle d |})
       <$> node_Dependencies node;
     node_NumPartitions := n; node_Partitioner := (fun _ => HashPartitioner n) <$> node_Partitioner node |}.

Definition huge_graph : RDDGraph :=
  add_all (with_partitions (2 ^ 62) <$> [example_source; example_map; example_reduce]).

Definition huge_submit : schedulerEvent := jobSubmitted 0%N None (Some huge_graph) example_action.

(** A lost map output is handled; a job of 2^63 partitions panics. *)
Lemma handleEvent_safe_witness :
  (exists s es, handleEvent (w_dag example_w2) (taskFailed (example_loss 1) None None) = Some (Ok (s, es)) /\
    forall j job, dag_jobs s !! j = Some job -> one_running job) /\
  handleEvent (w_dag empty_world) huge_submit = Some (Err panic_range) /\ event_panics (w_dag empty_world) huge_submit.
Proof.
  split; [|split; [vm_compute; reflexivity|]].
  - destruct (handleEvent_safe example_w2 (taskFailed (example_loss 1) None None) example_w2_reachable)
      as (_ & [[s es]|e] & E & Hr); [split; [vm_compute; reflexivity|exact I]|exists s, es; exact (conj E (proj2 Hr))|].
    exfalso. exact (proj2 Hr).
  - destruct (handleEvent_safe empty_world huge_submit) as (_ & [[s es]|e] & E & Hr);
      [by eapply (dag_start _ _ [])| |exfalso; vm_compute in E; discriminate E|exact (proj2 Hr)].
    split; [vm_compute; reflexivity|]. split; [set_solver|by apply add_all_wf].
Defined.

(** C10. Exactly once.  In every reachable state a submitted job that is no
    longer active has been answered once, and an active or unknown one never;
    stopping the scheduler answers every active job. *)
Theorem jobs_answered_once w :
  dag_reachable w ->
  (forall j, length (List.filter (fun k => bool_decide (k = j)) (responses (w_log w))) =
     if bool_decide (j ∈ w_submitted w) && negb (is_active (w_dag w) j) then 1%nat else 0%nat) /\
  dag_jobs (handleStopping (w_dag w)).1 = ∅ /\
  responses (handleStopping (w_dag w)).2 ≡ₚ (map_to_list (dag_jobs (w_dag w))).*1.
Proof.
  intros H%dag_reachable_inv. split; [apply H|].
  destruct (handleStopping_spec (w_dag w) (wi_dag _ H)) as (s' & es & -> & _ & Hj & _ & _ & _ & Hr & _). done.
Qed.

(** Job 0 is answered by its last count, and only then. *)
Definition example_w4 : world :=
  default empty_world (run_events [taskSucceeded (example_count 1 1 6) None None] example_w3).

Lemma example_w4_reachable : dag_reachable example_w4.
Proof.
  eapply run_events_reachable; [exact example_w3_reachable|]. apply run_events_default. vm_compute. reflexivity.
Qed.

Lemma jobs_answered_once_witness :
  length (List.filter (fun k => bool_decide (k = 0%N)) (responses (w_log example_w4))) = 1%nat /\
  length (List.filter (fun k => bool_decide (k = 0%N)) (responses (w_log example_w3))) = 0%nat.
Proof.
  split.
  - rewrite (proj1 (jobs_answered_once example_w4 example_w4_reachable) 0%N). vm_compute. reflexivity.
  - rewrite (proj1 (jobs_answered_once example_w3 example_w3_reachable) 0%N). vm_compute. reflexivity.
Defined.

(** C11. Stage attempts.  Every task set ever started is one the physical
    scheduler accepts, under a stage attempt ID larger than all earlier ones;
    a stage of a job is started at most [maxStageAttempts] times. *)
Theorem stage_attempts w :
  dag_reachable w ->
  Forall task_set_ok (starts (w_log w)) /\
  StronglySorted N.lt (tset_StageAttemptID <$> starts (w_log w)) /\
  forall j id, started_count j id (starts (w_log w)) <= dag_maxStageAttempts (w_dag w).
Proof.
  intros H%dag_reachable_inv. split; [|split; [apply H|intros; apply (wi_count _ H)]].
  apply Forall_forall. intros set Hs. by apply (wi_next _ H).
Qed.

Lemma stage_attempts_witness :
  length (starts (w_log example_w3)) = 2%nat /\ started_count 0 1 (starts (w_log example_w3)) <= 2.
Proof.
  split; [vm_compute; reflexivity|].
  exact (proj2 (proj2 (stage_attempts example_w3 example_w3_reachable)) 0%N 1%N).
Defined.

(** C12. A stage starts only with its inputs complete: whenever handling an
    event starts a task set, it holds every task of a running stage of an
    active job, and, behind a shuffle, a valid snapshot of the accepted output
    of every map partition, all of them from the parent's current, completed
    attempt; without one it has no shuffle input. *)
Theorem stage_inputs w e s es set :
  dag_reachable w -> event_ok w e -> handleEvent (w_dag w) e = Some (Ok (s, es)) -> set ∈ starts es ->
  exists job st, dag_jobs s !! tset_JobID set = Some job /\ js_stages job !! tset_StageID set = Some st /\
    sg_status st = stageRunning /\ sg_attemptID st = tset_StageAttemptID set /\ sg_tasks st = tset_Tasks set /\
    inputs_from (tset_JobID set) job st (tset_ShuffleInputs set).
Proof.
  intros H%dag_reachable_inv He E Hset. destruct (event_job e) as [j|] eqn:Hj.
  - destruct (handleEvent_Ok w e j s es H He Hj E) as (act & Hh & _).
    destruct (hd_starts _ _ _ _ _ Hh) as [[Es _]|(set' & Es & _ & _ & _ & Ej & job & st & Hs)]; rewrite Es in Hset.
    + by apply not_elem_of_nil in Hset.
    + apply list_elem_of_singleton in Hset as ->. exists job, st. by rewrite Ej.
  - destruct e; try discriminate Hj. cbn in E. injection E as E.
    destruct (handleStopping_spec (w_dag w) (wi_dag _ H)) as (s' & es' & E' & _ & _ & _ & _ & _ & _ & Hs).
    rewrite E in E'. injection E' as <- <-. rewrite Hs in Hset. by apply not_elem_of_nil in Hset.
Qed.

(** The result stage starts when the second map output arrives. *)
Definition example_half : world :=
  default empty_world (run_events [example_map_success 0 0 0] example_w1).

Lemma stage_inputs_witness :
  exists s es set, handleEvent (w_dag example_half) (example_map_success 0 1 1) = Some (Ok (s, es)) /\
    starts es = [set] /\ exists job st, dag_jobs s !! tset_JobID set = Some job /\
      js_stages job !! tset_StageID set = Some st /\ sg_tasks st = tset_Tasks set.
Proof.
  assert (Hr : dag_reachable example_half).
  { eapply run_events_reachable; [exact example_w1_reachable|]. apply run_events_default. vm_compute. reflexivity. }
  assert (Hn : match handleEvent (w_dag example_half) (example_map_success 0 1 1) with
               | Some (Ok (_, es)) => length (starts es) | _ => 0%nat end = 1%nat) by (vm_compute; reflexivity).
  destruct (handleEvent (w_dag example_half) (example_map_success 0 1 1)) as [[[s es]|]|] eqn:E; try discriminate Hn.
  destruct (starts es) as [|set [|? ?]] eqn:Es; try discriminate Hn.
  exists s, es, set. split; [reflexivity|]. split; [exact Es|].
  destruct (stage_inputs example_half (example_map_success 0 1 1) s es set Hr) as (job & st & Hj & Hst & _ & _ & Ht & _).
  - split; [vm_compute; reflexivity|exact I].
  - exact E.
  - rewrite Es. constructor.
  - exists job, st. split; [exact Hj|]. split; [exact Hst|exact Ht].
Defined.
