(* ===== verification/DagResults.v ===== *)
(** * DagResults: answers, recovery and stale reports

    What the answer of an action contains, what the loss of a shuffle input
    does, and which reports change nothing. *)

From S2P Require Import Prelude Bytes Plan Lineage Stages Planner PlannerProofs TaskGenerator Shuffle Reports.
From S2P Require Import Fifo FifoSystem Dag DagProofs DagEvents DagTheorems.
#[local] Open Scope Z_scope.

(** ** Merging *)

Lemma i64_add a b : i64 (i64 a + b) = i64 (a + b).
Proof.
  unfold i64. replace ((a + 2 ^ 63) mod 2 ^ 64 - 2 ^ 63 + b + 2 ^ 63) with ((a + 2 ^ 63) mod 2 ^ 64 + b) by lia.
  rewrite Zplus_mod_idemp_l. do 2 f_equal. lia.
Qed.

(** The output stored for partition [p], and its parts. *)
Definition output_at (outputs : gmap PartitionID TaskOutput) (p : nat) : TaskOutput :=
  default zeroOutput (outputs !! Z.of_nat p).
Definition records_at (outputs : gmap PartitionID TaskOutput) (p : nat) : list any :=
  default [] (to_Records (output_at outputs p)).

Definition sum_counts (outputs : gmap PartitionID TaskOutput) (ps : list nat) : Z :=
  foldr (fun p n => to_Count (output_at outputs p) + n) 0 ps.

Lemma merge_records outputs ps r :
  let r' := foldl (fun r p => mergeOutput ActionCollect r (output_at outputs p)) r ps in
  default [] (jr_Records r') = default [] (jr_Records r) ++ concat (records_at outputs <$> ps) /\
  jr_Count r' = jr_Count r /\
  (jr_Records r' = None <-> jr_Records r = None /\ concat (records_at outputs <$> ps) = []).
Proof.
  revert r. induction ps as [|p ps IH]; intros r; cbn [foldl fmap list_fmap concat]; cbv zeta.
  - rewrite app_nil_r. naive_solver.
  - specialize (IH (mergeOutput ActionCollect r (output_at outputs p))). cbv zeta in IH.
    destruct IH as (-> & -> & Hn).
    rewrite Hn. unfold mergeOutput, appendRecords. cbn. fold (records_at outputs p).
    destruct (records_at outputs p) as [|x xs] eqn:E; cbn; [done|].
    split; [by rewrite <- app_assoc|]. split; [done|]. split; [by intros [? _]|by intros [_ ?]].
Qed.

Lemma merge_counts outputs ps r :
  let r' := foldl (fun r p => mergeOutput ActionCount r (output_at outputs p)) r ps in
  in_i64 (jr_Count r) ->
  jr_Count r' = i64 (jr_Count r + sum_counts outputs ps) /\ jr_Records r' = jr_Records r.
Proof.
  revert r. induction ps as [|p ps IH]; intros r; cbn [foldl sum_counts foldr]; cbv zeta; intros Hr.
  - by rewrite Z.add_0_r, i64_id.
  - specialize (IH (mergeOutput ActionCount r (output_at outputs p))). cbv zeta in IH.
    destruct IH as [-> ->]; [apply i64_range|]. cbn.
    split; [|done]. rewrite i64_add. f_equal. unfold sum_counts. lia.
Qed.

(** [mergeTaskOutputs] concatenates the records in partition order (a nil
    slice when there are none) for [Collect], and adds the counts, as 64-bit
    integers, for [Count]: the sum itself whenever it fits. *)
Theorem mergeTaskOutputs_correct outputs :
  let n := size outputs in
  (default [] (jr_Records (mergeTaskOutputs ActionCollect outputs)) = concat (records_at outputs <$> seq 0 n) /\
   (jr_Records (mergeTaskOutputs ActionCollect outputs) = None <-> concat (records_at outputs <$> seq 0 n) = []) /\
   jr_Count (mergeTaskOutputs ActionCollect outputs) = 0) /\
  (jr_Count (mergeTaskOutputs ActionCount outputs) = i64 (sum_counts outputs (seq 0 n)) /\
   (in_i64 (sum_counts outputs (seq 0 n)) ->
    jr_Count (mergeTaskOutputs ActionCount outputs) = sum_counts outputs (seq 0 n)) /\
   jr_Records (mergeTaskOutputs ActionCount outputs) = None).
Proof.
  intros n.
  destruct (merge_records outputs (seq 0 n) (mkResult None 0)) as (E1 & E2 & E3).
  destruct (merge_counts outputs (seq 0 n) (mkResult None 0)) as [E4 E5]; [by unfold in_i64|].
  split; [split; [exact E1|split; [|exact E2]]|].
  - etransitivity; [exact E3|]. cbn. naive_solver.
  - split; [exact E4|]. split; [|exact E5]. intros Hin. etransitivity; [exact E4|]. by apply i64_id.
Qed.

(** ** Answers *)

(** C2. The answer of an action.  When the last partition of the result stage
    reports a valid output, the job is answered with the merge of the outputs
    of all its partitions, each of them accepted for its own task in the stage
    attempt that ran, and it is no longer active. *)
Theorem job_result w r ctx' job st task :
  dag_reachable w -> (dag_nextStageAttemptID (w_dag w) + 1 < 2 ^ 64)%N -> let s := w_dag w in
  pendingTask s (ts_JobID r) (ts_StageID r) (ts_Attempt r) (ts_PartitionID r) = Some (job, st, task) ->
  ts_StageID r = js_resultStageID job -> sg_remaining st = 1 ->
  is_Ok (ValidateFor (ts_Output r)
    (mkExecution (reportRun job (ts_Output r)) (ts_JobID r) task (ts_Attempt r) "" None)) = true ->
  let outputs := <[ts_PartitionID r := ts_Output r]> (sg_outputs st) in
  exists s', handleTaskSucceeded s r None ctx' = Ok (s',
      [CancelJob (ts_JobID r); Respond (ts_JobID r) (Ok (mergeTaskOutputs (act_Kind (js_action job)) outputs))]) /\
    dag_jobs s' !! ts_JobID r = None /\ size outputs = length (sg_tasks st) /\
    forall i t, sg_tasks st !! i = Some t -> exists o a,
      outputs !! Z.of_nat i = Some o /\ t_FinalAction t = Some (js_action job) /\
      output_ok o (mkExecution (js_runID job) (ts_JobID r) t (mkAttempt a (t_ID t) (sg_attemptID st)) "" None).
Proof.
  intros H%dag_reachable_inv Hnext s Hp Hres Hone Hv outputs. pose proof (wi_dag _ H) as Hd.
  destruct (ValidateFor _ _) as [[]|e] eqn:Ev; [|done]. apply ValidateFor_spec in Ev.
  destruct (success_handled s r ctx' job st task Hd Hnext Hp Ev) as (s' & es & E & Hh & Hfin & _).
  specialize (Hfin Hone Hres). injection Hfin as -> ->.
  eexists. split; [exact E|]. split; [cbn; by rewrite lookup_delete_eq|].
  apply pendingTask_Some in Hp as (Hj & Hst & Hr & Ha & Hp0 & Ht & Hid & Hn).
  destruct (di_jobs _ Hd _ _ Hj) as [Hinv (m & c & cs & His & Hph)].
  pose proof (Hinv _ _ Hst) as Hsi.
  assert (Hcs : st = cs /\ c = ts_StageID r).
  { pose proof His as (Erc & _). pose proof (job_is_result _ _ _ _ His) as Hc.
    rewrite Hres, Erc in Hst |- *. split; congruence. }
  destruct Hcs as [-> ->]. pose proof His as (_ & Hk & Hf & _).
  destruct (sgi_tasks _ _ _ _ _ _ Hsi) as (_ & _ & Htasks).
  assert (Hsize : size outputs = length (sg_tasks cs)).
  { unfold outputs. rewrite map_size_insert_None by done. pose proof (sgi_remaining _ _ _ _ _ _ Hsi). lia. }
  split; [done|]. intros i t Hi. destruct (Htasks _ _ Hi) as (_ & _ & _ & _ & _ & Hft).
  assert (Hi' : (i < length (sg_tasks cs))%nat) by by eapply lookup_lt_Some.
  assert (Hout : output_ok (ts_Output r)
    (mkExecution (js_runID job) (ts_JobID r) task (mkAttempt (ta_ID (ts_Attempt r)) (t_ID task) (sg_attemptID cs)) "" None)).
  { rewrite <- Ha, <- Hid. destruct (Htasks _ _ Ht) as (_ & Hkt & _).
    exact (output_ok_run _ (mkExecution (reportRun job (ts_Output r)) (ts_JobID r) task (ts_Attempt r) "" None)
             (js_runID job) ltac:(cbn; congruence) Ev). }
  destruct (decide (ts_PartitionID r = Z.of_nat i)) as [Ep|Ep].
  - exists (ts_Output r), (ta_ID (ts_Attempt r)). rewrite Ep, Nat2Z.id in *.
    assert (t = task) as -> by congruence. split; [unfold outputs; rewrite Ep; apply lookup_insert_eq|]. split; [congruence|done].
  - assert (Hdone : stage_inv (dag_maxStageAttempts s) (dag_nextStageAttemptID s) (js_runID job) (ts_JobID r)
      (ts_StageID r) (with_status stageSucceeded (addOutput (ts_PartitionID r) (ts_Output r) cs))).
    { eapply addOutput_inv; try done. cbn. lia. }
    destruct (outputs_complete _ _ _ _ _ _ i Hdone) as [o Ho]; [cbn; lia|done|].
    destruct (sgi_outputs _ _ _ _ _ _ Hdone _ _ Ho) as (_ & t' & a & Ht' & Hok). cbn in Ht'.
    rewrite Nat2Z.id in Ht'. assert (t' = t) as -> by congruence.
    exists o, a. split; [exact Ho|]. split; [congruence|exact Hok].
Qed.

(** Counts 4, 6 and 5 of the example job. *)
Lemma job_result_witness :
  exists s', handleTaskSucceeded (w_dag example_w3) (example_count 1 1 6) None None =
    Ok (s', [CancelJob 0; Respond 0 (Ok (mkResult None 15))]) /\ dag_jobs s' !! 0%N = None.
Proof.
  set (r := example_count 1 1 6).
  destruct (pendingTask (w_dag example_w3) 0 1 (ts_Attempt r) 1) as [[[job st] task]|] eqn:Hp;
    [|by vm_compute in Hp].
  assert (Hc : (fun x => match x with (job, st, task) =>
      (js_resultStageID job, sg_remaining st, js_action job, js_runID job,
       is_Ok (ValidateFor (ts_Output r) (mkExecution (reportRun job (ts_Output r)) 0 task (ts_Attempt r) "" None)),
       mergeTaskOutputs ActionCount (<[1 := ts_Output r]> (sg_outputs st))) end) <$>
      pendingTask (w_dag example_w3) 0 1 (ts_Attempt r) 1 =
    Some (1%N, 1, example_action, example_run, true, mkResult None 15)) by (vm_compute; reflexivity).
  rewrite Hp in Hc. injection Hc as Hres Hrem Hact _ Hv Hm.
  destruct (job_result example_w3 r None job st task example_w3_reachable) as (s' & E & Hj & _).
  - vm_compute. reflexivity.
  - exact Hp.
  - symmetry. exact Hres.
  - exact Hrem.
  - exact Hv.
  - exists s'. split; [|exact Hj]. rewrite Hact in E. cbn in E. rewrite Hm in E. exact E.
Defined.

(** ** Recovery *)

(** Restarting the map stage of a job whose stages are both pending. *)
Lemma start_map_stage max jobID l mid ms c cs :
  job_is (ln_job l) (Some (mid, ms)) c cs -> sg_status ms = stagePending -> sg_status cs = stagePending ->
  sg_attempts ms < max ->
  startReadyStages max jobID None l =
    Ok (mkLaunch (with_stages (insert mid (startedStage (ln_next l) ms)) (ln_job l)) (u64 (ln_next l + 1))
          (ln_effects l ++ [StartTaskSet (mkTaskSet None jobID mid (ln_next l) (sg_tasks ms))]), None).
Proof.
  intros Hj Hm Hc Ha. pose proof Hj as (_ & _ & _ & Ho & Hne & _ & Hpc & Hpm & _).
  pose proof (job_is_map _ _ _ _ _ Hj) as Hmid. pose proof (job_is_result _ _ _ _ Hj) as Hcs.
  assert (E : startStage max jobID l mid =
    Ok (mkLaunch (with_stages (insert mid (startedStage (ln_next l) ms)) (ln_job l)) (u64 (ln_next l + 1))
          (ln_effects l ++ [StartTaskSet (mkTaskSet None jobID mid (ln_next l) (sg_tasks ms))]), None)).
  { unfold startStage. rewrite Hmid, Hm, Hpm, bool_decide_eq_true_2 by done. cbn.
    destruct (Z.leb_spec max (sg_attempts ms)); [lia|done]. }
  unfold startReadyStages. rewrite Ho. cbn [startStages]. rewrite E. cbn -[startStage].
  erewrite (startStage_waits max jobID _ c cs mid); cbn;
    [done|by rewrite lookup_insert_ne|done|by rewrite lookup_insert_eq|done].
Qed.

(** C3. Recovery.  When a result task of the current stage attempt reports the
    loss of a shuffle input, and the report names a currently accepted map
    output and both stages have attempts left, both stage attempts are
    cancelled and their outputs dropped, and only the map stage restarts, under
    a fresh attempt ID; the result stage waits for it.  In every other case
    the job is answered with an error. *)
Theorem shuffle_recovery w r job child task :
  dag_reachable w -> (dag_nextStageAttemptID (w_dag w) + 1 < 2 ^ 64)%N -> let s := w_dag w in
  let j := tf_JobID r in
  pendingTask s j (tf_StageID r) (tf_Attempt r) (tf_PartitionID r) = Some (job, child, task) ->
  tf_Kind r = FailureShuffleInput ->
  (exists parentID parent ref, recoverable (dag_maxStageAttempts s) job child r parentID parent ref /\
     exists s' job', handleTaskFailed s r None None = Ok (s',
         [CancelStage j parentID (sg_attemptID parent); CancelStage j (tf_StageID r) (sg_attemptID child);
          StartTaskSet (mkTaskSet None j parentID (dag_nextStageAttemptID s) (sg_tasks parent))]) /\
       dag_jobs s' !! j = Some job' /\
       js_stages job' !! parentID = Some (startedStage (dag_nextStageAttemptID s) (resetStage parent)) /\
       js_stages job' !! tf_StageID r = Some (resetStage child)) \/
  ((forall parentID parent ref, ~ recoverable (dag_maxStageAttempts s) job child r parentID parent ref) /\
   exists s' err, handleTaskFailed s r None None = Ok (s', [CancelJob j; Respond j (Err err)]) /\
     dag_jobs s' !! j = None).
Proof.
  intros H%dag_reachable_inv Hnext. cbv zeta. intros Hp Hk. pose proof (wi_dag _ H) as Hd.
  unfold handleTaskFailed. rewrite Hp. rewrite bool_decide_eq_true_2 by done.
  apply pendingTask_Some in Hp as (Hj & Hst & Hr & _).
  destruct (di_jobs _ Hd _ _ Hj) as [Hinv (m & c & cs & His & Hph)].
  destruct (prepareRecovery_spec _ _ _ _ _ _ _ _ _ His Hinv Hph Hst Hr Hk)
    as [(err & -> & Hno)|(parentID & parent & ref & Hrec & Hm & Eid & -> & E)]; cbn [mbind result_bind].
  - right. split; [done|]. unfold failJob. rewrite Hj. eexists _, err. split; [done|]. cbn. apply lookup_delete_eq.
  - left. exists parentID, parent, ref. split; [done|]. rewrite E. cbn [mbind result_bind].
    destruct (recovery_handled (w_dag w) r None job m c cs parentID parent Hd Hnext Hj His Hinv Hm) as (His' & _).
    unfold startOrFail. erewrite (start_map_stage _ _ (mkLaunch _ _ _)); [|exact His'|done|done|apply Hrec].
    cbn. rewrite <- Eid. eexists _, _. split; [done|]. cbn. rewrite lookup_insert_eq. split; [done|]. cbn.
    split; [by rewrite lookup_insert_eq|].
    assert (Hne : parentID <> tf_StageID r).
    { rewrite Eid. rewrite Hm in His. by destruct His as (_ & _ & _ & _ & ? & _). }
    by rewrite lookup_insert_ne, lookup_insert_eq by done.
Qed.

(** The loss of a bucket of map partition 0 restarts the map stage as attempt 2. *)
Lemma shuffle_recovery_witness :
  exists s', handleTaskFailed (w_dag example_w2) (example_loss 1) None None = Ok s' /\
    (tset_StageID <$> starts s'.2) = [0%N] /\ (tset_StageAttemptID <$> starts s'.2) = [2%N].
Proof.
  destruct (pendingTask (w_dag example_w2) 0 1 (tf_Attempt (example_loss 1)) 1) as [[[job st] task]|] eqn:Hp;
    [|by vm_compute in Hp].
  destruct (shuffle_recovery example_w2 (example_loss 1) job st task example_w2_reachable)
    as [(parentID & parent & ref & Hrec & s' & job' & E & _)|(_ & s' & err & E & _)].
  - vm_compute. reflexivity.
  - exact Hp.
  - reflexivity.
  - eexists. split; [exact E|]. cbn.
    assert (Hm : (fun x => match x with (job, st, task) => st_ParentIDs (sg_stage st) end) <$>
      pendingTask (w_dag example_w2) 0 1 (tf_Attempt (example_loss 1)) 1 = Some [0%N]) by (vm_compute; reflexivity).
    rewrite Hp in Hm. injection Hm as Hm. destruct Hrec as (Hpar & _). rewrite Hm in Hpar. injection Hpar as <-.
    split; [reflexivity|]. vm_compute. reflexivity.
  - exfalso. assert (Hs : match handleTaskFailed (w_dag example_w2) (example_loss 1) None None with
                          | Ok (_, es) => length (starts es) | Err _ => 0%nat end = 1%nat) by (vm_compute; reflexivity).
    rewrite E in Hs. discriminate Hs.
Defined.

(** ** Stale reports and other jobs *)

(** C13. Isolation.  An event changes only the job it names, and a report is
    acted on exactly when it names the running attempt of a stage of an active
    job, the task of its partition, and a partition with no accepted output;
    every other report, in particular one of an earlier stage attempt or a
    duplicate, changes nothing. *)
Theorem reports_isolated w :
  dag_reachable w -> let s := w_dag w in
  (forall e j s' es, event_ok w e -> event_job e = Some j -> handleEvent s e = Some (Ok (s', es)) ->
     forall k, k <> j -> dag_jobs s' !! k = dag_jobs s !! k) /\
  (forall r ctx ctx',
     (forall job st task, dag_jobs s !! ts_JobID r = Some job -> js_stages job !! ts_StageID r = Some st ->
        sg_status st = stageRunning -> sg_attemptID st = ta_StageAttemptID (ts_Attempt r) ->
        0 <= ts_PartitionID r -> sg_tasks st !! Z.to_nat (ts_PartitionID r) = Some task ->
        t_ID task = ta_TaskID (ts_Attempt r) -> is_Some (sg_outputs st !! ts_PartitionID r)) ->
     handleTaskSucceeded s r ctx ctx' = Ok (s, [])) /\
  (forall r ctx ctx',
     (forall job st task, dag_jobs s !! tf_JobID r = Some job -> js_stages job !! tf_StageID r = Some st ->
        sg_status st = stageRunning -> sg_attemptID st = ta_StageAttemptID (tf_Attempt r) ->
        0 <= tf_PartitionID r -> sg_tasks st !! Z.to_nat (tf_PartitionID r) = Some task ->
        t_ID task = ta_TaskID (tf_Attempt r) -> is_Some (sg_outputs st !! tf_PartitionID r)) ->
     handleTaskFailed s r ctx ctx' = Ok (s, [])).
Proof.
  intros H%dag_reachable_inv s. split_and!.
  - intros e j s' es He Hj E k Hk.
    destruct (handleEvent_Ok w e j _ _ H He Hj E) as (act & Hh & _).
    by apply (hd_other _ _ _ _ _ Hh).
  - intros r ctx ctx' Hstale. unfold handleTaskSucceeded.
    destruct (pendingTask _ _ _ _ _) as [[[job st] task]|] eqn:Hp; [|done].
    apply pendingTask_Some in Hp as (Hj & Hst & Hr & Ha & Hp & Ht & Hid & Hn).
    destruct (Hstale job st task Hj Hst Hr (eq_sym Ha) Hp Ht (eq_sym Hid)). congruence.
  - intros r ctx ctx' Hstale. unfold handleTaskFailed.
    destruct (pendingTask _ _ _ _ _) as [[[job st] task]|] eqn:Hp; [|done].
    apply pendingTask_Some in Hp as (Hj & Hst & Hr & Ha & Hp & Ht & Hid & Hn).
    destruct (Hstale job st task Hj Hst Hr (eq_sym Ha) Hp Ht (eq_sym Hid)). congruence.
Qed.

(** A count already accepted is ignored when it is reported again. *)
Lemma reports_isolated_witness :
  handleTaskSucceeded (w_dag example_w3) (example_count 1 0 4) None None = Ok (w_dag example_w3, []).
Proof.
  apply (proj1 (proj2 (reports_isolated example_w3 example_w3_reachable))).
  intros job st task Hj Hst _ _ _ _ _.
  assert (Ho : (job ← dag_jobs (w_dag example_w3) !! 0%N; st ← js_stages job !! 1%N;
                to_Count <$> sg_outputs st !! 0) = Some 4) by (vm_compute; reflexivity).
  assert (Ho' : to_Count <$> sg_outputs st !! 0 = Some 4).
  { rewrite <- Ho. change (ts_JobID (example_count 1 0 4)) with 0%N in Hj.
    change (ts_StageID (example_count 1 0 4)) with 1%N in Hst. rewrite Hj. cbn. rewrite Hst. reflexivity. }
  change (ts_PartitionID (example_count 1 0 4)) with 0.
  destruct (sg_outputs st !! 0) as [o|]; [exists o; reflexivity|discriminate Ho'].
Defined.
