(* ===== verification/DagLoop.v ===== *)
(** * DagLoop: the event loop and the goroutines around it

    Models [scheduler/event_loop.go] and the parts of [scheduler/dag_scheduler.go]
    that send events: [Run], [Close], [scheduleTaskSet] with its observer, and
    [watchCancellation].  The channel of the loop has no buffer, so that a send
    and its reception are one step, which also runs the handler; the answer on a
    job's buffered channel never waits.  The physical scheduler calls the
    observer any number of times, from any goroutine, until its call returns. *)

From S2P Require Import Prelude Plan Stages Shuffle Reports Fifo Dag DagProofs DagEvents DagTheorems.
#[local] Open Scope Z_scope.

(** ** The event loop *)

Definition errEventLoopStopped : error := Sentinel "scheduler event loop is stopped".

(** [el_stop] and [el_done] say the channels are closed. *)
Record eventLoop := mkLoop { el_stop : bool; el_done : bool }.

Definition newEventLoop : eventLoop := mkLoop false false.

(** What the select of [send] may return. *)
Inductive send (l : eventLoop) (ctx : option error) : result unit -> Prop :=
  | send_accepted : el_done l = false -> send l ctx (Ok tt)
  | send_canceled err : ctx = Some err -> send l ctx (Err err)
  | send_stopped : el_done l = true -> send l ctx (Err errEventLoopStopped).

(** [close(l.stop)], and the return of [run], at its select. *)
Definition stopLoop (l : eventLoop) : eventLoop := mkLoop true (el_done l).
Definition exitLoop (l : eventLoop) : option eventLoop := 
  if el_stop l && negb (el_done l) then Some (mkLoop true true) else None.

(** ** The goroutines *)

(** A call of [Run]: in [send], waiting for the answer, or returned; a job whose
    submission was accepted is named. *)
Inductive runCall :=
  | RunSending (job : JobID) (graph : option RDDGraph) (action : ActionSpec)
  | RunWaiting (job : JobID)
  | RunReturned (job : option JobID) (r : result JobResult).

Definition submitError (job : JobID) (err : error) : error :=
  Errorf "submit job %d: %w" [FInt (Z.of_N job); FWrap err].

(** What [Run] makes of its answer. *)
Definition runResult (job : JobID) (c : jobCompletion) : result JobResult :=
  map_err (fun err => Errorf "job %d: %w" [FInt (Z.of_N job); FWrap err]) c.

(** A goroutine of [s.workers]: [scheduleTaskSet], with the events that the
    observer and then the goroutine itself are sending, or [watchCancellation],
    with the error it sends. *)
Inductive worker :=
  | TaskSetWorker (set : TaskSet) (returned : bool) (sending : list schedulerEvent)
  | WatchWorker (job : JobID) (sending : option error).

Inductive closePhase := CloseIdle | CloseSending | CloseJoining | CloseStopping | CloseReturned.

(** [ds_answers] are the answers sent on the response channels. *)
Record dagSystem := mkDagSystem {
  ds_world : world;
  ds_nextJobID : JobID;
  ds_loop : eventLoop;
  ds_closing : bool;
  ds_close : closePhase;
  ds_calls : gmap nat runCall;
  ds_workers : list worker;
  ds_answers : gmap JobID jobCompletion }.

(** ** The effects of a handler *)

Definition newWorkers (e : effect) : list worker :=
  match e with
  | StartTaskSet set => [TaskSetWorker set false []]
  | WatchCancellation job => [WatchWorker job None]
  | _ => []
  end.

Definition newAnswer (e : effect) (m : gmap JobID jobCompletion) : gmap JobID jobCompletion :=
  match e with Respond job c => <[job := c]> m | _ => m end.

(** Graphs are built by [AddNode]. *)
Definition graph_of_ok (e : schedulerEvent) : Prop :=
  match e with jobSubmitted _ _ g _ => graph_ok g | _ => True end.

(** The loop handles event [e] of a sender: its new state, and what is started and
    answered. *)
Definition handles (y : dagSystem) (e : schedulerEvent) (w : world) (es : list effect) : Prop :=
  send (ds_loop y) None (Ok tt) /\ graph_of_ok e /\ (dag_nextStageAttemptID (w_dag (ds_world y)) + 1 < 2 ^ 64)%N /\
  exists s, handleEvent (w_dag (ds_world y)) e = Some (Ok (s, es)) /\
    w = mkWorld s (submitted_by e ∪ w_submitted (ds_world y)) (w_log (ds_world y) ++ es).

Definition after (y : dagSystem) (w : world) (es : list effect) (workers : list worker) : dagSystem :=
  mkDagSystem w (ds_nextJobID y) (ds_loop y) (ds_closing y) (ds_close y) (ds_calls y)
    (workers ++ flat_map newWorkers es) (foldl (fun m e => newAnswer e m) (ds_answers y) es).

Definition with_call (c : nat) (st : runCall) (y : dagSystem) : dagSystem :=
  mkDagSystem (ds_world y) (ds_nextJobID y) (ds_loop y) (ds_closing y) (ds_close y) (<[c := st]> (ds_calls y))
    (ds_workers y) (ds_answers y).
Definition with_workers (ws : list worker) (y : dagSystem) : dagSystem :=
  mkDagSystem (ds_world y) (ds_nextJobID y) (ds_loop y) (ds_closing y) (ds_close y) (ds_calls y) ws (ds_answers y).
Definition with_close (l : eventLoop) (ph : closePhase) (y : dagSystem) : dagSystem :=
  mkDagSystem (ds_world y) (ds_nextJobID y) l (ds_closing y) ph (ds_calls y) (ds_workers y) (ds_answers y).

(** [jobID := s.nextJobID.Add(1) - 1], with the send it is for. *)
Definition drawJobID (c : nat) (graph : option RDDGraph) (action : ActionSpec) (y : dagSystem) : dagSystem :=
  mkDagSystem (ds_world y) (u64 (ds_nextJobID y + 1)) (ds_loop y) (ds_closing y) (ds_close y)
    (<[c := RunSending (ds_nextJobID y) graph action]> (ds_calls y)) (ds_workers y) (ds_answers y).

Definition startClose (y : dagSystem) : dagSystem :=
  mkDagSystem (ds_world y) (ds_nextJobID y) (ds_loop y) true CloseSending (ds_calls y) (ds_workers y) (ds_answers y).

(** The reports the observer of a task set sends on; [ctx] and [ctx'] are what the
    handler will read of the job's context. *)
Inductive observed (set : TaskSet) : schedulerEvent -> Prop :=
  | observed_success r ctx ctx' :
      observeSucceeded (tset_JobID set) (tset_StageID set) (tset_StageAttemptID set) r = true ->
      observed set (taskSucceeded r ctx ctx')
  | observed_failure r ctx ctx' :
      observeFailed (tset_JobID set) (tset_StageID set) (tset_StageAttemptID set) r = true ->
      observed set (taskFailed r ctx ctx').

(** The event that ends [scheduleTaskSet]. *)
Definition finished (set : TaskSet) (err ctx : option error) : schedulerEvent :=
  taskSetFinished (tset_JobID set) (tset_StageID set) (tset_StageAttemptID set) err ctx.

Definition send_events (y : dagSystem) (i : nat) (w : worker) : dagSystem :=
  with_workers (<[i := w]> (ds_workers y)) y.

(** What comes in: calls of [Run], and reports that the physical scheduler calls an
    observer with. *)
Inductive input_step (y : dagSystem) : dagSystem -> Prop :=
  | run_rejected c :
      ds_calls y !! c = None -> ds_closing y = true ->
      input_step y (with_call c (RunReturned None (Err ErrSchedulerClosed)) y)
  | run_drawn c graph action :
      ds_calls y !! c = None -> ds_closing y = false -> (ds_nextJobID y + 1 < 2 ^ 64)%N ->
      input_step y (drawJobID c graph action y)
  | work_observed i set sending e :
      ds_workers y !! i = Some (TaskSetWorker set false sending) -> observed set e ->
      input_step y (send_events y i (TaskSetWorker set false (sending ++ [e]))).

(** What a call of [Run] does with its job: the submission is accepted and handled,
    or not sent; the answer is received.  A submission that panics ends the
    process, and has no step. *)
Inductive runCall_step (y : dagSystem) : dagSystem -> Prop :=
  | run_sent c job ctx graph action w es :
      ds_calls y !! c = Some (RunSending job graph action) -> handles y (jobSubmitted job ctx graph action) w es ->
      runCall_step y (with_call c (RunWaiting job) (after y w es (ds_workers y)))
  | run_not_sent c job graph action ctx err :
      ds_calls y !! c = Some (RunSending job graph action) -> send (ds_loop y) ctx (Err err) ->
      runCall_step y (with_call c (RunReturned None (Err (submitError job err))) y)
  | run_answered c job completion :
      ds_calls y !! c = Some (RunWaiting job) -> ds_answers y !! job = Some completion ->
      runCall_step y (with_call c (RunReturned (Some job) (runResult job completion)) y).

(** What others do to the goroutines: the physical scheduler returns after its
    calls of the observer; the context of a caller ends, which [watchCancellation]
    sees as that or as the end of the job's context. *)
Inductive outside_step (y : dagSystem) : dagSystem -> Prop :=
  | work_returned i set err ctx :
      ds_workers y !! i = Some (TaskSetWorker set false []) ->
      outside_step y (send_events y i (TaskSetWorker set true [finished set err ctx]))
  | watch_canceled i job err :
      ds_workers y !! i = Some (WatchWorker job None) -> outside_step y (send_events y i (WatchWorker job (Some err)))
  | watch_ended i job :
      ds_workers y !! i = Some (WatchWorker job None) -> outside_step y (with_workers (delete i (ds_workers y)) y).

(** What the goroutines do by themselves, when the physical scheduler returns once
    the context of its call has ended. *)
Inductive own_step (y : dagSystem) : dagSystem -> Prop :=
  | work_canceled i set err ctx :
      ds_workers y !! i = Some (TaskSetWorker set false []) -> CancelJob (tset_JobID set) ∈ w_log (ds_world y) ->
      own_step y (send_events y i (TaskSetWorker set true [finished set err ctx]))
  (** An event is accepted, and handled; or the loop has stopped. *)
  | work_sent i set returned l1 e l2 w es :
      ds_workers y !! i = Some (TaskSetWorker set returned (l1 ++ e :: l2)) -> handles y e w es ->
      own_step y (after y w es (<[i := TaskSetWorker set returned (l1 ++ l2)]> (ds_workers y)))
  | work_dropped i set returned l1 e l2 :
      ds_workers y !! i = Some (TaskSetWorker set returned (l1 ++ e :: l2)) ->
      send (ds_loop y) None (Err errEventLoopStopped) ->
      own_step y (send_events y i (TaskSetWorker set returned (l1 ++ l2)))
  | work_done i set :
      ds_workers y !! i = Some (TaskSetWorker set true []) -> own_step y (with_workers (delete i (ds_workers y)) y)
  | watch_sent i job err w es :
      ds_workers y !! i = Some (WatchWorker job (Some err)) -> handles y (jobCanceled job err) w es ->
      own_step y (after y w es (delete i (ds_workers y)))
  | watch_dropped i job err :
      ds_workers y !! i = Some (WatchWorker job (Some err)) -> send (ds_loop y) None (Err errEventLoopStopped) ->
      own_step y (with_workers (delete i (ds_workers y)) y)
  | watch_done i job :
      ds_workers y !! i = Some (WatchWorker job None) -> CancelJob job ∈ w_log (ds_world y) ->
      own_step y (with_workers (delete i (ds_workers y)) y).

(** The steps of [Close] and of the loop's own exit; only one call of [Close] does
    anything. *)
Inductive close_step (y : dagSystem) : dagSystem -> Prop :=
  | close_started : ds_close y = CloseIdle -> close_step y (startClose y)
  (** [stopped] is received from [handleStopping]. *)
  | close_sent w es :
      ds_close y = CloseSending -> handles y schedulerStopping w es ->
      close_step y (with_close (ds_loop y) CloseJoining (after y w es (ds_workers y)))
  | close_joined :
      ds_close y = CloseJoining -> ds_workers y = [] ->
      close_step y (with_close (stopLoop (ds_loop y)) CloseStopping y)
  | loop_exited l : exitLoop (ds_loop y) = Some l -> close_step y (with_close l (ds_close y) y)
  | close_returned :
      ds_close y = CloseStopping -> el_done (ds_loop y) = true ->
      close_step y (with_close (ds_loop y) CloseReturned y).

Inductive dag_system_step (y : dagSystem) : dagSystem -> Prop :=
  | run_input y' : input_step y y' -> dag_system_step y y'
  | run_call y' : runCall_step y y' -> dag_system_step y y'
  | run_outside y' : outside_step y y' -> dag_system_step y y'
  | run_own y' : own_step y y' -> dag_system_step y y'
  | run_close y' : close_step y y' -> dag_system_step y y'.

Inductive dag_system_reachable : dagSystem -> Prop :=
  | dag_system_start functions taskScheduler options s :
      NewDAGScheduler functions taskScheduler options = Ok s ->
      dag_system_reachable (mkDagSystem (mkWorld s ∅ []) 0 newEventLoop false CloseIdle ∅ [] ∅)
  | dag_system_next y y' : dag_system_reachable y -> dag_system_step y y' -> dag_system_reachable y'.
