(* ===== verification/DagLoopProofs.v ===== *)
(** * DagLoopProofs: the goroutines of the job scheduler

    The event loop and its senders refine the state machine of [DagTheorems], a
    call of [Run] returns the answer of its own job, and [Close] returns. *)

From S2P Require Import Prelude Plan Stages Shuffle Reports Fifo Dag DagProofs DagEvents DagTheorems DagLoop.
#[local] Open Scope Z_scope.

(** ** What a handler starts and cancels *)

Definition worker_job (w : worker) : JobID :=
  match w with TaskSetWorker set _ _ => tset_JobID set | WatchWorker job _ => job end.

(** A job of a goroutine is active, or its context has been cancelled. *)
Definition accounted (s : dag) (log : list effect) (j : JobID) : Prop :=
  is_Some (dag_jobs s !! j) \/ CancelJob j ∈ log.

(** Handling takes [s] to [s'] with effects [es]. *)
Record accounts (s s' : dag) (es : list effect) : Prop := {
  ac_old j : is_Some (dag_jobs s !! j) -> accounted s' es j;
  ac_new w : w ∈ flat_map newWorkers es -> accounted s' es (worker_job w) }.

Lemma accounts_refl s : accounts s s [].
Proof. split; [by left|]. by intros w Hw%elem_of_nil. Qed.

Lemma failJob_accounts s j err s' es : failJob s j err = (s', es) -> accounts s s' es.
Proof.
  unfold failJob. destruct (dag_jobs s !! j) as [job|] eqn:E; intros [= <- <-]; [|apply accounts_refl].
  split; [|by intros w Hw%elem_of_nil]. intros k Hk. destruct (decide (k = j)) as [->|Hne].
  - right. by left.
  - left. cbn. by rewrite lookup_delete_ne.
Qed.

(** The effects of [startStages] are task sets of the job. *)
Lemma startStage_effects max j l id l' err : startStage max j l id = Ok (l', err) ->
  exists sets, ln_effects l' = ln_effects l ++ (StartTaskSet <$> sets) /\ Forall (fun set => tset_JobID set = j) sets.
Proof.
  assert (Hsame : exists sets, ln_effects l = ln_effects l ++ (StartTaskSet <$> sets) /\ Forall (fun set => tset_JobID set = j) sets).
  { exists []. by rewrite app_nil_r. }
  unfold startStage. destruct (js_stages (ln_job l) !! id) as [st|]; [|done].
  destruct (negb _); [by intros [= <- <-]|]. intros (ready & _ & H)%bind_Ok.
  destruct (negb ready); [by injection H as <- <-|]. destruct (max <=? _); [by injection H as <- <-|].
  apply bind_Ok in H as ([inputs|e] & _ & H); injection H as <- <-; [|done].
  eexists [_]. split; [done|]. by repeat constructor.
Qed.

Lemma startStages_effects max j order : forall l l' err, startStages max j l order = Ok (l', err) ->
  exists sets, ln_effects l' = ln_effects l ++ (StartTaskSet <$> sets) /\ Forall (fun set => tset_JobID set = j) sets.
Proof.
  induction order as [|id order IH]; intros l l' err; cbn.
  { intros [= <- <-]. exists []. by rewrite app_nil_r. }
  intros ([l1 e] & (sets & E & Hs)%startStage_effects & H)%bind_Ok. destruct e as [e|].
  - injection H as <- <-. by exists sets.
  - apply IH in H as (sets' & E' & Hs'). exists (sets ++ sets'). rewrite fmap_app, app_assoc, <- E. split; [done|].
    by apply Forall_app.
Qed.

(** [effects] has no goroutine of another job. *)
Lemma startOrFail_accounts s j ctx job effects s' es : startOrFail s j ctx job effects = Ok (s', es) ->
  (forall w, w ∈ flat_map newWorkers effects -> worker_job w = j) -> accounts s s' es.
Proof.
  unfold startOrFail, startReadyStages. intros ([l err] & Hl & H)%bind_Ok Heff.
  assert (He : exists sets, ln_effects l = effects ++ (StartTaskSet <$> sets) /\ Forall (fun set => tset_JobID set = j) sets).
  { destruct ctx as [e|]; [injection Hl as <- <-; exists []; by rewrite app_nil_r|]. by apply startStages_effects in Hl. }
  destruct He as (sets & E & Hsets).
  assert (Hj : forall w, w ∈ flat_map newWorkers (ln_effects l) -> worker_job w = j).
  { intros w. rewrite E, flat_map_app, elem_of_app. intros [?|Hw]; [by apply Heff|].
    apply list_elem_of_In, in_flat_map in Hw as (x & Hx & Hw). apply list_elem_of_In, list_elem_of_fmap in Hx as (set & -> & Hset).
    destruct Hw as [<-|[]]. rewrite Forall_forall in Hsets. by apply Hsets. }
  assert (Hold : forall k, is_Some (dag_jobs s !! k) -> is_Some (<[j := ln_job l]> (dag_jobs s) !! k)).
  { intros k Hk. apply lookup_insert_is_Some'. by right. }
  destruct err as [err|].
  - set (s1 := with_next _ _) in H. destruct (failJob s1 j err) as [s2 es2] eqn:Ef. injection H as <- <-.
    assert (Hc : CancelJob j ∈ es2).
    { unfold failJob in Ef. cbn in Ef. rewrite lookup_insert_eq in Ef. injection Ef as _ <-. by left. }
    assert (Es2 : flat_map newWorkers es2 = []).
    { unfold failJob in Ef. cbn in Ef. rewrite lookup_insert_eq in Ef. by injection Ef as _ <-. }
    split.
    + intros k Hk. destruct (ac_old _ _ _ (failJob_accounts _ _ _ _ _ Ef) k (Hold k Hk)) as [?|?]; [by left|right].
      apply elem_of_app. by right.
    + intros w. rewrite flat_map_app, Es2, app_nil_r. intros ->%Hj. right. apply elem_of_app. by right.
  - injection H as <- <-. split.
    + intros k Hk. left. by apply Hold.
    + intros w ->%Hj. left. cbn. by rewrite lookup_insert_eq.
Qed.

Lemma recovery_effects max j job child r job' es : prepareRecovery max j job child r = Ok (inr (job', es)) ->
  flat_map newWorkers es = [].
Proof. unfold prepareRecovery. intros H. repeat case_match; try done; by injection H as _ <-. Qed.

Lemma handleTaskSucceeded_accounts s r ctx ctx' s' es : handleTaskSucceeded s r ctx ctx' = Ok (s', es) -> accounts s s' es.
Proof.
  unfold handleTaskSucceeded. destruct (pendingTask _ _ _ _ _) as [[[job stage] task]|]; [|intros [= <- <-]; apply accounts_refl].
  destruct ctx as [err|]; [intros [= H]; by eapply failJob_accounts|].
  destruct (ValidateFor _ _); [|intros [= H]; by eapply failJob_accounts].
  assert (Hput : forall job', accounts s (put_job (ts_JobID r) job' s) []).
  { intros job'. split; [|by intros w Hw%elem_of_nil]. intros j Hj. left. cbn. apply lookup_insert_is_Some'. by right. }
  destruct (negb _); [intros [= <- <-]; apply Hput|].
  destruct (negb _); [intros H; eapply startOrFail_accounts; [exact H|by intros w Hw%elem_of_nil]|].
  intros [= <- <-]. split; [|by intros w Hw%elem_of_nil]. intros j Hj. destruct (decide (j = ts_JobID r)) as [->|Hne].
  - right. by left.
  - left. cbn. by rewrite lookup_delete_ne.
Qed.

Lemma handleTaskFailed_accounts s r ctx ctx' s' es : handleTaskFailed s r ctx ctx' = Ok (s', es) -> accounts s s' es.
Proof.
  unfold handleTaskFailed. destruct (pendingTask _ _ _ _ _) as [[[job stage] task]|]; [|intros [= <- <-]; apply accounts_refl].
  destruct ctx as [err|]; [intros [= H]; by eapply failJob_accounts|].
  destruct (bool_decide _); [|intros [= H]; by eapply failJob_accounts].
  intros ([err|[job' effects]] & Hr & H)%bind_Ok; [injection H as H; by eapply failJob_accounts|].
  eapply startOrFail_accounts; [exact H|]. rewrite (recovery_effects _ _ _ _ _ _ _ Hr). by intros w Hw%elem_of_nil.
Qed.

Lemma stop_accounts l : forall s es0 s' es,
  foldl (fun r jobID => let '(s, es) := failJob r.1 jobID ErrSchedulerClosed in (s, r.2 ++ es)) (s, es0) l = (s', es) ->
  (forall j, is_Some (dag_jobs s !! j) -> accounted s' es j) /\ (forall e, e ∈ es0 -> e ∈ es) /\
  (flat_map newWorkers es0 = [] -> flat_map newWorkers es = []).
Proof.
  induction l as [|j l IH]; intros s es0 s' es; cbn.
  { intros [= <- <-]. split; [by left|done]. }
  destruct (failJob s j ErrSchedulerClosed) as [s1 es1] eqn:Ef. intros H.
  apply IH in H as (Hold & Hin & Hnone). split_and!.
  - intros k Hk. destruct (ac_old _ _ _ (failJob_accounts _ _ _ _ _ Ef) k Hk) as [?|Hc]; [by apply Hold|].
    right. apply Hin, elem_of_app. by right.
  - intros e He. apply Hin, elem_of_app. by left.
  - intros E0. apply Hnone. rewrite flat_map_app, E0. unfold failJob in Ef.
    destruct (dag_jobs s !! j); by injection Ef as _ <-.
Qed.

Lemma handleEvent_accounts s e s' es : handleEvent s e = Some (Ok (s', es)) -> accounts s s' es.
Proof.
  destruct e as [j ctx g a|r ctx ctx'|r ctx ctx'|j st at_ err ctx|j err|]; cbn.
  - assert (Hrej : forall err, accounts s s [Respond j (Err err)]).
    { intros err. split; [by left|]. by intros w Hw%elem_of_nil. }
    unfold handleJobSubmitted, rejectJob. destruct (dag_stopping s); [intros [= <- <-]; apply Hrej|].
    destruct (negb _); [intros [= <- <-]; apply Hrej|].
    destruct (planJob s g a) as [[[p tasks]|err]|]; [|destruct (is_panic err); [done|intros [= <- <-]; apply Hrej]|done].
    intros [= (job & _ & H)%bind_Ok]. eapply startOrFail_accounts; [exact H|]. cbn.
    by intros w ->%list_elem_of_singleton.
  - intros [= H]. by eapply handleTaskSucceeded_accounts.
  - intros [= H]. by eapply handleTaskFailed_accounts.
  - intros [= H]. unfold handleTaskSetFinished in H. repeat case_match; try (by eapply failJob_accounts);
      injection H as <- <-; apply accounts_refl.
  - intros [= H]. by eapply failJob_accounts.
  - intros [= H]. unfold handleStopping in H.
    destruct (foldl _ _ _) as [s1 es1] eqn:E. injection H as <- <-.
    apply stop_accounts in E as (Hold & _ & Hnone). split.
    + intros j Hj. destruct (Hold j Hj) as [?|?]; [by left|right]. apply elem_of_app. by left.
    + intros w. rewrite flat_map_app, Hnone by done. by intros Hw%elem_of_nil.
Qed.

(** ** A scheduler that is stopping *)

Definition stopped (s : dag) : Prop := dag_stopping s = true /\ dag_jobs s = ∅.

Lemma stopped_handles s e : stopped s -> exists s' es, handleEvent s e = Some (Ok (s', es)) /\
  stopped s' /\ flat_map newWorkers es = [] /\ dag_nextStageAttemptID s' = dag_nextStageAttemptID s.
Proof.
  intros [Hs Hj]. assert (Hf : forall j err, failJob s j err = (s, [])).
  { intros j err. unfold failJob. by rewrite Hj, lookup_empty. }
  assert (Hp : forall j id at_ p, pendingTask s j id at_ p = None).
  { intros. unfold pendingTask. by rewrite Hj, lookup_empty. }
  destruct e as [j ctx g a|r ctx ctx'|r ctx ctx'|j st at_ err ctx|j err|]; cbn.
  - unfold handleJobSubmitted. rewrite Hs. by eexists _, _.
  - unfold handleTaskSucceeded. rewrite Hp. by eexists _, _.
  - unfold handleTaskFailed. rewrite Hp. by eexists _, _.
  - unfold handleTaskSetFinished. rewrite Hj, lookup_empty. by eexists _, _.
  - rewrite Hf. by eexists _, _.
  - unfold handleStopping. cbn. rewrite Hj, map_to_list_empty. cbn. by eexists _, _.
Qed.

Lemma stopped_handled s e s' es : stopped s -> handleEvent s e = Some (Ok (s', es)) ->
  stopped s' /\ flat_map newWorkers es = [] /\ dag_nextStageAttemptID s' = dag_nextStageAttemptID s.
Proof. intros H E. destruct (stopped_handles s e H) as (s2 & es2 & E2 & Hs). rewrite E in E2. by injection E2 as <- <-. Qed.

(** ** The invariant *)

(** The job of a call, which no other call has. *)
Definition call_job (st : runCall) : option JobID :=
  match st with RunSending j _ _ | RunWaiting j => Some j | RunReturned j _ => j end.

Definition call_ok (w : world) (next : JobID) (st : runCall) : Prop :=
  match st with
  | RunSending j _ _ => (j < next)%N /\ j ∉ w_submitted w
  | RunWaiting j => j ∈ w_submitted w
  | RunReturned (Some j) r => j ∈ w_submitted w /\ exists c, Respond j c ∈ w_log w /\ r = runResult j c
  | RunReturned None r => exists err, r = Err err
  end.

Definition sent_by_worker (e : schedulerEvent) : Prop :=
  match e with jobSubmitted _ _ _ _ | schedulerStopping => False | _ => True end.

Definition worker_ok (w : world) (wk : worker) : Prop :=
  accounted (w_dag w) (w_log w) (worker_job wk) /\
  match wk with TaskSetWorker _ _ sending => Forall sent_by_worker sending | _ => True end.

Definition is_stopping (ph : closePhase) : bool :=
  match ph with CloseJoining | CloseStopping | CloseReturned => true | _ => false end.
Definition is_joined (ph : closePhase) : bool :=
  match ph with CloseStopping | CloseReturned => true | _ => false end.

Record system_inv (y : dagSystem) : Prop := {
  sy_world : dag_reachable (ds_world y);
  sy_submitted j : j ∈ w_submitted (ds_world y) -> (j < ds_nextJobID y)%N;
  sy_call c st : ds_calls y !! c = Some st -> call_ok (ds_world y) (ds_nextJobID y) st;
  sy_distinct c1 c2 st1 st2 j : ds_calls y !! c1 = Some st1 -> ds_calls y !! c2 = Some st2 ->
    call_job st1 = Some j -> call_job st2 = Some j -> c1 = c2;
  sy_answers j c : ds_answers y !! j = Some c -> Respond j c ∈ w_log (ds_world y);
  sy_answered j : j ∈ responses (w_log (ds_world y)) -> is_Some (ds_answers y !! j);
  sy_workers : Forall (worker_ok (ds_world y)) (ds_workers y);
  sy_loop : el_stop (ds_loop y) = is_joined (ds_close y);
  sy_done : el_done (ds_loop y) = true -> el_stop (ds_loop y) = true;
  sy_returned : ds_close y = CloseReturned -> el_done (ds_loop y) = true;
  sy_stopped : is_stopping (ds_close y) = true -> stopped (w_dag (ds_world y));
  sy_joined : is_joined (ds_close y) = true -> ds_workers y = [];
  sy_closing : ds_close y <> CloseIdle -> ds_closing y = true }.

(** *** Handled events *)

Lemma answers_fold es m j c : foldl (fun m e => newAnswer e m) m es !! j = Some c ->
  m !! j = Some c \/ Respond j c ∈ es.
Proof.
  revert m. induction es as [|e es IH]; intros m; cbn; [by left|]. intros [Hm|He]%IH; [|right; by right].
  destruct e as [job c'| | | | |]; cbn in Hm; try by left. apply lookup_insert_Some in Hm as [[-> ->]|[_ Hm]]; [right; by left|by left].
Qed.

Lemma answers_kept es m j : is_Some (m !! j) -> is_Some (foldl (fun m e => newAnswer e m) m es !! j).
Proof.
  revert m. induction es as [|e es IH]; intros m Hm; cbn; [done|]. apply IH. destruct e; cbn; try done.
  apply lookup_insert_is_Some'. by right.
Qed.

Lemma answers_responses es m j : j ∈ responses es -> is_Some (foldl (fun m e => newAnswer e m) m es !! j).
Proof.
  revert m. induction es as [|e es IH]; intros m; cbn; [by intros Hj%elem_of_nil|].
  destruct e as [job c| | | | |]; cbn; try by apply IH. intros [->|Hj]%elem_of_cons; [|by apply IH].
  apply answers_kept. by rewrite lookup_insert_eq.
Qed.

Lemma call_ok_mono w w' next next' st : call_ok w next st -> (forall e, e ∈ w_log w -> e ∈ w_log w') ->
  (next <= next')%N -> (forall j, j ∈ w_submitted w -> j ∈ w_submitted w') ->
  (forall j, call_job st = Some j -> j ∉ w_submitted w -> j ∉ w_submitted w') -> call_ok w' next' st.
Proof.
  intros H Hlog Hnext Hsub Hfresh. destruct st as [j g a|j|[j|] r]; cbn in *.
  - destruct H. split; [lia|by apply Hfresh].
  - by apply Hsub.
  - destruct H as (? & c & ? & ?). split; [by apply Hsub|]. exists c. split; [by apply Hlog|done].
  - done.
Qed.

(** What handling an event keeps, whoever sent it; [c] is the call of a
    submission. *)
Lemma handled_inv y e w es workers calls : system_inv y -> handles y e w es ->
  event_ok (ds_world y) e -> (forall j, j ∈ submitted_by e -> (j < ds_nextJobID y)%N) ->
  Forall (worker_ok (ds_world y)) workers ->
  (forall c st, calls !! c = Some st -> call_ok w (ds_nextJobID y) st) ->
  (forall c1 c2 st1 st2 j, calls !! c1 = Some st1 -> calls !! c2 = Some st2 ->
    call_job st1 = Some j -> call_job st2 = Some j -> c1 = c2) ->
  (is_joined (ds_close y) = true -> workers = []) ->
  let y' := after y w es workers in
  system_inv (mkDagSystem w (ds_nextJobID y) (ds_loop y) (ds_closing y) (ds_close y) calls (ds_workers y') (ds_answers y')).
Proof.
  intros H (Hsend & Hg & Hnext & s & E & ->) He Hsub Hworkers Hcalls Hdist Hnone y'.
  assert (Hidle : el_done (ds_loop y) = false) by by inversion Hsend.
  pose proof (handleEvent_accounts _ _ _ _ E) as [Hold Hnew].
  assert (Hlift : forall j log, accounted s es j -> accounted s (log ++ es) j).
  { intros j log [?|?]; [by left|right]. apply elem_of_app. by right. }
  split; cbn; try done; try apply H.
  - eapply dag_next; [apply H|]. by econstructor.
  - intros j [Hj|Hj]%elem_of_union; [by apply Hsub|by apply (sy_submitted _ H)].
  - intros j c [Hc|Hc]%answers_fold; apply elem_of_app; [left; by apply (sy_answers _ H)|by right].
  - intros j. rewrite responses_app, elem_of_app. intros [Hj|Hj]; [by apply answers_kept, (sy_answered _ H)|by apply answers_responses].
  - apply Forall_app. split; apply Forall_forall; intros wk Hwk.
    + rewrite Forall_forall in Hworkers. destruct (Hworkers wk Hwk) as [[Ha|Ha] Hp]; (split; [|exact Hp]); cbn.
      * by apply Hlift, Hold.
      * right. apply elem_of_app. by left.
    + split; [by apply Hlift, Hnew|]. destruct wk as [set r l|]; [|done].
      apply list_elem_of_In, in_flat_map in Hwk as (ef & _ & Hin). destruct ef; cbn in Hin; intuition (simplify_eq; constructor).
  - intros Hst. by destruct (stopped_handled _ _ _ _ (sy_stopped _ H Hst) E).
  - intros Hst. pose proof (sy_loop _ H) as El. rewrite Hst in El.
    destruct (stopped_handled (w_dag (ds_world y)) e s es) as (_ & -> & _); [|done|].
    { apply (sy_stopped _ H). by destruct (ds_close y). }
    by rewrite (Hnone Hst).
Qed.

Lemma reported_inv y e w es workers : system_inv y -> handles y e w es -> sent_by_worker e ->
  Forall (worker_ok (ds_world y)) workers -> (is_joined (ds_close y) = true -> workers = []) ->
  system_inv (after y w es workers).
Proof.
  intros H Hh He Hw Hj. assert (Esub : submitted_by e = ∅) by by destruct e.
  refine (handled_inv y e w es workers (ds_calls y) H Hh _ _ Hw _ (sy_distinct _ H) Hj).
  - destruct Hh as (_ & _ & Hnext & _). split; [done|]. by destruct e.
  - intros j. by rewrite Esub, elem_of_empty.
  - intros c st Hc. destruct Hh as (_ & _ & _ & s & _ & ->).
    apply (call_ok_mono _ _ _ _ _ (sy_call _ H c st Hc)); cbn; rewrite ?Esub; set_solver.
Qed.

Lemma with_workers_inv ws y : system_inv y -> Forall (worker_ok (ds_world y)) ws ->
  (is_joined (ds_close y) = true -> ws = []) -> system_inv (with_workers ws y).
Proof. intros [] ? ?. by split. Qed.

Lemma with_call_inv c st y : system_inv y -> call_ok (ds_world y) (ds_nextJobID y) st ->
  (forall j, call_job st = Some j -> exists st0, ds_calls y !! c = Some st0 /\ call_job st0 = Some j) ->
  system_inv (with_call c st y).
Proof.
  intros H Hst Hn. split; cbn; try apply H.
  - intros c' st' [[<- <-]|[_ Hc]]%lookup_insert_Some; [done|by apply (sy_call _ H c')].
  - intros c1 c2 st1 st2 j [[<- <-]|[_ H1]]%lookup_insert_Some [[<- <-]|[_ H2]]%lookup_insert_Some; [done| | |].
    + intros (st0 & Hc & E)%Hn. by apply (sy_distinct _ H c c2 st0 st2).
    + intros E1 (st0 & Hc & E)%Hn. by apply (sy_distinct _ H c1 c st1 st0 j).
    + by apply (sy_distinct _ H).
Qed.

Lemma workers_joined i wk y : system_inv y -> ds_workers y !! i = Some wk -> is_joined (ds_close y) = true -> False.
Proof. intros H Hi Hj. by rewrite (sy_joined _ H Hj) in Hi. Qed.

Lemma worker_lookup i wk y : system_inv y -> ds_workers y !! i = Some wk -> worker_ok (ds_world y) wk.
Proof. intros H. apply Forall_lookup_1, H. Qed.

Lemma workers_set i wk y : system_inv y -> worker_ok (ds_world y) wk -> Forall (worker_ok (ds_world y)) (<[i := wk]> (ds_workers y)).
Proof. intros H. apply Forall_insert, H. Qed.

Lemma workers_delete i y : system_inv y -> Forall (worker_ok (ds_world y)) (delete i (ds_workers y)).
Proof. intros H. apply Forall_delete, H. Qed.

#[local] Hint Resolve with_workers_inv workers_set workers_delete : core.

Lemma outside_inv y y' : system_inv y -> outside_step y y' -> system_inv y'.
Proof.
  intros H Hs. destruct Hs as [i set err ctx Hi|i job err Hi|i job Hi];
    pose proof (worker_lookup _ _ _ H Hi) as [Ha Hp]; apply with_workers_inv; auto;
    try (by intros Hj; destruct (workers_joined _ _ _ H Hi Hj)); apply workers_set; try done; (split; [exact Ha|]).
  by repeat constructor.
Qed.

Lemma observed_inv y i set sending e : system_inv y -> ds_workers y !! i = Some (TaskSetWorker set false sending) ->
  observed set e -> system_inv (send_events y i (TaskSetWorker set false (sending ++ [e]))).
Proof.
  intros H Hi He. pose proof (worker_lookup _ _ _ H Hi) as [Ha Hp]. apply with_workers_inv; [done| |].
  - apply workers_set; [done|]. split; [exact Ha|]. apply Forall_app. split; [exact Hp|]. constructor; [|done]. by destruct He.
  - by intros Hj; destruct (workers_joined _ _ _ H Hi Hj).
Qed.

Lemma sending_split i set returned l1 e l2 y : system_inv y ->
  ds_workers y !! i = Some (TaskSetWorker set returned (l1 ++ e :: l2)) ->
  sent_by_worker e /\ Forall (worker_ok (ds_world y)) (<[i := TaskSetWorker set returned (l1 ++ l2)]> (ds_workers y)).
Proof.
  intros H Hi. destruct (worker_lookup _ _ _ H Hi) as [Ha Hs].
  apply Forall_app in Hs as [H1 Hs]. apply Forall_cons in Hs as [He H2]. split; [done|].
  apply workers_set; [done|]. split; [exact Ha|]. by apply Forall_app.
Qed.

Lemma own_inv y y' : system_inv y -> own_step y y' -> system_inv y'.
Proof.
  intros H Hs. destruct Hs as [i set err ctx Hi Hc|i set r l1 e l2 w es Hi Hh|i set r l1 e l2 Hi Hd|i set Hi
    |i job err w es Hi Hh|i job err Hi Hd|i job Hi Hc];
    pose proof (fun Hj => workers_joined _ _ _ H Hi Hj) as Hnj.
  - apply with_workers_inv; [done| |by intros Hj%Hnj]. destruct (worker_lookup _ _ _ H Hi) as [Ha _].
    apply workers_set; [done|]. split; [exact Ha|by repeat constructor].
  - destruct (sending_split _ _ _ _ _ _ _ H Hi) as [He Hw]. by apply (reported_inv _ e); [| | | |intros Hj%Hnj].
  - destruct (sending_split _ _ _ _ _ _ _ H Hi) as [_ Hw]. by apply with_workers_inv; [| |intros Hj%Hnj].
  - apply with_workers_inv; [done|auto|by intros Hj%Hnj].
  - apply (reported_inv _ (jobCanceled job err)); [done|done|done|auto|by intros Hj%Hnj].
  - apply with_workers_inv; [done|auto|by intros Hj%Hnj].
  - apply with_workers_inv; [done|auto|by intros Hj%Hnj].
Qed.

(** *** [Close] *)

Lemma handleStopping_stopped s s' es : dag_inv s -> handleEvent s schedulerStopping = Some (Ok (s', es)) -> stopped s'.
Proof.
  intros H E. cbn in E. destruct (handleStopping_spec s H) as (s2 & es2 & E2 & _ & Hj & _ & _ & Hs & _).
  rewrite E2 in E. by injection E as <- <-.
Qed.

Lemma close_inv y y' : system_inv y -> close_step y y' -> system_inv y'.
Proof.
  intros H Hs. destruct Hs as [Hp|w es Hp Hh|Hp Hw|l Hl|Hp Hd].
  - destruct H. rewrite Hp in *. by split.
  - assert (H' : system_inv (after y w es (ds_workers y))).
    { refine (handled_inv y schedulerStopping w es _ (ds_calls y) H Hh _ _ (sy_workers _ H) _ (sy_distinct _ H) (sy_joined _ H)).
      - by destruct Hh as (_ & _ & ? & _).
      - intros j Hj. cbn in Hj. set_solver.
      - intros c st Hc. destruct Hh as (_ & _ & _ & s & _ & ->).
        apply (call_ok_mono _ _ _ _ _ (sy_call _ H c st Hc)); cbn; set_solver. }
    assert (Hst : stopped (w_dag w)).
    { destruct Hh as (_ & _ & _ & s & E & ->). eapply handleStopping_stopped; [|exact E].
      apply (dag_reachable_inv _ (sy_world _ H)). }
    destruct H'. cbn in *. rewrite Hp in *. split; try done. intros _. by apply sy_closing0.
  - pose proof (sy_closing _ H) as Hcl. destruct H. rewrite Hp in *. split; cbn; auto; done.
  - unfold exitLoop in Hl. destruct (el_stop (ds_loop y)) eqn:El; [|done]. destruct (el_done (ds_loop y)); [done|]. injection Hl as <-.
    pose proof (sy_loop _ H). destruct H. split; cbn; auto; congruence.
  - pose proof (sy_loop _ H). destruct H. rewrite Hp in *. split; cbn; auto; done.
Qed.

(** *** [Run] *)

Lemma call_lt y c st j : system_inv y -> ds_calls y !! c = Some st -> call_job st = Some j -> (j < ds_nextJobID y)%N.
Proof.
  intros H Hc Hj. pose proof (sy_call _ H c st Hc) as Hok. destruct st as [k g a|k|[k|] r]; cbn in Hj; try done;
    injection Hj as ->; cbn in Hok; [by destruct Hok|by apply (sy_submitted _ H)|by apply (sy_submitted _ H), Hok].
Qed.

Lemma drawn_inv y c g a : system_inv y -> ds_calls y !! c = None -> (ds_nextJobID y + 1 < 2 ^ 64)%N ->
  system_inv (drawJobID c g a y).
Proof.
  intros H Hc Hn. assert (E : u64 (ds_nextJobID y + 1) = (ds_nextJobID y + 1)%N) by by apply N.mod_small.
  assert (Hfresh : (ds_nextJobID y) ∉ w_submitted (ds_world y)) by (intros Hj%(sy_submitted _ H); lia).
  split; cbn; rewrite ?E; try apply H.
  - intros j Hj%(sy_submitted _ H). lia.
  - intros c' st [[<- <-]|[_ Hst]]%lookup_insert_Some.
    + split; [lia|done].
    + apply (call_ok_mono _ _ _ _ _ (sy_call _ H _ _ Hst)); [done|lia|done|done].
  - intros c1 c2 st1 st2 j [[<- <-]|[_ H1]]%lookup_insert_Some [[<- <-]|[_ H2]]%lookup_insert_Some; cbn.
    + done.
    + intros [= <-] Hj%(call_lt _ _ _ _ H H2). lia.
    + intros Hj%(call_lt _ _ _ _ H H1) [= <-]. lia.
    + by apply (sy_distinct _ H).
Qed.

Lemma sent_inv y c job ctx g a w es : system_inv y -> ds_calls y !! c = Some (RunSending job g a) ->
  handles y (jobSubmitted job ctx g a) w es -> system_inv (with_call c (RunWaiting job) (after y w es (ds_workers y))).
Proof.
  intros H Hc Hh. destruct (sy_call _ H c _ Hc) as [Hlt Hfresh].
  refine (handled_inv y (jobSubmitted job ctx g a) w es _ _ H Hh _ _ (sy_workers _ H) _ _ (sy_joined _ H)).
  - by destruct Hh as (_ & Hg & Hn & _).
  - intros j Hj. cbn in Hj. apply elem_of_singleton in Hj as ->. done.
  - destruct Hh as (_ & _ & _ & s & _ & ->). intros c' st [[<- <-]|[Hne Hst]]%lookup_insert_Some; cbn; [set_solver|].
    apply (call_ok_mono _ _ _ _ _ (sy_call _ H c' st Hst)); cbn; [set_solver|done|set_solver|].
    intros j Hj Hnew [->%elem_of_singleton|?]%elem_of_union; [|done]. destruct Hne. by eapply (sy_distinct _ H).
  - intros c1 c2 st1 st2 j [[<- <-]|[_ H1]]%lookup_insert_Some [[<- <-]|[_ H2]]%lookup_insert_Some; cbn; [done| | |].
    + intros [= <-]. by apply (sy_distinct _ H c c2 _ st2 _ Hc).
    + intros E1 [= <-]. by eapply (sy_distinct _ H c1 c st1 _ job).
    + by apply (sy_distinct _ H).
Qed.

Lemma run_inv y y' : system_inv y -> runCall_step y y' -> system_inv y'.
Proof.
  intros H [c job ctx g a w es Hc Hh|c job g a ctx err Hc Hs|c job comp Hc Ha].
  - by eapply sent_inv.
  - apply with_call_inv; [done| |done]. by eexists.
  - apply with_call_inv; [done| |intros j [= <-]; by eexists]. split; [apply (sy_call _ H c _ Hc)|].
    exists comp. split; [|done]. by apply (sy_answers _ H).
Qed.

Lemma system_step_inv y y' : system_inv y -> dag_system_step y y' -> system_inv y'.
Proof.
  intros H [y1 Hs|y1 Hs|y1 Hs|y1 Hs|y1 Hs]; [destruct Hs as [c Hc Hcl|c g a Hc Hcl Hn|i set sending e Hi He]|by apply run_inv in Hs|..].
  - apply with_call_inv; [done| |done]. by eexists.
  - by apply drawn_inv.
  - by apply observed_inv.
  - by eapply outside_inv.
  - by eapply own_inv.
  - by eapply close_inv.
Qed.

Lemma dag_system_inv y : dag_system_reachable y -> system_inv y.
Proof.
  induction 1 as [functions ts options s E|y y' _ IH Hs]; [|by eapply system_step_inv].
  split; cbn; try done; try (by intros; exfalso); try set_solver.
  by eapply dag_start.
Qed.
