(* ===== verification/DagLoopTheorems.v ===== *)
(** * DagLoopTheorems: [Run] returns its job's answer, and [Close] completes

    The theorems about the goroutines of [DagLoop], on the invariant of
    [DagLoopProofs], and an example run that submits a job and closes. *)

From S2P Require Import Prelude Plan Lineage Stages Planner PlannerProofs TaskGenerator Shuffle Reports Fifo Dag DagProofs DagEvents DagTheorems DagLoop DagLoopProofs.
#[local] Open Scope Z_scope.

(** ** Answers *)

Lemma response_unique j c1 c2 log : Respond j c1 ∈ log -> Respond j c2 ∈ log ->
  (length (List.filter (fun k => bool_decide (k = j)) (responses log)) <= 1)%nat -> c1 = c2.
Proof.
  assert (Hpos : forall log c, Respond j c ∈ log ->
    (1 <= length (List.filter (fun k => bool_decide (k = j)) (responses log)))%nat).
  { clear. induction log as [|e log IH]; intros c; [by intros ?%elem_of_nil|]. intros [<-|Hc]%elem_of_cons; cbn.
    - rewrite bool_decide_eq_true_2 by done. cbn. lia.
    - specialize (IH c Hc). destruct e as [k c2| | | | |]; cbn; try done. fold (responses log).
      case_bool_decide; cbn; lia. }
  induction log as [|e log IH]; [by intros ?%elem_of_nil|].
  intros [E1|H1]%elem_of_cons [E2|H2]%elem_of_cons; [congruence| | |].
  - rewrite <- E1. cbn. rewrite bool_decide_eq_true_2 by done. fold (responses log). pose proof (Hpos _ _ H2). cbn. lia.
  - rewrite <- E2. cbn. rewrite bool_decide_eq_true_2 by done. fold (responses log). pose proof (Hpos _ _ H1). cbn. lia.
  - intros Hle. apply IH; [done|done|]. destruct e as [k c'| | | | |]; cbn in Hle; try done.
    fold (responses log) in Hle.
    case_bool_decide; cbn in Hle; lia.
Qed.

Lemma responses_once y j : system_inv y ->
  length (List.filter (fun k => bool_decide (k = j)) (responses (w_log (ds_world y)))) =
  if bool_decide (j ∈ w_submitted (ds_world y)) && negb (is_active (w_dag (ds_world y)) j) then 1%nat else 0%nat.
Proof. intros H. apply (wi_answers _ (dag_reachable_inv _ (sy_world _ H))). Qed.

(** A submitted job that is not active has its answer. *)
Lemma waiting_answered y j : system_inv y -> j ∈ w_submitted (ds_world y) ->
  is_Some (dag_jobs (w_dag (ds_world y)) !! j) \/ is_Some (ds_answers y !! j).
Proof.
  intros H Hj. pose proof (responses_once y j H) as E. rewrite bool_decide_eq_true_2 in E by done.
  unfold is_active in E. destruct (dag_jobs _ !! j) as [job|] eqn:Ej; [by left; eexists|right]. cbn in E.
  apply (sy_answered _ H). destruct (List.filter _ _) as [|k l] eqn:F; [done|].
  assert (Hk : List.In k (k :: l)) by by left. rewrite <- F in Hk. apply List.filter_In in Hk as [Hk ->%bool_decide_eq_true].
  by apply list_elem_of_In.
Qed.

(** ** How many task sets can still start *)

Lemma filter_count_app {A} (f : A -> bool) (l : list A) :
  length l = (length (List.filter f l) + length (List.filter (fun x => negb (f x)) l))%nat.
Proof. induction l as [|x l IH]; cbn; [done|]. destruct (f x); cbn; lia. Qed.

Lemma filter_le {A} (f g : A -> bool) (l : list A) :
  (length (List.filter f (List.filter g l)) <= length (List.filter f l))%nat.
Proof. induction l as [|x l IH]; cbn; [done|]. destruct (g x), (f x) eqn:E; cbn; rewrite ?E; cbn; lia. Qed.

(** Elements with few keys, and few of each key, are few. *)
Lemma count_bound {A K} `{!EqDecision K} (key : A -> K) m (ks : list K) : forall l : list A,
  (forall x, x ∈ l -> key x ∈ ks) ->
  (forall k, (length (List.filter (fun x => bool_decide (key x = k)) l) <= m)%nat) -> (length l <= length ks * m)%nat.
Proof.
  induction ks as [|k ks IH]; intros l Hin Hm.
  - destruct l as [|x l]; [done|]. specialize (Hin x ltac:(by left)). by apply not_elem_of_nil in Hin.
  - rewrite (filter_count_app (fun x => bool_decide (key x = k)) l). pose proof (Hm k). cbn.
    assert (length (List.filter (fun x => negb (bool_decide (key x = k))) l) <= length ks * m)%nat; [|lia].
    apply IH.
    + intros x [Hx Hk%negb_true_iff]%list_elem_of_In%filter_In. apply bool_decide_eq_false in Hk.
      apply list_elem_of_In in Hx. by apply Hin, elem_of_cons in Hx as [?|?].
    + intros k'. etransitivity; [apply filter_le|apply Hm].
Qed.

(** The jobs below [n] have two stages at most, of [max] attempts. *)
Definition starts_max (max : Z) (n : JobID) : nat := 2 * N.to_nat n * Z.to_nat max.
#[local] Arguments starts_max : simpl never.

Lemma starts_bound w n : world_inv w -> (forall j, j ∈ w_submitted w -> (j < n)%N) ->
  (length (starts (w_log w)) <= starts_max (dag_maxStageAttempts (w_dag w)) n)%nat.
Proof.
  intros H Hn. set (below := fun k => N.of_nat <$> seq 0 k). unfold starts_max.
  transitivity (length (list_prod (below (N.to_nat n)) (below 2%nat)) * Z.to_nat (dag_maxStageAttempts (w_dag w)))%nat.
  2: { rewrite length_prod. unfold below. rewrite !length_fmap, !length_seq. lia. }
  apply (count_bound (fun set => (tset_JobID set, tset_StageID set))).
  - intros set Hs. destruct (wi_next _ H _ Hs) as (_ & _ & Hj%Hn & Ht). apply list_elem_of_In, in_prod;
      apply list_elem_of_In, list_elem_of_fmap; [exists (N.to_nat (tset_JobID set))|exists (N.to_nat (tset_StageID set))];
      (split; [lia|apply elem_of_seq; lia]).
  - intros [j id]. pose proof (proj1 (wi_count _ H j id)) as Hc. unfold started_count in Hc.
    rewrite (List.filter_ext _ (fun set => bool_decide (tset_JobID set = j /\ tset_StageID set = id))); [lia|].
    intros set. apply bool_decide_ext. split; [by intros [= -> ->]|by intros [-> ->]].
Qed.

(** The goroutines a handler starts: one for each task set, and one that watches a
    submitted job. *)
Definition watches (es : list effect) : nat :=
  sum_list_with (fun e => match e with WatchCancellation _ => 1 | _ => 0 end)%nat es.

Lemma watches_starts (sets : list TaskSet) : watches (StartTaskSet <$> sets) = 0%nat.
Proof. unfold watches. induction sets; cbn; done. Qed.

Lemma watches_app es es' : watches (es ++ es') = (watches es + watches es')%nat.
Proof. apply sum_list_with_app. Qed.

Lemma failJob_watches s j err s' es : failJob s j err = (s', es) -> watches es = 0%nat.
Proof. unfold failJob. destruct (dag_jobs s !! j); by intros [= <- <-]. Qed.

Lemma startOrFail_watches s j ctx job effects s' es : startOrFail s j ctx job effects = Ok (s', es) ->
  watches es = watches effects.
Proof.
  unfold startOrFail, startReadyStages. intros ([l err] & Hl & H)%bind_Ok.
  assert (E : exists sets, ln_effects l = effects ++ (StartTaskSet <$> sets)).
  { destruct ctx as [e|]; [injection Hl as <- <-; exists []; by rewrite app_nil_r|].
    apply startStages_effects in Hl as (sets & E & _). by exists sets. }
  destruct E as [sets E]. destruct err as [err|].
  - destruct (failJob _ _ _) as [s2 es2] eqn:Ef. injection H as <- <-. apply failJob_watches in Ef.
    rewrite E, !watches_app, watches_starts, Ef. lia.
  - injection H as <- <-. rewrite E, watches_app, watches_starts. lia.
Qed.

Lemma stop_watches l : forall s es0 s' es,
  foldl (fun r jobID => let '(s, es) := failJob r.1 jobID ErrSchedulerClosed in (s, r.2 ++ es)) (s, es0) l = (s', es) ->
  watches es = watches es0.
Proof.
  induction l as [|j l IH]; intros s es0 s' es; cbn; [by intros [= <- <-]|].
  destruct (failJob s j ErrSchedulerClosed) as [s1 es1] eqn:Ef. apply failJob_watches in Ef.
  intros ->%IH. rewrite watches_app. lia.
Qed.

Lemma recovery_watches max j job child r job' es : prepareRecovery max j job child r = Ok (inr (job', es)) ->
  watches es = 0%nat.
Proof. unfold prepareRecovery. intros H. repeat case_match; try done; by injection H as _ <-. Qed.

Lemma handleEvent_watches s e s' es : handleEvent s e = Some (Ok (s', es)) ->
  (watches es <= match e with jobSubmitted _ _ _ _ => 1 | _ => 0 end)%nat.
Proof.
  destruct e as [j ctx g a|r ctx ctx'|r ctx ctx'|j st at_ err ctx|j err|]; cbn.
  - unfold handleJobSubmitted, rejectJob. destruct (dag_stopping s); [intros [= <- <-]; cbn; lia|].
    destruct (negb _); [intros [= <- <-]; cbn; lia|].
    destruct (planJob s g a) as [[[p tasks]|err]|]; [|destruct (is_panic err); [done|intros [= <- <-]; cbn; lia]|done].
    intros [= (job & _ & H)%bind_Ok]. by rewrite (startOrFail_watches _ _ _ _ _ _ _ H).
  - unfold handleTaskSucceeded. destruct (pendingTask _ _ _ _ _) as [[[job stage] task]|]; [|by intros [= <- <-]].
    destruct ctx as [err|]; [intros [= H]; by rewrite (failJob_watches _ _ _ _ _ H)|].
    destruct (ValidateFor _ _); [|intros [= H]; by rewrite (failJob_watches _ _ _ _ _ H)].
    destruct (negb _); [by intros [= <- <-]|].
    destruct (negb _); [intros [= H]; by rewrite (startOrFail_watches _ _ _ _ _ _ _ H)|by intros [= <- <-]].
  - unfold handleTaskFailed. destruct (pendingTask _ _ _ _ _) as [[[job stage] task]|]; [|by intros [= <- <-]].
    destruct ctx as [err|]; [intros [= H]; by rewrite (failJob_watches _ _ _ _ _ H)|].
    destruct (bool_decide _); [|intros [= H]; by rewrite (failJob_watches _ _ _ _ _ H)].
    intros [= ([err|[job' effects]] & Hr & H)%bind_Ok]; [injection H as H; by rewrite (failJob_watches _ _ _ _ _ H)|].
    by rewrite (startOrFail_watches _ _ _ _ _ _ _ H), (recovery_watches _ _ _ _ _ _ _ Hr).
  - intros [= H]. unfold handleTaskSetFinished in H. repeat case_match; try (by rewrite (failJob_watches _ _ _ _ _ H));
      by injection H as <- <-.
  - intros [= H]. by rewrite (failJob_watches _ _ _ _ _ H).
  - intros [= H]. unfold handleStopping in H. destruct (foldl _ _ _) as [s1 es1] eqn:E. injection H as <- <-.
    rewrite watches_app, (stop_watches _ _ _ _ _ E). cbn. lia.
Qed.

(** ** What is left to do while closing *)

Definition worker_weight (w : worker) : nat :=
  match w with
  | TaskSetWorker _ returned sending => length sending + if returned then 1 else 3
  | WatchWorker _ sending => if sending then 1 else 2
  end.

Definition runCall_weight (c : runCall) : nat :=
  match c with RunSending _ _ _ => 4 | RunWaiting _ => 1 | RunReturned _ _ => 0 end.

Definition phase_weight (y : dagSystem) : nat :=
  match ds_close y with
  | CloseReturned => 0
  | CloseStopping => if el_done (ds_loop y) then 1 else 2
  | CloseJoining => 3
  | _ => 4
  end.

Definition workers_weight (ws : list worker) : nat := sum_list_with worker_weight ws.
Definition calls_weight (calls : gmap nat runCall) : nat :=
  sum_list_with (fun c => runCall_weight c.2) (map_to_list calls).
#[local] Arguments workers_weight : simpl never.
#[local] Arguments calls_weight : simpl never.

(** The task sets that the scheduler can still start. *)
Definition starts_left (y : dagSystem) : nat :=
  starts_max (dag_maxStageAttempts (w_dag (ds_world y))) (ds_nextJobID y) - length (starts (w_log (ds_world y))).

(** A bound on the steps that are left: [starts_left] may each start a goroutine. *)
Definition weight (y : dagSystem) : nat :=
  workers_weight (ds_workers y) + 3 * starts_left y + calls_weight (ds_calls y) + phase_weight y.

(** Any step but new calls of [Run] and new reports to the observers. *)
Definition settling_step (y y' : dagSystem) : Prop :=
  runCall_step y y' \/ outside_step y y' \/ own_step y y' \/ close_step y y'.

(** A run of [n] steps, [k] of them calls and reports that come in. *)
Inductive system_run : nat -> nat -> dagSystem -> dagSystem -> Prop :=
  | run_end y : system_run 0 0 y y
  | run_settles n k y y1 y2 : settling_step y y1 -> system_run n k y1 y2 -> system_run (S n) k y y2
  | run_receives n k y y1 y2 : input_step y y1 -> system_run n k y1 y2 -> system_run (S n) (S k) y y2.

(** Every run of the system is one. *)
Lemma system_run_any y y' : rtc dag_system_step y y' -> exists n k, system_run n k y y'.
Proof.
  induction 1 as [y|y y1 y2 Hs _ (n & k & IH)]; [exists 0%nat, 0%nat; constructor|].
  destruct Hs as [? Hs|? Hs|? Hs|? Hs|? Hs]; [exists (S n), (S k); by eapply run_receives|..];
    exists (S n), k; (eapply run_settles; [|done]); unfold settling_step; auto.
Qed.

Lemma weight_delete i wk ws : ws !! i = Some wk ->
  workers_weight ws = (worker_weight wk + workers_weight (delete i ws))%nat.
Proof. intros H. rewrite <- (take_drop_middle ws i wk H) at 1. unfold workers_weight. rewrite delete_take_drop, !sum_list_with_app. cbn. lia. Qed.

Lemma weight_insert i wk wk' ws : ws !! i = Some wk ->
  (workers_weight (<[i := wk']> ws) + worker_weight wk = workers_weight ws + worker_weight wk')%nat.
Proof.
  intros H. pose proof (lookup_lt_Some _ _ _ H) as Hi. unfold workers_weight.
  rewrite <- (take_drop_middle ws i wk H) at 2. rewrite insert_take_drop by done. rewrite !sum_list_with_app. cbn. lia.
Qed.

Lemma weight_new es ws : workers_weight (ws ++ flat_map newWorkers es) =
  (workers_weight ws + 3 * length (starts es) + 2 * watches es)%nat.
Proof.
  unfold workers_weight. rewrite sum_list_with_app.
  assert (sum_list_with worker_weight (flat_map newWorkers es) = 3 * length (starts es) + 2 * watches es)%nat; [|lia].
  induction es as [|e es IH]; cbn; [done|]. fold (starts es) (watches es). rewrite sum_list_with_app, IH.
  destruct e; cbn; fold (starts es); lia.
Qed.

Lemma sum_perm {A} (f : A -> nat) l l' : l ≡ₚ l' -> sum_list_with f l = sum_list_with f l'.
Proof. induction 1; cbn; lia. Qed.

Lemma calls_weight_set c st st' calls : calls !! c = Some st ->
  (calls_weight (<[c := st']> calls) + runCall_weight st = calls_weight calls + runCall_weight st')%nat.
Proof.
  intros H. unfold calls_weight. rewrite <- (sum_perm _ _ _ (map_to_list_delete calls c st H)).
  rewrite <- insert_delete_eq, (sum_perm _ _ _ (map_to_list_insert (delete c calls) c st' (lookup_delete_eq calls c))).
  cbn. lia.
Qed.

Lemma calls_weight_new c calls st : calls !! c = None ->
  calls_weight (<[c := st]> calls) = (runCall_weight st + calls_weight calls)%nat.
Proof. intros H. unfold calls_weight. by rewrite (sum_perm _ _ _ (map_to_list_insert calls c st H)). Qed.

(** The states the steps after a call of [Close] pass through. *)
Record closing (y : dagSystem) : Prop := {
  cg_inv : system_inv y;
  cg_called : ds_close y <> CloseIdle;
  cg_next : (dag_nextStageAttemptID (w_dag (ds_world y)) + N.of_nat (starts_left y) + 1 < 2 ^ 64)%N }.

(** Handling an event uses up the task sets it starts. *)
Lemma closing_handles y e w es : closing y -> handles y e w es -> event_ok (ds_world y) e ->
  (forall j, j ∈ submitted_by e -> (j < ds_nextJobID y)%N) ->
  dag_maxStageAttempts (w_dag w) = dag_maxStageAttempts (w_dag (ds_world y)) /\
  starts (w_log w) = starts (w_log (ds_world y)) ++ starts es /\
  dag_nextStageAttemptID (w_dag w) = (dag_nextStageAttemptID (w_dag (ds_world y)) + N.of_nat (length (starts es)))%N /\
  (length (starts (w_log w)) <= starts_max (dag_maxStageAttempts (w_dag w)) (ds_nextJobID y))%nat.
Proof.
  intros [H _ _] (_ & _ & _ & s & E & ->) He Hsub. cbn. pose proof (dag_reachable_inv _ (sy_world _ H)) as Hw.
  assert (Hw' : world_inv (mkWorld s (submitted_by e ∪ w_submitted (ds_world y)) (w_log (ds_world y) ++ es))).
  { apply dag_reachable_inv. eapply dag_next; [apply H|]. by econstructor. }
  pose proof (starts_bound _ (ds_nextJobID y) Hw') as Hb. cbn in Hb.
  assert (Hlt : forall j, j ∈ submitted_by e ∪ w_submitted (ds_world y) -> (j < ds_nextJobID y)%N).
  { intros j [Hj|Hj]%elem_of_union; [by apply Hsub|by apply (sy_submitted _ H)]. }
  specialize (Hb Hlt). split; [|split; [apply starts_app|split; [|exact Hb]]].
  - destruct (event_job e) as [j|] eqn:Hj.
    + destruct (handleEvent_Ok _ e j _ _ Hw He Hj E) as (act & Hh & _). by destruct (hd_config _ _ _ _ _ Hh).
    + destruct e; try done. cbn in E. injection E as E.
      destruct (handleStopping_spec _ (wi_dag _ Hw)) as (s2 & es2 & E2 & _ & _ & Hm & _). rewrite E in E2. by injection E2 as <- <-.
  - destruct (event_job e) as [j|] eqn:Hj.
    + destruct (handleEvent_Ok _ e j _ _ Hw He Hj E) as (act & Hh & _).
      destruct (hd_starts _ _ _ _ _ Hh) as [[-> ->]|(set & -> & _ & -> & _)]; cbn; lia.
    + destruct e; try done. cbn in E. injection E as E.
      destruct (handleStopping_spec _ (wi_dag _ Hw)) as (s2 & es2 & E2 & _ & _ & _ & Hn & _ & _ & Hs).
      rewrite E in E2. injection E2 as <- <-. rewrite Hs, Hn. cbn. lia.
Qed.

(** What that does to the weight of the goroutines and of what may still start. *)
Lemma handled_weight y e w es ws : closing y -> handles y e w es -> event_ok (ds_world y) e ->
  (forall j, j ∈ submitted_by e -> (j < ds_nextJobID y)%N) ->
  let y' := after y w es ws in
  (workers_weight (ds_workers y') + 3 * starts_left y' <=
     workers_weight ws + 3 * starts_left y + match e with jobSubmitted _ _ _ _ => 2 | _ => 0 end)%nat /\
  (dag_nextStageAttemptID (w_dag w) + N.of_nat (starts_left y') + 1 < 2 ^ 64)%N.
Proof.
  intros Hc Hh He Hsub. pose proof (closing_handles y e w es Hc Hh He Hsub) as (Em & Es & En & Hb).
  pose proof (cg_next _ Hc) as Hn. cbn zeta. unfold starts_left, after in *. cbn. rewrite weight_new, Em, En, Es in *.
  rewrite length_app in *. destruct Hh as (_ & _ & _ & s & E & _). apply handleEvent_watches in E.
  split; [|lia]. destruct e; lia.
Qed.

Lemma worker_event y e w es : closing y -> handles y e w es -> sent_by_worker e ->
  event_ok (ds_world y) e /\ forall j, j ∈ submitted_by e -> (j < ds_nextJobID y)%N.
Proof.
  intros H (_ & _ & Hn & _) He. split; [split; [done|by destruct e]|]. intros j. by destruct e.
Qed.

Lemma own_weight y y' : closing y -> own_step y y' ->
  ds_close y' = ds_close y /\ (weight y' < weight y)%nat /\
  (dag_nextStageAttemptID (w_dag (ds_world y')) + N.of_nat (starts_left y') + 1 < 2 ^ 64)%N.
Proof.
  intros H Hs. pose proof (cg_next _ H) as Hn. unfold weight.
  destruct Hs as [i set err ctx Hi Hc|i set r l1 e l2 w es Hi Hh|i set r l1 e l2 Hi Hd|i set Hi
    |i job err w es Hi Hh|i job err Hi Hd|i job Hi Hc]; (split; [done|]);
    change (phase_weight _) with (phase_weight y) at 1.
  all: try (split; [|exact Hn]; change (starts_left _) with (starts_left y) at 1; cbn;
    first [rewrite (weight_delete _ _ _ Hi); cbn; lia
          |match goal with |- (workers_weight (<[_ := ?wk']> _) + _ + _ + _ < _)%nat => pose proof (weight_insert _ _ wk' _ Hi) as E end;
           cbn in E; rewrite ?length_app in E; cbn in E; lia]).
  - destruct (sending_split _ _ _ _ _ _ _ (cg_inv _ H) Hi) as [He _]. destruct (worker_event y e w es H Hh He) as [Hok Hsub].
    destruct (handled_weight y e w es (<[i:=TaskSetWorker set r (l1 ++ l2)]> (ds_workers y)) H Hh Hok Hsub) as [Hw Hl].
    split; [|exact Hl]. pose proof (weight_insert _ _ (TaskSetWorker set r (l1 ++ l2)) _ Hi) as E. cbn in E.
    rewrite !length_app in E. cbn in E. change (ds_calls (after _ _ _ _)) with (ds_calls y). destruct e; try done; lia.
  - destruct (worker_event y _ w es H Hh I) as [Hok Hsub].
    destruct (handled_weight y _ w es (delete i (ds_workers y)) H Hh Hok Hsub) as [Hw Hl].
    split; [|exact Hl]. rewrite (weight_delete _ _ _ Hi). cbn [worker_weight].
    change (ds_calls (after _ _ _ _)) with (ds_calls y). lia.
Qed.

Lemma outside_weight y y' : closing y -> outside_step y y' ->
  ds_close y' = ds_close y /\ (weight y' < weight y)%nat /\
  (dag_nextStageAttemptID (w_dag (ds_world y')) + N.of_nat (starts_left y') + 1 < 2 ^ 64)%N.
Proof.
  intros H Hs. pose proof (cg_next _ H) as Hn. unfold weight.
  destruct Hs as [i set err ctx Hi|i job err Hi|i job Hi]; (split; [done|]); (split; [|exact Hn]);
    change (phase_weight _) with (phase_weight y) at 1; change (starts_left _) with (starts_left y) at 1; cbn;
    first [rewrite (weight_delete _ _ _ Hi); cbn; lia
          |match goal with |- (workers_weight (<[_ := ?wk']> _) + _ + _ + _ < _)%nat => pose proof (weight_insert _ _ wk' _ Hi) as E end;
           cbn in E; lia].
Qed.

Lemma call_weight y y' : closing y -> runCall_step y y' ->
  ds_close y' = ds_close y /\ (weight y' < weight y)%nat /\
  (dag_nextStageAttemptID (w_dag (ds_world y')) + N.of_nat (starts_left y') + 1 < 2 ^ 64)%N.
Proof.
  intros H Hs. pose proof (cg_next _ H) as Hn. unfold weight.
  destruct Hs as [c job ctx g a w es Hc Hh|c job g a ctx err Hc Hs|c job comp Hc Ha]; (split; [done|]);
    change (phase_weight _) with (phase_weight y) at 1.
  - destruct (sy_call _ (cg_inv _ H) c _ Hc) as [Hlt Hfresh].
    destruct (handled_weight y _ w es (ds_workers y) H Hh) as [Hw Hl].
    { destruct Hh as (_ & Hg & ? & _). done. }
    { intros j Hj. cbn in Hj. apply elem_of_singleton in Hj as ->. done. }
    split; [|exact Hl]. pose proof (calls_weight_set c _ (RunWaiting job) _ Hc) as E. cbn [runCall_weight] in E.
    change (ds_calls (with_call _ _ _)) with (<[c := RunWaiting job]> (ds_calls y)).
    change (ds_workers (with_call _ _ ?y1)) with (ds_workers y1). change (starts_left (with_call _ _ ?y1)) with (starts_left y1). lia.
  - split; [|exact Hn]. change (starts_left _) with (starts_left y) at 1. cbn.
    pose proof (calls_weight_set c _ (RunReturned None (Err (submitError job err))) _ Hc) as E. cbn in E. lia.
  - split; [|exact Hn]. change (starts_left _) with (starts_left y) at 1. cbn.
    pose proof (calls_weight_set c _ (RunReturned (Some job) (runResult job comp)) _ Hc) as E. cbn in E. lia.
Qed.

Lemma close_weight y y' : closing y -> close_step y y' ->
  ds_close y' <> CloseIdle /\ (weight y' < weight y)%nat /\
  (dag_nextStageAttemptID (w_dag (ds_world y')) + N.of_nat (starts_left y') + 1 < 2 ^ 64)%N.
Proof.
  intros H Hs. pose proof (cg_next _ H) as Hn. pose proof (cg_called _ H) as Hcl. unfold weight.
  destruct Hs as [Hp|w es Hp Hh|Hp Hw|l Hl|Hp Hd]; unfold phase_weight.
  - by destruct Hcl.
  - assert (Hok : event_ok (ds_world y) schedulerStopping) by (by destruct Hh as (_ & _ & ? & _)).
    destruct (handled_weight y _ w es (ds_workers y) H Hh Hok) as [Hw Hl]; [by intros j Hj; cbn in Hj; apply elem_of_empty in Hj|].
    rewrite Hp. cbn [ds_close with_close]. split; [done|]. split; [|exact Hl].
    change (ds_calls (with_close _ _ _)) with (ds_calls y). change (ds_workers (with_close _ _ ?y1)) with (ds_workers y1).
    change (starts_left (with_close _ _ ?y1)) with (starts_left y1). lia.
  - split; [done|]. split; [|exact Hn]. rewrite Hp. change (starts_left _) with (starts_left y) at 1. cbn. destruct (el_done _); lia.
  - split; [done|]. split; [|exact Hn]. change (starts_left _) with (starts_left y) at 1.
    pose proof (sy_loop _ (cg_inv _ H)) as El. unfold exitLoop in Hl. destruct (el_stop (ds_loop y)); [|done].
    destruct (el_done (ds_loop y)) eqn:Ed; [done|]. injection Hl as <-. cbn.
    pose proof (sy_returned _ (cg_inv _ H)) as Hr. destruct (ds_close y); try done; [lia|]. by rewrite Ed in Hr; specialize (Hr eq_refl).
  - split; [done|]. split; [|exact Hn]. rewrite Hp, Hd. change (starts_left _) with (starts_left y) at 1. cbn. lia.
Qed.

Lemma settling_weight y y' : closing y -> settling_step y y' -> closing y' /\ (weight y' < weight y)%nat.
Proof.
  intros H Hs. assert (Hi : system_inv y').
  { destruct Hs as [Hs|[Hs|[Hs|Hs]]]; [by eapply run_inv; [apply H|]|by eapply outside_inv; [apply H|]|
      by eapply own_inv; [apply H|]|by eapply close_inv; [apply H|]]. }
  pose proof (cg_called _ H) as Hc. destruct Hs as [Hs|[Hs|[Hs|Hs]]].
  - destruct (call_weight _ _ H Hs) as (E & ? & ?). split; [|done]. split; [done|by rewrite E|done].
  - destruct (outside_weight _ _ H Hs) as (E & ? & ?). split; [|done]. split; [done|by rewrite E|done].
  - destruct (own_weight _ _ H Hs) as (E & ? & ?). split; [|done]. split; [done|by rewrite E|done].
  - destruct (close_weight _ _ H Hs) as (? & ? & ?). split; [|done]. by split.
Qed.

(** A report that comes in is one event more; a new call of [Run] is rejected. *)
Lemma input_weight y y' : closing y -> input_step y y' -> closing y' /\ (weight y' <= weight y + 1)%nat.
Proof.
  intros H Hs. pose proof (cg_next _ H) as Hn. pose proof (cg_inv _ H) as Hi. pose proof (cg_called _ H) as Hcl.
  assert (Hi' : system_inv y') by (eapply system_step_inv; [exact Hi|by apply run_input]). unfold weight.
  destruct Hs as [c Hc _|c g a Hc Hf _|i set sending e Hwk He].
  - split; [by split|]. change (phase_weight _) with (phase_weight y) at 1. change (starts_left _) with (starts_left y) at 1.
    cbn. rewrite calls_weight_new by done. cbn. lia.
  - rewrite (sy_closing _ Hi Hcl) in Hf. done.
  - split; [by split|]. change (phase_weight _) with (phase_weight y) at 1. change (starts_left _) with (starts_left y) at 1.
    cbn. pose proof (weight_insert _ _ (TaskSetWorker set false (sending ++ [e])) _ Hwk) as E. cbn in E.
    rewrite length_app in E. cbn in E. lia.
Qed.

Lemma run_weight n k y y' : system_run n k y y' -> closing y -> closing y' /\ (n + weight y' <= weight y + 2 * k)%nat.
Proof.
  induction 1 as [y|n k y y1 y2 Hs _ IH|n k y y1 y2 Hs _ IH]; intros H; [split; [done|lia]| |].
  - destruct (settling_weight _ _ H Hs) as [H1 ?]. destruct (IH H1). split; [done|lia].
  - destruct (input_weight _ _ H Hs) as [H1 ?]. destruct (IH H1). split; [done|lia].
Qed.

(** ** While [Close] has not returned, something can be done *)

Lemma closing_next y : closing y -> (dag_nextStageAttemptID (w_dag (ds_world y)) + 1 < 2 ^ 64)%N.
Proof. intros H. pose proof (cg_next _ H). lia. Qed.

(** The event of a goroutine is accepted while the loop runs. *)
Lemma stopping_accepts y e : closing y -> is_stopping (ds_close y) = true -> el_done (ds_loop y) = false ->
  sent_by_worker e -> exists w es, handles y e w es.
Proof.
  intros H Hst Hd He. destruct (stopped_handles _ e (sy_stopped _ (cg_inv _ H) Hst)) as (s & es & E & _).
  eexists _, _. split_and!; [by constructor|by destruct e|by apply closing_next|]. by eexists.
Qed.

Lemma joining_progress y wk ws : closing y -> ds_close y = CloseJoining -> ds_workers y = wk :: ws -> exists y', own_step y y'.
Proof.
  intros H Hp Hw. pose proof (cg_inv _ H) as Hi. pose proof (sy_workers _ Hi) as Hok. rewrite Hw in Hok.
  assert (Hst : is_stopping (ds_close y) = true) by by rewrite Hp.
  apply Forall_cons in Hok as [[Ha Hsend] _]. assert (H0 : ds_workers y !! 0%nat = Some wk) by by rewrite Hw.
  destruct (sy_stopped _ Hi Hst) as [_ Hj].
  destruct Ha as [[? Ha]|Ha]; [by rewrite Hj, lookup_empty in Ha|].
  assert (Hd : el_done (ds_loop y) = false).
  { pose proof (sy_loop _ Hi) as El. rewrite Hp in El. destruct (el_done _) eqn:Ed; [|done].
    by rewrite (sy_done _ Hi Ed) in El. }
  destruct wk as [set r [|e l]|job err].
  - destruct r; [eexists; by eapply work_done|]. eexists. by eapply (work_canceled y 0 set None None).
  - apply Forall_cons in Hsend as [He _]. destruct (stopping_accepts y e H Hst Hd He) as (w & es & Hh).
    eexists. by eapply (work_sent y 0 set r [] e l).
  - destruct err as [err|]; [|eexists; by eapply watch_done].
    destruct (stopping_accepts y (jobCanceled job err) H Hst Hd I) as (w & es & Hh). eexists. by eapply watch_sent.
Qed.

(** The stop can be handled as long as it is being sent. *)
Lemma sending_progress y : closing y -> ds_close y = CloseSending -> exists y', close_step y y'.
Proof.
  intros H Hp. pose proof (cg_inv _ H) as Hi.
  destruct (handleStopping_spec _ (wi_dag _ (dag_reachable_inv _ (sy_world _ Hi)))) as (s & es & E & _).
  eexists. apply (close_sent y (mkWorld s (∅ ∪ w_submitted (ds_world y)) (w_log (ds_world y) ++ es)) es Hp).
  split; [|split; [done|split; [by apply closing_next|]]]; [|exists s; split; [cbn; by rewrite E|done]].
  constructor. pose proof (sy_loop _ Hi) as El. rewrite Hp in El. destruct (el_done _) eqn:Ed; [|done].
  by rewrite (sy_done _ Hi Ed) in El.
Qed.

Lemma closing_progress y : closing y -> ds_close y = CloseReturned \/ exists y', own_step y y' \/ close_step y y'.
Proof.
  intros H. pose proof (cg_inv _ H) as Hi. pose proof (sy_loop _ Hi) as El.
  destruct (ds_close y) eqn:Hp; [by destruct (cg_called _ H)|right..|by left].
  - destruct (sending_progress _ H Hp) as [y' ?]. exists y'. by right.
  - destruct (ds_workers y) as [|wk ws] eqn:Hw.
    + eexists. right. by apply close_joined.
    + destruct (joining_progress _ _ _ H Hp Hw) as [y' ?]. exists y'. by left.
  - destruct (el_done (ds_loop y)) eqn:Hd; eexists; right; [by apply close_returned|].
    apply loop_exited. unfold exitLoop. by rewrite El, Hd.
Qed.

(** Then every call of [Run] can return. *)
Lemma returned_progress y c st : closing y -> ds_close y = CloseReturned -> ds_calls y !! c = Some st ->
  (exists j r, st = RunReturned j r) \/ exists y', runCall_step y y'.
Proof.
  intros H Hp Hc. pose proof (cg_inv _ H) as Hi. destruct (sy_stopped _ Hi) as [_ Hj]; [by rewrite Hp|].
  destruct st as [j g a|j|j r]; [right|right|left; by eexists _, _].
  - eexists. eapply (run_not_sent y c j g a None errEventLoopStopped Hc). apply send_stopped. by apply (sy_returned _ Hi).
  - destruct (waiting_answered y j Hi (sy_call _ Hi c _ Hc)) as [Ha|[comp Ha]];
      [rewrite Hj, lookup_empty in Ha; by destruct Ha|]. eexists. by eapply run_answered.
Qed.

(** ** An example run *)

(** A caller submits the example job, and [Close] is called while it runs. *)
Definition handle_world (w : world) (e : schedulerEvent) : option (world * list effect) :=
  match handleEvent (w_dag w) e with
  | Some (Ok (s, es)) => Some (mkWorld s (submitted_by e ∪ w_submitted w) (w_log w ++ es), es)
  | _ => None
  end.

Definition example_y0 : dagSystem :=
  drawJobID 0 (Some example_graph) example_action
    (mkDagSystem empty_world 0 newEventLoop false CloseIdle ∅ [] ∅).
Definition example_y1 : dagSystem :=
  default example_y0
    ('(w, es) ← handle_world (ds_world example_y0) example_submit;
     Some (with_call 0 (RunWaiting 0) (after example_y0 w es []))).
Definition example_y2 : dagSystem := startClose example_y1.
Definition example_y3 : dagSystem :=
  default example_y2
    ('(w, es) ← handle_world (ds_world example_y2) schedulerStopping;
     Some (with_close (ds_loop example_y2) CloseJoining (after example_y2 w es (ds_workers example_y2)))).
Definition example_y4 : dagSystem :=
  with_call 0 (RunReturned (Some 0%N) (runResult 0 (Err ErrSchedulerClosed))) example_y3.

Lemma example_handles y e y' (f : world -> list effect -> dagSystem) :
  el_done (ds_loop y) = false -> graph_of_ok e ->
  (dag_nextStageAttemptID (w_dag (ds_world y)) + 1 <? 2 ^ 64)%N = true ->
  (match handle_world (ds_world y) e with Some _ => true | None => false end) = true ->
  (forall w es, handles y e w es -> dag_system_step y (f w es)) ->
  dag_system_step y (default y' ('(w, es) ← handle_world (ds_world y) e; Some (f w es))).
Proof.
  intros Hd Hg Hn%N.ltb_lt Hw Hs. unfold handle_world in *.
  destruct (handleEvent (w_dag (ds_world y)) e) as [[[s es]|]|] eqn:E; try done. cbn.
  apply Hs. split_and!; [by constructor|done|done|by eexists].
Qed.

Lemma example_y2_reachable : dag_system_reachable example_y2.
Proof.
  eapply (dag_system_next example_y1); [|by apply run_close, close_started].
  eapply (dag_system_next example_y0); [eapply dag_system_next|].
  - by eapply (dag_system_start _ _ []).
  - by apply run_input, run_drawn.
  - apply example_handles; [done|exact example_graph_wf|by vm_compute|by vm_compute|].
    intros w es Hh. by eapply run_call, run_sent.
Qed.

Lemma example_y4_reachable : dag_system_reachable example_y4.
Proof.
  eapply (dag_system_next example_y3); [eapply dag_system_next; [exact example_y2_reachable|]|].
  - apply example_handles; [done|done|by vm_compute|by vm_compute|].
    intros w es Hh. by apply run_close, close_sent.
  - apply run_call, run_answered; by vm_compute.
Qed.

(** ** Properties *)

(** C17.  Whatever the callers of [Run], the task-set goroutines, their observers
    and [Close] do in whatever order, the loop goes through states of the job
    scheduler; the answer a call of [Run] returned for its job is the one answer
    the scheduler gave to that job, a call whose job was not accepted returned an
    error, no two calls share a job, and a call still waiting has an active job or
    its answer. *)
Theorem run_answer y : dag_system_reachable y ->
  dag_reachable (ds_world y) /\
  (forall c j r, ds_calls y !! c = Some (RunReturned (Some j) r) ->
    exists completion, r = runResult j completion /\
      forall completion', Respond j completion' ∈ w_log (ds_world y) <-> completion' = completion) /\
  (forall c r, ds_calls y !! c = Some (RunReturned None r) -> exists err, r = Err err) /\
  (forall c1 c2 st1 st2 j, ds_calls y !! c1 = Some st1 -> ds_calls y !! c2 = Some st2 ->
    call_job st1 = Some j -> call_job st2 = Some j -> c1 = c2) /\
  (forall c j, ds_calls y !! c = Some (RunWaiting j) ->
    is_Some (dag_jobs (w_dag (ds_world y)) !! j) \/ is_Some (ds_answers y !! j)).
Proof.
  intros H%dag_system_inv. split_and!.
  - apply H.
  - intros c j r Hc. destruct (sy_call _ H c _ Hc) as (Hj & completion & Hr & ->). exists completion. split; [done|].
    intros completion'. split; [|by intros ->]. intros Hr'. apply (response_unique j _ _ (w_log (ds_world y))); [done|done|].
    rewrite (responses_once y j H). destruct (_ && _); lia.
  - intros c r Hc. apply (sy_call _ H c _ Hc).
  - apply (sy_distinct _ H).
  - intros c j Hc. apply (waiting_answered y j H), (sy_call _ H c _ Hc).
Qed.

(** The call that submitted the example job returned that the scheduler closed. *)
Lemma run_answer_witness :
  (forall completion, Respond 0%N completion ∈ w_log (ds_world example_y4) -> is_Ok completion = false) /\
  ds_calls example_y4 !! 0%nat = Some (RunReturned (Some 0%N) (runResult 0 (Err ErrSchedulerClosed))).
Proof.
  split; [|reflexivity]. destruct (run_answer example_y4 example_y4_reachable) as (_ & Hr & _).
  destruct (Hr 0%nat 0%N _ eq_refl) as (completion & Hc & Hu). intros c' ->%Hu. by destruct completion.
Defined.

(** C18.  Once [Close] has been called it completes.  Take any run of the system
    from there on: callers whose submission is still being sent, goroutines,
    observers, the physical scheduler, [Close] and the loop, in any order.  If [k]
    of its steps are reports that observers are called with and calls of [Run]
    that come after [Close], it has at most [weight y + 2 * k] steps; and when
    neither a call of [Run], nor a goroutine, nor [Close] or the loop can take
    another step (a physical scheduler returns when the context of its call has
    ended), then the stop has been handled and [Close] has returned: every
    goroutine is done, the loop has exited, no job is left, and every call of
    [Run] has returned.  A submission that makes the loop panic has no step. *)
Theorem Close_completes y n k y' : dag_system_reachable y -> ds_close y <> CloseIdle ->
  (dag_nextStageAttemptID (w_dag (ds_world y)) + N.of_nat (starts_left y) + 1 < 2 ^ 64)%N ->
  system_run n k y y' ->
  (n <= weight y + 2 * k)%nat /\
  ((forall y'', ~ (runCall_step y' y'' \/ own_step y' y'' \/ close_step y' y'')) ->
    ds_close y' = CloseReturned /\ ds_workers y' = [] /\ el_done (ds_loop y') = true /\
    dag_jobs (w_dag (ds_world y')) = ∅ /\
    forall c st, ds_calls y' !! c = Some st -> exists j r, st = RunReturned j r).
Proof.
  intros H%dag_system_inv Hidle Hn Hs. destruct (run_weight _ _ _ _ Hs (Build_closing _ H Hidle Hn)) as [Hy' Hle].
  split; [lia|]. intros Hend.
  destruct (closing_progress y' Hy') as [Hp|[y'' Hy'']]; [|destruct (Hend y''); tauto].
  pose proof (cg_inv _ Hy') as Hi. split_and!; [done|apply (sy_joined _ Hi); by rewrite Hp|by apply (sy_returned _ Hi)| |].
  - apply (sy_stopped _ Hi). by rewrite Hp.
  - intros c st Hc. destruct (returned_progress _ _ _ Hy' Hp Hc) as [?|[y'' ?]]; [done|]. destruct (Hend y''). by left.
Qed.

(** From the call of [Close] in the example no run without reports has more than
    twenty steps. *)
Lemma Close_completes_witness :
  ds_close example_y2 = CloseSending /\ length (ds_workers example_y2) = 2%nat /\
  (exists y, system_run 1 0 example_y2 y) /\
  forall n y, system_run n 0 example_y2 y -> (n <= 20)%nat.
Proof.
  split; [reflexivity|]. split; [vm_compute; reflexivity|]. split.
  - destruct (sending_progress example_y2) as [y Hy]; [|reflexivity|].
    + split; [exact (dag_system_inv _ example_y2_reachable)|discriminate|vm_compute; reflexivity].
    + exists y. eapply run_settles; [right; right; right; exact Hy|constructor].
  - intros n y Hn. transitivity (weight example_y2 + 2 * 0)%nat; [|apply (bool_decide_unpack _); vm_compute; exact I].
    exact (proj1 (Close_completes example_y2 n 0 y example_y2_reachable ltac:(discriminate) ltac:(vm_compute; reflexivity) Hn)).
Defined.
