(* ===== verification/LocalScheduler.v ===== *)
(** * LocalScheduler: the task scheduler of one process

    Models [executor/local_task_scheduler.go]: [ScheduleTaskSet] starts one
    goroutine for each task, each goroutine calls the runner and then the
    observer, and the call returns when all of them have.  The counter of attempt
    identifiers is shared with other calls, which may draw from it at any time. *)

From S2P Require Import Prelude Plan Stages Shuffle Reports Fifo Dag DagProofs DagEvents DagTheorems DagLoop.
#[local] Open Scope Z_scope.

Definition localWorkerID : WorkerID := "local".

(** [lts_runner] says that there is a runner; the run identifier is drawn by
    [NewRunID]. *)
Record LocalTaskScheduler := mkLocal { lts_runID : string; lts_runner : bool; lts_nextAttemptID : TaskAttemptID }.

Definition NewLocalTaskScheduler (runner : bool) (runID : string) : LocalTaskScheduler := mkLocal runID runner 0.

(** What the observer is called with. *)
Definition localReport : Type := TaskAttemptSuccess + TaskAttemptFailure.

(** A goroutine is in the runner, in the observer, or done. *)
Inductive localPhase := LocalRunning | LocalReporting (r : localReport) | LocalDone (r : localReport).

Record localAttempt := mkLocalAttempt {
  la_task : Task;
  la_identity : TaskAttemptIdentity;
  la_phase : localPhase }.

(** The call and its goroutines: the tasks left to start, those started, the calls
    of the observer in order, and whether it has returned. *)
Record localState := mkLocalState {
  lo_scheduler : LocalTaskScheduler;
  lo_pending : list Task;
  lo_attempts : list localAttempt;
  lo_reports : list localReport;
  lo_returned : bool }.

(** The checks of [ScheduleTaskSet]. *)
Definition checkTaskSet (s : LocalTaskScheduler) (set : TaskSet) (observer : bool) : result unit :=
  fail_if (negb (lts_runner s)) (Errorf "local task scheduler runner is nil" []);;
  fail_if (negb observer) (Errorf "local task scheduler observer is nil" []);;
  fail_if (bool_decide (tset_Tasks set = [])) (Errorf "local task set has no tasks" []);;
  Ok tt.

Definition ScheduleTaskSet (s : LocalTaskScheduler) (set : TaskSet) (observer : bool) : result localState :=
  _ ← checkTaskSet s set observer;
  Ok (mkLocalState s (tset_Tasks set) [] [] false).

(** [s.nextAttemptID.Add(1) - 1]. *)
Definition drawAttemptID (s : LocalTaskScheduler) : TaskAttemptID * LocalTaskScheduler :=
  (lts_nextAttemptID s, mkLocal (lts_runID s) (lts_runner s) (u64 (lts_nextAttemptID s + 1))).

Definition localIdentity (set : TaskSet) (id : TaskAttemptID) (task : Task) : TaskAttemptIdentity :=
  mkAttempt id (t_ID task) (tset_StageAttemptID set).

(** What the runner is given. *)
Definition localExecution (s : LocalTaskScheduler) (set : TaskSet) (a : localAttempt) : TaskExecution :=
  mkExecution (lts_runID s) (tset_JobID set) (la_task a) (la_identity a) localWorkerID (tset_ShuffleInputs set).

Section local.
(** The text of an error. *)
Variable Error : error -> string.

(** [ctx] is the error of the context when the failure is classified. *)
Definition reportLocal (set : TaskSet) (a : localAttempt) (ran : result TaskOutput) (ctx : option error) : localReport :=
  match ran with
  | Err err =>
      let '(kind, input) := ClassifyFailure ctx err in
      inr (mkFailure kind input (tset_JobID set) (tset_StageID set) (la_identity a) (t_PartitionID (la_task a))
             localWorkerID (Error err))
  | Ok output =>
      inl (mkSuccess (tset_JobID set) (tset_StageID set) (la_identity a) (t_PartitionID (la_task a)) localWorkerID output)
  end.

Definition with_phase (p : localPhase) (a : localAttempt) : localAttempt :=
  mkLocalAttempt (la_task a) (la_identity a) p.

Definition local_done (a : localAttempt) : bool := match la_phase a with LocalDone _ => true | _ => false end.

(** [runs e r] are the results the runner may return for execution [e]. *)
Variable runs : TaskExecution -> result TaskOutput -> Prop.

Inductive local_step (set : TaskSet) (y : localState) : localState -> Prop :=
  | local_started task pending id s :
      lo_pending y = task :: pending -> drawAttemptID (lo_scheduler y) = (id, s) ->
      local_step set y (mkLocalState s pending
        (lo_attempts y ++ [mkLocalAttempt task (localIdentity set id task) LocalRunning]) (lo_reports y) (lo_returned y))
  | local_ran i a ran ctx :
      lo_attempts y !! i = Some a -> la_phase a = LocalRunning ->
      runs (localExecution (lo_scheduler y) set a) ran ->
      let r := reportLocal set a ran ctx in
      local_step set y (mkLocalState (lo_scheduler y) (lo_pending y) (<[i := with_phase (LocalReporting r) a]> (lo_attempts y))
        (lo_reports y ++ [r]) (lo_returned y))
  | local_reported i a r :
      lo_attempts y !! i = Some a -> la_phase a = LocalReporting r ->
      local_step set y (mkLocalState (lo_scheduler y) (lo_pending y) (<[i := with_phase (LocalDone r) a]> (lo_attempts y))
        (lo_reports y) (lo_returned y))
  | local_returned :
      lo_pending y = [] -> forallb local_done (lo_attempts y) = true -> lo_returned y = false ->
      local_step set y (mkLocalState (lo_scheduler y) [] (lo_attempts y) (lo_reports y) true).

(** Another call draws an identifier. *)
Definition drawn_elsewhere (y : localState) : localState :=
  mkLocalState (drawAttemptID (lo_scheduler y)).2 (lo_pending y) (lo_attempts y) (lo_reports y) (lo_returned y).

(** The counter does not wrap around. *)
Inductive local_reachable (s : LocalTaskScheduler) (set : TaskSet) : localState -> Prop :=
  | local_start y : ScheduleTaskSet s set true = Ok y -> local_reachable s set y
  | local_next y y' : local_reachable s set y -> (lts_nextAttemptID (lo_scheduler y) + 1 < 2 ^ 64)%N ->
      local_step set y y' -> local_reachable s set y'
  | local_other y : local_reachable s set y -> (lts_nextAttemptID (lo_scheduler y) + 1 < 2 ^ 64)%N ->
      local_reachable s set (drawn_elsewhere y).

(** ** The invariant *)

Definition report_attempt (r : localReport) : TaskAttemptIdentity :=
  match r with inl r => ts_Attempt r | inr r => tf_Attempt r end.
Definition report_partition (r : localReport) : PartitionID :=
  match r with inl r => ts_PartitionID r | inr r => tf_PartitionID r end.

(** What a report is of: its task and its partition. *)
Definition report_key (r : localReport) : TaskID * PartitionID := (ta_TaskID (report_attempt r), report_partition r).
Definition task_key (t : Task) : TaskID * PartitionID := (t_ID t, t_PartitionID t).

(** The event the observer sends for a report. *)
Definition report_event (r : localReport) (ctx ctx' : option error) : schedulerEvent :=
  match r with inl r => taskSucceeded r ctx ctx' | inr r => taskFailed r ctx ctx' end.

Definition phase_report (a : localAttempt) : option localReport :=
  match la_phase a with LocalRunning => None | LocalReporting r | LocalDone r => Some r end.

(** The report of an attempt is what the runner returned for its execution. *)
Definition attempt_ok (s : LocalTaskScheduler) (set : TaskSet) (a : localAttempt) : Prop :=
  (exists id, la_identity a = localIdentity set id (la_task a) /\ (id < lts_nextAttemptID s)%N) /\
  (forall r, phase_report a = Some r -> exists ran ctx, runs (localExecution s set a) ran /\ r = reportLocal set a ran ctx).

Record local_inv (set : TaskSet) (y : localState) : Prop := {
  lv_tasks : (la_task <$> lo_attempts y) ++ lo_pending y = tset_Tasks set;
  lv_attempts : Forall (attempt_ok (lo_scheduler y) set) (lo_attempts y);
  lv_ids : NoDup ((fun a => ta_ID (la_identity a)) <$> lo_attempts y);
  lv_reports : lo_reports y ≡ₚ omap phase_report (lo_attempts y);
  lv_returned : lo_returned y = true -> lo_pending y = [] /\ forallb local_done (lo_attempts y) = true }.

Lemma attempt_ok_mono s s' set a : lts_runID s' = lts_runID s -> (lts_nextAttemptID s <= lts_nextAttemptID s')%N ->
  attempt_ok s set a -> attempt_ok s' set a.
Proof.
  intros E Hle [(id & Hid & Hlt) Hr]. split; [exists id; split; [done|lia]|]. intros r Hp.
  destruct (Hr r Hp) as (ran & ctx & Hrun & ->). exists ran, ctx. split; [|done]. unfold localExecution in *. by rewrite E.
Qed.

Lemma drawn_next s : (lts_nextAttemptID s + 1 < 2 ^ 64)%N ->
  lts_nextAttemptID (drawAttemptID s).2 = (lts_nextAttemptID s + 1)%N.
Proof. intros H. by apply N.mod_small. Qed.

(** Changing the phase of one goroutine. *)
Lemma phase_tasks (i : nat) a p (l : list localAttempt) : l !! i = Some a -> la_task <$> <[i := with_phase p a]> l = la_task <$> l.
Proof. intros Hi. rewrite list_fmap_insert. apply list_insert_id. by rewrite list_lookup_fmap, Hi. Qed.

Lemma phase_ids (i : nat) a p (l : list localAttempt) : l !! i = Some a ->
  (fun a => ta_ID (la_identity a)) <$> <[i := with_phase p a]> l = (fun a => ta_ID (la_identity a)) <$> l.
Proof. intros Hi. rewrite list_fmap_insert. apply list_insert_id. by rewrite list_lookup_fmap, Hi. Qed.

Lemma phase_split (i : nat) a p (l : list localAttempt) : l !! i = Some a -> exists l1 l2, l = l1 ++ a :: l2 /\ <[i := with_phase p a]> l = l1 ++ with_phase p a :: l2.
Proof.
  intros Hi. exists (take i l), (drop (S i) l). split; [symmetry; by apply take_drop_middle|].
  apply insert_take_drop. by eapply lookup_lt_Some.
Qed.

(** What is the same in the reports as in their goroutines. *)
Lemma reports_sublist {B} (f : localReport -> B) (g : localAttempt -> B) l :
  (forall a r, a ∈ l -> phase_report a = Some r -> f r = g a) ->
  (f <$> omap phase_report l) `sublist_of` (g <$> l) /\
  (forallb local_done l = true -> f <$> omap phase_report l = g <$> l).
Proof.
  induction l as [|a l IH]; intros H; cbn; [split; [constructor|done]|].
  destruct IH as [IH1 IH2]; [intros b r Hb; apply H; by right|].
  assert (Ha : forall r, phase_report a = Some r -> f r = g a) by (intros r; apply H; by left).
  unfold phase_report, local_done in *. destruct (la_phase a) as [|r|r]; cbn.
  - split; [by constructor|done].
  - rewrite (Ha r eq_refl). split; [by constructor|done].
  - rewrite (Ha r eq_refl). split; [by constructor|]. intros Hl. by rewrite IH2.
Qed.

Lemma attempt_report s set a r : attempt_ok s set a -> phase_report a = Some r ->
  report_attempt r = la_identity a /\ report_key r = task_key (la_task a) /\
  forall ctx ctx', observed set (report_event r ctx ctx').
Proof.
  intros [(id & Eid & _) Hr] Hp. destruct (Hr r Hp) as (ran & ctx & _ & ->). unfold reportLocal, report_key, task_key.
  destruct ran as [o|err]; [|destruct (ClassifyFailure ctx err) as [kind input]]; cbn; rewrite Eid; cbn;
    (split_and!; [done|done|]); intros; constructor; unfold observeSucceeded, observeFailed; cbn;
    by rewrite !bool_decide_eq_true_2.
Qed.

Lemma local_phase_inv set y i a p reports : local_inv set y -> lo_attempts y !! i = Some a ->
  attempt_ok (lo_scheduler y) set (with_phase p a) ->
  reports ≡ₚ omap phase_report (<[i := with_phase p a]> (lo_attempts y)) ->
  lo_returned y = false -> local_inv set (mkLocalState (lo_scheduler y) (lo_pending y) (<[i := with_phase p a]> (lo_attempts y)) reports (lo_returned y)).
Proof.
  intros H Hi Ha Hr Hn. split; cbn.
  - rewrite (phase_tasks _ _ _ _ Hi). apply H.
  - apply Forall_insert; [apply H|done].
  - rewrite (phase_ids _ _ _ _ Hi). apply H.
  - done.
  - by rewrite Hn.
Qed.

Lemma running_not_returned set y i a : local_inv set y -> lo_attempts y !! i = Some a -> local_done a = false -> lo_returned y = false.
Proof.
  intros H Hi Ha. destruct (lo_returned y) eqn:E; [|done]. destruct (lv_returned _ _ H E) as [_ Hd].
  rewrite forallb_forall in Hd. rewrite (Hd a) in Ha; [done|]. apply list_elem_of_In. by eapply list_elem_of_lookup_2.
Qed.

Lemma local_step_inv set y y' : local_inv set y -> (lts_nextAttemptID (lo_scheduler y) + 1 < 2 ^ 64)%N ->
  local_step set y y' -> local_inv set y'.
Proof.
  intros H Hn Hs. destruct Hs as [task pending id s Hp Hd|i a ran ctx Hi Hp Hrun r|i a r Hi Hp|Hp Hd Hr].
  - assert (E : lts_nextAttemptID s = (id + 1)%N /\ id = lts_nextAttemptID (lo_scheduler y) /\ lts_runID s = lts_runID (lo_scheduler y)).
    { injection Hd as <- <-. split; [by apply drawn_next|done]. }
    destruct E as (En & Eid & Er). split; cbn.
    + rewrite fmap_app, <- app_assoc. cbn. rewrite <- Hp. apply H.
    + apply Forall_app. split.
      * eapply Forall_impl; [apply (lv_attempts _ _ H)|]. intros a Ha. eapply attempt_ok_mono; [done|lia|done].
      * repeat constructor; [|done]. exists id. split; [done|lia].
    + rewrite fmap_app. apply NoDup_app. split; [apply H|]. split; [|by apply NoDup_singleton]. cbn.
      intros k (a & -> & Ha)%list_elem_of_fmap Hk%list_elem_of_singleton. cbn in Hk.
      pose proof (lv_attempts _ _ H) as Hall. rewrite Forall_forall in Hall. destruct (Hall a Ha) as [(id' & E & Hlt) _].
      rewrite E in Hk. cbn in Hk. lia.
    + rewrite omap_app. cbn. rewrite app_nil_r. apply H.
    + intros E. destruct (lv_returned _ _ H E) as [E' _]. by rewrite Hp in E'.
  - assert (Hret : lo_returned y = false) by (eapply running_not_returned; [done|done|unfold local_done; by rewrite Hp]).
    apply local_phase_inv; [done|done| | |done].
    + pose proof (Forall_lookup_1 _ _ _ _ (lv_attempts _ _ H) Hi) as [Hid _]. split; [done|].
      intros r' [= <-]. by exists ran, ctx.
    + destruct (phase_split i a (LocalReporting r) _ Hi) as (l1 & l2 & El & ->).
      rewrite (lv_reports _ _ H), El, !omap_app. cbn. unfold phase_report at 2. rewrite Hp.
      rewrite <- app_assoc. f_equiv. symmetry. apply Permutation_cons_append.
  - assert (Hret : lo_returned y = false) by (eapply running_not_returned; [done|done|unfold local_done; by rewrite Hp]).
    apply local_phase_inv; [done|done| | |done].
    + pose proof (Forall_lookup_1 _ _ _ _ (lv_attempts _ _ H) Hi) as [Hid Hr]. split; [done|].
      intros r' [= <-]. apply Hr. unfold phase_report. by rewrite Hp.
    + destruct (phase_split i a (LocalDone r) _ Hi) as (l1 & l2 & El & ->).
      rewrite (lv_reports _ _ H), El, !omap_app. cbn. unfold phase_report at 2. by rewrite Hp.
  - destruct H as [H1 H2 H3 H4 H5]. rewrite Hp in H1. by split.
Qed.

Lemma local_reachable_inv s set y : local_reachable s set y -> local_inv set y /\ lts_runID (lo_scheduler y) = lts_runID s.
Proof.
  induction 1 as [y E|y y' _ [IH Er] Hn Hs|y _ [IH Er] Hn].
  - unfold ScheduleTaskSet in E. apply bind_Ok in E as ([] & _ & [= <-]). split; [|done]. split; cbn; try done; constructor.
  - split; [by eapply local_step_inv|]. destruct Hs as [task pending id s' Hp Hd| | |]; try done. by injection Hd as _ <-.
  - split; [|done]. destruct IH as [H1 H2 H3 H4 H5]. split; try done.
    eapply Forall_impl; [exact H2|]. intros a. apply attempt_ok_mono; [done|].
    pose proof (drawn_next (lo_scheduler y) Hn) as E. cbn in E |- *. lia.
Qed.

(** ** Properties *)

Definition phase_steps (a : localAttempt) : nat :=
  match la_phase a with LocalRunning => 2 | LocalReporting _ => 1 | LocalDone _ => 0 end.

(** The steps a call has left. *)
Definition local_weight (y : localState) : nat :=
  3 * length (lo_pending y) + sum_list_with phase_steps (lo_attempts y) + if lo_returned y then 0 else 1.

Lemma phase_weight_split (i : nat) a p l : l !! i = Some a ->
  (sum_list_with phase_steps (<[i := with_phase p a]> l) + phase_steps a = sum_list_with phase_steps l + phase_steps (with_phase p a))%nat.
Proof. intros Hi. destruct (phase_split i a p l Hi) as (l1 & l2 & -> & ->). rewrite !sum_list_with_app. cbn. lia. Qed.

Lemma local_weight_step set y y' : local_step set y y' -> (local_weight y' < local_weight y)%nat.
Proof.
  unfold local_weight. destruct 1 as [task pending id s Hp Hd|i a ran ctx Hi Hp Hrun r|i a r Hi Hp|Hp Hd Hr]; cbn.
  - rewrite Hp, sum_list_with_app. cbn. lia.
  - pose proof (phase_weight_split i a (LocalReporting r) _ Hi) as E. unfold phase_steps at 2 4 in E. rewrite Hp in E. cbn in E. lia.
  - pose proof (phase_weight_split i a (LocalDone r) _ Hi) as E. unfold phase_steps at 2 4 in E. rewrite Hp in E. cbn in E. lia.
  - rewrite Hp, Hr. cbn. lia.
Qed.

Lemma local_weight_steps set n : forall y y', nsteps (local_step set) n y y' -> (n + local_weight y' <= local_weight y)%nat.
Proof.
  induction n as [|n IH]; intros y y' Hs; inversion Hs as [|? ? y1 ? H1 H2]; subst; [lia|].
  apply local_weight_step in H1. apply IH in H2. lia.
Qed.

Lemma local_progress set y : (forall e, exists ran, runs e ran) -> lo_returned y = false -> exists y', local_step set y y'.
Proof.
  intros Hrun Hr. destruct (lo_pending y) as [|task pending] eqn:Hp; [|eexists; by eapply local_started].
  destruct (forallb local_done (lo_attempts y)) eqn:Hd; [eexists; by apply local_returned|].
  assert (Hex : exists a, a ∈ lo_attempts y /\ local_done a = false).
  { clear -Hd. induction (lo_attempts y) as [|a l IH]; [done|]. cbn in Hd. destruct (local_done a) eqn:Ha.
    - destruct (IH Hd) as (b & Hb & ?). exists b. split; [by right|done].
    - exists a. split; [by left|done]. }
  destruct Hex as (a & [i Hi]%list_elem_of_lookup_1 & Ha). unfold local_done in Ha.
  destruct (la_phase a) as [|r|r] eqn:Hph; [|eexists; by eapply local_reported|done].
  destruct (Hrun (localExecution (lo_scheduler y) set a)) as [ran Hran]. eexists. by eapply (local_ran set y i a ran None).
Qed.

(** C19.  A submission to the local scheduler: each report is what the runner
    returned for one task of the set under an identifier of its own, and the
    observer of the job scheduler sends it on; no task is reported twice, and when
    the call returns every task has been reported once.  When the runner returns,
    so does the call, within a fixed number of steps. *)
Theorem local_reports s set y : local_reachable s set y ->
  (forall r, r ∈ lo_reports y ->
    (forall ctx ctx', observed set (report_event r ctx ctx')) /\
    exists task id ran ctx, task ∈ tset_Tasks set /\
      let a := mkLocalAttempt task (localIdentity set id task) LocalRunning in
      runs (localExecution s set a) ran /\ r = reportLocal set a ran ctx) /\
  NoDup ((fun r => ta_ID (report_attempt r)) <$> lo_reports y) /\
  report_key <$> lo_reports y ⊆+ task_key <$> tset_Tasks set /\
  (lo_returned y = true -> report_key <$> lo_reports y ≡ₚ task_key <$> tset_Tasks set) /\
  (forall n y', nsteps (local_step set) n y y' -> (n <= local_weight y)%nat) /\
  ((forall e, exists ran, runs e ran) -> lo_returned y = false -> exists y', local_step set y y').
Proof.
  intros [H Er]%local_reachable_inv. pose proof (lv_reports _ _ H) as Hp. pose proof (lv_attempts _ _ H) as Hok.
  rewrite Forall_forall in Hok.
  destruct (reports_sublist (fun r => ta_ID (report_attempt r)) (fun a => ta_ID (la_identity a)) (lo_attempts y)) as [Hids _].
  { intros a r Ha Hr. by destruct (attempt_report _ _ _ _ (Hok a Ha) Hr) as [-> _]. }
  destruct (reports_sublist report_key (fun a => task_key (la_task a)) (lo_attempts y)) as [Hkeys Hall].
  { intros a r Ha Hr. by destruct (attempt_report _ _ _ _ (Hok a Ha) Hr) as (_ & -> & _). }
  split_and!.
  - intros r Hr. rewrite Hp in Hr. apply list_elem_of_omap in Hr as (a & Ha & Hr).
    split; [by apply (attempt_report _ _ _ _ (Hok a Ha) Hr)|].
    destruct (Hok a Ha) as [(id & Eid & _) Hrun]. destruct (Hrun r Hr) as (ran & ctx & Hruns & ->).
    exists (la_task a), id, ran, ctx. split.
    + rewrite <- (lv_tasks _ _ H). apply elem_of_app. left. apply list_elem_of_fmap. by exists a.
    + unfold localExecution, reportLocal in *. cbn. rewrite Eid, Er in *. done.
  - rewrite Hp. eapply sublist_NoDup; [apply H|exact Hids].
  - rewrite Hp, <- (lv_tasks _ _ H), fmap_app, <- list_fmap_compose.
    apply submseteq_inserts_r, sublist_submseteq, Hkeys.
  - intros Hret. destruct (lv_returned _ _ H Hret) as [E Hd].
    by rewrite Hp, <- (lv_tasks _ _ H), E, app_nil_r, (Hall Hd), <- list_fmap_compose.
  - intros n y' Hs. apply local_weight_steps in Hs. lia.
  - apply local_progress.
Qed.
End local.

(** ** An example run *)

Definition example_local : LocalTaskScheduler := NewLocalTaskScheduler true "0123456789abcdef0123456789abcdef".

Definition example_local_task (i : nat) : Task :=
  {| t_ID := N.of_nat i; t_StageID := 0%N; t_PartitionID := Z.of_nat i; t_NumPartitions := 2;
     t_Operations := []; t_StageKind := StageResult; t_ShuffleWrite := None; t_FinalAction := None |}.
Definition example_local_set : TaskSet := mkTaskSet None 7%N 0%N 3%N [example_local_task 0; example_local_task 1].

(** Partition 0 counts to four and partition 1 cannot be read. *)
Definition example_runs (e : TaskExecution) (ran : result TaskOutput) : Prop :=
  ran = if t_PartitionID (te_Task e) =? 0 then Ok (mkOutput None 4 None) else Err (Sentinel fs_ErrNotExist).
Definition example_text (err : error) : string := "file does not exist".

(** Both tasks start, another call draws an identifier in between, the second
    reports first, and the call returns. *)
Definition example_local_end : localState :=
  let a0 := mkLocalAttempt (example_local_task 0) (mkAttempt 0 0 3) LocalRunning in
  let a1 := mkLocalAttempt (example_local_task 1) (mkAttempt 2 1 3) LocalRunning in
  let r0 := reportLocal example_text example_local_set a0 (Ok (mkOutput None 4 None)) None in
  let r1 := reportLocal example_text example_local_set a1 (Err (Sentinel fs_ErrNotExist)) None in
  mkLocalState (mkLocal (lts_runID example_local) true 3) []
    [with_phase (LocalDone r0) a0; with_phase (LocalDone r1) a1] [r1; r0] true.

(** The state after one more step. *)
Tactic Notation "local_go" hyp(H) uconstr(step) := eapply local_next in H; [|reflexivity|eapply step; reflexivity]; cbn in H.

Lemma example_local_reachable : local_reachable example_text example_runs example_local example_local_set example_local_end.
Proof.
  assert (H : exists y, local_reachable example_text example_runs example_local example_local_set y /\
    y = mkLocalState example_local (tset_Tasks example_local_set) [] [] false) by (eexists; split; [by apply local_start|done]).
  destruct H as (y & H & ->).
  local_go H local_started.
  apply local_other in H; [|reflexivity]. cbn in H.
  local_go H local_started.
  local_go H (local_ran _ _ _ _ 1%nat _ (Err (Sentinel fs_ErrNotExist)) None).
  local_go H (local_ran _ _ _ _ 0%nat _ (Ok (mkOutput None 4 None)) None).
  local_go H (local_reported _ _ _ _ 1%nat).
  local_go H (local_reported _ _ _ _ 0%nat).
  local_go H local_returned.
  exact H.
Qed.

Lemma local_reports_witness :
  report_key <$> lo_reports example_local_end ≡ₚ [(0%N, 0); (1%N, 1)] /\
  exists y, ScheduleTaskSet example_local example_local_set true = Ok y /\
    (forall n y', nsteps (local_step example_text example_runs example_local_set) n y y' -> (n <= 7)%nat) /\
    exists y', local_step example_text example_runs example_local_set y y'.
Proof.
  split.
  - apply (local_reports _ _ _ _ _ example_local_reachable). reflexivity.
  - eexists. split; [reflexivity|].
    destruct (local_reports example_text example_runs example_local example_local_set
      (mkLocalState example_local (tset_Tasks example_local_set) [] [] false)) as (_ & _ & _ & _ & Hn & Hp).
    { by apply local_start. }
    split; [exact Hn|]. apply Hp; [|reflexivity]. intros e. by eexists.
Defined.
