(* ===== verification/Runtime.v ===== *)
(** * Runtime: contexts, handles and user functions

    What the executor's code gets from its surroundings: a [context.Context]
    that may be cancelled at any of the points where the code looks at it, the
    number of files it holds open, and the functions users register
    ([executor/{record,failure,function_registry}.go]). *)

From S2P Require Import Prelude Bytes Planner Reports.
#[local] Open Scope Z_scope.

(** ** Contexts and handles *)

(** [rt_time] counts the reads of the context so far, [rt_open] the files and
    shuffle handles that are open, and [rt_store] is the shuffle store's state. *)
Record runtime (store : Type) := mkRuntime { rt_time : nat; rt_open : Z; rt_store : store }.
Arguments mkRuntime {store} _ _ _.
Arguments rt_time {store} _.
Arguments rt_open {store} _.
Arguments rt_store {store} _.

(** What the [n]-th read of a context returns: [ctx.Err()] and
    [context.Cause(ctx)]. *)
Record goContext := mkContext {
  ctx_Err : nat -> option error;
  ctx_Cause : nat -> option error }.

Definition tick {store} (w : runtime store) : runtime store :=
  mkRuntime (S (rt_time w)) (rt_open w) (rt_store w).
Definition opened {store} (n : Z) (w : runtime store) : runtime store :=
  mkRuntime (rt_time w) (rt_open w + n) (rt_store w).

Definition readErr {store} (c : goContext) (w : runtime store) : option error * runtime store :=
  (ctx_Err c (rt_time w), tick w).
Definition readCause {store} (c : goContext) (w : runtime store) : option error * runtime store :=
  (ctx_Cause c (rt_time w), tick w).

(** A context that is never cancelled. *)
Definition Background : goContext := mkContext (fun _ => None) (fun _ => None).

Definition permanentErrorf (format : string) (args : list farg) : error :=
  PermanentError (Errorf format args).

(** The name [%T] prints. *)
Definition type_name (v : any) : string :=
  match v with
  | ANil => "<nil>"
  | ABool _ => "bool"
  | AString _ => "string"
  | AInt _ => "int"
  | AInt64 _ => "int64"
  | ANumber _ => "json.Number"
  | AKeyValue _ _ => "executor.KeyValue"
  | ARaw _ => "json.RawMessage"
  | AArray _ => "[]interface {}"
  | AMap _ => "map[string]interface {}"
  | AOther t => t
  end.

(** ** Registered functions *)

Definition MapFunc : Type := any -> result any.
Definition FilterFunc : Type := any -> result bool.
Definition PairMapFunc : Type := any -> result (string * any).
Definition ValueMapFunc : Type := any -> result any.
Definition ReduceFunc : Type := any -> any -> result any.

Record FunctionRegistry := mkRegistry {
  fr_maps : gmap string MapFunc;
  fr_filters : gmap string FilterFunc;
  fr_pairMaps : gmap string PairMapFunc;
  fr_valueMaps : gmap string ValueMapFunc;
  fr_reducers : gmap string ReduceFunc }.

Definition NewFunctionRegistry : FunctionRegistry := mkRegistry ∅ ∅ ∅ ∅ ∅.

(** A nil function is [None]. *)
Definition validateFunctionRegistration (kind id : string) (nilFunction : bool) : result unit :=
  fail_if (bool_decide (id = "")) (Errorf "%s function ID must not be empty" [FStr kind]);;
  fail_if nilFunction (Errorf "%s function %q must not be nil" [FStr kind; FStr id]);;
  Ok tt.

Definition duplicateFunctionError (kind id : string) : error :=
  Errorf "%s function %q is already registered" [FStr kind; FStr id].

Definition unknownFunctionError (kind id : string) : error :=
  permanentErrorf "%s function %q is not registered" [FStr kind; FStr id].

(** The five registration methods and the five lookups differ in the table
    they use and in the kind their errors name. *)
Definition registerIn {F} (kind : string) (table : gmap string F) (id : string) (fn : option F)
    : result (gmap string F) :=
  _ ← validateFunctionRegistration kind id (bool_decide (fn = None));
  match table !! id, fn with
  | Some _, _ => Err (duplicateFunctionError kind id)
  | None, Some fn => Ok (<[id := fn]> table)
  | None, None => Ok table
  end.

Definition lookupIn {F} (kind : string) (table : gmap string F) (id : string) : result F :=
  match table !! id with
  | Some fn => Ok fn
  | None => Err (unknownFunctionError kind id)
  end.

Definition hasIn {F} (table : gmap string F) (id : string) : bool := bool_decide (is_Some (table !! id)).

Definition RegisterMap (r : FunctionRegistry) (id : string) (fn : option MapFunc) : result FunctionRegistry :=
  m ← registerIn "map" (fr_maps r) id fn;
  Ok (mkRegistry m (fr_filters r) (fr_pairMaps r) (fr_valueMaps r) (fr_reducers r)).
Definition RegisterFilter (r : FunctionRegistry) (id : string) (fn : option FilterFunc) : result FunctionRegistry :=
  m ← registerIn "filter" (fr_filters r) id fn;
  Ok (mkRegistry (fr_maps r) m (fr_pairMaps r) (fr_valueMaps r) (fr_reducers r)).
Definition RegisterPairMap (r : FunctionRegistry) (id : string) (fn : option PairMapFunc) : result FunctionRegistry :=
  m ← registerIn "pair-map" (fr_pairMaps r) id fn;
  Ok (mkRegistry (fr_maps r) (fr_filters r) m (fr_valueMaps r) (fr_reducers r)).
Definition RegisterValueMap (r : FunctionRegistry) (id : string) (fn : option ValueMapFunc) : result FunctionRegistry :=
  m ← registerIn "value-map" (fr_valueMaps r) id fn;
  Ok (mkRegistry (fr_maps r) (fr_filters r) (fr_pairMaps r) m (fr_reducers r)).
Definition RegisterReduce (r : FunctionRegistry) (id : string) (fn : option ReduceFunc) : result FunctionRegistry :=
  m ← registerIn "reduce" (fr_reducers r) id fn;
  Ok (mkRegistry (fr_maps r) (fr_filters r) (fr_pairMaps r) (fr_valueMaps r) m).

Definition lookupMap (r : FunctionRegistry) (id : string) : result MapFunc := lookupIn "map" (fr_maps r) id.
Definition lookupFilter (r : FunctionRegistry) (id : string) : result FilterFunc :=
  lookupIn "filter" (fr_filters r) id.
Definition lookupPairMap (r : FunctionRegistry) (id : string) : result PairMapFunc :=
  lookupIn "pair-map" (fr_pairMaps r) id.
Definition lookupValueMap (r : FunctionRegistry) (id : string) : result ValueMapFunc :=
  lookupIn "value-map" (fr_valueMaps r) id.
Definition lookupReduce (r : FunctionRegistry) (id : string) : result ReduceFunc :=
  lookupIn "reduce" (fr_reducers r) id.

(** The registry is the planner's [FunctionLookup]. *)
Definition registryLookup (r : FunctionRegistry) : FunctionLookup :=
  {| HasMap := hasIn (fr_maps r); HasFilter := hasIn (fr_filters r);
     HasPairMap := hasIn (fr_pairMaps r); HasValueMap := hasIn (fr_valueMaps r);
     HasReduce := hasIn (fr_reducers r) |}.

Lemma lookupIn_hasIn {F} kind (t : gmap string F) id :
  hasIn t id = true <-> exists fn, lookupIn kind t id = Ok fn.
Proof.
  unfold hasIn, lookupIn. rewrite bool_decide_eq_true.
  destruct (t !! id); split; [eauto|done|by intros [? ?]|by intros [? ?]].
Qed.
