(* ===== verification/TextSource.v ===== *)
(** * TextSource: reading a partition of a text file

    Models [executor/text_source.go].  A file is its bytes, which do not change
    while a job reads it; reads past a successful open do not fail.  The buffered
    reader is the list of the bytes that are left. *)

From S2P Require Import Prelude Bytes Reports Runtime.
#[local] Open Scope Z_scope.

(** ** Lines *)

Definition io_EOF : error := Sentinel "EOF".

(** [bufio.Reader.ReadString('\n')]: the line with its delimiter, what is left,
    and whether the end came before a delimiter. *)
Fixpoint readString (bs : list N) : list N * list N * bool :=
  match bs with
  | [] => ([], [], true)
  | b :: bs =>
      if (b =? newline)%N then ([b], bs, false)
      else let '(line, rest, eof) := readString bs in (b :: line, rest, eof)
  end.

(** [strings.TrimSuffix] of a one-byte suffix. *)
Fixpoint TrimSuffix (c : N) (bs : list N) : list N :=
  match bs with
  | [] => []
  | [b] => if (b =? c)%N then [] else [b]
  | b :: bs => b :: TrimSuffix c bs
  end.

Definition lineRecord (line : list N) : any := AString (string_of (TrimSuffix 13 (TrimSuffix newline line))).

(** ** The partition iterator *)

Record textPartitionIterator := mkText {
  tp_rest : list N;
  tp_pos : Z;
  tp_end : Z;
  tp_last : bool;
  tp_done : bool }.

(** [file.Seek] before the file's start, and a read at or after its end, fail. *)
Definition position (data : list N) (start : Z) : result (list N * Z) :=
  start ← (if 0 <? start then
             match data !! Z.to_nat (start - 1) with
             | None => Err io_EOF
             | Some previous =>
                 if (previous =? newline)%N then Ok start
                 else
                   let '(fragment, _, _) := readString (drop (Z.to_nat start) data) in
                   Ok (i64 (start + Z.of_nat (length fragment)))
             end
           else Ok start);
  fail_if (start <? 0) (Sentinel "seek: invalid argument");;
  Ok (drop (Z.to_nat start) data, start).

(** [files] is the file system: the contents of the file at a path, or the
    error [os.Open] returns. *)
Definition openText {store} (files : string -> result (list N)) (c : goContext) (path : string)
    (partition : PartitionID) (numPartitions : Z) (w : runtime store) : result textPartitionIterator * runtime store :=
  let '(e, w) := readErr c w in
  match e with
  | Some err => (Err err, w)
  | None =>
      if (numPartitions <=? 0) || (partition <? 0) || (numPartitions <=? partition)
      then (Err (permanentErrorf "invalid partition %d of %d" [FInt partition; FInt numPartitions]), w)
      else
        match files path with
        | Err err => (Err (Errorf "open text source %q: %w" [FStr path; FWrap err]), w)
        | Ok data =>
            let size := Z.of_nat (length data) in
            let start := Z.quot (i64 (size * partition)) numPartitions in
            let stop := Z.quot (i64 (size * i64 (partition + 1))) numPartitions in
            match position data start with
            | Err err => (Err (Errorf "position text source %q partition %d: %w"
                                 [FStr path; FInt partition; FWrap err]), w)
            | Ok (rest, pos) =>
                (Ok (mkText rest pos stop (partition =? numPartitions - 1) false), opened 1 w)
            end
        end
  end.

Definition closeText {store} (t : textPartitionIterator) (w : runtime store) : textPartitionIterator * runtime store :=
  if tp_done t then (t, w)
  else (mkText (tp_rest t) (tp_pos t) (tp_end t) (tp_last t) true, opened (-1) w).

(** [Ok None] is the end of the records. *)
Definition nextText {store} (c : goContext) (t : textPartitionIterator) (w : runtime store)
    : result (option any) * textPartitionIterator * runtime store :=
  if tp_done t then (Ok None, t, w)
  else
    let '(e, w) := readErr c w in
    match e with
    | Some err => let '(t, w) := closeText t w in (Err err, t, w)
    | None =>
        if negb (tp_last t) && (tp_end t <=? tp_pos t) then
          let '(t, w) := closeText t w in (Ok None, t, w)
        else
          let '(line, rest, eof) := readString (tp_rest t) in
          let t := mkText rest (i64 (tp_pos t + Z.of_nat (length line))) (tp_end t) (tp_last t) (tp_done t) in
          let '(t, w) := if eof : bool then closeText t w else (t, w) in
          match line with
          | [] => (Ok None, t, w)
          | _ => (Ok (Some (lineRecord line)), t, w)
          end
    end.

(** ** Reference: the lines of a file *)

(** The lines of a file with their delimiters; the last one may lack its. *)
Fixpoint fileLines (bs : list N) : list (list N) :=
  match bs with
  | [] => []
  | b :: bs =>
      if (b =? newline)%N then [b] :: fileLines bs
      else match fileLines bs with [] => [[b]] | l :: ls => (b :: l) :: ls end
  end.

(** Lines with the offsets at which they start. *)
Fixpoint offsets (o : Z) (ls : list (list N)) : list (Z * list N) :=
  match ls with
  | [] => []
  | l :: ls => (o, l) :: offsets (o + Z.of_nat (length l)) ls
  end.

Lemma fileLines_nil bs : fileLines bs = [] -> bs = [].
Proof. destruct bs as [|b bs]; [done|]. cbn. by destruct (_ =? _)%N, (fileLines bs). Qed.

Lemma fileLines_nonempty bs : Forall (fun l => l <> []) (fileLines bs).
Proof.
  induction bs as [|b bs IH]; [constructor|]. cbn. destruct (_ =? _)%N; [by constructor|].
  destruct (fileLines bs); [by repeat constructor|]. inversion IH; subst. by constructor.
Qed.

Lemma readString_spec bs line rest eof :
  readString bs = (line, rest, eof) -> bs <> [] ->
  bs = line ++ rest /\ fileLines bs = line :: fileLines rest /\
  (eof = true -> rest = []) /\ (eof = false -> last line = Some newline).
Proof.
  revert line rest eof. induction bs as [|b bs IH]; [done|]. intros line rest eof H _. cbn in *.
  destruct (N.eqb_spec b newline) as [->|Hb]; [by injection H as <- <- <-|].
  destruct (readString bs) as [[l r] e] eqn:E. injection H as <- <- <-.
  destruct bs as [|b' bs]; [cbn in E; by injection E as <- <- <-|].
  destruct (IH _ _ _ eq_refl ltac:(done)) as (-> & -> & ? & Hlast). split; [done|]. split; [done|].
  split; [done|]. intros ?. specialize (Hlast ltac:(done)). by destruct l.
Qed.

Lemma readString_line bs line rest eof :
  readString bs = (line, rest, eof) -> fileLines line = match line with [] => [] | _ => [line] end.
Proof.
  revert line rest eof. induction bs as [|b bs IH]; intros line rest eof H; cbn in *;
    [by injection H as <- <- <-|].
  destruct (N.eqb_spec b newline) as [->|Hb]; [by injection H as <- <- <-|].
  destruct (readString bs) as [[l r] e]. injection H as <- <- <-. cbn.
  destruct (N.eqb_spec b newline); [done|]. rewrite (IH _ _ _ eq_refl). by destruct l.
Qed.

Lemma fileLines_app a b : last a = Some newline -> fileLines (a ++ b) = fileLines a ++ fileLines b.
Proof.
  induction a as [|x a IH]; [done|]. intros H. cbn. destruct (N.eqb_spec x newline) as [->|Hx].
  - destruct a as [|y a]; [done|]. cbn. f_equal. by apply IH.
  - destruct a as [|y a]; [by injection H|]. rewrite IH by done.
    destruct (fileLines (y :: a)) eqn:E; [by apply fileLines_nil in E|done].
Qed.

Lemma offsets_app o a b : offsets o (a ++ b) = offsets o a ++ offsets (o + Z.of_nat (length (concat a))) b.
Proof.
  revert o. induction a as [|l a IH]; intros o; cbn; [by rewrite Z.add_0_r|].
  rewrite IH, length_app, Nat2Z.inj_add, Z.add_assoc. done.
Qed.

Lemma fileLines_concat bs : concat (fileLines bs) = bs.
Proof.
  induction bs as [|b bs IH]; [done|]. cbn. destruct (_ =? _)%N; [cbn; by rewrite IH|].
  destruct (fileLines bs) eqn:E; [by rewrite (fileLines_nil _ E)|]. cbn in *. by rewrite IH.
Qed.

(** Completing the last line of [u] moves no line. *)
Lemma offsets_extend u f o :
  u <> [] -> last u <> Some newline -> fileLines f = match f with [] => [] | _ => [f] end ->
  (offsets o (fileLines (u ++ f))).*1 = (offsets o (fileLines u)).*1.
Proof.
  revert o. induction u as [|x u IH]; [done|]. intros o _ Hl Hf. destruct u as [|y u].
  - cbn in *. destruct (N.eqb_spec x newline) as [->|]; [done|]. rewrite Hf. by destruct f.
  - specialize (IH (o + 1) ltac:(done) Hl Hf). change ((x :: y :: u) ++ f) with (x :: ((y :: u) ++ f)).
    remember (y :: u) as v eqn:Ev. assert (Hv : v ++ f <> []) by (by subst v).
    assert (Hv' : v <> []) by (by subst v). clear Ev. cbn [fileLines].
    destruct (x =? newline)%N; [cbn; by f_equal|].
    destruct (fileLines (v ++ f)) as [|l ls] eqn:E; [by apply fileLines_nil in E|].
    destruct (fileLines v) as [|l' ls'] eqn:E'; [by apply fileLines_nil in E'|].
    cbn in *. injection IH as IH. f_equal.
    replace (o + Z.of_nat (S (length l))) with (o + 1 + Z.of_nat (length l)) by lia.
    by replace (o + Z.of_nat (S (length l'))) with (o + 1 + Z.of_nat (length l')) by lia.
Qed.

(** ** Positioning *)

Definition starts_in (lo : Z) (hi : option Z) (x : Z * list N) : bool :=
  (lo <=? x.1) && match hi with Some hi => x.1 <? hi | None => true end.

Lemma offsets_ge o ls x : x ∈ offsets o ls -> o <= x.1.
Proof.
  revert o. induction ls as [|l ls IH]; intros o; cbn; [by intros ?%elem_of_nil|].
  intros [->|H]%elem_of_cons; [cbn; lia|]. apply IH in H. lia.
Qed.

Lemma offsets_lt o ls x :
  Forall (fun l => l <> []) ls -> x ∈ (offsets o ls).*1 -> x < o + Z.of_nat (length (concat ls)).
Proof.
  intros H. revert o. induction H as [|l ls Hl Hls IH]; intros o; cbn; [by intros ?%elem_of_nil|].
  rewrite length_app, Nat2Z.inj_add. destruct l as [|b l]; [done|].
  intros [->|Hx]%elem_of_cons; [cbn; lia|]. apply IH in Hx. cbn in *. lia.
Qed.

Lemma filter_all_true {A} (f : A -> bool) l : (forall x, x ∈ l -> f x = true) -> List.filter f l = l.
Proof.
  induction l as [|x l IH]; [done|]. intros H. cbn. rewrite H by set_solver.
  f_equal. apply IH. set_solver.
Qed.

Lemma filter_all_false {A} (f : A -> bool) l : (forall x, x ∈ l -> f x = false) -> List.filter f l = [].
Proof.
  induction l as [|x l IH]; [done|]. intros H. cbn. rewrite H by set_solver. apply IH. set_solver.
Qed.

(** A prefix that ends a line splits the lines of a file. *)
Lemma lines_from a rest s :
  (last a = Some newline \/ rest = []) ->
  (forall x, x ∈ (offsets 0 (fileLines a)).*1 -> x < s) -> s <= Z.of_nat (length a) ->
  offsets (Z.of_nat (length a)) (fileLines rest)
  = List.filter (starts_in s None) (offsets 0 (fileLines (a ++ rest))).
Proof.
  intros Hend Hlt Hs.
  assert (fileLines (a ++ rest) = fileLines a ++ fileLines rest) as ->.
  { destruct Hend as [H | ->]; [by apply fileLines_app|by rewrite !app_nil_r]. }
  rewrite offsets_app, fileLines_concat, List.filter_app, filter_all_false, filter_all_true; [done| |].
  - intros x Hx%offsets_ge. unfold starts_in. rewrite andb_true_r, Z.leb_le. lia.
  - intros x Hx. unfold starts_in. rewrite andb_true_r, Z.leb_gt. apply Hlt.
    apply list_elem_of_fmap. eauto.
Qed.

Lemma last_take {A} (l : list A) n x : l !! n = Some x -> last (take (S n) l) = Some x.
Proof.
  intros H. pose proof (lookup_lt_Some _ _ _ H). rewrite last_lookup, length_take, lookup_take.
  rewrite decide_True by lia. by replace (Init.Nat.pred (S n `min` length l)) with n by lia.
Qed.

(** [position] stops at the first line that starts at or after [start]. *)
Lemma position_spec data start :
  0 <= start <= Z.of_nat (length data) -> Z.of_nat (length data) < 2 ^ 63 ->
  exists a rest, position data start = Ok (rest, Z.of_nat (length a)) /\ data = a ++ rest /\
    start <= Z.of_nat (length a) /\
    offsets (Z.of_nat (length a)) (fileLines rest)
    = List.filter (starts_in start None) (offsets 0 (fileLines data)).
Proof.
  intros Hs Hlen. unfold position. destruct (Z.ltb_spec 0 start) as [Hpos|Hpos].
  - assert (exists n, start = Z.of_nat (S n)) as [n ->] by (exists (Z.to_nat (start - 1)); lia).
    replace (Z.to_nat (Z.of_nat (S n) - 1)) with n by lia. rewrite Nat2Z.id.
    destruct (lookup_lt_is_Some_2 data n ltac:(lia)) as [b Hb]. rewrite Hb.
    pose proof (last_take _ _ _ Hb) as Hlast. set (u := take (S n) data) in *.
    assert (Hu : length u = S n) by (unfold u; rewrite length_take; lia).
    assert (Hud : u ++ drop (S n) data = data) by apply take_drop.
    clearbody u. remember (drop (S n) data) as d eqn:Ed.    destruct (N.eqb_spec b newline) as [->|Hnl].
    + exists u, d. cbn [mbind result_bind].
      replace (Z.of_nat (S n) <? 0) with false by (symmetry; apply Z.ltb_ge; lia).
      rewrite Nat2Z.id, Hu, <- Ed. split; [done|]. split; [done|]. split; [done|].
      rewrite <- Hu, <- Hud. apply lines_from; [by left| |lia].
      intros x Hx%offsets_lt; [|apply fileLines_nonempty]. rewrite fileLines_concat in Hx. lia.
    + destruct (readString d) as [[f r] e] eqn:E.
      assert (Hd : data = (u ++ f) ++ r /\ (last (u ++ f) = Some newline \/ r = [])).
      { destruct (decide (d = [])) as [Hn|Hn].
        - rewrite Hn in E. injection E as <- <- <-. rewrite !app_nil_r.
          split; [by rewrite <- Hud, Hn, app_nil_r|by right].
        - destruct (readString_spec _ _ _ _ E Hn) as (Hf & _ & He & Hl). split.
          + by rewrite <- app_assoc, <- Hf.
          + destruct e; [right; auto|left]. rewrite last_app, (Hl eq_refl). done. }
      destruct Hd as [Hd Hr]. exists (u ++ f), r. cbn [mbind result_bind].
      assert (Hle : (length (u ++ f) <= length data)%nat) by (rewrite Hd, (length_app _ r); lia).
      rewrite length_app, Hu in Hle.
      rewrite i64_id by (unfold in_i64; lia).
      replace (Z.of_nat (S n) + Z.of_nat (length f)) with (Z.of_nat (length (u ++ f)))
        by (rewrite length_app, Hu; lia).
      replace (Z.of_nat (length (u ++ f)) <? 0) with false by (symmetry; apply Z.ltb_ge; lia).
      rewrite Nat2Z.id. split; [rewrite Hd at 1; by rewrite drop_app_length|]. split; [done|].
      split; [rewrite length_app; lia|].
      rewrite Hd. apply lines_from; [done| |rewrite length_app; lia].
      rewrite offsets_extend;
        [|by destruct u|rewrite Hlast; by injection 1|by eapply readString_line].
      intros x Hx%offsets_lt; [|apply fileLines_nonempty]. rewrite fileLines_concat in Hx. lia.
  - assert (start = 0) as -> by lia. exists [], data. cbn. rewrite drop_0. split; [done|]. split; [done|]. split; [lia|].
    rewrite filter_all_true; [done|]. intros x Hx%offsets_ge. unfold starts_in.
    rewrite andb_true_r, Z.leb_le. lia.
Qed.

(** ** Reading *)

Definition text_ok (t : textPartitionIterator) : Prop :=
  0 <= tp_pos t /\ tp_pos t + Z.of_nat (length (tp_rest t)) < 2 ^ 63.

(** The lines the iterator has still to return, with their offsets. *)
Definition text_lines (t : textPartitionIterator) : list (Z * list N) :=
  if tp_done t then []
  else List.filter (starts_in (tp_pos t) (if tp_last t then None else Some (tp_end t)))
         (offsets (tp_pos t) (fileLines (tp_rest t))).

Definition text_records (t : textPartitionIterator) : list any := (fun x => lineRecord x.2) <$> text_lines t.

(** The file handles the iterator owns. *)
Definition text_handles (t : textPartitionIterator) : Z := if tp_done t then 0 else 1.

Lemma closeText_spec {store} t (w : runtime store) t' w' :
  closeText t w = (t', w') ->
  tp_done t' = true /\ rt_open w' = rt_open w - text_handles t /\ rt_store w' = rt_store w.
Proof.
  unfold closeText, text_handles. destruct (tp_done t) eqn:E; intros [= <- <-]; cbn; split_and!; done || lia.
Qed.

Lemma offsets_after o o' hi ls :
  o <= o' -> List.filter (starts_in o hi) (offsets o' ls) = List.filter (starts_in o' hi) (offsets o' ls).
Proof.
  intros Ho. apply List.filter_ext_in. intros x Hx%list_elem_of_In. apply offsets_ge in Hx. unfold starts_in.
  by destruct (Z.leb_spec o x.1), (Z.leb_spec o' x.1); try lia.
Qed.

Lemma filter_past o hi ls : hi <= o -> List.filter (starts_in o (Some hi)) (offsets o ls) = [].
Proof.
  intros Ho. apply filter_all_false. intros x Hx%offsets_ge. unfold starts_in.
  apply andb_false_iff. right. apply Z.ltb_ge. lia.
Qed.

(** One call of [Next]: the context's error, the end, or the next line. *)
Lemma nextText_spec {store} c t (w : runtime store) r t' w' :
  text_ok t -> nextText c t w = (r, t', w') ->
  rt_open w' - text_handles t' = rt_open w - text_handles t /\ rt_store w' = rt_store w /\
  match r with
  | Err e => ctx_Err c (rt_time w) = Some e /\ tp_done t' = true
  | Ok None => text_lines t = [] /\ tp_done t' = true
  | Ok (Some v) => exists x, text_lines t = x :: text_lines t' /\ v = lineRecord x.2 /\ text_ok t'
  end.
Proof.
  intros [Hpos Hfit] H. unfold nextText, readErr in H. unfold text_lines at 1 3.
  destruct (tp_done t) eqn:Ed; [injection H as <- <- <-; unfold text_handles; by rewrite Ed|].
  destruct (ctx_Err c (rt_time w)) as [e|].
  { destruct (closeText t (tick w)) as [t1 w1] eqn:Ec. injection H as <- <- <-.
    apply closeText_spec in Ec as (Hd & Ho & Hs). unfold text_handles in *. rewrite Hd. cbn in Ho. by split; [lia|]. }
  destruct (negb (tp_last t) && (tp_end t <=? tp_pos t)) eqn:Estop.
  { destruct (closeText t (tick w)) as [t1 w1] eqn:Ec. injection H as <- <- <-.
    apply closeText_spec in Ec as (Hd & Ho & Hs). apply andb_true_iff in Estop as [Hl He].
    apply negb_true_iff in Hl. apply Z.leb_le in He. rewrite Hl, filter_past by done.
    unfold text_handles in *. rewrite Hd. cbn in Ho. by split; [lia|]. }
  destruct (readString (tp_rest t)) as [[line rest] eof] eqn:E.
  destruct (decide (tp_rest t = [])) as [Hn|Hn].
  { rewrite Hn in *. injection E as <- <- <-. cbn in H.
    unfold closeText, text_handles in *. cbn in H. rewrite Ed in *. cbn in H. injection H as <- <- <-.
    cbn. by split; [lia|]. }
  destruct (readString_spec _ _ _ _ E Hn) as (Hrest & Hlines & Heof & _).
  assert (Hline : line <> []).
  { pose proof (fileLines_nonempty (tp_rest t)) as Hne. rewrite Hlines in Hne. by inversion Hne. }
  rewrite Hrest, length_app in Hfit. rewrite i64_id in H by (unfold in_i64; lia).
  rewrite Hlines. cbn [offsets List.filter].
  assert (starts_in (tp_pos t) (if tp_last t then None else Some (tp_end t)) (tp_pos t, line) = true) as ->.
  { unfold starts_in. cbn. rewrite Z.leb_refl. destruct (tp_last t); [done|]. cbn in *.
    apply Z.leb_gt in Estop. by apply Z.ltb_lt. }
  rewrite offsets_after by lia. destruct line as [|b line]; [done|].
  destruct eof; cbn in H; injection H as <- <- <-; unfold text_handles; cbn; rewrite Ed.
  - cbn. split; [lia|]. split; [done|]. exists (tp_pos t, b :: line). rewrite (Heof eq_refl). split; [done|].
    split; [done|]. rewrite (Heof eq_refl) in Hfit. unfold text_ok. cbn in *. lia.
  - split; [lia|]. split; [done|]. exists (tp_pos t, b :: line). split; [done|]. split; [done|].
    unfold text_ok. cbn in *. lia.
Qed.

Lemma closeText_ok {store} t (w : runtime store) : text_ok t -> text_ok (closeText t w).1.
Proof. unfold closeText. by destruct (tp_done t). Qed.

Lemma nextText_ok {store} c t (w : runtime store) r t' w' :
  text_ok t -> nextText c t w = (r, t', w') -> text_ok t'.
Proof.
  intros Hok H. pose proof (closeText_ok t (tick w) Hok) as Hc. unfold nextText, readErr in H.
  destruct (tp_done t) eqn:Ed; [by injection H as <- <- <-|].
  destruct (ctx_Err c (rt_time w)), (negb (tp_last t) && (tp_end t <=? tp_pos t));
    try (destruct (closeText t (tick w)) as [t1 w1]; by injection H as <- <- <-).
  destruct (readString (tp_rest t)) as [[line rest] eof] eqn:E.
  assert (Hrest : tp_rest t = line ++ rest).
  { destruct (decide (tp_rest t = [])) as [Hn|Hn]; [rewrite Hn in *; by injection E as <- <- <-|].
    by destruct (readString_spec _ _ _ _ E Hn). }
  set (t2 := mkText rest (i64 (tp_pos t + Z.of_nat (length line))) (tp_end t) (tp_last t) false) in *.
  assert (Hok2 : text_ok t2).
  { destruct Hok as [Hp Hf]. rewrite Hrest, length_app in Hf. unfold text_ok, t2. cbn.
    rewrite i64_id by (unfold in_i64; lia). lia. }
  fold t2 in H. pose proof (closeText_ok t2 (tick w) Hok2) as Hc2.
  destruct eof; [destruct (closeText t2 (tick w)) as [t3 w3]|]; destruct line; by injection H as <- <- <-.
Qed.

(** ** Partitions *)

(** The first byte of partition [p] of [n]; [end_of] is [None] for the last. *)
Definition start_of (size p n : Z) : Z := Z.quot (size * p) n.
Definition end_of (size p n : Z) : option Z := if p =? n - 1 then None else Some (start_of size (p + 1) n).

Definition partition_lines (data : list N) (p n : Z) : list (Z * list N) :=
  let size := Z.of_nat (length data) in
  List.filter (starts_in (start_of size p n) (end_of size p n)) (offsets 0 (fileLines data)).

Lemma start_of_bounds size p n : 0 <= size -> 0 < n -> 0 <= p <= n -> 0 <= start_of size p n <= size.
Proof.
  intros. unfold start_of. rewrite Z.quot_div_nonneg by nia. split; [apply Z.div_pos; nia|].
  apply Z.div_le_upper_bound; nia.
Qed.

Lemma start_of_mono size p n : 0 <= size -> 0 < n -> 0 <= p -> start_of size p n <= start_of size (p + 1) n.
Proof.
  intros. unfold start_of. rewrite !Z.quot_div_nonneg by nia. apply Z.div_le_mono; nia.
Qed.

Lemma filter_starts lo hi L :
  List.filter (starts_in lo hi) (List.filter (starts_in lo None) L) = List.filter (starts_in lo hi) L.
Proof.
  induction L as [|x L IH]; [done|]. cbn [List.filter].
  assert (E : starts_in lo hi x = true -> starts_in lo None x = true)
    by (unfold starts_in; destruct (lo <=? x.1); done).
  destruct (starts_in lo None x); cbn [List.filter]; rewrite IH; [done|].
  destruct (starts_in lo hi x); [by specialize (E eq_refl)|done].
Qed.

Lemma openText_spec {store} files c path data p n (w : runtime store) r w' :
  files path = Ok data -> 0 <= p < n -> n < 2 ^ 63 -> Z.of_nat (length data) * n < 2 ^ 63 ->
  openText files c path p n w = (r, w') ->
  rt_store w' = rt_store w /\
  match r with
  | Err e => ctx_Err c (rt_time w) = Some e /\ rt_open w' = rt_open w
  | Ok t => text_ok t /\ tp_done t = false /\ text_lines t = partition_lines data p n /\
            rt_open w' = rt_open w + 1
  end.
Proof.
  intros Hf Hp Hn Hfit H. unfold openText, readErr in H.
  destruct (ctx_Err c (rt_time w)) as [e|]; [by injection H as <- <-|].
  replace (_ || _ || _) with false in H by
    (symmetry; rewrite !orb_false_iff, !Z.leb_gt, Z.ltb_ge; lia).
  rewrite Hf in H. set (size := Z.of_nat (length data)) in *.
  assert (0 <= size) by lia.
  rewrite (i64_id (p + 1)), (i64_id (size * p)), (i64_id (size * (p + 1))) in H by (unfold in_i64; nia).
  fold (start_of size p n) (start_of size (p + 1) n) in H.
  destruct (position_spec data (start_of size p n)) as (a & rest & Hpos & Hd & Ha & Hoff);
    [apply start_of_bounds; lia|nia|].
  rewrite Hpos in H. injection H as <- <-. cbn. split; [done|]. split; [|split; [done|split; [|lia]]].
  - unfold text_ok. cbn. unfold size in *. rewrite Hd, length_app in *. nia.
  - unfold text_lines, partition_lines. cbn. fold size.
    rewrite <- (offsets_after (start_of size p n)) by done. rewrite Hoff, filter_starts.
    unfold end_of. by destruct (p =? n - 1).
Qed.

(** Consecutive partitions meet: cutting the offsets at the partition bounds
    loses no line and repeats none. *)
Lemma filter_split lo mid hi o ls :
  lo <= mid -> match hi with Some hi => mid <= hi | None => True end ->
  List.filter (starts_in lo hi) (offsets o ls)
  = List.filter (starts_in lo (Some mid)) (offsets o ls) ++ List.filter (starts_in mid hi) (offsets o ls).
Proof.
  intros Hlm Hmh. revert o. induction ls as [|l ls IH]; intros o; [done|]. cbn [offsets List.filter].
  destruct (Z.ltb_spec o mid) as [Hom|Hom].
  - assert (E1 : starts_in mid hi (o, l) = false) by (unfold starts_in; cbn; destruct (Z.leb_spec mid o); [lia|done]).
    assert (E2 : starts_in lo hi (o, l) = starts_in lo (Some mid) (o, l)).
    { unfold starts_in. cbn. destruct (Z.ltb_spec o mid); [|lia]. destruct hi as [hi|]; [|done].
      destruct (Z.ltb_spec o hi); [done|lia]. }
    rewrite E1, E2, IH. by destruct (starts_in lo (Some mid) (o, l)).
  - assert (E1 : starts_in lo (Some mid) (o, l) = false)
      by (unfold starts_in; cbn; destruct (Z.ltb_spec o mid); [lia|by rewrite andb_false_r]).
    assert (E2 : starts_in lo hi (o, l) = starts_in mid hi (o, l)).
    { unfold starts_in. cbn. destruct (Z.leb_spec lo o), (Z.leb_spec mid o); try lia; done. }
    assert (E3 : List.filter (starts_in lo (Some mid)) (offsets (o + Z.of_nat (length l)) ls) = []).
    { apply filter_all_false. intros x Hx%offsets_ge. unfold starts_in.
      apply andb_false_iff. right. apply Z.ltb_ge. lia. }
    rewrite E1, E2, IH, E3. done.
Qed.

Lemma partitions_concat data n :
  0 < n ->
  concat ((fun p : nat => partition_lines data (Z.of_nat p) n) <$> seq 0 (Z.to_nat n))
  = offsets 0 (fileLines data).
Proof.
  intros Hn. set (size := Z.of_nat (length data)).
  assert (Hcut : forall k : nat, Z.of_nat k < n ->
    concat ((fun p : nat => partition_lines data (Z.of_nat p) n) <$> seq 0 k)
    = List.filter (starts_in 0 (Some (start_of size (Z.of_nat k) n))) (offsets 0 (fileLines data))).
  { induction k as [|k IH]; intros Hk.
    - cbn. symmetry. apply filter_past. unfold start_of. rewrite Z.mul_0_r. by rewrite Z.quot_0_l by lia.
    - rewrite seq_S, fmap_app, concat_app, IH by lia. cbn. rewrite app_nil_r.
      unfold partition_lines, end_of. replace (Z.of_nat k =? n - 1) with false by (symmetry; apply Z.eqb_neq; lia).
      replace (Z.of_nat (S k)) with (Z.of_nat k + 1) by lia. symmetry. apply filter_split.
      + apply start_of_bounds; lia.
      + apply start_of_mono; lia. }
  assert (Z.to_nat n = S (Z.to_nat (n - 1))) as -> by lia.
  rewrite seq_S, fmap_app, concat_app, Hcut by lia. cbn. rewrite app_nil_r, Z2Nat.id by lia.
  unfold partition_lines, end_of. rewrite Z.eqb_refl. fold size. rewrite <- filter_split.
  - apply filter_all_true. intros x Hx%offsets_ge. unfold starts_in. rewrite andb_true_r, Z.leb_le. lia.
  - apply start_of_bounds; lia.
  - done.
Qed.

(** ** Properties *)

(** A consumer that calls [Next] until it reports the end. *)
Fixpoint drainText {store} (fuel : nat) (c : goContext) (t : textPartitionIterator) (w : runtime store)
    : option (result (list any) * runtime store) :=
  match fuel with
  | O => None
  | S fuel =>
      let '(r, t, w) := nextText c t w in
      match r with
      | Err e => Some (Err e, w)
      | Ok None => Some (Ok [], w)
      | Ok (Some v) =>
          '(r, w) ← drainText fuel c t w;
          Some (match r with Ok vs => Ok (v :: vs) | Err e => Err e end, w)
      end
  end.

Definition readPartition {store} (files : string -> result (list N)) (c : goContext) (path : string)
    (partition : PartitionID) (numPartitions : Z) (fuel : nat) (w : runtime store)
    : option (result (list any) * runtime store) :=
  let '(r, w) := openText files c path partition numPartitions w in
  match r with Err e => Some (Err e, w) | Ok t => drainText fuel c t w end.

Lemma drainText_spec {store} c fuel t (w : runtime store) :
  text_ok t -> (length (text_lines t) < fuel)%nat ->
  exists r w', drainText fuel c t w = Some (r, w') /\ rt_open w' = rt_open w - text_handles t /\
    match r with Ok vs => vs = text_records t | Err e => exists k, ctx_Err c k = Some e end.
Proof.
  revert t w. induction fuel as [|fuel IH]; intros t w Hok Hlen; [lia|]. cbn.
  destruct (nextText c t w) as [[r t'] w'] eqn:E.
  destruct (nextText_spec _ _ _ _ _ _ Hok E) as (Hopen & Hst & Hr).
  destruct r as [[v|]|e].
  - destruct Hr as (x & Hx & -> & Hok'). rewrite Hx in Hlen. cbn in Hlen.
    destruct (IH t' w' Hok' ltac:(lia)) as (r & w'' & -> & Hw & Hr). cbn.
    do 2 eexists. split; [done|]. split; [lia|]. destruct r as [vs|e]; [|done].
    unfold text_records. rewrite Hx. cbn. by f_equal.
  - destruct Hr as [Hl Hd]. do 2 eexists. split; [done|]. unfold text_records, text_handles in *.
    rewrite Hl. rewrite Hd in Hopen. split; [lia|done].
  - destruct Hr as [He Hd]. do 2 eexists. split; [done|]. unfold text_handles in *. rewrite Hd in Hopen.
    split; [lia|eauto].
Qed.

Lemma offsets_length o ls : length (offsets o ls) = length ls.
Proof. revert o. induction ls as [|l ls IH]; intros o; cbn; [done|]. by rewrite IH. Qed.

Lemma partition_lines_length data p n : (length (partition_lines data p n) <= length data)%nat.
Proof.
  unfold partition_lines. rewrite List.filter_length_le, offsets_length.
  induction data as [|b bs IH]; [done|]. cbn. destruct (b =? newline)%N; [cbn; lia|].
  destruct (fileLines bs); cbn in *; lia.
Qed.

Lemma fmap_concat {A B} (f : A -> B) (ls : list (list A)) :
  fmap (M:=list) f (concat ls) = concat (fmap (M:=list) (fmap (M:=list) f) ls).
Proof. induction ls as [|l ls IH]; [done|]. cbn. by rewrite fmap_app, IH. Qed.

Lemma offsets_lines o ls : (fun x => lineRecord x.2) <$> offsets o ls = lineRecord <$> ls.
Proof. revert o. induction ls as [|l ls IH]; intros o; [done|]. cbn. by rewrite IH. Qed.

(** C34. Splitting a text file.  Whatever the partition count, the partitions
    of a file hold its lines, each once and in order, without their line ends;
    reading one returns exactly its lines unless the context ends, then an
    error and never a part of them, and in any case closes the file. *)
Theorem text_partitions files path data n :
  files path = Ok data -> 0 < n < 2 ^ 63 -> Z.of_nat (length data) * n < 2 ^ 63 ->
  exists parts : list (list any),
    length parts = Z.to_nat n /\ concat parts = lineRecord <$> fileLines data /\
    forall store c (p : nat) part (w : runtime store), parts !! p = Some part ->
      exists r w', readPartition files c path (Z.of_nat p) n (S (length data)) w = Some (r, w') /\
        rt_open w' = rt_open w /\
        match r with Ok records => records = part | Err e => exists k, ctx_Err c k = Some e end.
Proof.
  intros Hf Hn Hfit.
  exists ((fun p : nat => (fun x => lineRecord x.2) <$> partition_lines data (Z.of_nat p) n) <$> seq 0 (Z.to_nat n)).
  split; [by rewrite length_fmap, length_seq|]. split.
  - rewrite <- (offsets_lines 0), <- (partitions_concat data n), fmap_concat by lia.
    by rewrite <- list_fmap_compose.
  - intros store c p part w Hp. apply list_lookup_fmap_Some in Hp as (q & -> & Hq).
    apply lookup_seq in Hq as [-> Hlt]. cbn [Nat.add]. unfold readPartition.
    destruct (openText files c path (Z.of_nat p) n w) as [r w1] eqn:E.
    apply (openText_spec _ _ _ data) in E; [|done|lia..]. destruct r as [t|e].
    + destruct E as (_ & Hok & Hd & Hlines & Ho).
      destruct (drainText_spec c (S (length data)) t w1 Hok) as (r & w' & -> & Hw & Hr).
      { rewrite Hlines. pose proof (partition_lines_length data (Z.of_nat p) n). lia. }
      do 2 eexists. split; [done|]. unfold text_handles in Hw. rewrite Hd in Hw. split; [lia|].
      destruct r; [|done]. rewrite Hr. unfold text_records. by rewrite Hlines.
    + destruct E as (_ & He & Ho). do 2 eexists. split; [done|]. split; [lia|eauto].
Qed.

(** A file with a Windows line end, an empty line and no final newline, in
    three partitions. *)
Definition example_file : list N := bytes_of "ab" ++ [13; 10; 10]%N ++ bytes_of "cde".

Lemma text_partitions_witness :
  exists parts : list (list any),
    length parts = 3%nat /\ concat parts = [AString "ab"; AString ""; AString "cde"] /\
    forall store c (p : nat) part (w : runtime store), parts !! p = Some part ->
      exists r w', readPartition (fun _ => Ok example_file) c "f" (Z.of_nat p) 3 9 w = Some (r, w') /\
        rt_open w' = rt_open w /\
        match r with Ok records => records = part | Err e => exists k, ctx_Err c k = Some e end.
Proof.
  exact (text_partitions (fun _ => Ok example_file) "f" example_file 3 eq_refl
           (conj eq_refl eq_refl) eq_refl).
Defined.
