(* ===== verification/Iterator.v ===== *)
(** * Iterator: the records of a partition

    Models [executor/{iterator,reduce,shuffle_read}.go]: pull iterators over a
    partition, the shuffle input of a reduce task and its aggregation.  The
    shuffle store is the interface [shuffle.Store] of [shuffle/store.go].

    An iterator is its state; [Next] returns the next state with its result, so
    that what a failed or closed iterator does is modelled as well.  [Next] runs
    on fuel, as a filter may skip and a reduction may read any number of
    records. *)

From S2P Require Import Prelude Bytes Reports Shuffle Runtime TextSource.
#[local] Open Scope Z_scope.

(** ** The store interface *)

(** A [shuffle.Record] is a key and a value.  A reader's [Ok None] is
    [io.EOF].  Writers and readers keep the context they are opened with, which
    is the one passed to their other operations here. *)
Class ShuffleStore := {
  store : Type;
  writer : Type;
  reader : Type;
  Begin : goContext -> AttemptIdentity -> Z -> Z -> runtime store -> result writer * runtime store;
  Write : goContext -> writer -> string -> any -> runtime store -> option error * writer * runtime store;
  Publish : goContext -> writer -> runtime store -> result MapOutput * writer * runtime store;
  Abort : goContext -> writer -> runtime store -> option error * writer * runtime store;
  OpenBucket : goContext -> MapOutput -> PartitionID -> runtime store -> result reader * runtime store;
  ReadRecord : goContext -> reader -> runtime store -> result (option (string * any)) * reader * runtime store;
  CloseReader : reader -> runtime store -> option error * reader * runtime store }.

Section iterators.
Context `{SS : ShuffleStore}.

Notation world := (runtime store).

(** ** Slices *)

Record sliceIterator := mkSlice { sl_records : list any; sl_next : nat }.

Definition nextSlice (c : goContext) (i : sliceIterator) (w : world)
    : result (option any) * sliceIterator * world :=
  let '(e, w) := readErr c w in
  match e with
  | Some err => (Err err, i, w)
  | None =>
      match sl_records i !! sl_next i with
      | None => (Ok None, i, w)
      | Some record => (Ok (Some record), mkSlice (sl_records i) (S (sl_next i)), w)
      end
  end.

(** ** Shuffle input *)

Record shuffleIterator := mkShuffleIterator {
  si_inputs : InputSnapshot;
  si_partition : PartitionID;
  si_next : nat;
  si_reader : option reader;
  si_closed : bool;
  si_err : option error }.

Definition si_state (i : shuffleIterator) (next : nat) (r : option reader) (closed : bool) : shuffleIterator :=
  mkShuffleIterator (si_inputs i) (si_partition i) next r closed (si_err i).

Definition closeShuffleReader (i : shuffleIterator) (w : world) : option error * shuffleIterator * world :=
  match si_reader i with
  | None => (None, i, w)
  | Some r =>
      let '(e, _, w) := CloseReader r w in
      (e, si_state i (si_next i) None (si_closed i), w)
  end.

Definition closeShuffle (i : shuffleIterator) (w : world) : option error * shuffleIterator * world :=
  closeShuffleReader (si_state i (si_next i) (si_reader i) true) w.

(** [fail]: the error it returns is never nil here. *)
Definition failShuffle (err : error) (i : shuffleIterator) (w : world)
    : result (option any) * shuffleIterator * world :=
  let '(ce, i, w) := closeShuffle i w in
  let err := EJoin (err :: match ce with Some e => [e] | None => [] end) in
  (Err err, mkShuffleIterator (si_inputs i) (si_partition i) (si_next i) (si_reader i) (si_closed i) (Some err), w).

Definition inputError (c : goContext) (i : shuffleIterator) (err : error) (w : world) : error * world :=
  let '(e, w) := readErr c w in
  match e with
  | Some e => let '(cause, w) := readCause c w in (default e cause, w)
  | None =>
      if errors_Is err context_Canceled || errors_Is err context_DeadlineExceeded ||
         errors_Is err ErrShuffleInput
      then (err, w)
      else
        match is_Outputs (si_inputs i) !! si_next i with
        | Some o => (InputError (mo_Attempt o) (si_partition i) err, w)
        | None => (panic_range, w)
        end
  end.

Definition failInput (c : goContext) (err : error) (i : shuffleIterator) (w : world)
    : result (option any) * shuffleIterator * world :=
  let '(err, w) := inputError c i err w in failShuffle err i w.

(** The loop of [Next]: one round per bucket that ends; [fuel] counts rounds. *)
Fixpoint nextShuffleLoop (fuel : nat) (c : goContext) (i : shuffleIterator) (w : world)
    : option (result (option any) * shuffleIterator * world) :=
  match fuel with
  | O => None
  | S fuel =>
      let '(e, w) := readCause c w in
      match e with
      | Some err => Some (failShuffle err i w)
      | None =>
          match is_Outputs (si_inputs i) !! si_next i with
          | None => Some (Ok None, si_state i (si_next i) (si_reader i) true, w)
          | Some output =>
              let '(r, w) := match si_reader i with
                             | Some r => (Ok r, w)
                             | None => OpenBucket c output (si_partition i) w
                             end in
              match r with
              | Err err => Some (failInput c err i w)
              | Ok r =>
                  let '(record, r, w) := ReadRecord c r w in
                  let i := si_state i (si_next i) (Some r) (si_closed i) in
                  match record with
                  | Ok None =>
                      let '(e, i, w) := closeShuffleReader i w in
                      match e with
                      | Some err => Some (failInput c err i w)
                      | None =>
                          nextShuffleLoop fuel c (si_state i (S (si_next i)) (si_reader i) (si_closed i)) w
                      end
                  | Err err => Some (failInput c err i w)
                  | Ok (Some (key, value)) => Some (Ok (Some (AKeyValue key value)), i, w)
                  end
              end
          end
      end
  end.

Definition nextShuffle (c : goContext) (i : shuffleIterator) (w : world)
    : option (result (option any) * shuffleIterator * world) :=
  match si_err i with
  | Some err => Some (Err err, i, w)
  | None =>
      if si_closed i then Some (Ok None, i, w)
      else nextShuffleLoop (S (length (is_Outputs (si_inputs i)) - si_next i)) c i w
  end.

(** ** Iterators *)

Inductive iterator :=
  | textIterator (t : textPartitionIterator)
  | shuffleInput (i : shuffleIterator)
  | mapIterator (input : iterator) (fn : MapFunc)
  | filterIterator (input : iterator) (fn : FilterFunc)
  | pairMapIterator (input : iterator) (fn : PairMapFunc)
  | valueMapIterator (input : iterator) (fn : ValueMapFunc)
  | reduceIterator (input : option iterator) (fn : ReduceFunc) (result : option sliceIterator)
      (err : option error) (closed : bool).

(** [closeIterator] of an iterator that is not nil. *)
Fixpoint closeIterator (i : iterator) (w : world) : option error * iterator * world :=
  match i with
  | textIterator t => let '(t, w) := closeText t w in (None, textIterator t, w)
  | shuffleInput i => let '(e, i, w) := closeShuffle i w in (e, shuffleInput i, w)
  | mapIterator input fn => let '(e, input, w) := closeIterator input w in (e, mapIterator input fn, w)
  | filterIterator input fn => let '(e, input, w) := closeIterator input w in (e, filterIterator input fn, w)
  | pairMapIterator input fn => let '(e, input, w) := closeIterator input w in (e, pairMapIterator input fn, w)
  | valueMapIterator input fn => let '(e, input, w) := closeIterator input w in (e, valueMapIterator input fn, w)
  | reduceIterator input fn _ err _ =>
      match input with
      | None => (None, reduceIterator None fn None err true, w)
      | Some input =>
          let '(e, _, w) := closeIterator input w in (e, reduceIterator None fn None err true, w)
      end
  end.

(** ** Aggregation *)

(** [value, err = fn(previous, value)] when the key exists. *)
Definition combine (label : string) (fn : ReduceFunc) (values : gmap string any) (key : string) (value : any)
    : result (gmap string any) :=
  match values !! key with
  | None => Ok (<[key := value]> values)
  | Some previous =>
      match fn previous value with
      | Err err => Err (Errorf label [FStr key; FWrap err])
      | Ok value => Ok (<[key := value]> values)
      end
  end.

Definition sortedKeys (values : gmap string any) : list string :=
  merge_sort String.le (map_to_list values).*1.

(** A source of records, as the loops below call it. *)
Definition source : Type := iterator -> world -> option (result (option any) * iterator * world).

(** The first loop of [reduceRecords]. *)
Fixpoint reduceLoop (next : source) (fuel : nat) (c : goContext) (fn : ReduceFunc) (input : iterator)
    (values : gmap string any) (w : world) : option (result (gmap string any) * iterator * world) :=
  match fuel with
  | O => None
  | S fuel =>
      let '(e, w) := readCause c w in
      match e with
      | Some err => Some (Err err, input, w)
      | None =>
          '(r, input, w) ← next input w;
          match r with
          | Err err => Some (Err err, input, w)
          | Ok None => Some (Ok values, input, w)
          | Ok (Some (AKeyValue key value)) =>
              match combine "reduce key %q: %w" fn values key value with
              | Err err => Some (Err err, input, w)
              | Ok values => reduceLoop next fuel c fn input values w
              end
          | Ok (Some record) =>
              Some (Err (permanentErrorf "reduce-by-key expected KeyValue, got %T" [FStr (type_name record)]),
                    input, w)
          end
      end
  end.

(** The second loop, over the sorted keys. *)
Fixpoint collectKeys (c : goContext) (values : gmap string any) (keys : list string) (w : world)
    : result (list any) * world :=
  match keys with
  | [] => (Ok [], w)
  | key :: keys =>
      let '(e, w) := readCause c w in
      match e with
      | Some err => (Err err, w)
      | None =>
          let '(r, w) := collectKeys c values keys w in
          (records ← r; Ok (AKeyValue key (default ANil (values !! key)) :: records), w)
      end
  end.

Definition reduceRecords (next : source) (fuel : nat) (c : goContext) (input : iterator) (fn : ReduceFunc)
    (w : world) : option (result (list any) * iterator * world) :=
  '(r, input, w) ← reduceLoop next fuel c fn input ∅ w;
  match r with
  | Err err => Some (Err err, input, w)
  | Ok values => let '(r, w) := collectKeys c values (sortedKeys values) w in Some (r, input, w)
  end.

(** [Next] of a [reduceIterator]: the first call reads the input to its end and closes
    it. *)
Definition nextReduce (next : source) (fuel : nat) (c : goContext) (input : option iterator) (fn : ReduceFunc)
    (result : option sliceIterator) (err : option error) (closed : bool) (w : world)
    : option (Prelude.result (option any) * iterator * world) :=
  let i := reduceIterator input fn result err closed in
  match err with
  | Some err => Some (Err err, i, w)
  | None =>
      if closed : bool then Some (Ok None, i, w)
      else
        match result with
        | Some s => let '(r, s, w) := nextSlice c s w in Some (r, reduceIterator input fn (Some s) None false, w)
        | None =>
            match input with
            | None => Some (Err panic_nil, i, w)
            | Some input =>
                '(r, input, w) ← reduceRecords next fuel c input fn w;
                let '(ce, _, w) := closeIterator input w in
                match errors_Join [match r with Err e => Some e | Ok _ => None end; ce], r with
                | Some err, _ => Some (Err err, reduceIterator None fn None (Some err) false, w)
                | None, Ok records =>
                    let '(r, s, w) := nextSlice c (mkSlice records 0) w in
                    Some (r, reduceIterator None fn (Some s) None false, w)
                | None, Err err => Some (Err err, i, w)
                end
            end
        end
  end.

(** The part of a value map after its input's record. *)
Definition mapValue (fn : ValueMapFunc) (record : any) : result any :=
  match record with
  | AKeyValue key value => value ← fn value; Ok (AKeyValue key value)
  | _ => Err (permanentErrorf "map-values expected KeyValue, got %T" [FStr (type_name record)])
  end.

Definition pairRecord (fn : PairMapFunc) (record : any) : result any :=
  pair ← fn record; Ok (AKeyValue pair.1 pair.2).

(** A record-to-record step applied to what the input returned. *)
Definition mapResult (fn : any -> result any) (r : result (option any)) : result (option any) :=
  match r with
  | Ok (Some record) => record ← fn record; Ok (Some record)
  | r => r
  end.

Fixpoint Next (c : goContext) (fuel : nat) (i : iterator) (w : world) {struct fuel}
    : option (result (option any) * iterator * world) :=
  match fuel with
  | O => None
  | S fuel =>
      match i with
      | textIterator t => let '(r, t, w) := nextText c t w in Some (r, textIterator t, w)
      | shuffleInput i => '(r, i, w) ← nextShuffle c i w; Some (r, shuffleInput i, w)
      | mapIterator input fn =>
          '(r, input, w) ← Next c fuel input w; Some (mapResult fn r, mapIterator input fn, w)
      | pairMapIterator input fn =>
          '(r, input, w) ← Next c fuel input w; Some (mapResult (pairRecord fn) r, pairMapIterator input fn, w)
      | valueMapIterator input fn =>
          '(r, input, w) ← Next c fuel input w; Some (mapResult (mapValue fn) r, valueMapIterator input fn, w)
      | filterIterator input fn =>
          '(r, input, w) ← Next c fuel input w;
          match r with
          | Ok (Some record) =>
              match fn record with
              | Err err => Some (Err err, filterIterator input fn, w)
              | Ok true => Some (Ok (Some record), filterIterator input fn, w)
              | Ok false => Next c fuel (filterIterator input fn) w
              end
          | r => Some (r, filterIterator input fn, w)
          end
      | reduceIterator input fn result err closed => nextReduce (Next c fuel) fuel c input fn result err closed w
      end
  end.

End iterators.
