(* ===== verification/IteratorProofs.v ===== *)
(** * IteratorProofs: what iterators return

    The meaning of an iterator is the stream of records it returns under a
    context that does not end, with the error that stops it, if any.  [Next]
    returns the head of that stream, never skips or invents a record, and keeps
    the count of open handles right. *)

From S2P Require Import Prelude Bytes Reports Shuffle Runtime TextSource Iterator.
#[local] Open Scope Z_scope.

(** ** Streams *)

(** Records, and the error after them unless they just end. *)
Definition stream : Type := list any * option error.

Definition cons_stream (v : any) (s : stream) : stream := (v :: s.1, s.2).

(** A record-to-record step: the first record it fails on ends the stream. *)
Fixpoint map_records (fn : any -> result any) (l : list any) (e : option error) : stream :=
  match l with
  | [] => ([], e)
  | v :: l => match fn v with Ok v' => cons_stream v' (map_records fn l e) | Err x => ([], Some x) end
  end.

Fixpoint filter_records (fn : FilterFunc) (l : list any) (e : option error) : stream :=
  match l with
  | [] => ([], e)
  | v :: l =>
      match fn v with
      | Ok true => cons_stream v (filter_records fn l e)
      | Ok false => filter_records fn l e
      | Err x => ([], Some x)
      end
  end.

Fixpoint fold_records (fn : ReduceFunc) (values : gmap string any) (l : list any) : result (gmap string any) :=
  match l with
  | [] => Ok values
  | AKeyValue key value :: l => values ← combine "reduce key %q: %w" fn values key value; fold_records fn values l
  | v :: _ => Err (permanentErrorf "reduce-by-key expected KeyValue, got %T" [FStr (type_name v)])
  end.

Definition sorted_records (values : gmap string any) : list any :=
  (fun key => AKeyValue key (default ANil (values !! key))) <$> sortedKeys values.

Definition reduce_records (fn : ReduceFunc) (s : stream) : stream :=
  match fold_records fn ∅ s.1, s.2 with
  | Err x, _ => ([], Some (EJoin [x]))
  | Ok _, Some x => ([], Some (EJoin [x]))
  | Ok values, None => (sorted_records values, None)
  end.

Definition map_stream (fn : any -> result any) (s : stream) : stream := map_records fn s.1 s.2.
Definition filter_stream (fn : FilterFunc) (s : stream) : stream := filter_records fn s.1 s.2.

(** ** What a store promises *)

(** Some read of the context sees it ended. *)
Definition cancelled (c : goContext) : Prop :=
  exists k, is_Some (ctx_Err c k) \/ is_Some (ctx_Cause c k).

(** [reads s] is the part of a store's state that its readers and writers see:
    the published and private files, not the count of open handles.  In it,
    [bucket v o p] is what reading bucket [p] of output [o] returns, [unread v r]
    what reader [r] has still to return, and [reader_handles r] is 1 while it
    holds a file.  [taken v a]: an output of attempt [a] is published.
    [store_faults]: some operation of the underlying storage fails. *)
Class StoreReads (SS : ShuffleStore) := {
  view : Type;
  reads : store -> view;
  bucket : view -> MapOutput -> PartitionID -> list (string * any) * option error;
  unread : view -> reader -> list (string * any) * option error;
  reader_handles : reader -> Z;
  taken : view -> AttemptIdentity -> Prop;
  store_faults : Prop;
  open_spec c o p w r w' : OpenBucket c o p w = (r, w') ->
    reads (rt_store w') = reads (rt_store w) /\
    match r with
    | Ok rd => unread (reads (rt_store w)) rd = bucket (reads (rt_store w)) o p /\
               rt_open w' = rt_open w + reader_handles rd
    | Err e => rt_open w' = rt_open w /\
               (cancelled c \/ store_faults \/ bucket (reads (rt_store w)) o p = ([], Some e))
    end;
  read_spec c rd w r rd' w' : ReadRecord c rd w = (r, rd', w') ->
    reads (rt_store w') = reads (rt_store w) /\
    rt_open w' - reader_handles rd' = rt_open w - reader_handles rd /\
    match r with
    | Ok (Some kv) => exists l e, unread (reads (rt_store w)) rd = (kv :: l, e) /\
                                  unread (reads (rt_store w)) rd' = (l, e)
    | Ok None => unread (reads (rt_store w)) rd = ([], None)
    | Err e => cancelled c \/ store_faults \/ unread (reads (rt_store w)) rd = ([], Some e)
    end;
  close_spec rd w e rd' w' : CloseReader rd w = (e, rd', w') ->
    (e = None \/ store_faults) /\ reads (rt_store w') = reads (rt_store w) /\ rt_open w' = rt_open w - reader_handles rd }.

Section meaning.
Context {SS : ShuffleStore} {SR : StoreReads SS}.

Notation world := (runtime store).
Notation rt_reads w := (reads (rt_store w)).

(** The context ends or the storage fails at some point. *)
Definition disturbed (c : goContext) : Prop := cancelled c \/ store_faults.

Lemma Err_disturbed c k e : ctx_Err c k = Some e -> disturbed c.
Proof. intros H. left. exists k. left. by rewrite H. Qed.

Lemma Cause_disturbed c k e : ctx_Cause c k = Some e -> disturbed c.
Proof. intros H. left. exists k. right. by rewrite H. Qed.

(** ** The meaning of an iterator *)

Definition record_of (kv : string * any) : any := AKeyValue kv.1 kv.2.

(** The error an input's failure becomes while the context lives. *)
Definition input_failure (o : MapOutput) (p : PartitionID) (err : error) : error :=
  if errors_Is err context_Canceled || errors_Is err context_DeadlineExceeded || errors_Is err ErrShuffleInput
  then err else InputError (mo_Attempt o) p err.

(** A bucket's records and then, unless it fails, those of the next ones. *)
Definition bucket_stream (o : MapOutput) (p : PartitionID) (b : list (string * any) * option error)
    (rest : stream) : stream :=
  match b.2 with
  | Some e => (record_of <$> b.1, Some (EJoin [input_failure o p e]))
  | None => ((record_of <$> b.1) ++ rest.1, rest.2)
  end.

Fixpoint buckets_stream (s : view) (p : PartitionID) (outputs : list MapOutput) : stream :=
  match outputs with
  | [] => ([], None)
  | o :: outputs => bucket_stream o p (bucket s o p) (buckets_stream s p outputs)
  end.

Definition shuffle_stream (s : view) (i : shuffleIterator) : stream :=
  match si_err i with
  | Some e => ([], Some e)
  | None =>
      if si_closed i then ([], None)
      else
        match drop (si_next i) (is_Outputs (si_inputs i)), si_reader i with
        | o :: outputs, Some r => bucket_stream o (si_partition i) (unread s r) (buckets_stream s (si_partition i) outputs)
        | outputs, _ => buckets_stream s (si_partition i) outputs
        end
  end.

Fixpoint stream_of (s : view) (i : iterator) : stream :=
  match i with
  | textIterator t => (text_records t, None)
  | shuffleInput i => shuffle_stream s i
  | mapIterator input fn => map_stream fn (stream_of s input)
  | filterIterator input fn => filter_stream fn (stream_of s input)
  | pairMapIterator input fn => map_stream (pairRecord fn) (stream_of s input)
  | valueMapIterator input fn => map_stream (mapValue fn) (stream_of s input)
  | reduceIterator input fn result err closed =>
      match err, closed, result, input with
      | Some e, _, _, _ => ([], Some e)
      | None, true, _, _ => ([], None)
      | None, false, Some r, _ => (drop (sl_next r) (sl_records r), None)
      | None, false, None, Some input => reduce_records fn (stream_of s input)
      | None, false, None, None => ([], Some panic_nil)
      end
  end.

(** The handles an iterator holds. *)
Definition shuffle_handles (i : shuffleIterator) : Z :=
  match si_reader i with Some r => reader_handles r | None => 0 end.

Fixpoint handles (i : iterator) : Z :=
  match i with
  | textIterator t => text_handles t
  | shuffleInput i => shuffle_handles i
  | mapIterator input _ | filterIterator input _ | pairMapIterator input _ | valueMapIterator input _ =>
      handles input
  | reduceIterator input _ _ _ _ => match input with Some input => handles input | None => 0 end
  end.

Fixpoint iter_ok (i : iterator) : Prop :=
  match i with
  | textIterator t => text_ok t
  | shuffleInput i => True
  | mapIterator input _ | filterIterator input _ | pairMapIterator input _ | valueMapIterator input _ =>
      iter_ok input
  | reduceIterator input _ _ _ _ => match input with Some input => iter_ok input | None => True end
  end.

(** Fuel that is enough for one call of [Next]. *)
Fixpoint cost (s : view) (i : iterator) : nat :=
  match i with
  | textIterator _ | shuffleInput _ => 1
  | mapIterator input _ | pairMapIterator input _ | valueMapIterator input _ => S (cost s input)
  | filterIterator input _ => S (cost s input + length (stream_of s input).1)
  | reduceIterator (Some input) _ None None false => S (cost s input + S (length (stream_of s input).1))
  | reduceIterator _ _ _ _ _ => 1
  end.

(** What a call of [Next] on [i] returned, from the stream of [i]. *)
Definition returned (c : goContext) (s : view) (i : iterator) (r : result (option any)) (i' : iterator) : Prop :=
  match r with
  | Ok (Some v) => stream_of s i = cons_stream v (stream_of s i') /\ (cost s i' <= cost s i)%nat
  | Ok None => stream_of s i = ([], None)
  | Err e => disturbed c \/ stream_of s i = ([], Some e)
  end.

(** The handles moved from [i] to [i'] and the store is as before. *)
Definition balanced (i : iterator) (w : world) (i' : iterator) (w' : world) : Prop :=
  rt_open w' - handles i' = rt_open w - handles i /\ rt_reads w' = rt_reads w /\ iter_ok i'.

Lemma cons_stream_eq v l e (s : stream) : s = (l, e) -> cons_stream v s = (v :: l, e).
Proof. by intros ->. Qed.

(** ** Shuffle input *)

Lemma closeShuffle_spec i w e i' w' :
  closeShuffle i w = (e, i', w') ->
  (e = None \/ store_faults) /\ shuffle_handles i' = 0 /\ rt_open w' = rt_open w - shuffle_handles i /\ rt_reads w' = rt_reads w.
Proof.
  unfold closeShuffle, closeShuffleReader, shuffle_handles. cbn. destruct (si_reader i) as [r|].
  - destruct (CloseReader r w) as [[e1 r1] w1] eqn:E. intros [= <- <- <-]. apply close_spec in E as (? & ? & ?). done.
  - intros [= <- <- <-]. cbn. split_and!; auto || lia.
Qed.

Lemma failShuffle_spec err i w r i' w' :
  failShuffle err i w = (r, i', w') ->
  (exists x, r = Err x /\ (x = EJoin [err] \/ store_faults)) /\ shuffle_handles i' = 0 /\
  rt_open w' = rt_open w - shuffle_handles i /\ rt_reads w' = rt_reads w.
Proof.
  unfold failShuffle. destruct (closeShuffle i w) as [[e i1] w1] eqn:E. intros [= <- <- <-].
  apply closeShuffle_spec in E as (He & ? & ? & ?). split; [|done]. eexists. split; [done|].
  destruct He as [->|?]; auto.
Qed.

Lemma failInput_spec c err i w o r i' w' :
  is_Outputs (si_inputs i) !! si_next i = Some o -> failInput c err i w = (r, i', w') ->
  (exists x, r = Err x /\ (disturbed c \/ x = EJoin [input_failure o (si_partition i) err])) /\
  shuffle_handles i' = 0 /\ rt_open w' = rt_open w - shuffle_handles i /\ rt_reads w' = rt_reads w.
Proof.
  intros Ho. unfold failInput, inputError, input_failure, readErr. rewrite Ho.
  destruct (ctx_Err c (rt_time w)) as [x|] eqn:Ex.
  - destruct (readCause c (tick w)) as [cause w1] eqn:Ec. injection Ec as <- <-.
    intros ((y & -> & _) & ? & ? & ?)%failShuffle_spec. split_and!; try done. eexists. split; [done|].
    left. by eapply Err_disturbed.
  - destruct (_ || _ || _); intros ((y & -> & Hy) & ? & ? & ?)%failShuffle_spec; (split; [|done]); exists y; (split; [done|]);
      destruct Hy as [->|?]; [by right|left; by right|by right|left; by right].
Qed.

(** One round of the shuffle loop reads from this reader, fresh or not. *)
Lemma shuffle_reader_spec c i w o r w' :
  is_Outputs (si_inputs i) !! si_next i = Some o -> si_err i = None -> si_closed i = false ->
  (match si_reader i with Some r => (Ok r, w) | None => OpenBucket c o (si_partition i) w end) = (r, w') ->
  let rest := buckets_stream (rt_reads w) (si_partition i) (drop (S (si_next i)) (is_Outputs (si_inputs i))) in
  rt_reads w' = rt_reads w /\
  match r with
  | Ok rd =>
      shuffle_stream (rt_reads w) i = bucket_stream o (si_partition i) (unread (rt_reads w) rd) rest /\
      rt_open w' - reader_handles rd = rt_open w - shuffle_handles i
  | Err e =>
      rt_open w' = rt_open w /\ si_reader i = None /\
      (disturbed c \/ shuffle_stream (rt_reads w) i = ([], Some (EJoin [input_failure o (si_partition i) e])))
  end.
Proof.
  intros Ho He Hc Hr. unfold shuffle_stream, shuffle_handles. rewrite He, Hc, (drop_S _ _ _ Ho).
  destruct (si_reader i) as [rd|] eqn:Erd; [by injection Hr as <- <-|].
  apply open_spec in Hr as [Hs Hr]. split; [done|]. destruct r as [rd|e].
  - destruct Hr as [Hu Hopen]. cbn. rewrite Hu. split; [done|lia].
  - destruct Hr as [Hopen Hb]. split; [done|]. split; [done|].
    destruct Hb as [?|[?|Hb]]; [by left; left|by left; right|right]. cbn. by rewrite Hb.
Qed.

Lemma nextShuffleLoop_spec fuel c i w :
  si_err i = None -> si_closed i = false -> (length (is_Outputs (si_inputs i)) - si_next i < fuel)%nat ->
  exists r i' w', nextShuffleLoop fuel c i w = Some (r, i', w') /\
    balanced (shuffleInput i) w (shuffleInput i') w' /\ returned c (rt_reads w) (shuffleInput i) r (shuffleInput i').
Proof.
  revert i w. induction fuel as [|fuel IH]; intros i w He Hc Hlen; [lia|]. cbn.
  destruct (ctx_Cause c (rt_time w)) as [x|] eqn:Ex.
  { destruct (failShuffle x i (tick w)) as [[r i'] w'] eqn:E. apply failShuffle_spec in E as ((y & -> & _) & Hh & Ho & Hs).
    do 3 eexists. split; [done|]. split; [|left; by eapply Cause_disturbed].
    split_and!; cbn in *; [lia|done|done]. }
  destruct (is_Outputs (si_inputs i) !! si_next i) as [o|] eqn:Eo.
  2:{ do 3 eexists. split; [done|]. split; [by split_and!|]. cbn. unfold shuffle_stream.
      rewrite He, Hc, drop_ge by (by apply lookup_ge_None). by destruct (si_reader i). }
  destruct (match si_reader i with Some r => _ | None => _ end) as [r w1] eqn:Er.
  destruct (shuffle_reader_spec c i (tick w) o r w1 Eo He Hc Er) as [Hs1 Hr]. cbn in Hs1, Hr.
  destruct r as [rd|e].
  2:{ destruct Hr as (Hopen & Hn & Hr). destruct (failInput c e i w1) as [[r i'] w'] eqn:E.
      apply (failInput_spec c e i w1 o) in E as ((x & -> & Hx) & Hh & Ho & Hs); [|done].
      do 3 eexists. split; [done|]. split; [split_and!; cbn in *; [lia|congruence|done]|].
      cbn. destruct Hx as [?|Hx]; [by left|]. rewrite Hx. destruct Hr as [?|Hr]; [by left|by right]. }
  destruct Hr as [Hstream Hopen]. destruct (ReadRecord c rd w1) as [[record rd'] w2] eqn:Erd.
  apply read_spec in Erd as (Hs2 & Ho2 & Hread). rewrite Hs1 in Hread, Hs2.
  set (i1 := si_state i (si_next i) (Some rd') (si_closed i)).
  destruct record as [[[key value]|]|e].
  - destruct Hread as (l & e & Hu & Hu'). do 3 eexists. split; [done|].
    split; [split_and!; cbn in *; unfold shuffle_handles in *; cbn; [lia|congruence|done]|].
    cbn. split; [|done]. rewrite Hstream, Hu. unfold shuffle_stream, i1. cbn.
    rewrite He, Hc, (drop_S _ _ _ Eo), Hu'. unfold bucket_stream. by destruct e.
  - destruct (closeShuffleReader i1 w2) as [[ce i2] w3] eqn:Ec. unfold closeShuffleReader in Ec. cbn in Ec.
    destruct (CloseReader rd' w2) as [[e3 rd3] w3'] eqn:Ecl. injection Ec as <- <- <-.
    apply close_spec in Ecl as (He3 & Hs3 & Ho3). cbn.
    destruct e3 as [x|].
    { destruct He3 as [?|Hf]; [done|]. set (i3 := si_state i1 (si_next i) None (si_closed i)).
      destruct (failInput c x i3 w3') as [[r i'] w'] eqn:E.
      apply (failInput_spec c x i3 w3' o) in E as ((y & -> & Hy) & Hh & Ho & Hs); [|done].
      do 3 eexists. split; [done|]. split; [|left; by right].
      split_and!; cbn in *; unfold shuffle_handles in *; cbn in *; [lia|congruence|done]. }
    destruct (IH (si_state i (S (si_next i)) None (si_closed i)) w3') as (r & i' & w' & Heq & Hbal & Hret);
      [done|done|cbn; apply lookup_lt_Some in Eo; lia|].
    exists r, i', w'. split; [exact Heq|].
    assert (Hst : shuffle_stream (rt_reads w) i
                  = shuffle_stream (rt_reads w) (si_state i (S (si_next i)) None (si_closed i))).
    { rewrite Hstream, Hread. unfold shuffle_stream, bucket_stream. cbn. rewrite He, Hc. cbn.
      destruct (drop _ _); [done|]. symmetry. apply surjective_pairing. }
    assert (Hsw : rt_reads w3' = rt_reads w) by congruence. rewrite Hsw in Hret. split.
    + destruct Hbal as (Hb & Hs & _). split_and!; [|congruence|done]. cbn in *. unfold shuffle_handles in *.
      cbn in *. lia.
    + unfold returned in *. cbn [stream_of cost] in *. by rewrite Hst.
  - destruct (failInput c e i1 w2) as [[r i'] w'] eqn:E.
    apply (failInput_spec c e i1 w2 o) in E as ((x & -> & Hx) & Hh & Ho & Hs); [|done].
    do 3 eexists. split; [done|]. split.
    + split_and!; cbn in *; unfold shuffle_handles in *; cbn in *; [lia|congruence|done].
    + cbn. destruct Hx as [?|Hx]; [by left|]. rewrite Hx. destruct Hread as [?|[?|Hu]]; [by left; left|by left; right|]. right.
      rewrite Hstream, Hu. done.
Qed.

Lemma nextShuffle_spec c i w :
  exists r i' w', nextShuffle c i w = Some (r, i', w') /\
    balanced (shuffleInput i) w (shuffleInput i') w' /\ returned c (rt_reads w) (shuffleInput i) r (shuffleInput i').
Proof.
  unfold nextShuffle. destruct (si_err i) as [e|] eqn:Ee.
  { do 3 eexists. split; [done|]. split; [by split_and!|]. right. cbn. unfold shuffle_stream. by rewrite Ee. }
  destruct (si_closed i) eqn:Ec; [|apply nextShuffleLoop_spec; [done|done|lia]].
  do 3 eexists. split; [done|]. split; [by split_and!|]. cbn. unfold shuffle_stream. by rewrite Ee, Ec.
Qed.

(** ** Closing *)

Lemma closeIterator_spec i : forall w e i' w',
  closeIterator i w = (e, i', w') ->
  (e = None \/ store_faults) /\ handles i' = 0 /\ rt_open w' = rt_open w - handles i /\ rt_reads w' = rt_reads w.
Proof.
  revert i. fix IH 1. intros [t|s|i fn|i fn|i fn|i fn|[i|] fn result err closed] w e i' w'; cbn.
  - destruct (closeText t w) as [t' w1] eqn:E. intros [= <- <- <-].
    pose proof (closeText_spec _ _ _ _ E) as (Hd & Ho & Hs). cbn. unfold text_handles at 1.
    rewrite Hd, Hs. split; [by left|done].
  - destruct (closeShuffle s w) as [[e1 s1] w1] eqn:E. intros [= <- <- <-].
    by apply closeShuffle_spec in E.
  - destruct (closeIterator i w) as [[e1 i1] w1] eqn:E. intros [= <- <- <-]. by apply IH in E.
  - destruct (closeIterator i w) as [[e1 i1] w1] eqn:E. intros [= <- <- <-]. by apply IH in E.
  - destruct (closeIterator i w) as [[e1 i1] w1] eqn:E. intros [= <- <- <-]. by apply IH in E.
  - destruct (closeIterator i w) as [[e1 i1] w1] eqn:E. intros [= <- <- <-]. by apply IH in E.
  - destruct (closeIterator i w) as [[e1 i1] w1] eqn:E. intros [= <- <- <-].
    apply IH in E as (? & ? & ? & ?). by split_and!.
  - intros [= <- <- <-]. split_and!; auto || lia.
Qed.

(** ** Reductions *)

(** A source that returns a stream: the contract of [Next] below. *)
Definition returns (c : goContext) (next : source) (i : iterator) (w : world) : Prop :=
  exists r i' w', next i w = Some (r, i', w') /\ balanced i w i' w' /\ returned c (rt_reads w) i r i'.

Lemma reduceLoop_spec c next fn fuel n i values w :
  (forall i w, iter_ok i -> (cost (rt_reads w) i <= n)%nat -> returns c next i w) ->
  iter_ok i -> (cost (rt_reads w) i <= n)%nat -> (length (stream_of (rt_reads w) i).1 < fuel)%nat ->
  exists r i' w', reduceLoop next fuel c fn i values w = Some (r, i', w') /\ balanced i w i' w' /\
    match r with
    | Err e => disturbed c \/ fold_records fn values (stream_of (rt_reads w) i).1 = Err e \/
        is_Ok (fold_records fn values (stream_of (rt_reads w) i).1) = true /\
        (stream_of (rt_reads w) i).2 = Some e
    | Ok m => fold_records fn values (stream_of (rt_reads w) i).1 = Ok m /\ (stream_of (rt_reads w) i).2 = None
    end.
Proof.
  intros Hnext. revert i values w. induction fuel as [|fuel IH]; intros i values w Hok Hcost Hlen; [lia|]. cbn.
  destruct (ctx_Cause c (rt_time w)) as [x|] eqn:Ex.
  { do 3 eexists. split; [done|]. split; [by split_and!|]. left. by eapply Cause_disturbed. }
  destruct (Hnext i (tick w) Hok Hcost) as (r & i1 & w1 & Heq & (Ho & Hs & Hok1) & Hret). rewrite Heq.
  cbn in Ho, Hs, Hret |- *. destruct r as [[v|]|e].
  - destruct Hret as [Hst Hc]. rewrite Hst. cbn.
    destruct v as [| | | | | |key value| | | |]; cbn;
      try (do 3 eexists; split; [done|]; split; [by split_and!|]; right; by left).
    destruct (combine _ fn values key value) as [values'|e]; cbn;
      [|do 3 eexists; split; [done|]; split; [by split_and!|]; right; by left].
    destruct (IH i1 values' w1) as (r & i' & w' & Hl & (Ho' & Hs' & Hok') & Hr); rewrite ?Hs; try done; [lia|..].
    { rewrite Hst in Hlen. cbn in Hlen. lia. }
    rewrite Hs in Hr. exists r, i', w'. split; [done|]. split; [|done].
    split_and!; [lia|congruence|done].
  - do 3 eexists. split; [done|]. split; [by split_and!|]. by rewrite Hret.
  - do 3 eexists. split; [done|]. split; [by split_and!|]. destruct Hret as [?|Hret]; [by left|].
    right. right. by rewrite Hret.
Qed.

Lemma collectKeys_spec c values keys w r w' :
  collectKeys c values keys w = (r, w') ->
  rt_open w' = rt_open w /\ rt_reads w' = rt_reads w /\
  match r with
  | Ok l => l = (fun key => AKeyValue key (default ANil (values !! key))) <$> keys
  | Err _ => disturbed c
  end.
Proof.
  revert w r w'. induction keys as [|k keys IH]; intros w r w'; cbn; [by intros [= <- <-]|].
  destruct (ctx_Cause c (rt_time w)) as [x|] eqn:Ex.
  { intros [= <- <-]. split_and!; try done. by eapply Cause_disturbed. }
  destruct (collectKeys c values keys (tick w)) as [r1 w1] eqn:E. intros [= <- <-].
  apply IH in E as (? & ? & Hr). split_and!; try done. destruct r1; cbn; [by rewrite Hr|done].
Qed.

Lemma reduceRecords_spec c next fn fuel n i w :
  (forall i w, iter_ok i -> (cost (rt_reads w) i <= n)%nat -> returns c next i w) ->
  iter_ok i -> (cost (rt_reads w) i <= n)%nat -> (length (stream_of (rt_reads w) i).1 < fuel)%nat ->
  exists r i' w', reduceRecords next fuel c i fn w = Some (r, i', w') /\ balanced i w i' w' /\
    match r with
    | Err e => disturbed c \/ reduce_records fn (stream_of (rt_reads w) i) = ([], Some (EJoin [e]))
    | Ok l => reduce_records fn (stream_of (rt_reads w) i) = (l, None)
    end.
Proof.
  intros Hnext Hok Hcost Hlen. unfold reduceRecords, reduce_records.
  destruct (reduceLoop_spec c next fn fuel n i ∅ w Hnext Hok Hcost Hlen) as (r & i' & w' & -> & (Ho & Hs & Hok') & Hr).
  cbn. destruct r as [m|e].
  - destruct (collectKeys c m (sortedKeys m) w') as [r w2] eqn:E.
    apply collectKeys_spec in E as (Ho2 & Hs2 & Hr2). destruct Hr as [Hf He].
    do 3 eexists. split; [done|]. split; [split_and!; [lia|congruence|done]|].
    rewrite Hf, He. destruct r as [l|e]; [by rewrite Hr2|by left].
  - do 3 eexists. split; [done|]. split; [by split_and!|].
    destruct Hr as [?|[Hf|[Hf He]]]; [by left|right..].
    + by rewrite Hf.
    + destruct (fold_records fn ∅ _); [|done]. by rewrite He.
Qed.

(** ** The iterators *)

Lemma nextSlice_spec c s (w : world) r s' w' :
  nextSlice c s w = (r, s', w') ->
  rt_open w' = rt_open w /\ rt_reads w' = rt_reads w /\
  match r with
  | Ok (Some v) => drop (sl_next s) (sl_records s) = v :: drop (sl_next s') (sl_records s')
  | Ok None => drop (sl_next s) (sl_records s) = []
  | Err _ => disturbed c
  end.
Proof.
  unfold nextSlice, readErr. destruct (ctx_Err c (rt_time w)) as [x|] eqn:Ex.
  { intros [= <- <- <-]. split_and!; try done. by eapply Err_disturbed. }
  destruct (sl_records s !! sl_next s) as [v|] eqn:E; intros [= <- <- <-]; split_and!; try done; cbn.
  - by apply drop_S.
  - by apply drop_ge, lookup_ge_None.
Qed.

(** The three iterators that map records. *)
Lemma map_returned c s fn input input' r (wrap : iterator -> iterator) :
  (forall i, stream_of s (wrap i) = map_stream fn (stream_of s i)) ->
  (forall i, cost s (wrap i) = S (cost s i)) ->
  returned c s input r input' -> returned c s (wrap input) (mapResult fn r) (wrap input').
Proof.
  intros Hst Hc. unfold returned, mapResult. destruct r as [[v|]|e]; rewrite ?Hst, ?Hc.
  - intros [-> Hle]. unfold map_stream. cbn. destruct (fn v) as [v'|e]; cbn; [|by right].
    by split; [|lia].
  - by intros ->.
  - intros [?| ->]; [by left|by right].
Qed.

Lemma filter_returned c s fn input input' r :
  returned c s input r input' ->
  match r with
  | Ok (Some v) =>
      match fn v with
      | Err e => returned c s (filterIterator input fn) (Err e) (filterIterator input' fn)
      | Ok true => returned c s (filterIterator input fn) r (filterIterator input' fn)
      | Ok false =>
          stream_of s (filterIterator input fn) = stream_of s (filterIterator input' fn) /\
          (S (cost s (filterIterator input' fn)) <= cost s (filterIterator input fn))%nat
      end
  | r => returned c s (filterIterator input fn) r (filterIterator input' fn)
  end.
Proof.
  unfold returned. destruct r as [[v|]|e]; cbn.
  - intros [-> Hle]. unfold filter_stream. cbn. destruct (fn v) as [[]|e]; cbn; [|split; [done|lia]|by right].
    by split; [|lia].
  - by intros ->.
  - intros [?| ->]; [by left|by right].
Qed.

Lemma reduce_fresh_returned c fuel input fn w :
  (forall i w, iter_ok i -> (cost (rt_reads w) i <= fuel)%nat -> returns c (Next c fuel) i w) ->
  iter_ok input -> (cost (rt_reads w) (reduceIterator (Some input) fn None None false) <= S fuel)%nat ->
  returns c (Next c (S fuel)) (reduceIterator (Some input) fn None None false) w.
Proof.
  intros Hnext Hok Hcost. cbn in Hcost.
  destruct (reduceRecords_spec c (Next c fuel) fn fuel fuel input w Hnext Hok) as (r & i' & w1 & Heq & (Ho & Hs & Hok') & Hr);
    [lia|lia|].
  unfold returns. cbn [Next nextReduce]. rewrite Heq. cbn [mbind option_bind].
  destruct (closeIterator i' w1) as [[ce i2] w2] eqn:Ec.
  apply closeIterator_spec in Ec as (Hce & Hh2 & Ho2 & Hs2). destruct ce as [x|].
  { destruct Hce as [?|Hf]; [done|]. destruct r as [l|e]; cbn -[nextSlice];
      (do 3 eexists; split; [done|]; split; [split_and!; cbn; [lia|congruence|done]|left; by right]). }
  destruct r as [l|e]; cbn -[nextSlice].
  - destruct (nextSlice c (mkSlice l 0) w2) as [[r s] w3] eqn:En.
    apply nextSlice_spec in En as (Ho3 & Hs3 & Hr3). do 3 eexists. split; [done|].
    split; [by split_and!; cbn; [lia|congruence|done]|]. unfold returned. cbn. rewrite Hr. cbn in Hr3.
    destruct r as [[v|]|e].
    + rewrite drop_0 in Hr3. rewrite Hr3. by split; [|lia].
    + rewrite drop_0 in Hr3. by rewrite Hr3.
    + by left.
  - do 3 eexists. split; [done|]. split; [split_and!; cbn; [lia|congruence|done]|]. cbn.
    by destruct Hr as [?|Hr]; [left|right].
Qed.

Lemma reduce_returned c fuel input fn result err closed w :
  (forall i w, iter_ok i -> (cost (rt_reads w) i <= fuel)%nat -> returns c (Next c fuel) i w) ->
  iter_ok (reduceIterator input fn result err closed) ->
  (cost (rt_reads w) (reduceIterator input fn result err closed) <= S fuel)%nat ->
  returns c (Next c (S fuel)) (reduceIterator input fn result err closed) w.
Proof.
  intros Hnext Hok Hcost. destruct err as [e|].
  { do 3 eexists. split; [done|]. split; [by split_and!|]. by right. }
  destruct closed; [do 3 eexists; split; [done|]; by split; [by split_and!|]|].
  destruct result as [s|].
  - unfold returns. cbn [Next nextReduce]. destruct (nextSlice c s w) as [[r s'] w'] eqn:E.
    apply nextSlice_spec in E as (Ho & Hs & Hr). do 3 eexists. split; [done|].
    split; [split_and!; cbn; [lia|done|done]|]. unfold returned. cbn. destruct r as [[v|]|e].
    + rewrite Hr. split; [done|]. by destruct input.
    + by rewrite Hr.
    + by left.
  - destruct input as [input|]; [by apply reduce_fresh_returned|].
    do 3 eexists. split; [done|]. split; [by split_and!|]. by right.
Qed.

(** The contract of [Next], on enough fuel. *)
Lemma Next_returns c fuel i w :
  iter_ok i -> (cost (rt_reads w) i <= fuel)%nat -> returns c (Next c fuel) i w.
Proof.
  revert i w. induction fuel as [|fuel IH]; intros i w Hok Hcost.
  { by destruct i as [| | | | | |[] ? [] [] []]; cbn in Hcost; try lia. }
  assert (Hmap : forall input fn (wrap : iterator -> iterator),
    (forall i, stream_of (rt_reads w) (wrap i) = map_stream fn (stream_of (rt_reads w) i)) ->
    (forall i, cost (rt_reads w) (wrap i) = S (cost (rt_reads w) i)) ->
    (forall i, handles (wrap i) = handles i) -> (forall i, iter_ok (wrap i) = iter_ok i) ->
    (forall w, Next c (S fuel) (wrap input) w
       = ('(r, input, w) ← Next c fuel input w; Some (mapResult fn r, wrap input, w))) ->
    iter_ok (wrap input) -> (cost (rt_reads w) (wrap input) <= S fuel)%nat ->
    returns c (Next c (S fuel)) (wrap input) w).
  { intros input fn wrap Hst Hc Hh Hk HN Hok' Hcost'. rewrite Hk in Hok'. rewrite Hc in Hcost'.
    destruct (IH input w Hok' ltac:(lia)) as (r & i' & w' & Heq & (Ho & Hs & Hok1) & Hret).
    unfold returns. rewrite HN, Heq. do 3 eexists. split; [done|]. split; [|by eapply map_returned].
    split_and!; rewrite ?Hh, ?Hk; done. }
  destruct i as [t|s|i fn|i fn|i fn|i fn|input fn result err closed].
  - unfold returns. cbn. destruct (nextText c t w) as [[r t'] w'] eqn:E.
    pose proof (nextText_ok _ _ _ _ _ _ Hok E) as Hok'.
    apply nextText_spec in E as (Ho & Hs & Hr); [|done]. do 3 eexists. split; [done|].
    split; [by split_and!; rewrite ?Hs|]. destruct r as [[v|]|e]; unfold returned; cbn; unfold text_records.
    + destruct Hr as (x & -> & -> & _). done.
    + by destruct Hr as [-> _].
    + left. destruct Hr as [He _]. by eapply Err_disturbed.
  - unfold returns. cbn. destruct (nextShuffle_spec c s w) as (r & s' & w' & -> & Hb & Hr).
    do 3 eexists. split; [done|]. by split.
  - by apply (Hmap i fn (fun i => mapIterator i fn)).
  - destruct (IH i w Hok) as (r & i' & w' & Heq & (Ho & Hs & Hok') & Hret); [cbn in Hcost; lia|].
    apply (filter_returned c _ fn) in Hret. unfold returns. cbn [Next]. rewrite Heq. cbn [mbind option_bind].
    destruct r as [[v|]|e]; [|do 3 eexists; split; [done|]; by split..].
    destruct (fn v) as [[]|e]; [do 3 eexists; split; [done|]; by split| |do 3 eexists; split; [done|]; by split].
    destruct Hret as [Hst Hle].
    destruct (IH (filterIterator i' fn) w') as (r2 & i2 & w2 & -> & (Ho2 & Hs2 & Hok2) & Hret2);
      [done|rewrite Hs; lia|].
    do 3 eexists. split; [done|]. split; [split_and!; cbn in *; [lia|congruence|done]|].
    rewrite Hs in Hret2. unfold returned in *. rewrite Hst. destruct r2 as [[v2|]|e2]; [|done..].
    destruct Hret2. by split; [|lia].
  - by apply (Hmap i (pairRecord fn) (fun i => pairMapIterator i fn)).
  - by apply (Hmap i (mapValue fn) (fun i => valueMapIterator i fn)).
  - by apply reduce_returned.
Qed.

End meaning.
