(* ===== verification/Runner.v ===== *)
(** * Runner: executing one task

    Models [executor/{pipeline,shuffle_map,shuffle_read,local_runner}.go]: the
    pipeline of a task is built from its operations and pulled, into an action's
    output for a result task, into the buckets of a shuffle writer for a map
    task. *)

From S2P Require Import Prelude Bytes Plan Stages Shuffle Reports Runtime TextSource Iterator.
#[local] Open Scope Z_scope.

(** ** Error identity *)

(** Go compares error values by identity; two errors that are built alike are
    taken to be the same one. *)
Fixpoint error_eqb (e f : error) {struct e} : bool :=
  match e, f with
  | Errorf s args, Errorf s' args' =>
      bool_decide (s = s') &&
      (fix all (l l' : list farg) := match l, l' with
         | [], [] => true
         | a :: l, a' :: l' => farg_eqb a a' && all l l'
         | _, _ => false
         end) args args'
  | Sentinel s, Sentinel s' => bool_decide (s = s')
  | EJoin es, EJoin es' =>
      (fix all (l l' : list error) := match l, l' with
         | [], [] => true
         | a :: l, a' :: l' => error_eqb a a' && all l l'
         | _, _ => false
         end) es es'
  | PermanentError e, PermanentError e' => error_eqb e e'
  | InputError a p e, InputError a' p' e' => bool_decide (a = a') && (p =? p') && error_eqb e e'
  | _, _ => false
  end
with farg_eqb (a b : farg) {struct a} : bool :=
  match a, b with
  | FStr s, FStr s' => bool_decide (s = s')
  | FInt z, FInt z' => z =? z'
  | FErr e, FErr e' => error_eqb e e'
  | FWrap e, FWrap e' => error_eqb e e'
  | _, _ => false
  end.

(** [errors.Is e target]. *)
Definition errors_Is_error (e target : error) : bool :=
  match errors_find (fun x => if error_eqb x target then Some tt else None) e with
  | Some _ => true
  | None => false
  end.

(** ** Shuffle inputs of a task *)

(** The loop over the operations: the read specification found so far, or an
    error.  [index] is the position of the first of [ops]. *)
Fixpoint findShuffleRead (index : nat) (read : option ShuffleReadSpec) (ops : list StageOperation)
    : result (option ShuffleReadSpec) :=
  match ops with
  | [] => Ok read
  | op :: ops =>
      read ← (if bool_decide (so_Kind op = StageOperationShuffleRead) then
                match index, so_ShuffleRead op, so_RDD op with
                | O, Some r, None => Ok (Some r)
                | _, _, _ => Err (permanentErrorf "shuffle read must be the first operation with a read specification" [])
                end
              else Ok read);
      fail_if (match so_RDD op with
               | Some r => bool_decide (op_Kind (ro_Operator r) = OpReduceByKey) &&
                           (bool_decide (read = None) || negb (index =? 1)%nat)
               | None => false
               end)
        (permanentErrorf "reduce-by-key must immediately follow shuffle read" []);;
      findShuffleRead (S index) read ops
  end.

Definition is_reduce (op : StageOperation) : bool :=
  bool_decide (so_Kind op = StageOperationRDD) &&
  match so_RDD op with
  | Some r => bool_decide (op_Kind (ro_Operator r) = OpReduceByKey)
  | None => false
  end.

(** [hasStore]: the runner's store is not nil. *)
Definition validateShuffleExecution (e : TaskExecution) (hasStore : bool) : result unit :=
  let task := te_Task e in
  read ← findShuffleRead 0 None (t_Operations task);
  match read with
  | None =>
      fail_if (bool_decide (is_Some (te_ShuffleInputs e)))
        (permanentErrorf "task without shuffle read must not have shuffle inputs" []);;
      Ok tt
  | Some read =>
      fail_if (negb (bool_decide (t_StageKind task = StageResult)) ||
               bool_decide (is_Some (t_ShuffleWrite task)) || bool_decide (t_FinalAction task = None))
        (permanentErrorf "shuffle read requires a result task" []);;
      fail_if (negb (match t_Operations task !! 1%nat with Some op => is_reduce op | None => false end))
        (permanentErrorf "shuffle read must be followed by reduce-by-key" []);;
      match te_ShuffleInputs e with
      | None => Err (permanentErrorf "shuffle read requires a store and input snapshot" [])
      | Some inputs =>
          fail_if (negb hasStore) (permanentErrorf "shuffle read requires a store and input snapshot" []);;
          _ ← validateSnapshot inputs;
          fail_if (negb (bool_decide (is_RunID inputs = te_RunID e)) ||
                   negb (is_JobID inputs =? te_JobID e)%N || negb (is_ShuffleID inputs =? sr_ShuffleID read)%N)
            (permanentErrorf "shuffle input does not match task run, job or shuffle" []);;
          fail_if (negb (bool_decide (pt_Kind (sr_Partitioner read) = PartitionerHash)) ||
                   negb (pt_NumPartitions (sr_Partitioner read) =? is_NumReducePartitions inputs) ||
                   negb (t_NumPartitions task =? is_NumReducePartitions inputs) ||
                   (t_PartitionID task <? 0) || (t_NumPartitions task <=? t_PartitionID task))
            (permanentErrorf "shuffle input does not match task partitioning" []);;
          Ok tt
      end
  end.

Section runner.
Context `{SS : ShuffleStore}.

Notation world := (runtime store).

(** [lr_sources] reads text files; [lr_shuffleStore] says the store is not nil.
    The channel of permits is nil exactly when [lr_maxConcurrency] is not
    positive; a nil context and a nil runner are left out. *)
Record LocalRunner := mkRunner {
  lr_registry : option FunctionRegistry;
  lr_sources : option (string -> result (list N));
  lr_maxConcurrency : Z;
  lr_shuffleStore : bool }.

(** [TextSourceReader] reads the files of the machine. *)
Definition NewLocalRunner (TextSourceReader : string -> result (list N)) (registry : option FunctionRegistry)
    (sources : option (string -> result (list N))) (maxConcurrency : Z) (withShuffleStore : bool) : LocalRunner :=
  mkRunner registry (match sources with None => Some TextSourceReader | Some s => Some s end)
    maxConcurrency withShuffleStore.

Definition sources (r : LocalRunner) : string -> result (list N) :=
  default (fun _ => Err panic_nil) (lr_sources r).

(** ** The pipeline *)

Definition operator_name (k : OperatorKind) : string :=
  match k with
  | OpSource => "source"
  | OpMap => "map"
  | OpFilter => "filter"
  | OpMapToPair => "map_to_pair"
  | OpMapValues => "map_values"
  | OpReduceByKey => "reduce_by_key"
  | OpOther s => s
  end.

Definition operation_name (k : StageOperationKind) : string :=
  match k with
  | StageOperationRDD => "rdd"
  | StageOperationShuffleRead => "shuffle_read"
  | StageOperationOther s => s
  end.

(** A narrow operator: its input and its function. *)
Definition narrowStep {F} (kind : OperatorKind) (input : option iterator) (fn : result F)
    (wrap : iterator -> F -> iterator) : result iterator :=
  match input with
  | None => Err (match kind with
                 | OpReduceByKey => permanentErrorf "reduce-by-key has no input iterator" []
                 | _ => permanentErrorf "operator %q has no input iterator" [FStr (operator_name kind)]
                 end)
  | Some input => fn ← fn; Ok (wrap input fn)
  end.

(** The body of the loop of [buildTaskIterator]. *)
Definition buildStep (files : string -> result (list N)) (c : goContext) (e : TaskExecution)
    (registry : FunctionRegistry) (input : option iterator) (op : StageOperation) (w : world)
    : result iterator * world :=
  if bool_decide (so_Kind op = StageOperationShuffleRead) then
    (match te_ShuffleInputs e with
     | None => Err panic_nil
     | Some inputs => Ok (shuffleInput (mkShuffleIterator inputs (t_PartitionID (te_Task e)) 0 None false None))
     end, w)
  else
    match so_Kind op, so_RDD op with
    | StageOperationRDD, Some r =>
        let operator := ro_Operator r in
        let id := op_FunctionID operator in
        match op_Kind operator with
        | OpSource =>
            match input with
            | Some _ => (Err (permanentErrorf "source must be the first pipeline operation" []), w)
            | None =>
                let '(t, w) := openText files c (op_SourcePath operator) (t_PartitionID (te_Task e))
                                 (t_NumPartitions (te_Task e)) w in
                (t ← t; Ok (textIterator t), w)
            end
        | OpMap => (narrowStep OpMap input (lookupMap registry id) mapIterator, w)
        | OpFilter => (narrowStep OpFilter input (lookupFilter registry id) filterIterator, w)
        | OpMapToPair => (narrowStep OpMapToPair input (lookupPairMap registry id) pairMapIterator, w)
        | OpMapValues => (narrowStep OpMapValues input (lookupValueMap registry id) valueMapIterator, w)
        | OpReduceByKey =>
            (narrowStep OpReduceByKey input (lookupReduce registry id)
               (fun input fn => reduceIterator (Some input) fn None None false), w)
        | OpOther s => (Err (permanentErrorf "operator %q is not supported by the executor" [FStr s]), w)
        end
    | k, _ => (Err (permanentErrorf "invalid stage operation %q" [FStr (operation_name k)]), w)
    end.

(** [if err != nil { err = errors.Join(err, closeIterator(iterator)) }]. *)
Definition closeOnError (err : error) (input : option iterator) (w : world) : error * world :=
  match input with
  | None => (EJoin [err], w)
  | Some input =>
      let '(ce, _, w) := closeIterator input w in
      (EJoin (err :: match ce with Some x => [x] | None => [] end), w)
  end.

Fixpoint buildOperations (files : string -> result (list N)) (c : goContext) (e : TaskExecution)
    (registry : FunctionRegistry) (input : option iterator) (ops : list StageOperation) (w : world)
    : result iterator * world :=
  match ops with
  | [] =>
      match input with
      | None => (Err (EJoin [permanentErrorf "task has no operations" []]), w)
      | Some input => (Ok input, w)
      end
  | op :: ops =>
      let '(r, w) := buildStep files c e registry input op w in
      match r with
      | Err err => let '(err, w) := closeOnError err input w in (Err err, w)
      | Ok input => buildOperations files c e registry (Some input) ops w
      end
  end.

Definition buildTaskIterator (files : string -> result (list N)) (c : goContext) (e : TaskExecution)
    (registry : FunctionRegistry) (w : world) : result iterator * world :=
  buildOperations files c e registry None (t_Operations (te_Task e)) w.

(** [err = errors.Join(err, closeIterator(iterator))] of a result. *)
Definition closeAfter {A} (r : result A) (i : iterator) (w : world) : result A * world :=
  let '(ce, _, w) := closeIterator i w in
  match errors_Join [match r with Err e => Some e | Ok _ => None end; ce] with
  | Some err => (Err err, w)
  | None => (r, w)
  end.

(** ** Result tasks *)

Definition addResult (action : ActionKind) (record : any) (r : list any * Z) : result (list any * Z) :=
  match action with
  | ActionCollect => Ok (r.1 ++ [record], r.2)
  | ActionCount => Ok (r.1, i64 (r.2 + 1))
  | ActionOther s => Err (permanentErrorf "unsupported action %q" [FStr s])
  end.

(** The loop of [runTask]. *)
Fixpoint collectLoop (fuel : nat) (c : goContext) (action : ActionKind) (i : iterator)
    (acc : list any * Z) (w : world) : option (result (list any * Z) * iterator * world) :=
  match fuel with
  | O => None
  | S fuel =>
      '(r, i, w) ← Next c fuel i w;
      match r with
      | Err err => Some (Err err, i, w)
      | Ok None => Some (Ok acc, i, w)
      | Ok (Some record) =>
          match addResult action record acc with
          | Err err => Some (Err err, i, w)
          | Ok acc => collectLoop fuel c action i acc w
          end
      end
  end.

Definition runTask (fuel : nat) (files : string -> result (list N)) (c : goContext) (e : TaskExecution)
    (registry : FunctionRegistry) (w : world) : option (result (list any * Z) * world) :=
  let task := te_Task e in
  match t_FinalAction task with
  | Some action =>
      if negb (bool_decide (t_StageKind task = StageResult)) then
        Some (Err (permanentErrorf "result task requires a result stage and final action" []), w)
      else if bool_decide (is_Some (t_ShuffleWrite task)) then
        Some (Err (permanentErrorf "result task must not have a shuffle write" []), w)
      else
        let '(i, w) := buildTaskIterator files c e registry w in
        match i with
        | Err err => Some (Err err, w)
        | Ok i =>
            '(r, i, w) ← collectLoop fuel c (act_Kind action) i ([], 0) w;
            Some (closeAfter r i w)
        end
  | None => Some (Err (permanentErrorf "result task requires a result stage and final action" []), w)
  end.

(** ** Map tasks *)

(** The first loop of [writeShuffleRecords]: with a reduce function the records
    are combined, without one they are written as they come. *)
Fixpoint writeLoop (fuel : nat) (c : goContext) (reduce : option ReduceFunc) (i : iterator) (wr : writer)
    (combined : gmap string any) (w : world)
    : option (result (gmap string any) * iterator * writer * world) :=
  match fuel with
  | O => None
  | S fuel =>
      let '(e, w) := readCause c w in
      match e with
      | Some err => Some (Err err, i, wr, w)
      | None =>
          '(r, i, w) ← Next c fuel i w;
          match r with
          | Err err => Some (Err err, i, wr, w)
          | Ok None => Some (Ok combined, i, wr, w)
          | Ok (Some (AKeyValue key value)) =>
              match reduce with
              | None =>
                  let '(e, wr, w) := Write c wr key value w in
                  match e with
                  | Some err => Some (Err err, i, wr, w)
                  | None => writeLoop fuel c reduce i wr combined w
                  end
              | Some fn =>
                  match combine "combine key %q: %w" fn combined key value with
                  | Err err => Some (Err err, i, wr, w)
                  | Ok combined => writeLoop fuel c reduce i wr combined w
                  end
              end
          | Ok (Some record) =>
              Some (Err (permanentErrorf "shuffle write expected KeyValue, got %T" [FStr (type_name record)]), i, wr, w)
          end
      end
  end.

(** The second loop, over the sorted keys. *)
Fixpoint writeKeys (c : goContext) (wr : writer) (combined : gmap string any) (keys : list string) (w : world)
    : option error * writer * world :=
  match keys with
  | [] => (None, wr, w)
  | key :: keys =>
      let '(e, w) := readCause c w in
      match e with
      | Some err => (Some err, wr, w)
      | None =>
          let '(e, wr, w) := Write c wr key (default ANil (combined !! key)) w in
          match e with
          | Some err => (Some err, wr, w)
          | None => writeKeys c wr combined keys w
          end
      end
  end.

Definition writeShuffleRecords (fuel : nat) (c : goContext) (i : iterator) (wr : writer)
    (reduce : option ReduceFunc) (w : world) : option (option error * iterator * writer * world) :=
  '(r, i, wr, w) ← writeLoop fuel c reduce i wr ∅ w;
  match r with
  | Err err => Some (Some err, i, wr, w)
  | Ok combined => let '(e, wr, w) := writeKeys c wr combined (sortedKeys combined) w in Some (e, i, wr, w)
  end.

(** The deferred abort of [runShuffleMap]. *)
Definition abortAfter (c : goContext) (r : result TaskOutput) (wr : writer) (w : world)
    : result TaskOutput * world :=
  let '(ae, _, w) := Abort c wr w in
  (match ae, r with
   | None, r => r
   | Some a, Ok _ => Err (EJoin [a])
   | Some a, Err e => if errors_Is_error e a then Err e else Err (EJoin [e; a])
   end, w).

(** What follows the written records: the output is published unless the
    context has ended. *)
Definition publishOutput (c : goContext) (wr : writer) (w : world) : result TaskOutput * writer * world :=
  let '(cause, w) := readCause c w in
  match cause with
  | Some err => (Err err, wr, w)
  | None =>
      let '(published, wr, w) := Publish c wr w in
      match published with
      | Err err => (Err err, wr, w)
      | Ok published =>
          let '(cause, w) := readCause c w in
          match cause with
          | Some err => (Err err, wr, w)
          | None => (Ok (mkOutput None 0 (Some published)), wr, w)
          end
      end
  end.

(** From the pipeline to the published output, under the open writer. *)
Definition runMapPipeline (fuel : nat) (files : string -> result (list N)) (c : goContext) (e : TaskExecution)
    (registry : FunctionRegistry) (reduce : option ReduceFunc) (wr : writer) (w : world)
    : option (result TaskOutput * writer * world) :=
  let '(i, w) := buildTaskIterator files c e registry w in
  match i with
  | Err err => Some (Err err, wr, w)
  | Ok i =>
      '(err, i, wr, w) ← writeShuffleRecords fuel c i wr reduce w;
      let '(r, w) := closeAfter (match err with Some e => Err e | None => Ok tt end) i w in
      match r with
      | Err err => Some (Err err, wr, w)
      | Ok _ => Some (publishOutput c wr w)
      end
  end.

Definition mapIdentity (e : TaskExecution) (write : ShuffleWriteSpec) : AttemptIdentity :=
  {| ai_RunID := te_RunID e; ai_JobID := te_JobID e; ai_ShuffleID := sw_ShuffleID write;
     ai_StageID := t_StageID (te_Task e); ai_StageAttemptID := ta_StageAttemptID (te_Attempt e);
     ai_TaskID := t_ID (te_Task e); ai_TaskAttemptID := ta_ID (te_Attempt e);
     ai_MapPartitionID := t_PartitionID (te_Task e) |}.

(** The checks of a map task, and its combiner. *)
Definition checkMapTask (r : LocalRunner) (registry : FunctionRegistry) (e : TaskExecution)
    : result (ShuffleWriteSpec * option ReduceFunc) :=
  let task := te_Task e in
  match t_ShuffleWrite task, t_FinalAction task with
  | Some write, None =>
      fail_if ((t_NumPartitions task <=? 0) || (t_PartitionID task <? 0) ||
               (t_NumPartitions task <=? t_PartitionID task))
        (permanentErrorf "invalid map partition %d of %d" [FInt (t_PartitionID task); FInt (t_NumPartitions task)]);;
      fail_if (negb (bool_decide (pt_Kind (sw_Partitioner write) = PartitionerHash)) ||
               (pt_NumPartitions (sw_Partitioner write) <=? 0))
        (permanentErrorf "shuffle write requires a hash partitioner with positive partitions" []);;
      fail_if (negb (lr_shuffleStore r)) (permanentErrorf "shuffle store is not configured" []);;
      if sw_MapSideCombine write then
        fn ← lookupReduce registry (sw_AggregatorID write); Ok (write, Some fn)
      else Ok (write, None)
  | _, _ => Err (permanentErrorf "shuffle-map task requires a shuffle write and no final action" [])
  end.

Definition runShuffleMap (fuel : nat) (r : LocalRunner) (registry : FunctionRegistry) (c : goContext)
    (e : TaskExecution) (w : world) : option (result TaskOutput * world) :=
  match checkMapTask r registry e with
  | Err err => Some (Err err, w)
  | Ok (write, reduce) =>
      let '(wr, w) := Begin c (mapIdentity e write) (t_NumPartitions (te_Task e))
                        (pt_NumPartitions (sw_Partitioner write)) w in
      match wr with
      | Err err => Some (Err err, w)
      | Ok wr =>
          '(output, wr, w) ← runMapPipeline fuel (sources r) c e registry reduce wr w;
          Some (abortAfter c output wr w)
      end
  end.

(** ** Tasks *)

(** A result task, from [runTask] to the output that is reported. *)
Definition runResult (fuel : nat) (r : LocalRunner) (registry : FunctionRegistry) (c : goContext)
    (e : TaskExecution) (w : world) : option (result TaskOutput * world) :=
  '(result, w) ← runTask fuel (sources r) c e registry w;
  match result with
  | Err err => Some (Err err, w)
  | Ok (records, count) =>
      let '(cause, w) := readCause c w in
      match cause, t_FinalAction (te_Task e) with
      | Some err, _ => Some (Err err, w)
      | None, Some a =>
          Some (Ok (mkOutput (if bool_decide (act_Kind a = ActionCollect) then Some records else None) count None), w)
      | None, None => Some (Err panic_nil, w)
      end
  end.

(** What is checked before a permit is asked for. *)
Definition checkRunner (r : LocalRunner) (e : TaskExecution) : result FunctionRegistry :=
  _ ← map_err PermanentError (validateExecution e);
  match lr_registry r with
  | None => Err (permanentErrorf "local runner function registry is nil" [])
  | Some registry =>
      fail_if (match lr_sources r with None => true | Some _ => false end) (permanentErrorf "local runner source reader is nil" []);;
      fail_if (lr_maxConcurrency r <=? 0) (permanentErrorf "local runner concurrency must be positive" []);;
      _ ← map_err PermanentError (validateShuffleExecution e (lr_shuffleStore r));
      Ok registry
  end.

(** [permit] says which case of the [select] is taken when both can be: the
    permit, or the end of the context. *)
Definition RunTask (fuel : nat) (r : LocalRunner) (c : goContext) (permit : bool) (e : TaskExecution)
    (w : world) : option (result TaskOutput * world) :=
  match checkRunner r e with
  | Err err => Some (Err err, w)
  | Ok registry =>
      let '(cause, w) := if permit then (None, w) else readCause c w in
      match cause with
      | Some err => Some (Err err, w)
      | None =>
          let '(cause, w) := readCause c w in
          match cause with
          | Some err => Some (Err err, w)
          | None =>
              if bool_decide (t_StageKind (te_Task e) = StageShuffleMap)
              then runShuffleMap fuel r registry c e w
              else runResult fuel r registry c e w
          end
      end
  end.

End runner.
