(* ===== verification/RunnerProofs.v ===== *)
(** * RunnerProofs: what executing a task computes

    The reference meaning of a task's operations, the correctness of the
    pipeline built from them, and the results of result tasks. *)

From S2P Require Import Prelude Bytes Plan Stages Shuffle Reports Runtime TextSource Iterator IteratorProofs Runner.
#[local] Open Scope Z_scope.

Section pipeline.
Context {SS : ShuffleStore} {SR : StoreReads SS}.

Notation world := (runtime store).
Notation rt_reads w := (reads (rt_store w)).

Variable files : string -> result (list N).

(** File sizes are [int64]. *)
Hypothesis files_fit : forall path data, files path = Ok data -> Z.of_nat (length data) < 2 ^ 63.

(** ** The meaning of a task's operations *)

(** The records of partition [p] of [n] of a text file. *)
Definition source_stream (path : string) (p n : Z) : option stream :=
  match files path with
  | Err _ => None
  | Ok data =>
      if (0 <=? p) && (p <? n) && (n <? 2 ^ 63) && (Z.of_nat (length data) * n <? 2 ^ 63)
      then Some ((fun x => lineRecord x.2) <$> partition_lines data p n, None)
      else None
  end.

(** What an operation makes of the stream of its input, when it is in place and
    its function is registered. *)
Definition op_stream (s : view) (e : TaskExecution) (registry : FunctionRegistry) (input : option stream)
    (op : StageOperation) : option stream :=
  match so_Kind op, so_RDD op with
  | StageOperationShuffleRead, _ =>
      inputs ← te_ShuffleInputs e; Some (buckets_stream s (t_PartitionID (te_Task e)) (is_Outputs inputs))
  | StageOperationRDD, Some r =>
      let id := op_FunctionID (ro_Operator r) in
      match op_Kind (ro_Operator r), input with
      | OpSource, None =>
          source_stream (op_SourcePath (ro_Operator r)) (t_PartitionID (te_Task e)) (t_NumPartitions (te_Task e))
      | OpMap, Some i => fn ← fr_maps registry !! id; Some (map_stream fn i)
      | OpFilter, Some i => fn ← fr_filters registry !! id; Some (filter_stream fn i)
      | OpMapToPair, Some i => fn ← fr_pairMaps registry !! id; Some (map_stream (pairRecord fn) i)
      | OpMapValues, Some i => fn ← fr_valueMaps registry !! id; Some (map_stream (mapValue fn) i)
      | OpReduceByKey, Some i => fn ← fr_reducers registry !! id; Some (reduce_records fn i)
      | _, _ => None
      end
  | _, _ => None
  end.

Fixpoint ops_stream (s : view) (e : TaskExecution) (registry : FunctionRegistry) (input : option stream)
    (ops : list StageOperation) : option stream :=
  match ops with
  | [] => input
  | op :: ops => i ← op_stream s e registry input op; ops_stream s e registry (Some i) ops
  end.

Definition handles_of (input : option iterator) : Z := match input with Some i => handles i | None => 0 end.
Definition input_ok (input : option iterator) : Prop := match input with Some i => iter_ok i | None => True end.

Lemma position_ok data start rest pos :
  position data start = Ok (rest, pos) -> Z.of_nat (length data) < 2 ^ 63 ->
  0 <= pos /\ pos + Z.of_nat (length rest) < 2 ^ 63.
Proof.
  unfold position. intros H Hlen. apply bind_Ok in H as (q & Hq & H).
  destruct (Z.ltb_spec q 0); [done|]. injection H as <- <-. rewrite length_drop. split; [done|].
  destruct (Z.ltb_spec 0 start); [|injection Hq as <-; lia].
  destruct (data !! Z.to_nat (start - 1)) as [b|] eqn:E; [|done]. apply lookup_lt_Some in E.
  destruct (b =? newline)%N; [injection Hq as <-; lia|].
  destruct (readString (drop (Z.to_nat start) data)) as [[f r] eof] eqn:Er. injection Hq as <-.
  assert (length f <= length data - Z.to_nat start)%nat.
  { destruct (decide (drop (Z.to_nat start) data = [])) as [Hn|Hn].
    - rewrite Hn in Er. injection Er as <- <- <-. cbn. lia.
    - apply readString_spec in Er as (Hd & _); [|done]. apply (f_equal length) in Hd.
      rewrite length_drop, length_app in Hd. lia. }
  rewrite i64_id in * by (unfold in_i64; lia). lia.
Qed.

Lemma openText_balance c path p n (w : world) r w' :
  openText files c path p n w = (r, w') ->
  rt_reads w' = rt_reads w /\
  match r with
  | Ok t => text_ok t /\ rt_open w' - text_handles t = rt_open w
  | Err _ => rt_open w' = rt_open w
  end.
Proof.
  unfold openText, readErr. destruct (ctx_Err c (rt_time w)); [by intros [= <- <-]|].
  destruct (_ || _ || _); [by intros [= <- <-]|]. destruct (files path) as [data|] eqn:E; [|by intros [= <- <-]].
  destruct (position _ _) as [[rest pos]|] eqn:Ep; [|by intros [= <- <-]]. intros [= <- <-]. cbn.
  split; [done|]. split; [|lia]. eapply position_ok in Ep; [done|by eapply files_fit].
Qed.

(** A successful open does not depend on the context. *)
Lemma openText_same c c' path p n (w w2 : world) t w' :
  (forall k, ctx_Err c' k = None) ->
  openText files c path p n w = (Ok t, w') -> exists w2', openText files c' path p n w2 = (Ok t, w2').
Proof.
  intros Hc'. unfold openText, readErr. rewrite Hc'. destruct (ctx_Err c (rt_time w)); [done|].
  destruct (_ || _ || _); [done|]. destruct (files path) as [data|]; [|done].
  destruct (position _ _) as [[rest pos]|]; [|done]. intros [= <- <-]. eauto.
Qed.

Lemma openText_stream c path p n (w : world) r w' s :
  source_stream path p n = Some s -> openText files c path p n w = (r, w') ->
  match r with Ok t => (text_records t, None) = s | Err _ => disturbed c end.
Proof.
  unfold source_stream. destruct (files path) as [data|] eqn:E; [|done].
  destruct (_ && _) eqn:Eb; [|done]. rewrite !andb_true_iff, Z.leb_le, !Z.ltb_lt in Eb.
  intros [= <-] H. apply (openText_spec _ _ _ data) in H; [|done|lia..]. destruct H as [_ H].
  destruct r as [t|x].
  - destruct H as (_ & _ & H & _). unfold text_records. by rewrite H.
  - destruct H as [H _]. by eapply Err_disturbed.
Qed.

(** ** Building the pipeline *)

Lemma buildStep_balance c e registry input op (w : world) r w' :
  input_ok input -> buildStep files c e registry input op w = (r, w') ->
  rt_reads w' = rt_reads w /\
  match r with
  | Ok i => iter_ok i /\ (so_Kind op <> StageOperationShuffleRead -> rt_open w' - handles i = rt_open w - handles_of input)
      /\ (so_Kind op = StageOperationShuffleRead -> rt_open w' = rt_open w /\ handles i = 0)
  | Err _ => rt_open w' = rt_open w
  end.
Proof.
  intros Hok. unfold buildStep. case_bool_decide as Hsr.
  { destruct (te_ShuffleInputs e); intros [= <- <-]; cbn; by split_and!. }
  assert (Hn : forall F kind (fn : result F) wrap, (forall i f, handles (wrap i f) = handles i) ->
    (forall i f, iter_ok (wrap i f) = iter_ok i) -> (narrowStep kind input fn wrap, w) = (r, w') ->
    rt_reads w' = rt_reads w /\ match r with
      | Ok i => iter_ok i /\ (so_Kind op <> StageOperationShuffleRead -> rt_open w' - handles i = rt_open w - handles_of input)
          /\ (so_Kind op = StageOperationShuffleRead -> rt_open w' = rt_open w /\ handles i = 0)
      | Err _ => rt_open w' = rt_open w end).
  { intros F kind fn wrap Hh Hk [= <- <-]. split; [done|]. unfold narrowStep. destruct input as [i|]; [|done].
    destruct fn as [f|]; [|done]. cbn. rewrite Hh, Hk. by split_and!. }
  destruct (so_Kind op) eqn:Ek; [|done|by intros [= <- <-]].
  destruct (so_RDD op) as [ro|]; [|by intros [= <- <-]].
  destruct (op_Kind (ro_Operator ro)); try (by apply Hn); [|by intros [= <- <-]].
  destruct input; [by intros [= <- <-]|].
  destruct (openText _ _ _ _ _ w) as [t w1] eqn:Eo. apply openText_balance in Eo as [Hs Ho].
  intros [= <- <-]. split; [done|]. destruct t as [t|]; cbn; [|done]. destruct Ho as [? ?].
  split_and!; [done|lia|done].
Qed.

Definition no_shuffle_read (op : StageOperation) : Prop := so_Kind op <> StageOperationShuffleRead.

Lemma buildStep_narrow_balance c e registry input op (w : world) r w' :
  input_ok input -> (no_shuffle_read op \/ input = None) -> buildStep files c e registry input op w = (r, w') ->
  rt_reads w' = rt_reads w /\
  match r with
  | Ok i => iter_ok i /\ rt_open w' - handles i = rt_open w - handles_of input
  | Err _ => rt_open w' = rt_open w
  end.
Proof.
  intros Hok Hsr H. apply buildStep_balance in H as [Hs Hr]; [|done]. split; [done|]. destruct r as [i|]; [|done].
  destruct Hr as (? & Hn & Hy). split; [done|]. destruct (decide (so_Kind op = StageOperationShuffleRead)) as [E|E].
  - destruct Hsr as [Hsr| ->]; [done|]. destruct (Hy E). cbn. lia.
  - by apply Hn.
Qed.

Lemma closeOnError_balance err input (w : world) err' w' :
  closeOnError err input w = (err', w') ->
  rt_reads w' = rt_reads w /\ rt_open w' = rt_open w - handles_of input.
Proof.
  unfold closeOnError. destruct input as [i|]; [|intros [= <- <-]; cbn; split_and!; done || lia].
  destruct (closeIterator i w) as [[ce i1] w1] eqn:E. intros [= <- <-].
  by apply closeIterator_spec in E as (_ & _ & ? & ?).
Qed.

(** Building keeps the count of handles, whatever goes wrong. *)
Lemma buildOperations_balance c e registry input ops (w : world) r w' :
  input_ok input -> (Forall no_shuffle_read ops \/ input = None /\ Forall no_shuffle_read (tail ops)) ->
  buildOperations files c e registry input ops w = (r, w') ->
  rt_reads w' = rt_reads w /\
  match r with
  | Ok i => iter_ok i /\ rt_open w' - handles i = rt_open w - handles_of input
  | Err _ => rt_open w' = rt_open w - handles_of input
  end.
Proof.
  revert input w r w'. induction ops as [|op ops IH]; intros input w r w' Hok Hsr; cbn.
  { destruct input as [i|]; intros [= <- <-]; cbn; split_and!; done || lia. }
  destruct (buildStep files c e registry input op w) as [r1 w1] eqn:Eb.
  assert (Hstep : no_shuffle_read op \/ input = None).
  { destruct Hsr as [H|[-> _]]; [left; by inversion H|by right]. }
  assert (Hrest : Forall no_shuffle_read ops) by (destruct Hsr as [H|[_ H]]; [by inversion H|done]).
  apply buildStep_narrow_balance in Eb as [Hs1 H1]; [|done|done]. destruct r1 as [i|x].
  - destruct H1 as [Hi Ho]. intros H. apply IH in H as [Hs2 H2]; [|done|by left].
    split; [congruence|]. destruct r as [i2|x]; cbn in *; [|lia]. destruct H2. split; [done|lia].
  - destruct (closeOnError x input w1) as [x2 w2] eqn:Ec. intros [= <- <-].
    apply closeOnError_balance in Ec as (? & ?). split; [congruence|lia].
Qed.

Lemma findShuffleRead_later index read ops read' :
  findShuffleRead (S index) read ops = Ok read' -> Forall no_shuffle_read ops.
Proof.
  revert index read. induction ops as [|op ops IH]; intros index read H; [done|]. cbn in H.
  case_bool_decide as E.
  - by destruct (so_ShuffleRead op), (so_RDD op).
  - cbn in H. destruct (match so_RDD op with Some r => _ | None => _ end); [done|].
    constructor; [done|by eapply IH].
Qed.

Lemma validate_reads e b : validateShuffleExecution e b = Ok tt -> Forall no_shuffle_read (tail (t_Operations (te_Task e))).
Proof.
  unfold validateShuffleExecution. intros H. apply bind_Ok in H as (read & H & _).
  destruct (t_Operations (te_Task e)) as [|op ops]; [done|]. cbn in *. apply bind_Ok in H as (read1 & _ & H).
  destruct (match so_RDD op with Some r => _ | None => _ end); [done|]. by eapply findShuffleRead_later.
Qed.

(** The pipeline that is built does not depend on the context. *)
Lemma buildStep_same c c' e registry input op (w w2 : world) i w' :
  (forall k, ctx_Err c' k = None) -> buildStep files c e registry input op w = (Ok i, w') ->
  exists w2', buildStep files c' e registry input op w2 = (Ok i, w2').
Proof.
  intros Hc'. unfold buildStep. case_bool_decide; [destruct (te_ShuffleInputs e); intros [= <- <-]; eauto|].
  destruct (so_Kind op); [|done|done]. destruct (so_RDD op) as [ro|]; [|done].
  destruct (op_Kind (ro_Operator ro)); try (by intros [= -> <-]; eauto).
  destruct input; [done|]. destruct (openText _ c _ _ _ w) as [[t|x] w1] eqn:Eo; [|done].
  intros [= <- <-]. destruct (openText_same c c' _ _ _ _ w2 _ _ Hc' Eo) as [w2' ->]. eauto.
Qed.

Lemma buildOperations_same c c' e registry input ops (w w2 : world) i w' :
  (forall k, ctx_Err c' k = None) -> buildOperations files c e registry input ops w = (Ok i, w') ->
  exists w2', buildOperations files c' e registry input ops w2 = (Ok i, w2').
Proof.
  intros Hc'. revert input w w2. induction ops as [|op ops IH]; intros input w w2; cbn.
  { destruct input as [j|]; intros [= <- <-]; eauto. }
  destruct (buildStep files c e registry input op w) as [[j|x] w1] eqn:Eb.
  - intros H. destruct (buildStep_same c c' _ _ _ _ _ w2 _ _ Hc' Eb) as [w2' ->]. by eapply IH.
  - by destruct (closeOnError x input w1).
Qed.

(** The pipeline returns the stream its operations mean. *)
Lemma buildStep_stream c e registry input op (w : world) r w' s :
  op_stream (rt_reads w) e registry (stream_of (rt_reads w) <$> input) op = Some s ->
  buildStep files c e registry input op w = (r, w') ->
  match r with Ok i => stream_of (rt_reads w) i = s | Err _ => disturbed c end.
Proof.
  unfold op_stream, buildStep. intros Hs. case_bool_decide as Hk.
  { rewrite Hk in Hs. destruct (te_ShuffleInputs e) as [inputs|]; [|done]. cbn in Hs. injection Hs as <-.
    intros [= <- <-]. cbn. unfold shuffle_stream. cbn. rewrite drop_0. by destruct (is_Outputs inputs). }
  destruct (so_Kind op); [|done|done]. destruct (so_RDD op) as [ro|]; [|done].
  destruct (op_Kind (ro_Operator ro)), input as [i|]; cbn in Hs; try done.
  - destruct (openText _ c _ _ _ w) as [t w1] eqn:Eo. intros [= <- <-].
    eapply openText_stream in Eo; [|done]. by destruct t.
  - unfold lookupMap, lookupIn. destruct (fr_maps registry !! _); [|done]. injection Hs as <-. by intros [= <- <-].
  - unfold lookupFilter, lookupIn. destruct (fr_filters registry !! _); [|done]. injection Hs as <-. by intros [= <- <-].
  - unfold lookupPairMap, lookupIn. destruct (fr_pairMaps registry !! _); [|done]. injection Hs as <-. by intros [= <- <-].
  - unfold lookupValueMap, lookupIn. destruct (fr_valueMaps registry !! _); [|done]. injection Hs as <-. by intros [= <- <-].
  - unfold lookupReduce, lookupIn. destruct (fr_reducers registry !! _); [|done]. injection Hs as <-. by intros [= <- <-].
Qed.

Lemma buildOperations_stream c e registry input ops (w : world) r w' s :
  input_ok input -> (Forall no_shuffle_read ops \/ input = None /\ Forall no_shuffle_read (tail ops)) ->
  ops_stream (rt_reads w) e registry (stream_of (rt_reads w) <$> input) ops = Some s ->
  buildOperations files c e registry input ops w = (r, w') ->
  match r with Ok i => stream_of (rt_reads w) i = s | Err _ => disturbed c end.
Proof.
  revert input w. induction ops as [|op ops IH]; intros input w Hok Hsr; cbn.
  { destruct input as [i|]; cbn; [|done]. intros [= <-]. by intros [= <- <-]. }
  destruct (op_stream _ _ _ _ op) as [s1|] eqn:Es; [|done]. cbn. intros Hs.
  assert (Hstep : no_shuffle_read op \/ input = None).
  { destruct Hsr as [H|[-> _]]; [left; by inversion H|by right]. }
  assert (Hrest : Forall no_shuffle_read ops) by (destruct Hsr as [H|[_ H]]; [by inversion H|done]).
  destruct (buildStep files c e registry input op w) as [r1 w1] eqn:Eb.
  pose proof (buildStep_stream _ _ _ _ _ _ _ _ _ Es Eb) as H1.
  apply buildStep_narrow_balance in Eb as [Hw1 Hb1]; [|done|done]. destruct r1 as [i|x].
  - intros H. rewrite <- Hw1 in *. eapply (IH (Some i)); [by destruct Hb1|by left| |exact H].
    cbn. by rewrite H1.
  - destruct (closeOnError x input w1) as [x2 w2]. by intros [= <- <-].
Qed.

(** ** Result tasks *)

Fixpoint add_results (action : ActionKind) (acc : list any * Z) (l : list any) : result (list any * Z) :=
  match l with
  | [] => Ok acc
  | v :: l => acc ← addResult action v acc; add_results action acc l
  end.

Lemma collectLoop_spec fuel c action i acc (w : world) :
  iter_ok i -> (cost (rt_reads w) i + length (stream_of (rt_reads w) i).1 < fuel)%nat ->
  exists r i' w', collectLoop fuel c action i acc w = Some (r, i', w') /\ balanced i w i' w' /\
    match r with
    | Ok acc' => (stream_of (rt_reads w) i).2 = None /\ add_results action acc (stream_of (rt_reads w) i).1 = Ok acc'
    | Err e => disturbed c \/ add_results action acc (stream_of (rt_reads w) i).1 = Err e \/
        (stream_of (rt_reads w) i).2 = Some e
    end.
Proof.
  revert i acc w. induction fuel as [|fuel IH]; intros i acc w Hok Hcost; [lia|]. cbn.
  destruct (Next_returns c fuel i w Hok ltac:(lia)) as (r & i1 & w1 & -> & (Ho & Hs & Hok1) & Hret). cbn.
  destruct r as [[v|]|e].
  - destruct Hret as [Hst Hc]. rewrite Hst in *. cbn in *. destruct (addResult action v acc) as [acc1|e]; cbn.
    + destruct (IH i1 acc1 w1 Hok1) as (r & i' & w' & -> & (Ho' & Hs' & Hok') & Hr); [rewrite Hs; lia|].
      rewrite Hs in *. do 3 eexists. split; [done|]. split; [split_and!; [lia|congruence|done]|done].
    + do 3 eexists. split; [done|]. split; [done|]. right. by left.
  - rewrite Hret. by do 3 eexists.
  - do 3 eexists. split; [done|]. split; [done|]. destruct Hret as [?|Hret]; [by left|]. right. right. by rewrite Hret.
Qed.

Lemma closeAfter_balance {A} (r : result A) i (w : world) r' w' :
  closeAfter r i w = (r', w') ->
  (r' = map_err (fun e => EJoin [e]) r \/ store_faults /\ exists x, r' = Err x) /\
  rt_reads w' = rt_reads w /\ rt_open w' = rt_open w - handles i.
Proof.
  unfold closeAfter. destruct (closeIterator i w) as [[ce i1] w1] eqn:E.
  apply closeIterator_spec in E as ([->|Hf] & _ & Ho & Hs); [by destruct r; intros [= <- <-]; auto|].
  destruct r, ce; intros [= <- <-]; (split; [|done]); eauto.
Qed.

(** The output of an action on the records of a partition. *)
Definition action_output (action : ActionKind) (l : list any) : TaskOutput :=
  match action with
  | ActionCollect => mkOutput (Some l) 0 None
  | _ => mkOutput None (Z.of_nat (length l)) None
  end.

Lemma add_results_collect acc n l : add_results ActionCollect (acc, n) l = Ok (acc ++ l, n).
Proof.
  revert acc. induction l as [|v l IH]; intros acc; cbn; [by rewrite app_nil_r|]. by rewrite IH, <- app_assoc.
Qed.

Lemma add_results_count acc n l :
  0 <= n -> n + Z.of_nat (length l) < 2 ^ 63 ->
  add_results ActionCount (acc, n) l = Ok (acc, n + Z.of_nat (length l)).
Proof.
  revert n. induction l as [|v l IH]; intros n Hn Hlen; cbn in *; [by rewrite Z.add_0_r|].
  rewrite i64_id by (unfold in_i64; lia). rewrite IH by lia. do 2 f_equal. lia.
Qed.

(** The fuel a task needs is that of its pipeline, which its operations fix. *)
Lemma pipeline_fuel (s0 : store) e registry ops s :
  exists fuel0, forall c (w : world) i w',
    buildOperations files c e registry None ops w = (Ok i, w') ->
    (cost s i + length (stream_of s i).1 < fuel0)%nat.
Proof.
  destruct (buildOperations files Background e registry None ops (mkRuntime 0 0 s0)) as [[i|x] w1] eqn:E.
  - exists (S (cost s i + length (stream_of s i).1)). intros c w j w' H.
    destruct (buildOperations_same c Background _ _ _ _ _ (mkRuntime 0 0 s0) _ _ (fun _ => eq_refl) H) as [w2 H2].
    rewrite E in H2. injection H2 as <- _. lia.
  - exists 0%nat. intros c w j w' H.
    destruct (buildOperations_same c Background _ _ _ _ _ (mkRuntime 0 0 s0) _ _ (fun _ => eq_refl) H) as [w2 H2].
    by rewrite E in H2.
Qed.

(** [runTask] on enough fuel: it returns, and releases what it opened. *)
Lemma runTask_spec (s0 : store) e registry s :
  Forall no_shuffle_read (tail (t_Operations (te_Task e))) ->
  exists fuel0, forall fuel c (w : world), (fuel0 <= fuel)%nat -> rt_reads w = s ->
    exists r w', runTask fuel files c e registry w = Some (r, w') /\
      rt_open w' = rt_open w /\ rt_reads w' = s /\
      forall action str, t_StageKind (te_Task e) = StageResult -> t_ShuffleWrite (te_Task e) = None ->
        t_FinalAction (te_Task e) = Some action ->
        ops_stream s e registry None (t_Operations (te_Task e)) = Some str ->
        match r with
        | Ok acc => str.2 = None /\ add_results (act_Kind action) ([], 0) str.1 = Ok acc
        | Err x => disturbed c \/ exists y, x = EJoin [y] /\
            (add_results (act_Kind action) ([], 0) str.1 = Err y \/ str.2 = Some y)
        end.
Proof.
  intros Hsr. destruct (pipeline_fuel s0 e registry (t_Operations (te_Task e)) s) as [fuel0 Hfuel].
  exists fuel0. intros fuel c w Hle Hs. unfold runTask.
  destruct (t_FinalAction (te_Task e)) as [a|]; [|by do 2 eexists].
  case_bool_decide as Hk; cbn [negb]; [|by do 2 eexists].
  case_bool_decide as Hw; [by do 2 eexists; split; [done|]; split; [done|]; split; [done|];
    intros ? ? _ Hnone; rewrite Hnone in Hw; destruct Hw|].
  unfold buildTaskIterator. destruct (buildOperations files c e registry None _ w) as [i w1] eqn:Eb.
  assert (Hst : forall str, ops_stream s e registry None (t_Operations (te_Task e)) = Some str ->
    match i with Ok i => stream_of s i = str | Err _ => disturbed c end).
  { intros str Hops. rewrite <- Hs in *.
    exact (buildOperations_stream _ _ _ None _ _ _ _ _ I (or_intror (conj eq_refl Hsr)) Hops Eb). }
  pose proof (buildOperations_balance _ _ _ None _ _ _ _ I (or_intror (conj eq_refl Hsr)) Eb) as [Hs1 Hb].
  cbn in Hb. destruct i as [i|x].
  - destruct Hb as [Hok Ho]. pose proof (Hfuel c w i w1 Eb) as Hcost. rewrite Hs in Hs1.
    destruct (collectLoop_spec fuel c (act_Kind a) i ([], 0) w1 Hok) as (r & i' & w2 & -> & (Ho2 & Hs2 & _) & Hr);
      [rewrite Hs1; lia|]. rewrite Hs1 in *. cbn [mbind option_bind].
    destruct (closeAfter r i' w2) as [r' w3] eqn:Ec. apply closeAfter_balance in Ec as (Hr' & Hs3 & Ho3).
    do 2 eexists. split; [done|]. split; [lia|]. split; [congruence|].
    intros action str _ _ [= <-] Hops. destruct Hr' as [->|[Hf [x ->]]]; [|left; by right].
    rewrite (Hst str Hops) in Hr. destruct r as [acc|x]; cbn; [done|].
    destruct Hr as [?|[?|?]]; eauto.
  - do 2 eexists. split; [done|]. split; [lia|]. split; [congruence|]. intros action str _ _ _ Hops. left.
    exact (Hst str Hops).
Qed.
End pipeline.
