(* ===== verification/MapTasks.v ===== *)
(** * MapTasks: what map tasks publish

    The contract of a shuffle writer, the records a map task writes, and the
    executions of [RunTask] as a whole. *)

From S2P Require Import Prelude Bytes Plan Stages Shuffle Reports Runtime TextSource Iterator IteratorProofs Runner.
From S2P Require Import RunnerProofs.
#[local] Open Scope Z_scope.

(** ** What a store promises to its writers *)

(** The reads of two store states agree. *)
Definition same_reads {SS : ShuffleStore} {SR : StoreReads SS} (s s' : view) : Prop :=
  (forall o p, bucket s' o p = bucket s o p) /\ (forall r, unread s' r = unread s r) /\
  (forall a, taken s' a <-> taken s a).

(** What could be read before still can. *)
Definition kept {SS : ShuffleStore} {SR : StoreReads SS} (s s' : view) : Prop :=
  forall o p l, bucket s o p = (l, None) -> bucket s' o p = (l, None).

(** Bucket [p] of [n] is the one of this record. *)
Definition in_bucket (n p : Z) (kv : string * any) : bool :=
  match PartitionFor kv.1 n with Ok q => q =? p | Err _ => false end.

(** The part of bucket [p], as it is read back. *)
Definition bucket_part (wire : any -> any) (n p : Z) (l : list (string * any)) : list (string * any) :=
  (fun kv => (kv.1, wire kv.2)) <$> List.filter (in_bucket n p) l.

(** [written v wr l]: the writer [wr] is open, has accepted the records [l] and
    its files in [v] are as it left them; [spent x wr]: it is closed, with error [x].  [writer_of]
    is what it was opened for, [wire] what a value is read back as if it is
    [durable].  [begins]
    says when an attempt can be opened, [accepts] which records it can hold and
    [fits] which can be published. *)
Class StoreWrites (SS : ShuffleStore) (SR : StoreReads SS) := {
  writer_handles : writer -> Z;
  writer_of : writer -> AttemptIdentity * Z * Z;
  written : view -> writer -> list (string * any) -> Prop;
  spent : option error -> writer -> Prop;
  wire : any -> any;
  durable : any -> Prop;
  begins : view -> AttemptIdentity -> Z -> Z -> Prop;
  accepts : AttemptIdentity * Z * Z -> list (string * any) -> Prop;
  fits : AttemptIdentity * Z * Z -> list (string * any) -> Prop;
  accepts_prefix t l l' : accepts t (l ++ l') -> accepts t l;
  begin_spec c a m n w r w' : Begin c a m n w = (r, w') ->
    same_reads (reads (rt_store w)) (reads (rt_store w')) /\
    match r with
    | Ok wr => written (reads (rt_store w')) wr [] /\ writer_of wr = (a, m, n) /\
               (disturbed c \/ ~ taken (reads (rt_store w')) a) /\ rt_open w' = rt_open w + writer_handles wr
    | Err _ => rt_open w' = rt_open w /\ (disturbed c \/ ~ begins (reads (rt_store w)) a m n)
    end;
  write_spec c wr k v w e wr' w' l : Write c wr k v w = (e, wr', w') -> written (reads (rt_store w)) wr l ->
    same_reads (reads (rt_store w)) (reads (rt_store w')) /\
    rt_open w' - writer_handles wr' = rt_open w - writer_handles wr /\ writer_of wr' = writer_of wr /\
    match e with
    | None => written (reads (rt_store w')) wr' (l ++ [(k, v)])
    | Some x => spent (Some x) wr' /\ (disturbed c \/ ~ accepts (writer_of wr) (l ++ [(k, v)]))
    end;
  publish_spec c wr w r wr' w' l : Publish c wr w = (r, wr', w') -> written (reads (rt_store w)) wr l ->
    kept (reads (rt_store w)) (reads (rt_store w')) /\
    spent (match r with Ok _ => None | Err x => Some x end) wr' /\
    rt_open w' - writer_handles wr' = rt_open w - writer_handles wr /\
    match r with
    | Ok o =>
        validateMapOutput o = Ok tt /\ mo_Attempt o = (writer_of wr).1.1 /\
        mo_NumMapPartitions o = (writer_of wr).1.2 /\ mo_NumReducePartitions o = (writer_of wr).2 /\
        (Forall (fun kv => durable kv.2) l -> forall p, 0 <= p < (writer_of wr).2 ->
           bucket (reads (rt_store w')) o p = (bucket_part wire (writer_of wr).2 p l, None))
    | Err _ => disturbed c \/ ~ (accepts (writer_of wr) l /\ fits (writer_of wr) l) \/
               taken (reads (rt_store w)) (writer_of wr).1.1
    end;
  abort_spec c wr w e wr' w' : Abort c wr w = (e, wr', w') ->
    (exists x, spent x wr) \/ (exists l, written (reads (rt_store w)) wr l) ->
    same_reads (reads (rt_store w)) (reads (rt_store w')) /\ rt_open w' = rt_open w - writer_handles wr /\
    forall x, spent x wr -> e = x }.

#[export] Instance same_reads_refl {SS : ShuffleStore} {SR : StoreReads SS} : Reflexive same_reads.
Proof. intros s. by split_and!. Qed.

#[export] Instance same_reads_trans {SS : ShuffleStore} {SR : StoreReads SS} : Transitive same_reads.
Proof.
  intros s t u (H1 & H2 & H3) (H4 & H5 & H6).
  split_and!; intros; [by rewrite H4|by rewrite H5|by rewrite H6].
Qed.

#[export] Instance kept_preorder {SS : ShuffleStore} {SR : StoreReads SS} : PreOrder kept.
Proof. split; [by intros s o p l|]. intros s t u H1 H2 o p l H. by apply H2, H1. Qed.

Lemma same_reads_kept {SS : ShuffleStore} {SR : StoreReads SS} s s' : same_reads s s' -> kept s s'.
Proof. intros (H & _) o p l. by rewrite H. Qed.

Section maps.
Context {SS : ShuffleStore} {SR : StoreReads SS} {SW : StoreWrites SS SR}.

Notation world := (runtime store).
Notation rt_reads w := (reads (rt_store w)).

(** ** Iterators see only the reads of the store *)

Lemma buckets_stream_same s s' p os : same_reads s s' -> buckets_stream s' p os = buckets_stream s p os.
Proof. intros [H _]. induction os as [|o os IH]; [done|]. cbn. by rewrite H, IH. Qed.

Lemma shuffle_stream_same s s' i : same_reads s s' -> shuffle_stream s' i = shuffle_stream s i.
Proof.
  intros H. unfold shuffle_stream. destruct (si_err i); [done|]. destruct (si_closed i); [done|].
  destruct (drop _ _) as [|o os], (si_reader i) as [r|]; rewrite ?(buckets_stream_same s s') by done; try done.
  by rewrite (proj1 (proj2 H)).
Qed.

Lemma stream_of_same s s' i : same_reads s s' -> stream_of s' i = stream_of s i /\ cost s' i = cost s i.
Proof.
  intros H. revert i. fix IH 1. intros [t|i|i fn|i fn|i fn|i fn|[i|] fn result err closed]; cbn;
    try (destruct (IH i) as [-> ->]; done).
  - done.
  - by rewrite (shuffle_stream_same s s').
  - done.
Qed.

(** ** Writing *)

(** The pairs of a stream, or the error of the first record that is not one. *)
Fixpoint pairs_of (l : list any) : result (list (string * any)) :=
  match l with
  | [] => Ok []
  | AKeyValue key value :: l => kvs ← pairs_of l; Ok ((key, value) :: kvs)
  | v :: _ => Err (permanentErrorf "shuffle write expected KeyValue, got %T" [FStr (type_name v)])
  end.

Fixpoint combine_pairs (fn : ReduceFunc) (values : gmap string any) (kvs : list (string * any))
    : result (gmap string any) :=
  match kvs with
  | [] => Ok values
  | kv :: kvs => values ← combine "combine key %q: %w" fn values kv.1 kv.2; combine_pairs fn values kvs
  end.

Definition sorted_pairs (values : gmap string any) : list (string * any) :=
  (fun key => (key, default ANil (values !! key))) <$> sortedKeys values.

(** What a map task writes for a stream of pairs: with map-side combine one
    record per key, in key order. *)
Definition map_side (reduce : option ReduceFunc) (kvs : list (string * any)) : result (list (string * any)) :=
  match reduce with
  | None => Ok kvs
  | Some fn => values ← combine_pairs fn ∅ kvs; Ok (sorted_pairs values)
  end.

(** What is written for a stream that ends well. *)
Definition stream_records (reduce : option ReduceFunc) (str : stream) : option (list (string * any)) :=
  match str.2, pairs_of str.1 with
  | None, Ok kvs => match map_side reduce kvs with Ok out => Some out | Err _ => None end
  | _, _ => None
  end.

(** The writer is open with what it accepted, or closed by an error. *)
Definition live (v : view) (wr : writer) : Prop := (exists x, spent x wr) \/ exists l, written v wr l.

Definition moves (wr : writer) (w : world) (wr' : writer) (w' : world) (h h' : Z) : Prop :=
  same_reads (rt_reads w) (rt_reads w') /\ writer_of wr' = writer_of wr /\
  rt_open w' - writer_handles wr' - h' = rt_open w - writer_handles wr - h.

Lemma moves_trans wr w wr1 w1 wr2 w2 h h1 h2 :
  moves wr w wr1 w1 h h1 -> moves wr1 w1 wr2 w2 h1 h2 -> moves wr w wr2 w2 h h2.
Proof. intros (? & ? & ?) (? & ? & ?). split_and!; [by etrans|congruence|lia]. Qed.

Lemma moves_read wr w w' h h' :
  rt_reads w' = rt_reads w -> rt_open w' - h' = rt_open w - h -> moves wr w wr w' h h'.
Proof. intros Hs ?. split_and!; rewrite ?Hs; [done|done|lia]. Qed.

Lemma Write_moves c wr k v (w : world) e wr' w' l h :
  Write c wr k v w = (e, wr', w') -> written (rt_reads w) wr l ->
  moves wr w wr' w' h h /\
  match e with
  | None => written (rt_reads w') wr' (l ++ [(k, v)])
  | Some _ => live (rt_reads w') wr' /\ (disturbed c \/ ~ accepts (writer_of wr) (l ++ [(k, v)]))
  end.
Proof.
  intros Hw Hok. destruct (write_spec _ _ _ _ _ _ _ _ _ Hw Hok) as (? & ? & ? & He).
  split; [split_and!; done || lia|]. destruct e as [x|]; [|done]. destruct He. split; [left; eauto|done].
Qed.

Lemma accepts_cons t l (kv : string * any) l' : accepts t (l ++ kv :: l') -> accepts t (l ++ [kv]).
Proof. intros H. apply (accepts_prefix t _ l'). by rewrite <- app_assoc. Qed.

(** What the records of [str], read after [l], leave of the writer. *)
Definition written_after (c : goContext) (reduce : option ReduceFunc) (combined : gmap string any) (str : stream)
    (wr : writer) (l : list (string * any)) (r : result (gmap string any)) (v' : view) (wr' : writer) : Prop :=
  match r with
  | Ok combined' =>
      str.2 = None /\ exists kvs, pairs_of str.1 = Ok kvs /\
      match reduce with
      | None => combined' = combined /\ written v' wr' (l ++ kvs)
      | Some fn => combine_pairs fn combined kvs = Ok combined' /\ written v' wr' l
      end
  | Err _ =>
      live v' wr' /\
      (disturbed c \/ forall kvs, str.2 = None -> pairs_of str.1 = Ok kvs ->
        match reduce with
        | None => ~ accepts (writer_of wr) (l ++ kvs)
        | Some fn => forall combined', combine_pairs fn combined kvs <> Ok combined'
        end)
  end.

Lemma written_after_combined c fn combined combined1 k v str wr l r v' wr' :
  combine "combine key %q: %w" fn combined k v = Ok combined1 ->
  written_after c (Some fn) combined1 str wr l r v' wr' ->
  written_after c (Some fn) combined (cons_stream (AKeyValue k v) str) wr l r v' wr'.
Proof.
  intros Hc. unfold written_after. cbn. destruct r as [combined'|x].
  - intros (He & kvs & -> & Hk & Hw). split; [done|]. exists ((k, v) :: kvs). split; [done|].
    split; [cbn; by rewrite Hc|done].
  - intros [Hl Hr]. split; [done|]. destruct Hr as [?|Hr]; [by left|]. right. intros kvs He Hk.
    apply bind_Ok in Hk as (kvs' & Hk & [= <-]). cbn. rewrite Hc. by apply Hr.
Qed.

Lemma written_after_written c combined k v str wr wr1 l r v' wr' :
  writer_of wr1 = writer_of wr ->
  written_after c None combined str wr1 (l ++ [(k, v)]) r v' wr' ->
  written_after c None combined (cons_stream (AKeyValue k v) str) wr l r v' wr'.
Proof.
  intros Hof. unfold written_after. cbn. rewrite Hof. destruct r as [combined'|x].
  - intros (He & kvs & -> & Hk & Hw). split; [done|]. exists ((k, v) :: kvs). by rewrite <- app_assoc in Hw.
  - intros [Hl Hr]. split; [done|]. destruct Hr as [?|Hr]; [by left|]. right. intros kvs He Hk.
    apply bind_Ok in Hk as (kvs' & Hk & [= <-]). specialize (Hr _ He Hk). by rewrite <- app_assoc in Hr.
Qed.

(** A record on which the loop stops. *)
Lemma written_after_stop c reduce combined v str wr l x v' wr' :
  live v' wr' ->
  (disturbed c \/ (forall k value, v <> AKeyValue k value) \/ exists k value, v = AKeyValue k value /\
     match reduce with
     | None => ~ accepts (writer_of wr) (l ++ [(k, value)])
     | Some fn => exists y, combine "combine key %q: %w" fn combined k value = Err y
     end) ->
  written_after c reduce combined (cons_stream v str) wr l (Err x) v' wr'.
Proof.
  intros Hl H. split; [done|]. destruct H as [?|[H|(k & value & -> & H)]]; [by left| |]; right; intros kvs _ Hk.
  - cbn in Hk. destruct v; try done. by destruct (H key v).
  - cbn in Hk. apply bind_Ok in Hk as (kvs' & Hk & [= <-]). destruct reduce as [fn|].
    + intros combined'. cbn. by destruct H as [y ->].
    + intros Ha. by eapply H, accepts_cons.
Qed.

Lemma writeLoop_spec fuel c reduce i wr combined (w : world) l :
  iter_ok i -> written (rt_reads w) wr l ->
  (cost (rt_reads w) i + length (stream_of (rt_reads w) i).1 < fuel)%nat ->
  exists r i' wr' w', writeLoop fuel c reduce i wr combined w = Some (r, i', wr', w') /\
    moves wr w wr' w' (handles i) (handles i') /\
    written_after c reduce combined (stream_of (rt_reads w) i) wr l r (rt_reads w') wr'.
Proof.
  revert i wr combined w l. induction fuel as [|fuel IH]; intros i wr combined w l Hok Hwok Hcost; [lia|]. cbn.
  assert (Hlive : live (rt_reads w) wr) by (right; eauto).
  destruct (ctx_Cause c (rt_time w)) as [x|] eqn:Ex.
  { do 4 eexists. split; [done|]. split; [by apply moves_read|]. split; [done|]. left. by eapply Cause_disturbed. }
  destruct (Next_returns c fuel i (tick w) Hok) as (r & i1 & w1 & -> & (Ho & Hs & Hok1) & Hret); [cbn; lia|].
  cbn in Ho, Hs, Hret |- *.
  pose proof (moves_read wr w w1 _ _ Hs Ho) as Hw1. rewrite <- Hs in Hwok, Hlive.
  destruct r as [[v|]|e].
  2:{ do 4 eexists. split; [done|]. split; [done|]. rewrite Hret. split; [done|]. exists []. split; [done|].
      rewrite app_nil_r. by destruct reduce. }
  2:{ do 4 eexists. split; [done|]. split; [done|]. split; [done|]. destruct Hret as [?| ->]; [by left|].
      by right. }
  destruct Hret as [Hst Hc]. rewrite Hst in *. cbn in Hcost.
  destruct v as [| | | | | |key value| | | |];
    try (do 4 eexists; split; [done|]; split; [done|]; apply written_after_stop; [done|]; right; by left).
  destruct reduce as [fn|].
  - destruct (combine _ fn combined key value) as [combined1|e] eqn:Ec.
    2:{ do 4 eexists. split; [done|]. split; [done|]. apply written_after_stop; [done|]. right. right. eauto. }
    destruct (IH i1 wr combined1 w1 l Hok1 Hwok) as (r & i' & wr' & w' & -> & Hw & Hr); [rewrite Hs; lia|].
    rewrite Hs in Hr. do 4 eexists. split; [done|]. split; [by eapply moves_trans|].
    by eapply written_after_combined.
  - destruct (Write c wr key value w1) as [[e wr1] w2] eqn:Ew.
    destruct (Write_moves _ _ _ _ _ _ _ _ l (handles i1) Ew Hwok) as [Hw12 Hwr].
    pose proof (moves_trans _ _ _ _ _ _ _ _ _ Hw1 Hw12) as Hw2.
    destruct e as [e|].
    { do 4 eexists. split; [done|]. split; [done|]. destruct Hwr as [Hl Hwr]. apply written_after_stop; [done|].
      destruct Hwr as [?|Hwr]; [by left|]. right. right. eauto. }
    destruct (stream_of_same _ _ i1 (proj1 Hw2)) as [Hst' Hco'].
    destruct (IH i1 wr1 combined w2 _ Hok1 Hwr) as (r & i' & wr' & w' & -> & Hw & Hr); [rewrite Hst', Hco'; lia|].
    rewrite Hst' in Hr. do 4 eexists. split; [done|]. split; [by eapply moves_trans|].
    eapply written_after_written; [apply Hw12|done].
Qed.

Lemma writeKeys_spec c wr combined keys (w : world) e wr' w' l :
  written (rt_reads w) wr l -> writeKeys c wr combined keys w = (e, wr', w') ->
  let out := (fun key => (key, default ANil (combined !! key))) <$> keys in
  moves wr w wr' w' 0 0 /\
  match e with
  | None => written (rt_reads w') wr' (l ++ out)
  | Some _ => live (rt_reads w') wr' /\ (disturbed c \/ ~ accepts (writer_of wr) (l ++ out))
  end.
Proof.
  revert wr w l. induction keys as [|key keys IH]; intros wr w l Hok; cbn.
  { intros [= <- <- <-]. split; [by apply moves_read|]. by rewrite app_nil_r. }
  destruct (ctx_Cause c (rt_time w)) as [x|] eqn:Ex.
  { intros [= <- <- <-]. split; [by apply moves_read|]. split; [right; eauto|]. left. by eapply Cause_disturbed. }
  destruct (Write c wr key _ (tick w)) as [[e1 wr1] w1] eqn:Ew.
  destruct (Write_moves _ _ _ _ _ _ _ _ l 0 Ew Hok) as [Hw1 Hwr]. change (moves wr w wr1 w1 0 0) in Hw1.
  destruct e1 as [e1|].
  { intros [= <- <- <-]. split; [done|]. destruct Hwr as [Hl [?|Hwr]]; (split; [done|]); [by left|]. right.
    intros Ha. by eapply Hwr, accepts_cons. }
  intros Hk. destruct (IH _ _ _ Hwr Hk) as [Hw2 Hr]. split; [by eapply moves_trans|].
  rewrite <- app_assoc in Hr. by rewrite <- (proj1 (proj2 Hw1)).
Qed.

Lemma writeShuffleRecords_spec fuel c i wr reduce (w : world) l :
  iter_ok i -> written (rt_reads w) wr l ->
  (cost (rt_reads w) i + length (stream_of (rt_reads w) i).1 < fuel)%nat ->
  exists e i' wr' w', writeShuffleRecords fuel c i wr reduce w = Some (e, i', wr', w') /\
    moves wr w wr' w' (handles i) (handles i') /\
    match e with
    | None => exists out, stream_records reduce (stream_of (rt_reads w) i) = Some out /\
                          written (rt_reads w') wr' (l ++ out)
    | Some _ => live (rt_reads w') wr' /\ (disturbed c \/
        forall out, stream_records reduce (stream_of (rt_reads w) i) = Some out -> ~ accepts (writer_of wr) (l ++ out))
    end.
Proof.
  intros Hok Hwok Hcost. unfold writeShuffleRecords, stream_records.
  destruct (writeLoop_spec fuel c reduce i wr ∅ w l Hok Hwok Hcost) as (r & i' & wr1 & w1 & -> & Hw & Hr).
  cbn [mbind option_bind]. destruct r as [combined|e].
  2:{ do 4 eexists. split; [done|]. split; [done|]. destruct Hr as [Hl [?|Hr]]; (split; [done|]); [by left|]. right.
      intros out. destruct (stream_of _ i) as [vs [x|]]; [done|]. cbn in *. destruct (pairs_of vs) as [kvs|]; [|done].
      specialize (Hr kvs eq_refl eq_refl). destruct reduce as [fn|]; cbn; [|by intros [= <-]].
      destruct (combine_pairs fn ∅ kvs) as [values|]; [|done]. by destruct (Hr values). }
  destruct Hr as (-> & kvs & -> & Hr).
  destruct (writeKeys c wr1 combined (sortedKeys combined) w1) as [[e wr2] w2] eqn:Ek.
  assert (exists l1 out, written (rt_reads w1) wr1 l1 /\
    match map_side reduce kvs with Ok out => Some out | Err _ => None end = Some out /\
    l ++ out = l1 ++ ((fun key => (key, default ANil (combined !! key))) <$> sortedKeys combined))
    as (l1 & out & Hl1 & -> & Hout).
  { destruct reduce as [fn|]; cbn.
    - destruct Hr as [-> ?]. by do 2 eexists.
    - destruct Hr as [-> ?]. do 2 eexists. split; [done|]. split; [done|]. unfold sortedKeys.
      rewrite map_to_list_empty. cbn. by rewrite app_nil_r. }
  destruct (writeKeys_spec _ _ _ _ _ _ _ _ l1 Hl1 Ek) as [Hw2 Hwr]. rewrite <- Hout, (proj1 (proj2 Hw)) in Hwr.
  do 4 eexists. split; [done|]. split.
  { destruct Hw2 as (? & ? & ?). eapply moves_trans; [done|]. split_and!; done || lia. }
  destruct e as [e|]; [|by exists out]. destruct Hwr as [Hl [?|Hwr]]; (split; [done|]); [by left|]. right.
  by intros ? [= <-].
Qed.

(** ** Publishing *)

(** The bucket contents of an output whose attempt wrote [out]. *)
Definition published_as (s : view) (o : MapOutput) (n : Z) (out : list (string * any)) : Prop :=
  Forall (fun kv => durable kv.2) out ->
  forall p, 0 <= p < n -> bucket s o p = (bucket_part wire n p out, None).

(** What a map attempt made of [out], the records it had to write. *)
Definition published (c : goContext) (t : AttemptIdentity * Z * Z) (out : option (list (string * any)))
    (s' : view) (r : result TaskOutput) : Prop :=
  match r with
  | Ok output => exists o l, output = mkOutput None 0 (Some o) /\ out = Some l /\ validateMapOutput o = Ok tt /\
      mo_Attempt o = t.1.1 /\ mo_NumMapPartitions o = t.1.2 /\ mo_NumReducePartitions o = t.2 /\
      published_as s' o t.2 l
  | Err _ => disturbed c \/ forall l, out = Some l -> ~ (accepts t l /\ fits t l)
  end.

(** A writer's end: closed without error after a success. *)
Definition ended (v : view) (wr : writer) (r : result TaskOutput) : Prop :=
  match r with Ok _ => spent None wr | Err _ => live v wr end.

Lemma publishOutput_spec c wr (w : world) l r wr' w' :
  written (rt_reads w) wr l -> disturbed c \/ ~ taken (rt_reads w) (writer_of wr).1.1 -> publishOutput c wr w = (r, wr', w') ->
  kept (rt_reads w) (rt_reads w') /\ ended (rt_reads w') wr' r /\
  rt_open w' - writer_handles wr' = rt_open w - writer_handles wr /\
  published c (writer_of wr) (Some l) (rt_reads w') r.
Proof.
  intros Hwok Hfree. unfold publishOutput. cbn [readCause]. destruct (ctx_Cause c (rt_time w)) as [x|] eqn:Ex.
  { intros [= <- <- <-]. cbn. split; [done|]. split; [right; eauto|]. split; [done|]. left. by eapply Cause_disturbed. }
  destruct (Publish c wr (tick w)) as [[r1 wr1] w1] eqn:Ep.
  destruct (publish_spec _ _ _ _ _ _ l Ep Hwok) as (Hk & Hsp & Ho & Hr). destruct r1 as [o|x].
  - cbn [readCause]. destruct (ctx_Cause c (rt_time w1)) as [x|] eqn:Ex1; intros [= <- <- <-]; cbn.
    + split; [done|]. split; [left; eauto|]. split; [done|]. left. by eapply Cause_disturbed.
    + split; [done|]. split; [done|]. split; [done|]. destruct Hr as (? & ? & ? & ? & ?).
      exists o, l. by split_and!.
  - intros [= <- <- <-]. cbn. split; [done|]. split; [left; eauto|]. split; [done|].
    destruct Hr as [?|[Hr|?]]; [by left| |by destruct Hfree; [left|]]. right. by intros ? [= <-].
Qed.

(** ** The map task *)

Variable files : string -> result (list N).
Hypothesis files_fit : forall path data, files path = Ok data -> Z.of_nat (length data) < 2 ^ 63.

(** What the map task of [e] has to write. *)
Definition map_records (s : view) (e : TaskExecution) (registry : FunctionRegistry) (reduce : option ReduceFunc)
    : option (list (string * any)) :=
  str ← ops_stream files s e registry None (t_Operations (te_Task e)); stream_records reduce str.

Lemma ops_stream_same s s' e registry input ops :
  same_reads s s' -> ops_stream files s' e registry input ops = ops_stream files s e registry input ops.
Proof.
  intros H. revert input. induction ops as [|op ops IH]; intros input; [done|]. cbn.
  assert (op_stream files s' e registry input op = op_stream files s e registry input op) as ->.
  { unfold op_stream. destruct (so_Kind op); [done| |done]. destruct (te_ShuffleInputs e); [|done]. cbn.
    by rewrite (buckets_stream_same s s'). }
  destruct (op_stream files s e registry input op); [apply IH|done].
Qed.

(** The pipeline of a map task has the stream of its operations. *)
Lemma buildTaskIterator_stream c e registry (w : world) r w' s str :
  Forall no_shuffle_read (tail (t_Operations (te_Task e))) -> same_reads s (rt_reads w) ->
  buildTaskIterator files c e registry w = (r, w') ->
  ops_stream files s e registry None (t_Operations (te_Task e)) = Some str ->
  match r with Ok i => stream_of s i = str | Err _ => disturbed c end.
Proof.
  intros Hsr Hsame Eb Hops. rewrite <- (ops_stream_same s (rt_reads w)) in Hops by done.
  pose proof (buildOperations_stream files files_fit c e registry None _ w r w' str I (or_intror (conj eq_refl Hsr)) Hops Eb) as H.
  destruct r as [i|]; [|done]. by rewrite <- H, (proj1 (stream_of_same s (rt_reads w) i Hsame)).
Qed.

Lemma runMapPipeline_spec (s0 : store) e registry s :
  Forall no_shuffle_read (tail (t_Operations (te_Task e))) ->
  exists fuel0, forall fuel c reduce wr (w : world), (fuel0 <= fuel)%nat -> same_reads s (rt_reads w) ->
    written (rt_reads w) wr [] -> disturbed c \/ ~ taken (rt_reads w) (writer_of wr).1.1 ->
    exists r wr' w', runMapPipeline fuel files c e registry reduce wr w = Some (r, wr', w') /\
      ended (rt_reads w') wr' r /\ kept s (rt_reads w') /\
      rt_open w' - writer_handles wr' = rt_open w - writer_handles wr /\
      (is_Some (ops_stream files s e registry None (t_Operations (te_Task e))) ->
       published c (writer_of wr) (map_records s e registry reduce) (rt_reads w') r).
Proof.
  intros Hsr. destruct (pipeline_fuel files s0 e registry (t_Operations (te_Task e)) s) as [fuel0 Hfuel].
  exists fuel0. intros fuel c reduce wr w Hle Hsame Hwok Hfree. unfold runMapPipeline.
  destruct (buildTaskIterator files c e registry w) as [i w1] eqn:Eb.
  pose proof (fun str => buildTaskIterator_stream _ _ _ _ _ _ s str Hsr Hsame Eb) as Hst.
  pose proof (buildOperations_balance files files_fit _ _ _ None _ _ _ _ I (or_intror (conj eq_refl Hsr)) Eb) as [Hs1 Hb].
  rewrite <- Hs1 in Hsame, Hwok, Hfree. destruct i as [i|x].
  2:{ do 3 eexists. split; [done|]. split; [right; eauto|]. split; [by apply same_reads_kept|]. split; [cbn in Hb; lia|].
      intros [str Hops]. left. by eapply Hst. }
  destruct Hb as [Hok Ho]. cbn in Ho. destruct (stream_of_same _ _ i Hsame) as [Hsi Hci].
  destruct (writeShuffleRecords_spec fuel c i wr reduce w1 [] Hok Hwok) as (err & i' & wr1 & w2 & -> & (Hsr2 & Hof & Hb2) & Hwr);
    [rewrite Hsi, Hci; pose proof (Hfuel c w i w1 Eb); lia|]. cbn [mbind option_bind].
  destruct (closeAfter _ i' w2) as [r3 w3] eqn:Ec. apply closeAfter_balance in Ec as (Hr3 & Hs3 & Ho3).
  assert (Hrecs : is_Some (ops_stream files s e registry None (t_Operations (te_Task e))) ->
    map_records s e registry reduce = stream_records reduce (stream_of (rt_reads w1) i)).
  { intros [str Hops]. unfold map_records. rewrite Hops. cbn. by rewrite Hsi, (Hst str Hops). }
  assert (Hkept : kept s (rt_reads w3)) by (rewrite Hs3; apply same_reads_kept; by etrans).
  destruct Hr3 as [->|[Hf [y ->]]].
  2:{ do 3 eexists. split; [done|]. split; [|split; [done|split; [lia|by left; right]]].
      rewrite <- Hs3 in Hwr. destruct err as [err|]; [by destruct Hwr|]. destruct Hwr as (out & _ & Hwr). right. eauto. }
  destruct err as [err|]; cbn [map_err].
  - rewrite <- Hs3 in Hwr. destruct Hwr as [Hl Hwr]. do 3 eexists. split; [done|]. split; [done|]. split; [done|].
    split; [lia|]. intros Hops. rewrite (Hrecs Hops). cbn. destruct Hwr as [?|Hwr]; [by left|]. right.
    intros l Hl' [Ha _]. by eapply Hwr.
  - destruct Hwr as (out & Hout & Hw2). rewrite <- Hs3 in Hw2. cbn in Hw2.
    destruct (publishOutput c wr1 w3) as [[r wr2] w4] eqn:Ep.
    apply (publishOutput_spec _ _ _ out) in Ep as (Hk4 & Hend & Ho4 & Hp); [|done|].
    2:{ rewrite Hof, Hs3. by setoid_rewrite (proj2 (proj2 Hsr2)). }
    do 3 eexists. split; [done|]. split; [done|]. split; [by etrans|]. split; [lia|].
    intros Hops. by rewrite (Hrecs Hops), Hout, <- Hof.
Qed.

Lemma checkMapTask_write r registry e write reduce :
  checkMapTask r registry e = Ok (write, reduce) -> t_ShuffleWrite (te_Task e) = Some write.
Proof.
  unfold checkMapTask. destruct (t_ShuffleWrite (te_Task e)) as [wr|], (t_FinalAction (te_Task e)); try done.
  destruct (_ || _ || _); [done|]. destruct (_ || _); [done|]. destruct (negb _); [done|].
  destruct (sw_MapSideCombine wr); [|by intros [= <- <-]]. by destruct (lookupReduce _ _); intros [= <- <-].
Qed.

Lemma abortAfter_spec c r wr (w : world) r' w' :
  ended (rt_reads w) wr r -> abortAfter c r wr w = (r', w') ->
  same_reads (rt_reads w) (rt_reads w') /\ rt_open w' = rt_open w - writer_handles wr /\
  match r with Ok output => r' = r | Err _ => exists x, r' = Err x end.
Proof.
  intros Hend. unfold abortAfter. destruct (Abort c wr w) as [[ae wr1] w1] eqn:E.
  assert (Hlive : live (rt_reads w) wr) by (destruct r; [left; eauto|done]).
  destruct (abort_spec _ _ _ _ _ _ E Hlive) as (Hs & Ho & Hx).
  intros [= <- <-]. split; [done|]. split; [done|]. destruct r as [output|x]; [by rewrite (Hx None Hend)|].
  destruct ae; [case_match|]; eauto.
Qed.

(** What a map task is: its identity and counts. *)
Definition map_target (e : TaskExecution) (write : ShuffleWriteSpec) : AttemptIdentity * Z * Z :=
  (mapIdentity e write, t_NumPartitions (te_Task e), pt_NumPartitions (sw_Partitioner write)).

Lemma runShuffleMap_spec (s0 : store) r registry e s write reduce :
  sources r = files -> Forall no_shuffle_read (tail (t_Operations (te_Task e))) ->
  checkMapTask r registry e = Ok (write, reduce) ->
  exists fuel0, forall fuel c (w : world), (fuel0 <= fuel)%nat -> rt_reads w = s ->
    exists res w', runShuffleMap fuel r registry c e w = Some (res, w') /\ rt_open w' = rt_open w /\
      kept s (rt_reads w') /\
      (is_Some (ops_stream files s e registry None (t_Operations (te_Task e))) ->
       published c (map_target e write) (map_records s e registry reduce) (rt_reads w') res \/
       (exists x, res = Err x) /\
       ~ begins s (mapIdentity e write) (t_NumPartitions (te_Task e)) (pt_NumPartitions (sw_Partitioner write))).
Proof.
  intros Hfiles Hsr Hcheck. destruct (runMapPipeline_spec s0 e registry s Hsr) as [fuel0 Hfuel].
  exists fuel0. intros fuel c w Hle Hs. unfold runShuffleMap. rewrite Hcheck.
  destruct (Begin c _ _ _ w) as [wr w1] eqn:Eb. apply begin_spec in Eb as [Hsame Hb]. rewrite Hs in Hsame.
  destruct wr as [wr|x].
  2:{ destruct Hb as [Ho Hb]. rewrite Hs in Hb. do 2 eexists. split; [done|]. split; [done|].
      split; [by apply same_reads_kept|]. intros _. destruct Hb as [?|Hb]; [left; by left|right; eauto]. }
  destruct Hb as (Hwok & Hof & Hfree & Hopen). rewrite Hfiles.
  destruct (Hfuel fuel c reduce wr w1 Hle Hsame Hwok) as (out & wr2 & w2 & -> & Hend & Hk & Ho2 & Hpub);
    [by rewrite Hof|]. rewrite Hof in *. cbn [mbind option_bind].
  destruct (abortAfter c out wr2 w2) as [res w3] eqn:Ea. apply abortAfter_spec in Ea as (Hs3 & Ho3 & Hres); [|done].
  do 2 eexists. split; [done|]. split; [lia|]. split; [etrans; [done|by apply same_reads_kept]|].
  intros Hops. left. specialize (Hpub Hops). destruct out as [output|x]; cbn in Hpub; [|by destruct Hres as [y ->]].
  subst res. destruct Hpub as (o & l & ? & ? & ? & ? & ? & ? & Hpub). exists o, l. split_and!; try done.
  intros Hdur p Hp. rewrite (proj1 Hs3). by apply Hpub.
Qed.

End maps.
