(* ===== verification/RunnerTheorems.v ===== *)
(** * RunnerTheorems: what one task attempt does

    Properties of [LocalRunner.RunTask]: the result of result and map tasks,
    what a failure leaves behind, and that every output passes the checks of
    the scheduler that asked for it. *)

From S2P Require Import Prelude Bytes Plan Stages Shuffle Reports Runtime TextSource Iterator IteratorProofs Runner.
From S2P Require Import RunnerProofs MapTasks.
#[local] Open Scope Z_scope.

Section tasks.
Context {SS : ShuffleStore} {SR : StoreReads SS}.

Notation world := (runtime store).
Notation rt_reads w := (reads (rt_store w)).

(** ** Admission *)

Definition admitted (r : LocalRunner) (e : TaskExecution) (registry : FunctionRegistry) : Prop :=
  checkRunner r e = Ok registry.

Lemma admitted_reads r e registry :
  admitted r e registry -> Forall no_shuffle_read (tail (t_Operations (te_Task e))).
Proof.
  unfold admitted, checkRunner. intros (_ & _ & H)%bind_Ok. destruct (lr_registry r); [|done].
  rewrite !fail_if_Ok in H. destruct H as (_ & _ & H). apply bind_Ok in H as ([] & H & _).
  by apply map_err_Ok, validate_reads in H.
Qed.

(** Either the task is admitted and run, in a state only the context's clock
    tells from the one it came in, or it fails there. *)
Lemma RunTask_cases fuel r c permit e (w : world) :
  (exists registry w1, admitted r e registry /\ rt_store w1 = rt_store w /\ rt_open w1 = rt_open w /\
     RunTask fuel r c permit e w =
       if bool_decide (t_StageKind (te_Task e) = StageShuffleMap)
       then runShuffleMap fuel r registry c e w1 else runResult fuel r registry c e w1) \/
  (exists x w1, RunTask fuel r c permit e w = Some (Err x, w1) /\ rt_store w1 = rt_store w /\
     rt_open w1 = rt_open w /\ (cancelled c \/ checkRunner r e = Err x)).
Proof.
  unfold RunTask. destruct (checkRunner r e) as [registry|x] eqn:E; [|by right; do 2 eexists; split_and!; eauto].
  assert (exists cause w1, (if permit then (None, w) else readCause c w) = (cause, w1) /\
    rt_store w1 = rt_store w /\ rt_open w1 = rt_open w /\ (is_Some cause -> cancelled c))
    as (cause & w1 & -> & Hs & Ho & Hc).
  { destruct permit; do 2 eexists; split_and!; try done. intros [x Hx]. exists (rt_time w).
    right. by rewrite Hx. }
  destruct cause as [x|]; [by right; do 2 eexists; split_and!; eauto|]. cbn [readCause].
  destruct (ctx_Cause c (rt_time w1)) as [x|] eqn:Ex.
  - right. do 2 eexists. split_and!; [done..|]. left. exists (rt_time w1). right. by rewrite Ex.
  - left. exists registry, (tick w1). by split_and!.
Qed.

(** ** Result tasks *)

Lemma action_output_ok action l e :
  t_StageKind (te_Task e) = StageResult -> t_FinalAction (te_Task e) = Some action ->
  (forall s, act_Kind action <> ActionOther s) -> ValidateFor (action_output (act_Kind action) l) e = Ok tt.
Proof.
  intros Hk Ha Hn. apply ValidateFor_spec. unfold output_ok. rewrite Hk. exists action.
  destruct (act_Kind action) as [| |s]; [| |by destruct (Hn s)]; cbn; split_and!; done || lia.
Qed.

Lemma runResult_spec (s0 : store) r registry e :
  (forall path data, sources r path = Ok data -> Z.of_nat (length data) < 2 ^ 63) ->
  Forall no_shuffle_read (tail (t_Operations (te_Task e))) ->
  exists fuel0, forall fuel c (w : world), (fuel0 <= fuel)%nat -> rt_store w = s0 ->
    exists res w', runResult fuel r registry c e w = Some (res, w') /\
      rt_open w' = rt_open w /\ rt_reads w' = reads s0 /\
      forall action str, t_StageKind (te_Task e) = StageResult -> t_ShuffleWrite (te_Task e) = None ->
        t_FinalAction (te_Task e) = Some action -> (forall s, act_Kind action <> ActionOther s) ->
        ops_stream (sources r) (reads s0) e registry None (t_Operations (te_Task e)) = Some str ->
        Z.of_nat (length str.1) < 2 ^ 63 ->
        match res with
        | Ok output => str.2 = None /\ output = action_output (act_Kind action) str.1
        | Err x => disturbed c \/ exists y, str.2 = Some y /\ x = EJoin [y]
        end.
Proof.
  intros Hfit Hsr. destruct (runTask_spec _ Hfit s0 e registry (reads s0) Hsr) as [fuel0 Hfuel].
  exists fuel0. intros fuel c w Hle Hs. unfold runResult.
  destruct (Hfuel fuel c w Hle) as (res & w' & -> & Ho & Hs' & Hr); [by rewrite Hs|]. cbn [mbind option_bind].
  assert (Hadd : forall action str, (forall s, act_Kind action <> ActionOther s) -> Z.of_nat (length str) < 2 ^ 63 ->
    add_results (act_Kind action) ([], 0) str = Ok
      (match to_Records (action_output (act_Kind action) str) with Some l => l | None => [] end,
       to_Count (action_output (act_Kind action) str))).
  { intros action str Hn Hlen. destruct (act_Kind action) as [| |s]; [| |by destruct (Hn s)].
    - by rewrite add_results_collect.
    - by rewrite add_results_count. }
  destruct res as [[records count]|x]; [|do 2 eexists; split; [done|]; split; [done|]; split; [done|]].
  - cbn [readCause]. destruct (ctx_Cause c (rt_time w')) as [x|] eqn:Ex.
    { do 2 eexists. split; [done|]. split; [done|]. split; [done|]. intros. left. by eapply Cause_disturbed. }
    destruct (t_FinalAction (te_Task e)) as [action|] eqn:Ea; (do 2 eexists; split; [done|]; split; [done|]; split; [done|]); [|done].
    intros action' str Hk Hw [= <-] Hn Hops Hlen. destruct (Hr action str Hk Hw eq_refl Hops) as [Hend Hacc].
    split; [done|]. rewrite Hadd in Hacc by done. injection Hacc as <- <-.
    by destruct (act_Kind action) as [| |s]; [| |destruct (Hn s)].
  - intros action str Hk Hw Ha Hn Hops Hlen. destruct (Hr action str Hk Hw Ha Hops) as [?|(y & -> & [Hy|Hy])];
      [by left| |by eauto]. by rewrite Hadd in Hy.
Qed.

(** C35. The result of a result task.  Whatever its fuel, beyond a bound, its
    context and the storage do, an attempt of a result task that is admitted
    returns, releases every file it opened and changes no shuffle data.  It
    succeeds only with the action applied to exactly the records that its
    operations define, and this output passes the scheduler's check.  It fails
    only with the error of one of these operations or when its context ends or
    the storage fails. *)
Theorem result_task (r : LocalRunner) e registry action str (s0 : store) :
  (forall path data, sources r path = Ok data -> Z.of_nat (length data) < 2 ^ 63) ->
  admitted r e registry ->
  t_StageKind (te_Task e) = StageResult -> t_ShuffleWrite (te_Task e) = None ->
  t_FinalAction (te_Task e) = Some action -> (forall s, act_Kind action <> ActionOther s) ->
  ops_stream (sources r) (reads s0) e registry None (t_Operations (te_Task e)) = Some str ->
  Z.of_nat (length str.1) < 2 ^ 63 ->
  exists fuel0, forall fuel c permit (w : world), (fuel0 <= fuel)%nat -> rt_store w = s0 ->
    exists res w', RunTask fuel r c permit e w = Some (res, w') /\
      rt_open w' = rt_open w /\ rt_reads w' = reads s0 /\
      match res with
      | Ok output => str.2 = None /\ output = action_output (act_Kind action) str.1 /\ ValidateFor output e = Ok tt
      | Err x => disturbed c \/ exists y, str.2 = Some y /\ x = EJoin [y]
      end.
Proof.
  intros Hfit Hadm Hk Hw Ha Hn Hops Hlen.
  destruct (runResult_spec s0 r registry e Hfit) as [fuel0 Hfuel]; [by eapply admitted_reads|].
  exists fuel0. intros fuel c permit w Hle Hs.
  destruct (RunTask_cases fuel r c permit e w) as [(registry' & w1 & Hadm' & Hs1 & Ho1 & ->)|(x & w1 & -> & Hs1 & Ho1 & Hx)].
  - unfold admitted in *. rewrite Hadm in Hadm'. injection Hadm' as <-. rewrite Hk. rewrite bool_decide_eq_false_2 by done.
    destruct (Hfuel fuel c w1 Hle) as (res & w' & -> & Ho & Hs' & Hr); [congruence|].
    do 2 eexists. split; [done|]. split; [congruence|]. split; [done|].
    specialize (Hr action str Hk Hw Ha Hn Hops Hlen). destruct res as [output|x]; [|done].
    destruct Hr as [? ->]. split_and!; [done|done|by apply action_output_ok].
  - do 2 eexists. split; [done|]. split; [done|]. split; [by rewrite Hs1, Hs|]. left. left.
    destruct Hx as [Hx|Hx]; [done|]. by unfold admitted in Hadm; rewrite Hadm in Hx.
Qed.

End tasks.

(** A runner without a store: no reader or writer is ever opened. *)
Definition no_store : ShuffleStore := {|
  store := unit; writer := Empty_set; reader := Empty_set;
  Begin _ _ _ _ w := (Err panic_nil, w);
  Write _ wr _ _ w := (None, wr, w);
  Publish _ wr w := (Err panic_nil, wr, w);
  Abort _ wr w := (None, wr, w);
  OpenBucket _ _ _ w := (Err panic_nil, w);
  ReadRecord _ rd w := (Ok None, rd, w);
  CloseReader rd w := (None, rd, w) |}.

Definition no_store_reads : StoreReads no_store.
Proof.
  refine {| view := unit; reads _ := tt; bucket _ _ _ := ([], Some panic_nil); unread _ _ := ([], None);
    reader_handles _ := 0; taken _ _ := False; store_faults := False |}.
  - intros c o p w r w' [= <- <-]. auto.
  - by intros c [].
  - by intros [].
Defined.

(** Collect the non-empty lines of the second half of a file. *)
Definition example_filter : FilterFunc := fun v => Ok (match v with AString "" => false | _ => true end).
Definition example_registry : FunctionRegistry := mkRegistry ∅ {["non-empty" := example_filter]} ∅ ∅ ∅.
Definition rdd_op (id : RDDID) (kind : OperatorKind) (fn path : string) : StageOperation :=
  mkStageOperation StageOperationRDD (Some (mkRDDOperation id (mkOperatorSpec kind fn path))) None.
Definition example_collect : TaskExecution := mkExecution example_run 0%N
  (mkTask 5%N 0%N StageResult 1 2 [rdd_op 0 OpSource "" "f"; rdd_op 1 OpFilter "non-empty" ""] None
    (Some (mkAction ActionCollect 1%N))) (mkAttempt 9%N 5%N 0%N) "w1" None.
Definition example_runner : LocalRunner :=
  NewLocalRunner (fun _ => Ok example_file) (Some example_registry) None 1 false.

Lemma result_task_witness :
  exists fuel0, forall fuel c permit (w : runtime (@store no_store)), (fuel0 <= fuel)%nat -> rt_store w = tt ->
    exists res w', RunTask fuel example_runner c permit example_collect w = Some (res, w') /\
      rt_open w' = rt_open w /\ @reads _ no_store_reads (rt_store w') = tt /\
      match res with
      | Ok output => None (A:=error) = None /\ output = mkOutput (Some [AString "cde"]) 0 None /\
                     ValidateFor output example_collect = Ok tt
      | Err x => @disturbed _ no_store_reads c \/ exists y, None = Some y /\ x = EJoin [y]
      end.
Proof.
  apply (@result_task no_store no_store_reads example_runner example_collect example_registry (mkAction ActionCollect 1%N)
           ([AString "cde"], None) tt); try reflexivity; try discriminate.
  intros path data [= <-]. reflexivity.
Defined.
