(* ===== verification/FileStore.v ===== *)
(** * FileStore: shuffle data in a shared directory

    Models [shuffle/{filesystem,writer,reader}.go] and the decoder of
    [shuffle/record.go], as an implementation of the interface [ShuffleStore].
    Encoding and decoding a record is the interface [RecordCodec].

    The directory is a map from the paths of attempt directories, relative to
    the root, to their files; the parents of these directories hold nothing else
    and have no counterpart.  Every file is regular, an open file keeps the
    contents it was opened with (no code writes to a published file).  Any
    operation of the file system may fail; a write that fails may have stored a
    part of its data or all of it, so that it also stands for a failing [Close]
    after the write, and a removal that fails may have removed a part of the
    files.

    A method is here a function of the whole store, which nothing else touches
    while it runs; [StoreOps] cuts the methods into their operations, which
    [StoreSystem] interleaves, with [CleanupRun] and [Close].  The callback of
    [context.AfterFunc] runs as soon as the context ends, here when a method
    takes the lock of the handle. *)

From Stdlib Require Import Ascii.
From S2P Require Import Prelude Bytes Plan Stages Shuffle Reports Runtime TextSource Iterator.
#[local] Open Scope Z_scope.

Definition ErrClosed : error := Sentinel "shuffle handle is closed".
Definition ErrOutputExists : error := Sentinel "shuffle attempt output already exists".
Definition ErrStoreBusy : error := Sentinel "shuffle store has active handles".
Definition ErrInvalid : error := Sentinel ErrInvalidRecord.
Definition ErrTooLarge : error := Sentinel ErrRecordTooLarge.

Definition MaxRecordBytes : Z := 2 ^ 20.
Definition MaxManifestBytes : Z := 2 ^ 20.

(** ** Records *)

(** A record is one line of JSON; [decodeRecord] gets it without its newline. *)
Class RecordCodec := {
  EncodeRecord : string -> any -> result (list N);
  decodeRecord : list N -> result (string * any) }.

(** What is encoded is one line within the limit; if its value is one that
    [reads_back], it is decoded to its key and to the value [read_back] names. *)
Class RecordCodecLaws (RC : RecordCodec) := {
  read_back : any -> any;
  reads_back : any -> Prop;
  encode_line key value data : EncodeRecord key value = Ok data ->
    exists line, data = line ++ [newline] /\ newline ∉ line /\ Z.of_nat (length line) <= MaxRecordBytes /\
                 (reads_back value -> decodeRecord line = Ok (key, read_back value)) }.

(** ** The directory *)

Notation directory := (gmap string (list N)).

(** [fs_active] counts the open handles of each run, [fs_ops] the operations of
    the file system so far and [fs_draws] the reads of [crypto/rand]. *)
Record filesystem := mkFilesystem {
  fs_root : gmap string directory;
  fs_active : gmap string Z;
  fs_closed : bool;
  fs_ops : nat;
  fs_draws : nat }.

(** An operation that fails; [ft_short] bytes of a write are stored. *)
Record fault := mkFault { ft_err : error; ft_short : nat }.

Section filestore.
Context {RC : RecordCodec}.

(** [faults n] is the failure of operation [n] of the file system, if it fails;
    [nonce n] is what read [n] of [crypto/rand] returns. *)
Variable faults : nat -> option fault.
Variable nonce : nat -> list N.

Notation world := (runtime filesystem).

Definition on_store (f : filesystem -> filesystem) (w : world) : world :=
  mkRuntime (rt_time w) (rt_open w) (f (rt_store w)).
Definition set_root (root : gmap string directory) (s : filesystem) : filesystem :=
  mkFilesystem root (fs_active s) (fs_closed s) (fs_ops s) (fs_draws s).
Definition set_active (active : gmap string Z) (s : filesystem) : filesystem :=
  mkFilesystem (fs_root s) active (fs_closed s) (fs_ops s) (fs_draws s).
Definition count_op (s : filesystem) : filesystem :=
  mkFilesystem (fs_root s) (fs_active s) (fs_closed s) (S (fs_ops s)) (fs_draws s).
Definition count_draw (s : filesystem) : filesystem :=
  mkFilesystem (fs_root s) (fs_active s) (fs_closed s) (fs_ops s) (S (fs_draws s)).

Definition root (w : world) : gmap string directory := fs_root (rt_store w).

Definition syscall (w : world) : option fault * world :=
  (faults (fs_ops (rt_store w)), on_store count_op w).

(** An operation without partial effects. *)
Definition attempt {A} (f : world -> result A * world) (w : world) : result A * world :=
  let '(ft, w) := syscall w in
  match ft with Some ft => (Err (ft_err ft), w) | None => f w end.

Definition ErrNotExist : error := Sentinel fs_ErrNotExist.
Definition ErrExist : error := Sentinel "file already exists".

Definition lstat (path : string) : world -> result unit * world :=
  attempt (fun w => (match root w !! path with Some _ => Ok tt | None => Err ErrNotExist end, w)).

Definition mkdirAll (path : string) : world -> result unit * world := attempt (fun w => (Ok tt, w)).

Definition mkdir (path : string) : world -> result unit * world :=
  attempt (fun w =>
    match root w !! path with
    | Some _ => (Err ErrExist, w)
    | None => (Ok tt, on_store (set_root (<[path := ∅]> (root w))) w)
    end).

(** Removing what is not there is no error; [ft_short] of the files are removed
    before a failure. *)
Definition removeAll (path : string) (w : world) : result unit * world :=
  let '(ft, w) := syscall w in
  match ft with
  | Some ft =>
      (Err (ft_err ft),
       on_store (set_root (alter (fun d => list_to_map (drop (ft_short ft) (map_to_list d))) path (root w))) w)
  | None => (Ok tt, on_store (set_root (delete path (root w))) w)
  end.

(** An empty directory is replaced. *)
Definition rename (old new : string) : world -> result unit * world :=
  attempt (fun w =>
    match root w !! old with
    | None => (Err ErrNotExist, w)
    | Some d =>
        if decide (default ∅ (root w !! new) = ∅)
        then (Ok tt, on_store (set_root (<[new := d]> (delete old (root w)))) w)
        else (Err ErrExist, w)
    end).

(** A file that is there, with other contents. *)
Definition setFile (path name : string) (f : list N -> list N) (w : world) : world :=
  on_store (set_root (alter (alter f name) path (root w))) w.
Definition putFile (path name : string) (data : list N) (w : world) : world :=
  on_store (set_root (alter (<[name := data]>) path (root w))) w.

(** [root.OpenFile] with [O_CREATE] and one of [O_APPEND], [O_EXCL] and
    [O_TRUNC]. *)
Inductive openMode := O_APPEND | O_EXCL | O_TRUNC.

Definition openFile (mode : openMode) (path name : string) : world -> result unit * world :=
  attempt (fun w =>
    match root w !! path with
    | None => (Err ErrNotExist, w)
    | Some d =>
        match mode, d !! name with
        | O_EXCL, Some _ => (Err ErrExist, w)
        | O_APPEND, Some _ => (Ok tt, w)
        | _, _ => (Ok tt, putFile path name [] w)
        end
    end).

(** What a file holds after its first [f.Write]: it is at the end of the file
    with [O_APPEND], and at its start otherwise. *)
Definition overwrite (mode : openMode) (data old : list N) : list N :=
  match mode with O_APPEND => old ++ data | _ => data ++ drop (length data) old end.

(** [f.Write]; the size of a file is an [int64]. *)
Definition writeFile (mode : openMode) (path name : string) (data : list N) (w : world) : result unit * world :=
  let '(ft, w) := syscall w in
  let old := default [] (root w !! path ≫= (.!! name)) in
  match ft with
  | Some ft => (Err (ft_err ft), setFile path name (overwrite mode (take (ft_short ft) data)) w)
  | None =>
      if 2 ^ 63 <=? Z.of_nat (length (overwrite mode data old)) then (Err (Sentinel "file too large"), w)
      else (Ok tt, setFile path name (overwrite mode data) w)
  end.

Definition openRegular (path name : string) : world -> result (list N) * world :=
  attempt (fun w =>
    match root w !! path ≫= (.!! name) with
    | Some data =>
        attempt (fun w =>
          let '(r, w) := attempt (fun w => (Ok data, w)) w in
          (map_err (fun e => EJoin [e]) r, w)) w
    | None => (Err ErrNotExist, w)
    end).

(** ** Handles *)

Definition acquire (run : string) (w : world) : result unit * world :=
  if fs_closed (rt_store w) then (Err ErrClosed, w)
  else (Ok tt, opened 1 (on_store (set_active (partial_alter (fun n => Some (default 0 n + 1)) run
                                                (fs_active (rt_store w)))) w)).

Definition release (run : string) (w : world) : world :=
  let n := default 0 (fs_active (rt_store w) !! run) - 1 in
  opened (-1) (on_store (set_active (if n =? 0 then delete run (fs_active (rt_store w))
                                     else <[run := n]> (fs_active (rt_store w)))) w).

(** ** Manifests *)

(** The canonical JSON of a manifest: digests and run identifiers are lowercase
    hexadecimal, so that no character of a string is escaped. *)
Definition jsonField (name value : string) : string :=
  string_of [34%N] +:+ name +:+ string_of [34%N] +:+ ":" +:+ value.
Definition jsonString (s : string) : string := string_of [34%N] +:+ s +:+ string_of [34%N].
Definition jsonObject (fields : list string) : string := "{" +:+ String.concat "," fields +:+ "}".

Definition identityJSON (a : AttemptIdentity) : string :=
  jsonObject [
    jsonField "run_id" (jsonString (ai_RunID a));
    jsonField "job_id" (pretty (ai_JobID a));
    jsonField "shuffle_id" (pretty (ai_ShuffleID a));
    jsonField "stage_id" (pretty (ai_StageID a));
    jsonField "stage_attempt_id" (pretty (ai_StageAttemptID a));
    jsonField "task_id" (pretty (ai_TaskID a));
    jsonField "task_attempt_id" (pretty (ai_TaskAttemptID a));
    jsonField "map_partition_id" (pretty (ai_MapPartitionID a)) ].

Definition bucketJSON (b : BucketMetadata) : string :=
  jsonObject [
    jsonField "partition_id" (pretty (bk_PartitionID b));
    jsonField "record_count" (pretty (bk_RecordCount b));
    jsonField "byte_count" (pretty (bk_ByteCount b));
    jsonField "sha256" (jsonString (bk_SHA256 b)) ].

Definition outputJSON (o : MapOutput) : string :=
  jsonObject [
    jsonField "version" (pretty (mo_Version o));
    jsonField "attempt" (identityJSON (mo_Attempt o));
    jsonField "num_map_partitions" (pretty (mo_NumMapPartitions o));
    jsonField "num_reduce_partitions" (pretty (mo_NumReducePartitions o));
    jsonField "buckets" ("[" +:+ String.concat "," (bucketJSON <$> mo_Buckets o) +:+ "]") ].

Definition manifestBytes (o : MapOutput) : result (list N) :=
  _ ← validateMapOutput o;
  let data := bytes_of (outputJSON o) in
  fail_if (MaxManifestBytes <? Z.of_nat (length data)) (Errorf "shuffle manifest exceeds size limit" []);;
  Ok data.

Definition emptyBucket (i : PartitionID) : BucketMetadata := mkBucket i 0 0 emptyDigest.

Definition initialOutput (a : AttemptIdentity) (maps reduces : Z) : result MapOutput :=
  _ ← validateIdentity a;
  fail_if ((maps <=? 0) || (maps <=? ai_MapPartitionID a) || (reduces <=? 0))
    (Errorf "invalid shuffle partition counts or map partition" []);;
  let minimum := bytes_of (bucketJSON (emptyBucket 0)) in
  fail_if (MaxManifestBytes / Z.of_nat (length minimum) <? reduces)
    (Errorf "shuffle manifest exceeds size limit" []);;
  let output := mkMapOutput FormatVersion a maps reduces
                  ((fun i : nat => emptyBucket (Z.of_nat i)) <$> seq 0 (Z.to_nat reduces)) in
  _ ← manifestBytes output;
  Ok output.

(** ** The store *)

(** The temporary name starts with a dot, which no published path does. *)
Definition privatePath (a : AttemptIdentity) (nonce : list N) : string :=
  joinPath
    [ ai_RunID a;
      "job-" +:+ pretty (ai_JobID a);
      "shuffle-" +:+ pretty (ai_ShuffleID a);
      "stage-" +:+ pretty (ai_StageID a);
      "stage-attempt-" +:+ pretty (ai_StageAttemptID a);
      "map-" +:+ pretty (ai_MapPartitionID a);
      ".tmp-" +:+ hex_EncodeToString nonce ].

(** A hash is the bytes written to it so far; a nil one is [None]. *)
Record fileWriter := mkWriter {
  fw_output : MapOutput;
  fw_hashes : list (option (list N));
  fw_private : string;
  fw_final : string;
  fw_closed : bool;
  fw_err : option error }.

Definition newFileWriter (output : MapOutput) (private final : string) : fileWriter :=
  mkWriter output (replicate (length (mo_Buckets output)) None) private final false None.

(** [context.Cause] of a context that has ended with [err]. *)
Definition cause (c : goContext) (err : error) (w : world) : error * world :=
  let '(e, w) := readCause c w in (default err e, w).

(** [root.MkdirAll(parent)], [rand.Read] and [root.Mkdir(private)], the handle
    of the run being released when one of them fails. *)
Definition createPrivate (a : AttemptIdentity) (w : world) : result string * world :=
  let '(r, w) := mkdirAll (attemptPath a) w in
  match r with
  | Err err => (Err err, release (ai_RunID a) w)
  | Ok _ =>
      let private := privatePath a (nonce (fs_draws (rt_store w))) in
      let '(r, w) := mkdir private (on_store count_draw w) in
      match r with
      | Err err => (Err err, release (ai_RunID a) w)
      | Ok _ => (Ok private, w)
      end
  end.

Definition BeginAttempt (c : goContext) (a : AttemptIdentity) (maps reduces : Z) (w : world)
    : result fileWriter * world :=
  let '(e, w) := readErr c w in
  match e with
  | Some err => let '(err, w) := cause c err w in (Err err, w)
  | None =>
      match initialOutput a maps reduces with
      | Err err => (Err err, w)
      | Ok output =>
          let '(r, w) := acquire (ai_RunID a) w in
          match r with
          | Err err => (Err err, w)
          | Ok _ =>
              let final := attemptPath a in
              let '(r, w) := lstat final w in
              match r with
              | Ok _ => (Err ErrOutputExists, release (ai_RunID a) w)
              | Err err =>
                  if errors_Is err fs_ErrNotExist then
                    let '(private, w) := createPrivate a w in
                    (private ← private; Ok (newFileWriter output private final), w)
                  else (Err err, release (ai_RunID a) w)
              end
          end
      end
  end.

(** ** The writer *)

Definition finishWriter (err : option error) (wr : fileWriter) (w : world) : fileWriter * world :=
  (mkWriter (fw_output wr) (fw_hashes wr) (fw_private wr) (fw_final wr) true err,
   release (ai_RunID (mo_Attempt (fw_output wr))) w).

Definition abortWriter (cause : option error) (wr : fileWriter) (w : world) : option error * fileWriter * world :=
  let '(r, w) := removeAll (fw_private wr) w in
  let err := errors_Join [cause; match r with Err e => Some e | Ok _ => None end] in
  let '(wr, w) := finishWriter err wr w in
  (err, wr, w).

Definition checkWriter (c : goContext) (wr : fileWriter) (w : world) : option error * fileWriter * world :=
  if fw_closed wr then (Some (default ErrClosed (fw_err wr)), wr, w)
  else
    let '(e, w) := readErr c w in
    match e with
    | Some err => let '(err, w) := cause c err w in abortWriter (Some err) wr w
    | None => (None, wr, w)
    end.

(** The callback of [context.AfterFunc]. *)
Definition afterWriter (c : goContext) (wr : fileWriter) (w : world) : fileWriter * world :=
  let '(e, w) := readErr c w in
  match e with
  | Some err =>
      if fw_closed wr then (wr, w)
      else
        let '(err, w) := cause c err w in
        let '(_, wr, w) := abortWriter (Some err) wr w in (wr, w)
  | None => (wr, w)
  end.

Definition addRecord (partition : nat) (data : list N) (wr : fileWriter) : fileWriter :=
  let o := fw_output wr in
  let add b := mkBucket (bk_PartitionID b) (i64 (bk_RecordCount b + 1))
                 (i64 (bk_ByteCount b + Z.of_nat (length data))) (bk_SHA256 b) in
  mkWriter (mkMapOutput (mo_Version o) (mo_Attempt o) (mo_NumMapPartitions o) (mo_NumReducePartitions o)
              (alter add partition (mo_Buckets o)))
    (alter (fun h => Some (default [] h ++ data)) partition (fw_hashes wr))
    (fw_private wr) (fw_final wr) (fw_closed wr) (fw_err wr).

(** Open the selected bucket, append one line to it, close it. *)
Definition appendBucket (private : string) (partition : PartitionID) (data : list N) (w : world)
    : result unit * world :=
  let '(r, w) := openFile O_APPEND private (bucketName partition) w in
  match r with
  | Err err => (Err err, w)
  | Ok _ =>
      let '(r, w) := writeFile O_APPEND private (bucketName partition) data w in
      (map_err (fun e => EJoin [e]) r, w)
  end.

Definition WriteRecord (c : goContext) (wr : fileWriter) (key : string) (value : any) (w : world)
    : option error * fileWriter * world :=
  let '(wr, w) := afterWriter c wr w in
  let '(e, wr, w) := checkWriter c wr w in
  match e with
  | Some err => (Some err, wr, w)
  | None =>
      match EncodeRecord key value with
      | Err err => abortWriter (Some err) wr w
      | Ok data =>
          match PartitionFor key (mo_NumReducePartitions (fw_output wr)) with
          | Err err => abortWriter (Some err) wr w
          | Ok partition =>
              let '(r, w) := appendBucket (fw_private wr) partition data w in
              match r with
              | Err err => abortWriter (Some err) wr w
              | Ok _ => checkWriter c (addRecord (Z.to_nat partition) data wr) w
              end
          end
      end
  end.

Definition setDigest (i : nat) (digest : string) (wr : fileWriter) : fileWriter :=
  let o := fw_output wr in
  let set b := mkBucket (bk_PartitionID b) (bk_RecordCount b) (bk_ByteCount b) digest in
  mkWriter (mkMapOutput (mo_Version o) (mo_Attempt o) (mo_NumMapPartitions o) (mo_NumReducePartitions o)
              (alter set i (mo_Buckets o)))
    (fw_hashes wr) (fw_private wr) (fw_final wr) (fw_closed wr) (fw_err wr).

(** The loop of [Publish] over the buckets from [i] on, whose hashes are
    [todo]; the partition of bucket [i] is [i]. *)
Fixpoint publishBuckets (c : goContext) (i : nat) (todo : list (option (list N))) (wr : fileWriter) (w : world)
    : option error * fileWriter * world :=
  match todo with
  | [] => (None, wr, w)
  | h :: todo =>
      let '(e, wr, w) := checkWriter c wr w in
      match e with
      | Some err => (Some err, wr, w)
      | None =>
          match h with
          | Some bytes => publishBuckets c (S i) todo (setDigest i (sha256_hex bytes) wr) w
          | None =>
              let partition := match mo_Buckets (fw_output wr) !! i with
                               | Some b => bk_PartitionID b | None => 0 end in
              let '(r, w) := openFile O_EXCL (fw_private wr) (bucketName partition) w in
              match r with
              | Err err => abortWriter (Some err) wr w
              | Ok _ => publishBuckets c (S i) todo wr w
              end
          end
      end
  end.

(** [root.WriteFile]. *)
Definition writeManifest (path : string) (data : list N) (w : world) : result unit * world :=
  let '(r, w) := openFile O_TRUNC path "manifest.json" w in
  match r with
  | Err err => (Err err, w)
  | Ok _ => writeFile O_TRUNC path "manifest.json" data w
  end.

(** [Lstat] and [Rename] of [Publish]. *)
Definition publishDirectory (private final : string) (w : world) : result unit * world :=
  let '(r, w) := lstat final w in
  match r with
  | Ok _ => (Err ErrOutputExists, w)
  | Err err =>
      if errors_Is err fs_ErrNotExist then
        let '(r, w) := rename private final w in
        match r with
        | Ok _ => (Ok tt, w)
        | Err err =>
            let '(r, w) := lstat final w in
            (Err (match r with Ok _ => EJoin [ErrOutputExists; err] | Err _ => err end), w)
        end
      else (Err err, w)
  end.

(** The end of [Publish], when the bucket files are complete. *)
Definition publishManifest (c : goContext) (wr : fileWriter) (w : world) : result MapOutput * fileWriter * world :=
  let fail err wr w :=
    let '(e, wr, w) := abortWriter (Some err) wr w in (Err (default err e), wr, w) in
  match manifestBytes (fw_output wr) with
  | Err err => fail err wr w
  | Ok data =>
      let '(r, w) := writeManifest (fw_private wr) data w in
      match r with
      | Err err => fail err wr w
      | Ok _ =>
          let '(e, wr, w) := checkWriter c wr w in
          match e with
          | Some err => (Err err, wr, w)
          | None =>
              let '(r, w) := publishDirectory (fw_private wr) (fw_final wr) w in
              match r with
              | Err err => fail err wr w
              | Ok _ => let '(wr, w) := finishWriter None wr w in (Ok (fw_output wr), wr, w)
              end
          end
      end
  end.

Definition PublishAttempt (c : goContext) (wr : fileWriter) (w : world) : result MapOutput * fileWriter * world :=
  let '(wr, w) := afterWriter c wr w in
  let '(e, wr, w) := checkWriter c wr w in
  match e with
  | Some err => (Err err, wr, w)
  | None =>
      let '(e, wr, w) := publishBuckets c 0 (fw_hashes wr) wr w in
      match e with
      | Some err => (Err err, wr, w)
      | None => publishManifest c wr w
      end
  end.

Definition AbortAttempt (c : goContext) (wr : fileWriter) (w : world) : option error * fileWriter * world :=
  let '(wr, w) := afterWriter c wr w in
  if fw_closed wr then (fw_err wr, wr, w) else abortWriter None wr w.

(** ** The record decoder *)

(** [RecordDecoder]: the bytes its reader has left, and the error that stopped
    it, [Some None] being [io.EOF].  How the buffered reader cuts its input
    into reads cannot be observed. *)
Record RecordDecoder := mkDecoder { rd_rest : list N; rd_err : option (option error) }.

Definition NewRecordDecoder (contents : list N) : RecordDecoder := mkDecoder contents None.

(** A line without its newline; [Ok None] is [io.EOF]. *)
Definition readLine (rest : list N) : result (option (list N)) * list N :=
  let '(line, rest, eof) := readString rest in
  let length := Z.of_nat (length line) - (if eof : bool then 0 else 1) in
  if MaxRecordBytes <? length then (Err ErrTooLarge, rest)
  else if eof then
    (match line with
     | [] => Ok None
     | _ => Err (Errorf "%w: missing final newline" [FWrap ErrInvalid])
     end, rest)
  else (Ok (Some (removelast line)), rest).

Definition decoderNext (d : RecordDecoder) : result (option (string * any)) * RecordDecoder :=
  match rd_err d with
  | Some (Some err) => (Err err, d)
  | Some None => (Ok None, d)
  | None =>
      let '(line, rest) := readLine (rd_rest d) in
      match line with
      | Ok (Some line) =>
          match decodeRecord line with
          | Ok record => (Ok (Some record), mkDecoder rest None)
          | Err err => (Err err, mkDecoder rest (Some (Some err)))
          end
      | Ok None => (Ok None, mkDecoder rest (Some None))
      | Err err => (Err err, mkDecoder rest (Some (Some err)))
      end
  end.

(** ** The reader *)

(** [br_read] are the bytes counted and hashed so far; [br_done] is the error
    the reader is closed with, if it is, [Some None] being [io.EOF], and
    [br_close] the operation of the file system that closed its file. *)
Record fileBucketReader := mkReader {
  br_output : MapOutput;
  br_partition : PartitionID;
  br_decoder : RecordDecoder;
  br_read : list N;
  br_records : Z;
  br_done : option (option error);
  br_close : option nat }.

Definition newReader (o : MapOutput) (p : PartitionID) (contents : list N) : fileBucketReader :=
  mkReader o p (NewRecordDecoder contents) [] 0 None None.

Definition br_bucket (r : fileBucketReader) : BucketMetadata :=
  default (emptyBucket (br_partition r)) (mo_Buckets (br_output r) !! Z.to_nat (br_partition r)).

Definition bucketError (r : fileBucketReader) (err : error) : error :=
  InputError (mo_Attempt (br_output r)) (br_partition r) err.

(** The reader's [closeErr]. *)
Definition closeErr (r : fileBucketReader) : option error := br_close r ≫= fun n => ft_err <$> faults n.

(** A failing [Close] of the file is joined to the error of the reader. *)
Definition finishReader (err : option error) (r : fileBucketReader) (w : world) : fileBucketReader * world :=
  let n := fs_ops (rt_store w) in
  let '(ft, w) := syscall w in
  let err := match ft with
             | Some ft => errors_Join [err; Some (bucketError r (ft_err ft))]
             | None => err
             end in
  (mkReader (br_output r) (br_partition r) (br_decoder r) (br_read r) (br_records r) (Some err) (Some n),
   release (ai_RunID (mo_Attempt (br_output r))) w).

(** [io.LimitReader]. *)
Definition limitReader (n : Z) (data : list N) : list N :=
  if Z.of_nat (length data) <=? n then data else take (Z.to_nat n) data.

(** [io.ReadAll] of the open manifest. *)
Definition readManifest (path : string) (w : world) : result (list N) * world :=
  let '(r, w) := openRegular path "manifest.json" w in
  match r with
  | Err err => (Err err, w)
  | Ok data =>
      let '(r, w) := attempt (fun w => (Ok (limitReader (MaxManifestBytes + 1) data), w)) w in
      (map_err (fun e => EJoin [e]) r, w)
  end.

(** The bucket's file, once the manifest is the one of the accepted output. *)
Definition openBucketFile (o : MapOutput) (p : PartitionID) (expected : list N) (w : world)
    : result (list N) * world :=
  let directory := attemptPath (mo_Attempt o) in
  let '(data, w) := readManifest directory w in
  match data with
  | Err err => (Err err, w)
  | Ok data =>
      if negb (bool_decide (data = expected)) then (Err (Errorf "manifest differs from accepted output" []), w)
      else
        let '(f, w) := openRegular directory (bucketName p) w in
        match f with
        | Err err => (Err err, w)
        | Ok contents =>
            let '(r, w) := attempt (fun w =>
              (if Z.of_nat (length contents) =? bk_ByteCount (br_bucket (newReader o p contents))
               then Ok contents
               else Err (Errorf "bucket size differs from accepted output" []), w)) w in
            (map_err (fun e => EJoin [e]) r, w)
        end
  end.

Definition OpenBucketReader (c : goContext) (o : MapOutput) (p : PartitionID) (w : world)
    : result fileBucketReader * world :=
  let '(e, w) := readErr c w in
  match e with
  | Some err => let '(err, w) := cause c err w in (Err err, w)
  | None =>
      match manifestBytes o with
      | Err err => (Err err, w)
      | Ok expected =>
          if (p <? 0) || (mo_NumReducePartitions o <=? p)
          then (Err (Errorf "invalid reduce partition %d" [FInt p]), w)
          else
            let '(r, w) := acquire (ai_RunID (mo_Attempt o)) w in
            match r with
            | Err err => (Err err, w)
            | Ok _ =>
                let '(f, w) := openBucketFile o p expected w in
                match f with
                | Ok contents => (Ok (newReader o p contents), w)
                | Err err =>
                    let '(e, w) := readErr c (release (ai_RunID (mo_Attempt o)) w) in
                    match e with
                    | Some e => let '(e, w) := cause c e w in (Err e, w)
                    | None => (Err (InputError (mo_Attempt o) p err), w)
                    end
                end
            end
      end
  end.

(** The decoder reads through [bucketStream], which counts and hashes. *)
Definition readRecord (r : fileBucketReader) : result (option (string * any)) * fileBucketReader :=
  let '(record, d) := decoderNext (br_decoder r) in
  let taken := take (length (rd_rest (br_decoder r)) - length (rd_rest d)) (rd_rest (br_decoder r)) in
  let read := br_read r ++ taken in
  let record :=
    if bk_ByteCount (br_bucket r) <? Z.of_nat (length read)
    then Err (Errorf "read shuffle record: %w" [FWrap (Errorf "bucket grew beyond accepted size" [])])
    else record in
  (record, mkReader (br_output r) (br_partition r) d read
             (br_records r + match record with Ok (Some _) => 1 | _ => 0 end) (br_done r) (br_close r)).

(** The switch on a record, in [Next]. *)
Definition rejectRecord (r : fileBucketReader) (key : string) : option error :=
  match PartitionFor key (mo_NumReducePartitions (br_output r)) with
  | Err err => Some err
  | Ok partition =>
      if negb (partition =? br_partition r)
      then Some (Errorf "record belongs to reduce partition %d" [FInt partition])
      else if bk_RecordCount (br_bucket r) <? br_records r
      then Some (Errorf "bucket contains more records than accepted output" [])
      else None
  end.

(** What is checked at the end of the file. *)
Definition rejectEOF (r : fileBucketReader) : option error :=
  if negb (br_records r =? bk_RecordCount (br_bucket r)) ||
     negb (Z.of_nat (length (br_read r)) =? bk_ByteCount (br_bucket r)) ||
     negb (bool_decide (sha256_hex (br_read r) = bk_SHA256 (br_bucket r)))
  then Some (Errorf "bucket record count, size or SHA-256 differs from accepted output" [])
  else None.

(** What [Next] makes of one read: a record, or the error it finishes with. *)
Definition nextStep (r : fileBucketReader) : result (option (string * any)) * fileBucketReader :=
  let '(record, r) := readRecord r in
  (match record with
   | Ok (Some (key, value)) =>
       match rejectRecord r key with
       | Some err => Err (bucketError r err)
       | None => Ok (Some (key, value))
       end
   | Ok None =>
       match rejectEOF r with
       | Some err => Err (bucketError r err)
       | None => Ok None
       end
   | Err err => Err (bucketError r err)
   end, r).

Definition endReader (err : option error) (r : fileBucketReader) (w : world)
    : result (option (string * any)) * fileBucketReader * world :=
  let '(r, w) := finishReader err r w in
  (match br_done r with Some (Some e) => Err e | _ => Ok None end, r, w).

(** The callback of [context.AfterFunc]. *)
Definition afterReader (c : goContext) (r : fileBucketReader) (w : world) : fileBucketReader * world :=
  let '(e, w) := readErr c w in
  match e, br_done r with
  | Some err, None => let '(err, w) := cause c err w in finishReader (Some err) r w
  | _, _ => (r, w)
  end.

Definition NextRecord (c : goContext) (r : fileBucketReader) (w : world)
    : result (option (string * any)) * fileBucketReader * world :=
  let '(r, w) := afterReader c r w in
  match br_done r with
  | Some (Some err) => (Err err, r, w)
  | Some None => (Ok None, r, w)
  | None =>
      let '(e, w) := readErr c w in
      match e with
      | Some err => let '(err, w) := cause c err w in endReader (Some err) r w
      | None =>
          let '(ft, w) := syscall w in
          let '(e, w) := readErr c w in
          match e, ft with
          | Some err, _ => let '(err, w) := cause c err w in endReader (Some err) r w
          | None, Some ft =>
              endReader (Some (bucketError r (Errorf "read shuffle record: %w" [FWrap (ft_err ft)]))) r w
          | None, None =>
              let '(record, r) := nextStep r in
              match record with
              | Ok (Some record) => (Ok (Some record), r, w)
              | Ok None => endReader None r w
              | Err err => endReader (Some err) r w
              end
          end
      end
  end.

Definition CloseBucketReader (r : fileBucketReader) (w : world) : option error * fileBucketReader * world :=
  match br_done r with
  | Some _ => (closeErr r, r, w)
  | None => let '(r, w) := finishReader (Some ErrClosed) r w in (closeErr r, r, w)
  end.

(** ** The implementation of the interface *)

#[export] Instance FileShuffleStore : ShuffleStore := {|
  store := filesystem;
  writer := fileWriter;
  reader := fileBucketReader;
  Begin := BeginAttempt;
  Write := WriteRecord;
  Publish := PublishAttempt;
  Abort := AbortAttempt;
  OpenBucket := OpenBucketReader;
  ReadRecord := NextRecord;
  CloseReader := CloseBucketReader |}.

End filestore.

(** [NewFilesystem] on a directory with contents [disk]; creating and opening
    the root is the work of the operating system. *)
Definition NewFilesystem (path : string) (disk : gmap string directory) : result filesystem :=
  fail_if (negb (String.prefix "/" path)) (Errorf "shuffle root must be absolute" []);;
  Ok (mkFilesystem disk ∅ false 0 0).
