(* ===== verification/FileReads.v ===== *)
(** * FileReads: what reading a bucket returns

    The contents of a bucket as a function of the directory, and that
    [OpenBucketReader] and [NextRecord] return exactly these contents: the
    filesystem store keeps the promises of [StoreReads]. *)

From S2P Require Import Prelude Bytes Plan Stages Shuffle Reports Runtime TextSource Iterator IteratorProofs FileStore.
#[local] Open Scope Z_scope.

Section reads.
Context {RC : RecordCodec}.
Variable faults : nat -> option fault.
Variable nonce : nat -> list N.

Notation world := (runtime filesystem).

(** ** Operations of the file system *)

Definition disk_faults : Prop := exists n, is_Some (faults n).

(** Everything but the directory and the clocks is as before. *)
Definition quiet (w w' : world) : Prop :=
  rt_open w' = rt_open w /\ fs_active (rt_store w') = fs_active (rt_store w) /\
  fs_closed (rt_store w') = fs_closed (rt_store w) /\ fs_draws (rt_store w') = fs_draws (rt_store w).

#[export] Instance quiet_preorder : PreOrder quiet.
Proof. split; [by intros w|]. intros w1 w2 w3 (? & ? & ? & ?) (? & ? & ? & ?). split_and!; congruence. Qed.

Lemma attempt_spec {A} (f : world -> result A * world) w r w' :
  attempt faults f w = (r, w') ->
  (exists x, r = Err x /\ disk_faults /\ root w' = root w /\ quiet w w') \/
  (exists w1, f w1 = (r, w') /\ root w1 = root w /\ quiet w w1).
Proof.
  unfold attempt, syscall. destruct (faults (fs_ops (rt_store w))) as [ft|] eqn:E.
  - intros [= <- <-]. left. exists (ft_err ft). split_and!; try done. by exists (fs_ops (rt_store w)); rewrite E.
  - intros H. right. eexists. by split_and!.
Qed.

(** An operation that only reads. *)
Definition observes {A} (w : world) (r : result A) (w' : world) (value : result A) : Prop :=
  root w' = root w /\ quiet w w' /\ (r = value \/ disk_faults /\ exists x, r = Err x).

Lemma attempt_observes {A} (w : world) (r : result A) w' value :
  attempt faults (fun w => (value (root w), w)) w = (r, w') -> observes w r w' (value (root w)).
Proof.
  intros [(x & -> & Hf & Hr & Hq)|(w1 & [= <- <-] & Hr & Hq)]%attempt_spec.
  - split_and!; try done. right. eauto.
  - rewrite Hr. split_and!; try done. by left.
Qed.

Lemma openRegular_spec path name w r w' :
  openRegular faults path name w = (r, w') ->
  observes w r w' (match root w !! path ≫= (.!! name) with Some data => Ok data | None => Err ErrNotExist end).
Proof.
  unfold openRegular. intros [(x & -> & Hf & Hr & Hq)|(w1 & H & Hr & Hq)]%attempt_spec.
  { split_and!; try done. right. eauto. }
  rewrite <- Hr. destruct (root w1 !! path ≫= _) as [data|]; [|injection H as <- <-; split_and!; try done; by left].
  apply attempt_spec in H as [(x & -> & Hf & Hr1 & Hq1)|(w2 & H & Hr1 & Hq1)].
  { split_and!; [congruence|by etrans|]. right. eauto. }
  destruct (attempt faults (fun w => (Ok data, w)) w2) as [r1 w3] eqn:E. injection H as <- <-.
  apply (attempt_observes _ _ _ (fun _ => Ok data)) in E as (Hr3 & Hq3 & He).
  split_and!; [congruence|etrans; [done|by etrans]|]. destruct He as [->|(? & x & ->)]; [by left|right; eauto].
Qed.

(** ** The contents of a bucket *)

(** What the open reader [r] will return, [fuel] bounding the lines left. *)
Fixpoint scan (fuel : nat) (r : fileBucketReader) : list (string * any) * option error :=
  match fuel with
  | O => ([], None)
  | S fuel =>
      let '(record, r) := nextStep r in
      match record with
      | Ok (Some record) => let s := scan fuel r in (record :: s.1, s.2)
      | Ok None => ([], None)
      | Err err => ([], Some err)
      end
  end.

Definition left_in (r : fileBucketReader) : nat := length (rd_rest (br_decoder r)).

Lemma readString_rest bs line rest eof :
  readString bs = (line, rest, eof) -> (length rest <= length bs)%nat /\ (eof = false -> length rest < length bs)%nat.
Proof.
  revert line rest eof. induction bs as [|b bs IH]; intros line rest eof; cbn; [by intros [= <- <- <-]|].
  destruct (b =? newline)%N; [intros [= <- <- <-]; lia|].
  destruct (readString bs) as [[l r] e] eqn:E. intros [= <- <- <-]. destruct (IH _ _ _ eq_refl). lia.
Qed.

(** A record consumes a line. *)
Lemma nextStep_left r kv r' : nextStep r = (Ok (Some kv), r') -> (left_in r' < left_in r)%nat.
Proof.
  unfold nextStep, readRecord, decoderNext, left_in. destruct (rd_err (br_decoder r)) as [[x|]|].
  - destruct (bk_ByteCount _ <? _); [done|]. by intros [= ? <-].
  - destruct (bk_ByteCount _ <? _); [done|]. intros [= H]. destruct (rejectEOF _); done.
  - unfold readLine. destruct (readString (rd_rest (br_decoder r))) as [[line rest] eof] eqn:E.
    apply readString_rest in E as [_ Hlt]. destruct (MaxRecordBytes <? _).
    { destruct (bk_ByteCount _ <? _); by intros [= ? <-]. }
    destruct eof.
    { destruct line; destruct (bk_ByteCount _ <? _); try (by intros [= ? <-]). intros [= H].
      by destruct (rejectEOF _). }
    destruct (decodeRecord _) as [[k v]|x]; destruct (bk_ByteCount _ <? _); try (by intros [= ? <-]).
    destruct (rejectRecord _ k); [done|]. intros [= _ <-]. cbn. by apply Hlt.
Qed.

Lemma scan_fuel fuel fuel' r : (left_in r < fuel)%nat -> (left_in r < fuel')%nat -> scan fuel r = scan fuel' r.
Proof.
  revert fuel' r. induction fuel as [|fuel IH]; intros [|fuel'] r H H'; [lia..|]. cbn.
  destruct (nextStep r) as [[[kv|]|x] r'] eqn:E; [|done..].
  apply nextStep_left in E. by rewrite (IH fuel' r') by lia.
Qed.

Definition fileUnread (r : fileBucketReader) : list (string * any) * option error :=
  match br_done r with Some e => ([], e) | None => scan (S (left_in r)) r end.

(** The file of a bucket, or what is wrong with it. *)
Definition storedBucket (rt : gmap string directory) (o : MapOutput) (p : PartitionID) (expected : list N)
    : result (list N) :=
  let directory := attemptPath (mo_Attempt o) in
  match rt !! directory ≫= (.!! "manifest.json") with
  | None => Err ErrNotExist
  | Some data =>
      if negb (bool_decide (limitReader (MaxManifestBytes + 1) data = expected))
      then Err (Errorf "manifest differs from accepted output" [])
      else
        match rt !! directory ≫= (.!! bucketName p) with
        | None => Err ErrNotExist
        | Some contents =>
            if Z.of_nat (length contents) =? bk_ByteCount (br_bucket (newReader o p contents)) then Ok contents
            else Err (EJoin [Errorf "bucket size differs from accepted output" []])
        end
  end.

Definition fileBucket (v : bool * gmap string directory * nat) (o : MapOutput) (p : PartitionID)
    : list (string * any) * option error :=
  match manifestBytes o with
  | Err err => ([], Some err)
  | Ok expected =>
      if (p <? 0) || (mo_NumReducePartitions o <=? p)
      then ([], Some (Errorf "invalid reduce partition %d" [FInt p]))
      else if v.1.1 then ([], Some ErrClosed)
      else
        match storedBucket v.1.2 o p expected with
        | Err err => ([], Some (InputError (mo_Attempt o) p err))
        | Ok contents => fileUnread (newReader o p contents)
        end
  end.

Lemma openBucketFile_spec o p expected w r w' :
  openBucketFile faults o p expected w = (r, w') -> observes w r w' (storedBucket (root w) o p expected).
Proof.
  unfold openBucketFile, readManifest, storedBucket.
  destruct (openRegular faults _ "manifest.json" w) as [m w1] eqn:Em.
  apply openRegular_spec in Em as (Hr1 & Hq1 & Hm). destruct m as [data|x].
  2:{ intros [= <- <-]. split_and!; [done..|]. destruct Hm as [Hm|[? _]]; [|right; eauto]. left.
      destruct (root w !! _ ≫= _); [done|]. by injection Hm as ->. }
  destruct Hm as [Hm|(? & x & ?)]; [|done]. destruct (root w !! _ ≫= (.!! "manifest.json")) as [data'|]; [|done].
  injection Hm as <-.
  destruct (attempt faults _ w1) as [r2 w2] eqn:E2.
  apply (attempt_observes _ _ _ (fun _ => Ok (limitReader (MaxManifestBytes + 1) data))) in E2 as (Hr2 & Hq2 & H2).
  assert (Hq12 : quiet w w2) by (by etrans). destruct r2 as [data2|x]; cbn [map_err].
  2:{ intros [= <- <-]. split_and!; [congruence|done|]. destruct H2 as [?|[? _]]; [done|right; eauto]. }
  destruct H2 as [[= ->]|(? & x & ?)]; [|done].
  destruct (negb _); [intros [= <- <-]; split_and!; [congruence|done|by left]|].
  destruct (openRegular faults _ _ w2) as [f w3] eqn:Ef. apply openRegular_spec in Ef as (Hr3 & Hq3 & Hf).
  rewrite Hr2, Hr1 in Hf. assert (Hq13 : quiet w w3) by (by etrans). destruct f as [contents|x].
  2:{ intros [= <- <-]. split_and!; [congruence|done|]. destruct Hf as [Hf|[? _]]; [|right; eauto]. left.
      destruct (root w !! _ ≫= (.!! bucketName p)); [done|]. by injection Hf as ->. }
  destruct Hf as [Hf|(? & x & ?)]; [|done]. destruct (root w !! _ ≫= (.!! bucketName p)) as [contents'|]; [|done].
  injection Hf as <-. destruct (attempt faults _ w3) as [r4 w4] eqn:E4.
  apply (attempt_observes _ _ _ (fun _ => if Z.of_nat (length contents) =? bk_ByteCount (br_bucket (newReader o p contents))
    then Ok contents else Err (Errorf "bucket size differs from accepted output" []))) in E4 as (Hr4 & Hq4 & H4).
  intros [= <- <-]. split_and!; [congruence|by etrans|]. destruct H4 as [->|(? & x & ->)]; [left|right; eauto].
  by destruct (_ =? _).
Qed.

(** ** The reader's methods *)

Definition fileView (s : filesystem) : bool * gmap string directory * nat := (fs_closed s, fs_root s, fs_draws s).

Definition reader_open (r : fileBucketReader) : Z := match br_done r with Some _ => 0 | None => 1 end.

(** The view is as before; [n] handles were opened. *)
Definition settled (n : Z) (w w' : world) : Prop :=
  fileView (rt_store w') = fileView (rt_store w) /\ rt_open w' = rt_open w + n.

Lemma settled_trans n m w1 w2 w3 : settled n w1 w2 -> settled m w2 w3 -> settled (n + m) w1 w3.
Proof. intros [H1 O1] [H2 O2]. split; [congruence|lia]. Qed.

Lemma settled_refl w : settled 0 w w.
Proof. split; [done|lia]. Qed.

Lemma observes_settled {A} w (r : result A) w' v : observes w r w' v -> settled 0 w w'.
Proof.
  intros (Hr & (Ho & _ & Hc & Hd) & _). split; [|lia]. unfold fileView. unfold root in Hr. congruence.
Qed.

Lemma cause_spec c e w x w' :
  cause c e w = (x, w') -> settled 0 w w'.
Proof. intros [= <- <-]. split; [done|cbn; lia]. Qed.

Lemma acquire_spec run w r w' :
  acquire run w = (r, w') ->
  match r with
  | Ok _ => fs_closed (rt_store w) = false /\ settled 1 w w'
  | Err x => fs_closed (rt_store w) = true /\ x = ErrClosed /\ settled 0 w w'
  end.
Proof.
  unfold acquire. destruct (fs_closed (rt_store w)) eqn:E; intros [= <- <-].
  - split_and!; [done|done|apply settled_refl].
  - by split_and!.
Qed.

Lemma release_settled run w : settled (-1) w (release run w).
Proof. by split. Qed.

Lemma OpenBucketReader_spec c o p w r w' :
  OpenBucketReader faults c o p w = (r, w') ->
  match r with
  | Ok rd => settled (reader_open rd) w w' /\ fileUnread rd = fileBucket (fileView (rt_store w)) o p
  | Err e => settled 0 w w' /\ (cancelled c \/ disk_faults \/ fileBucket (fileView (rt_store w)) o p = ([], Some e))
  end.
Proof.
  unfold OpenBucketReader. cbn [readErr]. destruct (ctx_Err c (rt_time w)) as [e|] eqn:Ec.
  { destruct (cause c e (tick w)) as [x w1] eqn:E. intros [= <- <-]. apply cause_spec in E. split; [done|].
    left. exists (rt_time w). left. by rewrite Ec. }
  unfold fileBucket. cbn [fileView fst snd]. destruct (manifestBytes o) as [expected|x].
  2:{ intros [= <- <-]. split; [apply (settled_refl w)|by auto]. }
  destruct (_ || _). { intros [= <- <-]. split; [apply (settled_refl w)|by auto]. }
  destruct (acquire _ (tick w)) as [a w1] eqn:Ea. apply acquire_spec in Ea. destruct a as [[]|x].
  2:{ destruct Ea as (Ea & -> & Hs). intros [= <- <-]. split; [done|]. cbn in Ea. rewrite Ea. by auto. }
  destruct Ea as [Ea H1]. cbn in Ea. rewrite Ea. destruct (openBucketFile faults o p expected w1) as [f w2] eqn:Ef.
  apply openBucketFile_spec in Ef as Hf. apply observes_settled in Hf as H2.
  assert (root w1 = root w) as Hroot by (destruct H1 as [H1 _]; unfold fileView in H1; by injection H1).
  destruct Hf as (_ & _ & Hf). rewrite Hroot in Hf. destruct f as [contents|x].
  - intros [= <- <-]. split; [exact (settled_trans 1 0 w w1 w2 H1 H2)|].
    destruct Hf as [Hf|(? & y & ?)]; [|done]. unfold root in Hf. by rewrite <- Hf.
  - cbn [readErr]. assert (H3 : settled 0 w (tick (release (ai_RunID (mo_Attempt o)) w2))).
    { exact (settled_trans 1 (-1) w w1 _ H1 (settled_trans 0 (-1) w1 w2 _ H2 (release_settled _ w2))). }
    destruct (ctx_Err c (rt_time (release _ w2))) as [e|] eqn:Ec2.
    + destruct (cause c e _) as [y w4] eqn:E. intros [= <- <-]. apply cause_spec in E.
      split; [exact (settled_trans 0 0 _ _ _ H3 E)|]. left. exists (rt_time (release (ai_RunID (mo_Attempt o)) w2)). left. by rewrite Ec2.
    + intros [= <- <-]. split; [done|]. right. destruct Hf as [Hf|[? _]]; [right|by left].
      unfold root in Hf. by rewrite <- Hf.
Qed.

Lemma finishReader_spec e r w r' w' :
  br_done r = None -> finishReader faults e r w = (r', w') ->
  settled (-1) w w' /\ (br_done r' = Some e \/ disk_faults /\ exists x, br_done r' = Some (Some x)) /\ reader_open r' = 0.
Proof.
  intros _. unfold finishReader, syscall. destruct (faults (fs_ops (rt_store w))) as [ft|] eqn:E; intros [= <- <-];
    (split; [done|]; split; [|done]); [|by left].
  right. split; [by exists (fs_ops (rt_store w)); rewrite E|]. cbn. by destruct e; eexists.
Qed.

Lemma afterReader_spec c r w r' w' :
  afterReader faults c r w = (r', w') ->
  settled (reader_open r' - reader_open r) w w' /\
  (r' = r \/ cancelled c /\ br_done r = None /\ exists x, br_done r' = Some (Some x)).
Proof.
  unfold afterReader. cbn [readErr]. destruct (ctx_Err c (rt_time w)) as [e|] eqn:Ec.
  2:{ intros [= <- <-]. split; [rewrite Z.sub_diag; apply (settled_refl w)|by left]. }
  destruct (br_done r) as [d|] eqn:Ed.
  { intros [= <- <-]. split; [rewrite Z.sub_diag; apply (settled_refl w)|by left]. }
  destruct (cause c e (tick w)) as [x w1] eqn:E. apply cause_spec in E. intros H.
  apply finishReader_spec in H as (H1 & H2 & H3); [|done]. split.
  - unfold reader_open at 2. rewrite Ed, H3. exact (settled_trans 0 (-1) w w1 w' E H1).
  - right. split_and!; [|done|by destruct H2 as [?|[_ ?]]; eauto]. exists (rt_time w). left. by rewrite Ec.
Qed.

(** [rd] in [w] returned [r]. *)
Definition read_returns (c : goContext) (rd : fileBucketReader) (w : world)
    (r : result (option (string * any))) (rd' : fileBucketReader) (w' : world) : Prop :=
  settled (reader_open rd' - reader_open rd) w w' /\
  match r with
  | Ok (Some kv) => exists l e, fileUnread rd = (kv :: l, e) /\ fileUnread rd' = (l, e)
  | Ok None => fileUnread rd = ([], None)
  | Err e => cancelled c \/ disk_faults \/ fileUnread rd = ([], Some e)
  end.

Lemma nextStep_done r x r' : nextStep r = (x, r') -> br_done r' = br_done r.
Proof.
  unfold nextStep. destruct (readRecord r) as [rec r1] eqn:E. intros [= _ <-]. unfold readRecord in E.
  destruct (decoderNext (br_decoder r)). by injection E as _ <-.
Qed.

(** Closing a reader with an error returns that error, unless the disk fails. *)
Lemma endReader_spec e r w res r' w' : br_done r = None -> endReader faults e r w = (res, r', w') ->
  settled (-1) w w' /\ br_done r' = Some (match res with Err x => Some x | Ok _ => None end) /\
  (res = match e with Some x => Err x | None => Ok None end \/ disk_faults /\ exists x, res = Err x).
Proof.
  intros Hd. unfold endReader. destruct (finishReader faults e r w) as [r1 w1] eqn:E. intros [= <- <- <-].
  apply finishReader_spec in E as (Hs & He & _); [|done]. split; [done|].
  destruct He as [->|[Hf [x ->]]]; [by destruct e; auto|]. split; [done|]. right. eauto.
Qed.

Lemma nextStep_returns c rd w rd0 : br_done rd0 = None -> rd = rd0 ->
  let '(record, r) := nextStep rd in
  forall res rd' w', match record with
    | Ok (Some record) => (Ok (Some record), r, w)
    | Ok None => endReader faults None r w
    | Err err => endReader faults (Some err) r w
    end = (res, rd', w') -> read_returns c rd w res rd' w'.
Proof.
  intros Hd ->. destruct (nextStep rd0) as [record r] eqn:E. apply nextStep_done in E as Hd'.
  rewrite Hd in Hd'. intros res rd' w' H. unfold read_returns, fileUnread, reader_open. rewrite Hd.
  destruct record as [[kv|]|x].
  - injection H as <- <- <-. rewrite Hd'. split; [apply settled_refl|].
    apply nextStep_left in E as Hl. cbn [scan]. rewrite E.
    rewrite (scan_fuel (left_in rd0) (S (left_in r)) r) by lia.
    exists (scan (S (left_in r)) r).1, (scan (S (left_in r)) r).2. split; [done|]. apply surjective_pairing.
  - apply endReader_spec in H as (Hs & -> & H); [|done]. cbn [scan]. rewrite E. split; [exact Hs|].
    by destruct H as [->|[? [x ->]]]; [|right; left].
  - apply endReader_spec in H as (Hs & -> & H); [|done]. cbn [scan]. rewrite E. split; [exact Hs|].
    destruct H as [->|[? [y ->]]]; auto.
Qed.

Lemma endReader_cancelled c e r w res r' w' rd0 :
  br_done r = None -> br_done rd0 = None -> (cancelled c \/ disk_faults) ->
  endReader faults (Some e) r w = (res, r', w') -> read_returns c rd0 w res r' w'.
Proof.
  intros Hr Hd Hc (Hs & Hd' & H)%endReader_spec; [|done]. split; [unfold reader_open; by rewrite Hd, Hd'|].
  assert (exists x, res = Err x) as [x ->] by (destruct H as [->|[_ ?]]; eauto). destruct Hc; auto.
Qed.

Lemma NextRecord_spec c rd w r rd' w' :
  NextRecord faults c rd w = (r, rd', w') -> read_returns c rd w r rd' w'.
Proof.
  unfold NextRecord. destruct (afterReader faults c rd w) as [rd1 w1] eqn:Ea.
  apply afterReader_spec in Ea as [Hs1 Ha].
  assert (Hcont : forall res rd' w', read_returns c rd1 w1 res rd' w' -> rd1 = rd -> read_returns c rd w res rd' w').
  { intros res rd2 w2 [Hs Hr] ->. rewrite Z.sub_diag in Hs1. split; [|done].
    exact (settled_trans 0 _ _ _ _ Hs1 Hs). }
  destruct (br_done rd1) as [[x|]|] eqn:Ed.
  - intros [= <- <- <-]. destruct Ha as [->|(Hc & _ & _)]; [|split; [done|by left]].
    split; [done|]. right. right. unfold fileUnread. by rewrite Ed.
  - intros [= <- <- <-]. destruct Ha as [->|(_ & _ & y & Hy)]; [|congruence].
    split; [done|]. unfold fileUnread. by rewrite Ed.
  - destruct Ha as [->|(_ & _ & y & Hy)]; [|congruence]. clear Hs1.
    intros H. apply Hcont; [|done]. clear Hcont. cbn [readErr] in H.
    assert (Hmove : forall w2 res rd' w', settled 0 w1 w2 -> read_returns c rd w2 res rd' w' -> read_returns c rd w1 res rd' w').
    { intros w2 res rd2 w3 Hs [Hs2 Hr]. split; [|done]. exact (settled_trans 0 _ _ _ _ Hs Hs2). }
    destruct (ctx_Err c (rt_time w1)) as [e|] eqn:Ec.
    { destruct (cause c e (tick w1)) as [x w2] eqn:E. apply cause_spec in E. apply (Hmove w2); [exact E|].
      eapply endReader_cancelled; [exact Ed|exact Ed| |exact H]. left. exists (rt_time w1). left. by rewrite Ec. }
    cbn [syscall readErr] in H. apply (Hmove (tick (on_store count_op (tick w1)))); [split; [done|cbn; lia]|].
    destruct (ctx_Err c (rt_time (on_store count_op (tick w1)))) as [e|] eqn:Ec2.
    { destruct (cause c e _) as [x w2] eqn:E. apply cause_spec in E.
      assert (read_returns c rd w2 r rd' w') as [Hs Hr].
      { eapply endReader_cancelled; [exact Ed|exact Ed| |exact H]. left.
        exists (rt_time (on_store count_op (tick w1))). left. by rewrite Ec2. }
      split; [|done]. exact (settled_trans 0 _ _ _ _ E Hs). }
    destruct (faults (fs_ops (rt_store (tick w1)))) as [ft|] eqn:Ef.
    { eapply endReader_cancelled; [exact Ed|exact Ed| |exact H]. right.
      exists (fs_ops (rt_store (tick w1))). by rewrite Ef. }
    pose proof (nextStep_returns c rd (tick (on_store count_op (tick w1))) rd Ed eq_refl) as Hn.
    destruct (nextStep rd) as [record r1]. by apply Hn.
Qed.

Lemma CloseBucketReader_spec rd w e rd' w' :
  CloseBucketReader faults rd w = (e, rd', w') -> (e = None \/ disk_faults) /\ settled (- reader_open rd) w w'.
Proof.
  assert (Hc : forall rd, closeErr faults rd = None \/ disk_faults).
  { intros r. unfold closeErr. destruct (br_close r) as [n|]; [|by left]. destruct (faults n) as [ft|] eqn:E; [|by left; cbn; rewrite E].
    right. exists n. by rewrite E. }
  unfold CloseBucketReader, reader_open. destruct (br_done rd) eqn:E.
  - intros [= <- <- <-]. split; [apply Hc|apply settled_refl].
  - destruct (finishReader faults _ rd w) as [r1 w1] eqn:Ef. intros [= <- <- <-].
    apply finishReader_spec in Ef as (Hs & _); [|done]. split; [apply Hc|exact Hs].
Qed.

#[export] Instance FileStoreReads : StoreReads (FileShuffleStore faults nonce).
Proof.
  refine (@Build_StoreReads (FileShuffleStore faults nonce) (bool * gmap string directory * nat) fileView fileBucket
    (fun _ => fileUnread) reader_open
    (fun v a => validateIdentity a = Ok tt /\ is_Some (v.1.2 !! attemptPath a)) disk_faults _ _ _).
  - intros c o p w r w' H. apply OpenBucketReader_spec in H. destruct r as [rd|e].
    + by destruct H as [[? ?] ?].
    + destruct H as [[? ?] ?]. split; [done|]. split; [cbn in *; lia|done].
  - intros c rd w r rd' w' H. apply NextRecord_spec in H as [[? ?] ?]. split; [done|]. split; [cbn in *; lia|done].
  - intros rd w e rd' w' H. apply CloseBucketReader_spec in H as [? [? ?]]. split; [done|]. split; [done|cbn in *; lia].
Defined.

End reads.
