(* ===== verification/FileWrites.v ===== *)
(** * FileWrites: what an attempt leaves in the directory

    The writer's files as a function of the records it accepted, and that the
    filesystem store keeps the promises of [StoreWrites]: an attempt touches
    only its private directory, publication makes a complete and final output
    appear at once, and what was readable stays readable. *)

From S2P Require Import Prelude Bytes Plan Stages Shuffle Reports Runtime TextSource Iterator IteratorProofs Runner.
From S2P Require Import RunnerProofs MapTasks FileStore FileReads.
#[local] Open Scope Z_scope.
#[local] Arguments attemptPath : simpl never.
#[local] Arguments privatePath : simpl never.
#[local] Arguments bucketName : simpl never.
#[local] Arguments sha256_hex : simpl never.
#[local] Arguments validateMapOutput : simpl never.
#[local] Arguments openFile : simpl never.
#[local] Arguments lstat : simpl never.
#[local] Arguments rename : simpl never.
#[local] Arguments abortWriter : simpl never.

(** ** Names *)

Lemma append_inj_r (s t u : string) : s +:+ u = t +:+ u -> s = t.
Proof.
  intros H. apply (f_equal bytes_of) in H. rewrite !bytes_of_app in H. apply app_inv_tail in H.
  by rewrite <- (string_of_bytes s), <- (string_of_bytes t), H.
Qed.

Lemma bucketName_inj p q : bucketName p = bucketName q -> p = q.
Proof. intros H%prefix_inj%append_inj_r. by apply (inj pretty). Qed.

Lemma bucketName_manifest p : bucketName p <> "manifest.json".
Proof. done. Qed.

(** No published directory has a private name. *)
Definition is_private (path : string) : Prop := forall a, identity_ok a -> attemptPath a <> path.

Lemma privatePath_private a nonce : identity_ok a -> is_private (privatePath a nonce).
Proof.
  intros [Ha _] b [Hb _] H. unfold attemptPath, privatePath in H.
  repeat match goal with
  | H : joinPath (_ :: _ :: _) = joinPath (_ :: _ :: _) |- _ =>
      apply joinPath_inj in H as [_ H]; [|solve [eauto with spark]..|done|done]
  end.
  done.
Qed.

(** ** Lists of buckets *)

Lemma alter_fmap_seq {A} (g : A -> A) (f : nat -> A) i n :
  alter g i (f <$> seq 0 n) = (fun j => if decide (j = i) then g (f j) else f j) <$> seq 0 n.
Proof.
  apply list_eq. intros j. rewrite list_lookup_alter, !list_lookup_fmap.
  destruct (decide (i = j)) as [->|Hn]; destruct (seq 0 n !! j) as [k|] eqn:E; cbn; try done;
    apply lookup_seq in E as [-> _]; cbn.
  - by rewrite decide_True.
  - by rewrite decide_False.
Qed.

Lemma seq_fmap_ext {A} (f g : nat -> A) n : (forall i, (i < n)%nat -> f i = g i) -> f <$> seq 0 n = g <$> seq 0 n.
Proof. intros H. apply list_fmap_ext. intros i x Hx. apply lookup_seq in Hx as [-> Hlt]. by apply H. Qed.

Section writes.
Context {RC : RecordCodec} {RL : RecordCodecLaws RC}.
Variable faults : nat -> option fault.
Variable nonce : nat -> list N.

Notation world := (runtime filesystem).

(** ** The files of the records *)

Definition encoded (kv : string * any) : list N :=
  match EncodeRecord kv.1 kv.2 with Ok data => data | Err _ => [] end.

Definition part (n p : Z) (l : list (string * any)) : list (string * any) := List.filter (in_bucket n p) l.
Definition contents (n p : Z) (l : list (string * any)) : list N := concat (encoded <$> part n p l).

(** The bytes hashed for a bucket, which exists from its first record on. *)
Definition hashed (n : Z) (l : list (string * any)) (i : nat) : option (list N) :=
  match part n (Z.of_nat i) l with [] => None | _ => Some (contents n (Z.of_nat i) l) end.

Definition bucketOf (n : Z) (l : list (string * any)) (digest : nat -> string) (i : nat) : BucketMetadata :=
  mkBucket (Z.of_nat i) (Z.of_nat (length (part n (Z.of_nat i) l)))
    (Z.of_nat (length (contents n (Z.of_nat i) l))) (digest i).

Definition outputOf (t : AttemptIdentity * Z * Z) (l : list (string * any)) (digest : nat -> string) : MapOutput :=
  mkMapOutput FormatVersion t.1.1 t.1.2 t.2 (bucketOf t.2 l digest <$> seq 0 (Z.to_nat t.2)).

Definition openOutput t l : MapOutput := outputOf t l (fun _ => emptyDigest).
Definition finalOutput t l : MapOutput := outputOf t l (fun i => sha256_hex (contents t.2 (Z.of_nat i) l)).

(** A record that has an encoding and a bucket. *)
Definition storable (n : Z) (kv : string * any) : Prop :=
  (exists data, EncodeRecord kv.1 kv.2 = Ok data) /\ exists q, PartitionFor kv.1 n = Ok q.

Definition fileAccepts (t : AttemptIdentity * Z * Z) (l : list (string * any)) : Prop :=
  Forall (storable t.2) l /\ forall p, Z.of_nat (length (contents t.2 p l)) < 2 ^ 63.
Definition fileFits (t : AttemptIdentity * Z * Z) (l : list (string * any)) : Prop :=
  exists data, manifestBytes (finalOutput t l) = Ok data.

Lemma part_app n p l l' : part n p (l ++ l') = part n p l ++ part n p l'.
Proof. apply List.filter_app. Qed.

Lemma contents_app n p l l' : contents n p (l ++ l') = contents n p l ++ contents n p l'.
Proof. unfold contents. by rewrite part_app, fmap_app, concat_app. Qed.

Lemma contents_cons n p kv l :
  contents n p (kv :: l) = (if in_bucket n p kv then encoded kv else []) ++ contents n p l.
Proof. unfold contents, part. cbn. by destruct (in_bucket n p kv). Qed.

Lemma part_one n p kv : part n p [kv] = if in_bucket n p kv then [kv] else [].
Proof. done. Qed.

Lemma contents_one n p kv : contents n p [kv] = if in_bucket n p kv then encoded kv else [].
Proof. rewrite contents_cons. apply app_nil_r. Qed.

Lemma fileAccepts_prefix t l l' : fileAccepts t (l ++ l') -> fileAccepts t l.
Proof.
  intros [H1 H2]. apply Forall_app in H1 as [H1 _]. split; [done|]. intros p. specialize (H2 p).
  rewrite contents_app, length_app in H2. lia.
Qed.

Lemma in_bucket_iff n p kv q : PartitionFor kv.1 n = Ok q -> in_bucket n p kv = (q =? p).
Proof. intros H. unfold in_bucket. by rewrite H. Qed.

(** ** Steps that touch one directory *)

(** Only the directory [path] may differ; [n] handles were opened. *)
Definition moved (n : Z) (path : string) (w w' : world) : Prop :=
  (forall k, k <> path -> root w' !! k = root w !! k) /\
  fs_closed (rt_store w') = fs_closed (rt_store w) /\ rt_open w' = rt_open w + n.

Lemma moved_refl path w : moved 0 path w w.
Proof. split_and!; [done|done|lia]. Qed.

Lemma moved_trans n m path w1 w2 w3 : moved n path w1 w2 -> moved m path w2 w3 -> moved (n + m) path w1 w3.
Proof.
  intros (H1 & ? & ?) (H2 & ? & ?). split_and!; [|congruence|lia].
  intros k Hk. by rewrite H2, H1.
Qed.

Lemma moved_tick path w : moved 0 path w (tick w).
Proof. split_and!; [done|done|cbn; lia]. Qed.

Lemma moved_quiet path w w' : root w' = root w -> quiet w w' -> moved 0 path w w'.
Proof. intros Hr (? & ? & ? & ?). split_and!; [by rewrite Hr|done|lia]. Qed.

Lemma manifestBytes_identity o data : manifestBytes o = Ok data -> identity_ok (mo_Attempt o).
Proof. unfold manifestBytes. intros ([] & H & _)%bind_Ok. apply validateMapOutput_spec in H. apply H. Qed.

Lemma fileBucket_same v v' o p :
  v'.1.1 = v.1.1 -> (identity_ok (mo_Attempt o) -> v'.1.2 !! attemptPath (mo_Attempt o) = v.1.2 !! attemptPath (mo_Attempt o)) ->
  fileBucket v' o p = fileBucket v o p.
Proof.
  intros Hc Hr. unfold fileBucket. destruct (manifestBytes o) as [data|] eqn:E; [|done].
  unfold storedBucket. by rewrite Hc, Hr by (by eapply manifestBytes_identity).
Qed.

Lemma moved_same_reads n path w w' :
  is_private path -> moved n path w w' ->
  @same_reads _ (FileStoreReads faults nonce) (fileView (rt_store w)) (fileView (rt_store w')).
Proof.
  intros Hp (Hr & Hc & _). split_and!.
  - intros o p. apply fileBucket_same; [done|]. intros Ho. cbn. apply Hr. by apply Hp.
  - done.
  - intros a. unfold root in Hr. cbn. split; intros [Ha Hx]; (split; [done|]); apply validateIdentity_spec in Ha.
    + by rewrite <- (Hr (attemptPath a)) by (by apply Hp).
    + by rewrite (Hr (attemptPath a)) by (by apply Hp).
Qed.

(** The directory [path] holds the files [d], and nothing else has changed. *)
Definition becomes (path : string) (d : directory) (w w' : world) : Prop :=
  root w' !! path = Some d /\ moved 0 path w w'.

Lemma putFile_becomes path name data d w :
  root w !! path = Some d -> becomes path (<[name := data]> d) w (putFile path name data w).
Proof.
  intros Hd. unfold becomes, root, putFile. cbn. split; [rewrite lookup_alter; by rewrite decide_True, Hd|].
  split_and!; [|done|cbn; lia]. intros k Hk. unfold root. cbn. by rewrite lookup_alter_ne.
Qed.

Lemma becomes_quiet path d w1 w2 w3 :
  root w2 = root w1 -> quiet w1 w2 -> becomes path d w2 w3 -> becomes path d w1 w3.
Proof.
  intros Hr Hq [Hd Hm]. split; [done|]. exact (moved_trans 0 0 _ _ _ _ (moved_quiet path _ _ Hr Hq) Hm).
Qed.

(** Opening a file for writing, in a directory that is there. *)
Lemma openFile_spec mode path name w r w' d :
  root w !! path = Some d -> openFile faults mode path name w = (r, w') ->
  match r with
  | Ok _ => becomes path (<[name := match mode with O_APPEND => default [] (d !! name) | _ => [] end]> d) w w'
  | Err _ => moved 0 path w w' /\ (disk_faults faults \/ mode = O_EXCL /\ is_Some (d !! name))
  end.
Proof.
  intros Hd [(x & -> & Hf & Hr & Hq)|(w1 & H & Hr & Hq)]%attempt_spec.
  { split; [by apply moved_quiet|by left]. }
  rewrite Hr, Hd in H. rewrite <- Hr in Hd.
  assert (Hput : becomes path (<[name := []]> d) w (putFile path name [] w1)).
  { eapply becomes_quiet; [done|done|]. by apply putFile_becomes. }
  destruct mode; [destruct (d !! name) as [data|] eqn:Ed|destruct (d !! name) eqn:Ed|]; injection H as <- <-; try done.
  - split; [by rewrite insert_id|by apply moved_quiet].
  - split; [by apply moved_quiet|]. right. eauto.
Qed.

Lemma setFile_becomes path name f old d w :
  root w !! path = Some d -> d !! name = Some old -> becomes path (<[name := f old]> d) w (setFile path name f w).
Proof.
  intros Hd Hn. replace (<[name := f old]> d) with (alter f name d).
  - unfold becomes, root, setFile. cbn. split; [rewrite lookup_alter; by rewrite decide_True, Hd|].
    split_and!; [|done|cbn; lia]. intros k Hk. unfold root. cbn. by rewrite lookup_alter_ne.
  - apply map_eq. intros k. destruct (decide (k = name)) as [->|Hk].
    + by rewrite lookup_insert_eq, lookup_alter, decide_True, Hn.
    + by rewrite lookup_insert_ne, lookup_alter_ne.
Qed.

(** Writing to a file that is there. *)
Lemma writeFile_spec mode path name data w r w' d old :
  root w !! path = Some d -> d !! name = Some old -> writeFile faults mode path name data w = (r, w') ->
  match r with
  | Ok _ => becomes path (<[name := overwrite mode data old]> d) w w' /\
            Z.of_nat (length (overwrite mode data old)) < 2 ^ 63
  | Err _ => moved 0 path w w' /\ (disk_faults faults \/ 2 ^ 63 <= Z.of_nat (length (overwrite mode data old)))
  end.
Proof.
  intros Hd Hn. unfold writeFile. cbn [syscall].
  assert (Hput : forall f, becomes path (<[name := f old]> d) w (setFile path name f (on_store count_op w))).
  { intros f. eapply becomes_quiet; [| |apply (setFile_becomes path name f old d (on_store count_op w)); done]; done. }
  assert (Hold : default [] (root (on_store count_op w) !! path ≫= (.!! name)) = old).
  { unfold root in *. cbn. by rewrite Hd; cbn; rewrite Hn. }
  rewrite Hold. destruct (faults (fs_ops (rt_store w))) as [ft|] eqn:Ef.
  { intros [= <- <-]. split; [apply Hput|]. left. exists (fs_ops (rt_store w)). by rewrite Ef. }
  destruct (Z.leb_spec (2 ^ 63) (Z.of_nat (length (overwrite mode data old)))); intros [= <- <-]; [|split; [apply Hput|done]].
  split; [by apply moved_quiet|by right].
Qed.

Lemma appendBucket_spec path p data w r w' d :
  root w !! path = Some d -> appendBucket faults path p data w = (r, w') ->
  match r with
  | Ok _ => becomes path (<[bucketName p := default [] (d !! bucketName p) ++ data]> d) w w' /\
            Z.of_nat (length (default [] (d !! bucketName p)) + length data) < 2 ^ 63
  | Err _ => moved 0 path w w' /\
             (disk_faults faults \/ 2 ^ 63 <= Z.of_nat (length (default [] (d !! bucketName p)) + length data))
  end.
Proof.
  intros Hd. unfold appendBucket. destruct (openFile faults O_APPEND path _ w) as [r1 w1] eqn:E1.
  apply (openFile_spec _ _ _ _ _ _ d) in E1; [|done]. destruct r1 as [[]|x].
  2:{ intros [= <- <-]. destruct E1 as [? [?|[? _]]]; [by auto|done]. }
  destruct E1 as [Hd1 Hm1]. destruct (writeFile faults O_APPEND path _ data w1) as [r2 w2] eqn:E2.
  eapply writeFile_spec in E2; [|exact Hd1|by rewrite lookup_insert_eq]. cbn [overwrite] in E2. rewrite length_app in E2.
  intros [= <- <-]. destruct r2 as [[]|x]; cbn [map_err].
  - destruct E2 as [[Hd2 Hm2] Hsz]. rewrite insert_insert_eq in Hd2. split; [|done].
    split; [done|]. exact (moved_trans 0 0 _ _ _ _ Hm1 Hm2).
  - destruct E2 as [Hm2 Hf]. split; [|done]. exact (moved_trans 0 0 _ _ _ _ Hm1 Hm2).
Qed.

Lemma writeManifest_spec path data w r w' d :
  root w !! path = Some d -> Z.of_nat (length data) <= MaxManifestBytes ->
  writeManifest faults path data w = (r, w') ->
  match r with
  | Ok _ => becomes path (<["manifest.json" := data]> d) w w'
  | Err _ => moved 0 path w w' /\ disk_faults faults
  end.
Proof.
  intros Hd Hlen. unfold writeManifest. destruct (openFile faults O_TRUNC path _ w) as [r1 w1] eqn:E1.
  apply (openFile_spec _ _ _ _ _ _ d) in E1; [|done]. destruct r1 as [[]|x].
  2:{ intros [= <- <-]. destruct E1 as [? [?|[? _]]]; [by auto|done]. }
  destruct E1 as [Hd1 Hm1]. intros E2. eapply writeFile_spec in E2; [|exact Hd1|by rewrite lookup_insert_eq].
  assert (Ho : overwrite O_TRUNC data [] = data) by (cbn; by rewrite drop_nil, app_nil_r). rewrite Ho in E2. destruct r as [[]|x].
  - destruct E2 as [[Hd2 Hm2] _]. rewrite insert_insert_eq in Hd2. split; [done|]. exact (moved_trans 0 0 _ _ _ _ Hm1 Hm2).
  - destruct E2 as [Hm2 Hf]. split; [exact (moved_trans 0 0 _ _ _ _ Hm1 Hm2)|]. destruct Hf as [?|Hf]; [done|].
    exfalso. unfold MaxManifestBytes in Hlen. cbn in Hf. lia.
Qed.

Lemma removeAll_spec path w r w' : removeAll faults path w = (r, w') -> moved 0 path w w'.
Proof.
  unfold removeAll. cbn [syscall]. destruct (faults (fs_ops (rt_store w))) as [ft|]; intros [= <- <-];
    (split_and!; [|done|cbn; lia]); intros k Hk; unfold root; cbn; [by rewrite lookup_alter_ne|by rewrite lookup_delete_ne].
Qed.

(** ** The writer's state *)

(** [wr] is open, has accepted [l] and its digests are [digest]. *)
Record openWriter (t : AttemptIdentity * Z * Z) (l : list (string * any)) (digest : nat -> string)
    (wr : fileWriter) : Prop := {
  ow_open : fw_closed wr = false;
  ow_output : fw_output wr = outputOf t l digest;
  ow_hashes : fw_hashes wr = hashed t.2 l <$> seq 0 (Z.to_nat t.2);
  ow_private : exists draw, fw_private wr = privatePath t.1.1 draw;
  ow_final : fw_final wr = attemptPath t.1.1;
  ow_identity : identity_ok t.1.1;
  ow_count : 0 < t.2 < 2 ^ 63;
  ow_accepts : fileAccepts t l }.

(** Its files are those of [l]. *)
Definition files_of (n : Z) (l : list (string * any)) (d : directory) : Prop :=
  forall i, (i < Z.to_nat n)%nat -> d !! bucketName (Z.of_nat i) = hashed n l i.

Definition fileWritten (v : bool * gmap string directory * nat) (wr : fileWriter) (l : list (string * any)) : Prop :=
  v.1.1 = false /\
  exists t d, openWriter t l (fun _ => emptyDigest) wr /\ v.1.2 !! fw_private wr = Some d /\ files_of t.2 l d.

Definition fileSpent (x : option error) (wr : fileWriter) : Prop := fw_closed wr = true /\ fw_err wr = x.

Definition writer_open (wr : fileWriter) : Z := if fw_closed wr then 0 else 1.

Definition targetOf (wr : fileWriter) : AttemptIdentity * Z * Z :=
  let o := fw_output wr in (mo_Attempt o, mo_NumMapPartitions o, mo_NumReducePartitions o).

#[local] Arguments targetOf : simpl never.
#[local] Arguments writer_open : simpl never.

Lemma ow_target t l digest wr : openWriter t l digest wr -> targetOf wr = t.
Proof. intros H. unfold targetOf. rewrite (ow_output _ _ _ _ H). by destruct t as [[? ?] ?]. Qed.

Lemma ow_is_private t l digest wr : openWriter t l digest wr -> is_private (fw_private wr).
Proof. intros H. destruct (ow_private _ _ _ _ H) as [draw ->]. apply privatePath_private, H. Qed.

(** The writer gave up with error [x]: it is closed and only its private
    directory was touched. *)
Definition gave_up (wr : fileWriter) (w : world) (x : error) (wr' : fileWriter) (w' : world) : Prop :=
  fileSpent (Some x) wr' /\ targetOf wr' = targetOf wr /\ moved (-1) (fw_private wr) w w'.

Lemma abortWriter_spec x wr w e wr' w' :
  abortWriter faults (Some x) wr w = (e, wr', w') -> exists y, e = Some y /\ gave_up wr w y wr' w'.
Proof.
  unfold abortWriter. destruct (removeAll faults _ w) as [r w1] eqn:E. apply removeAll_spec in E.
  intros [= <- <- <-]. eexists. split; [done|]. split; [by split|]. split; [done|].
  apply (moved_trans 0 (-1) _ w w1 _ E). by split_and!.
Qed.

Lemma gave_up_after wr w1 w2 x wr' w' :
  moved 0 (fw_private wr) w1 w2 -> gave_up wr w2 x wr' w' -> gave_up wr w1 x wr' w'.
Proof. intros Hm (? & ? & Hm'). split_and!; [done|done|]. exact (moved_trans 0 (-1) _ _ _ _ Hm Hm'). Qed.

(** A look at the context: either nothing but time has passed, or the writer
    has given up because the context ended. *)
Definition looked (c : goContext) (wr : fileWriter) (w : world) (e : option error) (wr' : fileWriter) (w' : world) : Prop :=
  match e with
  | None => wr' = wr /\ root w' = root w /\ moved 0 (fw_private wr) w w'
  | Some x => cancelled c /\ gave_up wr w x wr' w'
  end.

Lemma look_abort c e wr w x wr' w' :
  ctx_Err c (rt_time w) = Some e ->
  (let '(err, w) := cause c e (tick w) in abortWriter faults (Some err) wr w) = (x, wr', w') ->
  exists y, x = Some y /\ cancelled c /\ gave_up wr w y wr' w'.
Proof.
  intros Ec. destruct (cause c e (tick w)) as [y w1] eqn:E. injection E as <- <-. intros H.
  apply abortWriter_spec in H as (z & -> & H). eexists. split; [done|]. split; [exists (rt_time w); left; by rewrite Ec|].
  eapply gave_up_after; [|exact H]. exact (moved_trans 0 0 _ _ _ _ (moved_tick _ w) (moved_tick _ (tick w))).
Qed.

Lemma checkWriter_spec c wr w e wr' w' :
  fw_closed wr = false -> checkWriter faults c wr w = (e, wr', w') -> looked c wr w e wr' w'.
Proof.
  intros Ho. unfold checkWriter. rewrite Ho. cbn [readErr]. destruct (ctx_Err c (rt_time w)) as [x|] eqn:Ec.
  - intros H. eapply look_abort in H as (y & -> & H); [|done]. done.
  - intros [= <- <- <-]. split_and!; [done|done|apply moved_tick].
Qed.

(** What every method of the writer begins with. *)
Lemma enterWriter c wr w e wr' w' wr1 w1 :
  fw_closed wr = false -> afterWriter faults c wr w = (wr1, w1) -> checkWriter faults c wr1 w1 = (e, wr', w') ->
  looked c wr w e wr' w'.
Proof.
  intros Ho. unfold afterWriter. cbn [readErr]. destruct (ctx_Err c (rt_time w)) as [x|] eqn:Ec.
  - rewrite Ho. intros H1 H2.
    destruct (let '(err, w) := cause c x (tick w) in abortWriter faults (Some err) wr w) as [[y wr2] w2] eqn:Ea.
    assert ((wr2, w2) = (wr1, w1)) as [= -> ->] by (rewrite <- H1; unfold cause in *; cbn in *; by rewrite Ea).
    eapply look_abort in Ea as (z & -> & Hc & Hg); [|done].
    unfold checkWriter in H2. destruct Hg as ((Hcl & He) & Ht & Hm). rewrite Hcl, He in H2. injection H2 as <- <- <-.
    by split; [|split; [|split]].
  - intros [= <- <-] H. apply checkWriter_spec in H; [|done]. destruct e as [x|].
    + destruct H as [Hc Hg]. split; [done|]. eapply gave_up_after; [|exact Hg]. apply moved_tick.
    + destruct H as (-> & Hr & Hm). split_and!; [done|done|]. refine (moved_trans 0 0 _ w (tick w) _ _ Hm).
      apply moved_tick.
Qed.

(** ** Writing *)

Lemma hashed_default n l i : default [] (hashed n l i) = contents n (Z.of_nat i) l.
Proof. unfold hashed, contents. by destruct (part n (Z.of_nat i) l). Qed.

Lemma hashed_snoc n l kv i :
  hashed n (l ++ [kv]) i =
  if in_bucket n (Z.of_nat i) kv then Some (contents n (Z.of_nat i) l ++ encoded kv) else hashed n l i.
Proof.
  unfold hashed. rewrite part_app, contents_app. unfold part at 2, contents at 2, part at 3. cbn.
  destruct (in_bucket n (Z.of_nat i) kv); cbn; rewrite ?app_nil_r; [|done].
  by destruct (part n (Z.of_nat i) l).
Qed.

Lemma encoded_pos kv : (exists data, EncodeRecord kv.1 kv.2 = Ok data) -> (0 < length (encoded kv))%nat.
Proof.
  intros [data H]. unfold encoded. rewrite H. apply encode_line in H as (line & -> & _).
  rewrite length_app. cbn. lia.
Qed.

(** Every record takes at least a byte. *)
Lemma part_length n p l : Forall (storable n) l -> (length (part n p l) <= length (contents n p l))%nat.
Proof.
  intros H. induction H as [|kv l [Hkv _] _ IH]; [done|]. rewrite contents_cons. unfold part in *. cbn.
  apply encoded_pos in Hkv. destruct (in_bucket n p kv); [|done]. rewrite length_app. cbn. lia.
Qed.

Lemma files_snoc n l d kv q data :
  files_of n l d -> PartitionFor kv.1 n = Ok q -> EncodeRecord kv.1 kv.2 = Ok data -> n < 2 ^ 63 ->
  files_of n (l ++ [kv]) (<[bucketName q := default [] (d !! bucketName q) ++ data]> d).
Proof.
  intros Hd Hq He Hn i Hi. apply PartitionFor_range in Hq as Hr; [|done]. rewrite hashed_snoc, (in_bucket_iff _ _ _ q) by done.
  destruct (Z.eqb_spec q (Z.of_nat i)) as [->|Hne].
  - rewrite lookup_insert_eq, (Hd i Hi), hashed_default. unfold encoded. by rewrite He.
  - rewrite lookup_insert_ne; [by apply Hd|]. intros H. by apply bucketName_inj in H.
Qed.

Lemma fileAccepts_snoc t l kv :
  fileAccepts t l -> storable t.2 kv ->
  (forall q, PartitionFor kv.1 t.2 = Ok q -> Z.of_nat (length (contents t.2 q l) + length (encoded kv)) < 2 ^ 63) ->
  fileAccepts t (l ++ [kv]).
Proof.
  intros [H1 H2] Hkv Hlen. split; [apply Forall_app; split; [done|by constructor]|]. intros p.
  rewrite contents_app, length_app, contents_one. destruct Hkv as [_ [q Hq]].
  rewrite (in_bucket_iff _ _ _ _ Hq). specialize (Hlen q Hq). specialize (H2 p).
  destruct (Z.eqb_spec q p) as [->|_]; [done|]. cbn. lia.
Qed.

Lemma addRecord_open t l wr kv q data :
  openWriter t l (fun _ => emptyDigest) wr -> PartitionFor kv.1 t.2 = Ok q -> EncodeRecord kv.1 kv.2 = Ok data ->
  fileAccepts t (l ++ [kv]) -> openWriter t (l ++ [kv]) (fun _ => emptyDigest) (addRecord (Z.to_nat q) data wr).
Proof.
  intros [Ho Hout Hh Hp Hf Hid Hn _] Hq He Ha.
  assert (Hr : 0 <= q < t.2) by (eapply PartitionFor_range; [done|lia]).
  assert (Hdata : encoded kv = data) by (unfold encoded; by rewrite He).
  split; try done; cbn.
  - rewrite Hout. unfold outputOf. cbn. f_equal. rewrite alter_fmap_seq. apply seq_fmap_ext. intros i Hi.
    unfold bucketOf. cbn. rewrite part_app, contents_app, contents_one, part_one, !length_app.
    rewrite (in_bucket_iff _ _ _ _ Hq), Hdata.
    destruct (decide (i = Z.to_nat q)) as [->|Hne].
    + rewrite Z2Nat.id, Z.eqb_refl by lia. cbn.
      destruct Ha as [Hs Hw]. specialize (Hw q). pose proof (part_length t.2 q _ Hs) as Hpl.
      rewrite part_app, contents_app, contents_one, part_one, !length_app in Hpl.
      rewrite contents_app, contents_one, length_app in Hw.
      rewrite (in_bucket_iff _ _ _ _ Hq), Z.eqb_refl, Hdata in *. cbn in Hpl.
      rewrite !i64_id by (unfold in_i64; lia). f_equal; lia.
    + replace (q =? Z.of_nat i) with false by (symmetry; apply Z.eqb_neq; lia). cbn. f_equal; lia.
  - rewrite Hh, alter_fmap_seq. apply seq_fmap_ext. intros i Hi. rewrite hashed_snoc, (in_bucket_iff _ _ _ _ Hq).
    destruct (decide (i = Z.to_nat q)) as [->|Hne].
    + rewrite Z2Nat.id, Z.eqb_refl by lia. by rewrite hashed_default, Z2Nat.id, Hdata by lia.
    + by replace (q =? Z.of_nat i) with false by (symmetry; apply Z.eqb_neq; lia).
Qed.

(** The contract of a method that [wr] runs in [w], and what it returned. *)
Definition performs (wr : fileWriter) (w : world) (wr' : fileWriter) (w' : world) : Prop :=
  targetOf wr' = targetOf wr /\ moved (writer_open wr' - writer_open wr) (fw_private wr) w w'.

Lemma gave_up_performs wr w x wr' w' :
  fw_closed wr = false -> gave_up wr w x wr' w' -> performs wr w wr' w' /\ fileSpent (Some x) wr'.
Proof.
  intros Ho (Hs & Ht & Hm). split; [|done]. split; [done|]. unfold writer_open. by rewrite Ho, (proj1 Hs).
Qed.

Lemma abort_performs x wr w0 w e wr' w' :
  fw_closed wr = false -> moved 0 (fw_private wr) w0 w -> abortWriter faults (Some x) wr w = (e, wr', w') ->
  exists y, e = Some y /\ performs wr w0 wr' w' /\ fileSpent (Some y) wr'.
Proof.
  intros Ho Hm H. apply abortWriter_spec in H as (y & -> & H). exists y. split; [done|].
  apply gave_up_performs; [done|]. by eapply gave_up_after.
Qed.

Definition fileDisturbed (c : goContext) : Prop := cancelled c \/ disk_faults faults.

Lemma WriteRecord_spec c wr k v w e wr' w' l :
  fileWritten (fileView (rt_store w)) wr l -> WriteRecord faults c wr k v w = (e, wr', w') ->
  performs wr w wr' w' /\
  match e with
  | None => fileWritten (fileView (rt_store w')) wr' (l ++ [(k, v)])
  | Some x => fileSpent (Some x) wr' /\ (fileDisturbed c \/ ~ fileAccepts (targetOf wr) (l ++ [(k, v)]))
  end.
Proof.
  intros (Hcl & t & d & How & Hd & Hfiles). pose proof (ow_open _ _ _ _ How) as Ho. pose proof (ow_count _ _ _ _ How) as Hn.
  rewrite (ow_target _ _ _ _ How). unfold WriteRecord.
  destruct (afterWriter faults c wr w) as [wr1 w1] eqn:E1. destruct (checkWriter faults c wr1 w1) as [[e2 wr2] w2] eqn:E2.
  eapply enterWriter in E2; [|done|exact E1]. destruct e2 as [x|].
  { intros [= <- <- <-]. destruct E2 as [Hc Hg]. destruct (gave_up_performs _ _ _ _ _ Ho Hg). split; [done|].
    split; [done|]. left. by left. }
  destruct E2 as (-> & Hr2 & Hm2). rewrite (ow_output _ _ _ _ How). cbn [mo_NumReducePartitions outputOf].
  assert (Hgive : forall x w3 e wr' w', moved 0 (fw_private wr) w w3 -> (fileDisturbed c \/ ~ fileAccepts t (l ++ [(k, v)])) ->
    abortWriter faults (Some x) wr w3 = (e, wr', w') ->
    performs wr w wr' w' /\ match e with
      | None => fileWritten (fileView (rt_store w')) wr' (l ++ [(k, v)])
      | Some x => fileSpent (Some x) wr' /\ (fileDisturbed c \/ ~ fileAccepts t (l ++ [(k, v)])) end).
  { intros x w3 e3 wr3 w4 Hm Hno H. eapply abort_performs in H as (y & -> & Hp & Hs); [|done|exact Hm]. done. }
  destruct (EncodeRecord k v) as [data|x] eqn:Ek.
  2:{ apply Hgive; [done|]. right. intros [H _]. apply Forall_app in H as [_ H]. apply Forall_inv in H as [[data H] _].
      cbn in H. congruence. }
  destruct (PartitionFor k t.2) as [q|x] eqn:Eq.
  2:{ apply Hgive; [done|]. right. intros [H _]. apply Forall_app in H as [_ H]. apply Forall_inv in H as [_ [q H]].
      cbn in H. congruence. }
  assert (Hd2 : root w2 !! fw_private wr = Some d) by (rewrite Hr2; exact Hd).
  assert (Hcont : default [] (d !! bucketName q) = contents t.2 q l).
  { apply PartitionFor_range in Eq as Hr; [|lia]. rewrite <- (Z2Nat.id q) by lia.
    rewrite (Hfiles (Z.to_nat q)) by lia. apply hashed_default. }
  destruct (appendBucket faults (fw_private wr) q data w2) as [r3 w3] eqn:E3.
  apply (appendBucket_spec _ _ _ _ _ _ _ Hd2) in E3. rewrite Hcont in E3. destruct r3 as [[]|x].
  2:{ destruct E3 as [Hm3 Hf]. apply Hgive; [exact (moved_trans 0 0 _ _ _ _ Hm2 Hm3)|].
      destruct Hf as [Hf|Hf]; [left; by right|]. right. intros [_ H]. specialize (H q).
      rewrite contents_app, length_app, contents_one, (in_bucket_iff _ _ _ q), Z.eqb_refl in H by done.
      unfold encoded in H. cbn in H. rewrite Ek in H. cbn in Hf. lia. }
  destruct E3 as [[Hd3 Hm3] Hsize]. pose proof (moved_trans 0 0 _ _ _ _ Hm2 Hm3) as Hm23.
  assert (Hacc : fileAccepts t (l ++ [(k, v)])).
  { apply fileAccepts_snoc; [apply How|split; [by exists data|by exists q]|]. intros q' Hq'. cbn in Hq'.
    rewrite Eq in Hq'. injection Hq' as <-. unfold encoded. cbn. by rewrite Ek. }
  pose proof (addRecord_open t l wr (k, v) q data How Eq Ek Hacc) as How3.
  intros H. apply checkWriter_spec in H; [|done]. unfold performs. rewrite (ow_target _ _ _ _ How).
  rewrite <- (ow_target _ _ _ _ How3). destruct e as [x|].
  - destruct H as [Hc (Hs & Ht & Hm)]. split; [split; [done|]|split; [done|left; by left]].
    unfold writer_open. rewrite (proj1 Hs), Ho. exact (moved_trans 0 (-1) _ _ _ _ Hm23 Hm).
  - destruct H as (-> & Hr4 & Hm4). split; [split; [done|]|].
    + rewrite Z.sub_diag. exact (moved_trans 0 0 _ _ _ _ Hm23 Hm4).
    + split; [cbn in Hcl |- *; rewrite <- Hcl; destruct Hm23 as (_ & <- & _); apply Hm4|].
      exists t, (<[bucketName q := contents t.2 q l ++ data]> d). split; [done|]. split; [unfold root in *; cbn; by rewrite Hr4|].
      rewrite <- Hcont. apply (files_snoc t.2 l d (k, v)); [done..|lia].
Qed.

(** ** Publishing *)

(** The digests when the loop of [Publish] has come to bucket [i]. *)
Definition digestsTo (n : Z) (l : list (string * any)) (i j : nat) : string :=
  if (j <? i)%nat then sha256_hex (contents n (Z.of_nat j) l) else emptyDigest.

(** The files when it has: every bucket before [i] is there. *)
Definition files_to (n : Z) (l : list (string * any)) (i : nat) (d : directory) : Prop :=
  forall j, (j < Z.to_nat n)%nat ->
    d !! bucketName (Z.of_nat j) =
      if (j <? i)%nat then Some (contents n (Z.of_nat j) l) else hashed n l j.

Lemma outputOf_ext t l digest digest' :
  (forall i, (i < Z.to_nat t.2)%nat -> digest i = digest' i) -> outputOf t l digest = outputOf t l digest'.
Proof. intros H. unfold outputOf. f_equal. apply seq_fmap_ext. intros i Hi. unfold bucketOf. by rewrite H. Qed.

Lemma openWriter_ext t l digest digest' wr :
  (forall i, (i < Z.to_nat t.2)%nat -> digest i = digest' i) -> openWriter t l digest wr -> openWriter t l digest' wr.
Proof. intros H []. split; try done. by rewrite <- (outputOf_ext t l digest digest'). Qed.

Lemma setDigest_open t l digest wr i x :
  openWriter t l digest wr ->
  openWriter t l (fun j => if decide (j = i) then x else digest j) (setDigest i x wr).
Proof.
  intros [Ho Hout Hh Hp Hf Hid Hn Ha]. split; try done. cbn. rewrite Hout. unfold outputOf. cbn. f_equal.
  rewrite alter_fmap_seq. apply seq_fmap_ext. intros j _. unfold bucketOf. cbn.
  by destruct (decide (j = i)).
Qed.

Lemma digestsTo_S n l i j :
  (if decide (j = i) then sha256_hex (contents n (Z.of_nat i) l) else digestsTo n l i j) = digestsTo n l (S i) j.
Proof.
  unfold digestsTo. destruct (decide (j = i)) as [->|Hne].
  - destruct (Nat.ltb_spec i (S i)); [done|lia].
  - destruct (Nat.ltb_spec j i), (Nat.ltb_spec j (S i)); try done; lia.
Qed.

Lemma hashed_None n l i : hashed n l i = None -> contents n (Z.of_nat i) l = [].
Proof. unfold hashed, contents. by destruct (part n (Z.of_nat i) l). Qed.

Lemma hashed_Some n l i bytes : hashed n l i = Some bytes -> contents n (Z.of_nat i) l = bytes.
Proof. unfold hashed. destruct (part n (Z.of_nat i) l); [done|]. by intros [= <-]. Qed.

(** A step of a method that is left open. *)
Definition keeps (wr : fileWriter) (w : world) (wr' : fileWriter) (w' : world) : Prop :=
  targetOf wr' = targetOf wr /\ fw_private wr' = fw_private wr /\ moved 0 (fw_private wr) w w'.

Lemma kept_files_trans wr w wr1 w1 wr2 w2 : keeps wr w wr1 w1 -> keeps wr1 w1 wr2 w2 -> keeps wr w wr2 w2.
Proof.
  intros (? & Hp & Hm1) (? & ? & Hm2). rewrite Hp in Hm2. split_and!; [congruence|congruence|].
  exact (moved_trans 0 0 _ _ _ _ Hm1 Hm2).
Qed.

Lemma gave_up_keeps wr w wr1 w1 x wr' w' : keeps wr w wr1 w1 -> gave_up wr1 w1 x wr' w' -> gave_up wr w x wr' w'.
Proof.
  intros (Ht & Hp & Hm1) (Hs & Ht' & Hm2). rewrite Hp in Hm2. split; [done|]. split; [congruence|].
  exact (moved_trans 0 (-1) _ _ _ _ Hm1 Hm2).
Qed.

(** How the loop over the buckets ends. *)
Definition bucketsDone (c : goContext) t l wr w (e : option error) wr' w' : Prop :=
  match e with
  | Some x => gave_up wr w x wr' w' /\ fileDisturbed c
  | None => keeps wr w wr' w' /\ openWriter t l (digestsTo t.2 l (Z.to_nat t.2)) wr' /\
            exists d', root w' !! fw_private wr = Some d' /\ files_to t.2 l (Z.to_nat t.2) d'
  end.

Lemma after_keeps c t l wr w wr1 w1 e wr' w' :
  keeps wr w wr1 w1 -> bucketsDone c t l wr1 w1 e wr' w' -> bucketsDone c t l wr w e wr' w'.
Proof.
  intros Hk. destruct e as [x|].
  - intros [Hg ?]. split; [|done]. by eapply gave_up_keeps.
  - intros (Hk' & ? & ?). split; [by eapply kept_files_trans|]. split; [done|]. by destruct Hk as (_ & <- & _).
Qed.

Lemma publishBuckets_spec c t l i todo wr w d e wr' w' :
  (i <= Z.to_nat t.2)%nat -> todo = hashed t.2 l <$> seq i (Z.to_nat t.2 - i) ->
  openWriter t l (digestsTo t.2 l i) wr -> root w !! fw_private wr = Some d -> files_to t.2 l i d ->
  publishBuckets faults c i todo wr w = (e, wr', w') ->
  bucketsDone c t l wr w e wr' w'.
Proof.
  revert i wr w d. induction todo as [|h todo IH]; intros i wr w d Hi Htodo How Hd Hfiles; cbn.
  { assert (i = Z.to_nat t.2) as ->.
    { destruct (Z.to_nat t.2 - i)%nat as [|k] eqn:E; [lia|done]. }
    intros [= <- <- <-]. split; [split_and!; [done|done|apply moved_refl]|]. split; [done|]. by exists d. }
  destruct (Z.to_nat t.2 - i)%nat as [|k] eqn:Ek; [done|]. cbn in Htodo. injection Htodo as Hh Htodo.
  assert (Hk : k = (Z.to_nat t.2 - S i)%nat) by lia. assert (Hlt : (i < Z.to_nat t.2)%nat) by lia.
  rewrite Hk in Htodo. clear Ek.
  destruct (checkWriter faults c wr w) as [[e1 wr1] w1] eqn:E1. apply checkWriter_spec in E1; [|apply How].
  destruct e1 as [x|].
  { intros [= <- <- <-]. destruct E1 as [Hc Hg]. split; [done|by left]. }
  destruct E1 as (-> & Hr1 & Hm1). rewrite <- Hr1 in Hd.
  assert (Hkeep : keeps wr w wr w1) by (by split_and!).
  destruct h as [bytes|].
  - symmetry in Hh. apply hashed_Some in Hh as Hc.
    assert (How1 : openWriter t l (digestsTo t.2 l (S i)) (setDigest i (sha256_hex bytes) wr)).
    { apply (openWriter_ext _ _ (fun j => if decide (j = i) then sha256_hex bytes else digestsTo t.2 l i j)).
      - intros j _. rewrite <- Hc. apply digestsTo_S.
      - by apply setDigest_open. }
    assert (Hf1 : files_to t.2 l (S i) d).
    { intros j Hj. rewrite (Hfiles j Hj). destruct (Nat.ltb_spec j i), (Nat.ltb_spec j (S i)); try done; try lia.
      assert (j = i) as -> by lia. by rewrite Hh, Hc. }
    intros H. eapply after_keeps; [exact Hkeep|]. exact (IH (S i) _ _ _ ltac:(lia) Htodo How1 Hd Hf1 H).
  - symmetry in Hh. apply hashed_None in Hh as Hc.
    assert (Hbk : mo_Buckets (fw_output wr) !! i = Some (bucketOf t.2 l (digestsTo t.2 l i) i)).
    { rewrite (ow_output _ _ _ _ How). cbn. rewrite list_lookup_fmap, lookup_seq_lt by lia. done. }
    rewrite Hbk. cbn [bucketOf bk_PartitionID].
    assert (Hnone : d !! bucketName (Z.of_nat i) = None).
    { rewrite (Hfiles i) by lia. by rewrite Nat.ltb_irrefl. }
    destruct (openFile faults O_EXCL _ _ w1) as [r2 w2] eqn:E2.
    apply (openFile_spec _ _ _ _ _ _ _ Hd) in E2. destruct r2 as [[]|x].
    2:{ destruct E2 as [Hm2 Hf]. intros H. apply abortWriter_spec in H as (y & -> & Hg). split.
        - eapply gave_up_keeps; [|exact Hg]. split_and!; [done|done|]. exact (moved_trans 0 0 _ _ _ _ Hm1 Hm2).
        - destruct Hf as [Hf|(_ & [x' Hx])]; [by right|congruence]. }
    destruct E2 as [Hd2 Hm2].
    assert (How2 : openWriter t l (digestsTo t.2 l (S i)) wr).
    { eapply openWriter_ext; [|exact How]. intros j _. rewrite <- digestsTo_S.
      destruct (decide (j = i)) as [->|]; [|done]. unfold digestsTo. by rewrite Nat.ltb_irrefl, Hc. }
    assert (Hf2 : files_to t.2 l (S i) (<[bucketName (Z.of_nat i) := []]> d)).
    { intros j Hj. destruct (decide (j = i)) as [->|Hne].
      { rewrite lookup_insert_eq, Hc. by destruct (Nat.ltb_spec i (S i)); [|lia]. }
      rewrite lookup_insert_ne by (intros Hx%bucketName_inj; lia). rewrite (Hfiles j Hj).
      destruct (Nat.ltb_spec j i), (Nat.ltb_spec j (S i)); try done; lia. }
    intros H. eapply (after_keeps _ _ _ wr w wr w2);
      [split_and!; [done|done|exact (moved_trans 0 0 _ _ _ _ Hm1 Hm2)]|].
    exact (IH (S i) _ _ _ ltac:(lia) Htodo How2 Hd2 Hf2 H).
Qed.

Lemma lstat_spec path w r w' :
  lstat faults path w = (r, w') ->
  observes faults w r w' (match root w !! path with Some _ => Ok tt | None => Err ErrNotExist end).
Proof.
  apply (attempt_observes faults w r w' (fun rt => match rt !! path with Some _ => Ok tt | None => Err ErrNotExist end)).
Qed.

Lemma publishDirectory_spec private final w r w' d :
  root w !! private = Some d -> publishDirectory faults private final w = (r, w') ->
  quiet w w' /\
  match r with
  | Ok _ => default ∅ (root w !! final) = ∅ /\ root w' = <[final := d]> (delete private (root w))
  | Err _ => root w' = root w /\ (disk_faults faults \/ is_Some (root w !! final))
  end.
Proof.
  intros Hd. unfold publishDirectory. destruct (lstat faults final w) as [r1 w1] eqn:E1.
  apply lstat_spec in E1 as (Hr1 & Hq1 & H1). destruct r1 as [[]|x].
  { intros [= <- <-]. split; [done|]. split; [done|]. destruct H1 as [H1|[? _]]; [|by left].
    destruct (root w !! final); [right; eauto|done]. }
  destruct (errors_Is x fs_ErrNotExist) eqn:Ex.
  2:{ intros [= <- <-]. split; [done|]. split; [done|]. destruct H1 as [H1|[? _]]; [|by left].
      destruct (root w !! final); [done|]. by injection H1 as ->. }
  destruct (rename faults private final w1) as [r2 w2] eqn:E2. rewrite <- Hr1 in Hd |- *.
  apply attempt_spec in E2 as [(y & -> & Hf & Hr2 & Hq2)|(w2' & H2 & Hr2 & Hq2)].
  - destruct (lstat faults final w2) as [r3 w3] eqn:E3. apply lstat_spec in E3 as (Hr3 & Hq3 & _).
    intros [= <- <-]. split; [etrans; [done|by etrans]|]. split; [congruence|by left].
  - rewrite Hr2, Hd in H2. destruct (decide (default ∅ (root w1 !! final) = ∅)) as [Ef|Ef].
    + injection H2 as <- <-. intros [= <- <-]. split; [|done]. etrans; [done|]. etrans; [exact Hq2|].
      by split_and!.
    + injection H2 as <- <-. destruct (lstat faults final w2') as [r3 w3] eqn:E3.
      apply lstat_spec in E3 as (Hr3 & Hq3 & _). intros [= <- <-]. split; [etrans; [done|by etrans]|].
      split; [congruence|right]. destruct (root w1 !! final) as [d'|]; [eauto|done].
Qed.

(** ** Reading back *)

Lemma readString_encoded line rest :
  newline ∉ line -> readString (line ++ newline :: rest) = (line ++ [newline], rest, false).
Proof.
  induction line as [|b line IH]; intros H; cbn.
  - done.
  - destruct (N.eqb_spec b newline) as [->|_]; [destruct H; apply list_elem_of_here|].
    rewrite IH; [done|]. intros Hin. apply H. by right.
Qed.

(** The reader that has returned the records [l1] and has [rest] left. *)
Definition readerAt (o : MapOutput) (n p : Z) (l1 : list (string * any)) (rest : list N) : fileBucketReader :=
  mkReader o p (mkDecoder rest None) (contents n p l1) (Z.of_nat (length (part n p l1))) None None.

Lemma br_bucket_final t l p l1 rest :
  0 <= p < t.2 -> br_bucket (readerAt (finalOutput t l) t.2 p l1 rest) =
    mkBucket p (Z.of_nat (length (part t.2 p l))) (Z.of_nat (length (contents t.2 p l))) (sha256_hex (contents t.2 p l)).
Proof.
  intros Hp. unfold br_bucket. cbn. rewrite list_lookup_fmap, lookup_seq_lt by lia. cbn. unfold bucketOf.
  by rewrite Z2Nat.id by lia.
Qed.

Lemma nextStep_record t l l1 l2 kv p :
  0 <= p < t.2 -> l = l1 ++ kv :: l2 -> storable t.2 kv -> reads_back kv.2 -> in_bucket t.2 p kv = true ->
  nextStep (readerAt (finalOutput t l) t.2 p l1 (contents t.2 p (kv :: l2))) =
    (Ok (Some (kv.1, read_back kv.2)), readerAt (finalOutput t l) t.2 p (l1 ++ [kv]) (contents t.2 p l2)).
Proof.
  intros Hp Hl [[data He] [q Hq]] Hrb Hin. rewrite (in_bucket_iff _ _ _ q) in Hin by done. apply Z.eqb_eq in Hin as ->.
  assert (Hlen : length (contents t.2 p l) = (length (contents t.2 p l1) + length data + length (contents t.2 p l2))%nat /\
                 length (part t.2 p l) = (length (part t.2 p l1) + 1 + length (part t.2 p l2))%nat).
  { subst l. change (kv :: l2) with ([kv] ++ l2). rewrite !contents_app, !part_app, contents_one, part_one.
    rewrite (in_bucket_iff _ _ _ p), Z.eqb_refl by done. unfold encoded. rewrite He, !length_app. cbn. lia. }
  rewrite contents_cons, (in_bucket_iff _ _ _ p), Z.eqb_refl by done. unfold encoded. rewrite He.
  apply encode_line in He as Hline. destruct Hline as (line & -> & Hnl & Hmax & Hdec).
  unfold nextStep, readRecord, decoderNext. cbn [br_decoder readerAt rd_err rd_rest].
  unfold readLine. rewrite <- app_assoc. cbn [app]. rewrite readString_encoded by done.
  replace (MaxRecordBytes <? _) with false by (symmetry; apply Z.ltb_ge; rewrite length_app; cbn; lia).
  rewrite removelast_last, Hdec by done. cbn [rd_rest br_read readerAt].
  assert (Htake : take (length (line ++ newline :: contents t.2 p l2) - length (contents t.2 p l2))
    (line ++ newline :: contents t.2 p l2) = line ++ [newline]).
  { rewrite cons_middle, app_assoc. rewrite take_app_length'; [done|]. rewrite !length_app. cbn. lia. }
  rewrite Htake, br_bucket_final by done. cbn [bk_ByteCount].
  replace (Z.of_nat (length (contents t.2 p l)) <? _) with false
    by (symmetry; apply Z.ltb_ge; rewrite !length_app in *; cbn in *; lia).
  unfold rejectRecord. cbn [br_output br_partition br_records br_done readerAt].
  change (mo_NumReducePartitions (finalOutput t l)) with t.2.
  rewrite Hq, Z.eqb_refl. cbn [negb].
  match goal with |- context [br_bucket ?r] => change (br_bucket r) with (br_bucket (readerAt (finalOutput t l) t.2 p l1 [])) end.
  rewrite br_bucket_final by done. cbn [bk_RecordCount br_records readerAt].
  replace (Z.of_nat (length (part t.2 p l)) <? _) with false by (symmetry; apply Z.ltb_ge; lia).
  f_equal. unfold readerAt. rewrite contents_app, part_app, contents_one, part_one.
  rewrite (in_bucket_iff _ _ _ p), Z.eqb_refl by done. unfold encoded.
  assert (EncodeRecord kv.1 kv.2 = Ok (line ++ [newline])) as -> by congruence.
  rewrite length_app. cbn. f_equal. lia.
Qed.

Lemma nextStep_end t l p :
  0 <= p < t.2 -> exists r', nextStep (readerAt (finalOutput t l) t.2 p l []) = (Ok None, r').
Proof.
  intros Hp. unfold nextStep, readRecord, decoderNext, readLine. cbn [br_decoder readerAt rd_err rd_rest readString].
  replace (MaxRecordBytes <? _) with false by done. cbn [rd_rest length Nat.sub take br_read].
  rewrite app_nil_r, br_bucket_final by done. cbn [bk_ByteCount]. rewrite Z.ltb_irrefl.
  eexists. f_equal. unfold rejectEOF.
  match goal with |- context [br_bucket ?r] => change (br_bucket r) with (br_bucket (readerAt (finalOutput t l) t.2 p l [])) end.
  rewrite br_bucket_final by done. cbn [br_records br_read bk_RecordCount bk_ByteCount bk_SHA256].
  by rewrite Z.add_0_r, !Z.eqb_refl, bool_decide_eq_true_2 by done.
Qed.

Lemma scan_contents t l l1 l2 p fuel :
  0 <= p < t.2 -> l = l1 ++ l2 -> Forall (storable t.2) l2 -> Forall (fun kv => reads_back kv.2) l2 ->
  (length (contents t.2 p l2) < fuel)%nat ->
  scan fuel (readerAt (finalOutput t l) t.2 p l1 (contents t.2 p l2)) = (bucket_part read_back t.2 p l2, None).
Proof.
  intros Hp Hl Hs. revert fuel l1 Hl. induction Hs as [|kv l2 Hkv Hs IH]; intros fuel l1 Hl Hrb Hfuel.
  - rewrite app_nil_r in Hl. subst l1. destruct fuel as [|fuel]; [lia|]. cbn [scan].
    destruct (nextStep_end t l p Hp) as [r' Hend]. change (contents t.2 p []) with (@nil N). by rewrite Hend.
  - apply Forall_cons in Hrb as [Hrb1 Hrb]. destruct (in_bucket t.2 p kv) eqn:Hin.
    + destruct fuel as [|fuel]; [lia|]. cbn [scan]. rewrite (nextStep_record t l l1 l2 kv p Hp Hl Hkv Hrb1 Hin).
      pose proof (encoded_pos kv (proj1 Hkv)) as Hpos. rewrite contents_cons, Hin, length_app in Hfuel.
      rewrite (IH fuel (l1 ++ [kv])); [|by rewrite <- app_assoc|done|lia]. unfold bucket_part. cbn. by rewrite Hin.
    + assert (readerAt (finalOutput t l) t.2 p l1 (contents t.2 p (kv :: l2)) =
              readerAt (finalOutput t l) t.2 p (l1 ++ [kv]) (contents t.2 p l2)) as ->.
      { unfold readerAt. rewrite contents_cons, contents_app, part_app, contents_one, part_one, Hin, !app_nil_r. done. }
      rewrite contents_cons, Hin in Hfuel. rewrite (IH fuel (l1 ++ [kv])); [|by rewrite <- app_assoc|done|done].
      unfold bucket_part. cbn. by rewrite Hin.
Qed.

(** ** The published directory *)

(** [d] is the complete directory of the output of [l]. *)
Record published_files (t : AttemptIdentity * Z * Z) (l : list (string * any)) (d : directory) : Prop := {
  pf_manifest : exists data, manifestBytes (finalOutput t l) = Ok data /\ d !! "manifest.json" = Some data;
  pf_buckets : forall i, (i < Z.to_nat t.2)%nat -> d !! bucketName (Z.of_nat i) = Some (contents t.2 (Z.of_nat i) l) }.

Lemma manifestBytes_length o data : manifestBytes o = Ok data -> Z.of_nat (length data) <= MaxManifestBytes.
Proof.
  unfold manifestBytes. intros ([] & _ & H)%bind_Ok. rewrite fail_if_Ok, Z.ltb_ge in H.
  by destruct H as [H [= <-]].
Qed.

Lemma fileBucket_published v t l d p :
  v.1.1 = false -> v.1.2 !! attemptPath t.1.1 = Some d -> published_files t l d -> Forall (storable t.2) l ->
  Forall (fun kv => reads_back kv.2) l -> 0 <= p < t.2 -> fileBucket v (finalOutput t l) p = (bucket_part read_back t.2 p l, None).
Proof.
  intros Hc Hd [(data & Hdata & Hm) Hb] Hs Hrb Hp. unfold fileBucket. rewrite Hdata, Hc. cbn [mo_NumReducePartitions finalOutput outputOf].
  replace ((p <? 0) || (t.2 <=? p)) with false by (symmetry; apply orb_false_iff; rewrite Z.ltb_ge, Z.leb_gt; lia).
  apply manifestBytes_length in Hdata as Hlen. unfold storedBucket. cbn [mo_Attempt finalOutput outputOf].
  rewrite Hd. cbn [mbind option_bind]. rewrite Hm. unfold limitReader.
  replace (Z.of_nat (length data) <=? MaxManifestBytes + 1) with true by (symmetry; apply Z.leb_le; lia).
  rewrite bool_decide_eq_true_2 by done. cbn [negb].
  rewrite <- (Z2Nat.id p) at 1 by lia. rewrite Hb, Z2Nat.id by lia.
  change (newReader (finalOutput t l) p (contents t.2 p l)) with (readerAt (finalOutput t l) t.2 p [] (contents t.2 p l)).
  rewrite br_bucket_final by done. cbn [bk_ByteCount]. rewrite Z.eqb_refl.
  change (scan (S (length (contents t.2 p l))) (readerAt (finalOutput t l) t.2 p [] (contents t.2 p l)) =
    (bucket_part read_back t.2 p l, None)).
  by rewrite (scan_contents t l [] l p) by (done || lia).
Qed.

(** A readable bucket is in a directory that holds files. *)
Lemma fileBucket_dir v o p l : fileBucket v o p = (l, None) ->
  identity_ok (mo_Attempt o) /\ exists d, v.1.2 !! attemptPath (mo_Attempt o) = Some d /\ d <> ∅.
Proof.
  unfold fileBucket. destruct (manifestBytes o) as [data|] eqn:E; [|done]. apply manifestBytes_identity in E.
  destruct (_ || _); [done|]. destruct v.1.1; [done|]. unfold storedBucket.
  destruct (v.1.2 !! _) as [d|]; [|done]. cbn. destruct (d !! "manifest.json") eqn:Em; [|done]. intros _. split; [done|].
  exists d. split; [done|]. intros ->. by rewrite lookup_empty in Em.
Qed.

(** The private directory becomes the final one, where nothing was. *)
Definition appears (private final : string) (d : directory) (w w' : world) : Prop :=
  (forall k, k <> private -> k <> final -> root w' !! k = root w !! k) /\
  default ∅ (root w !! final) = ∅ /\ root w' !! final = Some d /\
  fs_closed (rt_store w') = fs_closed (rt_store w) /\ rt_open w' = rt_open w - 1.

Lemma appears_kept private final d w w' :
  is_private private -> appears private final d w w' ->
  @kept _ (FileStoreReads faults nonce) (fileView (rt_store w)) (fileView (rt_store w')).
Proof.
  intros Hp (Hr & Hn & _ & Hc & _) o p l H. cbn in H |- *. rewrite (fileBucket_same (fileView (rt_store w))); [done|done|].
  intros Ho. apply fileBucket_dir in H as (_ & d' & Hd & Hd'). cbn in Hd |- *. apply Hr; [by apply Hp|].
  intros Hf. rewrite Hf in Hd. unfold root in Hn. by rewrite Hd in Hn.
Qed.

Lemma finalOutput_open t l wr : openWriter t l (digestsTo t.2 l (Z.to_nat t.2)) wr -> fw_output wr = finalOutput t l.
Proof.
  intros H. rewrite (ow_output _ _ _ _ H). apply outputOf_ext. intros i Hi. unfold digestsTo.
  by destruct (Nat.ltb_spec i (Z.to_nat t.2)); [|lia].
Qed.

(** How [Publish] ends. *)
Definition publishes (c : goContext) t l (wr : fileWriter) (w : world) (r : result MapOutput) (wr' : fileWriter)
    (w' : world) : Prop :=
  match r with
  | Ok o => o = finalOutput t l /\ fileSpent None wr' /\
            exists d, published_files t l d /\ appears (fw_private wr) (fw_final wr) d w w'
  | Err x => gave_up wr w x wr' w' /\
             (fileDisturbed c \/ ~ fileFits t l \/ is_Some (root w !! fw_final wr))
  end.

Lemma publishManifest_spec c t l wr w d r wr' w' :
  openWriter t l (digestsTo t.2 l (Z.to_nat t.2)) wr -> root w !! fw_private wr = Some d ->
  files_to t.2 l (Z.to_nat t.2) d -> publishManifest faults c wr w = (r, wr', w') -> publishes c t l wr w r wr' w'.
Proof.
  intros How Hd Hfiles. pose proof (ow_open _ _ _ _ How) as Ho. unfold publishManifest.
  rewrite (finalOutput_open _ _ _ How).
  assert (Hfail : forall x w2 r wr' w', moved 0 (fw_private wr) w w2 ->
    (fileDisturbed c \/ ~ fileFits t l \/ is_Some (root w !! fw_final wr)) ->
    (let '(e, wr, w) := abortWriter faults (Some x) wr w2 in (Err (default x e), wr, w)) = (r, wr', w') ->
    publishes c t l wr w r wr' w').
  { intros x w2 r2 wr2 w3 Hm Hno. destruct (abortWriter faults (Some x) wr w2) as [[e wr1] w1] eqn:E.
    apply abortWriter_spec in E as (y & -> & Hg). intros [= <- <- <-]. split; [|done]. by eapply gave_up_after. }
  destruct (manifestBytes (finalOutput t l)) as [data|x] eqn:Em.
  2:{ apply Hfail; [apply moved_refl|]. right. left. intros [data H]. congruence. }
  apply manifestBytes_length in Em as Hlen. destruct (writeManifest faults _ data w) as [r1 w1] eqn:E1.
  apply (writeManifest_spec _ _ _ _ _ _ Hd Hlen) in E1. destruct r1 as [[]|x].
  2:{ destruct E1 as [Hm1 Hf]. apply Hfail; [done|]. left. by right. }
  destruct E1 as [Hd1 Hm1]. destruct (checkWriter faults c wr w1) as [[e2 wr2] w2] eqn:E2.
  apply checkWriter_spec in E2; [|done]. destruct e2 as [x|].
  { intros [= <- <- <-]. destruct E2 as [Hc Hg]. split; [by eapply gave_up_after|]. left. by left. }
  destruct E2 as (-> & Hr2 & Hm2). rewrite <- Hr2 in Hd1.
  assert (Hfin : root w2 !! fw_final wr = root w !! fw_final wr).
  { rewrite Hr2. apply Hm1. rewrite (ow_final _ _ _ _ How). by apply (ow_is_private _ _ _ _ How), How. }
  destruct (publishDirectory faults _ _ w2) as [r3 w3] eqn:E3. apply (publishDirectory_spec _ _ _ _ _ _ Hd1) in E3 as [Hq3 E3].
  pose proof (moved_trans 0 0 _ _ _ _ Hm1 Hm2) as Hm12. destruct r3 as [[]|x].
  2:{ destruct E3 as [Hr3 Hf]. rewrite Hfin in Hf. apply Hfail.
      - exact (moved_trans 0 0 _ _ _ _ Hm12 (moved_quiet _ _ _ Hr3 Hq3)).
      - destruct Hf as [Hf|Hf]; [left; by right|by auto]. }
  destruct E3 as [Hn Hr3]. intros [= <- <- <-]. split; [exact (finalOutput_open _ _ _ How)|]. split; [done|].
  exists (<["manifest.json" := data]> d). split.
  - split; [exists data; by rewrite lookup_insert_eq|]. intros i Hi.
    rewrite lookup_insert_ne by (by intros H; symmetry in H; apply bucketName_manifest in H).
    rewrite (Hfiles i Hi). by destruct (Nat.ltb_spec i (Z.to_nat t.2)); [|lia].
  - assert (Hr3' : root (release (ai_RunID (mo_Attempt (fw_output wr))) w3) = root w3) by done.
    destruct Hm12 as (Hk & Hc12 & Ho12), Hq3 as (Ho3 & _ & Hc3 & _). split_and!.
    + intros k Hk1 Hk2. rewrite Hr3', Hr3, lookup_insert_ne, lookup_delete_ne by done. by apply Hk.
    + by rewrite <- Hfin.
    + by rewrite Hr3', Hr3, lookup_insert_eq.
    + cbn. congruence.
    + cbn. lia.
Qed.

Lemma PublishAttempt_spec c wr w r wr' w' t d l :
  openWriter t l (fun _ => emptyDigest) wr -> root w !! fw_private wr = Some d -> files_of t.2 l d ->
  PublishAttempt faults c wr w = (r, wr', w') -> publishes c t l wr w r wr' w'.
Proof.
  intros How Hd Hfiles. unfold PublishAttempt.
  destruct (afterWriter faults c wr w) as [wr1 w1] eqn:E1. destruct (checkWriter faults c wr1 w1) as [[e2 wr2] w2] eqn:E2.
  eapply enterWriter in E2; [|apply How|exact E1]. destruct e2 as [x|].
  { intros [= <- <- <-]. destruct E2 as [Hc Hg]. split; [done|]. left. by left. }
  destruct E2 as (-> & Hr2 & Hm2). rewrite <- Hr2 in Hd.
  destruct (publishBuckets faults c 0 _ wr w2) as [[e3 wr3] w3] eqn:E3.
  apply (publishBuckets_spec c t l 0 _ wr w2 d) in E3; [|lia| |done|done|done].
  2:{ rewrite (ow_hashes _ _ _ _ How). by rewrite Nat.sub_0_r. }
  destruct e3 as [x|].
  { intros [= <- <- <-]. destruct E3 as [Hg Hf]. split; [by eapply gave_up_after|by left]. }
  destruct E3 as ((Ht3 & Hp3 & Hm3) & How3 & d3 & Hd3 & Hf3). rewrite <- Hp3 in Hd3.
  intros H. apply (publishManifest_spec c t l _ _ d3) in H; [|done..].
  pose proof (moved_trans 0 0 _ _ _ _ Hm2 Hm3) as Hm23.
  assert (Hfin : fw_final wr3 = fw_final wr) by (by rewrite (ow_final _ _ _ _ How3), (ow_final _ _ _ _ How)).
  assert (Hroot : root w3 !! fw_final wr = root w !! fw_final wr).
  { apply Hm23. rewrite (ow_final _ _ _ _ How). by apply (ow_is_private _ _ _ _ How), How. }
  unfold publishes in *. rewrite Hfin, Hp3 in H. destruct r as [o|x].
  - destruct H as (Ho & Hs & d' & Hd' & Hk & Hn & Hf & Hc & Hop). split; [done|]. split; [done|]. exists d'. split; [done|].
    destruct Hm23 as (Hk' & Hc' & Hop'). split_and!; [|by rewrite <- Hroot|done|congruence|lia].
    intros k Hk1 Hk2. rewrite Hk by done. by apply Hk'.
  - rewrite Hroot in H. destruct H as [Hg H]. split; [|done].
    eapply gave_up_keeps; [|exact Hg]. split_and!; done.
Qed.

(** ** Opening and aborting an attempt *)

Lemma abortWriter_moved x wr w e wr' w' :
  abortWriter faults x wr w = (e, wr', w') -> moved (-1) (fw_private wr) w w' /\ fw_closed wr' = true.
Proof.
  unfold abortWriter. destruct (removeAll faults _ w) as [r w1] eqn:E. apply removeAll_spec in E.
  intros [= <- <- <-]. split; [|done]. apply (moved_trans 0 (-1) _ w w1 _ E). by split_and!.
Qed.

Lemma AbortAttempt_spec c wr w e wr' w' :
  AbortAttempt faults c wr w = (e, wr', w') ->
  moved (- writer_open wr) (fw_private wr) w w' /\ forall x, fileSpent x wr -> e = x /\ root w' = root w.
Proof.
  unfold AbortAttempt, writer_open, fileSpent. destruct (fw_closed wr) eqn:Hc.
  - assert (Ha : exists w1, afterWriter faults c wr w = (wr, w1) /\ root w1 = root w /\ quiet w w1).
    { unfold afterWriter. cbn [readErr]. rewrite Hc. destruct (ctx_Err c (rt_time w)); eexists; by split_and!. }
    destruct Ha as (w1 & -> & Hr & Hq). rewrite Hc. intros [= <- <- <-]. split; [by apply moved_quiet|].
    by intros x [_ <-].
  - unfold afterWriter. cbn [readErr]. intros H. split; [|by intros x [? _]].
    destruct (ctx_Err c (rt_time w)) as [x|]; [rewrite Hc in H|].
    + unfold cause in H. cbn in H. destruct (abortWriter faults _ wr (tick (tick w))) as [[y wr1] w1] eqn:E.
      apply abortWriter_moved in E as [Hm Hc1]. rewrite Hc1 in H. injection H as <- <- <-.
      exact (moved_trans 0 (-1) _ w (tick w) w1 (moved_tick _ _) (moved_trans 0 (-1) _ _ (tick (tick w)) _ (moved_tick _ _) Hm)).
    + rewrite Hc in H. apply abortWriter_moved in H as [Hm _].
      exact (moved_trans 0 (-1) _ w (tick w) _ (moved_tick _ _) Hm).
Qed.

Lemma initialOutput_spec a m n o :
  initialOutput a m n = Ok o -> o = openOutput (a, m, n) [] /\ identity_ok a /\ 0 < n < 2 ^ 63.
Proof.
  unfold initialOutput. intros ([] & Ha & H)%bind_Ok. apply validateIdentity_spec in Ha.
  rewrite !fail_if_Ok, !orb_false_iff, !Z.leb_gt, Z.ltb_ge in H. destruct H as (((_ & _) & Hn) & Hmax & H).
  apply bind_Ok in H as (data & _ & [= <-]). split; [|split; [done|]].
  - unfold openOutput, outputOf. cbn. f_equal.
  - split; [done|]. eapply Z.le_lt_trans; [exact Hmax|]. vm_compute. done.
Qed.

Definition fileBegins (v : bool * gmap string directory * nat) (a : AttemptIdentity) (m n : Z) : Prop :=
  v.1.1 = false /\ (exists o, initialOutput a m n = Ok o) /\ v.1.2 !! attemptPath a = None /\
  v.1.2 !! privatePath a (nonce v.2) = None.

(** The path of what [w'] may have that [w] has not. *)
Lemma createPrivate_spec a w r w' :
  createPrivate faults nonce a w = (r, w') ->
  let path := privatePath a (nonce (fs_draws (rt_store w))) in
  match r with
  | Ok p => p = path /\ becomes path ∅ w w'
  | Err _ => moved (-1) path w w' /\ (disk_faults faults \/ is_Some (root w !! path))
  end.
Proof.
  unfold createPrivate. destruct (mkdirAll faults _ w) as [r1 w1] eqn:E1.
  apply (attempt_observes faults w r1 w1 (fun _ => Ok tt)) in E1 as (Hr1 & Hq1 & H1). destruct r1 as [[]|x].
  2:{ intros [= <- <-]. split; [|left; by destruct H1 as [?|[? _]]].
      apply (moved_trans 0 (-1) _ w w1); [by apply moved_quiet|by split_and!]. }
  pose proof Hq1 as (_ & _ & _ & ->). set (path := privatePath a _). set (w2 := on_store count_draw w1).
  assert (H02 : moved 0 path w w2).
  { apply (moved_trans 0 0 _ w w1); [by apply moved_quiet|]. split_and!; [done|done|cbn; lia]. }
  assert (Hr2 : root w2 = root w) by done.
  destruct (mkdir faults path w2) as [r3 w3] eqn:E3. apply attempt_spec in E3 as [(y & -> & Hf & Hr3 & Hq3)|(w3' & H3 & Hr3 & Hq3)].
  - intros [= <- <-]. split; [|by left]. apply (moved_trans 0 (-1) _ w w2 _ H02).
    apply (moved_trans 0 (-1) _ w2 w3); [by apply moved_quiet|by split_and!].
  - rewrite Hr3 in H3. pose proof (moved_trans 0 0 _ _ _ _ H02 (moved_quiet path _ _ Hr3 Hq3)) as H03.
    destruct (root w2 !! path) as [d|] eqn:Ed; injection H3 as <- <-.
    + intros [= <- <-]. split; [|right; rewrite <- Hr2; eauto]. apply (moved_trans 0 (-1) _ w w3' _ H03). by split_and!.
    + intros [= <- <-]. split; [done|]. split; [unfold root; cbn; by rewrite lookup_insert_eq|].
      apply (moved_trans 0 0 _ w w3' _ H03). split_and!; [|done|cbn; lia].
      intros k Hk. unfold root in Hr3 |- *. cbn in Hr3 |- *. rewrite lookup_insert_ne by done. by rewrite Hr3.
Qed.

(** Nothing but the clocks may differ. *)
Definition still (w w' : world) : Prop :=
  root w' = root w /\ fs_closed (rt_store w') = fs_closed (rt_store w) /\ rt_open w' = rt_open w.

Lemma still_same_reads w w' :
  still w w' -> @same_reads _ (FileStoreReads faults nonce) (fileView (rt_store w)) (fileView (rt_store w')).
Proof.
  intros (Hr & Hc & _). unfold root in Hr. split_and!.
  - intros o p. apply fileBucket_same; [done|]. intros _. cbn. by rewrite Hr.
  - done.
  - intros b. cbn. by rewrite Hr.
Qed.

Lemma newFileWriter_written a m n w path :
  identity_ok a -> 0 < n < 2 ^ 63 -> (exists draw, path = privatePath a draw) ->
  fs_closed (rt_store w) = false -> root w !! path = Some ∅ ->
  fileWritten (fileView (rt_store w)) (newFileWriter (openOutput (a, m, n) []) path (attemptPath a)) [].
Proof.
  intros Ha Hn Hp Hc Hd. split; [done|]. exists (a, m, n), ∅. split; [|split; [exact Hd|]].
  - split; try done. cbn. rewrite length_fmap, length_seq. apply list_eq. intros i.
    rewrite list_lookup_fmap. destruct (decide (i < Z.to_nat n)%nat) as [Hi|Hi].
    + by rewrite lookup_replicate_2, lookup_seq_lt.
    + by rewrite !lookup_ge_None_2 by (rewrite ?length_replicate, ?length_seq; lia).
  - intros i _. by rewrite lookup_empty.
Qed.

Lemma BeginAttempt_spec c a m n w r w' :
  BeginAttempt faults nonce c a m n w = (r, w') ->
  let path := privatePath a (nonce (fs_draws (rt_store w))) in
  match r with
  | Ok wr => identity_ok a /\ moved 1 path w w' /\ writer_open wr = 1 /\
             fileWritten (fileView (rt_store w')) wr [] /\ targetOf wr = (a, m, n) /\
             (fileDisturbed c \/ root w' !! attemptPath a = None)
  | Err _ => (still w w' \/ identity_ok a /\ moved 0 path w w') /\
             (fileDisturbed c \/ ~ fileBegins (fileView (rt_store w)) a m n)
  end.
Proof.
  set (path := privatePath a _). unfold BeginAttempt. cbn [readErr].
  destruct (ctx_Err c (rt_time w)) as [e|] eqn:Ec.
  { intros [= <- <-]. split; [left; by split_and!|]. left. left. exists (rt_time w). left. by rewrite Ec. }
  destruct (initialOutput a m n) as [o|x] eqn:Ei.
  2:{ intros [= <- <-]. split; [left; by split_and!|]. right. intros (_ & [o Ho] & _). congruence. }
  apply initialOutput_spec in Ei as Hi. destruct Hi as (-> & Ha & Hn).
  destruct (acquire _ (tick w)) as [r1 w1] eqn:E1. apply acquire_spec in E1. destruct r1 as [[]|x].
  2:{ destruct E1 as (Hc & -> & Hs). intros [= <- <-]. cbn in Hc. split; [left|right; intros [Hc' _]; cbn in Hc'; congruence].
      destruct Hs as [Hs Ho]. unfold fileView in Hs. injection Hs as Hs1 Hs2 Hs3. split_and!; [done..|cbn in *; lia]. }
  destruct E1 as [Hc [Hs Ho]]. unfold fileView in Hs. injection Hs as Hs1 Hs2 Hs3. cbn in Hc, Hs1, Hs2, Hs3, Ho.
  assert (H01 : moved 1 path w w1) by (unfold root; split_and!; [by intros k _; unfold root; rewrite Hs2|done|lia]).
  destruct (lstat faults _ w1) as [r2 w2] eqn:E2. apply lstat_spec in E2 as (Hr2 & Hq2 & H2).
  assert (Hroot1 : root w1 = root w) by done.
  pose proof (moved_trans 1 0 _ _ _ _ H01 (moved_quiet path _ _ Hr2 Hq2)) as H02.
  assert (Hgive : moved 0 path w (release (ai_RunID a) w2)).
  { apply (moved_trans 1 (-1) _ w w2 _ H02). by split_and!. }
  assert (Hbusy : is_Some (root w !! attemptPath a) -> ~ fileBegins (fileView (rt_store w)) a m n).
  { intros [d Hd] (_ & _ & Hnone & _). unfold root in Hd. cbn in Hnone. congruence. }
  destruct r2 as [[]|x].
  { intros [= <- <-]. split; [by right|]. destruct H2 as [H2|[? (? & ?)]]; [|done]. right. apply Hbusy.
    rewrite <- Hroot1. destruct (root w1 !! attemptPath a); [eauto|done]. }
  destruct (errors_Is x fs_ErrNotExist) eqn:Ex.
  2:{ intros [= <- <-]. split; [by right|]. destruct H2 as [H2|[? _]]; [|left; by right]. exfalso.
      destruct (root w1 !! attemptPath a); [done|]. injection H2 as ->. done. }
  destruct (createPrivate faults nonce a w2) as [r3 w3] eqn:E3. apply createPrivate_spec in E3.
  assert (Hdraws : fs_draws (rt_store w2) = fs_draws (rt_store w)) by (destruct Hq2 as (_ & _ & _ & ->); done).
  rewrite Hdraws in E3. fold path in E3. destruct r3 as [p|y].
  - destruct E3 as [-> [Hd3 Hm3]]. pose proof (moved_trans 1 0 _ _ _ _ H02 Hm3) as H03.
    intros [= <- <-]. split; [done|]. split; [done|]. split; [done|]. split; [|split; [done|]].
    + apply newFileWriter_written; [done|done|by eexists| |done]. destruct H03 as (_ & -> & _). done.
    + destruct H2 as [H2|[? _]]; [right|left; by right].
      destruct H03 as (-> & _); [|by apply privatePath_private]. rewrite <- Hroot1.
      by destruct (root w1 !! attemptPath a).
  - destruct E3 as [Hm3 Hf]. intros [= <- <-]. split; [right; split; [done|exact (moved_trans 1 (-1) _ _ _ _ H02 Hm3)]|].
    destruct Hf as [Hf|[d Hd]]; [left; by right|]. right. intros (_ & _ & _ & Hnone). cbn in Hnone.
    fold path in Hnone. rewrite Hr2, Hroot1 in Hd. unfold root in Hd. congruence.
Qed.

(** ** The implementation of the writers' contract *)

Lemma fileWritten_private v wr l : fileWritten v wr l -> is_private (fw_private wr).
Proof. intros (_ & t & d & How & _). by eapply ow_is_private. Qed.

Lemma performs_reads wr w wr' w' :
  is_private (fw_private wr) -> performs wr w wr' w' ->
  @same_reads _ (FileStoreReads faults nonce) (fileView (rt_store w)) (fileView (rt_store w')) /\
  rt_open w' - writer_open wr' = rt_open w - writer_open wr /\ targetOf wr' = targetOf wr.
Proof.
  intros Hp [Ht Hm]. split; [by eapply moved_same_reads|]. destruct Hm as (_ & _ & Ho). split; [lia|done].
Qed.

Lemma manifestBytes_valid o data : manifestBytes o = Ok data -> validateMapOutput o = Ok tt.
Proof. unfold manifestBytes. by intros ([] & H & _)%bind_Ok. Qed.

#[export] Instance FileStoreWrites : StoreWrites (FileShuffleStore faults nonce) (FileStoreReads faults nonce).
Proof.
  refine (@Build_StoreWrites (FileShuffleStore faults nonce) (FileStoreReads faults nonce)
    writer_open targetOf fileWritten fileSpent read_back reads_back fileBegins fileAccepts fileFits fileAccepts_prefix _ _ _ _).
  - intros c a m n w r w' H. apply BeginAttempt_spec in H. destruct r as [wr|x].
    + destruct H as (Ha & Hm & Hop & Hw & Ht & Hf). split; [by eapply moved_same_reads, Hm; apply privatePath_private|].
      split; [done|]. split; [done|]. split; [|cbn; rewrite Hop; apply Hm].
      destruct Hf as [Hf|Hf]; [by left|right]. intros [_ [d Hd]]. unfold root in Hf. cbn in Hd. congruence.
    + destruct H as [[Hs|[Ha Hm]] Hno].
      * split; [by apply still_same_reads|]. split; [apply Hs|done].
      * split; [by eapply moved_same_reads, Hm; apply privatePath_private|].
        split; [destruct Hm as (_ & _ & Ho); cbn in *; lia|done].
  - intros c wr k v w e wr' w' l H Hw. apply (WriteRecord_spec _ _ _ _ _ _ _ _ l) in H as [Hp He]; [|done].
    destruct (performs_reads _ _ _ _ (fileWritten_private _ _ _ Hw) Hp) as (? & ? & ?). done.
  - intros c wr w r wr' w' l H Hw. pose proof (fileWritten_private _ _ _ Hw) as Hpriv.
    destruct Hw as (Hcl & t & d & How & Hd & Hfiles).
    apply (PublishAttempt_spec _ _ _ _ _ _ t d l) in H; [|done..].
    assert (Htgt : targetOf wr = t) by (by eapply ow_target). destruct r as [o|x].
    + destruct H as (-> & Hs & d' & Hd' & Happ). split; [by eapply appears_kept|]. split; [done|].
      split; [unfold writer_handles; cbn; unfold writer_open; rewrite (ow_open _ _ _ _ How), (proj1 Hs);
        destruct Happ as (_ & _ & _ & _ & ->); lia|].
      pose proof Hd' as [(data & Hdata & Hm) Hb]. cbn. rewrite Htgt. split; [by eapply manifestBytes_valid|].
      split; [done|]. split; [done|]. split; [done|]. intros Hrb p Hp.
      destruct Happ as (_ & _ & Hfin & Hc & _). rewrite (ow_final _ _ _ _ How) in Hfin.
      eapply fileBucket_published; [cbn in *; congruence|exact Hfin|done| |done|done]. apply (ow_accepts _ _ _ _ How).
    + destruct H as [(Hs & Ht & Hm) Hno]. split; [by eapply same_reads_kept, moved_same_reads|]. split; [done|].
      split; [unfold writer_handles; cbn; unfold writer_open; rewrite (ow_open _ _ _ _ How), (proj1 Hs);
        destruct Hm as (_ & _ & ->); lia|]. cbn. rewrite Htgt.
      destruct Hno as [?|[Hno|Hno]]; [by left|right; left; by intros [_ ?]|]. right. right.
      rewrite (ow_final _ _ _ _ How) in Hno. split; [apply validateIdentity_spec, How|exact Hno].
  - intros c wr w e wr' w' H Hlive. apply AbortAttempt_spec in H as [Hm Hx].
    assert (Hs : @same_reads _ (FileStoreReads faults nonce) (fileView (rt_store w)) (fileView (rt_store w'))).
    { destruct Hlive as [[x Hs]|[l Hw]].
      - destruct (Hx x Hs) as [_ Hr]. apply still_same_reads. destruct Hs as [Hs _]. unfold writer_open in Hm.
        rewrite Hs in Hm. destruct Hm as (_ & ? & ?). split_and!; [done|done|lia].
      - eapply moved_same_reads; [by eapply fileWritten_private|exact Hm]. }
    split; [done|]. split; [destruct Hm as (_ & _ & Ho); cbn in *; lia|]. intros x Hsp. by apply Hx.
Defined.

End writes.
