(* ===== verification/Json.v ===== *)
(** * Json: the part of encoding/json that records use

    [json.Marshal] of a dynamic value, and decoding one with [UseNumber] into an
    empty interface.  A slice is not nil, a map is its entries in the order of
    their keys.  Values of types the program never shuffles ([json.RawMessage],
    which only the coordinator makes, and [AOther]) are not encoded here: an
    error stands for whatever [Marshal] does.  The decoder's input is valid
    UTF-8, which [decodeRecord] checks first; the texts of its errors are not
    modelled. *)

From Stdlib Require Import Ascii.
From S2P Require Import Prelude Bytes Reports.
#[local] Open Scope Z_scope.

Definition syntaxError : error := Sentinel "json: syntax error".
Definition depthError : error := Sentinel "json: exceeded max depth".

(** The decoder's recursion runs on fuel; this is never returned
    (see [parse_fuel]). *)
Definition outOfFuel : error := Sentinel "out of fuel".

Definition maxNestingDepth : N := 10000.

(** ** Encoding *)

Definition valid2 (b0 b1 : N) : bool := in_range 194 223 b0 && cont b1.
Definition valid3 (b0 b1 b2 : N) : bool :=
  in_range 224 239 b0 &&
  in_range (if (b0 =? 224)%N then 160 else 128) (if (b0 =? 237)%N then 159 else 191) b1 && cont b2.
Definition valid4 (b0 b1 b2 b3 : N) : bool :=
  in_range 240 244 b0 &&
  in_range (if (b0 =? 240)%N then 144 else 128) (if (b0 =? 244)%N then 143 else 191) b1 && cont b2 && cont b3.

(** A byte below 128: [htmlSafeSet] holds the printable ones but the quote, the
    backslash and [<], [>], [&]. *)
Definition escapeByte (b : N) : list N :=
  (if (b =? 34) || (b =? 92) then [92; b]
   else if b =? 8 then [92; 98]
   else if b =? 12 then [92; 102]
   else if b =? 10 then [92; 110]
   else if b =? 13 then [92; 114]
   else if b =? 9 then [92; 116]
   else if (b <? 32) || (b =? 60) || (b =? 62) || (b =? 38)
   then [92; 117; 48; 48; hexDigit (b / 16); hexDigit (b mod 16)]
   else [b])%N.

Definition escapedFFFD : list N := [92; 117; 102; 102; 102; 100]%N.

(** U+2028 and U+2029 are escaped, other runes are copied. *)
Definition escape3 (b0 b1 b2 : N) : list N :=
  (if (b0 =? 226) && (b1 =? 128) && ((b2 =? 168) || (b2 =? 169))
   then [92; 117; 50; 48; 50; 56 + (b2 - 168)]
   else [b0; b1; b2])%N.

(** The string between the quotes; an invalid byte becomes U+FFFD. *)
Fixpoint quote (bs : list N) : list N :=
  match bs with
  | [] => []
  | b0 :: t0 =>
      if (b0 <? 128)%N then escapeByte b0 ++ quote t0
      else
        match t0 with
        | [] => escapedFFFD ++ quote t0
        | b1 :: t1 =>
            if valid2 b0 b1 then [b0; b1] ++ quote t1
            else
              match t1 with
              | [] => escapedFFFD ++ quote t0
              | b2 :: t2 =>
                  if valid3 b0 b1 b2 then escape3 b0 b1 b2 ++ quote t2
                  else
                    match t2 with
                    | [] => escapedFFFD ++ quote t0
                    | b3 :: t3 =>
                        if valid4 b0 b1 b2 b3 then [b0; b1; b2; b3] ++ quote t3
                        else escapedFFFD ++ quote t0
                    end
              end
        end
  end.

Definition encodeString (s : string) : list N := (34 :: quote (bytes_of s) ++ [34])%N.

(** ** Numbers *)

Definition is_digit (b : N) : bool := in_range 48 57 b.

Fixpoint digits (bs : list N) : list N * list N :=
  match bs with
  | b :: t => if is_digit b then let '(ds, rest) := digits t in (b :: ds, rest) else ([], bs)
  | [] => ([], [])
  end.

(** At least one digit. *)
Definition digits1 (bs : list N) : result (list N * list N) :=
  match digits bs with
  | ([], _) => Err syntaxError
  | r => Ok r
  end.

(** An optional part that starts with one of the bytes [marks]. *)
Definition part_after (marks : list N) (body : list N -> result (list N * list N)) (bs : list N)
    : result (list N * list N) :=
  match bs with
  | b :: t =>
      if existsb (N.eqb b) marks then '(ds, rest) ← body t; Ok (b :: ds, rest)
      else Ok ([], bs)
  | [] => Ok ([], [])
  end.

(** No digit follows a leading zero. *)
Definition intPart (bs : list N) : result (list N * list N) :=
  match bs with
  | b :: t => if (b =? 48)%N then Ok ([b], t) else digits1 bs
  | [] => Err syntaxError
  end.

Definition unsignedNumber (bs : list N) : result (list N * list N) :=
  '(int, bs) ← intPart bs;
  '(frac, bs) ← part_after [46]%N digits1 bs;
  '(exp, bs) ← part_after [101; 69]%N
                 (fun bs => match bs with
                            | b :: t => if (b =? 43)%N || (b =? 45)%N
                                        then '(ds, rest) ← digits1 t; Ok (b :: ds, rest) else digits1 bs
                            | [] => Err syntaxError
                            end) bs;
  Ok (int ++ frac ++ exp, bs).

Definition parseNumber (bs : list N) : result (list N * list N) :=
  match bs with
  | b :: t => if (b =? 45)%N then '(ds, rest) ← unsignedNumber t; Ok (b :: ds, rest) else unsignedNumber bs
  | [] => Err syntaxError
  end.

Definition isValidNumber (bs : list N) : bool :=
  match parseNumber bs with
  | Ok (_, []) => true
  | _ => false
  end.

(** ** Values *)

Fixpoint commas (parts : list (list N)) : list N :=
  match parts with
  | [] => []
  | [p] => p
  | p :: ps => p ++ [44%N] ++ commas ps
  end.

Definition member (key : string) (value : list N) : list N := encodeString key ++ [58%N] ++ value.

Definition object (members : list (list N)) : list N := [123%N] ++ commas members ++ [125%N].

(** An empty [json.Number] is encoded as zero. *)
Definition number_text (s : string) : string := if bool_decide (s = "") then "0" else s.

Fixpoint marshal (v : any) : result (list N) :=
  match v with
  | ANil => Ok (bytes_of "null")
  | ABool b => Ok (bytes_of (if b then "true" else "false"))
  | AString s => Ok (encodeString s)
  | AInt z | AInt64 z => Ok (bytes_of (pretty z))
  | ANumber s =>
      fail_if (negb (isValidNumber (bytes_of (number_text s)))) (Errorf "json: invalid number literal %q" [FStr s]);;
      Ok (bytes_of (number_text s))
  | AKeyValue key value =>
      value ← marshal value;
      Ok (object [member "key" (encodeString key); member "value" value])
  | AArray l =>
      parts ← (fix all (l : list any) : result (list (list N)) :=
                 match l with
                 | [] => Ok []
                 | v :: l => p ← marshal v; ps ← all l; Ok (p :: ps)
                 end) l;
      Ok ([91%N] ++ commas parts ++ [93%N])
  | AMap l =>
      parts ← (fix all (l : list (string * any)) : result (list (list N)) :=
                 match l with
                 | [] => Ok []
                 | (k, v) :: l => p ← marshal v; ps ← all l; Ok (member k p :: ps)
                 end) l;
      Ok (object parts)
  | ARaw _ | AOther _ => Err (Errorf "json: unsupported type: %s" [])
  end.

(** ** Decoding strings *)

Definition is_space (b : N) : bool := (b =? 32)%N || (b =? 9)%N || (b =? 10)%N || (b =? 13)%N.

Fixpoint skipSpace (bs : list N) : list N :=
  match bs with
  | b :: t => if is_space b then skipSpace t else bs
  | [] => []
  end.

(** The input after the byte [c] and any space before it. *)
Definition expect (c : N) (bs : list N) : option (list N) :=
  match skipSpace bs with
  | b :: t => if (b =? c)%N then Some t else None
  | [] => None
  end.

Definition hexValue (b : N) : option N :=
  (if in_range 48 57 b then Some (b - 48)
   else if in_range 97 102 b then Some (b - 87)
   else if in_range 65 70 b then Some (b - 55) else None)%N.

Definition hexRune (h1 h2 h3 h4 : N) : option N :=
  a ← hexValue h1; b ← hexValue h2; c ← hexValue h3; d ← hexValue h4;
  Some (((a * 16 + b) * 16 + c) * 16 + d)%N.

Definition is_surrogate (r : N) : bool := in_range 0xD800 0xDFFF r.

(** [utf8.EncodeRune]. *)
Definition encodeRune (r : N) : list N :=
  (if r <? 128 then [r]
   else if r <? 2048 then [192 + r / 64; 128 + r mod 64]
   else if r <? 65536 then [224 + r / 4096; 128 + (r / 64) mod 64; 128 + r mod 64]
   else [240 + r / 262144; 128 + (r / 4096) mod 64; 128 + (r / 64) mod 64; 128 + r mod 64])%N.

Definition replacement : list N := [239; 191; 189]%N.

(** [utf16.DecodeRune] of two halves. *)
Definition joinSurrogates (r1 r2 : N) : option N :=
  (if in_range 0xD800 0xDBFF r1 && in_range 0xDC00 0xDFFF r2
   then Some ((r1 - 0xD800) * 1024 + (r2 - 0xDC00) + 0x10000) else None)%N.

Definition simpleEscape (e : N) : option N :=
  (if (e =? 34) || (e =? 92) || (e =? 47) then Some e
   else if e =? 98 then Some 8
   else if e =? 102 then Some 12
   else if e =? 110 then Some 10
   else if e =? 114 then Some 13
   else if e =? 116 then Some 9 else None)%N.

Definition prepend (p : list N) (r : result (list N * list N)) : result (list N * list N) :=
  '(s, rest) ← r; Ok (p ++ s, rest).

(** A string after its opening quote, and what follows its closing one. *)
Fixpoint unquote (bs : list N) : result (list N * list N) :=
  match bs with
  | [] => Err syntaxError
  | b :: t =>
      if (b =? 34)%N then Ok ([], t)
      else if (b =? 92)%N then
        match t with
        | [] => Err syntaxError
        | e :: t1 =>
            if (e =? 117)%N then
              match t1 with
              | h1 :: h2 :: h3 :: h4 :: t2 =>
                  match hexRune h1 h2 h3 h4 with
                  | None => Err syntaxError
                  | Some r =>
                      if is_surrogate r then
                        match t2 with
                        | c1 :: c2 :: g1 :: g2 :: g3 :: g4 :: t3 =>
                            match (if (c1 =? 92)%N && (c2 =? 117)%N
                                   then r2 ← hexRune g1 g2 g3 g4; joinSurrogates r r2 else None) with
                            | Some r => prepend (encodeRune r) (unquote t3)
                            | None => prepend replacement (unquote t2)
                            end
                        | _ => prepend replacement (unquote t2)
                        end
                      else prepend (encodeRune r) (unquote t2)
                  end
              | _ => Err syntaxError
              end
            else
              match simpleEscape e with
              | Some c => prepend [c] (unquote t1)
              | None => Err syntaxError
              end
        end
      else if (b <? 32)%N then Err syntaxError
      else prepend [b] (unquote t)
  end.

(** ** Decoding values *)

Fixpoint stripPrefix (p bs : list N) : option (list N) :=
  match p, bs with
  | [], _ => Some bs
  | x :: p, b :: bs => if (x =? b)%N then stripPrefix p bs else None
  | _ :: _, [] => None
  end.

(** Setting a key of a map, the last value of a repeated key staying. *)
Fixpoint insertKey (key : string) (value : any) (l : list (string * any)) : list (string * any) :=
  match l with
  | [] => [(key, value)]
  | (k, v) :: l' =>
      match String.compare key k with
      | Eq => (key, value) :: l'
      | Lt => (key, value) :: l
      | Gt => (k, v) :: insertKey key value l'
      end
  end.

Definition mapOf (l : list (string * any)) : list (string * any) :=
  foldl (fun m kv => insertKey kv.1 kv.2 m) [] l.

(** [null], [true], [false] or a number. *)
Definition parseScalar (bs : list N) : result (any * list N) :=
  match stripPrefix (bytes_of "null") bs with
  | Some rest => Ok (ANil, rest)
  | None =>
      match stripPrefix (bytes_of "true") bs with
      | Some rest => Ok (ABool true, rest)
      | None =>
          match stripPrefix (bytes_of "false") bs with
          | Some rest => Ok (ABool false, rest)
          | None => '(n, rest) ← parseNumber bs; Ok (ANumber (string_of n), rest)
          end
      end
  end.

(** [depth] objects and arrays are open. *)
Fixpoint parseValue (fuel : nat) (depth : N) (bs : list N) : result (any * list N) :=
  match fuel with
  | O => Err outOfFuel
  | S fuel =>
      match expect 34 bs with
      | Some t => '(s, rest) ← unquote t; Ok (AString (string_of s), rest)
      | None =>
          match expect 123 bs with
          | Some t =>
              if (maxNestingDepth <=? depth)%N then Err depthError
              else
                match expect 125 t with
                | Some rest => Ok (AMap [], rest)
                | None => '(m, rest) ← parseMembers fuel (depth + 1) t; Ok (AMap (mapOf m), rest)
                end
          | None =>
              match expect 91 bs with
              | Some t =>
                  if (maxNestingDepth <=? depth)%N then Err depthError
                  else
                    match expect 93 t with
                    | Some rest => Ok (AArray [], rest)
                    | None => '(l, rest) ← parseElements fuel (depth + 1) t; Ok (AArray l, rest)
                    end
              | None => parseScalar (skipSpace bs)
              end
          end
      end
  end
with parseElements (fuel : nat) (depth : N) (bs : list N) : result (list any * list N) :=
  match fuel with
  | O => Err outOfFuel
  | S fuel =>
      '(v, t) ← parseValue fuel depth bs;
      match expect 44 t with
      | Some t => '(l, rest) ← parseElements fuel depth t; Ok (v :: l, rest)
      | None =>
          match expect 93 t with
          | Some rest => Ok ([v], rest)
          | None => Err syntaxError
          end
      end
  end
with parseMembers (fuel : nat) (depth : N) (bs : list N) : result (list (string * any) * list N) :=
  match fuel with
  | O => Err outOfFuel
  | S fuel =>
      match expect 34 bs with
      | None => Err syntaxError
      | Some t =>
          '(key, t) ← unquote t;
          match expect 58 t with
          | None => Err syntaxError
          | Some t =>
              '(v, t) ← parseValue fuel depth t;
              match expect 44 t with
              | Some t => '(m, rest) ← parseMembers fuel depth t; Ok ((string_of key, v) :: m, rest)
              | None =>
                  match expect 125 t with
                  | Some rest => Ok ([(string_of key, v)], rest)
                  | None => Err syntaxError
                  end
              end
          end
      end
  end.

(** ** What a value is read back as *)

(** The runes of a string, U+FFFD in place of each invalid byte. *)
Fixpoint fixUTF8 (bs : list N) : list N :=
  match bs with
  | [] => []
  | b0 :: t0 =>
      if (b0 <? 128)%N then b0 :: fixUTF8 t0
      else
        match t0 with
        | [] => replacement ++ fixUTF8 t0
        | b1 :: t1 =>
            if valid2 b0 b1 then [b0; b1] ++ fixUTF8 t1
            else
              match t1 with
              | [] => replacement ++ fixUTF8 t0
              | b2 :: t2 =>
                  if valid3 b0 b1 b2 then [b0; b1; b2] ++ fixUTF8 t2
                  else
                    match t2 with
                    | [] => replacement ++ fixUTF8 t0
                    | b3 :: t3 =>
                        if valid4 b0 b1 b2 b3 then [b0; b1; b2; b3] ++ fixUTF8 t3
                        else replacement ++ fixUTF8 t0
                    end
              end
        end
  end.

Definition fixString (s : string) : string := string_of (fixUTF8 (bytes_of s)).

(** Numbers become [json.Number]s, pairs maps, strings valid UTF-8. *)
Fixpoint jsonWire (v : any) : any :=
  match v with
  | AString s => AString (fixString s)
  | AInt z | AInt64 z => ANumber (pretty z)
  | ANumber s => ANumber (number_text s)
  | AKeyValue key value => AMap [("key", AString (fixString key)); ("value", jsonWire value)]
  | AArray l => AArray (map jsonWire l)
  | AMap l => AMap (mapOf (map (fun kv => (fixString kv.1, jsonWire kv.2)) l))
  | v => v
  end.

(** How deep objects and arrays are nested. *)
Fixpoint nesting (v : any) : N :=
  match v with
  | AKeyValue _ value => 1 + nesting value
  | AArray l => 1 + foldr N.max 0 (map nesting l)
  | AMap l => 1 + foldr N.max 0 (map (fun kv => nesting kv.2) l)
  | _ => 0
  end%N.
