(* ===== verification/JsonProofs.v ===== *)
(** * JsonProofs: what is marshalled is read back

    Strings, numbers and values: decoding the text of a value gives the value
    [jsonWire] names, and the text is one line. *)

From Stdlib Require Import Ascii.
From S2P Require Import Prelude Bytes Reports Json.
#[local] Open Scope Z_scope.

(** ** Values within values *)

Section nested.
Variable P : any -> Prop.
Hypothesis HNil : P ANil.
Hypothesis HBool : forall b, P (ABool b).
Hypothesis HString : forall s, P (AString s).
Hypothesis HInt : forall z, P (AInt z).
Hypothesis HInt64 : forall z, P (AInt64 z).
Hypothesis HNumber : forall s, P (ANumber s).
Hypothesis HKeyValue : forall key value, P value -> P (AKeyValue key value).
Hypothesis HRaw : forall s, P (ARaw s).
Hypothesis HArray : forall l, Forall P l -> P (AArray l).
Hypothesis HMap : forall l, Forall (fun kv => P kv.2) l -> P (AMap l).
Hypothesis HOther : forall s, P (AOther s).

Fixpoint any_nested (v : any) : P v :=
  match v with
  | ANil => HNil
  | ABool b => HBool b
  | AString s => HString s
  | AInt z => HInt z
  | AInt64 z => HInt64 z
  | ANumber s => HNumber s
  | AKeyValue key value => HKeyValue key value (any_nested value)
  | ARaw s => HRaw s
  | AArray l => HArray l ((fix all (l : list any) : Forall P l :=
      match l with [] => List.Forall_nil _ | v :: l => @List.Forall_cons _ _ _ _ (any_nested v) (all l) end) l)
  | AMap l => HMap l ((fix all (l : list (string * any)) : Forall (fun kv => P kv.2) l :=
      match l with [] => List.Forall_nil _ | kv :: l => @List.Forall_cons _ _ _ _ (any_nested kv.2) (all l) end) l)
  | AOther s => HOther s
  end.
End nested.

(** ** Strings *)

(** Reading a piece [p] of a string gives the bytes [r]. *)
Definition reads_as (p r : list N) : Prop := forall t, unquote (p ++ t) = prepend r (unquote t).

Lemma below (n : nat) (P : N -> Prop) :
  Forall (fun i => P (N.of_nat i)) (seq 0 n) -> forall b, (b < N.of_nat n)%N -> P b.
Proof.
  intros H b Hb. rewrite Forall_seq in H. specialize (H (N.to_nat b) ltac:(lia)). by rewrite N2Nat.id in H.
Qed.

Lemma reads_escape b : (b < 128)%N -> reads_as (escapeByte b) [b].
Proof. revert b. apply (below 128). repeat constructor; intros t; reflexivity. Qed.

Lemma unquote_copy b t : (128 <= b)%N -> unquote (b :: t) = prepend [b] (unquote t).
Proof.
  intros Hb. cbn [unquote].
  destruct (N.eqb_spec b 34); [lia|]. destruct (N.eqb_spec b 92); [lia|]. by destruct (N.ltb_spec b 32); [lia|].
Qed.

Lemma prepend_app p q r : prepend p (prepend q r) = prepend (p ++ q) r.
Proof. destruct r as [[s rest]|err]; cbn; [by rewrite app_assoc|done]. Qed.

Lemma reads_copies p : Forall (fun b => (128 <= b)%N) p -> reads_as p p.
Proof.
  intros H t. induction H as [|b p Hb Hp IH]; cbn [app].
  - by destruct (unquote t) as [[]|].
  - by rewrite unquote_copy, IH, prepend_app by done.
Qed.

Lemma in_range_ge lo hi b : in_range lo hi b = true -> (lo <= b <= hi)%N.
Proof. unfold in_range. rewrite andb_true_iff, !N.leb_le. done. Qed.

Lemma reads_escape3 b0 b1 b2 : valid3 b0 b1 b2 = true -> reads_as (escape3 b0 b1 b2) [b0; b1; b2].
Proof.
  unfold valid3, cont, escape3. rewrite !andb_true_iff. intros ((H0%in_range_ge & H1%in_range_ge) & H2%in_range_ge).
  destruct (_ && _ && _) eqn:E.
  - rewrite !andb_true_iff, orb_true_iff, !N.eqb_eq in E. destruct E as ((-> & ->) & [-> | ->]); intros t; reflexivity.
  - apply reads_copies. repeat constructor; [lia| |lia]. destruct (b0 =? 224)%N; lia.
Qed.

Lemma escapeByte_line b : (b < 128)%N -> newline ∉ escapeByte b.
Proof.
  revert b. apply (below 128).
  assert (H : forallb (fun i => bool_decide (newline ∉ escapeByte (N.of_nat i))) (seq 0 128) = true)
    by (vm_compute; reflexivity).
  rewrite forallb_forall in H. apply Forall_forall. intros i Hi. apply list_elem_of_In, H in Hi.
  by apply bool_decide_eq_true in Hi.
Qed.

Lemma copies_line p : Forall (fun b => (128 <= b)%N) p -> newline ∉ p.
Proof. intros H Hin. rewrite Forall_forall in H. specialize (H _ Hin). unfold newline in H. lia. Qed.

Lemma escape3_line b0 b1 b2 : valid3 b0 b1 b2 = true -> newline ∉ escape3 b0 b1 b2.
Proof.
  unfold valid3, cont, escape3. rewrite !andb_true_iff. intros ((H0%in_range_ge & H1%in_range_ge) & H2%in_range_ge).
  destruct (_ && _ && _) eqn:E.
  - rewrite !andb_true_iff, orb_true_iff, !N.eqb_eq in E. destruct E as ((-> & ->) & [-> | ->]); by vm_compute; set_solver.
  - apply copies_line. repeat constructor; [lia| |lia]. destruct (b0 =? 224)%N; lia.
Qed.

(** The first rune of a string: its quoted text [q] and the bytes [r] it is
    read back as. *)
Definition rune (bs q r t : list N) : Prop :=
  quote bs = q ++ quote t /\ fixUTF8 bs = r ++ fixUTF8 t /\ (length t < length bs)%nat /\
  reads_as q r /\ newline ∉ q /\ (utf8_Valid bs = true -> bs = r ++ t /\ utf8_Valid t = true).

Lemma rune_bad b t : utf8_Valid (b :: t) = false -> quote (b :: t) = escapedFFFD ++ quote t ->
  fixUTF8 (b :: t) = replacement ++ fixUTF8 t -> rune (b :: t) escapedFFFD replacement t.
Proof.
  intros Hv Hq Hf. split_and!; [done|done|cbn; lia|intros ?; reflexivity|by vm_compute; set_solver|congruence].
Qed.

Lemma rune_copy p t : Forall (fun b => (128 <= b)%N) p -> p <> [] -> quote (p ++ t) = p ++ quote t ->
  fixUTF8 (p ++ t) = p ++ fixUTF8 t -> (utf8_Valid (p ++ t) = true -> utf8_Valid t = true) -> rune (p ++ t) p p t.
Proof.
  intros Hp Hn Hq Hf Hv. split_and!; [done|done| |by apply reads_copies|by apply copies_line|by eauto].
  rewrite length_app. destruct p; [done|cbn; lia].
Qed.

(** The bytes of a rune above U+007F. *)
Ltac high := repeat (apply Forall_cons_2; [lia|]); apply Forall_nil_2.

(** The cases of [quote], [fixUTF8] and [utf8_Valid]. *)
Ltac rune_cases :=
  cbn [app quote fixUTF8 utf8_Valid];
  match goal with |- context [(?b <? 128)%N] => destruct (N.ltb_spec b 128); [lia|] | _ => idtac end;
  repeat match goal with H : _ = true |- _ => rewrite H | H : _ = false |- _ => rewrite H end.

Lemma utf8_Valid2 b b1 bs : (128 <= b)%N -> in_range 194 223 b = true ->
  utf8_Valid (b :: b1 :: bs) = valid2 b b1 && utf8_Valid bs.
Proof. intros ? H. rune_cases. unfold valid2. by rewrite H. Qed.

Lemma utf8_Valid3 b b1 b2 bs : (128 <= b)%N -> in_range 194 223 b = false -> in_range 224 239 b = true ->
  utf8_Valid (b :: b1 :: b2 :: bs) = valid3 b b1 b2 && utf8_Valid bs.
Proof. intros ? H2 H3. rune_cases. unfold valid3. by rewrite H3. Qed.

Lemma utf8_Valid4 b b1 b2 b3 bs : (128 <= b)%N -> in_range 194 223 b = false -> in_range 224 239 b = false ->
  utf8_Valid (b :: b1 :: b2 :: b3 :: bs) = valid4 b b1 b2 b3 && utf8_Valid bs.
Proof. intros ? H2 H3. by rune_cases. Qed.

Lemma range_3 b : in_range 224 239 b = true -> in_range 194 223 b = false.
Proof. intros H%in_range_ge. apply not_true_iff_false. intros H2%in_range_ge. lia. Qed.

Lemma range_4 b : in_range 240 244 b = true -> in_range 194 223 b = false /\ in_range 224 239 b = false.
Proof.
  intros H%in_range_ge. split; apply not_true_iff_false; intros H2%in_range_ge; lia.
Qed.

(** An invalid start of a string is one byte. *)
Lemma rune_invalid b bs : (128 <= b)%N ->
  (forall b1 t, bs = b1 :: t -> valid2 b b1 = false) ->
  (forall b1 b2 t, bs = b1 :: b2 :: t -> valid3 b b1 b2 = false) ->
  (forall b1 b2 b3 t, bs = b1 :: b2 :: b3 :: t -> valid4 b b1 b2 b3 = false) ->
  rune (b :: bs) escapedFFFD replacement bs.
Proof.
  intros Hb H2 H3 H4. apply rune_bad.
  - destruct bs as [|b1 bs]; [by rune_cases|]. specialize (H2 _ _ eq_refl).
    destruct (in_range 194 223 b) eqn:R2; [by rewrite utf8_Valid2, H2|].
    destruct bs as [|b2 bs]; [by rune_cases|]. specialize (H3 _ _ _ eq_refl).
    destruct (in_range 224 239 b) eqn:R3; [by rewrite utf8_Valid3, H3|].
    destruct bs as [|b3 bs]; [by rune_cases|]. specialize (H4 _ _ _ _ eq_refl). by rewrite utf8_Valid4, H4.
  - destruct bs as [|b1 [|b2 [|b3 bs]]]; rune_cases; by rewrite ?(H2 _ _ eq_refl), ?(H3 _ _ _ eq_refl), ?(H4 _ _ _ _ eq_refl).
  - destruct bs as [|b1 [|b2 [|b3 bs]]]; rune_cases; by rewrite ?(H2 _ _ eq_refl), ?(H3 _ _ _ eq_refl), ?(H4 _ _ _ _ eq_refl).
Qed.

(** The next piece of a string, by its length. *)
Variant piece (b : N) (bs : list N) : Prop :=
  | Ascii1 : (b < 128)%N -> piece b bs
  | Valid2 b1 t : (128 <= b)%N -> bs = b1 :: t -> valid2 b b1 = true -> piece b bs
  | Valid3 b1 b2 t : (128 <= b)%N -> bs = b1 :: b2 :: t -> valid2 b b1 = false -> valid3 b b1 b2 = true -> piece b bs
  | Valid4 b1 b2 b3 t : (128 <= b)%N -> bs = b1 :: b2 :: b3 :: t -> valid2 b b1 = false -> valid3 b b1 b2 = false ->
      valid4 b b1 b2 b3 = true -> piece b bs
  | Invalid : (128 <= b)%N -> rune (b :: bs) escapedFFFD replacement bs -> piece b bs.

Lemma piece_of b bs : piece b bs.
Proof.
  destruct (N.ltb_spec b 128) as [Hb|Hb]; [by apply Ascii1|].
  destruct bs as [|b1 bs]; [apply Invalid, rune_invalid; [done|congruence..]|].
  destruct (valid2 b b1) eqn:E2; [by eapply Valid2|].
  destruct bs as [|b2 bs]; [apply Invalid, rune_invalid; [done|congruence..]|].
  destruct (valid3 b b1 b2) eqn:E3; [by eapply Valid3|].
  destruct bs as [|b3 bs]; [apply Invalid, rune_invalid; [done|congruence..]|].
  destruct (valid4 b b1 b2 b3) eqn:E4; [by eapply Valid4|].
  apply Invalid, rune_invalid; [done|congruence..].
Qed.

Lemma rune_first b bs : exists q r t, rune (b :: bs) q r t.
Proof.
  destruct (piece_of b bs) as [Hb|b1 t Hb -> E2|b1 b2 t Hb -> E2 E3|b1 b2 b3 t Hb -> E2 E3 E4|Hb H]; [| | | |by eauto].
  - exists (escapeByte b), [b], bs. split_and!; [| |cbn; lia|by apply reads_escape|by apply escapeByte_line|].
    all: cbn; destruct (N.ltb_spec b 128); done || lia.
  - exists [b; b1], [b; b1], t. pose proof E2 as H. unfold valid2, cont in H.
    apply andb_true_iff in H as [H0 H1%in_range_ge].
    apply (rune_copy [b; b1]); [high|done|by rune_cases|by rune_cases|]. cbn [app]. by rewrite utf8_Valid2, E2.
  - exists (escape3 b b1 b2), [b; b1; b2], t. pose proof E3 as H. unfold valid3 in H.
    rewrite !andb_true_iff in H. destruct H as ((H0 & _) & _).
    split_and!; [by rune_cases|by rune_cases|cbn; lia|by apply reads_escape3|by apply escape3_line|].
    rewrite utf8_Valid3, E3 by auto using range_3. done.
  - exists [b; b1; b2; b3], [b; b1; b2; b3], t. pose proof E4 as H. unfold valid4, cont in H.
    rewrite !andb_true_iff in H. destruct H as (((H0 & H1%in_range_ge) & H2%in_range_ge) & H3%in_range_ge).
    destruct (range_4 _ H0).
    apply (rune_copy [b; b1; b2; b3]); [|done|by rune_cases|by rune_cases|cbn [app]; by rewrite utf8_Valid4, E4].
    destruct (b =? 240)%N, (b =? 244)%N; high.
Qed.

Lemma rune_ind (P : list N -> Prop) : P [] -> (forall b bs q r t, rune (b :: bs) q r t -> P t -> P (b :: bs)) ->
  forall bs, P bs.
Proof.
  intros H0 HS bs. remember (length bs) as n eqn:En. revert bs En.
  induction (lt_wf n) as [n _ IH]. intros [|b bs] ->; [done|].
  destruct (rune_first b bs) as (q & r & t & H). pose proof H as (_ & _ & Hlt & _). eauto.
Qed.

(** A quoted string is read back with U+FFFD for its invalid bytes. *)
Lemma unquote_quote bs rest : unquote (quote bs ++ 34%N :: rest) = Ok (fixUTF8 bs, rest).
Proof.
  induction bs as [|b bs q r t (-> & -> & _ & Hr & _) IH] using rune_ind; [done|].
  by rewrite <- app_assoc, Hr, IH.
Qed.

Lemma quote_line bs : newline ∉ quote bs.
Proof.
  induction bs as [|b bs q r t (-> & _ & _ & _ & Hq & _) IH] using rune_ind; [by apply not_elem_of_nil|].
  by rewrite not_elem_of_app.
Qed.

Lemma fixUTF8_valid bs : utf8_Valid bs = true -> fixUTF8 bs = bs.
Proof.
  induction bs as [|b bs q r t (_ & -> & _ & _ & _ & Hv) IH] using rune_ind; [done|].
  intros (-> & H)%Hv. by rewrite IH.
Qed.

Lemma fixString_valid s : utf8_ValidString s = true -> fixString s = s.
Proof. intros H. unfold fixString. by rewrite fixUTF8_valid, string_of_bytes. Qed.

(** ** Numbers *)

(** What follows a value, the end, a separator or a space: it ends there whatever it is. *)
Definition after_value (rest : list N) : Prop :=
  match rest with [] => True | b :: _ => b ∈ [44; 93; 125; 32; 9; 10; 13]%N end.

(** A parser that takes no notice of what follows a value, splits its input. *)
Definition splits (f : list N -> result (list N * list N)) : Prop :=
  forall bs n r, f bs = Ok (n, r) -> bs = n ++ r /\ newline ∉ n /\ forall rest, after_value rest -> f (bs ++ rest) = Ok (n, r ++ rest).

Lemma after_value_cons b rest : after_value (b :: rest) -> b ∈ [44; 93; 125; 32; 9; 10; 13]%N.
Proof. done. Qed.

Lemma digits_after rest : after_value rest -> digits rest = ([], rest).
Proof.
  destruct rest as [|b rest]; [done|]. intros Hb%after_value_cons. cbn [digits].
  assert (is_digit b = false) as ->; [|done]. revert b Hb. apply Forall_forall. by repeat constructor.
Qed.

Lemma digits_splits bs ds r : digits bs = (ds, r) ->
  bs = ds ++ r /\ newline ∉ ds /\ forall rest, after_value rest -> digits (bs ++ rest) = (ds, r ++ rest).
Proof.
  revert ds r. induction bs as [|b bs IH]; intros ds r; cbn [digits app].
  - intros [= <- <-]. split; [done|]. split; [apply not_elem_of_nil|apply digits_after].
  - destruct (is_digit b) eqn:Hb.
    + destruct (digits bs) as [ds' r'] eqn:E. intros [= <- <-]. destruct (IH _ _ eq_refl) as (-> & Hl & H).
      split; [done|]. split; [|intros rest Hrest; by rewrite H].
      apply not_elem_of_cons. split; [|done]. apply in_range_ge in Hb. unfold newline. lia.
    + intros [= <- <-]. split; [done|]. by split; [apply not_elem_of_nil|].
Qed.

Lemma digits1_splits : splits digits1.
Proof.
  intros bs n r. unfold digits1. destruct (digits bs) as [[|d ds] r'] eqn:E; [done|]. intros [= <- <-].
  destruct (digits_splits _ _ _ E) as (-> & Hl & H). do 2 (split; [done|]). intros rest Hrest. by rewrite H.
Qed.

Lemma part_after_splits marks f : (forall m, m ∈ marks -> m ∉ [44; 93; 125; 32; 9; 10; 13]%N) -> splits f -> splits (part_after marks f).
Proof.
  intros Hm Hf [|b bs] n r; cbn.
  - intros [= <- <-]. split; [done|]. split; [apply not_elem_of_nil|]. intros [|b rest]; [done|].
    intros Hb%after_value_cons. cbn. destruct (existsb _ _) eqn:E; [|done].
    apply existsb_exists in E as (m & Hin%list_elem_of_In & ->%N.eqb_eq). apply Hm in Hin.
    done.
  - destruct (existsb _ _) eqn:Em.
    + destruct (f bs) as [[ds r']|] eqn:E; cbn; [|done]. intros [= <- <-].
      destruct (Hf _ _ _ E) as (-> & Hl & H). split; [done|]. split; [|intros rest Hrest; by rewrite H].
      apply existsb_exists in Em as (m & Hin%list_elem_of_In & ->%N.eqb_eq). apply Hm in Hin.
      rewrite !not_elem_of_cons in *. naive_solver.
    + intros [= <- <-]. split; [done|]. by split; [apply not_elem_of_nil|].
Qed.

(** One parser after another. *)
Definition after (f g : list N -> result (list N * list N)) (bs : list N) : result (list N * list N) :=
  '(a, bs) ← f bs; '(b, bs) ← g bs; Ok (a ++ b, bs).

Lemma after_splits f g : splits f -> splits g -> splits (after f g).
Proof.
  intros Hf Hg bs n r. unfold after. destruct (f bs) as [[a r1]|] eqn:Ef; [|done]. cbn.
  destruct (g r1) as [[b r2]|] eqn:Eg; [|done]. cbn. intros [= <- <-].
  destruct (Hf _ _ _ Ef) as (-> & La & Ha), (Hg _ _ _ Eg) as (-> & Lb & Hb).
  split; [by rewrite app_assoc|]. split; [by rewrite not_elem_of_app|].
  intros rest Hrest. rewrite Ha by done. cbn. by rewrite Hb.
Qed.

Lemma intPart_splits : splits intPart.
Proof.
  intros [|b bs] n r; [done|]. cbn [intPart app]. destruct (N.eqb_spec b 48) as [->|_]; [|apply digits1_splits].
  intros [= <- <-]. by split; [|split; [vm_compute; set_solver|]].
Qed.

(** The exponent, after its mark. *)
Notation exponent := (fun bs => match bs with
  | b :: t => if (b =? 43)%N || (b =? 45)%N
              then '(ds, rest) ← digits1 t; Ok (b :: ds, rest) else digits1 bs
  | [] => Err syntaxError
  end).

Lemma exponent_splits : splits exponent.
Proof.
  intros [|b bs] n r; [done|]. cbn [app]. destruct (_ || _) eqn:Eb; [|apply digits1_splits].
  destruct (digits1 bs) as [[ds r']|] eqn:E; cbn; [|done]. intros [= <- <-].
  destruct (digits1_splits _ _ _ E) as (-> & Hl & H). split; [done|]. split; [|intros rest Hrest; by rewrite H].
  apply not_elem_of_cons. split; [|done]. intros <-. done.
Qed.

Lemma unsignedNumber_after bs :
  unsignedNumber bs = after intPart (after (part_after [46]%N digits1) (part_after [101; 69]%N exponent)) bs.
Proof.
  unfold unsignedNumber, after. destruct (intPart bs) as [[int r1]|]; [|done]. cbn [mbind result_bind].
  destruct (part_after _ _ r1) as [[frac r2]|]; [|done]. cbn [mbind result_bind].
  by destruct (part_after _ _ r2) as [[exp r3]|].
Qed.

Lemma unsignedNumber_splits : splits unsignedNumber.
Proof.
  intros bs n r. setoid_rewrite unsignedNumber_after. revert bs n r.
  repeat first [apply after_splits | apply part_after_splits]; auto using intPart_splits, digits1_splits, exponent_splits.
  all: intros m; unfold newline; rewrite !elem_of_cons, !elem_of_nil; lia.
Qed.

Lemma parseNumber_splits : splits parseNumber.
Proof.
  intros [|b bs] n r; [done|]. cbn [parseNumber app]. destruct (N.eqb_spec b 45) as [->|_]; [|apply unsignedNumber_splits].
  destruct (unsignedNumber bs) as [[ds r']|] eqn:E; cbn; [|done]. intros [= <- <-].
  destruct (unsignedNumber_splits _ _ _ E) as (-> & Hl & H). split; [done|]. split; [|intros rest Hrest; by rewrite H].
  by apply not_elem_of_cons.
Qed.

Lemma isValidNumber_parse bs rest : isValidNumber bs = true -> after_value rest ->
  newline ∉ bs /\ parseNumber (bs ++ rest) = Ok (bs, rest).
Proof.
  unfold isValidNumber. destruct (parseNumber bs) as [[n [|]]|] eqn:E; try done. intros _ Hrest.
  destruct (parseNumber_splits _ _ _ E) as (-> & Hl & H). rewrite app_nil_r in *.
  split; [done|]. by apply (H rest).
Qed.

Lemma pretty_N_char_digit x : (x < 10)%N -> N_of_ascii (pretty_N_char x) = (48 + x)%N.
Proof. revert x. apply (below 10). repeat constructor. Qed.

Lemma pretty_N_go_digits x s : (0 < x)%N -> exists d ds,
  bytes_of (pretty_N_go x s) = d :: ds ++ bytes_of s /\ is_digit d = true /\ d <> 48%N /\ Forall is_digit ds.
Proof.
  revert s. induction (N.lt_wf_0 x) as [x _ IH]; intros s Hx. rewrite pretty_N_go_step by done.
  assert (Hmod : (x mod 10 < 10)%N) by (by apply N.mod_upper_bound).
  destruct (N.eq_dec (x / 10)%N 0%N) as [E|E].
  - rewrite E, pretty_N_go_0. cbn [bytes_of]. rewrite pretty_N_char_digit by done.
    pose proof (N.div_mod x 10 ltac:(done)). exists (48 + x mod 10)%N, []. split_and!; [done| |lia|done].
    unfold is_digit, in_range. apply andb_true_iff. rewrite !N.leb_le. lia.
  - destruct (IH (x / 10)%N ltac:(by apply N.div_lt) (String (pretty_N_char (x mod 10)) s)) as (d & ds & -> & Hd & Hn & Hds);
      [by apply N.neq_0_lt_0|].
    exists d, (ds ++ [48 + x mod 10]%N). cbn [bytes_of]. rewrite pretty_N_char_digit by done.
    split_and!; [by rewrite <- app_assoc|done|done|]. apply Forall_app. split; [done|].
    apply Forall_cons_2; [|apply Forall_nil_2]. apply Is_true_true. unfold is_digit, in_range.
    apply andb_true_iff. rewrite !N.leb_le. revert Hmod. generalize (x mod 10)%N. clear. lia.
Qed.

Lemma digits_all ds : Forall is_digit ds -> digits ds = (ds, []).
Proof.
  induction 1 as [|d ds Hd _ IH]; [done|]. cbn. apply Is_true_true in Hd. by rewrite Hd, IH.
Qed.

Lemma pretty_N_number (n : N) : unsignedNumber (bytes_of (pretty n)) = Ok (bytes_of (pretty n), []) /\
  exists d ds, bytes_of (pretty n) = d :: ds /\ (48 <= d <= 57)%N.
Proof.
  unfold pretty, pretty_N. case_decide as H; [split; [done|by exists 48%N, []]|].
  destruct (pretty_N_go_digits n "" ltac:(lia)) as (d & ds & -> & Hd & Hn & Hds). cbn [bytes_of]. rewrite app_nil_r.
  split; [|exists d, ds; by split; [|apply in_range_ge]].
  unfold unsignedNumber. cbn [intPart]. destruct (N.eqb_spec d 48); [done|].
  unfold digits1. rewrite digits_all by (constructor; [by apply Is_true_true|done]). cbn. by rewrite app_nil_r.
Qed.

Lemma pretty_Z_number (z : Z) : isValidNumber (bytes_of (pretty z)) = true.
Proof.
  assert (Hpos : forall p, isValidNumber (bytes_of (pretty (N.pos p))) = true).
  { intros p. unfold isValidNumber. destruct (pretty_N_number (N.pos p)) as (H & d & ds & E & Hd).
    rewrite E in *. cbn [parseNumber]. destruct (N.eqb_spec d 45); [lia|]. by rewrite H. }
  destruct z as [|p|p]; [done|exact (Hpos p)|].
  change (bytes_of (pretty (Z.neg p))) with (45%N :: bytes_of (pretty (N.pos p))).
  unfold isValidNumber. cbn [parseNumber N.eqb Pos.eqb]. by destruct (pretty_N_number (N.pos p)) as (-> & _).
Qed.

(** A number starts with a digit or a sign. *)
Lemma number_head bs n r : parseNumber bs = Ok (n, r) ->
  exists b t, bs = b :: t /\ (b = 45 \/ 48 <= b <= 57)%N.
Proof.
  destruct bs as [|b bs]; [done|]. intros H. exists b, bs. split; [done|]. cbn [parseNumber] in H.
  destruct (N.eqb_spec b 45) as [->|_]; [by left|right].
  revert H. unfold unsignedNumber. cbn [intPart]. destruct (N.eqb_spec b 48) as [->|_]; [lia|].
  unfold digits1. cbn [digits]. destruct (is_digit b) eqn:E; [|done]. intros _. by apply in_range_ge.
Qed.

(** ** Values *)

Lemma skipSpace_head b t : is_space b = false -> skipSpace (b :: t) = b :: t.
Proof. cbn. by intros ->. Qed.

(** A byte that starts a scalar other than a string. *)
Definition scalar_head (b : N) : Prop := is_space b = false /\ b <> 34%N /\ b <> 123%N /\ b <> 91%N.

Lemma parseValue_scalar fuel depth b t : scalar_head b ->
  parseValue (S fuel) depth (b :: t) = parseScalar (b :: t).
Proof.
  intros (Hs & H1 & H2 & H3). cbn [parseValue]. unfold expect. rewrite skipSpace_head by done.
  by rewrite (proj2 (N.eqb_neq _ _) H1), (proj2 (N.eqb_neq _ _) H2), (proj2 (N.eqb_neq _ _) H3).
Qed.

Lemma parseScalar_number bs rest : isValidNumber bs = true -> after_value rest ->
  parseScalar (bs ++ rest) = Ok (ANumber (string_of bs), rest).
Proof.
  intros Hv Hrest. destruct (isValidNumber_parse _ _ Hv Hrest) as (_ & Hp).
  destruct (number_head _ _ _ Hp) as (b & t & E & Hb). unfold parseScalar. rewrite Hp, E. cbn [stripPrefix bytes_of].
  assert (forall c, (97 <= N_of_ascii c)%N -> (N_of_ascii c =? b)%N = false) as Hc by (intros; apply N.eqb_neq; lia).
  by rewrite !Hc by (cbn; lia).
Qed.

Lemma parseValue_number fuel depth bs rest : isValidNumber bs = true -> after_value rest ->
  parseValue (S fuel) depth (bs ++ rest) = Ok (ANumber (string_of bs), rest).
Proof.
  intros Hv Hrest. rewrite <- parseScalar_number by done.
  destruct (isValidNumber_parse _ _ Hv Hrest) as (_ & Hp).
  destruct (number_head _ _ _ Hp) as (b & t & -> & Hb). apply parseValue_scalar.
  unfold scalar_head, is_space. rewrite !orb_false_iff, !N.eqb_neq. lia.
Qed.

(** A value does not start with a space or a closing bracket. *)
Definition value_start (bs : list N) : Prop :=
  exists b t, bs = b :: t /\ is_space b = false /\ b <> 93%N /\ b <> 125%N.

(** [parseValue] reads [bs] as the value [v] nested at most [n] deep. *)
Definition decodes (bs : list N) (v : any) (n : N) : Prop :=
  value_start bs /\ forall fuel depth rest, (length bs < fuel)%nat -> (depth + n <= maxNestingDepth)%N -> after_value rest ->
    parseValue fuel depth (bs ++ rest) = Ok (v, rest).

Lemma parseElements_spec n ps vs : Forall2 (fun p v => decodes p v n) ps vs -> ps <> [] ->
  forall fuel depth rest, (S (length (commas ps)) < fuel)%nat -> (depth + n <= maxNestingDepth)%N ->
    parseElements fuel depth (commas ps ++ 93%N :: rest) = Ok (vs, rest).
Proof.
  induction 1 as [|p v ps vs Hp Hps IH]; [done|]. intros _ [|fuel] depth rest Hfuel Hdepth; [lia|].
  cbn [parseElements]. destruct ps as [|p' ps].
  - cbn [commas] in *. apply Forall2_nil_inv_l in Hps as ->.
    rewrite (proj2 Hp); [done|lia|done|]. cbn. set_solver.
  - change (commas (p :: p' :: ps)) with (p ++ [44%N] ++ commas (p' :: ps)) in *.
    rewrite !length_app in Hfuel. cbn [length] in Hfuel.
    rewrite <- !app_assoc, (proj2 Hp); [|lia|done|cbn; set_solver]. cbn [mbind result_bind].
    change (expect 44 ([44%N] ++ commas (p' :: ps) ++ 93%N :: rest)) with (Some (commas (p' :: ps) ++ 93%N :: rest)).
    cbn beta iota. by rewrite IH by (done || lia).
Qed.

Lemma encodeString_read s rest : exists t, encodeString s ++ rest = 34%N :: t /\
  unquote t = Ok (fixUTF8 (bytes_of s), rest).
Proof.
  exists (quote (bytes_of s) ++ 34%N :: rest). split; [|apply unquote_quote].
  unfold encodeString. cbn [app]. by rewrite <- app_assoc.
Qed.

Lemma parseMembers_step fuel depth key p v n rest : decodes p v n -> (length p < fuel)%nat ->
  (depth + n <= maxNestingDepth)%N -> after_value rest ->
  parseMembers (S fuel) depth (member key p ++ rest) =
    match expect 44 rest with
    | Some t => '(m, rest) ← parseMembers fuel depth t; Ok ((fixString key, v) :: m, rest)
    | None =>
        match expect 125 rest with
        | Some rest => Ok ([(fixString key, v)], rest)
        | None => Err syntaxError
        end
    end.
Proof.
  intros Hp Hfuel Hdepth Hrest. unfold member. rewrite <- !app_assoc.
  destruct (encodeString_read key ([58%N] ++ p ++ rest)) as (t & -> & Ht).
  cbn [parseMembers]. change (expect 34 (34%N :: t)) with (Some t). cbn beta iota. rewrite Ht. cbn [mbind result_bind].
  change (expect 58 ([58%N] ++ p ++ rest)) with (Some (p ++ rest)). cbn beta iota. by rewrite (proj2 Hp).
Qed.

(** A member of an object and what it is read as. *)
Definition decodes_member (m : list N) (kv : string * any) (n : N) : Prop :=
  exists key p, m = member key p /\ kv.1 = fixString key /\ decodes p kv.2 n.

Lemma parseMembers_spec n ms kvs : Forall2 (fun m kv => decodes_member m kv n) ms kvs -> ms <> [] ->
  forall fuel depth rest, (S (length (commas ms)) < fuel)%nat -> (depth + n <= maxNestingDepth)%N ->
    parseMembers fuel depth (commas ms ++ 125%N :: rest) = Ok (kvs, rest).
Proof.
  induction 1 as [|m [k v] ms kvs (key & p & -> & Hk & Hp) Hms IH]; [done|]. cbn [fst snd] in *. subst k.
  intros _ [|fuel] depth rest Hfuel Hdepth; [lia|].
  assert (Hlen : (length p <= length (member key p))%nat) by (unfold member; rewrite !length_app; lia).
  destruct ms as [|m' ms].
  - cbn [commas] in *. apply Forall2_nil_inv_l in Hms as ->.
    rewrite (parseMembers_step _ _ _ _ v n); [done|done|lia|done|cbn; set_solver].
  - change (commas (member key p :: m' :: ms)) with (member key p ++ [44%N] ++ commas (m' :: ms)) in *.
    rewrite !length_app in Hfuel. cbn [length] in Hfuel.
    rewrite <- !app_assoc, (parseMembers_step _ _ _ _ v n); [|done|lia|done|cbn; set_solver].
    change (expect 44 ([44%N] ++ commas (m' :: ms) ++ 125%N :: rest)) with (Some (commas (m' :: ms) ++ 125%N :: rest)).
    cbn beta iota. by rewrite IH by (done || lia).
Qed.

Lemma decodes_mono bs v n n' : decodes bs v n -> (n <= n')%N -> decodes bs v n'.
Proof. intros (Hs & H) Hn. split; [done|]. intros fuel depth rest ? ? ?. apply H; [done|lia|done]. Qed.

Lemma expect_other c bs rest : value_start bs -> c = 93%N \/ c = 125%N -> expect c (bs ++ rest) = None.
Proof.
  intros (b & t & -> & Hs & H1 & H2) Hc. unfold expect. cbn [app]. rewrite skipSpace_head by done.
  destruct (N.eqb_spec b c) as [->|]; [tauto|done].
Qed.

Lemma commas_start p ps : value_start p -> value_start (commas (p :: ps)).
Proof.
  intros (b & t & -> & H). destruct ps; [by exists b, t|].
  change (commas ((b :: t) :: l :: ps)) with ((b :: t) ++ [44%N] ++ commas (l :: ps)). by do 2 eexists.
Qed.

Lemma decodes_array ps vs n : Forall2 (fun p v => decodes p v n) ps vs ->
  decodes ([91%N] ++ commas ps ++ [93%N]) (AArray vs) (1 + n).
Proof.
  intros H. split; [by do 2 eexists|]. intros [|fuel] depth rest Hfuel Hdepth Hrest; [lia|].
  rewrite <- !app_assoc. cbn [parseValue].
  change (expect 34 ([91%N] ++ commas ps ++ [93%N] ++ rest)) with (@None (list N)).
  change (expect 123 ([91%N] ++ commas ps ++ [93%N] ++ rest)) with (@None (list N)).
  change (expect 91 ([91%N] ++ commas ps ++ [93%N] ++ rest)) with (Some (commas ps ++ [93%N] ++ rest)). cbn beta iota.
  destruct (N.leb_spec maxNestingDepth depth); [lia|].
  destruct ps as [|p ps]; [by apply Forall2_nil_inv_l in H as ->|].
  rewrite expect_other; [|apply commas_start; by inversion_clear H as [|??? ? (? & _)]|by left].
  rewrite !length_app in Hfuel. cbn [length] in Hfuel.
  change ([93%N] ++ rest) with (93%N :: rest).
  rewrite (parseElements_spec n _ vs); [done|done|done|lia|lia].
Qed.

(** An object ends itself, whatever follows. *)
Lemma parse_object ms kvs n fuel depth rest : Forall2 (fun m kv => decodes_member m kv n) ms kvs ->
  (length (object ms) < fuel)%nat -> (depth + (1 + n) <= maxNestingDepth)%N ->
  parseValue fuel depth (object ms ++ rest) = Ok (AMap (mapOf kvs), rest).
Proof.
  intros H. unfold object. destruct fuel as [|fuel]; intros Hfuel Hdepth; [lia|].
  rewrite <- !app_assoc. cbn [parseValue].
  change (expect 34 ([123%N] ++ commas ms ++ [125%N] ++ rest)) with (@None (list N)).
  change (expect 123 ([123%N] ++ commas ms ++ [125%N] ++ rest)) with (Some (commas ms ++ [125%N] ++ rest)). cbn beta iota.
  destruct (N.leb_spec maxNestingDepth depth); [lia|].
  destruct ms as [|m ms]; [by apply Forall2_nil_inv_l in H as ->|].
  rewrite expect_other; [|apply commas_start; inversion_clear H as [|???? (key & p & -> & _)]; by do 2 eexists|by right].
  rewrite !length_app in Hfuel. cbn [length] in Hfuel.
  change ([125%N] ++ rest) with (125%N :: rest).
  rewrite (parseMembers_spec n _ kvs); [done|done|done|lia|lia].
Qed.

Lemma decodes_object ms kvs n : Forall2 (fun m kv => decodes_member m kv n) ms kvs ->
  decodes (object ms) (AMap (mapOf kvs)) (1 + n).
Proof. intros H. split; [by do 2 eexists|]. intros fuel depth rest Hfuel Hdepth _. by apply (parse_object _ _ n). Qed.

Lemma decodes_string s : decodes (encodeString s) (AString (fixString s)) 0.
Proof.
  split; [by do 2 eexists|]. intros [|fuel] depth rest Hfuel _ _; [lia|].
  destruct (encodeString_read s rest) as (t & -> & Ht). cbn [parseValue].
  change (expect 34 (34%N :: t)) with (Some t). cbn beta iota. by rewrite Ht.
Qed.

Lemma decodes_number s : isValidNumber (bytes_of s) = true -> decodes (bytes_of s) (ANumber s) 0.
Proof.
  intros H. split.
  - destruct (isValidNumber_parse _ [] H I) as (_ & Hp). rewrite app_nil_r in Hp.
    destruct (number_head _ _ _ Hp) as (b & t & -> & Hb). exists b, t. split; [done|].
    unfold is_space. rewrite !orb_false_iff, !N.eqb_neq. lia.
  - intros [|fuel] depth rest Hfuel _ Hrest; [lia|]. by rewrite parseValue_number, string_of_bytes.
Qed.

Lemma decodes_word w v : (w, v) ∈ [("null", ANil); ("true", ABool true); ("false", ABool false)] ->
  decodes (bytes_of w) v 0.
Proof.
  intros H. repeat apply elem_of_cons in H as [[= -> ->]|H]; [..|by apply elem_of_nil in H].
  all: split; [by do 2 eexists|]; intros [|fuel] depth rest Hfuel _ _; [lia|done].
Qed.

(** What [marshal] makes of the values in a container. *)
Lemma marshal_array l bs : marshal (AArray l) = Ok bs -> exists ps,
  Forall2 (fun v p => marshal v = Ok p) l ps /\ bs = [91%N] ++ commas ps ++ [93%N].
Proof.
  cbn [marshal]. destruct (_ l) as [ps|] eqn:E; [|done]. intros [= <-]. exists ps. split; [|done].
  revert ps E. induction l as [|v l IH]; intros ps; [by intros [= <-]|].
  destruct (marshal v) as [p|] eqn:Ev; [|done]. cbn [mbind result_bind]. destruct (_ l) as [ps'|]; [|done].
  intros [= <-]. eauto.
Qed.

Lemma marshal_map l bs : marshal (AMap l) = Ok bs -> exists ps,
  Forall2 (fun kv p => marshal kv.2 = Ok p) l ps /\ bs = object (zip_with (fun kv p => member kv.1 p) l ps).
Proof.
  cbn [marshal]. destruct (_ l) as [ms|] eqn:E; [|done]. intros [= <-].
  cut (exists ps, Forall2 (fun kv p => marshal kv.2 = Ok p) l ps /\ ms = zip_with (fun kv p => member kv.1 p) l ps).
  { intros (ps & H & ->). eauto. }
  revert ms E. induction l as [|[k v] l IH]; intros ms; [intros [= <-]; by exists []|].
  destruct (marshal v) as [p|] eqn:Ev; [|done]. cbn [mbind result_bind]. destruct (_ l) as [ms'|]; [|done].
  intros [= <-]. destruct (IH _ eq_refl) as (ps & Hps & ->). exists (p :: ps). by split; [constructor|].
Qed.

Lemma nesting_max {A} (f : A -> N) x l : x ∈ l -> (f x <= foldr N.max 0 (map f l))%N.
Proof. induction 1; cbn; lia. Qed.

Lemma nested_decodes {A} (f : A -> any) l ps n :
  Forall (fun x => forall bs, marshal (f x) = Ok bs -> decodes bs (jsonWire (f x)) (nesting (f x))) l ->
  Forall2 (fun x p => marshal (f x) = Ok p) l ps -> (foldr N.max 0 (map (fun x => nesting (f x)) l) <= n)%N ->
  Forall2 (fun x p => decodes p (jsonWire (f x)) n) l ps.
Proof.
  intros IH Hps. revert IH. induction Hps as [|x p l ps Hp Hps IHl]; [by constructor|]. intros [Hx IH]%Forall_cons Hn.
  cbn in Hn. constructor; [|apply IHl; [done|lia]]. eapply decodes_mono; [by apply Hx|lia].
Qed.

(** The text of a value decodes to what [jsonWire] names. *)
Lemma marshal_decodes v bs : marshal v = Ok bs -> decodes bs (jsonWire v) (nesting v).
Proof.
  revert bs. induction v as [|b|s|z|z|s|key value IH|s|l IH|l IH|s] using any_nested; intros bs.
  - intros [= <-]. apply (decodes_word "null"). set_solver.
  - destruct b; intros [= <-]; [apply (decodes_word "true")|apply (decodes_word "false")]; set_solver.
  - intros [= <-]. apply decodes_string.
  - intros [= <-]. apply decodes_number, pretty_Z_number.
  - intros [= <-]. apply decodes_number, pretty_Z_number.
  - cbn [marshal]. destruct (isValidNumber _) eqn:E; [|done]. intros [= <-]. by apply decodes_number.
  - cbn [marshal]. destruct (marshal value) as [p|]; [|done]. intros [= <-].
    change (jsonWire (AKeyValue key value)) with
      (AMap (mapOf [("key", AString (fixString key)); ("value", jsonWire value)])).
    apply (decodes_object _ _ (nesting value)). repeat constructor; eexists _, _; (split; [done|]); (split; [done|]).
    + eapply decodes_mono; [apply decodes_string|lia].
    + by apply IH.
  - done.
  - intros (ps & Hps & ->)%marshal_array. apply decodes_array. cbn [jsonWire].
    pose proof (nested_decodes id _ _ _ IH Hps (N.le_refl _)) as H. apply Forall2_fmap_r, Forall2_flip, H.
  - intros (ps & Hps & ->)%marshal_map.
    change (nesting (AMap l)) with (1 + foldr N.max 0 (map (fun kv => nesting kv.2) l))%N.
    change (jsonWire (AMap l)) with (AMap (mapOf (map (fun kv => (fixString kv.1, jsonWire kv.2)) l))).
    apply decodes_object. apply (nested_decodes snd _ _ (foldr N.max 0 (map (fun kv => nesting kv.2) l))%N IH) in Hps; [|done].
    revert Hps. generalize (foldr N.max 0 (map (fun kv : string * any => nesting kv.2) l))%N. intros n H. clear IH.
    induction H as [|[k v] p l ps Hp _ IH]; constructor; [by exists k, p|done].
  - done.
Qed.

(** The text of a value is one line. *)
Lemma encodeString_line s : newline ∉ encodeString s.
Proof.
  unfold encodeString. rewrite not_elem_of_cons, not_elem_of_app, not_elem_of_cons.
  split_and!; [done|apply quote_line|done|apply not_elem_of_nil].
Qed.

Lemma commas_line ps : Forall (fun p => newline ∉ p) ps -> newline ∉ commas ps.
Proof.
  induction 1 as [|p ps Hp Hps IH]; [apply not_elem_of_nil|]. destruct ps as [|p' ps]; [done|].
  change (newline ∉ p ++ [44%N] ++ commas (p' :: ps)). rewrite !not_elem_of_app, not_elem_of_cons.
  split_and!; [done|done|apply not_elem_of_nil|done].
Qed.

Lemma member_line key p : newline ∉ p -> newline ∉ member key p.
Proof.
  intros H. unfold member. rewrite !not_elem_of_app, not_elem_of_cons.
  split_and!; [apply encodeString_line|done|apply not_elem_of_nil|done].
Qed.

Lemma bracketed_line a b bs : a <> newline -> b <> newline -> newline ∉ bs -> newline ∉ [a] ++ bs ++ [b].
Proof. intros. rewrite !not_elem_of_app, !not_elem_of_cons, !elem_of_nil. naive_solver. Qed.

Lemma marshal_line v bs : marshal v = Ok bs -> newline ∉ bs.
Proof.
  assert (Hnum : forall s, isValidNumber (bytes_of s) = true -> newline ∉ bytes_of s)
    by (intros s H; by destruct (isValidNumber_parse _ [] H I)).
  revert bs. induction v as [|b|s|z|z|s|key value IH|s|l IH|l IH|s] using any_nested; intros bs; cbn [marshal]; try done.
  - intros [= <-]. vm_compute. set_solver.
  - intros [= <-]. destruct b; vm_compute; set_solver.
  - intros [= <-]. apply encodeString_line.
  - intros [= <-]. apply Hnum, pretty_Z_number.
  - intros [= <-]. apply Hnum, pretty_Z_number.
  - destruct (isValidNumber _) eqn:E; [|done]. intros [= <-]. by apply Hnum.
  - destruct (marshal value) as [p|]; [|done]. intros [= <-]. apply bracketed_line; [done|done|].
    apply commas_line. repeat constructor; apply member_line; [apply encodeString_line|by apply IH].
  - intros (ps & Hps & ->)%marshal_array. apply bracketed_line; [done|done|]. apply commas_line.
    induction Hps as [|v p l ps Hp Hps IHl]; [constructor|]. apply Forall_cons in IH as [Hv IH]. constructor; auto.
  - intros (ps & Hps & ->)%marshal_map. apply bracketed_line; [done|done|]. apply commas_line.
    induction Hps as [|v p l ps Hp Hps IHl]; [constructor|]. apply Forall_cons in IH as [Hv IH].
    constructor; [apply member_line|]; auto.
Qed.

(** ** The decoder returns *)

(** What a parser of [bs] may return: something shorter, or an error that is not
    the end of its fuel. *)
Definition returns {A} (bs : list N) (r : result (A * list N)) : Prop :=
  match r with Ok (_, rest) => (length rest < length bs)%nat | Err err => errors_Is err "out of fuel" = false end.

Lemma prepend_returns p (t bs : list N) r : returns t r -> (length t <= length bs)%nat -> returns bs (prepend p r).
Proof. destruct r as [[s rest]|err]; cbn; [lia|done]. Qed.

Lemma unquote_returns bs : returns bs (unquote bs).
Proof.
  remember (length bs) as n eqn:En. revert bs En. induction (lt_wf n) as [n _ IH]. intros [|b t] ->; [done|].
  assert (Hrec : forall p t', (length t' < length (b :: t))%nat -> returns (b :: t) (prepend p (unquote t'))).
  { intros p t' Hlt. eapply prepend_returns; [by eapply IH|lia]. }
  clear IH. cbn [unquote].
  destruct (b =? 34)%N; [cbn; lia|]. destruct (b =? 92)%N; [|destruct (b <? 32)%N; [done|apply Hrec; cbn; lia]].
  destruct t as [|e t]; [done|]. destruct (e =? 117)%N.
  - destruct t as [|h1 [|h2 [|h3 [|h4 t]]]]; try done. destruct (hexRune h1 h2 h3 h4); [|done].
    destruct (is_surrogate n); [|apply Hrec; cbn; lia].
    destruct t as [|c1 [|c2 [|g1 [|g2 [|g3 [|g4 t]]]]]]; try (apply Hrec; cbn; lia).
    destruct (if _ && _ then _ else _); apply Hrec; cbn; lia.
  - destruct (simpleEscape e); [apply Hrec; cbn; lia|done].
Qed.

Lemma digits_length bs ds r : digits bs = (ds, r) -> (length ds + length r = length bs)%nat.
Proof. intros H. destruct (digits_splits _ _ _ H) as (-> & _). by rewrite length_app. Qed.

Lemma digits1_returns bs : returns bs (digits1 bs).
Proof. unfold digits1. destruct (digits bs) as [[|d ds] r] eqn:E; [done|]. apply digits_length in E. cbn in *. lia. Qed.

Lemma intPart_returns bs : returns bs (intPart bs).
Proof. destruct bs as [|b bs]; [done|]. cbn [intPart]. destruct (b =? 48)%N; [cbn; lia|apply digits1_returns]. Qed.

Lemma returns_bind {A B} (bs : list N) (r : result (A * list N)) (k : A * list N -> result (B * list N)) :
  returns bs r -> (forall a t, r = Ok (a, t) -> (length t < length bs)%nat -> returns bs (k (a, t))) -> returns bs (mbind k r).
Proof. destruct r as [[a t]|err]; cbn; [|done]. intros Ht H. by apply H. Qed.

Lemma returns_weaken {A} (bs bs' : list N) (r : result (A * list N)) :
  returns bs r -> (length bs <= length bs')%nat -> returns bs' r.
Proof. destruct r as [[a t]|err]; cbn; [lia|done]. Qed.

Lemma part_after_returns marks f bs t : (forall bs, returns bs (f bs)) -> (length t < length bs)%nat ->
  returns bs (part_after marks f t).
Proof.
  intros Hf Ht. destruct t as [|b t]; [done|]. cbn [part_after]. destruct (existsb _ _); [|done].
  apply returns_bind; [eapply returns_weaken; [apply Hf|cbn in *; lia]|]. intros a r _ Hr. done.
Qed.

Lemma exponent_returns bs : returns bs (exponent bs).
Proof.
  destruct bs as [|b bs]; [done|]. destruct (_ || _); [|apply digits1_returns].
  apply returns_bind; [eapply returns_weaken; [apply digits1_returns|cbn; lia]|]. done.
Qed.

Lemma unsignedNumber_returns bs : returns bs (unsignedNumber bs).
Proof.
  unfold unsignedNumber. apply returns_bind; [apply intPart_returns|]. intros int t1 _ H1.
  apply returns_bind; [apply part_after_returns; [apply digits1_returns|done]|]. intros frac t2 _ H2.
  apply returns_bind; [apply part_after_returns; [apply exponent_returns|done]|]. done.
Qed.

Lemma parseNumber_returns bs : returns bs (parseNumber bs).
Proof.
  destruct bs as [|b bs]; [done|]. cbn [parseNumber]. destruct (b =? 45)%N; [|apply unsignedNumber_returns].
  apply returns_bind; [eapply returns_weaken; [apply unsignedNumber_returns|cbn; lia]|]. done.
Qed.

Lemma stripPrefix_length p bs rest : stripPrefix p bs = Some rest -> length bs = (length p + length rest)%nat.
Proof.
  revert bs. induction p as [|x p IH]; intros [|b bs]; cbn; try done; [by intros [= <-]..|].
  destruct (x =? b)%N; [|done]. intros H. by rewrite (IH _ H).
Qed.

Lemma skipSpace_length bs : (length (skipSpace bs) <= length bs)%nat.
Proof. induction bs as [|b bs IH]; cbn; [done|]. destruct (is_space b); cbn; lia. Qed.

Lemma expect_length c bs rest : expect c bs = Some rest -> (length rest < length bs)%nat.
Proof.
  unfold expect. pose proof (skipSpace_length bs) as H. destruct (skipSpace bs) as [|b t]; [done|].
  destruct (b =? c)%N; [|done]. intros [= ->]. cbn in H. lia.
Qed.

Lemma parseScalar_returns bs : returns bs (parseScalar bs).
Proof.
  unfold parseScalar. do 3 (destruct (stripPrefix _ bs) eqn:E; [apply stripPrefix_length in E; cbn in *; lia|clear E]).
  apply returns_bind; [apply parseNumber_returns|done].
Qed.

(** Two steps for each byte are enough for the decoder. *)
Lemma parse_fuel fuel : forall depth bs,
  ((2 * length bs < fuel)%nat -> returns bs (parseValue fuel depth bs)) /\
  ((2 * length bs + 1 < fuel)%nat -> returns bs (parseElements fuel depth bs) /\ returns bs (parseMembers fuel depth bs)).
Proof.
  induction fuel as [|fuel IH]; intros depth bs; [lia|].
  assert (Hval : forall t d, (2 * length t < fuel)%nat -> (length t <= length bs)%nat -> returns bs (parseValue fuel d t)).
  { intros t d Ht Hle. eapply returns_weaken; [apply IH|]; done. }
  split; [|split].
  - cbn [parseValue]. intros Hlen. destruct (expect 34 bs) as [t|] eqn:E1; [apply expect_length in E1|].
    { apply returns_bind; [eapply returns_weaken; [apply unquote_returns|lia]|done]. }
    destruct (expect 123 bs) as [t|] eqn:E2; [apply expect_length in E2|].
    { destruct (_ <=? _)%N; [done|]. destruct (expect 125 t) as [t'|] eqn:E; [apply expect_length in E; cbn; lia|].
      apply returns_bind; [eapply returns_weaken; [apply IH|]; lia|done]. }
    destruct (expect 91 bs) as [t|] eqn:E3; [apply expect_length in E3|].
    { destruct (_ <=? _)%N; [done|]. destruct (expect 93 t) as [t'|] eqn:E; [apply expect_length in E; cbn; lia|].
      apply returns_bind; [eapply returns_weaken; [apply IH|]; lia|done]. }
    eapply returns_weaken; [apply parseScalar_returns|apply skipSpace_length].
  - cbn [parseElements]. apply returns_bind; [apply Hval; lia|]. intros v t _ Ht.
    destruct (expect 44 t) as [t'|] eqn:E1; [apply expect_length in E1|].
    { apply returns_bind; [eapply returns_weaken; [apply IH|]; lia|done]. }
    destruct (expect 93 t) as [t'|] eqn:E2; [apply expect_length in E2; cbn; lia|done].
  - cbn [parseMembers]. destruct (expect 34 bs) as [t|] eqn:E1; [apply expect_length in E1|done].
    apply returns_bind; [eapply returns_weaken; [apply unquote_returns|lia]|]. intros key t1 _ Ht1.
    destruct (expect 58 t1) as [t2|] eqn:E2; [apply expect_length in E2|done].
    apply returns_bind; [apply Hval; lia|]. intros v t3 _ Ht3.
    destruct (expect 44 t3) as [t4|] eqn:E3; [apply expect_length in E3|].
    { apply returns_bind; [eapply returns_weaken; [apply IH|]; lia|done]. }
    destruct (expect 125 t3) as [t4|] eqn:E4; [apply expect_length in E4; cbn; lia|done].
Qed.

(** ** Deep values *)

Fixpoint nested (n : nat) : any :=
  match n with O => ANil | S n => AArray [nested n] end.

Fixpoint nested_text (n : nat) : list N :=
  match n with O => bytes_of "null" | S n => [91%N] ++ nested_text n ++ [93%N] end.

Lemma marshal_nested n : marshal (nested n) = Ok (nested_text n).
Proof. induction n as [|n IH]; [done|]. cbn [nested marshal]. by rewrite IH. Qed.

Lemma nested_text_bytes n b : b ∈ nested_text n -> b ∈ 91%N :: 93%N :: bytes_of "null".
Proof.
  induction n as [|n IH]; cbn [nested_text]; [set_solver|].
  rewrite !elem_of_app. set_solver.
Qed.

Lemma nested_text_length n : length (nested_text n) = (2 * n + 4)%nat.
Proof. induction n as [|n IH]; [done|]. cbn [nested_text]. rewrite !length_app, IH. cbn. lia. Qed.

Lemma parse_nested n depth rest fuel : (depth <= maxNestingDepth < depth + N.of_nat n)%N -> (2 * n < fuel)%nat ->
  parseValue fuel depth (nested_text n ++ rest) = Err depthError.
Proof.
  revert depth rest fuel. induction n as [|n IH]; intros depth rest fuel Hn Hfuel; [lia|].
  destruct fuel as [|[|fuel]]; [lia..|]. cbn [nested_text]. rewrite <- !app_assoc. cbn [parseValue].
  set (t := nested_text n ++ [93%N] ++ rest).
  change (expect 34 ([91%N] ++ t)) with (@None (list N)). change (expect 123 ([91%N] ++ t)) with (@None (list N)).
  change (expect 91 ([91%N] ++ t)) with (Some t). cbn beta iota.
  destruct (N.leb_spec maxNestingDepth depth); [done|].
  assert (expect 93 t = None) as -> by (subst t; by destruct n).
  cbn [parseElements]. subst t. by rewrite IH by lia.
Qed.
