(* ===== verification/Record.v ===== *)
(** * Record: the JSON lines of shuffle/record.go

    [EncodeRecord] and [decodeRecord], the [RecordCodec] of the store.  The
    decoder reads the tokens of one object: [decodeFields] is its loop, and the
    value is decoded on its own, so that its nesting counts from zero. *)

From S2P Require Import Prelude Bytes Plan Stages Shuffle Reports Runtime TextSource Iterator FileStore Json JsonProofs.
#[local] Open Scope Z_scope.

Definition invalidRecord (format : string) (args : list farg) : error :=
  Errorf ("%w: " +:+ format) (FWrap ErrInvalid :: args).

(** ** Encoding *)

(** A record is marshalled as the executor's [KeyValue] is. *)
Definition EncodeRecord (key : string) (value : any) : result (list N) :=
  fail_if (negb (utf8_ValidString key)) (invalidRecord "key must be valid UTF-8" []);;
  data ← map_err (fun err => invalidRecord "%w" [FWrap err]) (marshal (AKeyValue key value));
  fail_if (MaxRecordBytes <? Z.of_nat (length data)) ErrTooLarge;;
  fail_if (negb (utf8_Valid data)) (invalidRecord "encoded data must be valid UTF-8" []);;
  Ok (data ++ [newline]).

(** ** Decoding *)

(** The tokens [:] and the string after a field name. *)
Definition decodeKey (bs : list N) : result (string * list N) :=
  match expect 58 bs ≫= expect 34 with
  | Some t =>
      '(key, t) ← map_err (fun _ => invalidRecord "key must be a string" []) (unquote t);
      Ok (string_of key, t)
  | None => Err (invalidRecord "key must be a string" [])
  end.

Definition decodeValue (bs : list N) : result (any * list N) :=
  match expect 58 bs with
  | Some t => map_err (fun err => invalidRecord "%w" [FWrap err]) (parseValue (S (2 * length t)) 0 t)
  | None => Err (invalidRecord "%w" [FWrap syntaxError])
  end.

(** A field name, after the comma that separates it from the last field. *)
Definition decodeName (start : bool) (bs : list N) : result (string * list N) :=
  match (if start then Some bs else expect 44 bs) ≫= expect 34 with
  | Some t => map_err (fun err => invalidRecord "%w" [FWrap err]) ('(name, t) ← unquote t; Ok (string_of name, t))
  | None => Err (invalidRecord "%w" [FWrap syntaxError])
  end.

(** What has been decoded of a record. *)
Notation fields := (option string * option any)%type.

(** The field [name] of a record. *)
Definition decodeField (seen : fields) (name : string) (bs : list N) : result (fields * list N) :=
  let is_key := String.eqb name "key" in
  let repeated := if is_key then bool_decide (is_Some seen.1) else bool_decide (is_Some seen.2) in
  fail_if (repeated || negb (is_key || String.eqb name "value"))
    (invalidRecord "unknown or duplicate field %q" [FStr name]);;
  if is_key then '(key, t) ← decodeKey bs; Ok ((Some key, seen.2), t)
  else '(value, t) ← decodeValue bs; Ok ((seen.1, Some value), t).

(** The loop over the fields; there are at most two, as a repeated one is an
    error. *)
Fixpoint decodeFields (fuel : nat) (start : bool) (seen : fields) (bs : list N) : result (fields * list N) :=
  match skipSpace bs with
  | [] => Ok (seen, [])
  | b :: t =>
      if (b =? 93)%N || (b =? 125)%N then Ok (seen, b :: t)
      else
        match fuel with
        | O => Err outOfFuel
        | S fuel =>
            '(name, t) ← decodeName start (b :: t);
            '(seen, t) ← decodeField seen name t;
            decodeFields fuel false seen t
        end
  end.

Definition decodeRecord (data : list N) : result (string * any) :=
  fail_if (negb (utf8_Valid data)) (invalidRecord "data must be valid UTF-8" []);;
  match expect 123 data with
  | None => Err (invalidRecord "expected an object" [])
  | Some t =>
      '(seen, t) ← decodeFields 3 true (None, None) t;
      match expect 125 t with
      | None => Err (invalidRecord "%w" [FWrap syntaxError])
      | Some rest =>
          match seen with
          | (Some key, Some value) =>
              match skipSpace rest with
              | [] => Ok (key, value)
              | _ => Err (invalidRecord "trailing data" [])
              end
          | _ => Err (invalidRecord "key and value are required" [])
          end
      end
  end.

#[export] Instance JSONCodec : RecordCodec := {|
  FileStore.EncodeRecord := EncodeRecord;
  FileStore.decodeRecord := decodeRecord |}.

(** ** What is encoded is decoded *)

Lemma skipSpace_start b t : is_space b = false -> skipSpace (b :: t) = b :: t.
Proof. cbn. by intros ->. Qed.

(** The text before a field name. *)
Definition separator (start : bool) : list N := if start then [] else [44%N].

Lemma decodeName_string start name rest :
  decodeName start (separator start ++ encodeString name ++ rest) = Ok (fixString name, rest).
Proof.
  destruct (encodeString_read name rest) as (t & -> & Ht). unfold decodeName.
  assert ((if start then Some (separator start ++ 34%N :: t) else expect 44 (separator start ++ 34%N :: t)) =
          Some (34%N :: t)) as -> by by destruct start.
  cbn [mbind option_bind]. change (expect 34 (34%N :: t)) with (Some t). cbn beta iota. by rewrite Ht.
Qed.

Lemma decodeFields_step fuel start seen name rest :
  decodeFields (S fuel) start seen (separator start ++ encodeString name ++ rest) =
    '(seen, t) ← decodeField seen (fixString name) rest; decodeFields fuel false seen t.
Proof.
  pose proof (decodeName_string start name rest) as H. revert H. unfold encodeString.
  destruct start; cbn [separator app decodeFields skipSpace is_space orb N.eqb Pos.eqb]; by intros ->.
Qed.

Lemma decodeField_key key value rest :
  decodeField (None, value) (fixString "key") ([58%N] ++ encodeString key ++ rest) =
    Ok ((Some (fixString key), value), rest).
Proof.
  destruct (encodeString_read key rest) as (t & -> & Ht).
  change (decodeField (None, value) (fixString "key") ([58%N] ++ 34%N :: t)) with
    ('(key, t) ← '(key, t) ← map_err (fun _ => invalidRecord "key must be a string" []) (unquote t); Ok (string_of key, t);
     Ok ((Some key, value), t)).
  by rewrite Ht.
Qed.

Lemma decodeField_value key p v n rest : decodes p v n -> (n <= maxNestingDepth)%N -> after_value rest ->
  decodeField (key, None) (fixString "value") ([58%N] ++ p ++ rest) = Ok ((key, Some v), rest).
Proof.
  intros (_ & H) Hn Hrest.
  change (decodeField (key, None) (fixString "value") ([58%N] ++ p ++ rest)) with
    ('(value, t) ← map_err (fun err => invalidRecord "%w" [FWrap err]) (parseValue (S (2 * length (p ++ rest))) 0 (p ++ rest));
     Ok ((key, Some value), t)).
  rewrite H; [done|rewrite length_app; lia|done|done].
Qed.

Lemma decodeField_deep key n rest : (maxNestingDepth < N.of_nat n)%N ->
  decodeField (key, None) (fixString "value") ([58%N] ++ nested_text n ++ rest) =
    Err (invalidRecord "%w" [FWrap depthError]).
Proof.
  intros Hn. change (decodeField (key, None) (fixString "value") ([58%N] ++ nested_text n ++ rest)) with
    ('(value, t) ← map_err (fun err => invalidRecord "%w" [FWrap err])
                     (parseValue (S (2 * length (nested_text n ++ rest))) 0 (nested_text n ++ rest));
     Ok ((key, Some value), t)).
  rewrite parse_nested; [done|lia|]. rewrite length_app, nested_text_length. lia.
Qed.

(** The line [EncodeRecord] writes. *)
Lemma decodeRecord_object key p v n : decodes p v n -> (n <= maxNestingDepth)%N ->
  utf8_Valid (object [member "key" (encodeString key); member "value" p]) = true ->
  decodeRecord (object [member "key" (encodeString key); member "value" p]) = Ok (fixString key, v).
Proof.
  intros Hp Hn Hv. unfold decodeRecord. rewrite Hv. cbn [negb]. unfold object, member. cbn [commas].
  rewrite <- !app_assoc.
  match goal with |- context [expect 123 ([123%N] ++ ?t)] => change (expect 123 ([123%N] ++ t)) with (Some t) end.
  cbn beta iota.
  rewrite (decodeFields_step 2 true (None, None) "key" _
           : decodeFields 3 true (None, None) (encodeString "key" ++ _) = _), decodeField_key. cbn [mbind result_bind].
  rewrite (decodeFields_step 1 false (Some (fixString key), None) "value" _
           : decodeFields 2 false (Some (fixString key), None) ([44%N] ++ encodeString "value" ++ _) = _),
    (decodeField_value _ p v n).
  - done.
  - done.
  - done.
  - cbn. set_solver.
Qed.

Lemma EncodeRecord_Ok key value data : EncodeRecord key value = Ok data -> exists p,
  marshal value = Ok p /\ utf8_ValidString key = true /\
  let line := object [member "key" (encodeString key); member "value" p] in
  data = line ++ [newline] /\ utf8_Valid line = true /\ Z.of_nat (length line) <= MaxRecordBytes.
Proof.
  unfold EncodeRecord. cbn [marshal]. destruct (utf8_ValidString key); [|done]. cbn [negb].
  destruct (marshal value) as [p|]; [|done]. cbn [mbind result_bind map_err].
  destruct (Z.ltb_spec MaxRecordBytes (Z.of_nat (length (object [member "key" (encodeString key); member "value" p]))));
    [done|].
  destruct (utf8_Valid _) eqn:Ev; [|done]. cbn [negb]. intros [= <-]. eauto 10.
Qed.

#[export] Instance JSONCodecLaws : RecordCodecLaws JSONCodec.
Proof.
  refine {| read_back := jsonWire; reads_back v := (nesting v <= maxNestingDepth)%N |}.
  intros key value data (p & Hp & Hkey & -> & Hv & Hlen)%EncodeRecord_Ok.
  eexists. split; [done|]. split; [|split; [done|]].
  - apply (marshal_line (AKeyValue key value)). cbn [marshal]. by rewrite Hp.
  - intros Hn. change FileStore.decodeRecord with decodeRecord.
    rewrite (decodeRecord_object _ p (jsonWire value) (nesting value)); [|by apply marshal_decodes|done|done].
    by rewrite fixString_valid.
Defined.

(** ** Errors *)

(** A rejected record: the error is [ErrInvalidRecord], and no fuel ran out. *)
Definition rejected {A} (r : result A) : Prop :=
  match r with
  | Ok _ => True
  | Err err => errors_Is err ErrInvalidRecord = true /\ errors_Is err "out of fuel" = false
  end.

Lemma rejected_bind {A B} (r : result A) (k : A -> result B) :
  rejected r -> (forall a, r = Ok a -> rejected (k a)) -> rejected (mbind k r).
Proof. destruct r as [a|err]; cbn; auto. Qed.

Lemma rejected_wrap {A} (bs : list N) (r : result (A * list N)) :
  returns bs r -> rejected (map_err (fun err => invalidRecord "%w" [FWrap err]) r).
Proof.
  destruct r as [[a t]|err]; [done|]. cbn [returns map_err rejected]. intros H. split; [done|].
  unfold errors_Is in *. cbn. by destruct (errors_find _ err).
Qed.

Lemma decodeName_rejected start bs : rejected (decodeName start bs).
Proof.
  unfold decodeName. destruct (_ ≫= _) as [t|]; [|done]. apply (rejected_wrap t).
  apply returns_bind; [apply unquote_returns|done].
Qed.

Lemma decodeKey_rejected bs : rejected (decodeKey bs).
Proof.
  unfold decodeKey. destruct (_ ≫= _) as [t|]; [|done]. destruct (unquote t) as [[key t']|]; done.
Qed.

Lemma decodeValue_rejected bs : rejected (decodeValue bs).
Proof.
  unfold decodeValue. destruct (expect 58 bs) as [t|]; [|done]. apply (rejected_wrap t).
  apply parse_fuel. lia.
Qed.

Lemma decodeField_rejected seen name bs : rejected (decodeField seen name bs).
Proof.
  unfold decodeField. destruct (_ || _); [done|]. destruct (String.eqb name "key").
  - apply rejected_bind; [apply decodeKey_rejected|by intros []].
  - apply rejected_bind; [apply decodeValue_rejected|by intros []].
Qed.

(** A field that is decoded was not seen before. *)
Definition unseen (seen : fields) : nat :=
  (if seen.1 then 0 else 1) + (if seen.2 then 0 else 1).

Lemma decodeField_unseen seen name bs seen' t : decodeField seen name bs = Ok (seen', t) ->
  (unseen seen' < unseen seen)%nat.
Proof.
  unfold decodeField. destruct (String.eqb name "key").
  - destruct seen as [[key|] value]; [done|]. cbn. destruct (decodeKey bs) as [[]|]; [|done].
    intros [= <- <-]. cbn. lia.
  - destruct seen as [key [value|]]; [done|]. cbn. destruct (negb _); [done|].
    destruct (decodeValue bs) as [[]|]; [|done]. intros [= <- <-]. cbn. lia.
Qed.

Lemma decodeFields_rejected fuel start seen bs : (unseen seen < fuel)%nat -> rejected (decodeFields fuel start seen bs).
Proof.
  revert start seen bs. induction fuel as [|fuel IH]; intros start seen bs Hfuel; [lia|]. cbn [decodeFields].
  destruct (skipSpace bs) as [|b t]; [done|]. destruct (_ || _); [done|].
  apply rejected_bind; [apply decodeName_rejected|]. intros [name t1] _.
  apply rejected_bind; [apply decodeField_rejected|]. intros [seen' t2] H%decodeField_unseen. apply IH. lia.
Qed.

Lemma decodeRecord_rejected data : rejected (decodeRecord data).
Proof.
  unfold decodeRecord. destruct (negb _); [done|]. destruct (expect 123 data) as [t|]; [|done].
  apply rejected_bind; [by apply decodeFields_rejected; cbn; lia|]. intros [[[key|] [value|]] t1] _;
    destruct (expect 125 t1) as [rest|]; try done. by destruct (skipSpace rest).
Qed.
