(* ===== verification/ExampleFuncs.v ===== *)
(** * ExampleFuncs: the functions of the example jobs

    Models [internal/examplefuncs/functions.go].  [sum_int] adds 64-bit integers in any
    form they have before or after a shuffle, and refuses to overflow. *)

From Stdlib Require Import Ascii.
From S2P Require Import Prelude Bytes Plan Reports Runtime Json JsonProofs.
#[local] Open Scope Z_scope.

(** ** Numbers *)

(** The value of a string of digits after the value [n] of those before it. *)
Fixpoint decimal (n : N) (bs : list N) : option N :=
  match bs with
  | [] => Some n
  | b :: bs => if is_digit b then decimal (10 * n + (b - 48))%N bs else None
  end.

Definition parseUint (bs : list N) : option N :=
  match bs with [] => None | _ => decimal 0 bs end.

(** [strconv.ParseInt(s, 10, 64)]; the text of its errors is not modelled. *)
Definition ParseInt (s : string) : result Z :=
  let invalid := Err (Errorf "strconv.ParseInt: parsing %q" [FStr s]) in
  let '(negative, digits) :=
    match bytes_of s with
    | b :: t => if (b =? 45)%N then (true, t) else if (b =? 43)%N then (false, t) else (false, b :: t)
    | [] => (false, [])
    end in
  match parseUint digits with
  | Some n =>
      let z := if negative then - Z.of_N n else Z.of_N n in
      if (- 2 ^ 63 <=? z) && (z <? 2 ^ 63) then Ok z else invalid
  | None => invalid
  end.

(** [json.Valid]. *)
Definition json_Valid (bs : list N) : bool :=
  match parseValue (S (2 * length bs)) 0 bs with
  | Ok (_, rest) => match skipSpace rest with [] => true | _ => false end
  | Err _ => false
  end.

Definition integerValue (value : any) : result Z :=
  match value with
  | AInt n | AInt64 n => Ok n
  | ANumber s =>
      fail_if (negb (json_Valid (bytes_of s))) (permanentErrorf "sum_int invalid JSON number %q" [FStr s]);;
      map_err (fun err => permanentErrorf "sum_int expected signed int64: %w" [FWrap err]) (ParseInt s)
  | v => Err (permanentErrorf "sum_int expected int, int64 or integer json.Number, got %T" [FStr (type_name v)])
  end.

(** ** The functions *)

Definition normalize : MapFunc := fun record =>
  match record with
  | AString value => Ok (AString (TrimSpace value))
  | v => Err (permanentErrorf "normalize expected string, got %T" [FStr (type_name v)])
  end.

Definition non_empty : FilterFunc := fun record =>
  match record with
  | AString value => Ok (negb (bool_decide (value = "")))
  | v => Err (permanentErrorf "non_empty expected string, got %T" [FStr (type_name v)])
  end.

Definition word_pair : PairMapFunc := fun record =>
  match record with
  | AString word => Ok (word, AInt 1)
  | v => Err (permanentErrorf "word_pair expected string, got %T" [FStr (type_name v)])
  end.

Definition MaxInt64 : Z := 2 ^ 63 - 1.
Definition MinInt64 : Z := - 2 ^ 63.

Definition sum_int : ReduceFunc := fun left right =>
  leftValue ← integerValue left;
  rightValue ← integerValue right;
  fail_if ((0 <? rightValue) && (i64 (MaxInt64 - rightValue) <? leftValue) ||
           (rightValue <? 0) && (leftValue <? i64 (MinInt64 - rightValue)))
    (permanentErrorf "sum_int overflow" []);;
  Ok (AInt64 (i64 (leftValue + rightValue))).

(** The error of the first registration that fails. *)
Definition registration (name : string) (r : result FunctionRegistry) : result FunctionRegistry :=
  map_err (fun err => Errorf "register example function %q: %w" [FStr name; FWrap err]) r.

Definition Register (registry : option FunctionRegistry) : result FunctionRegistry :=
  match registry with
  | None => Err (Errorf "register example functions: registry is nil" [])
  | Some registry =>
      registry ← registration "normalize" (RegisterMap registry "normalize" (Some normalize));
      registry ← registration "non_empty" (RegisterFilter registry "non_empty" (Some non_empty));
      registry ← registration "word_pair" (RegisterPairMap registry "word_pair" (Some word_pair));
      registration "sum_int" (RegisterReduce registry "sum_int" (Some sum_int))
  end.

(** ** Integers *)

(** The values Go's [int] and [int64] have. *)
Definition int_ok (value : any) : Prop :=
  match value with AInt n | AInt64 n => MinInt64 <= n <= MaxInt64 | _ => True end.

Lemma integerValue_range value n : int_ok value -> integerValue value = Ok n -> MinInt64 <= n <= MaxInt64.
Proof.
  unfold MinInt64, MaxInt64. destruct value; cbn [int_ok integerValue]; try done; try (by intros ? [= <-]).
  intros _. destruct (json_Valid _); [|done]. cbn [negb]. unfold ParseInt.
  match goal with |- context [let '(_, _) := ?p in _] => destruct p as [negative ds] end.
  destruct (parseUint ds) as [m|]; [|done]. destruct (_ && _) eqn:E; [|done]. intros [= <-].
  apply andb_true_iff in E as [?%Z.leb_le ?%Z.ltb_lt]. lia.
Qed.

(** The check of [sum_int] is the overflow of the sum. *)
Lemma sum_int_check left right a b :
  int_ok left -> int_ok right -> integerValue left = Ok a -> integerValue right = Ok b ->
  sum_int left right =
    if (MinInt64 <=? a + b) && (a + b <=? MaxInt64) then Ok (AInt64 (a + b))
    else Err (permanentErrorf "sum_int overflow" []).
Proof.
  intros Hl Hr Ha Hb. pose proof (integerValue_range _ _ Hl Ha) as Ra. pose proof (integerValue_range _ _ Hr Hb) as Rb.
  unfold sum_int. rewrite Ha, Hb. cbn [mbind result_bind]. unfold MinInt64, MaxInt64 in *.
  destruct (Z.ltb_spec 0 b), (Z.ltb_spec b 0); [lia|..]; cbn [andb orb].
  - rewrite (i64_id (2 ^ 63 - 1 - b)) by (unfold in_i64; lia).
    destruct (Z.ltb_spec (2 ^ 63 - 1 - b) a), (Z.leb_spec (- 2 ^ 63) (a + b)), (Z.leb_spec (a + b) (2 ^ 63 - 1)); cbn;
      try lia; try done. by rewrite i64_id by (unfold in_i64; lia).
  - rewrite (i64_id (- 2 ^ 63 - b)) by (unfold in_i64; lia).
    destruct (Z.ltb_spec a (- 2 ^ 63 - b)), (Z.leb_spec (- 2 ^ 63) (a + b)), (Z.leb_spec (a + b) (2 ^ 63 - 1)); cbn;
      try lia; try done. by rewrite i64_id by (unfold in_i64; lia).
  - destruct (Z.leb_spec (- 2 ^ 63) (a + b)), (Z.leb_spec (a + b) (2 ^ 63 - 1)); cbn; try lia. by rewrite i64_id by (unfold in_i64; lia).
Qed.

Lemma sum_int_nat left right a b :
  int_ok left -> int_ok right -> integerValue left = Ok a -> integerValue right = Ok b ->
  0 <= a -> 0 <= b -> a + b <= MaxInt64 -> sum_int left right = Ok (AInt64 (a + b)).
Proof.
  intros Hl Hr Ha Hb ? ? ?. rewrite (sum_int_check left right a b) by done. unfold MinInt64 in *.
  by destruct (Z.leb_spec (- 2 ^ 63) (a + b)), (Z.leb_spec (a + b) MaxInt64); [|lia..].
Qed.

(** [sum_int] is exact: of two integers in any of their representations it
    returns the sum when it is a 64-bit integer, and a permanent failure, never a
    wrapped value, when it is not. *)
Theorem sum_int_exact left right a b :
  int_ok left -> int_ok right -> integerValue left = Ok a -> integerValue right = Ok b ->
  if (MinInt64 <=? a + b) && (a + b <=? MaxInt64)
  then sum_int left right = Ok (AInt64 (a + b))
  else sum_int left right = Err (permanentErrorf "sum_int overflow" []).
Proof.
  intros Hl Hr Ha Hb. rewrite (sum_int_check left right a b) by done. by destruct (_ && _).
Qed.

Lemma sum_int_exact_witness :
  sum_int (ANumber "9007199254740993") (AInt 2) = Ok (AInt64 9007199254740995).
Proof.
  apply (sum_int_exact (ANumber "9007199254740993") (AInt 2) 9007199254740993 2);
    vm_compute; done || (split; discriminate).
Defined.

(** ** Integers after a shuffle *)

Lemma decimal_digits n d ds : is_digit d = true -> decimal n (d :: ds) = decimal (10 * n + (d - 48)) ds.
Proof. cbn [decimal]. by intros ->. Qed.

Lemma decimal_pretty x s : decimal 0 (bytes_of (pretty_N_go x s)) = decimal x (bytes_of s).
Proof.
  revert s. induction (N.lt_wf_0 x) as [x _ IH]; intros s.
  destruct (decide (0 < x)%N) as [Hx|Hx]; [|assert (x = 0%N) as -> by lia; by rewrite pretty_N_go_0].
  rewrite pretty_N_go_step by done. rewrite IH by (by apply N.div_lt). cbn [bytes_of].
  assert (Hmod : (x mod 10 < 10)%N) by (by apply N.mod_upper_bound).
  rewrite pretty_N_char_digit by done. rewrite decimal_digits.
  - f_equal. pose proof (N.div_mod x 10 ltac:(done)). revert H. generalize (x / 10)%N, (x mod 10)%N. lia.
  - unfold is_digit, in_range. apply andb_true_iff. rewrite !N.leb_le. revert Hmod. generalize (x mod 10)%N. lia.
Qed.

Lemma parseUint_pretty (n : N) : parseUint (bytes_of (pretty n)) = Some n.
Proof.
  assert (H : decimal 0 (bytes_of (pretty n)) = Some n).
  { unfold pretty, pretty_N. case_decide as E; [by subst|]. apply decimal_pretty. }
  destruct (pretty_N_number n) as (_ & d & ds & E & _). unfold parseUint. rewrite E in *. done.
Qed.

Lemma ParseInt_pretty z : MinInt64 <= z <= MaxInt64 -> ParseInt (pretty z) = Ok z.
Proof.
  unfold MinInt64, MaxInt64. intros Hz. unfold ParseInt.
  destruct (decide (0 <= z)) as [Hp|Hp].
  - assert (pretty z = pretty (Z.to_N z)) as -> by (by destruct z as [|p|p]; [| |lia]).
    destruct (pretty_N_number (Z.to_N z)) as (_ & d & ds & E & Hd). rewrite E.
    destruct (N.eqb_spec d 45); [lia|]. destruct (N.eqb_spec d 43); [lia|]. rewrite <- E, parseUint_pretty, Z2N.id by done.
    destruct (Z.leb_spec (- 2 ^ 63) z); [|lia]. by destruct (Z.ltb_spec z (2 ^ 63)); [|lia].
  - destruct z as [|p|p]; [lia..|].
    change (bytes_of (pretty (Z.neg p))) with (45%N :: bytes_of (pretty (N.pos p))). cbn [N.eqb Pos.eqb].
    rewrite parseUint_pretty. change (- Z.of_N (N.pos p)) with (Z.neg p).
    destruct (Z.leb_spec (- 2 ^ 63) (Z.neg p)); [|lia]. by destruct (Z.ltb_spec (Z.neg p) (2 ^ 63)); [|lia].
Qed.

Lemma json_Valid_pretty (z : Z) : json_Valid (bytes_of (pretty z)) = true.
Proof.
  destruct (decodes_number (pretty z) (pretty_Z_number z)) as [_ H]. unfold json_Valid.
  specialize (H (S (2 * length (bytes_of (pretty z)))) 0%N [] ltac:(lia) ltac:(done) I). rewrite app_nil_r in H.
  by rewrite H.
Qed.

(** A shuffle changes the representation of an integer, not its value. *)
Lemma integerValue_wire value n : int_ok value -> integerValue value = Ok n -> integerValue (jsonWire value) = Ok n.
Proof.
  intros Hok H. destruct value as [| | |z|z|s| | | | |]; try done; cbn [int_ok integerValue jsonWire] in *.
  1, 2: injection H as <-; by rewrite json_Valid_pretty, ParseInt_pretty.
  destruct (json_Valid (bytes_of s)) eqn:E; [|done]. unfold number_text.
  case_bool_decide as Es; [subst; done|]. by rewrite E.
Qed.
