(* ===== verification/Exchange.v ===== *)
(** * Exchange: from the records of map tasks to the totals of reduce tasks

    What the buckets of a set of map outputs hold together, and what a reduce
    over them computes, for any store and any reduce function that adds up. *)

From S2P Require Import Prelude Bytes Plan Stages Shuffle Reports Runtime TextSource Iterator IteratorProofs Runner.
From S2P Require Import RunnerProofs MapTasks.
#[local] Open Scope Z_scope.

(** ** Every record has one bucket *)

Lemma bucket_part_app wire n p l l' : bucket_part wire n p (l ++ l') = bucket_part wire n p l ++ bucket_part wire n p l'.
Proof. unfold bucket_part. by rewrite List.filter_app, fmap_app. Qed.

Lemma bucket_part_concat wire n p ls : concat (bucket_part wire n p <$> ls) = bucket_part wire n p (concat ls).
Proof. induction ls as [|l ls IH]; [done|]. by rewrite fmap_cons, !concat_cons, bucket_part_app, <- IH. Qed.

Lemma bucket_part_cons wire n p kv l : bucket_part wire n p (kv :: l) =
  (if in_bucket n p kv then [(kv.1, wire kv.2)] else []) ++ bucket_part wire n p l.
Proof. unfold bucket_part. cbn. by destruct (in_bucket n p kv). Qed.

Lemma concat_insert {A} (f : Z -> list A) (x : A) (q : Z) ps : NoDup ps -> q ∈ ps ->
  concat ((fun p => (if q =? p then [x] else []) ++ f p) <$> ps) ≡ₚ x :: concat (f <$> ps).
Proof.
  induction 1 as [|p ps Hp Hps IH]; intros Hq; [by apply elem_of_nil in Hq|]. cbn.
  destruct (Z.eqb_spec q p) as [->|Hne].
  - cbn. apply Permutation_skip.
    rewrite (list_fmap_ext _ f); [done|]. intros i p' Hi.
    destruct (Z.eqb_spec p p') as [->|]; [|done]. by destruct Hp; eapply list_elem_of_lookup_2.
  - apply elem_of_cons in Hq as [->|Hq]; [done|]. cbn. rewrite (IH Hq). by rewrite Permutation_middle.
Qed.

Definition partitions (n : Z) : list PartitionID := Z.of_nat <$> seq 0 (Z.to_nat n).

Lemma elem_of_partitions n p : p ∈ partitions n <-> 0 <= p < n.
Proof.
  unfold partitions. rewrite list_elem_of_fmap. split.
  - intros (i & -> & Hi%elem_of_seq). lia.
  - intros Hp. exists (Z.to_nat p). rewrite elem_of_seq. lia.
Qed.

Lemma buckets_partition wire n l : n < 2 ^ 63 -> Forall (fun kv => exists q, PartitionFor kv.1 n = Ok q) l ->
  concat ((fun p => bucket_part wire n p l) <$> partitions n) ≡ₚ (fun kv => (kv.1, wire kv.2)) <$> l.
Proof.
  intros Hn H. assert (Hall : forall q, 0 <= q < n -> q ∈ partitions n) by (intros; by apply elem_of_partitions).
  assert (Hnd : NoDup (partitions n)) by (apply (NoDup_fmap_2 _), NoDup_seq).
  revert Hnd Hall. generalize (partitions n). intros ps Hnd Hall.
  induction H as [|kv l (q & Hq) Hl IH].
  - cbn. clear. induction ps as [|p ps IH]; [done|]. by rewrite fmap_cons, concat_cons.
  - rewrite fmap_cons, <- IH, <- (concat_insert _ _ q); [|done|apply Hall; by eapply PartitionFor_range].
    erewrite list_fmap_ext; [done|]. intros i p _. rewrite bucket_part_cons. unfold in_bucket. by rewrite Hq.
Qed.

(** ** Adding up *)

(** A reduce function that adds up: the values it understands stand for elements
    of a semigroup, and it returns the sum of two values as long as the sum is
    [safe], which all parts of a safe sum are.  Storing a value keeps what it
    stands for. *)
Class Reducer (M : Type) (wire : any -> any) (durable : any -> Prop) (fn : ReduceFunc) := {
  plus : M -> M -> M;
  plus_assoc x y z : plus x (plus y z) = plus (plus x y) z;
  value_of : any -> option M;
  safe : M -> Prop;
  safe_l x y : safe (plus x y) -> safe x;
  safe_r x y : safe (plus x y) -> safe y;
  reduce_plus a b x y : value_of a = Some x -> value_of b = Some y -> safe (plus x y) ->
    exists c, fn a b = Ok c /\ value_of c = Some (plus x y);
  value_wire v x : value_of v = Some x -> value_of (wire v) = Some x;
  value_durable v x : value_of v = Some x -> durable v }.

Section totals.
Context {M : Type} {wire : any -> any} {durable : any -> Prop} {fn : ReduceFunc} {R : Reducer M wire durable fn}.

(** Sums of what may be absent. *)
Definition oplus (a b : option M) : option M :=
  match a, b with
  | Some x, Some y => Some (plus x y)
  | Some x, None => Some x
  | None, b => b
  end.

Definition osafe (a : option M) : Prop := match a with Some x => safe x | None => True end.

Lemma oplus_None a : oplus a None = a.
Proof. by destruct a. Qed.

Lemma oplus_assoc a b c : oplus a (oplus b c) = oplus (oplus a b) c.
Proof. destruct a, b, c; cbn; try done. by rewrite plus_assoc. Qed.

Lemma osafe_l a b : osafe (oplus a b) -> osafe a.
Proof. destruct a, b; cbn; try done. apply safe_l. Qed.

Lemma osafe_r a b : osafe (oplus a b) -> osafe b.
Proof. destruct a, b; cbn; try done. apply safe_r. Qed.

(** The sum of the values of a key, in the order of the records: what a reduce
    by key means. *)
Fixpoint total (k : string) (l : list (string * any)) : option M :=
  match l with
  | [] => None
  | (key, value) :: l => oplus (if decide (key = k) then value_of value else None) (total k l)
  end.

Definition valued (l : list (string * any)) : Prop := Forall (fun kv => is_Some (value_of kv.2)) l.

Lemma total_app k l l' : total k (l ++ l') = oplus (total k l) (total k l').
Proof. induction l as [|[key value] l IH]; [done|]. cbn. by rewrite IH, oplus_assoc. Qed.

Lemma total_concat k ls : total k (concat ls) = foldr oplus None (total k <$> ls).
Proof. induction ls as [|l ls IH]; [done|]. cbn. by rewrite total_app, IH. Qed.

Lemma total_In k l : is_Some (total k l) -> exists v, (k, v) ∈ l.
Proof.
  induction l as [|[key value] l IH]; [by intros []|]. cbn. case_decide as Hk; [subst; intros _; eexists; by left|].
  intros [v Hv]%IH. exists v. by right.
Qed.

Lemma total_None k l : valued l -> total k l = None -> forall v, (k, v) ∉ l.
Proof.
  induction 1 as [|[key value] l [x Hx] Hl IH]; [by intros _ v ?%elem_of_nil|]. cbn in *. rewrite Hx.
  intros Ht v [[= <- <-]|Hin]%elem_of_cons.
  - rewrite decide_True in Ht by done. by destruct (total k l).
  - eapply IH; [|done]. destruct (decide (key = k)); [|done]. by destruct (total k l).
Qed.

(** Buckets keep the totals of their keys. *)
Lemma total_bucket k n p l : valued l ->
  total k (bucket_part wire n p l) = if in_bucket n p (k, ANil) then total k l else None.
Proof.
  induction 1 as [|[key value] l [x Hx] Hl IH]; [by destruct (in_bucket _ _ _)|]. rewrite bucket_part_cons, total_app, IH.
  cbn in *. unfold in_bucket in *. cbn. destruct (PartitionFor key n) as [q|] eqn:Eq.
  - destruct (Z.eqb_spec q p) as [->|Hne]; cbn.
    + destruct (decide (key = k)) as [->|Hk]; cbn; [|done]. rewrite Eq, Z.eqb_refl, Hx, oplus_None. by rewrite (value_wire value x).
    + destruct (decide (key = k)) as [->|Hk]; cbn; [|done]. rewrite Eq. by destruct (Z.eqb_spec q p).
  - cbn. destruct (decide (key = k)) as [->|]; [|done]. by rewrite Eq.
Qed.

Lemma valued_bucket n p l : valued l -> valued (bucket_part wire n p l).
Proof.
  induction 1 as [|kv l [x Hx] Hl IH]; [constructor|]. rewrite bucket_part_cons.
  destruct (in_bucket n p kv); [|done]. constructor; [|done]. exists x. cbn. by apply value_wire.
Qed.

(** ** What the loops compute *)

(** The map holds values for exactly the given totals. *)
Definition holds (values : gmap string any) (T : string -> option M) : Prop :=
  forall k, match values !! k with
            | Some v => is_Some (T k) /\ value_of v = T k
            | None => T k = None
            end.

Lemma holds_ext values T T' : (forall k, T k = T' k) -> holds values T -> holds values T'.
Proof. intros E H k. rewrite <- E. apply H. Qed.

(** The loop of the map-side combine and of the reduce. *)
Fixpoint combined (label : string) (values : gmap string any) (l : list (string * any)) : result (gmap string any) :=
  match l with
  | [] => Ok values
  | kv :: l => values ← combine label fn values kv.1 kv.2; combined label values l
  end.

Lemma combine_pairs_combined values l : combine_pairs fn values l = combined "combine key %q: %w" values l.
Proof.
  revert values. induction l as [|kv l IH]; intros values; [done|]. cbn.
  destruct (combine _ fn values kv.1 kv.2); [apply IH|done].
Qed.

Lemma fold_records_combined values l : fold_records fn values (record_of <$> l) = combined "reduce key %q: %w" values l.
Proof.
  revert values. induction l as [|kv l IH]; intros values; [done|]. cbn.
  destruct (combine _ fn values kv.1 kv.2); [apply IH|done].
Qed.

Lemma combine_holds label values key value T x :
  holds values T -> value_of value = Some x -> osafe (oplus (T key) (Some x)) ->
  exists values', combine label fn values key value = Ok values' /\
    holds values' (fun k => oplus (T k) (if decide (key = k) then Some x else None)).
Proof.
  intros HT Hx Hs. unfold combine. pose proof (HT key) as Hkey. destruct (values !! key) as [previous|] eqn:E.
  - destruct Hkey as [[y Hy] Hv]. rewrite Hy in *. cbn in Hs.
    destruct (reduce_plus previous value y x Hv Hx Hs) as (c & -> & Hc). eexists. split; [done|]. intros k.
    destruct (decide (key = k)) as [<-|Hne].
    + rewrite lookup_insert_eq, Hy. cbn. eauto.
    + rewrite lookup_insert_ne, oplus_None by done. apply HT.
  - eexists. split; [done|]. intros k. destruct (decide (key = k)) as [<-|Hne].
    + rewrite lookup_insert_eq, Hkey. cbn. eauto.
    + rewrite lookup_insert_ne, oplus_None by done. apply HT.
Qed.

Lemma combined_holds label l values T :
  holds values T -> valued l -> (forall k, osafe (oplus (T k) (total k l))) ->
  exists values', combined label values l = Ok values' /\ holds values' (fun k => oplus (T k) (total k l)).
Proof.
  intros HT Hl. revert values T HT. induction Hl as [|[key value] l [x Hx] Hl IH]; intros values T HT Hs.
  - exists values. split; [done|]. eapply holds_ext; [|exact HT]. intros k. by rewrite oplus_None.
  - cbn in Hx. destruct (combine_holds label values key value T x HT Hx) as (values1 & E1 & H1).
    { pose proof (Hs key) as Hk. cbn in Hk. rewrite decide_True, Hx, oplus_assoc in Hk by done. by eapply osafe_l. }
    destruct (IH values1 _ H1) as (values2 & E2 & H2).
    { intros k. specialize (Hs k). cbn in Hs. rewrite <- oplus_assoc. by rewrite Hx in Hs. }
    exists values2. split; [cbn; by rewrite E1|]. eapply holds_ext; [|exact H2].
    intros k. cbn. by rewrite Hx, oplus_assoc.
Qed.

Lemma holds_empty : holds ∅ (fun _ => None).
Proof. intros k. by rewrite lookup_empty. Qed.

Lemma sortedKeys_perm (values : gmap string any) : sortedKeys values ≡ₚ (map_to_list values).*1.
Proof. apply merge_sort_Permutation. Qed.

Lemma elem_of_sortedKeys (values : gmap string any) k : k ∈ sortedKeys values <-> is_Some (values !! k).
Proof.
  rewrite sortedKeys_perm, list_elem_of_fmap. split.
  - intros ([k' v] & -> & H%elem_of_map_to_list). eauto.
  - intros [v Hv]. exists (k, v). by rewrite elem_of_map_to_list.
Qed.

Lemma NoDup_sortedKeys (values : gmap string any) : NoDup (sortedKeys values).
Proof. rewrite sortedKeys_perm. apply NoDup_fst_map_to_list. Qed.

Lemma total_keys (values : gmap string any) T keys k : holds values T -> NoDup keys -> (forall key, key ∈ keys -> is_Some (values !! key)) ->
  let l := (fun key => (key, default ANil (values !! key))) <$> keys in
  valued l /\ total k l = if decide (k ∈ keys) then T k else None.
Proof.
  intros HT Hnd Hin. induction Hnd as [|key keys Hkey Hnd IH]; cbn; [by split; [constructor|]|].
  destruct IH as [Hv Ht]; [intros; apply Hin; by right|]. cbn in Hv, Ht. rewrite Ht.
  destruct (Hin key (list_elem_of_here _ _)) as [v Ev]. specialize (HT key). rewrite Ev in *. destruct HT as [HT HvT].
  split; [constructor; [cbn; by rewrite HvT|done]|]. cbn. destruct (decide (key = k)) as [->|Hne].
  - rewrite decide_False, oplus_None by done. by rewrite decide_True by left.
  - cbn. destruct (decide (k ∈ keys)) as [Hk|Hk]; [by rewrite decide_True by by right|].
    rewrite decide_False; [done|]. by intros [?|?]%elem_of_cons.
Qed.

Lemma sorted_pairs_holds values T k : holds values T ->
  valued (sorted_pairs values) /\ total k (sorted_pairs values) = T k.
Proof.
  intros HT. destruct (total_keys values T (sortedKeys values) k HT (NoDup_sortedKeys values)) as [Hv Ht];
    [by intros; apply elem_of_sortedKeys|]. split; [exact Hv|]. unfold sorted_pairs. rewrite Ht.
  case_decide as Hk; [done|]. specialize (HT k). rewrite elem_of_sortedKeys in Hk. destruct (values !! k); [|done].
  by destruct Hk.
Qed.

(** With or without the map-side combine, what is written has the totals of the
    pairs. *)
Lemma map_side_total (combine : bool) kvs : valued kvs -> (forall k, osafe (total k kvs)) ->
  exists out, map_side (if combine then Some fn else None) kvs = Ok out /\ valued out /\
              forall k, total k out = total k kvs.
Proof.
  intros Hv Hs. destruct combine; [|by exists kvs]. unfold map_side. rewrite combine_pairs_combined.
  destruct (combined_holds "combine key %q: %w" kvs ∅ _ holds_empty Hv) as (values & -> & H); [exact Hs|].
  cbn. exists (sorted_pairs values). split; [done|].
  split; [by apply (sorted_pairs_holds values _ "" H)|]. intros k. by destruct (sorted_pairs_holds values _ k H) as [_ ->].
Qed.

(** A reduce has the totals of its pairs, in the order of the keys. *)
Lemma reduce_total kvs : valued kvs -> (forall k, osafe (total k kvs)) ->
  exists values, reduce_records fn (record_of <$> kvs, None) = (sorted_records values, None) /\
                 holds values (fun k => total k kvs).
Proof.
  intros Hv Hs. destruct (combined_holds "reduce key %q: %w" kvs ∅ _ holds_empty Hv) as (values & E & H); [exact Hs|].
  exists values. split; [|done]. unfold reduce_records. cbn [fst snd]. by rewrite fold_records_combined, E.
Qed.

(** The records a map task writes for its pairs. *)
Definition writes (combine : bool) (kvs out : list (string * any)) : Prop :=
  map_side (if combine then Some fn else None) kvs = Ok out.

Lemma writes_total combine kvss outs : Forall2 (writes combine) kvss outs ->
  valued (concat kvss) -> (forall k, osafe (total k (concat kvss))) ->
  valued (concat outs) /\ forall k, total k (concat outs) = total k (concat kvss).
Proof.
  induction 1 as [|kvs out kvss outs Hw Hws IH]; intros Hv Hs; [done|]. rewrite !concat_cons in *.
  apply Forall_app in Hv as [Hv1 Hv2].
  assert (Hs' : forall k, osafe (total k kvs) /\ osafe (total k (concat kvss))).
  { intros k. specialize (Hs k). rewrite total_app in Hs. split; [by eapply osafe_l|by eapply osafe_r]. }
  destruct (map_side_total combine kvs Hv1 (fun k => proj1 (Hs' k))) as (out' & E & Hvo & Ho).
  unfold writes in Hw. rewrite Hw in E. injection E as <-.
  destruct IH as [Hvs Hos]; [done|apply Hs'|]. split; [by apply Forall_app|]. intros k. by rewrite !total_app, Ho, Hos.
Qed.

(** The reduce of bucket [p] of the outputs of all map tasks: for each of its keys
    the total of all pairs. *)
Lemma exchange_total combine n p kvss outs : Forall2 (writes combine) kvss outs ->
  valued (concat kvss) -> (forall k, osafe (total k (concat kvss))) ->
  exists values,
    reduce_records fn (record_of <$> concat (bucket_part wire n p <$> outs), None) = (sorted_records values, None) /\
    holds values (fun k => if in_bucket n p (k, ANil) then total k (concat kvss) else None).
Proof.
  intros Hw Hv Hs. destruct (writes_total _ _ _ Hw Hv Hs) as [Hvo Ho]. rewrite bucket_part_concat.
  assert (Ht : forall k, total k (bucket_part wire n p (concat outs)) =
                 if in_bucket n p (k, ANil) then total k (concat kvss) else None)
    by (intros k; by rewrite total_bucket, Ho).
  destruct (reduce_total (bucket_part wire n p (concat outs))) as (values & -> & H).
  - by apply valued_bucket.
  - intros k. rewrite Ht. destruct (in_bucket _ _ _); [apply Hs|done].
  - exists values. split; [done|]. exact (holds_ext _ _ _ Ht H).
Qed.

Lemma valued_durable l : valued l -> Forall (fun kv => durable kv.2) l.
Proof. intros H. eapply Forall_impl; [exact H|]. intros kv [x Hx]. by eapply value_durable. Qed.

(** There are no more keys than pairs. *)
Lemma holds_length values n p kvs :
  holds values (fun k => if in_bucket n p (k, ANil) then total k kvs else None) ->
  (length (sorted_records values) <= length kvs)%nat.
Proof.
  intros H. unfold sorted_records. rewrite length_fmap, <- (length_fmap fst kvs).
  apply NoDup_incl_length; [apply NoDup_ListNoDup, NoDup_sortedKeys|]. intros k Hk%list_elem_of_In%elem_of_sortedKeys.
  specialize (H k). destruct Hk as [v Hv]. rewrite Hv in H. destruct H as [Ht _]. apply list_elem_of_In, list_elem_of_fmap.
  destruct (in_bucket n p (k, ANil)); [|by destruct Ht]. destruct (total_In k kvs Ht) as [x Hx]. by exists (k, x).
Qed.

End totals.

Arguments holds {M wire durable fn R} values T.
Arguments total {M wire durable fn R} k l.
Arguments valued {M wire durable fn R} l.
Arguments writes : clear implicits.

(** ** The buckets of published outputs *)

Section outputs.
Context {SS : ShuffleStore} {SR : StoreReads SS} {SW : StoreWrites SS SR}.

Lemma published_stream s n p os ls : 0 <= p < n ->
  Forall2 (fun o l => published_as s o n l) os ls -> Forall (Forall (fun kv => durable kv.2)) ls ->
  buckets_stream s p os = (record_of <$> concat (bucket_part wire n p <$> ls), None).
Proof.
  intros Hp. induction 1 as [|o l os ls Ho Hos IH]; intros Hd; [done|]. apply Forall_cons in Hd as [Hd1 Hd2]. cbn.
  rewrite IH by done. unfold bucket_stream. rewrite (Ho Hd1 p Hp). cbn. by rewrite fmap_app.
Qed.

Lemma published_kept s s' o n l : kept s s' -> Forall (fun kv => durable kv.2) l ->
  published_as s o n l -> published_as s' o n l.
Proof. intros Hk Hd H _ p Hp. apply Hk, H; done. Qed.

End outputs.
