(* ===== verification/WordCount.v ===== *)
(** * WordCount: a small job, run on the file store

    The example job: count the words of a file of two partitions, one word a
    line, through a shuffle with two reduce partitions.  Its map and reduce tasks
    are run by the model from end to end; the states they leave are the concrete
    inputs of the theorems about tasks. *)

From S2P Require Import Prelude Bytes Plan Stages Shuffle Reports Runtime TextSource Iterator IteratorProofs Runner.
From S2P Require Import RunnerProofs MapTasks FileStore FileReads FileWrites Json JsonProofs Record ExampleFuncs Exchange.
#[local] Open Scope Z_scope.

(** A disk on which nothing fails. *)
Definition no_faults : nat -> option fault := fun _ => None.
Definition draws : nat -> list N := fun n => [N.of_nat n].

#[export] Instance DiskStore : ShuffleStore := FileShuffleStore no_faults draws.
#[export] Instance DiskReads : StoreReads DiskStore := FileStoreReads no_faults draws.
#[export] Instance DiskWrites : StoreWrites DiskStore DiskReads := FileStoreWrites no_faults draws.

Definition new_disk : filesystem := mkFilesystem ∅ ∅ false 0 0.

(** ** The job *)

Definition words_text : string :=
  string_of ((bytes_of "cat") ++ [10] ++ bytes_of "  dog " ++ [10; 10] ++ bytes_of "cat" ++ [13; 10] ++ bytes_of "ant" ++ [10])%N.
Definition words_files : string -> result (list N) := fun _ => Ok (bytes_of words_text).
Definition words_registry : FunctionRegistry :=
  match Register (Some NewFunctionRegistry) with Ok r => r | Err _ => NewFunctionRegistry end.
Definition words_runner : LocalRunner := NewLocalRunner words_files (Some words_registry) None 1 true.

Lemma words_fit : forall path data, words_files path = Ok data -> Z.of_nat (length data) < 2 ^ 63.
Proof. by intros path data [= <-]. Qed.

Definition words_op (kind : OperatorKind) (fn path : string) : StageOperation :=
  mkStageOperation StageOperationRDD (Some (mkRDDOperation 0%N (mkOperatorSpec kind fn path))) None.
Definition words_write : ShuffleWriteSpec := mkShuffleWrite 0%N (HashPartitioner 2) "sum_int" true.
Definition words_read : StageOperation :=
  mkStageOperation StageOperationShuffleRead None (Some (mkShuffleRead 0%N (HashPartitioner 2))).

Definition words_map (i : nat) : TaskExecution :=
  mkExecution example_run 0%N
    (mkTask (N.of_nat i) 0%N StageShuffleMap (Z.of_nat i) 2
       [words_op OpSource "" "words.txt"; words_op OpMap "normalize" ""; words_op OpFilter "non_empty" "";
        words_op OpMapToPair "word_pair" ""] (Some words_write) None)
    (mkAttempt (N.of_nat i) (N.of_nat i) 0%N) "w1" None.

Definition words_inputs (outputs : list MapOutput) : InputSnapshot :=
  mkSnapshot example_run 0%N 0%N 0%N 0%N 2 2 outputs.

Definition words_reduce (outputs : list MapOutput) (p : nat) : TaskExecution :=
  mkExecution example_run 0%N
    (mkTask (N.of_nat (2 + p)) 1%N StageResult (Z.of_nat p) 2 [words_read; words_op OpReduceByKey "sum_int" ""] None
       (Some (mkAction ActionCollect 5%N)))
    (mkAttempt (N.of_nat (2 + p)) (N.of_nat (2 + p)) 1%N) "w1" (Some (words_inputs outputs)).

(** ** Running it *)

Definition run_map (i : nat) (s : filesystem) : option (MapOutput * filesystem) :=
  match RunTask 100 words_runner Background true (words_map i) (mkRuntime 0 0 s) with
  | Some (Ok (mkOutput None 0 (Some o)), w) => Some (o, rt_store w)
  | _ => None
  end.

Definition run_reduce (s : filesystem) (outputs : list MapOutput) (p : nat) : option (list any) :=
  match RunTask 100 words_runner Background true (words_reduce outputs p) (mkRuntime 0 0 s) with
  | Some (Ok (mkOutput (Some records) 0 None), _) => Some records
  | _ => None
  end.

(** Both map tasks, one after the other. *)
Definition mapped : option (list MapOutput * filesystem) :=
  '(o1, s) ← run_map 0 new_disk; '(o2, s) ← run_map 1 s; Some ([o1; o2], s).

Definition words_counted : option (list any) :=
  '(outputs, s) ← mapped;
  r0 ← run_reduce s outputs 0; r1 ← run_reduce s outputs 1; Some (r0 ++ r1).

(** The counts that were added up are [int64]s, the others numbers as they were
    read. *)
Example words_are_counted :
  words_counted = Some [AKeyValue "ant" (ANumber "1"); AKeyValue "cat" (AInt64 2); AKeyValue "dog" (ANumber "1")].
Proof. vm_compute. reflexivity. Qed.

(** What each map task writes, and the disk after both. *)
Definition words_pairs : list (list (string * any)) :=
  [[("cat", AInt 1); ("dog", AInt 1)]; [("cat", AInt 1); ("ant", AInt 1)]].
Definition words_written : list (list (string * any)) :=
  [[("cat", AInt 1); ("dog", AInt 1)]; [("ant", AInt 1); ("cat", AInt 1)]].
Definition words_outputs : list MapOutput := Eval vm_compute in match mapped with Some (os, _) => os | None => [] end.
Definition words_disk : filesystem := Eval vm_compute in match mapped with Some (_, s) => s | None => new_disk end.

Lemma words_published :
  Forall2 (fun o l => published_as (reads words_disk) o 2 l) words_outputs words_written.
Proof.
  assert (H : Forall2 (fun o l => forall p, In p [0; 1] -> fileBucket (fileView words_disk) o p = (bucket_part jsonWire 2 p l, None))
            words_outputs words_written).
  { unfold words_outputs. apply Forall2_cons_2; [|apply Forall2_cons_2; [|apply Forall2_nil_2]];
      intros p [<-|[<-|[]]]; vm_compute; reflexivity. }
  eapply Forall2_impl; [exact H|]. intros o l Hp _ p Hr. apply Hp. cbn. lia.
Qed.

(** ** [sum_int] adds up *)

Definition count_of (v : any) : option N :=
  match integerValue v with
  | Ok z => if (0 <=? z) && (z <=? MaxInt64) then Some (Z.to_N z) else None
  | Err _ => None
  end.

Lemma count_of_Some v n : count_of v = Some n -> integerValue v = Ok (Z.of_N n) /\ Z.of_N n <= MaxInt64 /\ int_ok v.
Proof.
  unfold count_of. destruct (integerValue v) as [z|] eqn:E; [|done]. destruct (_ && _) eqn:Ez; [|done].
  intros [= <-]. apply andb_true_iff in Ez as [?%Z.leb_le ?%Z.leb_le]. rewrite Z2N.id by done. split; [done|]. split; [done|].
  unfold MaxInt64, MinInt64 in *. destruct v; try done; cbn in E; injection E as ->; cbn; unfold MinInt64, MaxInt64; lia.
Qed.

Lemma count_of_value v n : integerValue v = Ok (Z.of_N n) -> Z.of_N n <= MaxInt64 -> count_of v = Some n.
Proof.
  intros H Hn. unfold count_of. rewrite H. destruct (Z.leb_spec 0 (Z.of_N n)), (Z.leb_spec (Z.of_N n) MaxInt64); try lia.
  cbn. by rewrite N2Z.id.
Qed.

#[export] Instance SumInt : Reducer N jsonWire (fun v => (nesting v <= maxNestingDepth)%N) sum_int.
Proof.
  refine {| plus := N.add; value_of := count_of; safe n := Z.of_N n <= MaxInt64 |}.
  - apply N.add_assoc.
  - intros x y. lia.
  - intros x y. lia.
  - intros a b x y (Ha & _ & Hoa)%count_of_Some (Hb & _ & Hob)%count_of_Some Hs. rewrite N2Z.inj_add in Hs.
    eexists. split; [apply (sum_int_nat a b _ _ Hoa Hob Ha Hb); lia|]. apply count_of_value; [|by rewrite N2Z.inj_add].
    cbn. by rewrite N2Z.inj_add.
  - intros v x (Hv & Hx & Hok)%count_of_Some. apply count_of_value; [by apply integerValue_wire|done].
  - intros v x (Hv & _ & _)%count_of_Some. by destruct v.
Defined.

Lemma words_written_writes : Forall2 (writes sum_int true) words_pairs words_written.
Proof. by apply Forall2_cons_2; [|apply Forall2_cons_2; [|apply Forall2_nil_2]]. Qed.
