(* ===== verification/ShuffleTheorems.v ===== *)
(** * ShuffleTheorems: records through a shuffle

    Properties of the record codec, of map tasks and of the exchange between the
    map tasks and the reduce tasks of a stage, up to [ReduceByKey] as a whole. *)

From S2P Require Import Prelude Bytes Plan Stages Shuffle Reports Runtime TextSource Iterator IteratorProofs Runner.
From S2P Require Import RunnerProofs MapTasks RunnerTheorems FileStore FileReads FileWrites Json JsonProofs Record.
From S2P Require Import ExampleFuncs Exchange WordCount.
#[local] Open Scope Z_scope.

(** ** Records *)

(** C37. A record survives the shuffle.  If [EncodeRecord] accepts a record, it
    writes one line of at most [MaxRecordBytes] bytes and a newline; and unless
    its value is nested deeper than the JSON decoder allows, the decoder reads
    back its key, its value as JSON represents it, and nothing of what follows. *)
Theorem record_roundtrip key value data rest :
  EncodeRecord key value = Ok data -> (nesting value <= maxNestingDepth)%N ->
  (exists line, data = line ++ [newline] /\ newline ∉ line /\ Z.of_nat (length line) <= MaxRecordBytes) /\
  decoderNext (NewRecordDecoder (data ++ rest)) = (Ok (Some (key, jsonWire value)), NewRecordDecoder rest).
Proof.
  intros H Hn. destruct (@encode_line JSONCodec JSONCodecLaws key value data H) as (line & -> & Hl & Hlen & Hread).
  split; [by exists line|]. unfold decoderNext, NewRecordDecoder. cbn [rd_err rd_rest].
  unfold readLine. rewrite <- app_assoc. cbn [app]. rewrite readString_encoded by done.
  rewrite length_app. cbn [length].
  destruct (Z.ltb_spec MaxRecordBytes (Z.of_nat (length line + 1) - 1)); [lia|].
  rewrite removelast_last.
  by rewrite (Hread Hn).
Qed.

Definition example_value : any :=
  AMap [("a", AArray [AInt 10; ANil; AString (string_of [34; 10; 255; 226; 128; 168]%N)]); ("b", ABool true)].

Lemma record_roundtrip_witness :
  (nesting example_value <= maxNestingDepth)%N /\
  decoderNext (NewRecordDecoder
    (match EncodeRecord "k" example_value with Ok data => data | Err _ => [] end ++ [123%N])) =
    (Ok (Some ("k", jsonWire example_value)), NewRecordDecoder [123%N]).
Proof.
  split; [by vm_compute|].
  destruct (EncodeRecord "k" example_value) as [data|] eqn:E; [|exfalso; revert E; vm_compute; discriminate].
  apply (record_roundtrip "k" example_value data [123%N] E). by vm_compute.
Defined.

(** Every line that is not a record is rejected with [ErrInvalidRecord]; the
    decoder's fuel never runs out, whatever the input. *)
Theorem decodeRecord_total data :
  (exists key value, decodeRecord data = Ok (key, value) /\ utf8_Valid data = true) \/
  (exists err, decodeRecord data = Err err /\ errors_Is err ErrInvalidRecord = true /\
               errors_Is err "out of fuel" = false).
Proof.
  pose proof (decodeRecord_rejected data) as H. destruct (decodeRecord data) as [[key value]|err] eqn:E.
  - left. exists key, value. split; [done|]. revert E. unfold decodeRecord. by destruct (utf8_Valid data).
  - right. by exists err.
Qed.

(** The line of a deeply nested value. *)
Definition deep_line (n : nat) : list N := object [member "key" (encodeString "k"); member "value" (nested_text n)].

Lemma deep_line_eq n : deep_line n = [123%N] ++ encodeString "key" ++ [58%N] ++ encodeString "k" ++ [44%N] ++
  encodeString "value" ++ [58%N] ++ nested_text n ++ [125%N].
Proof. unfold deep_line, object, member. cbn [commas]. by rewrite <- !app_assoc. Qed.

Lemma deep_line_ascii n : utf8_Valid (deep_line n) = true.
Proof.
  assert (H : Forall (fun b => b < 128)%N (deep_line n)).
  { rewrite deep_line_eq, !Forall_app. repeat split; try (repeat constructor; fail).
    apply Forall_forall. intros b Hb%nested_text_bytes. vm_compute in Hb.
    repeat apply elem_of_cons in Hb as [->|Hb]; try done. by apply elem_of_nil in Hb. }
  apply utf8_Valid_ascii. by apply Forall_forall.
Qed.

Lemma deep_line_length n : length (deep_line n) = (2 * n + 24)%nat.
Proof.
  rewrite deep_line_eq, !length_app, nested_text_length.
  change (length (encodeString "key")) with 5%nat. change (length (encodeString "k")) with 3%nat.
  change (length (encodeString "value")) with 7%nat. cbn [length]. lia.
Qed.

(** C38. A value nested deeper than the decoder's limit is written but cannot be
    read: [EncodeRecord] accepts the record, and [decodeRecord] rejects its line. *)
Theorem deep_record (n : nat) :
  (maxNestingDepth < N.of_nat n)%N -> 2 * Z.of_nat n + 24 <= MaxRecordBytes ->
  exists line, EncodeRecord "k" (nested n) = Ok (line ++ [newline]) /\
               exists err, decodeRecord line = Err err /\ errors_Is err ErrInvalidRecord = true.
Proof.
  intros Hn Hlen. exists (deep_line n). split.
  - unfold EncodeRecord. cbn [marshal]. rewrite marshal_nested. cbn [mbind result_bind map_err].
    change (utf8_ValidString "k") with true. cbn [negb]. fold (deep_line n). rewrite deep_line_ascii. cbn [negb].
    destruct (Z.ltb_spec MaxRecordBytes (Z.of_nat (length (deep_line n)))) as [H|]; [|done].
    rewrite deep_line_length in H. lia.
  - unfold decodeRecord. rewrite deep_line_ascii, deep_line_eq. cbn [negb].
    match goal with |- context [expect 123 ([123%N] ++ ?t)] => change (expect 123 ([123%N] ++ t)) with (Some t) end.
    cbn beta iota. rewrite (decodeFields_step 2 true (None, None) "key" _
             : decodeFields 3 true (None, None) (encodeString "key" ++ _) = _), decodeField_key. cbn [mbind result_bind].
    rewrite (decodeFields_step 1 false (Some (fixString "k"), None) "value" _
             : decodeFields 2 false (Some (fixString "k"), None) ([44%N] ++ encodeString "value" ++ _) = _).
    rewrite decodeField_deep by lia. eexists. split; [done|]. reflexivity.
Qed.

Lemma deep_record_witness :
  exists line, EncodeRecord "k" (nested (Z.to_nat 10001)) = Ok (line ++ [newline]) /\
               exists err, decodeRecord line = Err err /\ errors_Is err ErrInvalidRecord = true.
Proof. apply (deep_record (Z.to_nat 10001)); rewrite ?Z2Nat.id, ?Z_nat_N; vm_compute; done. Defined.

(** ** Map tasks *)

Section tasks.
Context {SS : ShuffleStore} {SR : StoreReads SS} {SW : StoreWrites SS SR}.

Notation world := (runtime store).
Notation rt_reads w := (reads (rt_store w)).

Lemma checkMapTask_fields r registry e write reduce : checkMapTask r registry e = Ok (write, reduce) ->
  t_ShuffleWrite (te_Task e) = Some write /\ t_FinalAction (te_Task e) = None.
Proof.
  intros H. split; [by eapply checkMapTask_write|]. unfold checkMapTask in H.
  by destruct (t_ShuffleWrite (te_Task e)), (t_FinalAction (te_Task e)).
Qed.

(** What the scheduler checks of a map task's output. *)
Lemma map_output_ok e write o :
  t_StageKind (te_Task e) = StageShuffleMap -> t_ShuffleWrite (te_Task e) = Some write ->
  t_FinalAction (te_Task e) = None -> validateMapOutput o = Ok tt -> mo_Attempt o = mapIdentity e write ->
  mo_NumMapPartitions o = t_NumPartitions (te_Task e) ->
  mo_NumReducePartitions o = pt_NumPartitions (sw_Partitioner write) ->
  ValidateFor (mkOutput None 0 (Some o)) e = Ok tt.
Proof.
  intros Hk Hw Ha Hv Hid Hm Hn. unfold ValidateFor. rewrite Hk, Hw, Ha. cbn. rewrite Hv. cbn.
  unfold matchesAssignment. rewrite Hid, Hm, Hn. cbn. by rewrite !bool_decide_eq_true_2 by done.
Qed.

(** C5. The result of a map task.  Whatever its fuel, beyond a bound, its context
    and the storage do, an attempt of an admitted map task returns, closes its
    writer and every input, and keeps all data that was published before.  It
    succeeds only when it has published exactly the records that its operations
    and the map-side combine define: every bucket reads back as its share of
    them, and the output passes the scheduler's check.  It fails only when the
    context ends or the storage fails, when the attempt cannot be begun, or when
    the records are not defined or cannot be stored. *)
Theorem map_task (r : LocalRunner) e registry write reduce str (s0 : store) :
  (forall path data, sources r path = Ok data -> Z.of_nat (length data) < 2 ^ 63) ->
  admitted r e registry -> t_StageKind (te_Task e) = StageShuffleMap ->
  checkMapTask r registry e = Ok (write, reduce) ->
  ops_stream (sources r) (reads s0) e registry None (t_Operations (te_Task e)) = Some str ->
  exists fuel0, forall fuel c permit (w : world), (fuel0 <= fuel)%nat -> rt_store w = s0 ->
    exists res w', RunTask fuel r c permit e w = Some (res, w') /\
      rt_open w' = rt_open w /\ kept (reads s0) (rt_reads w') /\
      match res with
      | Ok output => exists o l, output = mkOutput None 0 (Some o) /\ ValidateFor output e = Ok tt /\
          stream_records reduce str = Some l /\ published_as (rt_reads w') o (map_target e write).2 l
      | Err x => disturbed c \/
          ~ begins (reads s0) (mapIdentity e write) (t_NumPartitions (te_Task e)) (pt_NumPartitions (sw_Partitioner write)) \/
          forall l, stream_records reduce str = Some l -> ~ (accepts (map_target e write) l /\ fits (map_target e write) l)
      end.
Proof.
  intros Hfit Hadm Hk Hcheck Hops.
  destruct (runShuffleMap_spec _ Hfit s0 r registry e (reads s0) write reduce eq_refl) as [fuel0 Hfuel];
    [by eapply admitted_reads|done|].
  exists fuel0. intros fuel c permit w Hle Hs.
  destruct (RunTask_cases fuel r c permit e w) as [(registry' & w1 & Hadm' & Hs1 & Ho1 & ->)|(x & w1 & -> & Hs1 & Ho1 & Hx)].
  - unfold admitted in *. rewrite Hadm in Hadm'. injection Hadm' as <-. rewrite Hk, bool_decide_eq_true_2 by done.
    destruct (Hfuel fuel c w1 Hle) as (res & w' & -> & Ho & Hkept & Hr); [by rewrite Hs1, Hs|].
    do 2 eexists. split; [done|]. split; [congruence|]. split; [done|].
    assert (Hrecs : map_records (sources r) (reads s0) e registry reduce = stream_records reduce str)
      by (unfold map_records; by rewrite Hops).
    rewrite Hrecs in Hr. destruct (checkMapTask_fields _ _ _ _ _ Hcheck) as [Hw Ha].
    specialize (Hr (ex_intro _ _ Hops)). destruct res as [output|x].
    + destruct Hr as [(o & l & -> & Hl & Hv & Hid & Hm & Hn & Hp)|[[x ?] _]]; [|done].
      exists o, l. split; [done|]. split; [by eapply map_output_ok|]. by split.
    + destruct Hr as [Hr|[_ Hr]]; [|by right; left]. destruct Hr as [?|Hr]; [by left|by right; right].
  - do 2 eexists. split; [done|]. split; [done|]. split; [by rewrite Hs1, Hs|]. left. left.
    destruct Hx as [Hx|Hx]; [done|]. by unfold admitted in Hadm; rewrite Hadm in Hx.
Qed.

(** ** The exchange *)

(** The iterator of a shuffle read, drained by the loop of a result task and closed. *)
Lemma shuffle_drained files (s0 : store) e registry inputs read str :
  te_ShuffleInputs e = Some inputs -> t_Operations (te_Task e) = [read] -> so_Kind read = StageOperationShuffleRead ->
  buckets_stream (reads s0) (t_PartitionID (te_Task e)) (is_Outputs inputs) = (str, None) ->
  exists fuel0, forall fuel c permits (w : world), (fuel0 <= fuel)%nat -> rt_store w = s0 ->
    exists i w1 r i' w2 r' w3, buildTaskIterator files c e registry w = (Ok i, w1) /\
      collectLoop fuel c ActionCollect i ([], permits) w1 = Some (r, i', w2) /\ closeAfter r i' w2 = (r', w3) /\
      rt_open w3 = rt_open w /\ rt_reads w3 = rt_reads w /\
      match r' with Ok acc => acc = (str, permits) | Err _ => disturbed c end.
Proof.
  intros Hin Hops Hk Hstr. exists (S (S (length str))). intros fuel c permits w Hle Hs.
  unfold buildTaskIterator. rewrite Hops. cbn [buildOperations]. unfold buildStep. rewrite Hk, bool_decide_eq_true_2, Hin by done.
  set (i := shuffleInput (mkShuffleIterator inputs (t_PartitionID (te_Task e)) 0 None false None)).
  assert (Hi : stream_of (rt_reads w) i = (str, None)).
  { cbn. unfold shuffle_stream. cbn. rewrite drop_0, Hs. by destruct (is_Outputs inputs). }
  destruct (collectLoop_spec fuel c ActionCollect i ([], permits) w I) as (r & i' & w2 & Hloop & (Ho & Hr & Hok) & Hres).
  { rewrite Hi. cbn. lia. }
  destruct (closeAfter r i' w2) as [r' w3] eqn:Ec. pose proof (closeAfter_balance _ _ _ _ _ Ec) as (Hr' & Hr3 & Ho3).
  exists i, w, r, i', w2, r', w3. split; [done|]. split; [exact Hloop|]. split; [exact Ec|].
  cbn in Ho. split; [lia|]. split; [congruence|]. rewrite Hi in Hres. cbn [fst snd] in Hres.
  rewrite add_results_collect in Hres. destruct Hr' as [->|[Hf [x ->]]]; [|by right]. destruct r as [acc|x]; cbn.
  - destruct Hres as [_ [= <-]]. done.
  - by destruct Hres as [?|[?|?]].
Qed.

(** C36. A shuffle delivers every record once.  Let the outputs of the map tasks be
    published.  The iterator that a reduce task builds for its shuffle read, drained
    on enough fuel whatever its context and the storage do, delivers exactly the
    records of the task's partition, bucket after bucket in the order of the map
    tasks, or fails because of its context or the storage; either way its handles
    are released and the data is as before.  Over all reduce partitions the records
    are every record that was written, once, and all records of a key go to the
    same partition. *)
Theorem shuffle_exchange files (s0 : store) registry inputs read n ls :
  n < 2 ^ 63 -> so_Kind read = StageOperationShuffleRead ->
  Forall2 (fun o l => published_as (reads s0) o n l) (is_Outputs inputs) ls ->
  Forall (Forall (fun kv => durable kv.2 /\ exists q, PartitionFor kv.1 n = Ok q)) ls ->
  let delivered p := record_of <$> concat (bucket_part wire n p <$> ls) in
  (forall e, te_ShuffleInputs e = Some inputs -> t_Operations (te_Task e) = [read] ->
     0 <= t_PartitionID (te_Task e) < n ->
     exists fuel0, forall fuel c count (w : world), (fuel0 <= fuel)%nat -> rt_store w = s0 ->
       exists i w1 r i' w2 r' w3, buildTaskIterator files c e registry w = (Ok i, w1) /\
         collectLoop fuel c ActionCollect i ([], count) w1 = Some (r, i', w2) /\ closeAfter r i' w2 = (r', w3) /\
         rt_open w3 = rt_open w /\ rt_reads w3 = rt_reads w /\
         match r' with Ok acc => acc = (delivered (t_PartitionID (te_Task e)), count) | Err _ => disturbed c end) /\
  concat (delivered <$> partitions n) ≡ₚ (fun kv => record_of (kv.1, wire kv.2)) <$> concat ls /\
  (forall p q kv kv', record_of kv ∈ delivered p -> record_of kv' ∈ delivered q -> kv.1 = kv'.1 -> p = q).
Proof.
  intros Hn Hk Hpub Hl delivered.
  assert (Hd : Forall (Forall (fun kv => durable kv.2)) ls)
    by (eapply Forall_impl; [exact Hl|]; intros l H; eapply Forall_impl; [exact H|]; by intros kv []).
  assert (Hq : Forall (fun kv => exists q, PartitionFor kv.1 n = Ok q) (concat ls)).
  { apply Forall_concat. eapply Forall_impl; [exact Hl|]; intros l H; eapply Forall_impl; [exact H|]. by intros kv []. }
  split_and!.
  - intros e Hin Hops Hp. eapply shuffle_drained; [done|done|done|]. by apply published_stream.
  - rewrite (list_fmap_ext _ (fun p => record_of <$> bucket_part wire n p (concat ls)));
      [|intros i p Hp; unfold delivered; by rewrite bucket_part_concat].
    rewrite (list_fmap_compose (fun p => bucket_part wire n p (concat ls)) (fmap record_of) (partitions n)
      : (fun p => record_of <$> bucket_part wire n p (concat ls)) <$> partitions n = _).
    rewrite <- fmap_concat, (buckets_partition wire n _ Hn Hq), <- list_fmap_compose. done.
  - assert (Hb : forall p kv, record_of kv ∈ delivered p -> PartitionFor kv.1 n = Ok p).
    { intros p kv. unfold delivered. rewrite bucket_part_concat.
      intros (kv' & E & (x & -> & Hx%list_elem_of_In%filter_In)%list_elem_of_fmap)%list_elem_of_fmap.
      destruct Hx as [_ Hx]. injection E as Ek _. rewrite Ek. unfold in_bucket in Hx. cbn.
      destruct (PartitionFor x.1 n) as [r|]; [|done]. by apply Z.eqb_eq in Hx as ->. }
    intros p q kv kv' Hp%Hb Hq'%Hb E. rewrite E in Hp. congruence.
Qed.

(** ** ReduceByKey *)

(** A task that reads a shuffle and reduces it with [fn]. *)
Definition reduces (registry : FunctionRegistry) (fn : ReduceFunc) (ops : list StageOperation) : Prop :=
  exists rd op ro, ops = [rd; op] /\ so_Kind rd = StageOperationShuffleRead /\
    so_Kind op = StageOperationRDD /\ so_RDD op = Some ro /\ op_Kind (ro_Operator ro) = OpReduceByKey /\
    fr_reducers registry !! op_FunctionID (ro_Operator ro) = Some fn.

Lemma reduces_stream files s e registry fn inputs : reduces registry fn (t_Operations (te_Task e)) ->
  te_ShuffleInputs e = Some inputs ->
  ops_stream files s e registry None (t_Operations (te_Task e)) =
    Some (reduce_records fn (buckets_stream s (t_PartitionID (te_Task e)) (is_Outputs inputs))).
Proof.
  intros (rd & op & ro & -> & Hrd & Hop & Hro & Hk & Hf) Hin. cbn. unfold op_stream.
  by rewrite Hrd, Hin, Hop, Hro, Hk, Hf.
Qed.

(** C4. [ReduceByKey] refines the sum by key.  [kvss] are the pairs of the map
    tasks; each has published what it writes for them, with or without the
    map-side combine.  For a reduce function that adds up, a reduce task then
    succeeds only with one record for each key of its partition, in key order,
    whose value is the sum of all values of the key in [kvss]; and it fails only
    when its context ends or the storage fails. *)
Theorem reduce_by_key {M fn} {R : Reducer M wire durable fn} (r : LocalRunner) e registry inputs rdd combine kvss outs
    (s0 : store) :
  (forall path data, sources r path = Ok data -> Z.of_nat (length data) < 2 ^ 63) ->
  admitted r e registry -> t_StageKind (te_Task e) = StageResult -> t_ShuffleWrite (te_Task e) = None ->
  t_FinalAction (te_Task e) = Some (mkAction ActionCollect rdd) -> te_ShuffleInputs e = Some inputs ->
  reduces registry fn (t_Operations (te_Task e)) ->
  let n := is_NumReducePartitions inputs in
  let p := t_PartitionID (te_Task e) in
  0 <= p < n -> Forall2 (fun o out => published_as (reads s0) o n out) (is_Outputs inputs) outs ->
  Forall2 (writes fn combine) kvss outs -> valued (concat kvss) -> (forall k, osafe (total k (concat kvss))) ->
  Z.of_nat (length (concat kvss)) < 2 ^ 63 ->
  exists values, holds values (fun k => if in_bucket n p (k, ANil) then total k (concat kvss) else None) /\
  exists fuel0, forall fuel c permit (w : world), (fuel0 <= fuel)%nat -> rt_store w = s0 ->
    exists res w', RunTask fuel r c permit e w = Some (res, w') /\ rt_open w' = rt_open w /\
      match res with
      | Ok output => output = mkOutput (Some (sorted_records values)) 0 None
      | Err x => disturbed c
      end.
Proof.
  intros Hfit Hadm Hk Hw Ha Hin Hops n p Hp Hpub Hwr Hv Hs Hlen.
  destruct (exchange_total combine n p kvss outs Hwr Hv Hs) as (values & Hred & Hval). exists values. split; [done|].
  destruct (writes_total _ _ _ Hwr Hv Hs) as [Hvo _].
  assert (Hstr : ops_stream (sources r) (reads s0) e registry None (t_Operations (te_Task e)) = Some (sorted_records values, None)).
  { rewrite (reduces_stream _ _ _ _ fn inputs Hops Hin). f_equal. rewrite <- Hred. f_equal.
    apply published_stream; [done|done|]. apply Forall_concat, valued_durable, Hvo. }
  destruct (runResult_spec s0 r registry e Hfit) as [fuel0 Hfuel]; [by eapply admitted_reads|].
  exists fuel0. intros fuel c permit w Hle Hw0.
  destruct (RunTask_cases fuel r c permit e w) as [(registry' & w1 & Hadm' & Hs1 & Ho1 & ->)|(x & w1 & -> & Hs1 & Ho1 & Hx)].
  - unfold admitted in *. rewrite Hadm in Hadm'. injection Hadm' as <-. rewrite Hk, bool_decide_eq_false_2 by done.
    destruct (Hfuel fuel c w1 Hle) as (res & w' & -> & Ho & _ & Hr); [congruence|].
    do 2 eexists. split; [done|]. split; [congruence|].
    specialize (Hr (mkAction ActionCollect rdd) _ Hk Hw Ha ltac:(done) Hstr). cbn in Hr.
    pose proof (holds_length values n p _ Hval). specialize (Hr ltac:(lia)).
    destruct res as [output|x]; [by destruct Hr as [_ ->]|]. by destruct Hr as [?|(y & ? & _)].
  - do 2 eexists. split; [done|]. split; [done|]. left.
    destruct Hx as [Hx|Hx]; [done|]. by unfold admitted in Hadm; rewrite Hadm in Hx.
Qed.

End tasks.

(** ** The word count of the example *)

Definition words_stream : stream := ([AKeyValue "cat" (AInt 1); AKeyValue "dog" (AInt 1)], None).

Lemma words_map_stream :
  ops_stream (sources words_runner) (reads new_disk) (words_map 0) words_registry None (t_Operations (te_Task (words_map 0))) =
    Some words_stream.
Proof. vm_compute. reflexivity. Qed.

Lemma words_map_admitted : admitted words_runner (words_map 0) words_registry.
Proof. reflexivity. Qed.

Lemma words_map_check : checkMapTask words_runner words_registry (words_map 0) = Ok (words_write, Some sum_int).
Proof. reflexivity. Qed.

Lemma map_task_witness :
  exists fuel0, forall fuel c permit (w : runtime (@store DiskStore)), (fuel0 <= fuel)%nat -> rt_store w = new_disk ->
    exists res w', RunTask fuel words_runner c permit (words_map 0) w = Some (res, w') /\
      rt_open w' = rt_open w /\ kept (reads new_disk) (reads (rt_store w')) /\
      match res with
      | Ok output => exists o l, output = mkOutput None 0 (Some o) /\ ValidateFor output (words_map 0) = Ok tt /\
          stream_records (Some sum_int) words_stream = Some l /\
          published_as (reads (rt_store w')) o (map_target (words_map 0) words_write).2 l
      | Err x => disturbed c \/
          ~ begins (reads new_disk) (mapIdentity (words_map 0) words_write) (t_NumPartitions (te_Task (words_map 0)))
              (pt_NumPartitions (sw_Partitioner words_write)) \/
          forall l, stream_records (Some sum_int) words_stream = Some l ->
            ~ (accepts (map_target (words_map 0) words_write) l /\ fits (map_target (words_map 0) words_write) l)
      end.
Proof.
  exact (@map_task DiskStore DiskReads DiskWrites words_runner (words_map 0) words_registry words_write (Some sum_int)
           words_stream new_disk words_fit words_map_admitted eq_refl words_map_check words_map_stream).
Defined.

(** The iterator of reduce partition 0 of the word count. *)
Definition words_drain : TaskExecution :=
  let e := words_reduce words_outputs 0 in
  mkExecution (te_RunID e) (te_JobID e)
    (mkTask 2%N 1%N StageResult 0 2 [words_read] None (t_FinalAction (te_Task e)))
    (te_Attempt e) (te_WorkerID e) (te_ShuffleInputs e).

Lemma shuffle_exchange_witness :
  exists fuel0, forall fuel c (w : runtime (@store DiskStore)), (fuel0 <= fuel)%nat -> rt_store w = words_disk ->
    exists i w1 r i' w2 r' w3,
      buildTaskIterator (sources words_runner) c words_drain words_registry w = (Ok i, w1) /\
      collectLoop fuel c ActionCollect i ([], 0) w1 = Some (r, i', w2) /\ closeAfter r i' w2 = (r', w3) /\
      match r' with
      | Ok acc => acc.1 = record_of <$> concat (bucket_part jsonWire 2 0 <$> words_written)
      | Err _ => disturbed (SR := DiskReads) c
      end.
Proof.
  destruct (proj1 (@shuffle_exchange DiskStore DiskReads DiskWrites (sources words_runner) words_disk words_registry
    (words_inputs words_outputs) words_read 2 words_written ltac:(done) eq_refl words_published
    ltac:(repeat (apply Forall_cons_2; [repeat (apply Forall_cons_2; [split; [by vm_compute|eexists; vm_compute; reflexivity]|]);
    apply Forall_nil_2|]); apply Forall_nil_2)) words_drain eq_refl eq_refl ltac:(cbn; lia)) as [fuel0 H].
  exists fuel0. intros fuel c w Hle Hs. destruct (H fuel c 0 w Hle Hs) as (i & w1 & r & i' & w2 & r' & w3 & E1 & E2 & E3 & _ & _ & Hr).
  exists i, w1, r, i', w2, r', w3. split; [exact E1|]. split; [exact E2|]. split; [exact E3|].
  destruct r' as [acc|]; [by rewrite Hr|exact Hr].
Defined.

Lemma words_safe k : osafe (R := SumInt) (total k (concat words_pairs)).
Proof. cbn. repeat case_decide; vm_compute; done. Qed.

Lemma reduce_by_key_witness :
  let e := words_reduce words_outputs 0 in
  exists values, holds (R := SumInt) values
      (fun k => if in_bucket 2 0 (k, ANil) then total (R := SumInt) k (concat words_pairs) else None) /\
  exists fuel0, forall fuel c permit (w : runtime (@store DiskStore)), (fuel0 <= fuel)%nat -> rt_store w = words_disk ->
    exists res w', RunTask fuel words_runner c permit e w = Some (res, w') /\ rt_open w' = rt_open w /\
      match res with
      | Ok output => output = mkOutput (Some (sorted_records values)) 0 None
      | Err x => disturbed c
      end.
Proof.
  apply (@reduce_by_key DiskStore DiskReads DiskWrites N sum_int SumInt words_runner (words_reduce words_outputs 0)
           words_registry (words_inputs words_outputs) 5%N true words_pairs words_written words_disk words_fit);
    try reflexivity.
  - do 3 eexists. by split_and!.
  - cbn. lia.
  - exact words_published.
  - exact words_written_writes.
  - repeat (apply Forall_cons_2; [by eexists|]). apply Forall_nil_2.
  - exact words_safe.
Defined.
