(* ===== verification/RunnerFuel.v ===== *)
(** * RunnerFuel: the fuel of a task does not change its result

    A task attempt that returns on some fuel returns the same on any more, so that
    what it returns can be spoken of without fuel. *)

From S2P Require Import Prelude Bytes Plan Stages Shuffle Reports Runtime TextSource Iterator Runner.
#[local] Open Scope Z_scope.

Section fuel.
Context {SS : ShuffleStore}.

Notation world := (runtime store).

(** [f] returns whatever [g] returns. *)
Definition extends {A B} (g f : A -> B -> option (result (option any) * A * B)) : Prop :=
  forall i w x, g i w = Some x -> f i w = Some x.

Lemma reduceLoop_fuel (next next' : source) fuel fuel' c fn i values (w : world) x :
  extends next next' -> (fuel <= fuel')%nat ->
  reduceLoop next fuel c fn i values w = Some x -> reduceLoop next' fuel' c fn i values w = Some x.
Proof.
  intros Hn. revert fuel' i values w. induction fuel as [|fuel IH]; intros [|fuel'] i values w Hle; try done; [lia|].
  cbn [reduceLoop]. destruct (readCause c w) as [[e|] w1]; [done|].
  destruct (next i w1) as [[[r i1] w2]|] eqn:E; [|done]. apply Hn in E. rewrite E. cbn [mbind option_bind].
  destruct r as [[v|]|]; [|done|done]. destruct v; try done.
  destruct (combine _ fn values key v); [|done]. apply IH. lia.
Qed.

Lemma nextReduce_fuel (next next' : source) fuel fuel' c input fn result err closed (w : world) x :
  extends next next' -> (fuel <= fuel')%nat ->
  nextReduce next fuel c input fn result err closed w = Some x ->
  nextReduce next' fuel' c input fn result err closed w = Some x.
Proof.
  intros Hn Hle. unfold nextReduce, reduceRecords. destruct err; [done|]. destruct closed; [done|].
  destruct result; [done|]. destruct input as [i|]; [|done].
  destruct (reduceLoop next fuel c fn i ∅ w) as [[[r i1] w1]|] eqn:E; [|done].
  apply (reduceLoop_fuel _ next' _ fuel') in E; [|done|done]. by rewrite E.
Qed.

Lemma Next_fuel c fuel fuel' i (w : world) x :
  (fuel <= fuel')%nat -> Next c fuel i w = Some x -> Next c fuel' i w = Some x.
Proof.
  revert fuel' i w x. induction fuel as [|fuel IH]; intros [|fuel'] i w x Hle; try done; [lia|].
  assert (Hn : extends (Next c fuel) (Next c fuel')) by (intros j v y; apply IH; lia).
  cbn [Next]. destruct i as [t|i|i fn|i fn|i fn|i fn|i fn res err closed]; try done.
  1-4: destruct (Next c fuel i w) as [[[r i1] w1]|] eqn:E; [|done]; apply Hn in E; rewrite E; cbn [mbind option_bind]; try done.
  - destruct r as [[v|]|]; [|done|done]. destruct (fn v) as [[]|]; [done| |done]. apply Hn.
  - apply nextReduce_fuel; [done|lia].
Qed.

Lemma collectLoop_fuel fuel fuel' c action i acc (w : world) x :
  (fuel <= fuel')%nat -> collectLoop fuel c action i acc w = Some x -> collectLoop fuel' c action i acc w = Some x.
Proof.
  revert fuel' i acc w. induction fuel as [|fuel IH]; intros [|fuel'] i acc w Hle; try done; [lia|].
  cbn [collectLoop]. destruct (Next c fuel i w) as [[[r i1] w1]|] eqn:E; [|done].
  apply (Next_fuel _ _ fuel') in E; [|lia]. rewrite E. cbn [mbind option_bind].
  destruct r as [[v|]|]; [|done|done]. destruct (addResult action v acc); [|done]. apply IH. lia.
Qed.

Lemma writeLoop_fuel fuel fuel' c reduce i wr combined (w : world) x :
  (fuel <= fuel')%nat -> writeLoop fuel c reduce i wr combined w = Some x ->
  writeLoop fuel' c reduce i wr combined w = Some x.
Proof.
  revert fuel' i wr combined w. induction fuel as [|fuel IH]; intros [|fuel'] i wr combined w Hle; try done; [lia|].
  cbn [writeLoop]. destruct (readCause c w) as [[e|] w1]; [done|].
  destruct (Next c fuel i w1) as [[[r i1] w2]|] eqn:E; [|done].
  apply (Next_fuel _ _ fuel') in E; [|lia]. rewrite E. cbn [mbind option_bind].
  destruct r as [[v|]|]; [|done|done]. destruct v; try done. destruct reduce as [fn|].
  - destruct (combine _ fn combined key v); [|done]. apply IH. lia.
  - destruct (Write c wr key v w2) as [[[e|] wr1] w3]; [done|]. apply IH. lia.
Qed.

(** [RunTask] returns the same on more fuel. *)
Lemma RunTask_fuel fuel fuel' r c permit e (w : world) x :
  (fuel <= fuel')%nat -> RunTask fuel r c permit e w = Some x -> RunTask fuel' r c permit e w = Some x.
Proof.
  intros Hle. unfold RunTask. destruct (checkRunner r e) as [registry|]; [|done].
  destruct (if permit then _ else _) as [[err|] w1]; [done|]. destruct (readCause c w1) as [[err|] w2]; [done|].
  case_bool_decide.
  - unfold runShuffleMap. destruct (checkMapTask r registry e) as [[write reduce]|]; [|done].
    destruct (Begin _ _ _ _ w2) as [[wr|] w3]; [|done].
    assert (Hm : forall y, runMapPipeline fuel (sources r) c e registry reduce wr w3 = Some y ->
      runMapPipeline fuel' (sources r) c e registry reduce wr w3 = Some y).
    { intros y. unfold runMapPipeline, writeShuffleRecords. destruct (buildTaskIterator _ c e registry w3) as [[i|] w4]; [|done].
      destruct (writeLoop fuel c reduce i wr ∅ w4) as [z|] eqn:E; [|done].
      apply (writeLoop_fuel _ fuel') in E; [|done]. by rewrite E. }
    destruct (runMapPipeline fuel _ c e registry reduce wr w3) as [z|] eqn:E; [|done]. by rewrite (Hm _ eq_refl).
  - assert (Hr : forall y, runTask fuel (sources r) c e registry w2 = Some y -> runTask fuel' (sources r) c e registry w2 = Some y).
    { intros y. unfold runTask. destruct (t_FinalAction (te_Task e)) as [a|]; [|done].
      destruct (negb _); [done|]. destruct (bool_decide _); [done|].
      destruct (buildTaskIterator _ c e registry w2) as [[i|] w4]; [|done].
      destruct (collectLoop fuel c _ i _ w4) as [z|] eqn:E; [|done].
      apply (collectLoop_fuel _ fuel') in E; [|done]. by rewrite E. }
    unfold runResult. destruct (runTask fuel _ c e registry w2) as [z|] eqn:E; [|done]. by rewrite (Hr _ eq_refl).
Qed.

(** What an attempt returns, on some fuel and so on any that is enough. *)
Definition returned (r : LocalRunner) (c : goContext) (permit : bool) (e : TaskExecution) (w : world)
    (res : result TaskOutput) (w' : world) : Prop :=
  exists fuel, RunTask fuel r c permit e w = Some (res, w').

Lemma returned_enough r c permit e (w : world) res w' fuel0 :
  returned r c permit e w res w' -> exists fuel, (fuel0 <= fuel)%nat /\ RunTask fuel r c permit e w = Some (res, w').
Proof.
  intros [fuel H]. exists (max fuel0 fuel). split; [lia|]. eapply RunTask_fuel; [|exact H]. lia.
Qed.

End fuel.
