(* ===== verification/Meaning.v ===== *)
(** * Meaning: what a job specification means

    The records a job is to return, defined on the lines of its file with no
    regard to stages, tasks or shuffles: [transforms] for the narrow
    transformations, [means] for a whole job.  The streams of task pipelines are
    then related to it. *)

From S2P Require Import Prelude Bytes Plan Stages Planner PlannerProofs Api Shuffle Reports Runtime TextSource Iterator.
From S2P Require Import IteratorProofs Runner RunnerProofs MapTasks Exchange Dag.
#[local] Open Scope Z_scope.

(** ** Narrow transformations *)

Definition ok {A} (r : result A) : option A := match r with Ok a => Some a | Err _ => None end.

Lemma ok_Some {A} (r : result A) a : ok r = Some a <-> r = Ok a.
Proof. destruct r; cbn; naive_solver. Qed.

Fixpoint keep (fn : FilterFunc) (l : list any) : option (list any) :=
  match l with
  | [] => Some []
  | v :: l => b ← ok (fn v); l ← keep fn l; Some (if b : bool then v :: l else l)
  end.

(** The records after one operator; [None] when its function is missing or fails. *)
Definition transform (registry : FunctionRegistry) (op : OperatorKind * string) (l : list any) : option (list any) :=
  match op.1 with
  | OpMap => fn ← fr_maps registry !! op.2; mapM (fun v => ok (fn v)) l
  | OpFilter => fn ← fr_filters registry !! op.2; keep fn l
  | OpMapToPair => fn ← fr_pairMaps registry !! op.2; mapM (fun v => ok (pairRecord fn v)) l
  | OpMapValues => fn ← fr_valueMaps registry !! op.2; mapM (fun v => ok (mapValue fn v)) l
  | _ => None
  end.

Fixpoint transforms (registry : FunctionRegistry) (ops : list (OperatorKind * string)) (l : list any) : option (list any) :=
  match ops with
  | [] => Some l
  | op :: ops => l ← transform registry op l; transforms registry ops l
  end.

Lemma mapM_length {A B} (f : A -> option B) l l' : mapM f l = Some l' -> length l' = length l.
Proof. intros H%mapM_Some. by apply Forall2_length in H. Qed.

Lemma keep_app fn l l' m m' : keep fn l = Some m -> keep fn l' = Some m' -> keep fn (l ++ l') = Some (m ++ m').
Proof.
  intros H H'. revert m H. induction l as [|v l IH]; intros m; cbn; [by intros [= <-]|].
  destruct (ok (fn v)) as [b|]; [|done]. cbn. destruct (keep fn l) as [n|]; [|done]. cbn. intros [= <-].
  rewrite (IH n) by done. cbn. by destruct b.
Qed.

Lemma keep_length fn l l' : keep fn l = Some l' -> (length l' <= length l)%nat.
Proof.
  revert l'. induction l as [|v l IH]; intros l'; cbn; [by intros [= <-]|].
  destruct (ok (fn v)) as [b|]; [|done]. cbn. destruct (keep fn l) as [n|]; [|done]. cbn. intros [= <-].
  specialize (IH n eq_refl). destruct b; cbn; lia.
Qed.

Lemma mapM_app_Some {A B} (f : A -> option B) l l' m m' :
  mapM f l = Some m -> mapM f l' = Some m' -> mapM f (l ++ l') = Some (m ++ m').
Proof. rewrite !mapM_Some. apply Forall2_app. Qed.

Lemma transform_app registry op l l' m m' :
  transform registry op l = Some m -> transform registry op l' = Some m' ->
  transform registry op (l ++ l') = Some (m ++ m').
Proof.
  unfold transform. destruct op.1; try done; destruct (_ !! op.2); try done; cbn; eauto using keep_app, mapM_app_Some.
Qed.

Lemma transform_length registry op l l' : transform registry op l = Some l' -> (length l' <= length l)%nat.
Proof.
  unfold transform. destruct op.1; try done; destruct (_ !! op.2); try done; cbn;
    [intros ->%mapM_length; done|by intros ?%keep_length|intros ->%mapM_length; done..].
Qed.

Lemma transforms_app registry ops l l' m m' :
  transforms registry ops l = Some m -> transforms registry ops l' = Some m' ->
  transforms registry ops (l ++ l') = Some (m ++ m').
Proof.
  revert l l'. induction ops as [|op ops IH]; intros l l'; cbn; [by intros [= <-] [= <-]|].
  destruct (transform registry op l) as [l1|] eqn:E; [|done]. destruct (transform registry op l') as [l1'|] eqn:E'; [|done].
  rewrite (transform_app _ _ _ _ _ _ E E'). apply IH.
Qed.

Lemma transforms_length registry ops l l' : transforms registry ops l = Some l' -> (length l' <= length l)%nat.
Proof.
  revert l. induction ops as [|op ops IH]; intros l; cbn; [by intros [= ->]|].
  destruct (transform registry op l) as [l1|] eqn:E; [|done]. intros H%IH. apply transform_length in E. lia.
Qed.

(** Part by part is the same as on the whole. *)
Lemma transforms_concat registry ops ls ms : ls <> [] ->
  Forall2 (fun l m => transforms registry ops l = Some m) ls ms ->
  transforms registry ops (concat ls) = Some (concat ms).
Proof.
  intros Hne H. induction H as [|l m ls ms Hl H IH]; [done|]. rewrite !concat_cons.
  destruct ls as [|l2 ls]; [apply Forall2_nil_inv_l in H as ->; by rewrite !app_nil_r|].
  by apply transforms_app; [|apply IH].
Qed.

(** ** The streams of pipelines *)

Lemma map_stream_end fn s l : map_stream fn s = (l, None) -> s.2 = None /\ mapM (fun v => ok (fn v)) s.1 = Some l.
Proof.
  destruct s as [vs e]. unfold map_stream. cbn. revert l. induction vs as [|v vs IH]; intros l; cbn; [by intros [= <- ->]|].
  destruct (fn v) as [v'|]; [|done]. destruct (IteratorProofs.map_records fn vs e) as [l' e'] eqn:E. unfold cons_stream. cbn.
  intros [= <- ->]. destruct (IH l' eq_refl) as [-> ->]. done.
Qed.

Lemma filter_stream_end fn s l : filter_stream fn s = (l, None) -> s.2 = None /\ keep fn s.1 = Some l.
Proof.
  destruct s as [vs e]. unfold filter_stream. cbn. revert l. induction vs as [|v vs IH]; intros l; cbn; [by intros [= <- ->]|].
  destruct (fn v) as [[]|]; [| |done]; cbn.
  - destruct (filter_records fn vs e) as [l' e'] eqn:E. unfold cons_stream. cbn.
    intros [= <- ->]. destruct (IH l' eq_refl) as [-> ->]. done.
  - intros H. destruct (IH l H) as [-> ->]. done.
Qed.

Lemma map_records_length fn l e : (length (IteratorProofs.map_records fn l e).1 <= length l)%nat.
Proof. induction l as [|v l IH]; cbn; [done|]. destruct (fn v); cbn; lia. Qed.

Lemma filter_records_length fn l e : (length (filter_records fn l e).1 <= length l)%nat.
Proof. induction l as [|v l IH]; cbn; [done|]. destruct (fn v) as [[]|]; cbn; lia. Qed.

Lemma surjective_pairing_None (s : stream) : s.2 = None -> s = (s.1, None).
Proof. by destruct s as [l []]. Qed.

Section streams.
Context {SS : ShuffleStore} {SR : StoreReads SS}.
Variable files : string -> result (list N).

Definition narrow_node (n : RDDNode) : Prop := narrow_kind (op_Kind (node_Operator n)) = true.

(** The operations of registered narrow nodes: they have a stream, no longer than
    the one they read, and if it ends well it is what the transformations mean. *)
Lemma narrow_stream s e registry ns input :
  Forall narrow_node ns -> Forall (function_ok (registryLookup registry)) ns ->
  exists str, ops_stream files s e registry (Some input) (rddOperation <$> ns) = Some str /\
    (length str.1 <= length input.1)%nat /\
    (str.2 = None -> input.2 = None /\ transforms registry (chain_ops ns) input.1 = Some str.1).
Proof.
  intros Hn. revert input. induction Hn as [|n ns Hn Hns IH]; intros input Hf; [by exists input|].
  apply Forall_cons in Hf as [Hf Hfs].
  assert (exists s1, op_stream files s e registry (Some input) (rddOperation n) = Some s1 /\
    (length s1.1 <= length input.1)%nat /\
    (s1.2 = None -> input.2 = None /\
       transform registry (op_Kind (node_Operator n), op_FunctionID (node_Operator n)) input.1 = Some s1.1))
    as (s1 & E1 & Hl1 & H1).
  { unfold function_ok, validateNodeFunction, narrow_node in *. unfold op_stream, transform. cbn [rddOperation so_Kind so_RDD ro_Operator].
    destruct (op_Kind (node_Operator n)); try done; cbn -[hasIn] in Hf |- *;
      match type of Hf with context [hasIn ?t ?id] => destruct (hasIn t id) eqn:E; [|done]; unfold hasIn in E;
        apply bool_decide_eq_true in E as [fn Hfn]; destruct (t !! id) as [fn'|] eqn:E2; [|done]; injection Hfn as -> end; cbn;
      eexists; (split; [done|]); (split; [apply map_records_length || apply filter_records_length|]);
      intros Hend; (apply map_stream_end || apply filter_stream_end); by apply surjective_pairing_None. }
  destruct (IH s1 Hfs) as (str & E & Hl & H). exists str. rewrite fmap_cons. cbn [ops_stream]. rewrite E1. cbn [mbind option_bind].
  split; [done|]. split; [lia|]. intros Hend. destruct (H Hend) as [H1' Ht]. destruct (H1 H1') as [? Ht1]. split; [done|].
  unfold chain_ops. cbn. rewrite Ht1. exact Ht.
Qed.

(** The streams of partition [i] of a file. *)
Definition part (data : list N) (n : Z) (i : nat) : list any := (fun x => lineRecord x.2) <$> partition_lines data (Z.of_nat i) n.

Lemma parts_concat data n : 0 < n -> concat (part data n <$> seq 0 (Z.to_nat n)) = lineRecord <$> fileLines data.
Proof.
  intros Hn. rewrite <- (offsets_lines 0), <- (partitions_concat data n), fmap_concat by lia.
  by rewrite <- list_fmap_compose.
Qed.

Lemma lines_part_length data n i : (length (part data n i) <= length data)%nat.
Proof. unfold part. rewrite length_fmap. apply partition_lines_length. Qed.

(** The operations of a source and registered narrow nodes. *)
Lemma source_narrow_stream s e registry src ns data n i :
  op_Kind (node_Operator src) = OpSource -> files (op_SourcePath (node_Operator src)) = Ok data ->
  n < 2 ^ 63 -> Z.of_nat (length data) * n < 2 ^ 63 -> Z.of_nat i < n ->
  t_PartitionID (te_Task e) = Z.of_nat i -> t_NumPartitions (te_Task e) = n ->
  Forall narrow_node ns -> Forall (function_ok (registryLookup registry)) ns ->
  exists str, ops_stream files s e registry None (rddOperation src :: (rddOperation <$> ns)) = Some str /\
    (length str.1 <= length data)%nat /\
    (str.2 = None -> transforms registry (chain_ops ns) (part data n i) = Some str.1).
Proof.
  intros Hsrc Hf Hn Hfit Hi Hp Hm Hns Hfs. cbn [ops_stream]. unfold op_stream at 1. cbn [rddOperation so_Kind so_RDD ro_Operator].
  rewrite Hsrc. unfold source_stream. rewrite Hf, Hp, Hm.
  destruct (Z.leb_spec 0 (Z.of_nat i)); [|lia]. destruct (Z.ltb_spec (Z.of_nat i) n); [|lia].
  destruct (Z.ltb_spec n (2 ^ 63)); [|lia]. destruct (Z.ltb_spec (Z.of_nat (length data) * n) (2 ^ 63)); [|lia].
  cbn [andb mbind option_bind]. destruct (narrow_stream s e registry ns (part data n i, None) Hns Hfs) as (str & E & Hl & Hstr).
  exists str. split; [exact E|]. cbn in Hl. pose proof (lines_part_length data n i). split; [lia|]. intros Hend. by apply Hstr.
Qed.

End streams.

(** ** Jobs *)

Section meaning.
Context {M : Type} {wire : any -> any} {durable : any -> Prop} {fn : ReduceFunc} {R : Reducer M wire durable fn}.

(** The values of [ReduceByKey] into [n] partitions: in the partition of a key, its
    total. *)
Definition key_totals (n : Z) (kvs : list (string * any)) (values : list (gmap string any)) : Prop :=
  length values = Z.to_nat n /\
  forall p vs, values !! p = Some vs ->
    holds vs (fun k => if in_bucket n (Z.of_nat p) (k, ANil) then total k kvs else None).

(** The records after all transformations. *)
Inductive means (registry : FunctionRegistry) : list TransformationSpec -> list any -> list any -> Prop :=
  | means_nil l : means registry [] l l
  | means_narrow t ts l l1 l2 :
      transform registry (tr_Kind t, tr_FunctionID t) l = Some l1 -> means registry ts l1 l2 ->
      means registry (t :: ts) l l2
  | means_reduce t ts l kvs values l2 :
      tr_Kind t = OpReduceByKey -> fr_reducers registry !! tr_FunctionID t = Some fn ->
      pairs_of l = Ok kvs -> key_totals (tr_NumPartitions t) kvs values ->
      means registry ts (concat (sorted_records <$> values)) l2 ->
      means registry (t :: ts) l l2.

Lemma means_transforms registry ts l l' : transforms registry (spec_ops ts) l = Some l' -> means registry ts l l'.
Proof.
  revert l. induction ts as [|t ts IH]; intros l; cbn; [intros [= ->]; constructor|].
  destruct (transform registry _ l) as [l1|] eqn:E; [|done]. intros H. by eapply means_narrow; [|apply IH].
Qed.

Lemma means_app registry ts ts' l l1 l2 :
  means registry ts l l1 -> means registry ts' l1 l2 -> means registry (ts ++ ts') l l2.
Proof.
  intros H H'. induction H; cbn; [done| |].
  - eapply means_narrow; [done|by apply IHmeans].
  - eapply means_reduce; try done. by apply IHmeans.
Qed.
End meaning.

(** The result of an action on the records. *)
Definition answers (kind : ActionKind) (l : list any) (res : JobResult) : Prop :=
  match kind with
  | ActionCollect => default [] (jr_Records res) = l /\ (jr_Records res = None <-> l = [])
  | _ => jr_Count res = Z.of_nat (length l)
  end.
