(* ===== verification/PlanShape.v ===== *)
(** * PlanShape: the stages of a job specification

    What the planner makes of a graph built from a specification: one stage for a
    narrow job, a map and a result stage for a job with one [ReduceByKey], and the
    operations of their pipelines. *)

From S2P Require Import Prelude Plan Lineage Stages Planner PlannerProofs Api.
#[local] Open Scope Z_scope.

(** ** The stages of a chain *)

Definition final_stage (a : ActionSpec) (l : list RDDNode) : Stage :=
  let '(sts, ops, parents) := ref_pipeline l in
  {| st_ID := N.of_nat (length sts); st_Kind := StageResult; st_ParentIDs := parents;
     st_NumPartitions := node_NumPartitions (default zeroNode (head l)); st_Operations := ops;
     st_ShuffleWrite := None; st_FinalAction := Some a |}.

Lemma PlanAction_stages g fs a p l : graph_wf g -> chain g (act_TargetRDD a) l ->
  PlanAction (Some (Some fs)) (Some g) a = Some (Ok p) ->
  Forall (function_ok fs) l /\ sp_Stages p = (ref_pipeline l).1.1 ++ [final_stage a l].
Proof.
  intros Hwf Hc H. unfold PlanAction in H. destruct (validateAction a) as [[]|]; [|done].
  destruct (validateFunctions_spec g Hwf fs (act_TargetRDD a)) as (r & Er & Hr). rewrite Er in H.
  destruct r as [[]|]; [|done]. destruct (proj1 Hr eq_refl) as [Hl Hf].
  split; [by apply (chain_functions g Hwf fs _ _ Hc)|]. pose proof (chain_length g Hwf _ _ Hl Hc) as Hlen.
  destruct (buildPipeline_ref g _ _ (S (size (nodes g))) Hc) as [memo Hb]; [lia|].
  destruct (chain_head _ _ _ Hc) as (n & l' & El & Hn). unfold buildStage in H. rewrite Hb in H. unfold Node in H. rewrite Hn in H.
  subst l. unfold final_stage. cbn [fbind b_stages] in H. destruct (ref_pipeline (n :: l')) as [[sts ops] parents]. cbn in *.
  by injection H as <-.
Qed.

(** ** The nodes of a specification *)

Definition narrow_spec (t : TransformationSpec) : Prop := narrow_kind (tr_Kind t) = true.

Lemma made_narrow t p n : narrow_spec t -> made_by t p n ->
  narrow_kind (op_Kind (node_Operator n)) = true /\ node_NumPartitions n = node_NumPartitions p /\
  exists d, node_Dependencies n = [d] /\ dep_Shuffle d = None.
Proof.
  unfold narrow_spec. intros Hk (E & _ & d & Hd & H). rewrite E. split; [done|].
  destruct (tr_Kind t); try done; by destruct H; split; [|exists d].
Qed.

Lemma ref_narrow src ts ns l : nodes_made (default src (head l)) ts ns -> Forall narrow_spec ts -> l <> [] ->
  ref_pipeline (ns ++ l) =
    ((ref_pipeline l).1.1, (ref_pipeline l).1.2 ++ (rddOperation <$> reverse ns), (ref_pipeline l).2) /\
  Forall (fun n => narrow_kind (op_Kind (node_Operator n)) = true) ns /\
  node_NumPartitions (default zeroNode (head (ns ++ l))) = node_NumPartitions (default zeroNode (head l)).
Proof.
  intros H Hts Hl. revert ns H. induction Hts as [|t ts Ht _ IH]; intros [|n ns] H; try done.
  - cbn. rewrite app_nil_r. by destruct (ref_pipeline l) as [[sts ops] parents].
  - destruct H as [Hn H]. destruct (IH ns H) as (E & Hk & Hp). destruct (made_narrow _ _ _ Ht Hn) as (Hkn & Hpn & d & Hd & Hs).
    split; [|split; [by apply Forall_cons|]].
    + cbn [app ref_pipeline]. rewrite E. rewrite Hd, Hs. cbn [fst snd]. by rewrite reverse_cons, fmap_app, app_assoc.
    + cbn in Hpn |- *. rewrite Hpn. destruct ns as [|m ns]; [|exact Hp]. by destruct l.
Qed.

(** ** Jobs with and without a shuffle *)

(** The operations of a source and the narrow transformations after it. *)
Definition source_ops (src : RDDNode) (ns : list RDDNode) : list StageOperation := rddOperation src :: (rddOperation <$> ns).

(** The result stage of a job without a shuffle. *)
Definition single_stage (a : ActionSpec) (n : Z) (src : RDDNode) (ns : list RDDNode) : Stage :=
  {| st_ID := 0%N; st_Kind := StageResult; st_ParentIDs := []; st_NumPartitions := n;
     st_Operations := source_ops src ns; st_ShuffleWrite := None; st_FinalAction := Some a |}.

(** The two stages around a shuffle into [k] partitions. *)
Definition shuffle_dep (sid : ShuffleID) (t : TransformationSpec) : ShuffleDependencySpec :=
  {| sd_ShuffleID := sid; sd_Partitioner := HashPartitioner (tr_NumPartitions t);
     sd_AggregatorID := tr_FunctionID t; sd_MapSideCombine := true |}.

Definition map_stage_of (n : Z) (src : RDDNode) (ns : list RDDNode) (sd : ShuffleDependencySpec) : Stage :=
  {| st_ID := 0%N; st_Kind := StageShuffleMap; st_ParentIDs := []; st_NumPartitions := n;
     st_Operations := source_ops src ns; st_ShuffleWrite := Some (shuffleWriteSpec sd); st_FinalAction := None |}.

Definition reduce_stage_of (a : ActionSpec) (red : RDDNode) (ns : list RDDNode) (sd : ShuffleDependencySpec) : Stage :=
  {| st_ID := 1%N; st_Kind := StageResult; st_ParentIDs := [0%N]; st_NumPartitions := pt_NumPartitions (sd_Partitioner sd);
     st_Operations := shuffleReadOperation sd :: rddOperation red :: (rddOperation <$> ns);
     st_ShuffleWrite := None; st_FinalAction := Some a |}.

(** A source node of a specification. *)
Definition source_of (s : Spec) (src : RDDNode) : Prop :=
  op_Kind (node_Operator src) = OpSource /\ op_SourcePath (node_Operator src) = src_Path (spec_Source s).

(** Nodes of narrow transformations, first to last. *)
Definition narrow_nodes (fs : FunctionLookup) (ts : list TransformationSpec) (ns : list RDDNode) : Prop :=
  Forall narrow_spec ts /\ Forall (fun n => narrow_kind (op_Kind (node_Operator n)) = true) ns /\
  Forall (function_ok fs) ns /\ chain_ops ns = spec_ops ts.

Lemma narrow_nodes_made fs src ts ns : nodes_made src (reverse ts) ns -> Forall narrow_spec ts ->
  Forall (function_ok fs) ns -> Forall (fun n => narrow_kind (op_Kind (node_Operator n)) = true) ns ->
  narrow_nodes fs ts (reverse ns).
Proof.
  intros H%nodes_made_ops Hts Hf Hk. split; [done|]. split; [by rewrite Forall_reverse|]. split; [by rewrite Forall_reverse|].
  unfold chain_ops, spec_ops in *. by rewrite fmap_reverse, H, fmap_reverse, reverse_involutive.
Qed.

Lemma transformation_cases ts : Forall transformation_ok ts ->
  Forall narrow_spec ts \/ exists ts1 t ts2, ts = ts1 ++ t :: ts2 /\ Forall narrow_spec ts2 /\ tr_Kind t = OpReduceByKey.
Proof.
  induction ts as [|t ts IH] using rev_ind; [by left|]. rewrite Forall_app, Forall_singleton. intros [Hts [_ Ht]].
  destruct Ht as [[Ht _]|[Ht _]].
  - right. by exists ts, t, [].
  - destruct (IH Hts) as [H|(ts1 & t1 & ts2 & -> & H & Ht1)].
    + left. by apply Forall_app; split; [|apply Forall_singleton].
    + right. exists ts1, t1, (ts2 ++ [t]). rewrite <- app_assoc. split; [done|]. split; [|done].
      by apply Forall_app; split; [|apply Forall_singleton].
Qed.

Lemma nodes_made_split src ts ts' l : nodes_made src (ts ++ ts') l ->
  exists l1 l2, l = l1 ++ l2 /\ nodes_made (default src (head l2)) ts l1 /\ nodes_made src ts' l2.
Proof.
  revert l. induction ts as [|t ts IH]; intros l H; [by exists [], l|].
  destruct l as [|n l]; [done|]. destruct H as [Hn H]. destruct (IH l H) as (l1 & l2 & -> & H1 & H2).
  exists (n :: l1), l2. split; [done|]. split; [|done]. split; [|done]. by destruct l1.
Qed.

(** An accepted plan has at most one map stage. *)
Lemma one_shuffle p sts s : validateExecutionPlan p = Ok tt -> sp_Stages p = sts ++ [s] -> (length sts <= 1)%nat.
Proof.
  intros H E. unfold validateExecutionPlan in H. rewrite E in H. by destruct sts as [|s1 [|s2 [|s3 sts]]]; cbn in *; try lia.
Qed.

Lemma shuffle_count ts src l t : nodes_made src ts l -> t ∈ ts -> tr_Kind t = OpReduceByKey ->
  (0 < length (List.filter is_shuffle_node l))%nat.
Proof.
  intros H%nodes_made_ops Ht Hk.
  assert (Hin : (OpReduceByKey, tr_FunctionID t) ∈ chain_ops l).
  { rewrite H. unfold spec_ops. apply list_elem_of_fmap. exists t. by rewrite Hk. }
  apply list_elem_of_fmap in Hin as (n & [= Hn _] & Hin).
  assert (Hf : In n (List.filter is_shuffle_node l)).
  { apply filter_In. split; [by apply list_elem_of_In|]. unfold is_shuffle_node. by apply bool_decide_eq_true_2. }
  destruct (List.filter is_shuffle_node l); [done|cbn; lia].
Qed.

(** The plan of a specification that is accepted for execution. *)
Lemma spec_stages s g rdd fs p :
  Build s NewRDDGraph = (Ok rdd, g) -> (N.of_nat (length (spec_Transformations s)) + 1 < 2 ^ 64)%N ->
  PlanAction (Some (Some fs)) (Some g) (mkAction (spec_Action s) rdd) = Some (Ok p) -> validateExecutionPlan p = Ok tt ->
  let a := mkAction (spec_Action s) rdd in let n := src_NumPartitions (spec_Source s) in let ts := spec_Transformations s in
  spec_ok s /\ exists src, source_of s src /\
    ((exists ns, narrow_nodes fs ts ns /\ sp_Stages p = [single_stage a n src ns]) \/
     (exists ts1 t ts2 ns1 red ns2 sid, ts = ts1 ++ t :: ts2 /\ tr_Kind t = OpReduceByKey /\ 0 < tr_NumPartitions t /\
        narrow_nodes fs ts1 ns1 /\ narrow_nodes fs ts2 ns2 /\
        op_Kind (node_Operator red) = OpReduceByKey /\ op_FunctionID (node_Operator red) = tr_FunctionID t /\
        function_ok fs red /\ let sd := shuffle_dep sid t in
        sp_Stages p = [map_stage_of n src ns1 sd; reduce_stage_of a red ns2 sd])).
Proof.
  intros HB Hlen HP Hv. cbv zeta.
  assert (Hs : spec_ok s).
  { apply validateSpec_spec. pose proof (Build_invalid s) as Hi. destruct (validateSpec s) as [[]|] eqn:E; [done|].
    rewrite HB in Hi. rewrite <- validateSpec_spec, E in Hi. specialize (Hi ltac:(done)). done. }
  split; [done|]. destruct (Build_Ok s Hs Hlen) as (rdd' & g' & l & src & HB' & [Hwf _ Hc] & Hpath & Hn & Hmade).
  rewrite HB in HB'. injection HB' as <- <-.
  destruct (PlanAction_stages g fs (mkAction (spec_Action s) rdd) p (l ++ [src]) Hwf Hc HP) as [Hf Hst].
  apply Forall_app in Hf as [Hf Hfs].
  assert (Hd : node_Dependencies src = [] /\ op_Kind (node_Operator src) = OpSource).
  { assert (E : last (l ++ [src]) = Some src) by by rewrite last_snoc.
    remember (l ++ [src]) as l0. clear -E Hc. induction Hc as [id n H Hd|id n d l H Hd Hc IH].
    - injection E as ->. split; [done|by eapply node_source].
    - apply IH. rewrite last_cons in E. destruct (last l) eqn:E2; [done|]. apply last_None in E2 as ->. inversion Hc. }
  destruct Hd as [Hd Hk]. exists src. split; [done|]. destruct Hs as (_ & _ & Hts & _).
  assert (Hsrc : ref_pipeline [src] = ([], [rddOperation src], [])) by (cbn; by rewrite Hd).
  destruct (transformation_cases _ Hts) as [Hnar|(ts1 & t & ts2 & Ets & Hnar & Ht)].
  - left. exists (reverse l).
    destruct (ref_narrow src (reverse (spec_Transformations s)) l [src] Hmade) as (E & Hkn & Hnum); [by rewrite Forall_reverse|done|].
    split; [by eapply narrow_nodes_made|]. rewrite Hst. unfold final_stage. rewrite E, Hsrc. cbn [fst snd app length].
    rewrite Hnum. cbn. by rewrite Hn.
  - right. rewrite Ets in Hmade, Hts. rewrite reverse_app, reverse_cons, <- app_assoc in Hmade.
    apply nodes_made_split in Hmade as (l2 & l1 & -> & Hm2 & Hm1). destruct l1 as [|red l1]; [done|]. destruct Hm1 as [Hred Hm1].
    pose proof Hred as (Hrk & Hrf & d & Hrd & Hdep). rewrite Ht in Hdep. destruct Hdep as (sid & Hrn & Hsd).
    apply Forall_app in Hf as [Hf2 Hf1]. apply Forall_cons in Hf1 as [Hfr Hf1].
    apply Forall_app in Hts as [Hts1 [Htok _]%Forall_cons].
    assert (Hl : ref_pipeline ((l2 ++ red :: l1) ++ [src]) =
      ((ref_pipeline (red :: l1 ++ [src])).1.1, (ref_pipeline (red :: l1 ++ [src])).1.2 ++ (rddOperation <$> reverse l2),
       (ref_pipeline (red :: l1 ++ [src])).2) /\
      Forall (fun n => narrow_kind (op_Kind (node_Operator n)) = true) l2 /\
      node_NumPartitions (default zeroNode (head ((l2 ++ red :: l1) ++ [src]))) = node_NumPartitions red).
    { rewrite <- app_assoc. change ((red :: l1) ++ [src]) with (red :: l1 ++ [src]). destruct (ref_narrow src (reverse ts2) l2 (red :: l1 ++ [src])) as (E & ? & Hnum); [done|by rewrite Forall_reverse|done|].
      by rewrite E, Hnum. }
    destruct Hl as (E & Hk2 & Hnum).
    destruct (transformation_cases _ Hts1) as [Hnar1|(ts0 & t0 & ts3 & Ets0 & Hnar3 & Ht0)]; cycle 1.
    { exfalso. pose proof (one_shuffle _ _ _ Hv Hst) as Hone. destruct (chain_ref_inv _ _ _ Hc) as [_ _ _ _ Hcount].
      rewrite Hcount, !List.filter_app, !length_app in Hone. cbn [List.filter] in Hone. unfold is_shuffle_node at 2 in Hone.
      rewrite Hrk, Ht, bool_decide_eq_true_2 in Hone by done. cbn [length] in Hone.
      pose proof (shuffle_count (reverse ts1) _ _ t0 Hm1 ltac:(apply elem_of_reverse; rewrite Ets0; set_solver) Ht0). lia. }
    rewrite Hst. unfold final_stage. rewrite E, Hnum. cbn [fst snd ref_pipeline]. rewrite Hrd, Hsd.
    destruct (ref_narrow src (reverse ts1) l1 [src]) as (E1 & Hk1 & Hnum1); [done|by rewrite Forall_reverse|done|].
    rewrite E1, Hsrc. cbn [fst snd app length]. rewrite Hnum1. cbn [head default].
    exists ts1, t, ts2, (reverse l1), red, (reverse l2), sid. split; [done|]. split; [done|].
    split; [by destruct Htok as [_ [[_ ?]|[Hx _]]]; [|rewrite Ht in Hx]|].
    split; [by eapply narrow_nodes_made|]. split; [by eapply narrow_nodes_made|]. split; [congruence|]. split; [done|]. split; [done|].
    unfold map_stage_of, reduce_stage_of, shuffle_dep, source_ops. cbn. by rewrite Hn, Hrn.
Qed.
