(* ===== verification/DagFrame.v ===== *)
(** * DagFrame: what an event can change

    The outputs a job holds are only those that were reported for its pending
    tasks, its stages and tasks are those of its plan, and only the last report of
    the result stage answers it with a result. *)

From S2P Require Import Prelude Bytes Plan Lineage Stages Planner PlannerProofs TaskGenerator Shuffle Reports.
From S2P Require Import Fifo FifoSystem Dag DagProofs DagEvents.
#[local] Open Scope Z_scope.

(** ** Growing jobs *)

(** [job'] is [job] with other statuses and fewer outputs, but for those [new]
    allows. *)
Record grows (new : StageID -> PartitionID -> TaskOutput -> Prop) (job job' : jobState) : Prop := {
  gr_action : js_action job' = js_action job;
  gr_result : js_resultStageID job' = js_resultStageID job;
  gr_stages id st' : js_stages job' !! id = Some st' ->
    exists st, js_stages job !! id = Some st /\ sg_stage st' = sg_stage st /\ sg_tasks st' = sg_tasks st /\
      forall p o, sg_outputs st' !! p = Some o -> sg_outputs st !! p = Some o \/ new id p o }.

Definition nothing (id : StageID) (p : PartitionID) (o : TaskOutput) : Prop := False.

Lemma grows_refl new job : grows new job job.
Proof. split; [done|done|]. intros id st Hst. exists st. split_and!; try done. by left. Qed.

Lemma grows_compose new job1 job2 job3 : grows new job1 job2 -> grows new job2 job3 -> grows new job1 job3.
Proof.
  intros [A1 R1 S1] [A2 R2 S2]. split; [congruence|congruence|]. intros id st3 (st2 & (st1 & ? & ? & ? & Ho1)%S1 & ? & ? & Ho2)%S2.
  exists st1. split_and!; try congruence. intros p o [Ho|Ho]%Ho2; [by apply Ho1|by right].
Qed.

Lemma grows_mono (new new' : StageID -> PartitionID -> TaskOutput -> Prop) job job' :
  (forall id p o, new id p o -> new' id p o) -> grows new job job' -> grows new' job job'.
Proof.
  intros H [A R S]. split; [done|done|]. intros id st' (st & ? & ? & ? & Ho)%S. exists st. split_and!; try done.
  intros p o [?|?]%Ho; [by left|right; by apply H].
Qed.

Lemma grows_nothing new job job' : grows nothing job job' -> grows new job job'.
Proof. by apply grows_mono. Qed.

Lemma grows_trans new job1 job2 job3 : grows new job1 job2 -> grows nothing job2 job3 -> grows new job1 job3.
Proof. intros H1 H2. eapply grows_compose; [exact H1|by apply grows_nothing]. Qed.

Lemma grows_put new job id st st' : js_stages job !! id = Some st -> sg_stage st' = sg_stage st -> sg_tasks st' = sg_tasks st ->
  (forall p o, sg_outputs st' !! p = Some o -> sg_outputs st !! p = Some o \/ new id p o) ->
  grows new job (with_stages (insert id st') job).
Proof.
  intros Hst Es Et Ho. split; [done|done|]. intros id' st2. cbn. rewrite lookup_insert_Some.
  intros [[<- <-]|[_ Hst2]]; [by exists st|]. exists st2. split_and!; try done. by left.
Qed.

Lemma grows_run new run job job' : grows new (with_runID run job) job' -> grows new job job'.
Proof. intros [A R S]. by split. Qed.

(** ** Starting stages *)

(** No effect answers a job with a result. *)
Definition no_result (es : list effect) : Prop := forall j res, Respond j (Ok res) ∉ es.

Lemma no_result_app es es' : no_result es -> no_result es' -> no_result (es ++ es').
Proof. intros H H' j res [Hin|Hin]%elem_of_app; [by eapply H|by eapply H']. Qed.

Lemma startStage_grows max j l id l' err : startStage max j l id = Ok (l', err) -> no_result (ln_effects l) ->
  grows nothing (ln_job l) (ln_job l') /\ no_result (ln_effects l').
Proof.
  unfold startStage. destruct (js_stages (ln_job l) !! id) as [st|] eqn:Hst; [|done].
  destruct (negb _); [intros [= <- <-] ?; by split; [apply grows_refl|]|].
  intros (ready & _ & H)%bind_Ok. destruct (negb ready); [injection H as <- <-; by split; [apply grows_refl|]|].
  destruct (_ <=? _); [injection H as <- <-; by split; [apply grows_refl|]|]. apply bind_Ok in H as (inputs & _ & H).
  destruct inputs as [inputs|]; injection H as <- <-; intros Hn; [|by split; [apply grows_refl|]]. cbn. split.
  - eapply grows_put; [done..|]. by left.
  - apply no_result_app; [done|]. by intros k res ?%list_elem_of_singleton.
Qed.

Lemma startStages_grows max j order l l' err : startStages max j l order = Ok (l', err) -> no_result (ln_effects l) ->
  grows nothing (ln_job l) (ln_job l') /\ no_result (ln_effects l').
Proof.
  revert l. induction order as [|id order IH]; intros l; cbn.
  - intros [= <- <-] ?. by split; [apply grows_refl|].
  - intros ([l1 e] & H1 & H)%bind_Ok Hn. destruct (startStage_grows _ _ _ _ _ _ H1 Hn) as [G1 N1].
    destruct e; [by injection H as <- <-|]. destruct (IH _ H N1) as [G N]. split; [by eapply grows_trans|done].
Qed.

Lemma failJob_frame s j err s' es : failJob s j err = (s', es) ->
  no_result es /\ forall k job, dag_jobs s' !! k = Some job -> k <> j /\ dag_jobs s !! k = Some job.
Proof.
  unfold failJob. destruct (dag_jobs s !! j) as [job|] eqn:Hj; intros [= <- <-]; cbn.
  - split; [intros k res; rewrite !elem_of_cons, elem_of_nil; naive_solver|]. intros k job'.
    rewrite lookup_delete_Some. naive_solver.
  - split; [by intros k res ?%not_elem_of_nil|]. intros k job' Hk. split; [congruence|done].
Qed.

Lemma startOrFail_frame s j ctx job effects s' es : startOrFail s j ctx job effects = Ok (s', es) -> no_result effects ->
  no_result es /\ forall k job', dag_jobs s' !! k = Some job' ->
    (k = j /\ grows nothing job job') \/ (k <> j /\ dag_jobs s !! k = Some job').
Proof.
  unfold startOrFail. intros ([l err] & Hl & H)%bind_Ok Hn.
  assert (grows nothing job (ln_job l) /\ no_result (ln_effects l)) as [G N].
  { unfold startReadyStages in Hl. destruct ctx; [injection Hl as <- <-; by split; [apply grows_refl|]|].
    by eapply (startStages_grows _ _ _ (mkLaunch job _ effects)). }
  destruct err as [err|].
  - destruct (failJob _ j err) as [s1 es1] eqn:Ef. injection H as <- <-. apply failJob_frame in Ef as [N1 Hf].
    split; [by apply no_result_app|]. intros k job' [Hne Hk]%Hf. right. split; [done|]. cbn in Hk.
    by rewrite lookup_insert_ne in Hk.
  - injection H as <- <-. split; [done|]. intros k job'. cbn. rewrite lookup_insert_Some.
    intros [[<- <-]|[? Hk]]; [by left|by right].
Qed.

(** ** Events *)

(** The event reports [o] for a pending task of job [j]. *)
Definition reports (s : dag) (e : schedulerEvent) (j : JobID) (id : StageID) (p : PartitionID) (o : TaskOutput) : Prop :=
  exists r ctx ctx' job st task, e = taskSucceeded r ctx ctx' /\ ts_JobID r = j /\ ts_StageID r = id /\
    ts_PartitionID r = p /\ ts_Output r = o /\ pendingTask s j id (ts_Attempt r) p = Some (job, st, task).

(** The job state that an event leaves comes from the one before, or from the plan
    of a submission. *)
Definition grown (s : dag) (e : schedulerEvent) (j : JobID) (job' : jobState) : Prop :=
  (exists job, dag_jobs s !! j = Some job /\ grows (reports s e j) job job') \/
  (exists ctx g a p tasks job, e = jobSubmitted j ctx g a /\ planJob s g a = Some (Ok (p, tasks)) /\
     newJob a p tasks = Ok job /\ grows nothing job job').

Lemma grown_same s e j job : dag_jobs s !! j = Some job -> grown s e j job.
Proof. intros H. left. exists job. split; [done|apply grows_refl]. Qed.

Lemma failJob_grown s e j err s' es : failJob s j err = (s', es) ->
  no_result es /\ forall k job, dag_jobs s' !! k = Some job -> grown s e k job.
Proof. intros [N H]%failJob_frame. split; [done|]. intros k job [_ Hk]%H. by apply grown_same. Qed.

Lemma submitted_frame s j ctx g a s' es : handleJobSubmitted s j ctx g a = Some (Ok (s', es)) ->
  no_result es /\ forall k job, dag_jobs s' !! k = Some job -> grown s (jobSubmitted j ctx g a) k job.
Proof.
  assert (Hrej : forall e, no_result [Respond j (Err e)] /\
    forall k job, dag_jobs s !! k = Some job -> grown s (jobSubmitted j ctx g a) k job).
  { intros e. split; [by intros k res ?%list_elem_of_singleton|]. intros k job. apply grown_same. }
  unfold handleJobSubmitted, rejectJob. destruct (dag_stopping s); [intros [= <- <-]; apply Hrej|].
  destruct (negb _); [intros [= <- <-]; apply Hrej|].
  destruct (planJob s g a) as [[[p tasks]|e]|] eqn:Ep; [|destruct (is_panic e); [done|intros [= <- <-]; apply Hrej]|done].
  intros H. injection H as (job & Hj & H)%bind_Ok. apply startOrFail_frame in H as [N H]; [|by intros k res ?%list_elem_of_singleton].
  split; [done|]. intros k job' [[-> G]|[_ Hk]]%H; [|by apply grown_same]. right. by exists ctx, g, a, p, tasks, job.
Qed.

(** The last report of the result stage of job [j]. *)
Definition completes (s : dag) (e : schedulerEvent) (j : JobID) (res : JobResult) : Prop :=
  exists r ctx ctx' job st task, e = taskSucceeded r ctx ctx' /\ ts_JobID r = j /\
    pendingTask s j (ts_StageID r) (ts_Attempt r) (ts_PartitionID r) = Some (job, st, task) /\
    ts_StageID r = js_resultStageID job /\ sg_remaining st = 1 /\
    res = mergeTaskOutputs (act_Kind (js_action job)) (<[ts_PartitionID r := ts_Output r]> (sg_outputs st)).

Lemma succeeded_frame s r ctx ctx' s' es : handleTaskSucceeded s r ctx ctx' = Ok (s', es) ->
  let e := taskSucceeded r ctx ctx' in
  (forall j res, Respond j (Ok res) ∈ es -> completes s e j res) /\
  forall k job, dag_jobs s' !! k = Some job -> grown s e k job.
Proof.
  intros H. cbv zeta. unfold handleTaskSucceeded in H.
  assert (Hno : forall (es : list effect) P, no_result es -> forall j res, Respond j (Ok res) ∈ es -> P j res)
    by (intros es0 P N j res Hin; by destruct (N j res)).
  destruct (pendingTask _ _ _ _ _) as [[[job st] task]|] eqn:Hp.
  2: { injection H as <- <-. split; [by intros j res ?%not_elem_of_nil|]. intros k job. apply grown_same. }
  pose proof Hp as (Hj & Hst & _)%pendingTask_Some.
  destruct ctx as [err|].
  { injection H as H. apply (failJob_grown _ (taskSucceeded r (Some err) ctx')) in H as [N G]. split; [by apply Hno|done]. }
  destruct (ValidateFor _ _) as [u|err].
  2: { injection H as H. apply (failJob_grown _ (taskSucceeded r None ctx')) in H as [N G]. split; [by apply Hno|done]. }
  set (job1 := if bool_decide (st_Kind (sg_stage st) = StageShuffleMap) then with_runID _ job else job) in H.
  assert (H1 : js_action job1 = js_action job /\ js_resultStageID job1 = js_resultStageID job /\ js_stages job1 = js_stages job)
    by by unfold job1; case_bool_decide.
  assert (Hrep : forall st2, sg_stage st2 = sg_stage st -> sg_tasks st2 = sg_tasks st ->
    sg_outputs st2 = <[ts_PartitionID r := ts_Output r]> (sg_outputs st) ->
    grows (reports s (taskSucceeded r None ctx') (ts_JobID r)) job (with_stages (insert (ts_StageID r) st2) job1)).
  { intros st2 Es Et Eo. destruct H1 as (A & R & S). split; [done|done|]. intros id st'. cbn. rewrite S, lookup_insert_Some.
    intros [[<- <-]|[_ Hst2]]; [|exists st'; split_and!; try done; by left]. exists st. split_and!; try done.
    intros p o. rewrite Eo, lookup_insert_Some. intros [[<- <-]|[_ Ho]]; [right|by left]. by exists r, None, ctx', job, st, task. }
  destruct (Z.eqb_spec (sg_remaining (addOutput (ts_PartitionID r) (ts_Output r) st)) 0) as [Hz|Hz]; cbn [negb] in H.
  2: { injection H as <- <-. split; [by intros j res ?%not_elem_of_nil|]. intros k job'. cbn. rewrite lookup_insert_Some.
       intros [[<- <-]|[_ Hk]]; [|by apply grown_same]. left. exists job. split; [done|]. by apply Hrep. }
  destruct (N.eqb_spec (ts_StageID r) (js_resultStageID (with_stages (insert (ts_StageID r)
    (with_status stageSucceeded (addOutput (ts_PartitionID r) (ts_Output r) st))) job1))) as [Er|Er]; cbn [negb] in H.
  - injection H as <- <-. cbn in Er. split.
    + intros j res. rewrite !elem_of_cons, elem_of_nil. intros [?|[[= -> ->]|[]]]; [done|].
      exists r, None, ctx', job, st, task. destruct H1 as (A & R & _). cbn in Hz |- *. rewrite A. split_and!; try done; [congruence|lia].
    + intros k job'. cbn. rewrite lookup_delete_Some. intros [_ Hk]. by apply grown_same.
  - apply startOrFail_frame in H as [N H]; [|by intros k res ?%not_elem_of_nil]. split; [by apply Hno|].
    intros k job' [[-> G]|[_ Hk]]%H; [|by apply grown_same]. left. exists job. split; [done|].
    eapply grows_trans; [|exact G]. by apply Hrep.
Qed.

Lemma recovery_grows max j job st r job' es : prepareRecovery max j job st r = Ok (inr (job', es)) ->
  js_stages job !! tf_StageID r = Some st -> grows nothing job job' /\ no_result es.
Proof.
  unfold prepareRecovery. intros H Hst. destruct (st_ParentIDs (sg_stage st)) as [|parentID [|? ?]]; [done| |done].
  case_in H; [done|]. destruct (js_stages job !! parentID) as [parent|] eqn:Hp; [|done].
  repeat (case_in H; try done); [|by destruct (_ =? _) in E4]. injection H as <- <-.
  split; [|intros k res; rewrite !elem_of_cons, elem_of_nil; naive_solver]. split; [done|done|]. intros id st'. cbn.
  rewrite !lookup_insert_Some. intros [[<- <-]|[_ [[<- <-]|[_ Hid]]]].
  - exists st. by split_and!.
  - exists parent. by split_and!.
  - exists st'. split_and!; try done. by left.
Qed.

Lemma failed_frame s r ctx ctx' s' es : handleTaskFailed s r ctx ctx' = Ok (s', es) ->
  no_result es /\ forall k job, dag_jobs s' !! k = Some job -> grown s (taskFailed r ctx ctx') k job.
Proof.
  unfold handleTaskFailed. intros H. destruct (pendingTask _ _ _ _ _) as [[[job st] task]|] eqn:Hp.
  2: { injection H as <- <-. split; [by intros j res ?%not_elem_of_nil|]. intros k job. apply grown_same. }
  apply pendingTask_Some in Hp as (Hj & Hst & _). destruct ctx as [err|]; [injection H as H; by eapply failJob_grown|].
  case_bool_decide; [|injection H as H; by eapply failJob_grown]. apply bind_Ok in H as ([err|[job' es1]] & Hr & H).
  { injection H as H. by eapply failJob_grown. }
  destruct (recovery_grows _ _ _ _ _ _ _ Hr Hst) as [G N]. apply startOrFail_frame in H as [N' H]; [|done].
  split; [done|]. intros k job2 [[-> G2]|[_ Hk]]%H; [|by apply grown_same]. left. exists job. split; [done|].
  apply grows_nothing. by eapply grows_trans.
Qed.

Lemma finished_frame s j id attempt err ctx s' es : handleTaskSetFinished s j id attempt err ctx = (s', es) ->
  no_result es /\ forall k job, dag_jobs s' !! k = Some job -> grown s (taskSetFinished j id attempt err ctx) k job.
Proof.
  unfold handleTaskSetFinished. intros H.
  assert (Hsame : no_result [] /\ forall k job, dag_jobs s !! k = Some job -> grown s (taskSetFinished j id attempt err ctx) k job)
    by (split; [by intros k res ?%not_elem_of_nil|intros k job; apply grown_same]).
  destruct (dag_jobs s !! j) as [job|]; [|by injection H as <- <-].
  destruct (js_stages job !! id); [|by injection H as <- <-]. destruct (_ || _); [by injection H as <- <-|].
  by eapply failJob_grown.
Qed.

Lemma stopping_frame s s' es : handleStopping s = (s', es) ->
  no_result es /\ forall k job, dag_jobs s' !! k = Some job -> dag_jobs s !! k = Some job.
Proof.
  unfold handleStopping. set (s0 := mkDag _ _ _ _ _ true).
  assert (H : forall ids s1 es1, no_result es1 ->
    let '(s2, es2) := foldl (fun r jobID => let '(s, es) := failJob r.1 jobID ErrSchedulerClosed in (s, r.2 ++ es)) (s1, es1) ids in
    no_result es2 /\ forall k job, dag_jobs s2 !! k = Some job -> dag_jobs s1 !! k = Some job).
  { intros ids. induction ids as [|j ids IH]; intros s1 es1 N; cbn [foldl]; [done|]. cbn [fst snd].
    destruct (failJob s1 j ErrSchedulerClosed) as [s2 es2] eqn:E. apply failJob_frame in E as [N2 Hf].
    specialize (IH s2 (es1 ++ es2) (no_result_app _ _ N N2)).
    destruct (foldl _ (s2, es1 ++ es2) ids) as [s3 es3]. destruct IH as [N3 H3]. split; [done|].
    intros k job Hk%H3. by apply Hf. }
  specialize (H (map_to_list (dag_jobs s0)).*1 s0 [] ltac:(by intros k res ?%not_elem_of_nil)).
  destruct (foldl _ (s0, []) _) as [s2 es2]. intros [= <- <-]. destruct H as [N H]. split; [|exact H].
  apply no_result_app; [done|]. by intros k res ?%list_elem_of_singleton.
Qed.

(** What any event leaves. *)
Lemma event_frame s e s' es : handleEvent s e = Some (Ok (s', es)) ->
  (forall j res, Respond j (Ok res) ∈ es -> completes s e j res) /\
  forall k job, dag_jobs s' !! k = Some job -> grown s e k job.
Proof.
  assert (Hno : forall P, no_result es -> forall j res, Respond j (Ok res) ∈ es -> P j res)
    by (intros P N j res Hin; by destruct (N j res)).
  destruct e; cbn [handleEvent]; intros H.
  - apply submitted_frame in H as [N G]. split; [by apply Hno|done].
  - injection H as H. by apply succeeded_frame in H.
  - injection H as H. apply failed_frame in H as [N G]. split; [by apply Hno|done].
  - injection H as H. destruct (handleTaskSetFinished _ _ _ _ _ _) as [s1 es1] eqn:E. injection H as -> ->.
    apply finished_frame in E as [N G]. split; [by apply Hno|done].
  - injection H as H. destruct (failJob _ _ _) as [s1 es1] eqn:E. injection H as -> ->.
    apply (failJob_grown _ (jobCanceled jobID err)) in E as [N G]. split; [by apply Hno|done].
  - injection H as H. destruct (handleStopping _) as [s1 es1] eqn:E. injection H as -> ->.
    apply stopping_frame in E as [N G]. split; [by apply Hno|]. intros k job Hk%G. by apply grown_same.
Qed.
