(* ===== verification/Deployment.v ===== *)
(** * Deployment: a job scheduler and the attempts it hears from

    The event loop of the DAG scheduler in a world where successes are reported
    only of attempts that [RunTask] made for a task set that was started, with a
    shuffle store that may lose what was published but never alters it.  The
    invariant traces every output the scheduler holds to the attempts behind it. *)

From S2P Require Import Prelude Bytes Plan Lineage Stages Planner PlannerProofs TaskGenerator Shuffle Reports.
From S2P Require Import Runtime TextSource Iterator IteratorProofs Runner RunnerFuel MapTasks.
From S2P Require Import Fifo FifoSystem Dag DagProofs DagEvents DagTheorems DagFrame.
#[local] Open Scope Z_scope.

(** ** What newJob sets up *)

Lemma addTasks_Ok tasks j j' : addTasks j tasks = Ok j' ->
  js_action j' = js_action j /\ js_resultStageID j' = js_resultStageID j /\
  forall id, js_stages j' !! id = append_tasks (tasks_with id tasks) <$> js_stages j !! id.
Proof.
  revert j. induction tasks as [|t tasks IH]; intros j; cbn.
  - intros [= <-]. split_and!; try done. intros id. destruct (js_stages j !! id) as [st|]; [|done]. cbn. f_equal.
    destruct st. unfold append_tasks. cbn. by rewrite app_nil_r.
  - destruct (js_stages j !! t_StageID t) as [st|] eqn:Hst; [|done]. intros (Ea & Er & Hj)%IH.
    split_and!; try done. intros id. rewrite Hj. cbn. destruct (decide (t_StageID t = id)) as [<-|Hne].
    + rewrite lookup_insert_eq, Hst, bool_decide_eq_true_2 by done. cbn. f_equal.
      unfold append_tasks. cbn. by rewrite <- app_assoc.
    + by rewrite lookup_insert_ne, bool_decide_eq_false_2 by done.
Qed.

Lemma addStages_stage sts j id st : js_stages (foldl addStage j sts) !! id = Some st ->
  js_stages j !! id = Some st \/ exists s, s ∈ sts /\ st_ID s = id /\ st = newStageState s.
Proof.
  revert j. induction sts as [|s sts IH]; intros j; cbn; [by left|].
  intros [H|(s' & Hs' & H)]%IH; [|right; exists s'; split; [by right|done]].
  cbn in H. apply lookup_insert_Some in H as [[<- <-]|[_ H]]; [|by left]. right. exists s. split; [by left|done].
Qed.

Lemma addStages_action sts j : js_action (foldl addStage j sts) = js_action j.
Proof. revert j. induction sts as [|s sts IH]; intros j; cbn; [done|]. by rewrite IH. Qed.

(** A new job has the action of the submission, and for each stage of the plan its
    tasks, with no outputs. *)
Lemma newJob_stage a p tasks job : newJob a p tasks = Ok job -> NoDup (st_ID <$> sp_Stages p) ->
  GenerateTasks p = Ok tasks ->
  js_action job = a /\ forall id st, js_stages job !! id = Some st ->
    sg_stage st ∈ sp_Stages p /\ st_ID (sg_stage st) = id /\ sg_outputs st = ∅ /\
    exists k, sg_tasks st = (fun i => newTask (sg_stage st) (k + i) i) <$> seq 0 (Z.to_nat (st_NumPartitions (sg_stage st))).
Proof.
  unfold newJob. intros (Ha & _ & Hst)%addTasks_Ok Hids Hg. split; [by rewrite Ha, addStages_action|].
  intros id st. rewrite Hst. intros (st' & Hst' & ->)%fmap_Some.
  apply addStages_stage in Hst' as [Hst'|(s & Hs & <- & ->)]; [cbn in Hst'; by rewrite lookup_empty in Hst'|].
  unfold GenerateTasks in Hg. apply bind_Ok in Hg as (n & _ & Hg). apply fail_if_Ok in Hg as [_ [= <-]].
  cbn. split_and!; try done. rewrite tasks_with_stage. by apply appendStages_stage.
Qed.

(** Planning depends on the planner's lookup only. *)
Lemma planJob_planner s s' g a : dag_planner s = dag_planner s' -> planJob s g a = planJob s' g a.
Proof. unfold planJob. by intros ->. Qed.

Lemma handleStopping_planner s : dag_planner (handleStopping s).1 = dag_planner s.
Proof.
  unfold handleStopping. set (s0 := mkDag _ _ _ _ _ true).
  assert (H : forall ids s1 es1, dag_planner (foldl (fun r jobID =>
    let '(s, es) := failJob r.1 jobID ErrSchedulerClosed in (s, r.2 ++ es)) (s1, es1) ids).1 = dag_planner s1).
  { intros ids. induction ids as [|j ids IH]; intros s1 es1; cbn [foldl]; [done|]. cbn [fst snd]. unfold failJob at 2.
    destruct (dag_jobs s1 !! j); by rewrite IH. }
  specialize (H (map_to_list (dag_jobs s0)).*1 s0 []). by destruct (foldl _ _ _).
Qed.

Section deployment.
Context {SS : ShuffleStore} {SR : StoreReads SS}.

Notation world := (runtime store).
Notation rt_reads w := (reads (rt_store w)).

(** The files and functions of every process. *)
Variable files : string -> result (list N).
Variable registry : FunctionRegistry.

Definition runs_job (r : LocalRunner) : Prop := sources r = files /\ lr_registry r = Some registry.

(** ** The store over time *)

(** A bucket that could be read is read the same, or no longer. *)
Definition unaltered (s s' : view) : Prop :=
  forall o p l, bucket s o p = (l, None) -> bucket s' o p = (l, None) \/ (bucket s' o p).2 <> None.

Definition later (past : list view) (s : view) : Prop := Forall (fun s' => unaltered s' s) past.

(** ** Where an output comes from *)

(** [produced job past id t o]: an attempt of the task [t] of stage [id] returned
    [o], in a state of the store among [past]; its inputs were themselves produced
    for the parent of the stage, one for each of its tasks. *)
Inductive produced (job : jobState) (past : list view) : StageID -> Task -> TaskOutput -> Prop :=
  | produced_by id t o st e r c permit w w' before :
      js_stages job !! id = Some st -> te_Task e = t -> runs_job r ->
      fed job before (st_ParentIDs (sg_stage st)) (te_ShuffleInputs e) -> later before (rt_reads w) ->
      returned r c permit e w (Ok o) w' -> rt_reads w' ∈ past -> produced job past id t o
with fed (job : jobState) (past : list view) : list StageID -> option InputSnapshot -> Prop :=
  | fed_source : fed job past [] None
  | fed_shuffle parent rest st i :
      js_stages job !! parent = Some st ->
      Forall2 (fun t m => exists o, to_ShuffleOutput o = Some m /\ produced job past parent t o)
        (sg_tasks st) (is_Outputs i) ->
      fed job past (parent :: rest) (Some i).

Lemma produced_mono job past past' id t o : past ⊆ past' -> produced job past id t o -> produced job past' id t o.
Proof. intros H []. econstructor; try done. by apply H. Qed.

(** The output of a partition. *)
Definition made (job : jobState) (past : list view) (id : StageID) (p : PartitionID) (o : TaskOutput) : Prop :=
  exists st t, js_stages job !! id = Some st /\ 0 <= p /\ sg_tasks st !! Z.to_nat p = Some t /\ produced job past id t o.

Lemma made_mono job past past' id p o : past ⊆ past' -> made job past id p o -> made job past' id p o.
Proof. intros H (st & t & ? & ? & ? & ?). exists st, t. split_and!; try done. by eapply produced_mono. Qed.

(** The answer of a job: the merge of one output for each task of its result stage. *)
Definition answered (job : jobState) (past : list view) (res : JobResult) : Prop :=
  exists st outputs, js_stages job !! js_resultStageID job = Some st /\
    res = mergeTaskOutputs (act_Kind (js_action job)) outputs /\ size outputs = length (sg_tasks st) /\
    forall i t, sg_tasks st !! i = Some t ->
      exists o, outputs !! Z.of_nat i = Some o /\ produced job past (js_resultStageID job) t o.

(** ** Steps *)

(** [dp_past] are the states of the store in which attempts returned;
    [dp_started] the task sets, each with the past at its start; [dp_jobs] what
    was submitted. *)
Record deployment := mkDeployment {
  dp_world : DagTheorems.world;
  dp_past : list view;
  dp_started : list (TaskSet * list view);
  dp_jobs : gmap JobID (option RDDGraph * ActionSpec) }.

(** The report is of an attempt of a task of a started set, which ran in a store
    that had altered nothing of what was published when the set was started. *)
Definition attempted (d : deployment) (rep : TaskAttemptSuccess) (past' : list view) : Prop :=
  exists set past e r c permit w w', (set, past) ∈ dp_started d /\
    te_Task e ∈ tset_Tasks set /\ te_JobID e = tset_JobID set /\ te_Attempt e = ts_Attempt rep /\
    te_ShuffleInputs e = tset_ShuffleInputs set /\ ts_JobID rep = tset_JobID set /\
    ts_StageID rep = tset_StageID set /\ ts_PartitionID rep = t_PartitionID (te_Task e) /\
    runs_job r /\ later past (rt_reads w) /\ returned r c permit e w (Ok (ts_Output rep)) w' /\ rt_reads w' ∈ past'.

Definition submitted_jobs (e : schedulerEvent) (jobs : gmap JobID (option RDDGraph * ActionSpec)) :=
  match e with jobSubmitted j _ g a => <[j := (g, a)]> jobs | _ => jobs end.

(** Failures, cancellations and ends of task sets may be reported at any time. *)
Inductive deploy_step (d : deployment) : deployment -> Prop :=
  | deploy_event e s es past' :
      event_ok (dp_world d) e -> handleEvent (w_dag (dp_world d)) e = Some (Ok (s, es)) ->
      dp_past d ⊆ past' ->
      (forall rep ctx ctx', e = taskSucceeded rep ctx ctx' -> attempted d rep past') ->
      deploy_step d (mkDeployment
        (mkWorld s (submitted_by e ∪ w_submitted (dp_world d)) (w_log (dp_world d) ++ es))
        past' (dp_started d ++ ((fun set => (set, past')) <$> starts es)) (submitted_jobs e (dp_jobs d))).

Inductive deployed : deployment -> Prop :=
  | deploy_start taskScheduler options s :
      NewDAGScheduler (Some (registryLookup registry)) taskScheduler options = Ok s ->
      deployed (mkDeployment (mkWorld s ∅ []) [] [] ∅)
  | deploy_next d d' : deployed d -> deploy_step d d' -> deployed d'.

(** ** The invariant *)

(** The jobs that are planned with these functions. *)
Definition job_planner : dag := mkDag 0 (Some (registryLookup registry)) true ∅ 0%N false.

Definition planned (jobs : gmap JobID (option RDDGraph * ActionSpec)) (j : JobID) (job : jobState) : Prop :=
  exists g a p tasks, jobs !! j = Some (g, a) /\ graph_ok g /\
    planJob job_planner g a = Some (Ok (p, tasks)) /\ newJob a p tasks = Ok job.

Lemma planned_unique jobs j job job' : planned jobs j job -> planned jobs j job' -> job' = job.
Proof.
  intros (g & a & p & tasks & Hj & _ & Hp & Hn) (g' & a' & p' & tasks' & Hj' & _ & Hp' & Hn'). rewrite Hj in Hj'. injection Hj' as <- <-.
  rewrite Hp in Hp'. injection Hp' as <- <-. congruence.
Qed.

(** What a planned job looks like. *)
Lemma planned_job jobs j job : planned jobs j job -> exists g a p tasks, jobs !! j = Some (Some g, a) /\
  planJob job_planner (Some g) a = Some (Ok (p, tasks)) /\ js_action job = a /\
  (exists c cs m, job_is job m c cs) /\
  forall id st, js_stages job !! id = Some st ->
    sg_stage st ∈ sp_Stages p /\ st_ID (sg_stage st) = id /\ sg_outputs st = ∅ /\
    exists k, sg_tasks st = (fun i => newTask (sg_stage st) (k + i) i) <$> seq 0 (Z.to_nat (st_NumPartitions (sg_stage st))).
Proof.
  intros (g & a & p & tasks & Hj & Hg & Hp & Hn). destruct (planJob_spec job_planner g a Hg) as (r & Hr & Hplan).
  rewrite Hp in Hr. injection Hr as <-. destruct Hplan as (g' & -> & Hok & Hv & Ht & _).
  destruct (newJob_spec g' a p tasks 1 0%N 0%N ltac:(lia) Hok Hv Ht) as (job' & m & c & cs & Hn' & His & _).
  rewrite Hn in Hn'. injection Hn' as <-.
  destruct (newJob_stage a p tasks job Hn) as [Ha Hst]; [|done|].
  { destruct Hok as (_ & l & sts & s & _ & _ & Hwf & _). apply NoDup_alt. intros i k x. rewrite !list_lookup_fmap.
    intros (si & Hi & ->)%fmap_Some (sk & Hk & E)%fmap_Some.
    destruct (Hwf _ _ Hi) as [Ei _ _ _], (Hwf _ _ Hk) as [Ek _ _ _]. lia. }
  exists g', a, p, tasks. split_and!; try done. by exists c, cs, m.
Qed.

Record deployment_inv (d : deployment) : Prop := {
  dv_reachable : dag_reachable (dp_world d);
  dv_planner : dag_planner (w_dag (dp_world d)) = Some (registryLookup registry);
  dv_submitted j : is_Some (dp_jobs d !! j) -> j ∈ w_submitted (dp_world d);
  dv_active j job : dag_jobs (w_dag (dp_world d)) !! j = Some job ->
    exists job0, planned (dp_jobs d) j job0 /\ grows (made job0 (dp_past d)) job0 job;
  dv_started set past : (set, past) ∈ dp_started d -> exists job0 st, planned (dp_jobs d) (tset_JobID set) job0 /\
    js_stages job0 !! tset_StageID set = Some st /\ tset_Tasks set = sg_tasks st /\
    fed job0 past (st_ParentIDs (sg_stage st)) (tset_ShuffleInputs set);
  dv_answers j res : Respond j (Ok res) ∈ w_log (dp_world d) ->
    exists job0, planned (dp_jobs d) j job0 /\ answered job0 (dp_past d) res }.

(** A task of a planned stage is the one of its partition. *)
Lemma planned_task jobs j job id st t : planned jobs j job -> js_stages job !! id = Some st -> t ∈ sg_tasks st ->
  0 <= t_PartitionID t /\ sg_tasks st !! Z.to_nat (t_PartitionID t) = Some t.
Proof.
  intros (g & a & p & tasks & _ & _ & _ & _ & H)%planned_job Hst [i Hi]%list_elem_of_lookup.
  destruct (H id st Hst) as (_ & _ & _ & k & Hk). pose proof Hi as Hi'. rewrite Hk, list_lookup_fmap in Hi'.
  apply fmap_Some in Hi' as (i' & [-> _]%lookup_seq & ->). cbn. split; [lia|]. by rewrite Nat2Z.id.
Qed.

Lemma answered_mono job past past' res : past ⊆ past' -> answered job past res -> answered job past' res.
Proof.
  intros H (st & outputs & ? & ? & ? & Ho). exists st, outputs. split_and!; try done.
  intros i t (o & ? & ?)%Ho. exists o. split; [done|]. by eapply produced_mono.
Qed.

(** The last report of a stage completes its outputs. *)
Lemma last_report s j id attempt p job st task o : dag_inv s -> pendingTask s j id attempt p = Some (job, st, task) ->
  sg_remaining st = 1 ->
  size (<[p := o]> (sg_outputs st)) = length (sg_tasks st) /\
  forall i, (i < length (sg_tasks st))%nat -> is_Some (<[p := o]> (sg_outputs st) !! Z.of_nat i).
Proof.
  intros Hd (Hj & Hst & _ & _ & Hp & Ht%lookup_lt_Some & _ & Hn)%pendingTask_Some Hone.
  destruct (di_jobs _ Hd _ _ Hj) as [Hinv _]. specialize (Hinv _ _ Hst).
  assert (Hsize : size (<[p := o]> (sg_outputs st)) = length (sg_tasks st)).
  { rewrite map_size_insert_None by done. pose proof (sgi_remaining _ _ _ _ _ _ Hinv). lia. }
  split; [done|]. intros i Hi. apply (full_map _ (length (sg_tasks st))); [|done|done].
  intros q o'. rewrite lookup_insert_Some. intros [[<- _]|[_ Hq]]; [lia|by eapply outputs_range].
Qed.

(** A report that is of an attempt gives an output that was produced. *)
Lemma attempted_made d rep past' job0 : deployment_inv d -> attempted d rep past' ->
  planned (dp_jobs d) (ts_JobID rep) job0 -> made job0 past' (ts_StageID rep) (ts_PartitionID rep) (ts_Output rep).
Proof.
  intros H (set & past & e & r & c & permit & w & w' & Hset & Ht & _ & _ & Hin & Ej & Es & Ep & Hr & Hl & Hret & Hw') Hp.
  destruct (dv_started _ H _ _ Hset) as (job & st & Hpl & Hst & Etasks & Hfed). rewrite <- Ej in Hpl.
  pose proof (planned_unique _ _ _ _ Hp Hpl) as ->. rewrite Etasks in Ht.
  destruct (planned_task _ _ _ _ _ _ Hpl Hst Ht) as [H0 Hi]. rewrite Es, Ep.
  exists st, (te_Task e). split_and!; try done. econstructor; try done. by rewrite Hin.
Qed.

(** The inputs of a started set come from the accepted outputs of its parent. *)
Lemma inputs_fed job0 past j job st inputs : grows (made job0 past) job0 job ->
  (forall id st, js_stages job0 !! id = Some st -> sg_outputs st = ∅) ->
  inputs_from j job st inputs -> fed job0 past (st_ParentIDs (sg_stage st)) inputs.
Proof.
  intros G Hempty Hin. unfold inputs_from in Hin. destruct (st_ParentIDs (sg_stage st)) as [|parent rest]; [subst; constructor|].
  destruct Hin as (ps & i & Hps & _ & -> & _ & _ & _ & _ & Hlen & Hout).
  destruct (gr_stages _ _ _ G _ _ Hps) as (ps0 & Hps0 & _ & Etasks & Ho). econstructor; [exact Hps0|]. rewrite Etasks in Hlen.
  apply Forall2_same_length_lookup. split; [done|]. intros k t m Ht Hm. destruct (Hout _ _ Hm) as (o & Hk & Hmo).
  exists o. split; [done|]. destruct (Ho _ _ Hk) as [Hk0|(st' & t' & Hst' & _ & Ht' & Hprod)].
  - by rewrite (Hempty _ _ Hps0), lookup_empty in Hk0.
  - rewrite Hps0 in Hst'. injection Hst' as <-. rewrite Nat2Z.id in Ht'. congruence.
Qed.

(** ** Steps keep it *)

Section step.
Variables (d : deployment) (e : schedulerEvent) (s : dag) (es : list effect) (past' : list view).
Hypothesis (H : deployment_inv d) (He : event_ok (dp_world d) e).
Hypothesis (Hev : handleEvent (w_dag (dp_world d)) e = Some (Ok (s, es))) (Hpast : dp_past d ⊆ past').
Hypothesis (Hrep : forall rep ctx ctx', e = taskSucceeded rep ctx ctx' -> attempted d rep past').

Lemma step_planned j job : planned (dp_jobs d) j job -> planned (submitted_jobs e (dp_jobs d)) j job.
Proof.
  intros (g & a & p & tasks & Hj & Hrest). exists g, a, p, tasks. split; [|done]. destruct e; cbn; try done.
  rewrite lookup_insert_ne; [done|]. intros ->. destruct He as [_ [Hn _]]. by destruct Hn; eapply dv_submitted; eauto.
Qed.

Lemma step_planner : dag_planner s = Some (registryLookup registry).
Proof.
  rewrite <- (dv_planner _ H). pose proof (dag_reachable_inv _ (dv_reachable _ H)) as Hw.
  destruct (event_job e) as [j|] eqn:Ej.
  - destruct (handleEvent_Ok _ e j _ _ Hw He Ej Hev) as (act & Hh & _).
    apply (hd_config _ _ _ _ _ Hh).
  - destruct e; try done. cbn in Hev. injection Hev as E. pose proof (handleStopping_planner (w_dag (dp_world d))) as Hp.
    by rewrite E in Hp.
Qed.

Lemma step_grown j job : grown (w_dag (dp_world d)) e j job ->
  exists job0, planned (submitted_jobs e (dp_jobs d)) j job0 /\ grows (made job0 past') job0 job.
Proof.
  intros [(job1 & Hj & G)|(ctx & g & a & p & tasks & job0 & E & Hp & Hn & G)].
  - destruct (dv_active _ H _ _ Hj) as (job0 & Hpl & G0). exists job0. split; [by apply step_planned|].
    eapply grows_compose.
    + eapply grows_mono; [|exact G0]. intros. by eapply made_mono.
    + eapply grows_mono; [|exact G]. intros id q o (rep & ctx & ctx' & job' & st & task & E & Er & <- & <- & <- & _).
      eapply attempted_made; [done|by eapply Hrep|]. by rewrite Er.
  - exists job0. split; [|by apply grows_nothing]. exists g, a, p, tasks. rewrite E. cbn. rewrite lookup_insert_eq.
    split; [done|]. split; [by destruct He as [_ Hg]; rewrite E in Hg; apply Hg|]. split; [|done].
    rewrite <- Hp. apply planJob_planner. by rewrite (dv_planner _ H).
Qed.

Lemma step_started set : set ∈ starts es -> exists job0 st,
  planned (submitted_jobs e (dp_jobs d)) (tset_JobID set) job0 /\
  js_stages job0 !! tset_StageID set = Some st /\ tset_Tasks set = sg_tasks st /\
  fed job0 past' (st_ParentIDs (sg_stage st)) (tset_ShuffleInputs set).
Proof.
  intros Hin. pose proof (dag_reachable_inv _ (dv_reachable _ H)) as Hw.
  destruct (event_job e) as [j|] eqn:Ej.
  - destruct (handleEvent_Ok _ e j _ _ Hw He Ej Hev) as (act & Hh & _).
    destruct (hd_starts _ _ _ _ _ Hh) as [[E _]|(set' & E & _ & _ & _ & Ejob & job & st & Hj & Hst & _ & _ & Etasks & Hfrom)];
      rewrite E in Hin; [by apply not_elem_of_nil in Hin|]. apply list_elem_of_singleton in Hin as ->.
    destruct (step_grown j job) as (job0 & Hpl & G); [by eapply event_frame|].
    destruct (gr_stages _ _ _ G _ _ Hst) as (st0 & Hst0 & Es & Et & _). exists job0, st0. rewrite Ejob.
    split; [done|]. split; [done|]. split; [congruence|]. rewrite <- Es. eapply inputs_fed; [exact G| |exact Hfrom].
    intros id st1 Hst1. destruct (planned_job _ _ _ Hpl) as (g & a & p & tasks & _ & _ & _ & _ & Hstages). by eapply Hstages.
  - destruct e; try done. cbn in Hev. injection Hev as E.
    destruct (handleStopping_spec _ (wi_dag _ Hw)) as (s2 & es2 & E2 & _ & _ & _ & _ & _ & _ & Hs).
    rewrite E in E2. injection E2 as <- <-. rewrite Hs in Hin. by apply not_elem_of_nil in Hin.
Qed.

Lemma step_answers j res : Respond j (Ok res) ∈ es ->
  exists job0, planned (submitted_jobs e (dp_jobs d)) j job0 /\ answered job0 past' res.
Proof.
  intros Hin. destruct (event_frame _ _ _ _ Hev) as [Hc _].
  destruct (Hc _ _ Hin) as (r & ctx & ctx' & job & st & task & E & Er & Hp & Eid & Hone & ->).
  destruct (last_report _ _ _ _ _ _ _ _ (ts_Output r) (wi_dag _ (dag_reachable_inv _ (dv_reachable _ H))) Hp Hone) as [Hsize Hfull].
  pose proof Hp as (Hj & Hst & _)%pendingTask_Some. destruct (dv_active _ H _ _ Hj) as (job0 & Hpl & G).
  exists job0. split; [by apply step_planned|]. pose proof Hst as Hst1. rewrite Eid, (gr_result _ _ _ G) in Hst1.
  destruct (gr_stages _ _ _ G _ _ Hst1) as (st0 & Hst0 & _ & Et & Ho).
  exists st0, (<[ts_PartitionID r := ts_Output r]> (sg_outputs st)). split; [done|]. split; [by rewrite (gr_action _ _ _ G)|].
  split; [congruence|]. intros i t Hi. destruct (Hfull i) as [o Hlook]; [rewrite Et; by eapply lookup_lt_Some|].
  exists o. split; [done|].
  assert (Hmade : made job0 past' (js_resultStageID job0) (Z.of_nat i) o).
  { apply lookup_insert_Some in Hlook as [[Ep <-]|[_ Hlook]].
    - rewrite <- Ep, <- (gr_result _ _ _ G), <- Eid. eapply attempted_made; [done|by eapply Hrep|by rewrite Er].
    - destruct (Ho _ _ Hlook) as [Hn|Hm]; [|by eapply made_mono].
      destruct (planned_job _ _ _ Hpl) as (g & a & p & tasks & _ & _ & _ & _ & Hstages).
      destruct (Hstages _ _ Hst0) as (_ & _ & Hempty & _). by rewrite Hempty, lookup_empty in Hn. }
  destruct Hmade as (st1 & t1 & Hst2 & _ & Ht1 & Hprod). rewrite Hst0 in Hst2. injection Hst2 as <-.
  rewrite Nat2Z.id in Ht1. congruence.
Qed.

Lemma step_inv : deployment_inv (mkDeployment
  (mkWorld s (submitted_by e ∪ w_submitted (dp_world d)) (w_log (dp_world d) ++ es))
  past' (dp_started d ++ ((fun set => (set, past')) <$> starts es)) (submitted_jobs e (dp_jobs d))).
Proof.
  split; cbn.
  - eapply dag_next; [apply H|]. by constructor.
  - apply step_planner.
  - intros j Hj. destruct e as [j0 ctx g a|rep ctx ctx'|rep ctx ctx'|j0 id attempt err ctx|j0 err|]; cbn in *;
      try (apply elem_of_union_r; by eapply dv_submitted).
    apply lookup_insert_is_Some in Hj as [<-|[_ Hj]]; [set_solver|]. apply elem_of_union_r. by eapply dv_submitted.
  - intros j job Hj. apply step_grown. by eapply event_frame.
  - intros set past [Hin|Hin]%elem_of_app.
    + destruct (dv_started _ H _ _ Hin) as (job0 & st & Hpl & ?). exists job0, st. split; [by apply step_planned|done].
    + apply list_elem_of_fmap in Hin as (set' & [= -> ->] & Hin). by apply step_started.
  - intros j res [Hin|Hin]%elem_of_app; [|by apply step_answers].
    destruct (dv_answers _ H _ _ Hin) as (job0 & Hpl & Ha). exists job0. split; [by apply step_planned|by eapply answered_mono].
Qed.

End step.

Lemma deployed_inv d : deployed d -> deployment_inv d.
Proof.
  induction 1 as [ts options s Hs|d d' _ IH [e s es past' He Hev Hpast Hrep]]; [|by apply step_inv].
  pose proof (dag_start _ _ _ _ Hs) as Hr. unfold NewDAGScheduler in Hs. apply bind_Ok in Hs as (c & _ & [= <-]).
  split; cbn; try done.
  - intros j. rewrite lookup_empty. by intros [].
  - by intros set past ?%not_elem_of_nil.
  - by intros j res ?%not_elem_of_nil.
Qed.

End deployment.
