(* ===== verification/Attempts.v ===== *)
(** * Attempts: what a successful attempt has done

    A task that returned a result, whatever its fuel: the result is that of the
    stream of its operations, published for a map task. *)

From S2P Require Import Prelude Bytes Plan Stages Shuffle Reports Runtime TextSource Iterator IteratorProofs Runner.
From S2P Require Import RunnerFuel RunnerProofs MapTasks RunnerTheorems Exchange Deployment.
#[local] Open Scope Z_scope.

Section attempts.
Context {SS : ShuffleStore} {SR : StoreReads SS} {SW : StoreWrites SS SR}.

Notation world := (runtime store).
Notation rt_reads w := (reads (rt_store w)).

Variable files : string -> result (list N).
Variable registry : FunctionRegistry.
Hypothesis files_fit : forall path data, files path = Ok data -> Z.of_nat (length data) < 2 ^ 63.

(** A success was admitted, and is that of its kind of task. *)
Lemma returned_run r c permit e (w w' : world) o : runs_job files registry r -> returned r c permit e w (Ok o) w' ->
  Forall no_shuffle_read (tail (t_Operations (te_Task e))) /\
  forall fuel0, exists fuel w1, (fuel0 <= fuel)%nat /\ rt_store w1 = rt_store w /\
    (if bool_decide (t_StageKind (te_Task e) = StageShuffleMap)
     then runShuffleMap fuel r registry c e w1 else runResult fuel r registry c e w1) = Some (Ok o, w').
Proof.
  intros [_ Hreg] Hret.
  assert (H : forall fuel, RunTask fuel r c permit e w = Some (Ok o, w') -> Forall no_shuffle_read (tail (t_Operations (te_Task e))) /\
    exists w1, rt_store w1 = rt_store w /\
      (if bool_decide (t_StageKind (te_Task e) = StageShuffleMap)
       then runShuffleMap fuel r registry c e w1 else runResult fuel r registry c e w1) = Some (Ok o, w')).
  { intros fuel Hf. destruct (RunTask_cases fuel r c permit e w) as [(registry' & w1 & Hadm & Hs & _ & E)|(x & w1 & E & _)];
      rewrite E in Hf; [|done]. split; [by eapply admitted_reads|]. exists w1. split; [done|].
    enough (registry' = registry) as -> by done. unfold admitted, checkRunner in Hadm.
    apply bind_Ok in Hadm as (_ & _ & Hadm). rewrite Hreg in Hadm. rewrite !fail_if_Ok in Hadm. destruct Hadm as (_ & _ & Hadm).
    apply bind_Ok in Hadm as ([] & _ & [= <-]). done. }
  split; [by destruct Hret as [fuel [Hf _]%H]|]. intros fuel0. destruct (returned_enough _ _ _ _ _ _ _ fuel0 Hret) as (fuel & Hle & Hf).
  destruct (H fuel Hf) as (_ & w1 & Hs & E). by exists fuel, w1.
Qed.

(** A result attempt returns its action on the records of its stream. *)
Lemma result_attempt r c permit e (w w' : world) o action str : runs_job files registry r ->
  returned r c permit e w (Ok o) w' ->
  t_StageKind (te_Task e) = StageResult -> t_ShuffleWrite (te_Task e) = None -> t_FinalAction (te_Task e) = Some action ->
  (forall s, act_Kind action <> ActionOther s) ->
  ops_stream files (rt_reads w) e registry None (t_Operations (te_Task e)) = Some str -> Z.of_nat (length str.1) < 2 ^ 63 ->
  str.2 = None /\ o = action_output (act_Kind action) str.1.
Proof.
  intros Hr Hret Hk Hw Ha Hn Hops Hlen. destruct (returned_run _ _ _ _ _ _ _ Hr Hret) as [Hsr Hrun]. destruct Hr as [Hfiles _].
  rewrite <- Hfiles in Hops. destruct (runResult_spec (rt_store w) r registry e) as [fuel0 Hfuel]; [by rewrite Hfiles|done|].
  destruct (Hrun fuel0) as (fuel & w1 & Hle & Hs & E). rewrite Hk, bool_decide_eq_false_2 in E by done.
  destruct (Hfuel fuel c w1 Hle Hs) as (res & w2 & E2 & _ & _ & H). rewrite E2 in E. injection E as -> _.
  exact (H action str Hk Hw Ha Hn Hops Hlen).
Qed.

(** A map attempt has published what its combiner makes of its stream. *)
Lemma map_attempt r c permit e (w w' : world) o write str : runs_job files registry r ->
  returned r c permit e w (Ok o) w' ->
  t_StageKind (te_Task e) = StageShuffleMap -> t_ShuffleWrite (te_Task e) = Some write ->
  ops_stream files (rt_reads w) e registry None (t_Operations (te_Task e)) = Some str ->
  exists reduce m l, o = mkOutput None 0 (Some m) /\
    (if sw_MapSideCombine write then exists fn, reduce = Some fn /\ fr_reducers registry !! sw_AggregatorID write = Some fn
     else reduce = None) /\
    stream_records reduce str = Some l /\ published_as (rt_reads w') m (pt_NumPartitions (sw_Partitioner write)) l.
Proof.
  intros Hr Hret Hk Hw Hops. destruct (returned_run _ _ _ _ _ _ _ Hr Hret) as [Hsr Hrun]. destruct Hr as [Hfiles _].
  destruct (checkMapTask r registry e) as [[write' reduce]|x] eqn:Hcheck.
  2: { exfalso. destruct (Hrun 0%nat) as (fuel & w1 & _ & _ & E). rewrite Hk, bool_decide_eq_true_2 in E by done.
       unfold runShuffleMap in E. by rewrite Hcheck in E. }
  pose proof (checkMapTask_write _ _ _ _ _ Hcheck) as Hw'. rewrite Hw in Hw'. injection Hw' as <-.
  assert (Hred : if sw_MapSideCombine write then exists fn, reduce = Some fn /\ fr_reducers registry !! sw_AggregatorID write = Some fn
     else reduce = None).
  { unfold checkMapTask in Hcheck. rewrite Hw in Hcheck. destruct (t_FinalAction (te_Task e)); [done|].
    rewrite !fail_if_Ok in Hcheck. destruct Hcheck as (_ & _ & _ & Hcheck).
    destruct (sw_MapSideCombine write); [|by injection Hcheck as <-].
    apply bind_Ok in Hcheck as (fn & Hfn & [= <-]). exists fn. split; [done|]. unfold lookupReduce, lookupIn in Hfn.
    destruct (fr_reducers registry !! sw_AggregatorID write); [by injection Hfn as ->|done]. }
  destruct (runShuffleMap_spec files files_fit (rt_store w) r registry e (rt_reads w) write reduce) as [fuel0 Hfuel]; [done..|].
  destruct (Hrun fuel0) as (fuel & w1 & Hle & Hs & E). rewrite Hk, bool_decide_eq_true_2 in E by done.
  destruct (Hfuel fuel c w1 Hle) as (res & w2 & E2 & _ & _ & H); [by rewrite Hs|]. rewrite E2 in E. injection E as -> <-.
  destruct (H ltac:(by rewrite Hops)) as [(m & l & -> & Hl & _ & _ & _ & _ & Hp)|[[x ?] _]]; [|done].
  exists reduce, m, l. unfold map_records in Hl. rewrite Hops in Hl. by split_and!.
Qed.

(** A map attempt leaves what was published before. *)
Lemma map_attempt_kept r c permit e (w w' : world) o : runs_job files registry r -> returned r c permit e w (Ok o) w' ->
  t_StageKind (te_Task e) = StageShuffleMap -> unaltered (rt_reads w) (rt_reads w').
Proof.
  intros Hr Hret Hk. destruct (returned_run _ _ _ _ _ _ _ Hr Hret) as [Hsr Hrun]. destruct Hr as [Hfiles _].
  destruct (checkMapTask r registry e) as [[write reduce]|x] eqn:Hcheck.
  2: { exfalso. destruct (Hrun 0%nat) as (fuel & w1 & _ & _ & E). rewrite Hk, bool_decide_eq_true_2 in E by done.
       unfold runShuffleMap in E. by rewrite Hcheck in E. }
  destruct (runShuffleMap_spec files files_fit (rt_store w) r registry e (rt_reads w) write reduce) as [fuel0 Hfuel]; [done..|].
  destruct (Hrun fuel0) as (fuel & w1 & Hle & Hs & E). rewrite Hk, bool_decide_eq_true_2 in E by done.
  destruct (Hfuel fuel c w1 Hle) as (res & w2 & E2 & _ & Hkept & _); [by rewrite Hs|]. rewrite E2 in E. injection E as -> <-.
  intros m p l Hb. left. by apply Hkept.
Qed.

(** ** Buckets that may be lost *)

(** What an output published is read back, or the read fails. *)
Lemma lossy_stream (past : list view) (s : view) n p os ls : 0 <= p < n -> later past s ->
  Forall2 (fun o l => exists v, v ∈ past /\ published_as v o n l) os ls -> Forall (Forall (fun kv => durable kv.2)) ls ->
  (buckets_stream s p os).2 = None ->
  buckets_stream s p os = (record_of <$> concat (bucket_part wire n p <$> ls), None).
Proof.
  intros Hp Hl. induction 1 as [|o l os ls (v & Hv & Ho) Hos IH]; intros Hd; [done|]. apply Forall_cons in Hd as [Hd1 Hd2]. cbn.
  unfold later in Hl. rewrite Forall_forall in Hl. destruct (Hl _ Hv _ _ _ (Ho Hd1 p Hp)) as [Hb|Hb]; unfold bucket_stream.
  - rewrite Hb. cbn. intros E. specialize (IH Hd2 E). rewrite IH. cbn. by rewrite fmap_app.
  - destruct (bucket s o p) as [b [x|]]; [done|]. cbn in Hb. by destruct Hb.
Qed.

Lemma reduce_records_end fn str l : reduce_records fn str = (l, None) -> str.2 = None.
Proof. unfold reduce_records. destruct (fold_records fn ∅ str.1), str.2; by intros [= <-]. Qed.

End attempts.
