(* ===== verification/JobRun.v ===== *)
(** * JobRun: a job on a deployed scheduler

    The words of the example file are counted by a job that is submitted to a
    scheduler, whose tasks are run as their task sets are started: a deployment
    that is reached step by step, up to its answer. *)

From S2P Require Import Prelude Bytes Plan Lineage Stages Planner PlannerProofs TaskGenerator Api Shuffle Reports.
From S2P Require Import Runtime TextSource Iterator IteratorProofs Runner RunnerFuel MapTasks.
From S2P Require Import Fifo FifoSystem Dag DagProofs DagEvents DagTheorems Deployment Attempts.
From S2P Require Import FileStore FileReads FileWrites ExampleFuncs WordCount.
#[local] Open Scope Z_scope.

(** ** Steps that are computed *)

Notation disk_deployment := (@deployment DiskStore DiskReads).

Definition do_event (e : schedulerEvent) (past : list view) (d : disk_deployment) : option disk_deployment :=
  if (dag_nextStageAttemptID (w_dag (dp_world d)) + 1 <? 2 ^ 64)%N then
    match handleEvent (w_dag (dp_world d)) e with
    | Some (Ok (s, es)) => Some (mkDeployment
        (mkWorld s (submitted_by e ∪ w_submitted (dp_world d)) (w_log (dp_world d) ++ es))
        past (dp_started d ++ ((fun set => (set, past)) <$> starts es)) (submitted_jobs e (dp_jobs d)))
    | _ => None
    end
  else None.

(** The steps succeed when they compute to something. *)
Definition then_event (e : schedulerEvent) (past : list view) (d : disk_deployment) : disk_deployment :=
  default d (do_event e past d).
Definition done_event (e : schedulerEvent) (past : list view) (d : disk_deployment) : bool :=
  match do_event e past d with Some _ => true | None => false end.

(** The task sets the event starts. *)
Definition new_sets (e : schedulerEvent) (d : disk_deployment) : list TaskSet :=
  match handleEvent (w_dag (dp_world d)) e with Some (Ok (_, es)) => starts es | _ => [] end.

Lemma then_event_fields e past d : done_event e past d = true ->
  dp_past (then_event e past d) = past /\
  dp_started (then_event e past d) = dp_started d ++ ((fun set => (set, past)) <$> new_sets e d).
Proof.
  unfold done_event, then_event, do_event, new_sets. destruct (_ <? _)%N; [|done].
  by destruct (handleEvent _ _) as [[[s es]|]|].
Qed.

Lemma then_event_step e past d : deployed words_files words_registry d -> done_event e past d = true ->
  (is_report e = true \/ event_ok (dp_world d) e) -> dp_past d ⊆ past ->
  (forall rep ctx ctx', e = taskSucceeded rep ctx ctx' -> attempted words_files words_registry d rep past) ->
  deployed words_files words_registry (then_event e past d).
Proof.
  intros Hd Hdo He Hpast Hrep. unfold done_event, then_event, do_event in *.
  destruct (N.ltb_spec (dag_nextStageAttemptID (w_dag (dp_world d)) + 1) (2 ^ 64)) as [Hn|]; [|done].
  destruct (handleEvent _ _) as [[[s es]|]|] eqn:E; [|done..]. cbn. eapply deploy_next; [exact Hd|].
  constructor; [|done..]. destruct He as [Hr|He]; [|done]. split; [done|]. by destruct e.
Qed.

(** ** The job *)

Definition words_spec : Spec := mkSpec (mkSource "words.txt" 2)
  [mkTransformation OpMap "normalize" 0; mkTransformation OpFilter "non_empty" 0;
   mkTransformation OpMapToPair "word_pair" 0; mkTransformation OpReduceByKey "sum_int" 2] ActionCollect.

Definition words_graph : RDDGraph := (Build words_spec NewRDDGraph).2.
Definition words_action : ActionSpec := mkAction ActionCollect 4%N.

Lemma words_built : Build words_spec NewRDDGraph = (Ok 4%N, words_graph).
Proof.
  assert (E : (Build words_spec NewRDDGraph).1 = Ok 4%N) by (vm_compute; reflexivity).
  unfold words_graph. rewrite <- E. by destruct (Build words_spec NewRDDGraph).
Qed.

(** ** Its tasks *)

Definition words_sets (d : disk_deployment) : list TaskSet := (dp_started d).*1.

(** The attempt of task [i] of a started set, and its report. *)
Definition words_attempt (set : TaskSet) (i : nat) : TaskExecution :=
  let t := default (newTask (mkStage 0%N StageResult [] 0 [] None None) 0 0) (tset_Tasks set !! i) in
  mkExecution example_run (tset_JobID set) t (mkAttempt (t_ID t) (t_ID t) (tset_StageAttemptID set)) "w1" (tset_ShuffleInputs set).

Definition words_run (e : TaskExecution) (s : filesystem) : option (result TaskOutput * runtime filesystem) :=
  RunTask 100 words_runner Background true e (mkRuntime 0 0 s).

Definition words_success (set : TaskSet) (e : TaskExecution) (o : TaskOutput) : schedulerEvent :=
  taskSucceeded (mkSuccess (te_JobID e) (tset_StageID set) (te_Attempt e) (t_PartitionID (te_Task e)) "w1" o) None None.

Lemma words_attempted (d : disk_deployment) set past i s o w' : (set, past) ∈ dp_started d ->
  is_Some (tset_Tasks set !! i) -> words_run (words_attempt set i) s = Some (Ok o, w') ->
  later past (reads s) -> forall past' rep ctx ctx', reads (rt_store w') ∈ past' ->
  words_success set (words_attempt set i) o = taskSucceeded rep ctx ctx' -> attempted words_files words_registry d rep past'.
Proof.
  intros Hset [t Ht] Hrun Hl past' rep ctx ctx' Hin [= <- _ _].
  exists set, past, (words_attempt set i), words_runner, Background, true, (mkRuntime 0 0 s), w'.
  split; [done|]. split; [unfold words_attempt; rewrite Ht; by eapply list_elem_of_lookup_2|].
  split_and!; try done. by exists 100%nat.
Qed.

(** ** The run *)

Definition words_start : disk_deployment :=
  mkDeployment (mkWorld (mkDag 2 (Some (registryLookup words_registry)) true ∅ 0%N false) ∅ []) [] [] ∅.
Definition words_submit : schedulerEvent := jobSubmitted 0%N None (Some words_graph) words_action.
Definition words_submitted : disk_deployment := then_event words_submit [] words_start.

Definition no_set : TaskSet := mkTaskSet None 0%N 0%N 0%N [].
Definition ran (r : option (result TaskOutput * runtime filesystem)) : TaskOutput * runtime filesystem :=
  match r with Some (Ok o, w) => (o, w) | _ => (zeroOutput, mkRuntime 0 0 new_disk) end.
Definition ended_in (w : runtime filesystem) : view := @reads DiskStore DiskReads (rt_store w).

(** The map tasks, the second on the disk the first left. *)
Definition map_set : TaskSet := Eval vm_compute in default no_set (words_sets words_submitted !! 0%nat).
Definition map0 : TaskOutput := Eval vm_compute in (ran (words_run (words_attempt map_set 0) new_disk)).1.
Definition disk0 : runtime filesystem := (ran (words_run (words_attempt map_set 0) new_disk)).2.
Definition map1 : TaskOutput := Eval vm_compute in (ran (words_run (words_attempt map_set 1) (rt_store disk0))).1.
Definition disk1 : runtime filesystem := (ran (words_run (words_attempt map_set 1) (rt_store disk0))).2.

Definition words_success_of (set : TaskSet) (i : nat) (o : TaskOutput) : schedulerEvent :=
  words_success set (words_attempt set i) o.

Definition words_mapped0 : disk_deployment := then_event (words_success_of map_set 0 map0) [ended_in disk0] words_submitted.
Definition words_mapped : disk_deployment :=
  then_event (words_success_of map_set 1 map1) [ended_in disk0; ended_in disk1] words_mapped0.

(** The reduce tasks, both on the disk the map tasks left. *)
Definition reduce_set : TaskSet := Eval vm_compute in default no_set (words_sets words_mapped !! 1%nat).
Definition reduce0 : TaskOutput := Eval vm_compute in (ran (words_run (words_attempt reduce_set 0) (rt_store disk1))).1.
Definition disk2 : runtime filesystem := (ran (words_run (words_attempt reduce_set 0) (rt_store disk1))).2.
Definition reduce1 : TaskOutput := Eval vm_compute in (ran (words_run (words_attempt reduce_set 1) (rt_store disk1))).1.
Definition disk3 : runtime filesystem := (ran (words_run (words_attempt reduce_set 1) (rt_store disk1))).2.

Definition words_reduced0 : disk_deployment :=
  then_event (words_success_of reduce_set 0 reduce0) [ended_in disk0; ended_in disk1; ended_in disk2] words_mapped.
Definition words_answered : disk_deployment :=
  then_event (words_success_of reduce_set 1 reduce1) [ended_in disk0; ended_in disk1; ended_in disk2; ended_in disk3] words_reduced0.

Lemma ran_run r o : match r with Some (Ok o', _) => Some o' | _ => None end = Some o -> r = Some (Ok o, (ran r).2).
Proof. destruct r as [[[o'|] w]|]; [|done..]. by intros [= <-]. Qed.

Lemma map0_run : words_run (words_attempt map_set 0) new_disk = Some (Ok map0, disk0).
Proof. apply ran_run. vm_compute. reflexivity. Qed.
Lemma map1_run : words_run (words_attempt map_set 1) (rt_store disk0) = Some (Ok map1, disk1).
Proof. apply ran_run. vm_compute. reflexivity. Qed.
Lemma reduce0_run : words_run (words_attempt reduce_set 0) (rt_store disk1) = Some (Ok reduce0, disk2).
Proof. apply ran_run. vm_compute. reflexivity. Qed.
Lemma reduce1_run : words_run (words_attempt reduce_set 1) (rt_store disk1) = Some (Ok reduce1, disk3).
Proof. apply ran_run. vm_compute. reflexivity. Qed.

Lemma unaltered_refl (v : view) : unaltered v v.
Proof. intros o p l. by left. Qed.

Lemma run_unaltered e s o w' : words_run e s = Some (Ok o, w') -> t_StageKind (te_Task e) = StageShuffleMap ->
  unaltered (@reads DiskStore DiskReads s) (ended_in w').
Proof.
  intros Hrun Hk. apply (@map_attempt_kept DiskStore DiskReads DiskWrites words_files words_registry words_fit words_runner Background true e
    (mkRuntime 0 0 s) w' o);
    [by split|by exists 100%nat|done].
Qed.

(** The reduce tasks find what the map tasks published. *)
Lemma mapped_later : later [ended_in disk0; ended_in disk1] (ended_in disk1).
Proof.
  apply Forall_cons_2; [|apply Forall_cons_2; [apply unaltered_refl|apply Forall_nil_2]].
  exact (run_unaltered _ _ _ _ map1_run eq_refl).
Qed.

(** A success of a task that was run leads to the next state. *)
Lemma success_step (d : disk_deployment) set past i s o w' past' : deployed words_files words_registry d ->
  (set, past) ∈ dp_started d -> is_Some (tset_Tasks set !! i) -> words_run (words_attempt set i) s = Some (Ok o, w') ->
  later past (@reads DiskStore DiskReads s) -> dp_past d ⊆ past' -> ended_in w' ∈ past' ->
  done_event (words_success_of set i o) past' d = true ->
  deployed words_files words_registry (then_event (words_success_of set i o) past' d).
Proof.
  intros Hd Hset Ht Hrun Hl Hpast Hin Hdo. apply then_event_step; [done|done|by left|done|].
  intros rep ctx ctx' E. by eapply words_attempted.
Qed.

Lemma submitted_done : done_event words_submit [] words_start = true.
Proof. vm_compute. reflexivity. Qed.
Lemma mapped0_done : done_event (words_success_of map_set 0 map0) [ended_in disk0] words_submitted = true.
Proof. vm_compute. reflexivity. Qed.
Lemma mapped_done : done_event (words_success_of map_set 1 map1) [ended_in disk0; ended_in disk1] words_mapped0 = true.
Proof. vm_compute. reflexivity. Qed.
Lemma reduced0_done :
  done_event (words_success_of reduce_set 0 reduce0) [ended_in disk0; ended_in disk1; ended_in disk2] words_mapped = true.
Proof. vm_compute. reflexivity. Qed.
Lemma answered_done : done_event (words_success_of reduce_set 1 reduce1)
  [ended_in disk0; ended_in disk1; ended_in disk2; ended_in disk3] words_reduced0 = true.
Proof. vm_compute. reflexivity. Qed.

Lemma submitted_sets : new_sets words_submit words_start = [map_set].
Proof. vm_compute. reflexivity. Qed.
Lemma mapped_sets : new_sets (words_success_of map_set 1 map1) words_mapped0 = [reduce_set].
Proof. vm_compute. reflexivity. Qed.

(** The task sets of each state. *)
Lemma started_submitted : (map_set, []) ∈ dp_started words_submitted.
Proof. unfold words_submitted. rewrite (proj2 (then_event_fields _ _ _ submitted_done)), submitted_sets. by left. Qed.

Lemma started_mapped0 : (map_set, []) ∈ dp_started words_mapped0.
Proof. unfold words_mapped0. rewrite (proj2 (then_event_fields _ _ _ mapped0_done)). apply elem_of_app. left. apply started_submitted. Qed.

Lemma started_mapped : (reduce_set, [ended_in disk0; ended_in disk1]) ∈ dp_started words_mapped.
Proof. unfold words_mapped. rewrite (proj2 (then_event_fields _ _ _ mapped_done)), mapped_sets. apply elem_of_app. right. by left. Qed.

Lemma started_reduced0 : (reduce_set, [ended_in disk0; ended_in disk1]) ∈ dp_started words_reduced0.
Proof. unfold words_reduced0. rewrite (proj2 (then_event_fields _ _ _ reduced0_done)). apply elem_of_app. left. apply started_mapped. Qed.

Lemma words_submitted_deployed : deployed words_files words_registry words_submitted.
Proof.
  apply then_event_step; [by eapply (deploy_start _ _ true [])|exact submitted_done| |done|done].
  right. split; [done|]. split; [set_solver|]. cbn. change words_graph with (Build words_spec NewRDDGraph).2.
  destruct (Build_Ok words_spec) as (rdd & g & l & src & HB & Hg & _).
  - apply validateSpec_spec. vm_compute. reflexivity.
  - vm_compute. reflexivity.
  - rewrite HB. apply Hg.
Qed.

(** What was seen before is seen later. *)
Lemma past_grows {A} (l : list A) x : l ⊆ l ++ [x].
Proof. intros y Hy. apply elem_of_app. by left. Qed.

Lemma words_mapped_deployed : deployed words_files words_registry words_mapped.
Proof.
  assert (H1 : deployed words_files words_registry words_mapped0).
  { apply (success_step words_submitted map_set [] 0 new_disk map0 disk0); [exact words_submitted_deployed|exact started_submitted|by eexists
      |exact map0_run|constructor| |by left|exact mapped0_done].
    unfold words_submitted. rewrite (proj1 (then_event_fields _ _ _ submitted_done)). apply list_subseteq_nil. }
  apply (success_step words_mapped0 map_set [] 1 (rt_store disk0) map1 disk1); [exact H1|exact started_mapped0|by eexists
    |exact map1_run|constructor| |by right; left|exact mapped_done].
  unfold words_mapped0. rewrite (proj1 (then_event_fields _ _ _ mapped0_done)). apply (past_grows [_]).
Qed.

Lemma words_answered_deployed : deployed words_files words_registry words_answered.
Proof.
  assert (H3 : deployed words_files words_registry words_reduced0).
  { apply (success_step words_mapped reduce_set [ended_in disk0; ended_in disk1] 0 (rt_store disk1) reduce0 disk2);
      [exact words_mapped_deployed|exact started_mapped|by eexists|exact reduce0_run|exact mapped_later| |by right; right; left|exact reduced0_done].
    unfold words_mapped. rewrite (proj1 (then_event_fields _ _ _ mapped_done)). apply (past_grows [_; _]). }
  apply (success_step words_reduced0 reduce_set [ended_in disk0; ended_in disk1] 1 (rt_store disk1) reduce1 disk3);
    [exact H3|exact started_reduced0|by eexists|exact reduce1_run|exact mapped_later| |by right; right; right; left|exact answered_done].
  unfold words_reduced0. rewrite (proj1 (then_event_fields _ _ _ reduced0_done)). apply (past_grows [_; _; _]).
Qed.

(** The answer: keys in order in each of the two partitions. *)
Definition words_result : JobResult :=
  mkResult (Some [AKeyValue "ant" (ANumber "1"); AKeyValue "cat" (AInt64 2); AKeyValue "dog" (ANumber "1")]) 0.

Lemma words_answer : Respond 0%N (Ok words_result) ∈ w_log (dp_world words_answered).
Proof.
  apply last_Some_elem_of. vm_compute. reflexivity.
Qed.
