(* ===== verification/EndToEnd.v ===== *)
(** * EndToEnd: what a job is answered with

    A job submitted from a specification to a deployed scheduler is answered only
    with what the specification means on the lines of its file. *)

From S2P Require Import Prelude Bytes Plan Lineage Stages Planner PlannerProofs TaskGenerator Api Shuffle Reports.
From S2P Require Import Runtime TextSource Iterator IteratorProofs Runner RunnerFuel RunnerProofs MapTasks RunnerTheorems Exchange.
From S2P Require Import Fifo FifoSystem Dag DagProofs DagEvents DagTheorems DagResults DagFrame Deployment Attempts.
From S2P Require Import FileStore FileReads FileWrites ExampleFuncs WordCount JobRun Meaning PlanShape.
#[local] Open Scope Z_scope.

(** ** Lists *)

Lemma list_choice {A} (P : nat -> A -> Prop) n : (forall i, (i < n)%nat -> exists x, P i x) ->
  exists xs, length xs = n /\ forall i x, xs !! i = Some x -> P i x.
Proof.
  induction n as [|n IH]; intros H; [by exists []|]. destruct IH as (xs & Hlen & Hxs); [intros i Hi; apply H; lia|].
  destruct (H n) as [x Hx]; [lia|]. exists (xs ++ [x]). split; [rewrite length_app; cbn; lia|].
  intros i y [Hi|[Hle Hi]]%lookup_app_Some; [by apply Hxs|]. apply list_lookup_singleton_Some in Hi as [Hi <-].
  by replace i with n by lia.
Qed.

Lemma list_choice2 {A B} (P : nat -> A -> B -> Prop) xs : (forall i x, xs !! i = Some x -> exists y, P i x y) ->
  exists ys, length ys = length xs /\ forall i x y, xs !! i = Some x -> ys !! i = Some y -> P i x y.
Proof.
  intros H. destruct (list_choice (fun i y => exists x, xs !! i = Some x /\ P i x y) (length xs)) as (ys & Hlen & Hys).
  - intros i [x Hx]%lookup_lt_is_Some_2. destruct (H _ _ Hx) as [y Hy]. eauto.
  - exists ys. split; [done|]. intros i x y Hx Hy. destruct (Hys _ _ Hy) as (x' & Hx' & HP). congruence.
Qed.

Lemma concat_lengths {A B} (xs : list (list A)) (ys : list (list B)) :
  Forall2 (fun x y => length x <= length y)%nat xs ys -> (length (concat xs) <= length (concat ys))%nat.
Proof. induction 1; cbn; [done|]. rewrite !length_app. lia. Qed.

Lemma concat_bound {A} (xs : list (list A)) n : Forall (fun x => length x <= n)%nat xs ->
  (length (concat xs) <= length xs * n)%nat.
Proof. induction 1; cbn; [done|]. rewrite length_app. lia. Qed.

Lemma pairs_of_length l kvs : pairs_of l = Ok kvs -> length kvs = length l.
Proof.
  revert kvs. induction l as [|v l IH]; intros kvs; cbn; [by intros [= <-]|]. destruct v; try done.
  intros (kvs' & H & [= <-])%bind_Ok. cbn. by rewrite (IH kvs').
Qed.

Lemma pairs_of_concat ls kvss : Forall2 (fun l kvs => pairs_of l = Ok kvs) ls kvss -> pairs_of (concat ls) = Ok (concat kvss).
Proof.
  induction 1 as [|l kvs ls kvss Hl _ IH]; [done|]. rewrite !concat_cons. revert kvs Hl.
  induction l as [|v l IHl]; intros kvs; cbn; [by intros [= <-]|]. destruct v; try done.
  intros (kvs' & H & [= <-])%bind_Ok. by rewrite (IHl kvs' H).
Qed.

Lemma lines_length data : (length (lineRecord <$> fileLines data) <= length data)%nat.
Proof.
  rewrite <- (parts_concat data 1) by lia. etrans; [apply (concat_bound _ (length data))|].
  - apply Forall_fmap, Forall_true. intros i. apply lines_part_length.
  - rewrite length_fmap, length_seq. lia.
Qed.

(** ** The merge of the outputs *)

Lemma records_of outputs ls k :
  (forall i l, ls !! i = Some l -> outputs !! Z.of_nat (k + i) = Some (action_output ActionCollect l)) ->
  records_at outputs <$> seq k (length ls) = ls.
Proof.
  revert k. induction ls as [|l ls IH]; intros k H; cbn; [done|]. f_equal.
  - unfold records_at, output_at. specialize (H 0%nat l eq_refl). rewrite Nat.add_0_r in H. by rewrite H.
  - apply IH. intros i l' Hi. specialize (H (S i) l' Hi). by rewrite Nat.add_succ_r in H.
Qed.

Lemma counts_of outputs ls k :
  (forall i l, ls !! i = Some l -> outputs !! Z.of_nat (k + i) = Some (action_output ActionCount l)) ->
  sum_counts outputs (seq k (length ls)) = Z.of_nat (length (concat ls)).
Proof.
  revert k. induction ls as [|l ls IH]; intros k H; cbn; [done|]. rewrite length_app, Nat2Z.inj_add. f_equal.
  - unfold output_at. specialize (H 0%nat l eq_refl). rewrite Nat.add_0_r in H. by rewrite H.
  - apply IH. intros i l' Hi. specialize (H (S i) l' Hi). by rewrite Nat.add_succ_r in H.
Qed.

Lemma merge_answers kind outputs ls : kind = ActionCollect \/ kind = ActionCount ->
  (forall i l, ls !! i = Some l -> outputs !! Z.of_nat i = Some (action_output kind l)) -> size outputs = length ls ->
  Z.of_nat (length (concat ls)) < 2 ^ 63 -> answers kind (concat ls) (mergeTaskOutputs kind outputs).
Proof.
  intros Hk Hout Hsize Hlen. destruct (mergeTaskOutputs_correct outputs) as [(Hr & Hn & _) (_ & Hc & _)].
  rewrite Hsize in Hr, Hn, Hc. destruct Hk as [-> | ->]; cbn [answers].
  - rewrite Hr, Hn. by rewrite (records_of outputs ls 0).
  - rewrite (counts_of outputs ls 0) in Hc by done. apply Hc. unfold in_i64. lia.
Qed.

Section jobs.
Context {SS : ShuffleStore} {SR : StoreReads SS} {SW : StoreWrites SS SR}.
Context {M : Type} {fn : ReduceFunc} {R : Reducer M wire durable fn}.

Notation world := (runtime store).
Notation rt_reads w := (reads (rt_store w)).

Variable files : string -> result (list N).
Variable registry : FunctionRegistry.
Hypothesis files_fit : forall path data, files path = Ok data -> Z.of_nat (length data) < 2 ^ 63.

Notation produced := (produced files registry).

(** The [i]-th task of a stage. *)
Definition task_at (s : Stage) (i : nat) (t : Task) : Prop := exists k, t = newTask s k i.

(** ** Tasks that read the file *)

Section file.
Variables (data : list N) (n : Z) (src : RDDNode).
Hypothesis Hsrc : op_Kind (node_Operator src) = OpSource.
Hypothesis Hdata : files (op_SourcePath (node_Operator src)) = Ok data.
Hypothesis Hn : n < 2 ^ 63.
Hypothesis Hfit : Z.of_nat (length data) * n < 2 ^ 63.

Lemma source_task job past id st i t o a ns :
  js_stages job !! id = Some st -> sg_stage st = single_stage a n src ns -> task_at (sg_stage st) i t -> Z.of_nat i < n ->
  (forall x, act_Kind a <> ActionOther x) -> Forall narrow_node ns -> Forall (function_ok (registryLookup registry)) ns ->
  produced job past id t o ->
  exists l, transforms registry (chain_ops ns) (part data n i) = Some l /\ o = action_output (act_Kind a) l.
Proof.
  intros Hst Es [k Et] Hi Ha Hns Hfs Hp. inversion Hp as [? ? ? st' e r c permit w w' before _ He Hr _ _ Hret _ Eid Et' Eo]. rewrite Es in Et.
  assert (Hops : te_Task e = newTask (single_stage a n src ns) k i) by congruence.
  destruct (source_narrow_stream files (rt_reads w) e registry src ns data n i Hsrc Hdata Hn Hfit Hi) as (str & Hstr & Hlen & Hend);
    [by rewrite Hops..|done|done|].
  destruct (result_attempt files registry files_fit r c permit e w w' o a str Hr Hret) as [Hnone ->]; rewrite ?Hops; try done.
  - pose proof (files_fit _ _ Hdata). lia.
  - exists str.1. split; [by apply Hend|done].
Qed.

Lemma map_task_output job past id st i t o ns sd :
  js_stages job !! id = Some st -> sg_stage st = map_stage_of n src ns sd -> task_at (sg_stage st) i t -> Z.of_nat i < n ->
  sd_MapSideCombine sd = true -> fr_reducers registry !! sd_AggregatorID sd = Some fn ->
  Forall narrow_node ns -> Forall (function_ok (registryLookup registry)) ns -> produced job past id t o ->
  exists m l kvs out, to_ShuffleOutput o = Some m /\ transforms registry (chain_ops ns) (part data n i) = Some l /\
    pairs_of l = Ok kvs /\ writes fn true kvs out /\
    exists v, v ∈ past /\ published_as v m (pt_NumPartitions (sd_Partitioner sd)) out.
Proof.
  intros Hst Es [k Et] Hi Hc Hfn Hns Hfs Hp. inversion Hp as [? ? ? st' e r c permit w w' before _ He Hr _ _ Hret Hw' Eid Et' Eo].
  rewrite Es in Et. assert (Hops : te_Task e = newTask (map_stage_of n src ns sd) k i) by congruence.
  destruct (source_narrow_stream files (rt_reads w) e registry src ns data n i Hsrc Hdata Hn Hfit Hi) as (str & Hstr & Hlen & Hend);
    [by rewrite Hops..|done|done|].
  destruct (map_attempt files registry files_fit r c permit e w w' o (shuffleWriteSpec sd) str Hr Hret)
    as (reduce & m & out & -> & Hred & Hout & Hpub); [by rewrite Hops..|].
  cbn [shuffleWriteSpec sw_MapSideCombine sw_AggregatorID sw_Partitioner] in Hred, Hpub. rewrite Hc in Hred.
  destruct Hred as (fn' & -> & Hfn'). rewrite Hfn in Hfn'. injection Hfn' as <-.
  unfold stream_records in Hout. destruct str as [l [x|]]; [done|]. cbn [fst snd] in *.
  destruct (pairs_of l) as [kvs|] eqn:Ep; [|done]. destruct (map_side (Some fn) kvs) as [out'|] eqn:Em; [|done]. injection Hout as ->.
  exists m, l, kvs, out. split; [done|]. split; [by apply Hend|]. split; [done|]. split; [done|]. by exists (rt_reads w').
Qed.

(** The records of a whole map stage. *)
Lemma map_stage_outputs job past id st ns sd i :
  0 < n -> js_stages job !! id = Some st -> sg_stage st = map_stage_of n src ns sd ->
  (exists k, sg_tasks st = (fun i => newTask (sg_stage st) (k + i) i) <$> seq 0 (Z.to_nat n)) ->
  sd_MapSideCombine sd = true -> fr_reducers registry !! sd_AggregatorID sd = Some fn ->
  Forall narrow_node ns -> Forall (function_ok (registryLookup registry)) ns ->
  fed files registry job past [id] (Some i) ->
  exists l kvss outs, transforms registry (chain_ops ns) (lineRecord <$> fileLines data) = Some l /\
    pairs_of l = Ok (concat kvss) /\ Forall2 (writes fn true) kvss outs /\
    Forall2 (fun o out => exists v, v ∈ past /\ published_as v o (pt_NumPartitions (sd_Partitioner sd)) out) (is_Outputs i) outs.
Proof.
  intros Hpos Hst Es [k Hk] Hc Hfn Hns Hfs Hfed. inversion Hfed as [|? ? st' ? Hst' Hall]; subst. rewrite Hst in Hst'. injection Hst' as <-.
  assert (Hlen : length (is_Outputs i) = Z.to_nat n).
  { apply Forall2_length in Hall. by rewrite Hk, length_fmap, length_seq in Hall. }
  destruct (list_choice2 (fun j m y => transforms registry (chain_ops ns) (part data n j) = Some y.1.1 /\ pairs_of y.1.1 = Ok y.1.2 /\
    writes fn true y.1.2 y.2 /\ exists v, v ∈ past /\ published_as v m (pt_NumPartitions (sd_Partitioner sd)) y.2) (is_Outputs i))
    as (ys & Hys & HP).
  { intros j m Hm. pose proof (lookup_lt_Some _ _ _ Hm) as Hj.
    destruct (Forall2_lookup_r _ _ _ _ _ Hall Hm) as (t & Ht & o & Ho & Hprod). rewrite Hk, list_lookup_fmap in Ht.
    apply fmap_Some in Ht as (j' & [-> _]%lookup_seq & ->).
    destruct (map_task_output job past id st j _ o ns sd Hst Es (ex_intro _ _ eq_refl) ltac:(lia) Hc Hfn Hns Hfs Hprod)
      as (m' & l & kvs & out & Hm' & Hl & Hkvs & Hw & Hpub). rewrite Ho in Hm'. injection Hm' as <-.
    exists (l, kvs, out). by split_and!. }
  assert (HP' : forall j y, ys !! j = Some y -> exists m, is_Outputs i !! j = Some m /\ transforms registry (chain_ops ns) (part data n j) = Some y.1.1 /\
    pairs_of y.1.1 = Ok y.1.2 /\ writes fn true y.1.2 y.2 /\
    exists v, v ∈ past /\ published_as v m (pt_NumPartitions (sd_Partitioner sd)) y.2).
  { intros j y Hy. destruct (lookup_lt_is_Some_2 (is_Outputs i) j) as [m Hm]; [rewrite <- Hys; by eapply lookup_lt_Some|].
    exists m. split; [done|]. by eapply HP. }
  assert (Hdiag : forall A B (f : list any * list (string * any) * list (string * any) -> A) (g : _ -> B) (Q : A -> B -> Prop),
    (forall j y, ys !! j = Some y -> Q (f y) (g y)) -> Forall2 Q (f <$> ys) (g <$> ys)).
  { intros A B f g Q HQ. apply Forall2_fmap, Forall_Forall2_diag, Forall_lookup_2, HQ. }
  exists (concat ((fun y => y.1.1) <$> ys)), ((fun y => y.1.2) <$> ys), (snd <$> ys). split_and!.
  - rewrite <- (parts_concat data n Hpos). apply transforms_concat.
    { destruct (Z.to_nat n) eqn:E; [lia|done]. }
    apply Forall2_same_length_lookup. rewrite !length_fmap, length_seq, Hys. split; [done|].
    intros j x y. rewrite !list_lookup_fmap. intros (j' & [-> _]%lookup_seq & ->)%fmap_Some (z & Hz & ->)%fmap_Some.
    by destruct (HP' _ _ Hz) as (m & _ & H & _).
  - apply pairs_of_concat, Hdiag. intros j y Hy. by destruct (HP' _ _ Hy) as (m & _ & _ & H & _).
  - apply Hdiag. intros j y Hy. by destruct (HP' _ _ Hy) as (m & _ & _ & _ & H & _).
  - apply Forall2_same_length_lookup. rewrite length_fmap. split; [done|].
    intros j m out Hm. rewrite list_lookup_fmap. intros (y & Hy & ->)%fmap_Some. by apply (HP j m y).
Qed.

(** A reduce task on the outputs of the map stage. *)
Section reduce.
Variables (a : ActionSpec) (red : RDDNode) (ns1 ns2 : list RDDNode) (sd : ShuffleDependencySpec).
Hypothesis Hpos : 0 < n.
Hypothesis Hcombine : sd_MapSideCombine sd = true.
Hypothesis Hfn : fr_reducers registry !! sd_AggregatorID sd = Some fn.
Hypothesis Hred : op_Kind (node_Operator red) = OpReduceByKey /\ op_FunctionID (node_Operator red) = sd_AggregatorID sd.
Hypothesis Hns1 : Forall narrow_node ns1 /\ Forall (function_ok (registryLookup registry)) ns1.
Hypothesis Hns2 : Forall narrow_node ns2 /\ Forall (function_ok (registryLookup registry)) ns2.
Hypothesis Haction : forall x, act_Kind a <> ActionOther x.
Hypothesis Hadds : forall l kvs, transforms registry (chain_ops ns1) (lineRecord <$> fileLines data) = Some l -> pairs_of l = Ok kvs ->
  valued kvs /\ forall k, osafe (total k kvs).

Lemma reduce_task_output job past id st pst p t o :
  js_stages job !! id = Some st -> sg_stage st = reduce_stage_of a red ns2 sd ->
  js_stages job !! 0%N = Some pst -> sg_stage pst = map_stage_of n src ns1 sd ->
  (exists k, sg_tasks pst = (fun i => newTask (sg_stage pst) (k + i) i) <$> seq 0 (Z.to_nat n)) ->
  task_at (sg_stage st) p t -> Z.of_nat p < pt_NumPartitions (sd_Partitioner sd) -> produced job past id t o ->
  exists l kvs values l', transforms registry (chain_ops ns1) (lineRecord <$> fileLines data) = Some l /\ pairs_of l = Ok kvs /\
    holds values (fun k => if in_bucket (pt_NumPartitions (sd_Partitioner sd)) (Z.of_nat p) (k, ANil) then total k kvs else None) /\
    (length (sorted_records values) <= length data)%nat /\
    transforms registry (chain_ops ns2) (sorted_records values) = Some l' /\ o = action_output (act_Kind a) l'.
Proof.
  intros Hst Es Hpst Eps Hpk [k Et] Hp Hprod.
  inversion Hprod as [? ? ? st' e r c permit w w' before Hst' He Hr Hfed Hl Hret _ Eid Et' Eo].
  assert (st' = st) as -> by congruence. rewrite Es in Et, Hfed. cbn [reduce_stage_of st_ParentIDs] in Hfed.
  destruct (te_ShuffleInputs e) as [inputs|] eqn:Hin; [|by inversion Hfed].
  destruct Hns1 as [Hn1 Hf1], Hns2 as [Hn2 Hf2].
  destruct (map_stage_outputs job before 0%N pst ns1 sd inputs Hpos Hpst Eps Hpk Hcombine Hfn Hn1 Hf1 Hfed)
    as (l & kvss & outs & Hlines & Hkvs & Hw & Hpub). destruct (Hadds _ _ Hlines Hkvs) as [Hv Hs].
  set (K := pt_NumPartitions (sd_Partitioner sd)) in *.
  destruct (exchange_total true K (Z.of_nat p) kvss outs Hw Hv Hs) as (values & Hsum & Hvals).
  assert (Hlen : (length (sorted_records values) <= length data)%nat).
  { pose proof (holds_length values K (Z.of_nat p) _ Hvals). pose proof (pairs_of_length _ _ Hkvs).
    pose proof (transforms_length _ _ _ _ Hlines). pose proof (lines_length data). lia. }
  assert (Hops : te_Task e = newTask (reduce_stage_of a red ns2 sd) k p) by congruence.
  set (b := buckets_stream (rt_reads w) (Z.of_nat p) (is_Outputs inputs)).
  destruct (narrow_stream files (rt_reads w) e registry ns2 (reduce_records fn b) Hn2 Hf2) as (str & Hstr & Hlen' & Hend).
  assert (Hb : b.2 = None -> reduce_records fn b = (sorted_records values, None)).
  { intros Hb. rewrite <- Hsum. f_equal. eapply lossy_stream; [lia|exact Hl|exact Hpub| |done].
    apply Forall_concat, valued_durable. by eapply writes_total. }
  assert (Hstream : ops_stream files (rt_reads w) e registry None (t_Operations (te_Task e)) = Some str).
  { rewrite Hops. cbn. unfold op_stream. cbn [shuffleReadOperation so_Kind so_RDD]. rewrite Hin, Hops. cbn.
    destruct Hred as [-> ->]. rewrite Hfn. exact Hstr. }
  destruct (result_attempt files registry files_fit r c permit e w w' o a str Hr Hret) as [Hnone ->]; rewrite ?Hops; try done.
  - by rewrite <- Hops.
  - assert ((length (reduce_records fn b).1 <= length data)%nat).
    { destruct b as [bl [x|]]; [|by rewrite Hb]. unfold reduce_records. cbn. destruct (fold_records fn ∅ bl); cbn; lia. }
    pose proof (files_fit _ _ Hdata). lia.
  - destruct (Hend Hnone) as [Hr2 Htr]. exists l, (concat kvss), values, str.1. split_and!; try done.
    rewrite Hb in Htr; [done|]. destruct b as [bl [x|]]; [|done]. revert Hr2. unfold reduce_records. cbn. by destruct (fold_records fn ∅ bl).
Qed.

End reduce.
End file.

(** ** Jobs *)

(** The sizes that keep the arithmetic of a job within 64 bits. *)
Definition job_fits (s : Spec) (data : list N) : Prop :=
  src_NumPartitions (spec_Source s) < 2 ^ 63 /\
  Z.of_nat (length data) * src_NumPartitions (spec_Source s) < 2 ^ 63 /\
  Forall (fun t => Z.of_nat (length data) * tr_NumPartitions t < 2 ^ 63) (spec_Transformations s) /\
  (N.of_nat (length (spec_Transformations s)) + 1 < 2 ^ 64)%N.

(** The reduce of a job is by the function that adds up, on values it understands
    and with sums that are safe. *)
Definition adds_up (ts : list TransformationSpec) (lines : list any) : Prop :=
  forall ts1 t ts2, ts = ts1 ++ t :: ts2 -> tr_Kind t = OpReduceByKey ->
    fr_reducers registry !! tr_FunctionID t = Some fn /\
    forall l kvs, transforms registry (spec_ops ts1) lines = Some l -> pairs_of l = Ok kvs ->
      valued kvs /\ forall k, osafe (total k kvs).

Lemma single_stage_job s data job past res p src ns a :
  spec_ok s -> job_fits s data -> files (src_Path (spec_Source s)) = Ok data -> source_of s src ->
  act_Kind a = spec_Action s -> js_action job = a ->
  narrow_nodes (registryLookup registry) (spec_Transformations s) ns ->
  sp_Stages p = [single_stage a (src_NumPartitions (spec_Source s)) src ns] ->
  (forall id st, js_stages job !! id = Some st ->
    sg_stage st ∈ sp_Stages p /\ st_ID (sg_stage st) = id /\ sg_outputs st = ∅ /\
    exists k, sg_tasks st = (fun i => newTask (sg_stage st) (k + i) i) <$> seq 0 (Z.to_nat (st_NumPartitions (sg_stage st)))) ->
  answered files registry job past res ->
  exists l, means (R := R) registry (spec_Transformations s) (lineRecord <$> fileLines data) l /\ answers (spec_Action s) l res.
Proof.
  intros Hs (Hn & Hfit & _ & _) Hdata [Hsrc Hpath] Ha Hja (_ & Hnar & Hf & Hops) Hp Hstages (st & outputs & Hst & -> & Hsize & Hout).
  set (n := src_NumPartitions (spec_Source s)) in *. rewrite <- Hpath in Hdata.
  destruct (Hstages _ _ Hst) as (Es & _ & _ & k & Hk). rewrite Hp in Es. apply list_elem_of_singleton in Es.
  assert (Hpos : 0 < n) by apply Hs.
  assert (Hkind : act_Kind a = ActionCollect \/ act_Kind a = ActionCount) by (rewrite Ha; apply Hs).
  assert (Hlen : length (sg_tasks st) = Z.to_nat n) by by rewrite Hk, length_fmap, length_seq, Es.
  destruct (list_choice (fun i l => transforms registry (chain_ops ns) (part data n i) = Some l /\
    outputs !! Z.of_nat i = Some (action_output (act_Kind a) l)) (Z.to_nat n)) as (ls & Hls & HP).
  { intros i Hi. destruct (lookup_lt_is_Some_2 (sg_tasks st) i) as [t Ht]; [lia|]. destruct (Hout _ _ Ht) as (o & Ho & Hprod).
    rewrite Hk, list_lookup_fmap in Ht. apply fmap_Some in Ht as (i' & [-> _]%lookup_seq & Et).
    destruct (source_task data n src Hsrc Hdata Hn Hfit job past _ st i t o a ns Hst Es (ex_intro _ _ Et) ltac:(lia))
      as (l & Hl & ->); try done; [destruct Hkind as [-> | ->]; done|]. by exists l. }
  assert (Hall : transforms registry (chain_ops ns) (lineRecord <$> fileLines data) = Some (concat ls)).
  { rewrite <- (parts_concat data n Hpos). apply transforms_concat.
    { destruct (Z.to_nat n) eqn:E; [lia|done]. }
    apply Forall2_same_length_lookup. rewrite length_fmap, length_seq. split; [done|]. intros i x l.
    rewrite list_lookup_fmap. intros (i' & [-> _]%lookup_seq & ->)%fmap_Some Hl. by apply HP. }
  exists (concat ls). split; [apply means_transforms; by rewrite <- Hops|]. rewrite Hja, <- Ha. apply merge_answers; [done| |congruence|].
  - intros i l Hl. by apply HP.
  - pose proof (transforms_length _ _ _ _ Hall). pose proof (lines_length data). pose proof (files_fit _ _ Hdata). lia.
Qed.

Lemma two_stage_job s data job past res p src a ts1 t ts2 ns1 red ns2 sid c cs m :
  let n := src_NumPartitions (spec_Source s) in let sd := shuffle_dep sid t in
  spec_ok s -> job_fits s data -> files (src_Path (spec_Source s)) = Ok data -> source_of s src ->
  act_Kind a = spec_Action s -> js_action job = a -> adds_up (spec_Transformations s) (lineRecord <$> fileLines data) ->
  spec_Transformations s = ts1 ++ t :: ts2 -> tr_Kind t = OpReduceByKey -> 0 < tr_NumPartitions t ->
  narrow_nodes (registryLookup registry) ts1 ns1 -> narrow_nodes (registryLookup registry) ts2 ns2 ->
  op_Kind (node_Operator red) = OpReduceByKey -> op_FunctionID (node_Operator red) = tr_FunctionID t ->
  sp_Stages p = [map_stage_of n src ns1 sd; reduce_stage_of a red ns2 sd] -> job_is job m c cs ->
  (forall id st, js_stages job !! id = Some st ->
    sg_stage st ∈ sp_Stages p /\ st_ID (sg_stage st) = id /\ sg_outputs st = ∅ /\
    exists k, sg_tasks st = (fun i => newTask (sg_stage st) (k + i) i) <$> seq 0 (Z.to_nat (st_NumPartitions (sg_stage st)))) ->
  answered files registry job past res ->
  exists l, means (R := R) registry (spec_Transformations s) (lineRecord <$> fileLines data) l /\ answers (spec_Action s) l res.
Proof.
  intros n sd Hs (Hn & Hfit & Hfits & _) Hdata [Hsrc Hpath] Ha Hja Hadds Ets Hk HK (_ & Hn1 & Hf1 & Ho1) (_ & Hn2 & Hf2 & Ho2) Hrk Hrf Hp Hjob
    Hstages (st & outputs & Hst & -> & Hsize & Hout).
  rewrite <- Hpath in Hdata. destruct (Hadds _ _ _ Ets Hk) as [Hfn Hsums]. rewrite <- Ho1 in Hsums.
  assert (Hpos : 0 < n) by apply Hs. set (K := tr_NumPartitions t) in *.
  assert (Hkind : act_Kind a = ActionCollect \/ act_Kind a = ActionCount) by (rewrite Ha; apply Hs).
  (* the two stages *)
  assert (Hcs : js_stages job !! js_resultStageID job = Some cs) by (rewrite (proj1 Hjob); by eapply job_is_result).
  rewrite Hst in Hcs. injection Hcs as <-. destruct (Hstages _ _ Hst) as (Es & _ & _ & k & Htasks). rewrite Hp in Es.
  apply elem_of_cons in Es as [Es|Es%list_elem_of_singleton]; [by destruct Hjob as (_ & Hres & _); rewrite Es in Hres|].
  assert (exists pst, js_stages job !! 0%N = Some pst) as [pst Hpst].
  { destruct m as [[mid ms]|]; [|by destruct Hjob as (_ & _ & _ & _ & _ & Hpar); rewrite Es in Hpar].
    exists ms. pose proof (job_is_map _ _ _ _ _ Hjob) as Hm. destruct Hjob as (_ & _ & _ & _ & _ & _ & Hpar & _).
    rewrite Es in Hpar. by injection Hpar as <-. }
  destruct (Hstages _ _ Hpst) as (Eps & Hid & _ & Hptasks). rewrite Hp in Eps.
  apply elem_of_cons in Eps as [Eps|Eps%list_elem_of_singleton]; [|by rewrite Eps in Hid].
  rewrite Eps in Hptasks. cbn [map_stage_of st_NumPartitions] in Hptasks. rewrite <- Eps in Hptasks.
  assert (Hlen : length (sg_tasks st) = Z.to_nat K) by by rewrite Htasks, length_fmap, length_seq, Es.
  assert (Htask : forall i, (i < Z.to_nat K)%nat -> exists o, outputs !! Z.of_nat i = Some o /\
    exists l kvs values l', transforms registry (chain_ops ns1) (lineRecord <$> fileLines data) = Some l /\ pairs_of l = Ok kvs /\
      holds values (fun k => if in_bucket K (Z.of_nat i) (k, ANil) then total k kvs else None) /\
      (length (sorted_records values) <= length data)%nat /\
      transforms registry (chain_ops ns2) (sorted_records values) = Some l' /\ o = action_output (act_Kind a) l').
  { intros i Hi. destruct (lookup_lt_is_Some_2 (sg_tasks st) i) as [u Hu]; [lia|]. destruct (Hout _ _ Hu) as (o & Ho & Hprod).
    exists o. split; [done|]. rewrite Htasks, list_lookup_fmap in Hu. apply fmap_Some in Hu as (i' & [-> _]%lookup_seq & Eu).
    apply (reduce_task_output data n src Hsrc Hdata Hn Hfit a red ns1 ns2 sd) with (job := job) (past := past)
      (id := js_resultStageID job) (st := st) (pst := pst) (t := u); try done.
    - destruct Hkind as [-> | ->]; done.
    - by exists (k + i)%nat.
    - cbn. fold K. lia. }
  destruct (Htask 0%nat) as (_ & _ & l & kvs & _ & _ & Hl & Hkvs & _); [lia|].
  destruct (list_choice (fun i y => outputs !! Z.of_nat i = Some (action_output (act_Kind a) y.2) /\
      holds y.1 (fun k => if in_bucket K (Z.of_nat i) (k, ANil) then total k kvs else None) /\
      (length (sorted_records y.1) <= length data)%nat /\
      transforms registry (chain_ops ns2) (sorted_records y.1) = Some y.2) (Z.to_nat K)) as (ys & Hys & HP).
  { intros i Hi. destruct (Htask i Hi) as (o & Ho & l1 & kvs1 & values & l' & Hl1 & Hkvs1 & Hv & Hle & Hl' & ->).
    assert (kvs1 = kvs) as -> by congruence. exists (values, l'). by split_and!. }
  assert (Hall : transforms registry (chain_ops ns2) (concat (sorted_records <$> ys.*1)) = Some (concat ys.*2)).
  { apply transforms_concat; [destruct ys; [cbn in Hys; lia|done]|]. rewrite <- list_fmap_compose.
    apply Forall2_fmap, Forall_Forall2_diag, Forall_lookup_2. intros i y Hy. by destruct (HP _ _ Hy) as (_ & _ & _ & H). }
  exists (concat ys.*2). split.
  - rewrite Ets. apply (means_app (R := R) registry ts1 (t :: ts2) _ l); [apply means_transforms; by rewrite <- Ho1|].
    apply (means_reduce (R := R) registry t ts2 l kvs ys.*1); try done.
    + split; [by rewrite length_fmap|]. intros i vs. rewrite list_lookup_fmap. intros (y & Hy & ->)%fmap_Some. by apply HP.
    + apply means_transforms. by rewrite <- Ho2.
  - rewrite Hja, <- Ha. apply merge_answers; [done| |by rewrite length_fmap; congruence|].
    + intros i l1. rewrite list_lookup_fmap. intros (y & Hy & ->)%fmap_Some. by apply HP.
    + assert (Hb : (length (concat ys.*2) <= length ys.*2 * length data)%nat).
      { apply concat_bound, Forall_fmap, Forall_lookup_2. intros i y Hy.
        destruct (HP _ _ Hy) as (_ & _ & Hle & Htr). apply transforms_length in Htr. cbn. lia. }
      rewrite length_fmap, Hys in Hb. assert (Z.of_nat (length data) * K < 2 ^ 63); [|nia].
      rewrite Forall_forall in Hfits. apply Hfits. rewrite Ets. set_solver.
Qed.

(** C1. The answer of a job is what its specification means.  Whatever
    is submitted beside it, whichever attempts fail, are repeated or lose the
    buckets they read, and in whatever order reports arrive: a result that the
    scheduler answers a job with is the action on the records that the
    transformations of its specification define on the lines of its file. *)
Theorem job_correct s rdd g d j res data :
  deployed files registry d -> Build s NewRDDGraph = (Ok rdd, g) ->
  dp_jobs d !! j = Some (Some g, mkAction (spec_Action s) rdd) ->
  Respond j (Ok res) ∈ w_log (dp_world d) ->
  files (src_Path (spec_Source s)) = Ok data -> job_fits s data ->
  adds_up (spec_Transformations s) (lineRecord <$> fileLines data) ->
  exists l, means (R := R) registry (spec_Transformations s) (lineRecord <$> fileLines data) l /\
    answers (spec_Action s) l res.
Proof.
  intros Hd HB Hj Hres Hdata Hfit Hadds. destruct (dv_answers _ _ _ (deployed_inv _ _ _ Hd) _ _ Hres) as (job & Hpl & Hans).
  destruct (planned_job _ _ _ _ Hpl) as (g' & a & p & tasks & Hj' & Hp & Ha & (c & cs & m & Hjob) & Hstages).
  rewrite Hj in Hj'. injection Hj' as <- <-. unfold planJob in Hp. cbn [job_planner dag_planner] in Hp.
  destruct (PlanAction _ (Some g) _) as [[p'|]|] eqn:EP; [|done..]. cbn [fbind] in Hp.
  destruct (validateExecutionPlan p') as [[]|] eqn:Hv; [|done]. destruct (GenerateTasks p'); [|done]. injection Hp as -> _.
  pose proof Hfit as (_ & _ & _ & Hlen).
  destruct (spec_stages s g rdd (registryLookup registry) p HB Hlen EP Hv) as (Hs & src & Hsrc &
    [(ns & Hns & Est)|(ts1 & t & ts2 & ns1 & red & ns2 & sid & Ets & Hk & HK & Hns1 & Hns2 & Hrk & Hrf & _ & Est)]).
  - by apply (single_stage_job s data job (dp_past d) res p src ns (mkAction (spec_Action s) rdd)).
  - by apply (two_stage_job s data job (dp_past d) res p src (mkAction (spec_Action s) rdd) ts1 t ts2 ns1 red ns2 sid c cs m).
Qed.

End jobs.

(** ** The answer of the example *)

Lemma words_fits : job_fits words_spec (bytes_of words_text).
Proof.
  split_and!; [done|vm_compute; reflexivity| |done]. repeat (apply Forall_cons_2; [vm_compute; reflexivity|]). apply Forall_nil_2.
Qed.

Definition words_records : list any :=
  [AKeyValue "cat" (AInt 1); AKeyValue "dog" (AInt 1); AKeyValue "cat" (AInt 1); AKeyValue "ant" (AInt 1)].

Lemma words_transformed :
  transforms words_registry (spec_ops (take 3 (spec_Transformations words_spec))) (lineRecord <$> fileLines (bytes_of words_text)) =
    Some words_records.
Proof. vm_compute. reflexivity. Qed.

Lemma words_reducer : fr_reducers words_registry !! "sum_int" = Some sum_int.
Proof. reflexivity. Qed.

Lemma words_adds_up : adds_up (R := SumInt) words_registry (spec_Transformations words_spec) (lineRecord <$> fileLines (bytes_of words_text)).
Proof.
  intros ts1 t ts2 E Hk.
  assert (H : ts1 = take 3 (spec_Transformations words_spec) /\ t = mkTransformation OpReduceByKey "sum_int" 2).
  { destruct ts1 as [|? [|? [|? [|? ts1]]]]; try (by injection E as <-); cbn in E; try (by simplify_list_eq).
    simplify_list_eq. by destruct ts1. }
  destruct H as [-> ->]. split; [exact words_reducer|]. intros l kvs Hl Hkvs. rewrite words_transformed in Hl. injection Hl as <-.
  injection Hkvs as <-. split; [repeat (apply Forall_cons_2; [by eexists|]); apply Forall_nil_2|].
  intros k. cbn. repeat case_decide; vm_compute; done.
Qed.

(** The example job is answered with the counts of its words. *)
Lemma job_correct_witness : exists l,
  means (R := SumInt) words_registry (spec_Transformations words_spec) (lineRecord <$> fileLines (bytes_of words_text)) l /\
  answers ActionCollect l words_result.
Proof.
  apply (@job_correct DiskStore DiskReads DiskWrites N sum_int SumInt words_files words_registry words_fit words_spec 4%N words_graph
           words_answered 0%N words_result (bytes_of words_text)).
  - exact words_answered_deployed.
  - exact words_built.
  - vm_compute. reflexivity.
  - exact words_answer.
  - reflexivity.
  - exact words_fits.
  - exact words_adds_up.
Defined.
