(* ===== verification/StoreOps.v ===== *)
(** * StoreOps: the operations of the file store's methods

    The methods of [shuffle/{filesystem,writer,reader}.go] as programs: what a
    method does to the shared state, one operation of the file system, of the
    store's counts or of the context at a time.  Run without interruption a
    program is the function of [FileStore]; [op_step] says what one operation may
    do while others run, as [StoreSystem] does. *)

From S2P Require Import Prelude Bytes Plan Stages Shuffle Reports Runtime TextSource Iterator FileStore.
#[local] Open Scope Z_scope.

(** ** Programs *)

(** [UseFile] is a [Stat] or [Read] of an open file and [CloseFile] closes it. *)
Inductive op : Type :=
  | CtxErr (c : goContext)
  | CtxCause (c : goContext)
  | Acquire (run : string)
  | Release (run : string)
  | Lstat (path : string)
  | MkdirAll (path : string)
  | RandRead
  | Mkdir (path : string)
  | RemoveAll (path : string)
  | Rename (old new : string)
  | OpenFile (mode : openMode) (path name : string)
  | WriteFile (mode : openMode) (path name : string) (data : list N)
  | LstatFile (path name : string)
  | OpenRead (path name : string)
  | UseFile
  | CloseFile.

Definition reply (o : op) : Type :=
  match o with
  | CtxErr _ | CtxCause _ => option error
  | Release _ => unit
  | RandRead | OpenRead _ _ => result (list N)
  | CloseFile => nat
  | _ => result unit
  end.

Inductive prog (A : Type) : Type :=
  | Ret (a : A)
  | Op (o : op) (k : reply o -> prog A).
Arguments Ret {A} a.
Arguments Op {A} o k.

Fixpoint bindP {A B} (p : prog A) (f : A -> prog B) : prog B :=
  match p with
  | Ret a => f a
  | Op o k => Op o (fun r => bindP (k r) f)
  end.

Notation "'let!' x := p 'in' q" := (bindP p (fun x => q)) (at level 200, x strict pattern, p at level 100, q at level 200).
Notation "'do!' x := o 'in' q" := (Op o (fun x => q)) (at level 200, x name, o at level 100, q at level 200).

Section programs.
Context {RC : RecordCodec}.
Variable faults : nat -> option fault.
Variable nonce : nat -> list N.

Notation world := (runtime filesystem).

(** ** Writers *)

(** [finish], [abort] and [check]. *)
Definition finishP (err : option error) (wr : fileWriter) : prog fileWriter :=
  do! _ := Release (ai_RunID (mo_Attempt (fw_output wr))) in
  Ret (mkWriter (fw_output wr) (fw_hashes wr) (fw_private wr) (fw_final wr) true err).

Definition abortP (cause : option error) (wr : fileWriter) : prog (option error * fileWriter) :=
  do! r := RemoveAll (fw_private wr) in
  let err := errors_Join [cause; match r with Err e => Some e | Ok _ => None end] in
  let! wr := finishP err wr in
  Ret (err, wr).

Definition causeP (c : goContext) (err : error) : prog error :=
  do! e := CtxCause c in Ret (default err e).

Definition checkP (c : goContext) (wr : fileWriter) : prog (option error * fileWriter) :=
  if fw_closed wr then Ret (Some (default ErrClosed (fw_err wr)), wr)
  else
    do! e := CtxErr c in
    match e with
    | Some err => let! err := causeP c err in abortP (Some err) wr
    | None => Ret (None, wr)
    end.

(** The callback of [context.AfterFunc], which runs when the context has ended. *)
Definition afterP (c : goContext) (wr : fileWriter) : prog fileWriter :=
  do! e := CtxErr c in
  match e with
  | Some err =>
      if fw_closed wr then Ret wr
      else let! err := causeP c err in let! r := abortP (Some err) wr in Ret r.2
  | None => Ret wr
  end.

Definition appendP (private : string) (partition : PartitionID) (data : list N) : prog (result unit) :=
  do! r := OpenFile O_APPEND private (bucketName partition) in
  match r with
  | Err err => Ret (Err err)
  | Ok _ =>
      do! r := WriteFile O_APPEND private (bucketName partition) data in
      Ret (map_err (fun e => EJoin [e]) r)
  end.

Definition writeP (c : goContext) (wr : fileWriter) (key : string) (value : any) : prog (option error * fileWriter) :=
  let! (e, wr) := checkP c wr in
  match e with
  | Some err => Ret (Some err, wr)
  | None =>
      match EncodeRecord key value with
      | Err err => abortP (Some err) wr
      | Ok data =>
          match PartitionFor key (mo_NumReducePartitions (fw_output wr)) with
          | Err err => abortP (Some err) wr
          | Ok partition =>
              let! r := appendP (fw_private wr) partition data in
              match r with
              | Err err => abortP (Some err) wr
              | Ok _ => checkP c (addRecord (Z.to_nat partition) data wr)
              end
          end
      end
  end.

(** [Publish]: its loop over the buckets, the manifest, [Lstat] and [Rename]. *)
Fixpoint bucketsP (c : goContext) (i : nat) (todo : list (option (list N))) (wr : fileWriter)
    : prog (option error * fileWriter) :=
  match todo with
  | [] => Ret (None, wr)
  | h :: todo =>
      let! (e, wr) := checkP c wr in
      match e with
      | Some err => Ret (Some err, wr)
      | None =>
          match h with
          | Some bytes => bucketsP c (S i) todo (setDigest i (sha256_hex bytes) wr)
          | None =>
              let partition := match mo_Buckets (fw_output wr) !! i with
                               | Some b => bk_PartitionID b | None => 0 end in
              do! r := OpenFile O_EXCL (fw_private wr) (bucketName partition) in
              match r with
              | Err err => abortP (Some err) wr
              | Ok _ => bucketsP c (S i) todo wr
              end
          end
      end
  end.

Definition manifestP (path : string) (data : list N) : prog (result unit) :=
  do! r := OpenFile O_TRUNC path "manifest.json" in
  match r with
  | Err err => Ret (Err err)
  | Ok _ => do! r := WriteFile O_TRUNC path "manifest.json" data in Ret r
  end.

Definition directoryP (private final : string) : prog (result unit) :=
  do! r := Lstat final in
  match r with
  | Ok _ => Ret (Err ErrOutputExists)
  | Err err =>
      if errors_Is err fs_ErrNotExist then
        do! r := Rename private final in
        match r with
        | Ok _ => Ret (Ok tt)
        | Err err =>
            do! r := Lstat final in
            Ret (Err (match r with Ok _ => EJoin [ErrOutputExists; err] | Err _ => err end))
        end
      else Ret (Err err)
  end.

Definition failP (err : error) (wr : fileWriter) : prog (result MapOutput * fileWriter) :=
  let! r := abortP (Some err) wr in Ret (Err (default err r.1), r.2).

Definition publishManifestP (c : goContext) (wr : fileWriter) : prog (result MapOutput * fileWriter) :=
  match manifestBytes (fw_output wr) with
  | Err err => failP err wr
  | Ok data =>
      let! r := manifestP (fw_private wr) data in
      match r with
      | Err err => failP err wr
      | Ok _ =>
          let! (e, wr) := checkP c wr in
          match e with
          | Some err => Ret (Err err, wr)
          | None =>
              let! r := directoryP (fw_private wr) (fw_final wr) in
              match r with
              | Err err => failP err wr
              | Ok _ => let! wr := finishP None wr in Ret (Ok (fw_output wr), wr)
              end
          end
      end
  end.

Definition publishP (c : goContext) (wr : fileWriter) : prog (result MapOutput * fileWriter) :=
  let! (e, wr) := checkP c wr in
  match e with
  | Some err => Ret (Err err, wr)
  | None =>
      let! (e, wr) := bucketsP c 0 (fw_hashes wr) wr in
      match e with
      | Some err => Ret (Err err, wr)
      | None => publishManifestP c wr
      end
  end.

Definition abortMethodP (wr : fileWriter) : prog (option error * fileWriter) :=
  if fw_closed wr then Ret (fw_err wr, wr) else abortP None wr.

(** [Begin]. *)
Definition createP (a : AttemptIdentity) : prog (result string) :=
  let fail err := do! _ := Release (ai_RunID a) in Ret (Err err) in
  do! r := MkdirAll (attemptPath a) in
  match r with
  | Err err => fail err
  | Ok _ =>
      do! bytes := RandRead in
      match bytes with
      | Err err => fail err
      | Ok bytes =>
          do! r := Mkdir (privatePath a bytes) in
          match r with
          | Err err => fail err
          | Ok _ => Ret (Ok (privatePath a bytes))
          end
      end
  end.

Definition beginP (c : goContext) (a : AttemptIdentity) (maps reduces : Z) : prog (result fileWriter) :=
  do! e := CtxErr c in
  match e with
  | Some err => let! err := causeP c err in Ret (Err err)
  | None =>
      match initialOutput a maps reduces with
      | Err err => Ret (Err err)
      | Ok output =>
          do! r := Acquire (ai_RunID a) in
          match r with
          | Err err => Ret (Err err)
          | Ok _ =>
              do! r := Lstat (attemptPath a) in
              match r with
              | Ok _ => do! _ := Release (ai_RunID a) in Ret (Err ErrOutputExists)
              | Err err =>
                  if errors_Is err fs_ErrNotExist then
                    let! private := createP a in
                    Ret (private ← private; Ok (newFileWriter output private (attemptPath a)))
                  else do! _ := Release (ai_RunID a) in Ret (Err err)
              end
          end
      end
  end.

(** ** Readers *)

Definition openRegularP (path name : string) : prog (result (list N)) :=
  do! r := LstatFile path name in
  match r with
  | Err err => Ret (Err err)
  | Ok _ =>
      do! f := OpenRead path name in
      match f with
      | Err err => Ret (Err err)
      | Ok data => do! r := UseFile in Ret (match r with Ok _ => Ok data | Err e => Err (EJoin [e]) end)
      end
  end.

Definition readManifestP (path : string) : prog (result (list N)) :=
  let! r := openRegularP path "manifest.json" in
  match r with
  | Err err => Ret (Err err)
  | Ok data =>
      do! r := UseFile in
      Ret (match r with Ok _ => Ok (limitReader (MaxManifestBytes + 1) data) | Err e => Err (EJoin [e]) end)
  end.

Definition openBucketFileP (o : MapOutput) (p : PartitionID) (expected : list N) : prog (result (list N)) :=
  let directory := attemptPath (mo_Attempt o) in
  let! data := readManifestP directory in
  match data with
  | Err err => Ret (Err err)
  | Ok data =>
      if negb (bool_decide (data = expected)) then Ret (Err (Errorf "manifest differs from accepted output" []))
      else
        let! f := openRegularP directory (bucketName p) in
        match f with
        | Err err => Ret (Err err)
        | Ok contents =>
            do! r := UseFile in
            Ret (match r with
                 | Err e => Err (EJoin [e])
                 | Ok _ => if Z.of_nat (length contents) =? bk_ByteCount (br_bucket (newReader o p contents)) then Ok contents
                           else Err (EJoin [Errorf "bucket size differs from accepted output" []])
                 end)
        end
  end.

Definition openP (c : goContext) (o : MapOutput) (p : PartitionID) : prog (result fileBucketReader) :=
  do! e := CtxErr c in
  match e with
  | Some err => let! err := causeP c err in Ret (Err err)
  | None =>
      match manifestBytes o with
      | Err err => Ret (Err err)
      | Ok expected =>
          if (p <? 0) || (mo_NumReducePartitions o <=? p) then Ret (Err (Errorf "invalid reduce partition %d" [FInt p]))
          else
            do! r := Acquire (ai_RunID (mo_Attempt o)) in
            match r with
            | Err err => Ret (Err err)
            | Ok _ =>
                let! f := openBucketFileP o p expected in
                match f with
                | Ok contents => Ret (Ok (newReader o p contents))
                | Err err =>
                    do! _ := Release (ai_RunID (mo_Attempt o)) in
                    do! e := CtxErr c in
                    match e with
                    | Some e => let! e := causeP c e in Ret (Err e)
                    | None => Ret (Err (InputError (mo_Attempt o) p err))
                    end
                end
            end
      end
  end.

Definition finishReaderP (err : option error) (r : fileBucketReader) : prog fileBucketReader :=
  do! n := CloseFile in
  let err := match faults n with
             | Some ft => errors_Join [err; Some (bucketError r (ft_err ft))]
             | None => err
             end in
  do! _ := Release (ai_RunID (mo_Attempt (br_output r))) in
  Ret (mkReader (br_output r) (br_partition r) (br_decoder r) (br_read r) (br_records r) (Some err) (Some n)).

Definition endReaderP (err : option error) (r : fileBucketReader)
    : prog (result (option (string * any)) * fileBucketReader) :=
  let! r := finishReaderP err r in
  Ret (match br_done r with Some (Some e) => Err e | _ => Ok None end, r).

Definition afterReaderP (c : goContext) (r : fileBucketReader) : prog fileBucketReader :=
  do! e := CtxErr c in
  match e, br_done r with
  | Some err, None => let! err := causeP c err in finishReaderP (Some err) r
  | _, _ => Ret r
  end.

Definition nextP (c : goContext) (r : fileBucketReader) : prog (result (option (string * any)) * fileBucketReader) :=
  match br_done r with
  | Some (Some err) => Ret (Err err, r)
  | Some None => Ret (Ok None, r)
  | None =>
      do! e := CtxErr c in
      match e with
      | Some err => let! err := causeP c err in endReaderP (Some err) r
      | None =>
          do! f := UseFile in
          do! e := CtxErr c in
          match e, f with
          | Some err, _ => let! err := causeP c err in endReaderP (Some err) r
          | None, Err err => endReaderP (Some (bucketError r (Errorf "read shuffle record: %w" [FWrap err]))) r
          | None, Ok _ =>
              let '(record, r) := nextStep r in
              match record with
              | Ok (Some record) => Ret (Ok (Some record), r)
              | Ok None => endReaderP None r
              | Err err => endReaderP (Some err) r
              end
          end
      end
  end.

Definition closeReaderP (r : fileBucketReader) : prog (option error * fileBucketReader) :=
  match br_done r with
  | Some _ => Ret (closeErr faults r, r)
  | None => let! r := finishReaderP (Some ErrClosed) r in Ret (closeErr faults r, r)
  end.

(** ** Programs without interruption *)

Definition exec_op (o : op) : world -> reply o * world :=
  match o return world -> reply o * world with
  | CtxErr c => readErr c
  | CtxCause c => readCause c
  | Acquire run => acquire run
  | Release run => fun w => (tt, release run w)
  | Lstat path => lstat faults path
  | MkdirAll path => mkdirAll faults path
  | RandRead => fun w => (Ok (nonce (fs_draws (rt_store w))), on_store count_draw w)
  | Mkdir path => mkdir faults path
  | RemoveAll path => removeAll faults path
  | Rename old new => rename faults old new
  | OpenFile mode path name => openFile faults mode path name
  | WriteFile mode path name data => writeFile faults mode path name data
  | LstatFile path name =>
      attempt faults (fun w => (match root w !! path ≫= (.!! name) with Some _ => Ok tt | None => Err ErrNotExist end, w))
  | OpenRead path name =>
      attempt faults (fun w => (match root w !! path ≫= (.!! name) with Some data => Ok data | None => Err ErrNotExist end, w))
  | UseFile => attempt faults (fun w => (Ok tt, w))
  | CloseFile => fun w => (fs_ops (rt_store w), (syscall faults w).2)
  end.

Fixpoint exec {A} (p : prog A) (w : world) : A * world :=
  match p with
  | Ret a => (a, w)
  | Op o k => let '(r, w) := exec_op o w in exec (k r) w
  end.

Lemma exec_bind {A B} (p : prog A) (f : A -> prog B) w :
  exec (bindP p f) w = let '(a, w) := exec p w in exec (f a) w.
Proof. revert w. induction p as [a|o k IH]; intros w; cbn; [done|]. destruct (exec_op o w). apply IH. Qed.

(** *** Run without interruption, each program is the function of [FileStore] *)

Notation run := (exec).

Lemma causeP_run c err w : run (causeP c err) w = cause c err w.
Proof. done. Qed.

Lemma finishP_run err wr w : run (finishP err wr) w = finishWriter err wr w.
Proof. done. Qed.

Lemma abortP_run x wr w : run (abortP x wr) w = abortWriter faults x wr w.
Proof.
  unfold abortP, abortWriter. cbn [exec exec_op]. destruct (removeAll faults _ w) as [r w1]. by rewrite exec_bind, finishP_run.
Qed.

Lemma checkP_run c wr w : run (checkP c wr) w = checkWriter faults c wr w.
Proof.
  unfold checkP, checkWriter. destruct (fw_closed wr); [done|]. cbn [exec exec_op]. destruct (readErr c w) as [[e|] w1]; [|done].
  rewrite exec_bind, causeP_run. destruct (cause c e w1) as [x w2]. apply abortP_run.
Qed.

Lemma afterP_run c wr w : run (afterP c wr) w = afterWriter faults c wr w.
Proof.
  unfold afterP, afterWriter. cbn [exec exec_op]. destruct (readErr c w) as [[e|] w1]; [|done]. destruct (fw_closed wr); [done|].
  rewrite exec_bind, causeP_run. destruct (cause c e w1) as [x w2]. rewrite exec_bind, abortP_run.
  by destruct (abortWriter _ _ _ w2) as [[? ?] ?].
Qed.

Lemma appendP_run private q data w : run (appendP private q data) w = appendBucket faults private q data w.
Proof.
  unfold appendP, appendBucket. cbn [exec exec_op]. destruct (openFile faults _ _ _ w) as [[[]|e] w1]; [|done].
  cbn [exec exec_op]. by destruct (writeFile faults _ _ _ _ w1).
Qed.

Lemma writeP_run c wr k v w :
  run (let! wr := afterP c wr in writeP c wr k v) w = WriteRecord faults c wr k v w.
Proof.
  rewrite exec_bind, afterP_run. unfold WriteRecord. destruct (afterWriter faults c wr w) as [wr1 w1].
  unfold writeP. rewrite exec_bind, checkP_run. destruct (checkWriter faults c wr1 w1) as [[[e|] wr2] w2]; [done|].
  destruct (EncodeRecord k v) as [data|x]; [|apply abortP_run]. destruct (PartitionFor k _) as [q|x]; [|apply abortP_run].
  rewrite exec_bind, appendP_run. destruct (appendBucket faults _ _ _ w2) as [[[]|x] w3]; [apply checkP_run|apply abortP_run].
Qed.

Lemma bucketsP_run c i todo wr w : run (bucketsP c i todo wr) w = publishBuckets faults c i todo wr w.
Proof.
  revert i wr w. induction todo as [|h todo IH]; intros i wr w; [done|]. cbn [bucketsP publishBuckets].
  rewrite exec_bind, checkP_run. destruct (checkWriter faults c wr w) as [[[e|] wr1] w1]; [done|]. destruct h; [apply IH|].
  cbn [exec exec_op]. destruct (openFile faults _ _ _ w1) as [[[]|x] w2]; [apply IH|apply abortP_run].
Qed.

Lemma manifestP_run path data w : run (manifestP path data) w = writeManifest faults path data w.
Proof.
  unfold manifestP, writeManifest. cbn [exec exec_op]. destruct (openFile faults _ _ _ w) as [[[]|e] w1]; [|done].
  cbn [exec exec_op]. by destruct (writeFile faults _ _ _ _ w1).
Qed.

Lemma directoryP_run private final w : run (directoryP private final) w = publishDirectory faults private final w.
Proof.
  unfold directoryP, publishDirectory. cbn [exec exec_op]. destruct (lstat faults final w) as [[[]|e] w1]; [done|].
  destruct (errors_Is e _); [|done]. cbn [exec exec_op]. destruct (rename faults _ _ w1) as [[[]|x] w2]; [done|].
  cbn [exec exec_op]. by destruct (lstat faults final w2).
Qed.

Lemma failP_run x wr w :
  run (failP x wr) w = let '(e, wr, w) := abortWriter faults (Some x) wr w in (Err (default x e), wr, w).
Proof. unfold failP. rewrite exec_bind, abortP_run. by destruct (abortWriter faults (Some x) wr w) as [[? ?] ?]. Qed.

Lemma publishManifestP_run c wr w : run (publishManifestP c wr) w = publishManifest faults c wr w.
Proof.
  unfold publishManifestP, publishManifest. destruct (manifestBytes _) as [data|x]; [|apply failP_run].
  rewrite exec_bind, manifestP_run. destruct (writeManifest faults _ _ w) as [[[]|x] w1]; [|apply failP_run].
  rewrite exec_bind, checkP_run. destruct (checkWriter faults c wr w1) as [[[e|] wr1] w2]; [done|].
  rewrite exec_bind, directoryP_run. destruct (publishDirectory faults _ _ w2) as [[[]|x] w3]; [|apply failP_run].
  by rewrite exec_bind, finishP_run.
Qed.

Lemma publishP_run c wr w : run (let! wr := afterP c wr in publishP c wr) w = PublishAttempt faults c wr w.
Proof.
  rewrite exec_bind, afterP_run. unfold PublishAttempt. destruct (afterWriter faults c wr w) as [wr1 w1].
  unfold publishP. rewrite exec_bind, checkP_run. destruct (checkWriter faults c wr1 w1) as [[[e|] wr2] w2]; [done|].
  rewrite exec_bind, bucketsP_run. destruct (publishBuckets faults c 0 _ wr2 w2) as [[[e|] wr3] w3]; [done|].
  apply publishManifestP_run.
Qed.

Lemma abortMethodP_run c wr w : run (let! wr := afterP c wr in abortMethodP wr) w = AbortAttempt faults c wr w.
Proof.
  rewrite exec_bind, afterP_run. unfold AbortAttempt, abortMethodP. destruct (afterWriter faults c wr w) as [wr1 w1].
  destruct (fw_closed wr1); [done|apply abortP_run].
Qed.

Lemma createP_run a w : run (createP a) w = createPrivate faults nonce a w.
Proof.
  unfold createP, createPrivate. cbn [exec exec_op]. destruct (mkdirAll faults _ w) as [[[]|x] w1]; [|done].
  cbn [exec exec_op]. by destruct (mkdir faults _ _) as [[[]|x] w2].
Qed.

Lemma beginP_run c a m n w : run (beginP c a m n) w = BeginAttempt faults nonce c a m n w.
Proof.
  unfold beginP, BeginAttempt. cbn [exec exec_op]. destruct (readErr c w) as [[e|] w1].
  { rewrite exec_bind, causeP_run. by destruct (cause c e w1). }
  destruct (initialOutput a m n) as [o|x]; [|done]. cbn [exec exec_op]. destruct (acquire _ w1) as [[[]|x] w2]; [|done].
  cbn [exec exec_op]. destruct (lstat faults _ w2) as [[[]|x] w3]; [done|]. destruct (errors_Is x _); [|done].
  rewrite exec_bind, createP_run. by destruct (createPrivate faults nonce a w3).
Qed.

Lemma openRegularP_run path name w : run (openRegularP path name) w = openRegular faults path name w.
Proof.
  unfold openRegularP, openRegular, attempt. cbn [exec exec_op]. unfold attempt, syscall.
  destruct (faults _) as [ft|]; [done|]. change (root (on_store count_op w)) with (root w).
  destruct (root w !! path ≫= lookup name) as [data|] eqn:E; [|done]. cbn [exec exec_op]. unfold attempt, syscall.
  destruct (faults _) as [ft|]; [done|]. change (root (on_store count_op (on_store count_op w))) with (root w). rewrite E.
  cbn [exec exec_op]. unfold attempt, syscall. by destruct (faults _).
Qed.

Lemma readManifestP_run path w : run (readManifestP path) w = readManifest faults path w.
Proof.
  unfold readManifestP, readManifest. rewrite exec_bind, openRegularP_run. destruct (openRegular faults _ _ w) as [[data|x] w1]; [|done].
  cbn [exec exec_op]. unfold attempt. destruct (syscall faults w1) as [[ft|] w2]; done.
Qed.

Lemma openBucketFileP_run o p expected w : run (openBucketFileP o p expected) w = openBucketFile faults o p expected w.
Proof.
  unfold openBucketFileP, openBucketFile. rewrite exec_bind, readManifestP_run.
  destruct (readManifest faults _ w) as [[data|x] w1]; [|done]. destruct (negb _); [done|].
  rewrite exec_bind, openRegularP_run. destruct (openRegular faults _ _ w1) as [[contents|x] w2]; [|done].
  cbn [exec exec_op]. unfold attempt. destruct (syscall faults w2) as [[ft|] w3]; [done|]. by destruct (_ =? _).
Qed.

Lemma openP_run c o p w : run (openP c o p) w = OpenBucketReader faults c o p w.
Proof.
  unfold openP, OpenBucketReader. cbn [exec exec_op]. destruct (readErr c w) as [[e|] w1].
  { rewrite exec_bind, causeP_run. by destruct (cause c e w1). }
  destruct (manifestBytes o) as [data|x]; [|done]. destruct (_ || _); [done|]. cbn [exec exec_op].
  destruct (acquire _ w1) as [[[]|x] w2]; [|done]. rewrite exec_bind, openBucketFileP_run.
  destruct (openBucketFile faults o p data w2) as [[contents|x] w3]; [done|]. cbn [exec exec_op].
  destruct (readErr c _) as [[e|] w4]; [|done]. rewrite exec_bind, causeP_run. by destruct (cause c e w4).
Qed.

Lemma finishReaderP_run err r w : run (finishReaderP err r) w = finishReader faults err r w.
Proof. unfold finishReaderP, finishReader. cbn [exec exec_op]. by unfold syscall. Qed.

Lemma endReaderP_run err r w : run (endReaderP err r) w = endReader faults err r w.
Proof. unfold endReaderP, endReader. rewrite exec_bind, finishReaderP_run. by destruct (finishReader faults err r w). Qed.

Lemma afterReaderP_run c r w : run (afterReaderP c r) w = afterReader faults c r w.
Proof.
  unfold afterReaderP, afterReader. cbn [exec exec_op]. destruct (readErr c w) as [[e|] w1]; [|done].
  destruct (br_done r); [done|]. rewrite exec_bind, causeP_run. destruct (cause c e w1). apply finishReaderP_run.
Qed.

Lemma nextP_run c r w : run (let! r := afterReaderP c r in nextP c r) w = NextRecord faults c r w.
Proof.
  rewrite exec_bind, afterReaderP_run. unfold NextRecord, nextP. destruct (afterReader faults c r w) as [r1 w1].
  destruct (br_done r1) as [[x|]|]; [done|done|]. cbn [exec exec_op]. destruct (readErr c w1) as [[e|] w2].
  { rewrite exec_bind, causeP_run. destruct (cause c e w2). apply endReaderP_run. }
  cbn [exec exec_op]. unfold attempt. destruct (syscall faults w2) as [ft w3]. destruct ft as [ft|]; cbn [exec exec_op].
  - destruct (readErr c w3) as [[e|] w4]; [|apply endReaderP_run]. rewrite exec_bind, causeP_run.
    destruct (cause c e w4). apply endReaderP_run.
  - destruct (readErr c w3) as [[e|] w4].
    + rewrite exec_bind, causeP_run. destruct (cause c e w4). apply endReaderP_run.
    + destruct (nextStep r1) as [[[record|]|x] r2]; [done|apply endReaderP_run..].
Qed.

Lemma closeReaderP_run r w : run (closeReaderP r) w = CloseBucketReader faults r w.
Proof.
  unfold closeReaderP, CloseBucketReader. destruct (br_done r); [done|]. rewrite exec_bind, finishReaderP_run.
  by destruct (finishReader faults _ r w).
Qed.

End programs.

(** ** An operation while others run *)

(** What the goroutines share: the directory, the counts and [closed]. *)
Record shared := mkShared {
  sh_root : gmap string directory;
  sh_active : gmap string Z;
  sh_closed : bool }.

Definition shared_of (w : runtime filesystem) : shared :=
  mkShared (root w) (fs_active (rt_store w)) (fs_closed (rt_store w)).

Definition with_root (f : gmap string directory -> gmap string directory) (s : shared) : shared :=
  mkShared (f (sh_root s)) (sh_active s) (sh_closed s).
Definition with_active (f : gmap string Z -> gmap string Z) (s : shared) : shared :=
  mkShared (sh_root s) (f (sh_active s)) (sh_closed s).

(** [acquire] and [release] on the counts. *)
Definition acquired (run : string) (m : gmap string Z) : gmap string Z :=
  partial_alter (fun n => Some (default 0 n + 1)) run m.
Definition released (run : string) (m : gmap string Z) : gmap string Z :=
  let n := default 0 (m !! run) - 1 in if n =? 0 then delete run m else <[run := n]> m.

(** What a file holds once it is open in a directory with files [d]. *)
Definition opened_file (mode : openMode) (name : string) (d : directory) : list N :=
  match mode with O_APPEND => default [] (d !! name) | _ => [] end.

Definition read_file (s : shared) (path name : string) : option (list N) := sh_root s !! path ≫= (.!! name).

(** Operation [o] takes [s] to [s'] and returns [r].  A context may answer
    anything; every operation of the file system may fail, having done a part of
    its work.  A write goes to the file that is there, if there still is one. *)
Definition op_step (o : op) (s : shared) : reply o -> shared -> Prop :=
  match o return reply o -> shared -> Prop with
  | CtxErr _ | CtxCause _ | MkdirAll _ | RandRead | UseFile | CloseFile => fun _ s' => s' = s
  | Acquire run => fun r s' =>
      if sh_closed s then r = Err ErrClosed /\ s' = s
      else r = Ok tt /\ s' = with_active (acquired run) s
  | Release run => fun _ s' => s' = with_active (released run) s
  | Lstat path => fun r s' => s' = s /\ (r = Ok tt -> is_Some (sh_root s !! path))
  | Mkdir path => fun r s' =>
      match r with
      | Ok _ => sh_root s !! path = None /\ s' = with_root (<[path := ∅]>) s
      | Err _ => s' = s
      end
  | RemoveAll path => fun r s' =>
      match r with
      | Ok _ => s' = with_root (delete path) s
      | Err _ => exists left : directory -> directory, (forall d, left d ⊆ d) /\ s' = with_root (alter left path) s
      end
  | Rename old new => fun r s' =>
      match r with
      | Ok _ => exists d, sh_root s !! old = Some d /\ default ∅ (sh_root s !! new) = ∅ /\
                          s' = with_root (fun root => <[new := d]> (delete old root)) s
      | Err _ => s' = s
      end
  | OpenFile mode path name => fun r s' =>
      let created := with_root (alter (fun d => <[name := opened_file mode name d]> d) path) s in
      match r with
      | Ok _ => exists d, sh_root s !! path = Some d /\ (mode = O_EXCL -> d !! name = None) /\ s' = created
      | Err _ => s' = s \/ read_file s path name = None /\ s' = created
      end
  | WriteFile mode path name data => fun r s' =>
      let store f := with_root (alter (alter f name) path) s in
      match r with
      | Ok _ => Z.of_nat (length (overwrite mode data (default [] (read_file s path name)))) < 2 ^ 63 /\
                s' = store (overwrite mode data)
      | Err _ => s' = s \/ exists k, s' = store (overwrite mode (take k data))
      end
  | LstatFile path name => fun r s' => s' = s /\ (r = Ok tt -> is_Some (read_file s path name))
  | OpenRead path name => fun r s' => s' = s /\ forall data, r = Ok data -> read_file s path name = Some data
  end.

(** The handle that is held after an operation. *)
Definition holds_after (o : op) : reply o -> option string -> option string :=
  match o return reply o -> option string -> option string with
  | Acquire run => fun r h => match r with Ok _ => Some run | Err _ => h end
  | Release _ => fun _ _ => None
  | _ => fun _ h => h
  end.

(** What operation [o] renames. *)
Definition renamed_by (s : shared) (o : op) : reply o -> option (string * directory) :=
  match o return reply o -> option (string * directory) with
  | Rename old new => fun r => match r with Ok _ => Some (new, default ∅ (sh_root s !! old)) | Err _ => None end
  | _ => fun _ => None
  end.

(** The sequential operations are such steps. *)
Lemma attempt_cases faults {A} (f : runtime filesystem -> result A * runtime filesystem) w r w' :
  attempt faults f w = (r, w') ->
  (exists x, r = Err x /\ w' = on_store count_op w) \/ f (on_store count_op w) = (r, w').
Proof. unfold attempt, syscall. destruct (faults _); [intros [= <- <-]; eauto|auto]. Qed.

Lemma list_to_map_drop k (d : directory) : list_to_map (drop k (map_to_list d)) ⊆ d.
Proof.
  apply map_subseteq_spec. intros name data H%elem_of_list_to_map_2.
  apply elem_of_map_to_list. eapply elem_of_sublist; [exact H|apply sublist_drop].
Qed.

Lemma alter_insert_same {A} (f : A -> A) path (m : gmap string A) d : m !! path = Some d -> f d = d -> alter f path m = m.
Proof.
  intros Hd Hf. apply map_eq. intros k. rewrite lookup_alter. case_decide as E; [|done]. subst. rewrite Hd. cbn. by rewrite Hf.
Qed.

Lemma exec_op_step faults nonce o w r w' : exec_op faults nonce o w = (r, w') -> op_step o (shared_of w) r (shared_of w').
Proof.
  destruct o as [c|c|run|run|path|path| |path|path|old new|mode path name|mode path name data|path name|path name| |];
    cbn [exec_op op_step reply] in *.
  - by intros [= _ <-].
  - by intros [= _ <-].
  - unfold acquire. cbn. by destruct (fs_closed _); intros [= <- <-].
  - by intros [= _ <-].
  - unfold lstat. intros [(x & -> & ->)|H]%attempt_cases; [done|]. cbn in *. unfold root in H. cbn in H.
    injection H as <- <-. split; [done|]. unfold root. by destruct (_ !! path); [eauto|].
  - unfold mkdirAll. intros [(x & -> & ->)|H]%attempt_cases; [done|]. by injection H as _ <-.
  - by intros [= _ <-].
  - unfold mkdir. intros [(x & -> & ->)|H]%attempt_cases; [done|]. revert H. unfold shared_of, root. cbn.
    destruct (fs_root _ !! path) eqn:E; by intros [= <- <-].
  - unfold removeAll, syscall. destruct (faults _) as [ft|]; intros [= <- <-]; [|done].
    exists (fun d => list_to_map (drop (ft_short ft) (map_to_list d))). split; [apply list_to_map_drop|done].
  - unfold rename. intros [(x & -> & ->)|H]%attempt_cases; [done|]. revert H. unfold shared_of, root. cbn.
    destruct (fs_root _ !! old) as [d|]; [|by intros [= <- <-]]. case_decide; intros [= <- <-]; [|done]. by exists d.
  - unfold openFile. intros [(x & -> & ->)|H]%attempt_cases; [by left|]. revert H. unfold shared_of, root, read_file. cbn.
    destruct (fs_root _ !! path) as [d|] eqn:Ed; [|intros [= <- <-]; by left]. unfold with_root. cbn.
    destruct mode; [destruct (d !! name) as [data|] eqn:En|destruct (d !! name) as [data|] eqn:En|]; intros [= <- <-]; cbn.
    + exists d. split; [done|]. split; [done|]. f_equal. symmetry. eapply alter_insert_same; [exact Ed|].
      cbn. rewrite En. by apply insert_id.
    + exists d. split; [done|]. split; [done|]. f_equal. apply alter_ext. intros y Hy. cbn. rewrite Ed in Hy. injection Hy as <-. by rewrite En.
    + by left.
    + by exists d.
    + by exists d.
  - unfold writeFile, syscall. destruct (faults _) as [ft|]; [intros [= <- <-]; right; by exists (ft_short ft)|].
    destruct (Z.leb_spec (2 ^ 63) (Z.of_nat (length (overwrite mode data (default [] (root (on_store count_op w) !! path ≫= lookup name))))));
      intros [= <- <-]; [by left|done].
  - intros [(x & -> & ->)|H]%attempt_cases; [done|]. cbn in H. injection H as <- <-. split; [done|].
    unfold read_file. cbn. unfold root. cbn. by destruct (_ ≫= _); [eauto|].
  - intros [(x & -> & ->)|H]%attempt_cases; [done|]. cbn in H. injection H as <- <-. split; [done|]. intros data.
    unfold read_file, shared_of, root. cbn. destruct (_ ≫= _); [by intros [= ->]|done].
  - intros [(x & -> & ->)|H]%attempt_cases; [done|]. by injection H as _ <-.
  - by intros [= _ <-].
Qed.
