(* ===== verification/StoreOwn.v ===== *)
(** * StoreOwn: what a method of the file store may rely on

    A method that is running owns the handle it has acquired and its private
    directory, which nothing else touches.  [safe] says what a program does to
    what it owns, whatever the operations return; it is proved here for the
    methods of writers and readers, and [StoreSystem] shows that interleaving
    them keeps it. *)

From S2P Require Import Prelude Bytes Plan Stages Shuffle Reports Runtime TextSource Iterator IteratorProofs Runner.
From S2P Require Import RunnerProofs MapTasks FileStore FileReads FileWrites StoreOps.
#[local] Open Scope Z_scope.

#[local] Arguments attemptPath : simpl never.
#[local] Arguments privatePath : simpl never.
#[local] Arguments bucketName : simpl never.
#[local] Arguments sha256_hex : simpl never.
#[local] Arguments overwrite : simpl never.

(** ** Ownership *)

(** The run whose handle is held, the private directory with its files, and what
    the method has renamed so far. *)
Record own := mkOwn {
  ow_held : option string;
  ow_dir : option (string * directory);
  ow_renamed : option (string * directory) }.

Definition set_held (h : option string) (w : own) : own := mkOwn h (ow_dir w) (ow_renamed w).
Definition set_dir (d : option (string * directory)) (w : own) : own := mkOwn (ow_held w) d (ow_renamed w).

(** What operation [o] needs of what is owned, and what is owned after it; [R]
    says which directories may be renamed, by a method that holds which handle. *)
Definition allowed (R : option string -> string -> directory -> Prop) (o : op) (w : own) : (reply o -> own -> Prop) -> Prop :=
  match o return (reply o -> own -> Prop) -> Prop with
  | Acquire run => fun Q => ow_held w = None /\ Q (Ok tt) (set_held (Some run) w) /\ forall x, Q (Err x) w
  | Release run => fun Q => ow_held w = Some run /\ ow_dir w = None /\ Q tt (set_held None w)
  | Mkdir path => fun Q =>
      (exists a draw, identity_ok a /\ path = privatePath a draw /\ ow_held w = Some (ai_RunID a)) /\ ow_dir w = None /\
      Q (Ok tt) (set_dir (Some (path, ∅)) w) /\ forall x, Q (Err x) w
  | RemoveAll path => fun Q => exists d, ow_dir w = Some (path, d) /\ forall r, Q r (set_dir None w)
  | Rename old new => fun Q => exists d, ow_dir w = Some (old, d) /\ d <> ∅ /\ R (ow_held w) new d /\
      Q (Ok tt) (mkOwn (ow_held w) None (Some (new, d))) /\ forall x, Q (Err x) w
  | OpenFile mode path name => fun Q => exists d, ow_dir w = Some (path, d) /\
      let w' := set_dir (Some (path, <[name := opened_file mode name d]> d)) w in
      ((mode = O_EXCL -> d !! name = None) -> Q (Ok tt) w') /\ forall x, Q (Err x) w /\ Q (Err x) w'
  | WriteFile mode path name data => fun Q => exists d old, ow_dir w = Some (path, d) /\ d !! name = Some old /\
      let w' data := set_dir (Some (path, <[name := overwrite mode data old]> d)) w in
      (Z.of_nat (length (overwrite mode data old)) < 2 ^ 63 -> Q (Ok tt) (w' data)) /\
      forall x, Q (Err x) w /\ forall k, Q (Err x) (w' (take k data))
  | _ => fun Q => forall r, Q r w
  end.

Lemma allowed_mono (R : option string -> string -> directory -> Prop) o w (Q Q' : reply o -> own -> Prop) :
  (forall r w', Q r w' -> Q' r w') -> allowed R o w Q -> allowed R o w Q'.
Proof.
  intros HQ. destruct o; cbn [allowed reply] in *.
  all: try (intros H r; by apply HQ).
  - intros (? & ? & ?); auto.
  - intros (? & ? & ?); auto.
  - intros (? & ? & ? & ?); auto 6.
  - intros (d & ? & H). exists d. auto.
  - intros (d & ? & ? & ? & ? & ?). exists d. auto 8.
  - intros (d & ? & H1 & H2). exists d. split; [done|]. split; [auto|]. intros x. split; apply HQ, H2.
  - intros (d & old & ? & ? & H1 & H2). exists d, old. split; [done|]. split; [done|]. split; [auto|].
    intros x. split; [apply HQ, H2|]. intros k. apply HQ, H2.
Qed.

Section safe.
Variable R : option string -> string -> directory -> Prop.

(** [Q] holds of what the program returns and of what is owned then. *)
Fixpoint safe {A} (Q : A -> own -> Prop) (p : prog A) (w : own) : Prop :=
  match p with
  | Ret a => Q a w
  | Op o k => allowed R o w (fun r w' => safe Q (k r) w')
  end.

Lemma safe_mono {A} (Q Q' : A -> own -> Prop) p w : (forall a w, Q a w -> Q' a w) -> safe Q p w -> safe Q' p w.
Proof.
  intros HQ. revert w. induction p as [a|o k IH]; intros w; cbn; [apply HQ|].
  apply allowed_mono. intros r w' H. by apply IH.
Qed.

Lemma safe_bind {A B} (Q : B -> own -> Prop) (p : prog A) (f : A -> prog B) w :
  safe (fun a w => safe Q (f a) w) p w -> safe Q (bindP p f) w.
Proof.
  revert w. induction p as [a|o k IH]; intros w; cbn; [done|]. apply allowed_mono. intros r w' H. by apply IH.
Qed.

Lemma safe_bind_post {A B} (Q : B -> own -> Prop) (P : A -> own -> Prop) (p : prog A) (f : A -> prog B) w :
  safe P p w -> (forall a w, P a w -> safe Q (f a) w) -> safe Q (bindP p f) w.
Proof. intros Hp Hf. apply safe_bind. by eapply safe_mono. Qed.

End safe.

#[local] Arguments causeP : simpl never.
#[local] Arguments abortP : simpl never.
#[local] Arguments checkP : simpl never.

Section methods.
Context {RC : RecordCodec} {RL : RecordCodecLaws RC}.
Variable R : option string -> string -> directory -> Prop.

Lemma causeP_bind {A} (Q : A -> own -> Prop) c e (f : error -> prog A) w :
  (forall x, safe R Q (f x) w) -> safe R Q (bindP (causeP c e) f) w.
Proof. intros H r. apply H. Qed.

(** ** Writers *)

Definition gone (w : own) : Prop := ow_held w = None /\ ow_dir w = None.

(** The writer is open, its files are [d] and its digests [digest]. *)
Record having t l digest (wr : fileWriter) (d : directory) (w : own) : Prop := {
  hv_open : openWriter t l digest wr;
  hv_held : ow_held w = Some (ai_RunID t.1.1);
  hv_dir : ow_dir w = Some (fw_private wr, d) }.

(** A writer no method of which is running has accepted [l], or is closed. *)
Definition writer_inv (l : list (string * any)) (wr : fileWriter) (w : own) : Prop :=
  if fw_closed wr then gone w
  else exists t d, having t l (fun _ => emptyDigest) wr d w /\ files_of t.2 l d.

Definition given_up (wr : fileWriter) (w : own) : Prop := fw_closed wr = true /\ gone w.

Lemma given_up_inv l wr w : given_up wr w -> writer_inv l wr w.
Proof. intros [H ?]. unfold writer_inv. by rewrite H. Qed.

Lemma having_run t l digest wr d w : having t l digest wr d w -> ow_held w = Some (ai_RunID (mo_Attempt (fw_output wr))).
Proof. intros [Ho Hh _]. by rewrite (ow_output _ _ _ _ Ho). Qed.

Lemma having_dir t l digest wr d d' w : having t l digest wr d w -> having t l digest wr d' (set_dir (Some (fw_private wr, d')) w).
Proof. by intros []; split. Qed.

Lemma abortP_safe cause t l digest wr d w : having t l digest wr d w ->
  safe R (fun r w' => given_up r.2 w' /\ (cause <> None -> r.1 <> None)) (abortP cause wr) w.
Proof.
  intros H. unfold abortP. cbn. exists d. split; [apply H|]. intros r. split; [by eapply having_run|]. split; [done|].
  split; [done|]. by destruct cause, r.
Qed.

Lemma checkP_safe c t l digest wr d w : having t l digest wr d w ->
  safe R (fun r w' => match r.1 with None => r.2 = wr /\ w' = w | Some _ => given_up r.2 w' end) (checkP c wr) w.
Proof.
  intros H. unfold checkP. rewrite (ow_open _ _ _ _ (hv_open _ _ _ _ _ _ H)). cbn. intros [e|]; [|done].
  apply causeP_bind. intros x. eapply safe_mono; [|by eapply abortP_safe]. cbn. intros [y wr'] w' [Hg Hx].
  destruct y; [done|]. by destruct Hx.
Qed.

(** What a method that fails leaves. *)
Definition stopped (r : option error * fileWriter) (w : own) : Prop := r.1 <> None /\ given_up r.2 w.

Lemma abortP_stopped x t l digest wr d w : having t l digest wr d w -> safe R stopped (abortP (Some x) wr) w.
Proof. intros H. eapply safe_mono; [|by eapply abortP_safe]. intros r w' [Hg Hx]. split; [by apply Hx|done]. Qed.

Lemma abortP_ends x (Q : fileWriter -> own -> Prop) t l digest wr d w : having t l digest wr d w ->
  safe R (fun r w' => match r.1 with None => Q r.2 w' | Some _ => given_up r.2 w' end) (abortP (Some x) wr) w.
Proof. intros H. eapply safe_mono; [|by eapply abortP_stopped]. by intros [[y|] wr'] w' [? ?]. Qed.

(** The start of a method: on an open writer, it goes on or gives up. *)
Lemma checkP_bind {B} (Q : B -> own -> Prop) c t l digest wr d w (f : option error * fileWriter -> prog B) :
  having t l digest wr d w -> safe R Q (f (None, wr)) w ->
  (forall x wr' w', given_up wr' w' -> safe R Q (f (Some x, wr')) w') -> safe R Q (bindP (checkP c wr) f) w.
Proof.
  intros H Hgo Hstop. eapply safe_bind_post; [by eapply checkP_safe|]. intros [[x|] wr'] w' Hr; cbn in Hr; [by apply Hstop|].
  destruct Hr as [-> ->]. done.
Qed.

Lemma checkP_closed {B} (Q : B -> own -> Prop) c wr w (f : option error * fileWriter -> prog B) :
  fw_closed wr = true -> (forall x, safe R Q (f (Some x, wr)) w) -> safe R Q (bindP (checkP c wr) f) w.
Proof. intros H Hf. unfold checkP. rewrite H. apply Hf. Qed.

Lemma appendP_safe private q data d w : ow_dir w = Some (private, d) ->
  safe R (fun r w' => exists d', w' = set_dir (Some (private, d')) w /\
      match r with
      | Ok _ => let old := default [] (d !! bucketName q) in
                d' = <[bucketName q := old ++ data]> d /\ Z.of_nat (length (old ++ data)) < 2 ^ 63
      | Err _ => True
      end) (appendP private q data) w.
Proof.
  intros Hd. cbn. exists d. split; [done|]. split.
  - intros _. eexists _, _. split; [done|]. split; [by rewrite lookup_insert_eq|]. rewrite insert_insert_eq. split.
    + intros Hsize. cbn. eexists. split; [done|]. split; [done|exact Hsize].
    + intros x. split; [by eexists|]. intros k. rewrite insert_insert_eq. by eexists.
  - intros x. split; [exists d; split; [|done]; by destruct w; cbn in *; subst|by eexists].
Qed.

Lemma writeP_safe c l wr k v w : writer_inv l wr w ->
  safe R (fun r w' => match r.1 with
      | None => fw_closed r.2 = false /\ writer_inv (l ++ [(k, v)]) r.2 w'
      | Some _ => given_up r.2 w' end) (writeP c wr k v) w.
Proof.
  unfold writer_inv at 1. destruct (fw_closed wr) eqn:Ho.
  { intros H. apply checkP_closed; [done|]. intros x. by split. }
  intros (t & d & H & Hf). eapply checkP_bind; [exact H| |by intros].
  assert (Hstop : forall x w', (exists d', having t l (fun _ => emptyDigest) wr d' w') ->
    safe R (fun r w' => match r.1 with
      | None => fw_closed r.2 = false /\ writer_inv (l ++ [(k, v)]) r.2 w'
      | Some _ => given_up r.2 w' end) (abortP (Some x) wr) w').
  { intros x w' [d' H']. by eapply (abortP_ends x (fun wr' w' => fw_closed wr' = false /\ writer_inv (l ++ [(k, v)]) wr' w')). }
  destruct (EncodeRecord k v) as [data|x] eqn:Ek; [|apply Hstop; eauto].
  pose proof (hv_open _ _ _ _ _ _ H) as How. rewrite (ow_output _ _ _ _ How). cbn [mo_NumReducePartitions outputOf].
  destruct (PartitionFor k t.2) as [q|x] eqn:Eq; [|apply Hstop; eauto].
  eapply safe_bind_post; [by eapply appendP_safe, H|]. intros r w' (d' & -> & Hr). pose proof (having_dir _ _ _ _ _ d' _ H) as H'.
  destruct r as [[]|x]; [|apply Hstop; eauto]. cbv zeta in Hr. destruct Hr as [-> Hsize].
  pose proof (ow_count _ _ _ _ How) as Hn. apply PartitionFor_range in Eq as Hr; [|lia].
  assert (Hcont : default [] (d !! bucketName q) = contents t.2 q l).
  { rewrite <- (Z2Nat.id q) by lia. rewrite (Hf (Z.to_nat q)) by lia. apply hashed_default. }
  rewrite Hcont in *. assert (Hacc : fileAccepts t (l ++ [(k, v)])).
  { apply fileAccepts_snoc; [apply How|split; [by exists data|by exists q]|]. intros q' Hq'. cbn in Hq'.
    rewrite Eq in Hq'. injection Hq' as <-. unfold encoded. cbn. rewrite Ek. by rewrite length_app in Hsize. }
  pose proof (addRecord_open t l wr (k, v) q data How Eq Ek Hacc) as How'.
  assert (Hnew : having t (l ++ [(k, v)]) (fun _ => emptyDigest) (addRecord (Z.to_nat q) data wr)
    (<[bucketName q := contents t.2 q l ++ data]> d) (set_dir (Some (fw_private wr, <[bucketName q := contents t.2 q l ++ data]> d)) w)).
  { split; [done|apply H|done]. }
  eapply safe_mono; [|by eapply checkP_safe]. intros [[x|] wr'] w' Hc; cbn in *; [done|]. destruct Hc as [-> ->].
  split; [apply How'|]. unfold writer_inv. rewrite (ow_open _ _ _ _ How'). eexists t, _. split; [exact Hnew|].
  rewrite <- Hcont. apply (files_snoc t.2 l d (k, v)); [done..|lia].
Qed.

Lemma abortMethodP_safe l wr w : writer_inv l wr w -> safe R (fun r w' => writer_inv l r.2 w') (abortMethodP wr) w.
Proof.
  unfold writer_inv at 1, abortMethodP. destruct (fw_closed wr) eqn:Ho.
  { intros H. cbn. unfold writer_inv. by rewrite Ho. }
  intros (t & d & H & _). eapply safe_mono; [|by eapply abortP_safe]. intros r w' [Hg _]. by apply given_up_inv.
Qed.

Lemma afterP_safe c l wr w : writer_inv l wr w -> safe R (fun wr' w' => writer_inv l wr' w') (afterP c wr) w.
Proof.
  intros H. unfold afterP. cbn. intros [e|]; [|exact H]. destruct (fw_closed wr) eqn:Ho; [exact H|].
  unfold writer_inv in H. rewrite Ho in H. destruct H as (t & d & H & _). apply causeP_bind. intros x.
  apply safe_bind. eapply safe_mono; [|by eapply abortP_safe]. intros r w' [Hg _]. by apply given_up_inv.
Qed.

(** *** Publishing *)

Lemma bucketsP_safe c t l i todo wr d w :
  (i <= Z.to_nat t.2)%nat -> todo = hashed t.2 l <$> seq i (Z.to_nat t.2 - i) ->
  having t l (digestsTo t.2 l i) wr d w -> files_to t.2 l i d ->
  safe R (fun r w' => match r.1 with
      | None => exists d', having t l (digestsTo t.2 l (Z.to_nat t.2)) r.2 d' w' /\ files_to t.2 l (Z.to_nat t.2) d'
      | Some _ => given_up r.2 w' end) (bucketsP c i todo wr) w.
Proof.
  revert i wr d w. induction todo as [|h todo IH]; intros i wr d w Hi Htodo H Hfiles; cbn [bucketsP].
  { assert (i = Z.to_nat t.2) as ->.
    { destruct (Z.to_nat t.2 - i)%nat as [|k] eqn:E; [lia|done]. }
    cbn. by exists d. }
  destruct (Z.to_nat t.2 - i)%nat as [|k] eqn:Ek; [done|]. cbn in Htodo. injection Htodo as Hh Htodo.
  assert (Hk : k = (Z.to_nat t.2 - S i)%nat) by lia. assert (Hlt : (i < Z.to_nat t.2)%nat) by lia.
  rewrite Hk in Htodo. clear Ek. pose proof (hv_open _ _ _ _ _ _ H) as How.
  eapply checkP_bind; [exact H| |by intros]. destruct h as [bytes|].
  - symmetry in Hh. apply hashed_Some in Hh as Hc. apply IH with d; [lia|done| |].
    + split; [|apply H..]. apply (openWriter_ext _ _ (fun j => if decide (j = i) then sha256_hex bytes else digestsTo t.2 l i j)).
      * intros j _. rewrite <- Hc. apply digestsTo_S.
      * by apply setDigest_open.
    + intros j Hj. rewrite (Hfiles j Hj). destruct (Nat.ltb_spec j i), (Nat.ltb_spec j (S i)); try done; try lia.
      assert (j = i) as -> by lia. by rewrite Hh, Hc.
  - symmetry in Hh. apply hashed_None in Hh as Hc.
    assert (Hbk : mo_Buckets (fw_output wr) !! i = Some (bucketOf t.2 l (digestsTo t.2 l i) i)).
    { rewrite (ow_output _ _ _ _ How). cbn. rewrite list_lookup_fmap, lookup_seq_lt by lia. done. }
    rewrite Hbk. cbn [bucketOf bk_PartitionID safe allowed]. exists d. split; [apply H|]. cbn [opened_file]. split.
    + intros _. eapply IH; [lia|done| |].
      * apply (having_dir _ _ _ _ _ (<[bucketName (Z.of_nat i):=[]]> d)) in H. destruct H as [_ Hh' Hd']. split; [|done..].
        eapply openWriter_ext; [|exact How]. intros j _. rewrite <- digestsTo_S.
        destruct (decide (j = i)) as [->|]; [|done]. unfold digestsTo. by rewrite Nat.ltb_irrefl, Hc.
      * intros j Hj. destruct (decide (j = i)) as [->|Hne].
        { rewrite lookup_insert_eq, Hc. by destruct (Nat.ltb_spec i (S i)); [|lia]. }
        rewrite lookup_insert_ne by (intros Hx%bucketName_inj; lia). rewrite (Hfiles j Hj).
        destruct (Nat.ltb_spec j i), (Nat.ltb_spec j (S i)); try done; lia.
    + intros x. set (Q wr w := exists d', having t l (digestsTo t.2 l (Z.to_nat t.2)) wr d' w /\ files_to t.2 l (Z.to_nat t.2) d').
      split; [by eapply (abortP_ends x Q)|by eapply (abortP_ends x Q), having_dir].
Qed.

(** What [Publish] returns, and what has been renamed. *)
Definition publish_post (l : list (string * any)) (r : result MapOutput * fileWriter) (w : own) : Prop :=
  given_up r.2 w /\
  match r.1 with
  | Ok o => exists t d, o = finalOutput t l /\ published_files t l d /\ ow_renamed w = Some (attemptPath t.1.1, d)
  | Err _ => True
  end.

Lemma failP_safe l x t digest wr d w : having t l digest wr d w -> safe R (publish_post l) (failP x wr) w.
Proof.
  intros H. unfold failP. eapply safe_bind_post; [by eapply (abortP_safe (Some x))|]. intros r w' [Hg _]. by split.
Qed.

Lemma manifestP_safe path data d w : ow_dir w = Some (path, d) -> Z.of_nat (length data) <= MaxManifestBytes ->
  safe R (fun r w' => exists d', w' = set_dir (Some (path, d')) w /\
      (r = Ok tt -> d' = <["manifest.json" := data]> d)) (manifestP path data) w.
Proof.
  intros Hd Hlen. cbn. exists d. split; [done|].
  assert (Ho : overwrite O_TRUNC data [] = data) by (unfold overwrite; by rewrite drop_nil, app_nil_r). split.
  - intros _. eexists _, _. split; [done|]. split; [by rewrite lookup_insert_eq|]. rewrite insert_insert_eq, Ho. split.
    + intros _. cbn. by eexists.
    + intros x. split; [by eexists|]. intros k. rewrite insert_insert_eq. by eexists.
  - intros x. split; [exists d; split; [|done]; by destruct w; cbn in *; subst|by eexists].
Qed.

Lemma directoryP_safe private final d w : ow_dir w = Some (private, d) -> d <> ∅ -> R (ow_held w) final d ->
  safe R (fun r w' => match r with
      | Ok _ => w' = mkOwn (ow_held w) None (Some (final, d))
      | Err _ => w' = w end) (directoryP private final) w.
Proof.
  intros Hd Hne HR. cbn. intros [[]|x]; [done|]. destruct (errors_Is x _); [|done]. cbn. exists d. split_and!; [done..|].
  by intros y r.
Qed.

Lemma publishManifestP_safe c t l wr d w :
  (forall d, published_files t l d -> R (Some (ai_RunID t.1.1)) (attemptPath t.1.1) d) ->
  having t l (digestsTo t.2 l (Z.to_nat t.2)) wr d w -> files_to t.2 l (Z.to_nat t.2) d ->
  safe R (publish_post l) (publishManifestP c wr) w.
Proof.
  intros HR H Hf. pose proof (hv_open _ _ _ _ _ _ H) as How. unfold publishManifestP. rewrite (finalOutput_open _ _ _ How).
  destruct (manifestBytes (finalOutput t l)) as [data|x] eqn:Em; [|by eapply failP_safe].
  apply manifestBytes_length in Em as Hlen. eapply safe_bind_post; [by eapply manifestP_safe; [apply H|]|].
  intros r w' (d' & -> & Hd'). pose proof (having_dir _ _ _ _ _ d' _ H) as H'.
  destruct r as [[]|x]; [|by eapply failP_safe]. specialize (Hd' eq_refl). subst d'.
  eapply checkP_bind; [exact H'| |by intros]. cbv beta iota.
  assert (Hpub : published_files t l (<["manifest.json" := data]> d)).
  { split; [exists data; by rewrite lookup_insert_eq|]. intros i Hi.
    rewrite lookup_insert_ne by (intros He; symmetry in He; by apply bucketName_manifest in He).
    rewrite (Hf i Hi). by destruct (Nat.ltb_spec i (Z.to_nat t.2)); [|lia]. }
  eapply safe_bind_post.
  { eapply (directoryP_safe _ (fw_final wr)); [apply H'|by apply insert_non_empty|].     rewrite (ow_final _ _ _ _ How), (hv_held _ _ _ _ _ _ H'). by apply HR. }
  intros [[]|x] w'; [|intros ->; by eapply failP_safe]. intros ->. cbn. rewrite (finalOutput_open _ _ _ How).
  split; [apply H'|]. split; [done|]. split; [by split|]. cbn.
  eexists t, _. split; [done|]. split; [exact Hpub|]. by rewrite (ow_final _ _ _ _ How).
Qed.

Lemma publishP_safe c l wr w :
  (forall t d, identity_ok t.1.1 -> published_files t l d -> R (Some (ai_RunID t.1.1)) (attemptPath t.1.1) d) ->
  writer_inv l wr w -> safe R (publish_post l) (publishP c wr) w.
Proof.
  intros HR. unfold writer_inv, publishP. destruct (fw_closed wr) eqn:Ho.
  { intros H. apply checkP_closed; [done|]. intros x. by split. }
  intros (t & d & H & Hf). eapply checkP_bind; [exact H| |by intros]. cbv beta iota.
  eapply safe_bind_post.
  - eapply (bucketsP_safe c t l 0 _ wr d w); [lia| | |].
    + rewrite (ow_hashes _ _ _ _ (hv_open _ _ _ _ _ _ H)). by rewrite Nat.sub_0_r.
    + destruct H as [How ? ?]. split; [|done..]. eapply openWriter_ext; [|exact How]. done.
    + exact Hf.
  - intros [[x|] wr'] w' Hr; cbn in Hr; [by split|]. destruct Hr as (d' & H' & Hf').
    eapply publishManifestP_safe; [|exact H'|done]. intros d2. apply HR, (hv_open _ _ _ _ _ _ H).
Qed.

(** *** Beginning *)

Lemma beginP_safe c a m n ren :
  safe R (fun r w => match r with Ok wr => writer_inv [] wr w /\ fw_closed wr = false | Err _ => gone w end)
    (beginP c a m n) (mkOwn None None ren).
Proof.
  unfold beginP. cbn. intros [e|]; [by apply causeP_bind|]. destruct (initialOutput a m n) as [o|x] eqn:Ei; [|done].
  apply initialOutput_spec in Ei as (-> & Ha & Hn). cbn. split; [done|]. split; [|by intros x].
  intros [[]|x]; cbn; [by split_and!|]. destruct (errors_Is x _); [|by split_and!].
  intros [[]|y]; cbn; [|by split_and!]. intros [bytes|y]; cbn; [|by split_and!].
  split; [by exists a, bytes|]. split; [done|]. split; [|by intros y; cbn; split_and!]. split; [|done].
  unfold writer_inv. cbn. exists (a, m, n), ∅. split; [|intros i _; by rewrite lookup_empty].
  split; [|done..]. split; try done; cbn.
  - rewrite length_fmap, length_seq. apply list_eq. intros i.
    rewrite list_lookup_fmap. destruct (decide (i < Z.to_nat n)%nat) as [Hi|Hi].
    + by rewrite lookup_replicate_2, lookup_seq_lt.
    + by rewrite !lookup_ge_None_2 by (rewrite ?length_replicate, ?length_seq; lia).
  - by eexists.
Qed.

End methods.

(** ** Readers *)

Section readers.
Context {RC : RecordCodec}.
Variable faults : nat -> option fault.
Variable R : option string -> string -> directory -> Prop.

Definition reader_run (rd : fileBucketReader) : string := ai_RunID (mo_Attempt (br_output rd)).

(** A reader holds a handle of its run until it is done. *)
Definition reader_inv (rd : fileBucketReader) (w : own) : Prop :=
  ow_dir w = None /\ ow_held w = match br_done rd with Some _ => None | None => Some (reader_run rd) end.

Lemma openRegularP_safe path name w : safe R (fun _ w' => w' = w) (openRegularP path name) w.
Proof. cbn. intros [[]|x]; cbn; [|done]. by intros [data|x]; cbn. Qed.

Lemma readManifestP_safe path w : safe R (fun _ w' => w' = w) (readManifestP path) w.
Proof.
  unfold readManifestP. eapply safe_bind_post; [apply openRegularP_safe|]. by intros [data|x] w' ->; cbn.
Qed.

Lemma openBucketFileP_safe o p expected w : safe R (fun _ w' => w' = w) (openBucketFileP o p expected) w.
Proof.
  unfold openBucketFileP. eapply safe_bind_post; [apply readManifestP_safe|]. intros [data|x] w' ->; [|done].
  destruct (negb _); [done|]. eapply safe_bind_post; [apply openRegularP_safe|]. by intros [contents|x] w' ->; cbn.
Qed.

Lemma openP_safe c o p ren :
  safe R (fun r w => match r with Ok rd => reader_inv rd w | Err _ => gone w end) (openP c o p) (mkOwn None None ren).
Proof.
  unfold openP. cbn -[openBucketFileP]. intros [e|]; [by apply causeP_bind|]. destruct (manifestBytes o) as [expected|x]; [|done].
  destruct (_ || _); [done|]. cbn -[openBucketFileP]. split; [done|]. split; [|by intros x].
  eapply safe_bind_post; [apply openBucketFileP_safe|]. intros [contents|x] w' ->; [done|]. cbn. split_and!; [done..|].
  by intros [e|]; [apply causeP_bind|].
Qed.

Lemma finishReaderP_safe e rd w : br_done rd = None -> reader_inv rd w ->
  safe R (fun rd' w' => reader_inv rd' w') (finishReaderP faults e rd) w.
Proof. intros Hd [Hdir Hh]. rewrite Hd in Hh. by cbn. Qed.

Lemma endReaderP_safe e rd w : br_done rd = None -> reader_inv rd w ->
  safe R (fun r w' => reader_inv r.2 w') (endReaderP faults e rd) w.
Proof. intros Hd H. unfold endReaderP. eapply safe_bind_post; [by apply finishReaderP_safe|]. done. Qed.

Lemma afterReaderP_safe c rd w : reader_inv rd w -> safe R (fun rd' w' => reader_inv rd' w') (afterReaderP faults c rd) w.
Proof.
  intros H. unfold afterReaderP. cbn -[finishReaderP]. intros e. destruct e as [e|]; [|done]. destruct (br_done rd) eqn:Hd; [done|].
  apply causeP_bind. intros x. by apply finishReaderP_safe.
Qed.

Lemma nextStep_fields rd r rd' : nextStep rd = (r, rd') -> br_done rd' = br_done rd /\ reader_run rd' = reader_run rd.
Proof. unfold nextStep, readRecord. destruct (decoderNext _). by intros [= _ <-]. Qed.

Lemma nextP_safe c rd w : reader_inv rd w -> safe R (fun r w' => reader_inv r.2 w') (nextP faults c rd) w.
Proof.
  intros H. unfold nextP. destruct (br_done rd) as [[x|]|] eqn:Hd; [done..|]. cbn -[endReaderP nextStep].
  intros [e|]; [apply causeP_bind; intros x; by apply endReaderP_safe|]. intros f [e|].
  { apply causeP_bind. intros x. by apply endReaderP_safe. }
  destruct f as [[]|x]; [|by apply endReaderP_safe]. destruct (nextStep rd) as [record rd'] eqn:E.
  apply nextStep_fields in E as [Hd' Hr']. rewrite Hd in Hd'.
  assert (H' : reader_inv rd' w) by (destruct H as [? Hh]; split; [done|]; by rewrite Hd', Hr', <- Hd in *; rewrite Hd in *).
  destruct record as [[record|]|x]; [done|by apply endReaderP_safe..].
Qed.

Lemma closeReaderP_safe rd w : reader_inv rd w -> safe R (fun r w' => reader_inv r.2 w') (closeReaderP faults rd) w.
Proof.
  intros H. unfold closeReaderP. destruct (br_done rd) eqn:Hd; [done|].
  eapply safe_bind_post; [by apply finishReaderP_safe|]. done.
Qed.

End readers.

(** ** An operation keeps what is owned *)

Definition private_ok (w : own) : Prop := forall p d, ow_dir w = Some (p, d) ->
  exists a draw, identity_ok a /\ p = privatePath a draw /\ ow_held w = Some (ai_RunID a).

Definition there (w : own) (s : shared) : Prop := forall p d, ow_dir w = Some (p, d) -> sh_root s !! p = Some d.

(** How the counts follow the handle. *)
Inductive accounts (w w' : own) (s s' : shared) : Prop :=
  | acc_same : ow_held w' = ow_held w -> sh_active s' = sh_active s -> accounts w w' s s'
  | acc_acquire run : ow_held w = None -> ow_held w' = Some run -> sh_closed s = false ->
      sh_active s' = acquired run (sh_active s) -> accounts w w' s s'
  | acc_release run : ow_held w = Some run -> ow_held w' = None ->
      sh_active s' = released run (sh_active s) -> accounts w w' s s'.

(** Only the private directory differs, which is the same one or was not there. *)
Definition touches (w w' : own) (s s' : shared) : Prop :=
  (forall k, (forall d, ow_dir w <> Some (k, d)) -> (forall d, ow_dir w' <> Some (k, d)) -> sh_root s' !! k = sh_root s !! k) /\
  (forall k d, ow_dir w' = Some (k, d) -> sh_root s !! k = None \/ exists d', ow_dir w = Some (k, d')) /\
  ow_renamed w' = ow_renamed w.

(** The private directory is renamed to [new], where nothing was. *)
Definition renames (R : option string -> string -> directory -> Prop) (new : string) (d : directory) (w w' : own)
    (s s' : shared) : Prop :=
  exists old, ow_dir w = Some (old, d) /\ d <> ∅ /\ R (ow_held w) new d /\ default ∅ (sh_root s !! new) = ∅ /\
    sh_root s' = <[new := d]> (delete old (sh_root s)) /\ w' = mkOwn (ow_held w) None (Some (new, d)).

Record op_effect R o (r : reply o) (w w' : own) (s s' : shared) : Prop := {
  oe_there : there w' s';
  oe_private : private_ok w';
  oe_held : ow_held w' = holds_after o r (ow_held w);
  oe_closed : sh_closed s' = sh_closed s;
  oe_accounts : accounts w w' s s';
  oe_root : match renamed_by s o r with
            | Some (new, d) => renames R new d w w' s s'
            | None => touches w w' s s'
            end }.

Lemma touches_refl w w' s s' : ow_dir w' = ow_dir w -> ow_renamed w' = ow_renamed w -> sh_root s' = sh_root s -> touches w w' s s'.
Proof. intros Hd Hr Hs. split_and!; [by rewrite Hs| |done]. rewrite Hd. intros k d H. right. eauto. Qed.

(** An operation that changes nothing that is owned or shared. *)
Lemma effect_same R o r w s : there w s -> private_ok w -> holds_after o r (ow_held w) = ow_held w -> renamed_by s o r = None ->
  op_effect R o r w w s s.
Proof. intros Ht Hp Hh Hn. split; [done..|by apply acc_same|]. rewrite Hn. by apply touches_refl. Qed.

(** An operation on the private directory, which becomes [d']. *)
Lemma effect_dir R o r w s p d d' : ow_dir w = Some (p, d) -> there w s -> private_ok w ->
  holds_after o r (ow_held w) = ow_held w -> renamed_by s o r = None ->
  forall f, f d = d' -> op_effect R o r w (set_dir (Some (p, d')) w) s (with_root (alter f p) s).
Proof.
  intros Hd Ht Hp Hh Hn f Hf. split; [|by intros k d2 [= <- <-]; eapply Hp|by symmetry|done|by apply acc_same|].
  - intros k d2 [= <- <-]. cbn. rewrite lookup_alter, decide_True, (Ht p d Hd) by done. cbn. by rewrite Hf.
  - rewrite Hn. split_and!; [|by intros k d2 [= <- <-]; eauto|done]. intros k Hk _. cbn. rewrite lookup_alter_ne; [done|].
    intros ->. by eapply Hk.
Qed.

Lemma there_file w s p d name : there w s -> ow_dir w = Some (p, d) -> read_file s p name = d !! name.
Proof. intros Ht Hd. unfold read_file. by rewrite (Ht _ _ Hd). Qed.

Lemma op_sound R o w (Q : reply o -> own -> Prop) s r s' :
  allowed R o w Q -> op_step o s r s' -> there w s -> private_ok w -> exists w', Q r w' /\ op_effect R o r w w' s s'.
Proof.
  intros Ha Hs Ht Hp.
  destruct o as [c|c|run|run|path|path| |path|path|old new|mode path name|mode path name data|path name|path name| |];
    cbn [allowed op_step reply] in *.
  - subst s'. exists w. split; [apply Ha|by apply effect_same].
  - subst s'. exists w. split; [apply Ha|by apply effect_same].
  - destruct Ha as (Hh & Hok & Herr). destruct (sh_closed s) eqn:Hc; destruct Hs as [-> ->].
    + exists w. split; [apply Herr|by apply effect_same].
    + exists (set_held (Some run) w). split; [done|]. split; [done| |done|done|by eapply acc_acquire|by apply touches_refl].
      intros p d Hd. cbn in Hd. destruct (Hp p d Hd) as (? & ? & _ & _ & ?). congruence.
  - destruct Ha as (Hh & Hd & HQ). subst s'. exists (set_held None w). split; [by destruct r|]. destruct w as [h dir ren].
    cbn in Hh, Hd. subst. split; [done|done|done|done|by eapply acc_release|by apply touches_refl].
  - destruct Hs as [-> _]. exists w. split; [apply Ha|by apply effect_same].
  - subst s'. exists w. split; [apply Ha|by apply effect_same].
  - subst s'. exists w. split; [apply Ha|by apply effect_same].
  - destruct Ha as ((a & draw & Hid & -> & Hh) & Hd & Hok & Herr). destruct r as [[]|x].
    2:{ subst s'. exists w. split; [apply Herr|by apply effect_same]. }
    destruct Hs as [Hn ->]. exists (set_dir (Some (privatePath a draw, ∅)) w). split; [done|].
    split; [|by intros p d [= <- <-]; exists a, draw|done|done|by apply acc_same|].
    + intros p d [= <- <-]. cbn. by rewrite lookup_insert_eq.
    + cbn [renamed_by]. split_and!; [|intros k d [= <- <-]; by left|done]. intros k _ Hk. cbn. rewrite lookup_insert_ne; [done|].
      intros <-. by eapply Hk.
  - destruct Ha as (d & Hd & HQ). exists (set_dir None w). split; [apply HQ|].
    assert (Hdone : forall root', (forall k, k <> path -> root' !! k = sh_root s !! k) -> s' = with_root (fun _ => root') s ->
      op_effect R (RemoveAll path) r w (set_dir None w) s s').
    { intros root' Hr ->. split; [done|done|done|done|by apply acc_same|]. cbn [renamed_by]. split_and!; [|done|done].
      intros k Hk _. cbn. apply Hr. intros ->. by eapply Hk. }
    destruct r as [[]|x]; [subst s'; eapply Hdone; [|done]; intros k Hk; cbn; by rewrite lookup_delete_ne|].
    destruct Hs as (left & _ & ->). eapply Hdone; [|done]. intros k Hk. cbn. by rewrite lookup_alter_ne.
  - destruct Ha as (d & Hd & Hne & HR & Hok & Herr). destruct r as [[]|x].
    2:{ subst s'. exists w. split; [apply Herr|by apply effect_same]. }
    destruct Hs as (d' & Hd' & Hnew & ->). rewrite (Ht _ _ Hd) in Hd'. injection Hd' as <-.
    eexists. split; [exact Hok|]. split; [done|done|done|done|by apply acc_same|]. cbn [renamed_by]. rewrite (Ht _ _ Hd).
    exists old. by split_and!.
  - destruct Ha as (d & Hd & Hok & Herr). cbv zeta in *. destruct r as [[]|x].
    + destruct Hs as (d' & Hd' & Hx & ->). rewrite (Ht _ _ Hd) in Hd'. injection Hd' as <-.
      eexists. split; [by apply Hok|]. by eapply effect_dir.
    + destruct Hs as [->|[_ ->]]; [exists w; split; [apply Herr|by apply effect_same]|].
      eexists. split; [apply (proj2 (Herr x))|by eapply effect_dir].
  - destruct Ha as (d & old & Hd & Hn & Hok & Herr). cbv zeta in *.
    assert (Halter : forall f, alter f name d = <[name := f old]> d).
    { intros f. apply map_eq. intros k. rewrite lookup_alter. destruct (decide (name = k)) as [->|Hne].
      - by rewrite lookup_insert_eq, Hn.
      - by rewrite lookup_insert_ne. }
    rewrite (there_file _ _ _ _ _ Ht Hd), Hn in Hs. cbn [default] in Hs. destruct r as [[]|x].
    + destruct Hs as [Hsize ->]. eexists. split; [by apply Hok|]. eapply effect_dir; [done..|apply Halter].
    + destruct Hs as [->|[k ->]]; [exists w; split; [apply Herr|by apply effect_same]|].
      eexists. split; [apply (proj2 (Herr x))|eapply effect_dir; [done..|apply Halter]].
  - destruct Hs as [-> _]. exists w. split; [apply Ha|by apply effect_same].
  - destruct Hs as [-> _]. exists w. split; [apply Ha|by apply effect_same].
  - subst s'. exists w. split; [apply Ha|by apply effect_same].
  - subst s'. exists w. split; [apply Ha|by apply effect_same].
Qed.
