(* ===== verification/StoreSystem.v ===== *)
(** * StoreSystem: writers and readers that run at the same time

    The file store with any number of handles, which goroutines begin, use and
    close at the same time, with [CleanupRun] and [Close].  A step is one
    operation of a running method ([StoreOps]), so that methods interleave
    between any two operations; at most one method of a handle runs at a time,
    as each holds the handle's mutex.  The store's own mutex is held by
    [acquire], [release] and [Close], which are single steps, and by
    [CleanupRun] while it removes a run file by file. *)

From Stdlib Require Import Ascii.
From S2P Require Import Prelude Bytes Plan Stages Shuffle Reports Runtime TextSource Iterator IteratorProofs Runner.
From S2P Require Import RunnerProofs MapTasks FileStore FileReads FileWrites Json JsonProofs Record ExampleFuncs Exchange WordCount.
From S2P Require Import StoreOps StoreOwn.
#[local] Open Scope Z_scope.

#[local] Arguments attemptPath : simpl never.
#[local] Arguments privatePath : simpl never.
#[local] Arguments bucketName : simpl never.
#[local] Arguments sha256_hex : simpl never.
#[local] Arguments safe : simpl never.
#[local] Arguments op_step : simpl never.

Section system.
Context {RC : RecordCodec} {RL : RecordCodecLaws RC}.
Variable faults : nat -> option fault.

(** ** The system *)

(** What a method has returned; [WriterDid] is the end of [Abort] or of the
    callback of the context, [ReaderDid] that of [Next], [Close] or a callback. *)
Inductive outcome :=
  | Began (r : result fileWriter)
  | Wrote (key : string) (value : any) (e : option error) (wr : fileWriter)
  | PublishReturned (r : result MapOutput) (wr : fileWriter)
  | WriterDid (wr : fileWriter)
  | Opened (r : result fileBucketReader)
  | ReaderDid (rd : fileBucketReader).

Inductive task :=
  | Writer (wr : fileWriter)
  | Reader (rd : fileBucketReader)
  | Running (p : prog outcome)
  | NoHandle.

(** [h_held] is the run whose count the handle has raised and not lowered, and
    [h_log] the records for which [Write] has returned nil. *)
Record handle := mkHandle {
  h_task : task;
  h_held : option string;
  h_log : list (string * any) }.

(** [sy_cleaning] is the run that [CleanupRun] is removing. *)
Record sys := mkSys {
  sy_shared : shared;
  sy_cleaning : option string;
  sy_handles : gmap nat handle }.

(** The methods that can be called on a handle; the callback of
    [context.AfterFunc] is one of them. *)
Inductive calls : task -> prog outcome -> Prop :=
  | call_write c wr k v : calls (Writer wr) (let! r := writeP c wr k v in Ret (Wrote k v r.1 r.2))
  | call_publish c wr : calls (Writer wr) (let! r := publishP c wr in Ret (PublishReturned r.1 r.2))
  | call_abort wr : calls (Writer wr) (let! r := abortMethodP wr in Ret (WriterDid r.2))
  | call_after c wr : calls (Writer wr) (let! wr := afterP c wr in Ret (WriterDid wr))
  | call_next c rd : calls (Reader rd) (let! r := nextP faults c rd in Ret (ReaderDid r.2))
  | call_close rd : calls (Reader rd) (let! r := closeReaderP faults rd in Ret (ReaderDid r.2))
  | call_after_reader c rd : calls (Reader rd) (let! rd := afterReaderP faults c rd in Ret (ReaderDid rd)).

(** The handle once a method has returned. *)
Definition returned_task (out : outcome) : task :=
  match out with
  | Began (Ok wr) | Wrote _ _ _ wr | PublishReturned _ wr | WriterDid wr => Writer wr
  | Opened (Ok rd) | ReaderDid rd => Reader rd
  | Began (Err _) | Opened (Err _) => NoHandle
  end.

Definition logged (out : outcome) (l : list (string * any)) : list (string * any) :=
  match out with Wrote k v None _ => l ++ [(k, v)] | _ => l end.

(** The observations the theorems below speak of. *)
Inductive label :=
  | Renamed (id : nat) (path : string) (d : directory)
  | Published (id : nat) (o : MapOutput)
  | Cleaned (run : string)
  | Quiet.

Definition op_label (id : nat) (s : shared) (o : op) (r : reply o) : label :=
  match renamed_by s o r with Some (path, d) => Renamed id path d | None => Quiet end.

Definition outcome_label (id : nat) (out : outcome) : label :=
  match out with PublishReturned (Ok o) _ => Published id o | _ => Quiet end.

(** [acquire] and [release] take the store's mutex. *)
Definition takes_mutex (o : op) : bool := match o with Acquire _ | Release _ => true | _ => false end.

(** *** [CleanupRun] and [Close] *)

Definition in_run (run path : string) : Prop := String.prefix (run +:+ "/") path = true.

#[export] Instance in_run_dec run path : Decision (in_run run path).
Proof. unfold in_run. apply _. Defined.

(** The checks of [CleanupRun], before [RemoveAll]. *)
Definition CleanupRun (run : string) (s : shared) : result unit :=
  if negb (lowerHex run 32) then Err (Errorf "invalid shuffle run namespace" [])
  else if sh_closed s then Err ErrClosed
  else if negb (default 0 (sh_active s !! run) =? 0) then Err ErrStoreBusy
  else Ok tt.

Definition CloseStore (s : shared) : result unit * shared :=
  if sh_closed s then (Ok tt, s)
  else if negb (bool_decide (sh_active s = ∅)) then (Err ErrStoreBusy, s)
  else (Ok tt, mkShared (sh_root s) (sh_active s) true).

(** [RemoveAll] of a run removes files and directories one after the other. *)
Definition removal (run : string) (s s' : shared) : Prop :=
  exists path d', in_run run path /\ (forall f, d' = Some f -> exists d, sh_root s !! path = Some d /\ f ⊆ d) /\
    s' = with_root (partial_alter (fun _ => d') path) s.

Definition with_handle (id : nat) (h : handle) (s : sys) : sys :=
  mkSys (sy_shared s) (sy_cleaning s) (<[id := h]> (sy_handles s)).

Inductive store_step (s : sys) : label -> sys -> Prop :=
  | step_begin id c a m n : sy_handles s !! id = None ->
      store_step s Quiet (with_handle id (mkHandle (Running (let! r := beginP c a m n in Ret (Began r))) None []) s)
  | step_open id c o p : sy_handles s !! id = None ->
      store_step s Quiet (with_handle id (mkHandle (Running (let! r := openP c o p in Ret (Opened r))) None []) s)
  | step_call id h p : sy_handles s !! id = Some h -> calls (h_task h) p ->
      store_step s Quiet (with_handle id (mkHandle (Running p) (h_held h) (h_log h)) s)
  | step_op id h o k r s' : sy_handles s !! id = Some h -> h_task h = Running (Op o k) ->
      (takes_mutex o = true -> sy_cleaning s = None) -> op_step o (sy_shared s) r s' ->
      store_step s (op_label id (sy_shared s) o r)
        (with_handle id (mkHandle (Running (k r)) (holds_after o r (h_held h)) (h_log h)) (mkSys s' (sy_cleaning s) (sy_handles s)))
  | step_return id h out : sy_handles s !! id = Some h -> h_task h = Running (Ret out) ->
      store_step s (outcome_label id out) (with_handle id (mkHandle (returned_task out) (h_held h) (logged out (h_log h))) s)
  | step_cleanup run : sy_cleaning s = None -> CleanupRun run (sy_shared s) = Ok tt ->
      store_step s (Cleaned run) (mkSys (sy_shared s) (Some run) (sy_handles s))
  | step_remove run s' : sy_cleaning s = Some run -> removal run (sy_shared s) s' ->
      store_step s Quiet (mkSys s' (sy_cleaning s) (sy_handles s))
  | step_cleaned run : sy_cleaning s = Some run ->
      store_step s Quiet (mkSys (sy_shared s) None (sy_handles s))
  | step_close r s' : sy_cleaning s = None -> CloseStore (sy_shared s) = (r, s') ->
      store_step s Quiet (mkSys s' None (sy_handles s)).

(** The labels of the steps, in order. *)
Inductive store_trace (s0 : sys) : list label -> sys -> Prop :=
  | trace_nil : store_trace s0 [] s0
  | trace_snoc ls s l s' : store_trace s0 ls s -> store_step s l s' -> store_trace s0 (ls ++ [l]) s'.

(** A store that was just opened, on a directory with any contents. *)
Definition fresh_store (s : sys) : Prop :=
  sh_active (sy_shared s) = ∅ /\ sh_closed (sy_shared s) = false /\ sy_cleaning s = None /\ sy_handles s = ∅.

(** The number of handles that hold [run]. *)
Definition handles_of (m : gmap nat handle) (run : string) : Z :=
  Z.of_nat (size (filter (fun kv => h_held kv.2 = Some run) m)).

(** ** Counting handles *)

Definition one (h : option string) (run : string) : Z := if decide (h = Some run) then 1 else 0.

Lemma one_None run : one None run = 0.
Proof. done. Qed.

Lemma handles_new m run id h : m !! id = None -> handles_of (<[id := h]> m) run = handles_of m run + one (h_held h) run.
Proof.
  intros Hn. unfold handles_of, one. case_decide as H.
  - rewrite map_filter_insert_True by done. rewrite map_size_insert_None; [lia|].
    rewrite map_lookup_filter_None. by left.
  - rewrite map_filter_insert_False by done. rewrite delete_id by done. lia.
Qed.

Lemma handles_update m run id h h' : m !! id = Some h ->
  handles_of (<[id := h']> m) run = handles_of m run - one (h_held h) run + one (h_held h') run.
Proof.
  intros Hx. rewrite <- (insert_delete_id m id h Hx) at 2. rewrite <- insert_delete_eq.
  rewrite !handles_new by apply lookup_delete_eq. lia.
Qed.

Lemma handles_pos m run id h : m !! id = Some h -> h_held h = Some run -> 0 < handles_of m run.
Proof.
  intros Hx Hh. unfold handles_of. destruct (size _) eqn:E; [|lia]. apply map_size_empty_inv in E.
  assert (Hf : filter (fun kv : nat * handle => h_held kv.2 = Some run) m !! id = Some h) by (apply map_lookup_filter_Some; done).
  by rewrite E in Hf.
Qed.

(** The counts are those of the handles, and there is no other entry. *)
Definition counts_ok (m : gmap string Z) (n : string -> Z) : Prop :=
  (forall run, default 0 (m !! run) = n run) /\ forall run k, m !! run = Some k -> 0 < k.

Lemma acquired_ok run m n : counts_ok m n -> counts_ok (acquired run m) (fun r => n r + one (Some run) r).
Proof.
  intros [Hn Hp]. unfold acquired, one. split.
  - intros r. rewrite lookup_partial_alter. destruct (decide (run = r)) as [->|Hne].
    + rewrite decide_True by done. cbn. by rewrite Hn.
    + rewrite decide_False by (by intros [=]). rewrite Hn. lia.
  - intros r k. rewrite lookup_partial_alter. destruct (decide (run = r)) as [->|Hne]; [|apply Hp].
    intros [= <-]. destruct (m !! r) as [j|] eqn:E; cbn; [apply Hp in E; lia|lia].
Qed.

Lemma released_ok run m n : 0 < n run -> counts_ok m n -> counts_ok (released run m) (fun r => n r - one (Some run) r).
Proof.
  intros Hpos [Hn Hp]. unfold released, one. pose proof (Hn run) as Hr.
  destruct (Z.eqb_spec (default 0 (m !! run) - 1) 0) as [E|E]; split.
  - intros r. destruct (decide (run = r)) as [->|Hne].
    + rewrite lookup_delete_eq, decide_True by done. cbn. lia.
    + rewrite lookup_delete_ne, decide_False by (done || by intros [=]). rewrite Hn. lia.
  - intros r k. rewrite lookup_delete_Some. intros [_ H]. by eapply Hp.
  - intros r. destruct (decide (run = r)) as [->|Hne].
    + rewrite lookup_insert_eq, decide_True by done. cbn. lia.
    + rewrite lookup_insert_ne, decide_False by (done || by intros [=]). rewrite Hn. lia.
  - intros r k. rewrite lookup_insert_Some. intros [[<- <-]|[_ H]]; [lia|by eapply Hp].
Qed.

Lemma counts_ext m n n' : (forall r, n r = n' r) -> counts_ok m n -> counts_ok m n'.
Proof. intros E [Hn Hp]. split; [|done]. intros r. by rewrite Hn. Qed.

(** ** The invariant *)

(** What a method may rename: the complete directory of the records accepted. *)
Definition may_rename (l : list (string * any)) (h : option string) (path : string) (d : directory) : Prop :=
  exists t, identity_ok t.1.1 /\ path = attemptPath t.1.1 /\ h = Some (ai_RunID t.1.1) /\ published_files t l d.

Definition outcome_ok (l : list (string * any)) (out : outcome) (w : own) : Prop :=
  match out with
  | Began (Ok wr) | WriterDid wr => writer_inv l wr w
  | Wrote _ _ _ wr => writer_inv (logged out l) wr w
  | PublishReturned r wr => publish_post l (r, wr) w
  | Opened (Ok rd) | ReaderDid rd => reader_inv rd w
  | Began (Err _) | Opened (Err _) => gone w
  end.

Definition task_ok (l : list (string * any)) (t : task) (w : own) : Prop :=
  match t with
  | Writer wr => writer_inv l wr w
  | Reader rd => reader_inv rd w
  | Running p => safe (may_rename l) (outcome_ok l) p w
  | NoHandle => gone w
  end.

Record handle_ok (ls : list label) (id : nat) (h : handle) (w : own) : Prop := {
  ho_held : h_held h = ow_held w;
  ho_private : private_ok w;
  ho_renamed : forall path d, ow_renamed w = Some (path, d) -> Renamed id path d ∈ ls;
  ho_task : task_ok (h_log h) (h_task h) w }.

(** What the handles own is there, and no two own the same directory. *)
Record sys_inv (ls : list label) (s : sys) (G : nat -> own) : Prop := {
  si_handle : forall id h, sy_handles s !! id = Some h -> handle_ok ls id h (G id);
  si_there : forall id h, sy_handles s !! id = Some h -> there (G id) (sy_shared s);
  si_apart : forall i j hi hj p d e, sy_handles s !! i = Some hi -> sy_handles s !! j = Some hj ->
    ow_dir (G i) = Some (p, d) -> ow_dir (G j) = Some (p, e) -> i = j;
  si_counts : counts_ok (sh_active (sy_shared s)) (handles_of (sy_handles s));
  si_cleaning : forall run, sy_cleaning s = Some run -> lowerHex run 32 = true /\ handles_of (sy_handles s) run = 0;
  si_closed : sh_closed (sy_shared s) = true -> forall run, handles_of (sy_handles s) run = 0 }.

Definition upd (G : nat -> own) (id : nat) (w : own) (i : nat) : own := if decide (i = id) then w else G i.

Lemma upd_eq G id w : upd G id w id = w.
Proof. unfold upd. by rewrite decide_True. Qed.

Lemma upd_ne G id w i : i <> id -> upd G id w i = G i.
Proof. intros. unfold upd. by rewrite decide_False. Qed.

Lemma handle_ok_snoc ls l id h w : handle_ok ls id h w -> handle_ok (ls ++ [l]) id h w.
Proof. intros []. split; try done. intros path d H. apply elem_of_app. left. eauto. Qed.

(** A step that changes one handle and neither what is shared nor what it owns. *)
Lemma inv_with_handle ls l s G id h w :
  sys_inv ls s G -> handle_ok (ls ++ [l]) id h w ->
  match sy_handles s !! id with Some h0 => h_held h = h_held h0 /\ w = G id | None => h_held h = None /\ ow_dir w = None end ->
  sys_inv (ls ++ [l]) (with_handle id h s) (upd G id w).
Proof.
  intros [Hh Ht Ha Hc Hcl Hclo] Hnew Hsame.
  assert (Hcount : forall run, handles_of (<[id := h]> (sy_handles s)) run = handles_of (sy_handles s) run).
  { intros run. destruct (sy_handles s !! id) as [h0|] eqn:E.
    - rewrite (handles_update _ _ _ h0) by done. destruct Hsame as [-> _]. lia.
    - rewrite handles_new by done. destruct Hsame as [-> _]. unfold one. rewrite decide_False by done. lia. }
  assert (Hdir : forall i hi p d, <[id := h]> (sy_handles s) !! i = Some hi -> ow_dir (upd G id w i) = Some (p, d) ->
    exists hi', sy_handles s !! i = Some hi' /\ ow_dir (G i) = Some (p, d)).
  { intros i hi p d [[<- <-]|[Hne Hi]]%lookup_insert_Some Hd.
    - rewrite upd_eq in Hd. destruct (sy_handles s !! id) as [h0|] eqn:E; destruct Hsame as [_ Hw].
      + exists h0. by rewrite <- Hw.
      + congruence.
    - rewrite upd_ne in Hd by done. eauto. }
  split; cbn [with_handle sy_shared sy_cleaning sy_handles].
  - intros i hi [[<- <-]|[Hne Hi]]%lookup_insert_Some; [by rewrite upd_eq|]. rewrite upd_ne by done. by apply handle_ok_snoc, Hh.
  - intros i hi Hi p d Hd. destruct (Hdir _ _ _ _ Hi Hd) as (hi' & Hi' & Hd'). by eapply Ht.
  - intros i j hi hj p d e Hi Hj Hdi Hdj. destruct (Hdir _ _ _ _ Hi Hdi) as (? & ? & ?), (Hdir _ _ _ _ Hj Hdj) as (? & ? & ?).
    by eapply Ha.
  - eapply counts_ext; [|exact Hc]. intros run. by rewrite Hcount.
  - intros run H. rewrite Hcount. by apply Hcl.
  - intros H run. rewrite Hcount. by apply Hclo.
Qed.

Lemma calls_safe t p l w : calls t p -> task_ok l t w -> safe (may_rename l) (outcome_ok l) p w.
Proof.
  intros [c wr k v|c wr|wr|c wr|c rd|rd|c rd]; cbn [task_ok]; intros H.
  - eapply safe_bind_post; [by eapply writeP_safe|]. intros [[x|] wr'] w'; cbn; [apply given_up_inv|by intros []].
  - eapply safe_bind_post; [eapply publishP_safe; [|done]|by intros [r wr'] w'].
    intros t0 d Ht Hp. by exists t0.
  - eapply safe_bind_post; [by eapply abortMethodP_safe|]. done.
  - eapply safe_bind_post; [by eapply afterP_safe|]. done.
  - eapply safe_bind_post; [by eapply nextP_safe|]. done.
  - eapply safe_bind_post; [by eapply closeReaderP_safe|]. done.
  - eapply safe_bind_post; [by eapply afterReaderP_safe|]. done.
Qed.

Lemma outcome_task out l w : outcome_ok l out w -> task_ok (logged out l) (returned_task out) w.
Proof.
  destruct out as [[wr|x]|k v e wr|r wr|wr|[rd|x]|rd]; cbn; try done.
  intros [Hg _]. by apply given_up_inv.
Qed.

(** ** Paths *)

Lemma prefix_app s t : String.prefix s t = true -> exists u, t = s +:+ u.
Proof.
  revert t. induction s as [|c s IH]; intros t; [by exists t|]. destruct t as [|c' t]; [done|]. cbn.
  destruct (ascii_dec c c') as [<-|]; [|done]. intros [u ->]%IH. by exists u.
Qed.

Lemma in_run_id run id rest : lowerHex run 32 = true -> lowerHex id 32 = true -> in_run run (id +:+ "/" +:+ rest) -> id = run.
Proof.
  intros Hr Hi [u Hu]%prefix_app. apply (slash_split id rest run u); [by eapply lowerHex_no_slash..|].
  rewrite Hu. clear. induction run as [|c run IH]; [done|]. by rewrite !append_cons, IH.
Qed.

Lemma in_run_attempt run a : lowerHex run 32 = true -> identity_ok a -> in_run run (attemptPath a) -> ai_RunID a = run.
Proof. intros Hr [Ha _]. unfold attemptPath. cbn [joinPath]. by apply in_run_id. Qed.

Lemma in_run_private run a draw : lowerHex run 32 = true -> identity_ok a -> in_run run (privatePath a draw) -> ai_RunID a = run.
Proof. intros Hr [Ha _]. unfold privatePath. cbn [joinPath]. by apply in_run_id. Qed.

(** What a handle owns is not a published path. *)
Lemma owned_not_final w p d a : private_ok w -> ow_dir w = Some (p, d) -> identity_ok a -> attemptPath a <> p.
Proof. intros Hp Hd Ha. destruct (Hp p d Hd) as (b & draw & Hb & -> & _). by apply privatePath_private. Qed.

(** ** An operation of a running method *)

(** Another handle's directory is left alone. *)
Lemma effect_other R o r w w' s s' w2 : op_effect R o r w w' s s' ->
  (forall h path d, R h path d -> exists a, identity_ok a /\ path = attemptPath a) ->
  there w2 s -> private_ok w2 -> (forall p d e, ow_dir w2 = Some (p, d) -> ow_dir w = Some (p, e) -> False) ->
  there w2 s' /\ forall p d e, ow_dir w2 = Some (p, d) -> ow_dir w' = Some (p, e) -> False.
Proof.
  intros H HR Ht Hp Hapart. pose proof (oe_root _ _ _ _ _ _ _ H) as Hr.
  destruct (renamed_by s o r) as [[new d]|].
  - destruct Hr as (old & Hd & _ & HRd & _ & Hroot & ->). destruct (HR _ _ _ HRd) as (a & Ha & ->). split; [|done].
    intros p e He. rewrite Hroot, lookup_insert_ne, lookup_delete_ne; [by apply Ht|..].
    + intros <-. by eapply Hapart.
    + by eapply owned_not_final.
  - destruct Hr as (Hk & Hnew & _).
    assert (Hother : forall p d e, ow_dir w2 = Some (p, d) -> ow_dir w' = Some (p, e) -> False).
    { intros p d e Hd He. destruct (Hnew _ _ He) as [Hn|[e' He']]; [|by eapply Hapart]. rewrite (Ht _ _ Hd) in Hn. done. }
    split; [|done]. intros p d Hd. rewrite Hk; [by apply Ht|..].
    + intros e He. by eapply Hapart.
    + intros e He. by eapply Hother.
Qed.

Lemma effect_counts R o r w w' s s' m id h h' : op_effect R o r w w' s s' -> m !! id = Some h ->
  h_held h = ow_held w -> h_held h' = ow_held w' -> counts_ok (sh_active s) (handles_of m) ->
  counts_ok (sh_active s') (handles_of (<[id := h']> m)).
Proof.
  intros H Hid Hh Hh' Hc. destruct (oe_accounts _ _ _ _ _ _ _ H) as [E1 E2|run E0 E1 _ E2|run E0 E1 E2]; rewrite E2.
  - eapply counts_ext; [|exact Hc]. intros r'. rewrite (handles_update _ _ _ h) by done. rewrite Hh, Hh', E1. lia.
  - eapply counts_ext; [|by apply acquired_ok]. intros r'. rewrite (handles_update _ _ _ h) by done.
    rewrite Hh, Hh', E0, E1, one_None. lia.
  - eapply counts_ext; [|apply released_ok; [|exact Hc]]; [|eapply handles_pos; [exact Hid|congruence]].
    intros r'. rewrite (handles_update _ _ _ h) by done. rewrite Hh, Hh', E0, E1, one_None. lia.
Qed.

(** What [op_sound] makes of a step of a handle. *)
Lemma step_effect ls s G id h o k r s' :
  sys_inv ls s G -> sy_handles s !! id = Some h -> h_task h = Running (Op o k) -> op_step o (sy_shared s) r s' ->
  exists w', safe (may_rename (h_log h)) (outcome_ok (h_log h)) (k r) w' /\
    op_effect (may_rename (h_log h)) o r (G id) w' (sy_shared s) s'.
Proof.
  intros [Hh Ht _ _ _ _] Hid Htask Hs. pose proof (Hh _ _ Hid) as [_ Hp _ Hok]. rewrite Htask in Hok. cbn in Hok.
  unfold safe in Hok. fold @safe in Hok. eapply (op_sound _ _ _ _ _ _ _ Hok Hs); [by eapply Ht|done].
Qed.

Lemma op_inv ls s G id h o k r s' :
  sys_inv ls s G -> sy_handles s !! id = Some h -> h_task h = Running (Op o k) ->
  (takes_mutex o = true -> sy_cleaning s = None) -> op_step o (sy_shared s) r s' ->
  exists w, sys_inv (ls ++ [op_label id (sy_shared s) o r])
    (with_handle id (mkHandle (Running (k r)) (holds_after o r (h_held h)) (h_log h)) (mkSys s' (sy_cleaning s) (sy_handles s)))
    (upd G id w).
Proof.
  intros Hinv Hid Htask Hmutex Hs. pose proof (step_effect _ _ _ _ _ _ _ _ _ Hinv Hid Htask Hs) as (w' & Hsafe & He).
  pose proof Hinv as [Hh Ht Ha Hc Hcl Hclo]. pose proof (Hh _ _ Hid) as [Hheld Hp Hren _]. exists w'.
  set (h' := mkHandle _ _ _). assert (Hheld' : h_held h' = ow_held w') by (cbn; rewrite (oe_held _ _ _ _ _ _ _ He); by rewrite Hheld).
  assert (Hzero : forall run, (sy_cleaning s = Some run \/ sh_closed s' = true) ->
    handles_of (<[id := h']> (sy_handles s)) run = handles_of (sy_handles s) run).
  { intros run Hor. rewrite (handles_update _ _ _ h) by done. rewrite Hheld', Hheld.
    destruct (oe_accounts _ _ _ _ _ _ _ He) as [E1 E2|run' E0 E1 E3 E2|run' E0 E1 E2].
    - rewrite E1. lia.
    - destruct Hor as [Hor|Hor]; [|by rewrite (oe_closed _ _ _ _ _ _ _ He), E3 in Hor].
      destruct o; cbn in Hmutex; try (rewrite (oe_held _ _ _ _ _ _ _ He), E0 in E1; done); by rewrite Hmutex in Hor.
    - assert (Hpos : 0 < handles_of (sy_handles s) run') by (eapply handles_pos; [exact Hid|congruence]).
      destruct Hor as [Hor|Hor].
      + destruct o; cbn in Hmutex; try (pose proof (oe_held _ _ _ _ _ _ _ He) as Hx; rewrite E0, E1 in Hx; done);
          try (by rewrite Hmutex in Hor).
      + rewrite (oe_closed _ _ _ _ _ _ _ He) in Hor. specialize (Hclo Hor run'). lia. }
  assert (Hother : forall i hi, sy_handles s !! i = Some hi -> i <> id ->
    there (G i) s' /\ forall p d e, ow_dir (G i) = Some (p, d) -> ow_dir w' = Some (p, e) -> False).
  { intros i hi Hi Hne. eapply effect_other; [exact He| |by eapply Ht|by eapply Hh|].
    - intros hr path d (t & Hid' & -> & _). eauto.
    - intros p d e Hd Hd'. destruct Hne. by eapply Ha. }
  split; cbn [with_handle sy_shared sy_cleaning sy_handles].
  - intros i hi [[<- <-]|[Hne Hi]]%lookup_insert_Some.
    + rewrite upd_eq. split; [done|by eapply oe_private| |done]. intros path d Hd.
      pose proof (oe_root _ _ _ _ _ _ _ He) as Hr. unfold op_label. apply elem_of_app.
      destruct (renamed_by (sy_shared s) o r) as [[new d']|].
      * destruct Hr as (old & _ & _ & _ & _ & _ & ->). cbn in Hd. injection Hd as -> ->. right. by apply list_elem_of_singleton.
      * destruct Hr as (_ & _ & Hr). left. apply Hren. by rewrite <- Hr.
    + rewrite upd_ne by done. by apply handle_ok_snoc, Hh.
  - intros i hi [[<- <-]|[Hne Hi]]%lookup_insert_Some; [rewrite upd_eq; apply He|]. rewrite upd_ne by done. by eapply Hother.
  - intros i j hi hj p d e [[<- <-]|[Hni Hi]]%lookup_insert_Some [[<- <-]|[Hnj Hj]]%lookup_insert_Some;
      rewrite ?upd_eq, ?upd_ne by done; intros Hd He'; [done| | |by eapply Ha].
    + exfalso. by eapply (proj2 (Hother j hj Hj (not_eq_sym Hnj))).
    + exfalso. by eapply (proj2 (Hother i hi Hi (not_eq_sym Hni))).
  - by eapply effect_counts.
  - intros run Hrun. rewrite Hzero by auto. by apply Hcl.
  - intros Hclosed run. rewrite Hzero by auto. apply Hclo. by rewrite <- (oe_closed _ _ _ _ _ _ _ He).
Qed.

(** ** Every step keeps the invariant *)

(** A step of the store itself. *)
Lemma inv_store ls l s G s' cleaning :
  sys_inv ls s G -> sh_active s' = sh_active (sy_shared s) ->
  (forall id h, sy_handles s !! id = Some h -> there (G id) s') ->
  (forall run, cleaning = Some run -> lowerHex run 32 = true /\ handles_of (sy_handles s) run = 0) ->
  (sh_closed s' = true -> forall run, handles_of (sy_handles s) run = 0) ->
  sys_inv (ls ++ [l]) (mkSys s' cleaning (sy_handles s)) G.
Proof.
  intros [Hh Ht Ha Hc Hcl Hclo] Hact Hthere Hclean Hclosed. split; cbn; try done.
  - intros id h H. by apply handle_ok_snoc, Hh.
  - by rewrite Hact.
Qed.

(** The run that is being removed owns nothing. *)
Lemma owned_not_in_run ls s G id h run p d : sys_inv ls s G -> lowerHex run 32 = true -> handles_of (sy_handles s) run = 0 ->
  sy_handles s !! id = Some h -> ow_dir (G id) = Some (p, d) -> ~ in_run run p.
Proof.
  intros [Hh _ _ _ _ _] Hrun Hz Hid Hd Hin. destruct (Hh _ _ Hid) as [Hheld Hp _ _].
  destruct (Hp _ _ Hd) as (a & draw & Ha & -> & Hown). apply in_run_private in Hin; [|done..]. subst run.
  pose proof (handles_pos _ _ _ _ Hid (eq_trans Hheld Hown)). lia.
Qed.

Lemma inv_step ls s G l s' : sys_inv ls s G -> store_step s l s' -> exists G', sys_inv (ls ++ [l]) s' G'.
Proof.
  intros Hinv Hstep. pose proof Hinv as [Hh Ht Ha Hc Hcl Hclo].
  assert (Hnew : forall id p, sy_handles s !! id = None -> safe (may_rename []) (outcome_ok []) p (mkOwn None None None) ->
    exists G', sys_inv (ls ++ [Quiet]) (with_handle id (mkHandle (Running p) None []) s) G').
  { intros id p Hid Hsafe. eexists. eapply (inv_with_handle _ _ _ _ _ _ (mkOwn None None None)); [exact Hinv| |by rewrite Hid].
    by split. }
  destruct Hstep as [id c a m n Hid|id c o p Hid|id h p Hid Hcall|id h o k r s' Hid Htask Hmutex Hop|id h out Hid Htask|
                     run Hfree Hcheck|run s' Hrun Hrem|run Hrun|r s' Hfree Hclose].
  - apply Hnew; [done|]. eapply safe_bind_post; [apply beginP_safe|]. intros [wr|x] w; cbn; [by intros []|done].
  - apply Hnew; [done|]. eapply safe_bind_post; [apply openP_safe|]. by intros [rd|x] w.
  - exists (upd G id (G id)). apply inv_with_handle; [done| |by rewrite Hid]. destruct (Hh _ _ Hid) as [Hheld Hp Hren Hok].
    split; cbn; [done|done| |by eapply calls_safe]. intros path d H. apply elem_of_app. left. eauto.
  - destruct (op_inv _ _ _ _ _ _ _ _ _ Hinv Hid Htask Hmutex Hop) as [w Hw]. eauto.
  - exists (upd G id (G id)). apply inv_with_handle; [done| |by rewrite Hid]. destruct (Hh _ _ Hid) as [Hheld Hp Hren Hok].
    rewrite Htask in Hok. split; cbn; [done|done| |by apply outcome_task]. intros path d H. apply elem_of_app. left. eauto.
  - exists G. unfold CleanupRun in Hcheck. destruct (lowerHex run 32) eqn:Hhex; [|done]. cbn in Hcheck.
    destruct (sh_closed _) eqn:Hclosed; [done|]. destruct (Z.eqb_spec (default 0 (sh_active (sy_shared s) !! run)) 0) as [E|]; [|done].
    apply inv_store; [done|done|done| |by rewrite Hclosed]. intros run' [= <-]. split; [done|]. by rewrite <- (proj1 Hc).
  - destruct (Hcl _ Hrun) as [Hhex Hz]. destruct Hrem as (path & d' & Hin & _ & ->). exists G. apply inv_store; [done|done| |done|done].
    intros id h Hid p d Hd. cbn. rewrite lookup_partial_alter_ne; [by eapply Ht|]. intros ->.
    by eapply owned_not_in_run.
  - exists G. by apply inv_store.
  - exists G. unfold CloseStore in Hclose. destruct (sh_closed _) eqn:Hclosed; [injection Hclose as <- <-; apply inv_store; [done..|intros _; by apply Hclo]|].
    destruct (decide (sh_active (sy_shared s) = ∅)) as [E|E].
    + rewrite bool_decide_eq_true_2 in Hclose by done. injection Hclose as <- <-. apply inv_store; [done|done|done|done|].
      intros _ run. rewrite <- (proj1 Hc). by rewrite E, lookup_empty.
    + rewrite bool_decide_eq_false_2 in Hclose by done. injection Hclose as <- <-. apply inv_store; [done..|by rewrite Hclosed].
Qed.

Lemma fresh_inv s : fresh_store s -> sys_inv [] s (fun _ => mkOwn None None None).
Proof.
  intros (Ha & Hc & Hcl & Hh). assert (Hz : forall run, handles_of (sy_handles s) run = 0).
  { intros run. unfold handles_of. by rewrite Hh, map_filter_empty, map_size_empty. }
  split; rewrite ?Hc, ?Hcl; try done.
  - intros id h. by rewrite Hh, lookup_empty.
  - rewrite Ha. split; [intros run; by rewrite lookup_empty, Hz|by intros run k; rewrite lookup_empty].
Qed.

Lemma trace_inv s0 ls s : fresh_store s0 -> store_trace s0 ls s -> exists G, sys_inv ls s G.
Proof.
  intros H0. induction 1 as [|ls s l s' _ [G IH] Hs]; [eexists; by apply fresh_inv|]. by eapply inv_step.
Qed.

(** ** Open handles *)

(** Which handle a goroutine that runs no method holds. *)
Definition held_by (t : task) (h : option string) : Prop :=
  match t with
  | Writer wr => h = if fw_closed wr then None else Some (ai_RunID (mo_Attempt (fw_output wr)))
  | Reader rd => h = match br_done rd with Some _ => None | None => Some (reader_run rd) end
  | NoHandle => h = None
  | Running _ => True
  end.

Lemma task_held l t w : task_ok l t w -> held_by t (ow_held w).
Proof.
  destruct t as [wr|rd|p|]; cbn; [|by intros []|done|by intros []]. unfold writer_inv. destruct (fw_closed wr); [by intros []|].
  intros (t & d & H & _). by eapply having_run.
Qed.

(** C39. Open handles are safe.  The methods of any number of writers and readers
    interleave, between any two of their operations on the directory and the
    counts, with each other and with [CleanupRun] and [Close]; any operation may
    fail, having done a part of its work.  The private directory of an open writer
    that runs no method holds the buckets of exactly the records for which [Write]
    has returned nil, in that order, and the writer's counts are theirs.  The
    store counts the handles of each run, from [acquire] to [release]; an open
    writer or reader has one and a closed one has none.  While [CleanupRun]
    removes a run no handle of the run is held, and none at all once the store
    is closed. *)
Theorem open_handles s0 ls s : fresh_store s0 -> store_trace s0 ls s ->
  (forall id h wr, sy_handles s !! id = Some h -> h_task h = Writer wr -> fw_closed wr = false ->
     exists d, sh_root (sy_shared s) !! fw_private wr = Some d /\ files_of (targetOf wr).2 (h_log h) d /\
               fw_output wr = openOutput (targetOf wr) (h_log h)) /\
  (forall run, default 0 (sh_active (sy_shared s) !! run) = handles_of (sy_handles s) run) /\
  (forall id h, sy_handles s !! id = Some h -> held_by (h_task h) (h_held h)) /\
  (forall run, sy_cleaning s = Some run -> handles_of (sy_handles s) run = 0) /\
  (sh_closed (sy_shared s) = true -> forall run, handles_of (sy_handles s) run = 0).
Proof.
  intros H0 Htr. destruct (trace_inv _ _ _ H0 Htr) as [G [Hh Ht _ [Hc _] Hcl Hclo]]. split_and!; [|done| |by intros run []%Hcl|done].
  - intros id h wr Hid Htask Ho. destruct (Hh _ _ Hid) as [_ _ _ Hok]. rewrite Htask in Hok. cbn in Hok. unfold writer_inv in Hok.
    rewrite Ho in Hok. destruct Hok as (t & d & [How Hheld Hd] & Hf). exists d. rewrite (ow_target _ _ _ _ How).
    split; [by eapply Ht|]. split; [done|apply How].
  - intros id h Hid. destruct (Hh _ _ Hid) as [-> _ _ Hok]. by eapply task_held.
Qed.

(** ** Publication *)

(** What a step renames. *)
Lemma renamed_step ls s G id path d s' : sys_inv ls s G -> store_step s (Renamed id path d) s' ->
  exists h, sy_handles s !! id = Some h /\ sy_cleaning s' = sy_cleaning s /\ may_rename (h_log h) (h_held h) path d /\ d <> ∅ /\
    default ∅ (sh_root (sy_shared s) !! path) = ∅ /\ sh_root (sy_shared s') !! path = Some d.
Proof.
  intros Hinv Hs. remember (Renamed id path d) as l eqn:El.
  destruct Hs as [| | |id' h o k r s' Hid Htask _ Hop|id' h out Hid Htask| | | |]; try done.
  - destruct (step_effect _ _ _ _ _ _ _ _ _ Hinv Hid Htask Hop) as (w' & _ & He). pose proof (oe_root _ _ _ _ _ _ _ He) as Hr.
    unfold op_label in El. destruct (renamed_by (sy_shared s) o r) as [[new d']|]; [|done]. injection El as -> -> ->.
    destruct Hr as (old & _ & Hne & HR & Hnew & Hroot & _). exists h. split; [done|]. split; [done|].
    destruct (si_handle _ _ _ Hinv _ _ Hid) as [-> _ _ _]. cbn. split_and!; [done..|]. by rewrite Hroot, lookup_insert_eq.
  - by destruct out as [| |[]| | |].
Qed.

(** A published directory is left alone until its run is removed. *)
Lemma step_kept ls s G l s' a d : sys_inv ls s G -> store_step s l s' -> identity_ok a -> d <> ∅ ->
  l <> Cleaned (ai_RunID a) -> sy_cleaning s <> Some (ai_RunID a) -> sh_root (sy_shared s) !! attemptPath a = Some d ->
  sh_root (sy_shared s') !! attemptPath a = Some d /\ sy_cleaning s' <> Some (ai_RunID a) /\
  forall id d', l <> Renamed id (attemptPath a) d'.
Proof.
  intros Hinv Hs Ha Hne Hl Hcl Hd.
  assert (Hnot : forall id d', l <> Renamed id (attemptPath a) d').
  { intros id d' ->. apply (renamed_step _ _ _ _ _ _ _ Hinv) in Hs as (h & _ & _ & _ & _ & Hn & _). by rewrite Hd in Hn. }
  destruct Hs as [id c b m n Hid|id c o p Hid|id h p Hid Hcall|id h o k r s' Hid Htask _ Hop|id h out Hid Htask|
                  run Hfree Hcheck|run s' Hrun Hrem|run Hrun|r s' Hfree Hclose]; cbn [with_handle sy_shared sy_cleaning]; try done.
  - split; [|done]. destruct (step_effect _ _ _ _ _ _ _ _ _ Hinv Hid Htask Hop) as (w' & _ & He).
    pose proof (oe_root _ _ _ _ _ _ _ He) as Hr. destruct (si_handle _ _ _ Hinv _ _ Hid) as [_ Hp _ _].
    unfold op_label in Hnot. destruct (renamed_by (sy_shared s) o r) as [[new d']|].
    + destruct Hr as (old & Hold & _ & _ & _ & -> & _). rewrite lookup_insert_ne, lookup_delete_ne; [done|..].
      * intros E. by apply (owned_not_final _ _ _ a Hp) in Hold.
      * intros E. by eapply Hnot; rewrite E.
    + destruct Hr as (-> & _ & _); [done|..]; intros e He'.
      * by apply (owned_not_final _ _ _ a Hp) in He'.
      * by apply (owned_not_final _ _ _ a (oe_private _ _ _ _ _ _ _ He)) in He'.
  - split; [done|]. split; [|done]. intros [= ->]. done.
  - split; [|done]. destruct (si_cleaning _ _ _ Hinv _ Hrun) as [Hhex _]. destruct Hrem as (path & d' & Hin & _ & ->). cbn.
    rewrite lookup_partial_alter_ne; [done|]. intros ->. apply in_run_attempt in Hin; [|done..]. congruence.
  - split; [|done]. unfold CloseStore in Hclose. destruct (sh_closed _); [by injection Hclose as _ <-|].
    destruct (negb _); by injection Hclose as _ <-.
Qed.

Lemma trace_kept ls s G ls' s' a d : sys_inv ls s G -> store_trace s ls' s' -> identity_ok a -> d <> ∅ ->
  Cleaned (ai_RunID a) ∉ ls' -> sy_cleaning s <> Some (ai_RunID a) -> sh_root (sy_shared s) !! attemptPath a = Some d ->
  (exists G', sys_inv (ls ++ ls') s' G') /\ sh_root (sy_shared s') !! attemptPath a = Some d /\
  sy_cleaning s' <> Some (ai_RunID a) /\ forall id d', Renamed id (attemptPath a) d' ∉ ls'.
Proof.
  intros Hinv Htr Ha Hne Hls Hcl Hd. induction Htr as [|ls' s1 l s' Htr IH Hs].
  - split_and!; [exists G; by rewrite app_nil_r|done|done|]. intros id d' H. by apply elem_of_nil in H.
  - rewrite not_elem_of_app in Hls. destruct Hls as [Hls Hl]. rewrite list_elem_of_singleton in Hl.
    destruct (IH Hls) as ([G1 H1] & Hd1 & Hcl1 & Hr1).
    destruct (step_kept _ _ _ _ _ _ _ H1 Hs Ha Hne (not_eq_sym Hl) Hcl1 Hd1) as (Hd2 & Hcl2 & Hr2).
    split_and!; [rewrite app_assoc; by eapply inv_step|done|done|].
    intros id d' [H|H%list_elem_of_singleton]%elem_of_app; [by eapply Hr1|by eapply Hr2].
Qed.

(** What [Publish] has returned was renamed. *)
Lemma published_renamed s0 ls s id o : fresh_store s0 -> store_trace s0 ls s -> Published id o ∈ ls ->
  exists t l d, o = finalOutput t l /\ published_files t l d /\ Renamed id (attemptPath (mo_Attempt o)) d ∈ ls.
Proof.
  intros H0. induction 1 as [|ls s l s' Htr IH Hs]; [by intros H%elem_of_nil|].
  intros [H|H%list_elem_of_singleton]%elem_of_app.
  - destruct (IH H) as (t & l' & d & ? & ? & ?). exists t, l', d. split_and!; [done..|]. apply elem_of_app. by left.
  - destruct (trace_inv _ _ _ H0 Htr) as [G Hinv]. destruct Hs as [| | |id' h o' k r s' Hid Htask _ Hop|id' h out Hid Htask| | | |]; try done.
    + unfold op_label in H. by destruct (renamed_by _ _ _) as [[? ?]|].
    + destruct (si_handle _ _ _ Hinv _ _ Hid) as [_ _ Hren Hok]. rewrite Htask in Hok. cbn in Hok.
      destruct out as [r|k v e wr|[o'|x] wr|wr|r|rd]; try done. cbn in H. injection H as -> ->.
      destruct Hok as [_ (t & d & -> & Hp & Hr)]. exists t, (h_log h), d. split_and!; [done..|].
      apply elem_of_app. left. by apply Hren.
Qed.

(** C40. Publication is atomic and final.  An attempt appears in the one step that
    renames a writer's private directory: nothing was at its path before, and
    after it the manifest and every bucket are there, those of exactly the
    records for which this writer's [Write] has returned nil.  From then on no
    interleaving, and no other writer of the same attempt that was about to
    rename its own directory too, changes them or renames onto them, until the
    run is removed.  [Publish] returns an output only of what it has renamed. *)
Theorem published_once s0 ls s : fresh_store s0 -> store_trace s0 ls s ->
  (forall id path d s1, store_step s (Renamed id path d) s1 ->
     default ∅ (sh_root (sy_shared s) !! path) = ∅ /\ sh_root (sy_shared s1) !! path = Some d /\
     exists h t, sy_handles s !! id = Some h /\ path = attemptPath t.1.1 /\ published_files t (h_log h) d /\
     forall ls' s2, store_trace s1 ls' s2 -> Cleaned (ai_RunID t.1.1) ∉ ls' ->
       sh_root (sy_shared s2) !! path = Some d /\ forall id' d', Renamed id' path d' ∉ ls') /\
  (forall id o, Published id o ∈ ls -> exists t l d,
     o = finalOutput t l /\ published_files t l d /\ Renamed id (attemptPath (mo_Attempt o)) d ∈ ls).
Proof.
  intros H0 Htr. destruct (trace_inv _ _ _ H0 Htr) as [G Hinv]. split; [|intros id o; by eapply published_renamed].
  intros id path d s1 Hs. destruct (renamed_step _ _ _ _ _ _ _ Hinv Hs) as (h & Hid & Hcl & HR & Hne & Hn & Hd).
  split; [done|]. split; [done|]. destruct HR as (t & Ha & -> & Hheld & Hp). exists h, t. split_and!; [done..|].
  intros ls' s2 Htr' Hls. destruct (inv_step _ _ _ _ _ Hinv Hs) as [G1 Hinv1].
  assert (Hfree : sy_cleaning s1 <> Some (ai_RunID t.1.1)).
  { rewrite Hcl. intros E. destruct (si_cleaning _ _ _ Hinv _ E) as [_ Hz]. pose proof (handles_pos _ _ _ _ Hid Hheld). lia. }
  destruct (trace_kept _ _ _ _ _ _ _ Hinv1 Htr' Ha Hne Hls Hfree Hd) as (_ & ? & _ & ?). done.
Qed.

End system.

(** ** Running a schedule *)

Section schedule.
Context {RC : RecordCodec}.
Variable nonce : nat -> list N.

(** A call, one operation of the method that runs on a handle, or its return; no
    operation fails unless it has to, and [k] is the next draw. *)
Inductive choice :=
  | SBegin (id : nat) (a : AttemptIdentity) (m n : Z)
  | SWrite (id : nat) (key : string) (value : any)
  | SPublish (id : nat)
  | SOp (id k : nat)
  | SReturn (id : nat).

Definition run_op (o : op) (k : nat) (s : shared) : reply o * shared :=
  let '(r, w) := exec_op (fun _ => None) nonce o (mkRuntime 0 0 (mkFilesystem (sh_root s) (sh_active s) (sh_closed s) 0 k)) in
  (r, shared_of w).

Definition sched_step (ch : choice) (s : sys) : option (label * sys) :=
  let start id h p := Some (Quiet, with_handle id (mkHandle (Running p) (h_held h) (h_log h)) s) in
  match ch with
  | SBegin id a m n =>
      match sy_handles s !! id with
      | None => start id (mkHandle NoHandle None []) (let! r := beginP Background a m n in Ret (Began r))
      | Some _ => None
      end
  | SWrite id key value =>
      h ← sy_handles s !! id;
      match h_task h with
      | Writer wr => start id h (let! r := writeP Background wr key value in Ret (Wrote key value r.1 r.2))
      | _ => None
      end
  | SPublish id =>
      h ← sy_handles s !! id;
      match h_task h with
      | Writer wr => start id h (let! r := publishP Background wr in Ret (PublishReturned r.1 r.2))
      | _ => None
      end
  | SOp id draw =>
      h ← sy_handles s !! id;
      match h_task h, sy_cleaning s with
      | Running (Op o k), None =>
          let '(r, s') := run_op o draw (sy_shared s) in
          Some (op_label id (sy_shared s) o r,
                with_handle id (mkHandle (Running (k r)) (holds_after o r (h_held h)) (h_log h)) (mkSys s' None (sy_handles s)))
      | _, _ => None
      end
  | SReturn id =>
      h ← sy_handles s !! id;
      match h_task h with
      | Running (Ret out) =>
          Some (outcome_label id out, with_handle id (mkHandle (returned_task out) (h_held h) (logged out (h_log h))) s)
      | _ => None
      end
  end.

Fixpoint sched_run (chs : list choice) (ls : list label) (s : sys) : option (list label * sys) :=
  match chs with
  | [] => Some (ls, s)
  | ch :: chs => '(l, s') ← sched_step ch s; sched_run chs (ls ++ [l]) s'
  end.

Lemma sched_step_sound faults ch s l s' : sched_step ch s = Some (l, s') -> store_step faults s l s'.
Proof.
  destruct ch as [id a m n|id key value|id|id draw|id]; cbn.
  - destruct (sy_handles s !! id) eqn:E; [done|]. intros [= <- <-]. by constructor.
  - intros (h & Hid & H)%bind_Some. destruct (h_task h) as [wr| | |] eqn:E; try done. injection H as <- <-.
    eapply step_call; [done|]. rewrite E. constructor.
  - intros (h & Hid & H)%bind_Some. destruct (h_task h) as [wr| | |] eqn:E; try done. injection H as <- <-.
    eapply step_call; [done|]. rewrite E. constructor.
  - intros (h & Hid & H)%bind_Some. destruct (h_task h) as [| |[out|o k]|] eqn:E; try done.
    destruct (sy_cleaning s) eqn:Hc; [done|]. destruct (run_op o draw (sy_shared s)) as [r sh] eqn:Er. injection H as <- <-.
    rewrite <- Hc. eapply step_op; [done|done|done|]. unfold run_op in Er. destruct (exec_op _ _ _ _) as [r' w] eqn:Ex.
    injection Er as <- <-. apply exec_op_step in Ex. by destruct (sy_shared s).
  - intros (h & Hid & H)%bind_Some. destruct (h_task h) as [| |[out|o k]|] eqn:E; try done. injection H as <- <-.
    by eapply step_return.
Qed.

Lemma sched_run_sound faults chs ls s ls' s' : sched_run chs ls s = Some (ls', s') ->
  exists ls2, ls' = ls ++ ls2 /\ forall s0 ls0, store_trace faults s0 ls0 s -> store_trace faults s0 (ls0 ++ ls2) s'.
Proof.
  revert ls s. induction chs as [|ch chs IH]; intros ls s; cbn.
  - intros [= <- <-]. exists []. split; [by rewrite app_nil_r|]. intros s0 ls0. by rewrite app_nil_r.
  - intros ([l s1] & Hs & H)%bind_Some. destruct (IH _ _ H) as (ls2 & -> & Htr). exists (l :: ls2).
    split; [by rewrite <- app_assoc|]. intros s0 ls0 H0. rewrite cons_middle, app_assoc. apply Htr.
    econstructor; [done|by eapply sched_step_sound].
Qed.

End schedule.

(** ** Two writers of one attempt *)

Definition race_attempt : AttemptIdentity := mkIdentity example_run 0 0 0 0 0 0 0.
Definition opened_store : sys := mkSys (mkShared ∅ ∅ false) None ∅.

Definition ops (id n : nat) : list choice := replicate n (SOp id id).

(** Both writers begin and write one record. *)
Definition race_written : list choice :=
  SBegin 0 race_attempt 2 2 :: SBegin 1 race_attempt 2 2 :: ops 0 3 ++ ops 1 6 ++ ops 0 3 ++
  [SReturn 0; SReturn 1; SWrite 0 "cat" (AInt 1); SWrite 1 "cat" (AInt 2)] ++ ops 1 3 ++ ops 0 4 ++ ops 1 1 ++
  [SReturn 0; SReturn 1].

(** Both publish, and both have seen that the attempt is not there. *)
Definition race_looked : list choice := [SPublish 0; SPublish 1] ++ ops 1 8 ++ ops 0 8.

(** Writer 0 has renamed its directory; writer 1 tries to, and gives up. *)
Definition race_lost : list choice := ops 1 4 ++ [SReturn 1] ++ ops 0 1 ++ [SReturn 0].

Definition race_start : option (list label * sys) := sched_run draws race_written [] opened_store.
Definition race : option (list label * sys * (label * sys) * (list label * sys)) :=
  '(ls0, s0) ← race_start;
  '(ls, s) ← sched_run draws race_looked ls0 s0;
  '(l, s1) ← sched_step draws (SOp 0 0) s;
  '(ls', s2) ← sched_run draws race_lost [] s1;
  Some (ls, s, (l, s1), (ls', s2)).

(** An open writer's handle, and the records it has accepted. *)
Definition open_writer (s : sys) (id : nat) : option (fileWriter * list (string * any)) :=
  h ← sy_handles s !! id;
  match h_task h with Writer wr => Some (wr, h_log h) | _ => None end.

Lemma open_writer_handle s id wr l : open_writer s id = Some (wr, l) ->
  exists h, sy_handles s !! id = Some h /\ h_task h = Writer wr /\ h_log h = l.
Proof.
  unfold open_writer. intros (h & Hid & H)%bind_Some. exists h. split; [done|]. by destruct (h_task h); simplify_eq.
Qed.

Lemma opened_fresh : fresh_store opened_store.
Proof. by split_and!. Qed.

Lemma run_trace chs ls s : sched_run draws chs [] opened_store = Some (ls, s) -> store_trace no_faults opened_store ls s.
Proof.
  intros (ls2 & -> & Htr)%(sched_run_sound draws no_faults). apply (Htr opened_store []). constructor.
Qed.

Definition race_start_ok : bool :=
  match race_start with
  | Some (_, s) =>
      match open_writer s 0 with
      | Some (wr, [(k, AInt 1)]) =>
          (k =? "cat")%string && negb (fw_closed wr) && (mo_NumReducePartitions (fw_output wr) =? 2) &&
          (default 0 (sh_active (sy_shared s) !! example_run) =? 2)
      | _ => false
      end
  | None => false
  end.

(** Both writers have written: the first one's bucket is there, and the run has
    two handles. *)
Lemma open_handles_witness : exists ls s h wr d, store_trace no_faults opened_store ls s /\
  sy_handles s !! 0%nat = Some h /\ h_task h = Writer wr /\ sh_root (sy_shared s) !! fw_private wr = Some d /\
  files_of 2 [("cat", AInt 1)] d /\ handles_of (sy_handles s) example_run = 2.
Proof.
  assert (Hok : race_start_ok = true) by (vm_compute; reflexivity). unfold race_start_ok in Hok.
  destruct race_start as [[ls s]|] eqn:Es; [|discriminate Hok]. apply run_trace in Es.
  destruct (open_writer s 0) as [[wr l]|] eqn:Ew; [|discriminate Hok].
  destruct l as [|[k [| | |[|[]|]| | | | | | |]] [|]]; try discriminate Hok.
  apply andb_prop in Hok as [Hok Hcount]. apply andb_prop in Hok as [Hok Hn]. apply andb_prop in Hok as [Hk Ho].
  apply String.eqb_eq in Hk as ->. apply negb_true_iff in Ho. apply Z.eqb_eq in Hn, Hcount.
  apply open_writer_handle in Ew as (h & Hid & Htask & Hlog).
  pose proof (open_handles no_faults _ _ _ opened_fresh Es) as (Hw & Hc & _).
  destruct (Hw 0%nat h wr Hid Htask Ho) as (d & Hd & Hf & _). rewrite Hlog in Hf. unfold targetOf in Hf. cbn [snd] in Hf.
  rewrite Hn in Hf. exists ls, s, h, wr, d.
  exact (conj Es (conj Hid (conj Htask (conj Hd (conj Hf (eq_trans (eq_sym (Hc example_run)) Hcount)))))).
Defined.

Definition race_ok : bool :=
  match race with
  | Some (_, _, (l, _), (ls', s2)) =>
      match l, open_writer s2 1 with
      | Renamed 0 path _, Some (wr, _) =>
          (path =? attemptPath race_attempt)%string && fw_closed wr &&
          match fw_err wr with Some e => errors_Is e "shuffle attempt output already exists" | None => false end &&
          forallb (fun l => match l with Cleaned _ => false | _ => true end) ls'
      | _, _ => false
      end
  | None => false
  end.

(** Both writers have found that the attempt is not there when the first renames
    its directory; the second is closed with [ErrOutputExists], and the
    attempt is the first one's. *)
Lemma published_once_witness : exists ls s d s1 ls' s2 h wr, store_trace no_faults opened_store ls s /\
  store_step no_faults s (Renamed 0 (attemptPath race_attempt) d) s1 /\ store_trace no_faults s1 ls' s2 /\
  sh_root (sy_shared s2) !! attemptPath race_attempt = Some d /\
  sy_handles s2 !! 1%nat = Some h /\ h_task h = Writer wr /\
  exists e, fw_err wr = Some e /\ errors_Is e "shuffle attempt output already exists" = true.
Proof.
  assert (Hok : race_ok = true) by (vm_compute; reflexivity). unfold race_ok, race, race_start in Hok.
  destruct (sched_run draws race_written [] opened_store) as [[ls0 s0]|] eqn:E0; [|discriminate Hok]. cbn [mbind option_bind] in Hok.
  destruct (sched_run draws race_looked ls0 s0) as [[ls s]|] eqn:E; [|discriminate Hok]. cbn [mbind option_bind] in Hok.
  destruct (sched_step draws (SOp 0 0) s) as [[l s1]|] eqn:E1; [|discriminate Hok]. cbn [mbind option_bind] in Hok.
  destruct (sched_run draws race_lost [] s1) as [[ls' s2]|] eqn:E2; [|discriminate Hok]. cbn [mbind option_bind] in Hok.
  destruct l as [[|id] path d|id o|run|]; try discriminate Hok.
  destruct (open_writer s2 1) as [[wr lg]|] eqn:Ew; [|discriminate Hok].
  apply andb_prop in Hok as [Hok Hls]. apply andb_prop in Hok as [Hok He]. apply andb_prop in Hok as [Hpath _].
  apply String.eqb_eq in Hpath as ->. destruct (fw_err wr) as [e|] eqn:Ee; [|discriminate He].
  apply open_writer_handle in Ew as (h & Hid & Htask & _). apply run_trace in E0.
  apply (sched_run_sound draws no_faults) in E as (ls2 & -> & Htr). apply Htr in E0.
  apply (sched_step_sound draws no_faults) in E1. apply (sched_run_sound draws no_faults) in E2 as (ls3 & -> & Htr').
  specialize (Htr' s1 [] (trace_nil no_faults s1)). cbn [app] in Htr', Hls.
  destruct (proj1 (published_once no_faults _ _ _ opened_fresh E0) _ _ _ _ E1) as (_ & _ & h0 & t & _ & _ & _ & Hkept).
  assert (Hclean : Cleaned (ai_RunID t.1.1) ∉ ls3).
  { intros Hin. apply list_elem_of_In in Hin. rewrite forallb_forall in Hls. specialize (Hls _ Hin). discriminate Hls. }
  exists (ls0 ++ ls2), s, d, s1, ls3, s2, h, wr.
  exact (conj E0 (conj E1 (conj Htr' (conj (proj1 (Hkept _ _ Htr' Hclean)) (conj Hid (conj Htask (ex_intro _ e (conj Ee He)))))))).
Defined.
