(* ===== verification/Protocol.v ===== *)
(** * Protocol: the messages between coordinator and workers

    Models [protocol/{validate,worker,task_report,job,error}.go]: the messages of
    the HTTP API and the [Validate] method of each, which both ends call.  A slice
    that may be nil is an [option].  A base URL is given as what [url.Parse]
    makes of it; the texts of errors are values of [error]. *)

From S2P Require Import Prelude Bytes Plan Stages Shuffle Reports Json.
#[local] Open Scope Z_scope.

(** ** Messages *)

Record parsedURL := mkURL {
  url_Scheme : string;
  url_Hostname : string;
  url_User : bool;
  url_Path : string;
  url_RawPath : string;
  url_RawQuery : string;
  url_ForceQuery : bool;
  url_Fragment : string;
  url_RawFragment : string }.

(** [rq_BaseURL]: absent, or the outcome of [url.Parse]. *)
Record RegisterWorkerRequest := mkRegisterRequest {
  rq_WorkerID : WorkerID;
  rq_TotalSlots : Z;
  rq_BaseURL : option (option parsedURL) }.

Record RegisterWorkerResponse := mkRegisterResponse {
  rp_WorkerID : WorkerID;
  rp_TotalSlots : Z }.

Record HeartbeatRequest := mkHeartbeat {
  hq_WorkerID : WorkerID;
  hq_FreeSlots : Z;
  hq_RunningAttemptIDs : option (list TaskAttemptID) }.

Record TaskAssignment := mkTaskAssignment {
  pa_ShuffleInputs : option InputSnapshot;
  pa_RunID : string;
  pa_JobID : JobID;
  pa_StageID : StageID;
  pa_WorkerID : WorkerID;
  pa_Attempt : TaskAttemptIdentity;
  pa_Task : Task }.

Record HeartbeatResponse := mkHeartbeatResponse { hp_Assignments : option (list TaskAssignment) }.

(** A record is the text of one JSON value. *)
Record TaskOutput := mkTaskOutput {
  po_ShuffleOutput : option MapOutput;
  po_Records : option (list string);
  po_Count : Z }.

Record TaskSuccessRequest := mkSuccessRequest {
  sq_JobID : JobID;
  sq_StageID : StageID;
  sq_Attempt : TaskAttemptIdentity;
  sq_PartitionID : PartitionID;
  sq_WorkerID : WorkerID;
  sq_Output : TaskOutput }.

Record TaskFailureRequest := mkFailureRequest {
  fq_Kind : FailureKind;
  fq_ShuffleInput : option InputReference;
  fq_JobID : JobID;
  fq_StageID : StageID;
  fq_Attempt : TaskAttemptIdentity;
  fq_PartitionID : PartitionID;
  fq_WorkerID : WorkerID;
  fq_Error : string }.

Record TaskReportResponse := mkReportResponse { rr_Acknowledged : bool }.

Record JobResultResponse := mkJobResult {
  jp_Action : ActionKind;
  jp_Records : option (list string);
  jp_Count : Z }.

Inductive ErrorCode :=
  | CodeInvalidRequest | CodeRequestTooLarge | CodeNotFound | CodeMethodNotAllowed | CodeConflict
  | CodeUnavailable | CodeJobFailed | CodeInternal | CodeOther (s : string).

Record ErrorResponse := mkErrorResponse { er_Code : ErrorCode; er_Message : string }.

#[export] Instance TaskAssignment_eq_dec : EqDecision TaskAssignment.
Proof. solve_decision. Defined.
#[export] Instance ErrorCode_eq_dec : EqDecision ErrorCode.
Proof. solve_decision. Defined.

(** The text of a code. *)
Definition code_name (c : ErrorCode) : string :=
  match c with
  | CodeInvalidRequest => "invalid_request"
  | CodeRequestTooLarge => "request_too_large"
  | CodeNotFound => "not_found"
  | CodeMethodNotAllowed => "method_not_allowed"
  | CodeConflict => "conflict"
  | CodeUnavailable => "unavailable"
  | CodeJobFailed => "job_failed"
  | CodeInternal => "internal_error"
  | CodeOther s => s
  end.

(** [Execution] adapts an assignment for the runner. *)
Definition Execution (a : TaskAssignment) : TaskExecution :=
  {| te_RunID := pa_RunID a; te_JobID := pa_JobID a; te_Task := pa_Task a; te_Attempt := pa_Attempt a;
     te_WorkerID := pa_WorkerID a; te_ShuffleInputs := pa_ShuffleInputs a |}.

(** ** Registration and heartbeats *)

Definition validateWorker (id : WorkerID) : result unit :=
  fail_if (blankString id) (Errorf "worker_id must not be empty" []);; Ok tt.

Definition validateBaseURL (u : option parsedURL) : result unit :=
  let bad := Errorf "base_url must be an absolute HTTP(S) URL without credentials, query, or fragment" [] in
  match u with
  | None => Err bad
  | Some u =>
      fail_if ((negb (bool_decide (url_Scheme u = "http")) && negb (bool_decide (url_Scheme u = "https"))) ||
               bool_decide (url_Hostname u = "") || url_User u || negb (bool_decide (url_RawQuery u = "")) ||
               url_ForceQuery u || negb (bool_decide (url_Fragment u = ""))) bad;;
      Ok tt
  end.

Definition validateRegisterRequest (r : RegisterWorkerRequest) : result unit :=
  _ ← validateWorker (rq_WorkerID r);
  fail_if (rq_TotalSlots r <=? 0) (Errorf "total_slots must be positive" []);;
  match rq_BaseURL r with None => Ok tt | Some u => validateBaseURL u end.

Definition validateRegisterResponse (r : RegisterWorkerResponse) : result unit :=
  validateRegisterRequest (mkRegisterRequest (rp_WorkerID r) (rp_TotalSlots r) None).

Fixpoint checkDistinct (seen : gset TaskAttemptID) (ids : list TaskAttemptID) : result unit :=
  match ids with
  | [] => Ok tt
  | id :: ids =>
      fail_if (bool_decide (id ∈ seen)) (Errorf "duplicate running attempt %d" [FInt (Z.of_N id)]);;
      checkDistinct ({[id]} ∪ seen) ids
  end.

Definition validateHeartbeat (r : HeartbeatRequest) : result unit :=
  _ ← validateWorker (hq_WorkerID r);
  fail_if (hq_FreeSlots r <? 0) (Errorf "free_slots must not be negative" []);;
  match hq_RunningAttemptIDs r with
  | None => Err (Errorf "running_attempt_ids must be an array" [])
  | Some ids => checkDistinct ∅ ids
  end.

Definition ValidateCapacity (r : HeartbeatRequest) (totalSlots : Z) : result unit :=
  _ ← validateHeartbeat r;
  fail_if ((totalSlots <=? 0) || (totalSlots <? hq_FreeSlots r) ||
           (totalSlots - hq_FreeSlots r <? Z.of_nat (length (default [] (hq_RunningAttemptIDs r)))))
    (Errorf "heartbeat exceeds registered capacity %d" [FInt totalSlots]);;
  Ok tt.

(** ** Assignments *)

Definition validateShuffleWrite (w : ShuffleWriteSpec) : result unit :=
  fail_if (negb (bool_decide (pt_Kind (sw_Partitioner w) = PartitionerHash)) ||
           (pt_NumPartitions (sw_Partitioner w) <=? 0) || blankString (sw_AggregatorID w))
    (Errorf "shuffle write requires hash partitioning and an aggregator" []);;
  Ok tt.

(** The switch on the kind of the stage. *)
Definition validateStageKind (a : TaskAssignment) : result unit :=
  let task := pa_Task a in
  match t_StageKind task with
  | StageShuffleMap =>
      match t_FinalAction task, t_ShuffleWrite task, pa_ShuffleInputs a with
      | None, Some w, None => validateShuffleWrite w
      | _, _, _ => Err (Errorf "map assignment requires shuffle write and no action or shuffle inputs" [])
      end
  | StageResult =>
      let bad := Errorf "result assignment requires Count or Collect and no shuffle write" [] in
      match t_ShuffleWrite task, t_FinalAction task with
      | None, Some f =>
          match act_Kind f with
          | ActionCount | ActionCollect => Ok tt
          | ActionOther _ => Err bad
          end
      | _, _ => Err bad
      end
  | StageOther s => Err (Errorf "unsupported stage kind %q" [FStr s])
  end.

(** The checks of a pipeline that starts with a shuffle read. *)
Definition validateShuffleRead (a : TaskAssignment) (op : StageOperation) (rest : list StageOperation)
    : result unit :=
  let task := pa_Task a in
  match bool_decide (t_StageKind task = StageShuffleMap), so_RDD op, so_ShuffleRead op, pa_ShuffleInputs a with
  | false, None, Some read, Some input =>
      _ ← validateSnapshot input;
      fail_if (negb (bool_decide (is_RunID input = pa_RunID a)) || negb (is_JobID input =? pa_JobID a)%N ||
               negb (is_ShuffleID input =? sr_ShuffleID read)%N ||
               negb (bool_decide (pt_Kind (sr_Partitioner read) = PartitionerHash)) ||
               negb (pt_NumPartitions (sr_Partitioner read) =? is_NumReducePartitions input) ||
               negb (t_NumPartitions task =? is_NumReducePartitions input))
        (Errorf "shuffle inputs do not match assignment" []);;
      match rest with
      | {| so_RDD := Some rdd |} :: _ =>
          fail_if (negb (bool_decide (op_Kind (ro_Operator rdd) = OpReduceByKey)))
            (Errorf "shuffle read requires ReduceByKey" []);; Ok tt
      | _ => Err (Errorf "shuffle read requires ReduceByKey" [])
      end
  | _, _, _, _ => Err (Errorf "invalid shuffle read assignment" [])
  end.

(** The operator of operation [i], after the checks that it is one. *)
Definition validatePipelineOperator (readsShuffle : bool) (i : nat) (op : OperatorSpec) : result unit :=
  if (i =? 0)%nat then
    fail_if (negb (bool_decide (op_Kind op = OpSource)) || blankString (op_SourcePath op) ||
             negb (bool_decide (op_FunctionID op = "")))
      (Errorf "pipeline must start with a source path" []);;
    Ok tt
  else
    match op_Kind op with
    | OpMap | OpFilter | OpMapToPair | OpMapValues | OpReduceByKey =>
        fail_if (negb (Bool.eqb (bool_decide (op_Kind op = OpReduceByKey)) (readsShuffle && (i =? 1)%nat)))
          (Errorf "ReduceByKey must immediately follow shuffle read" []);;
        fail_if (blankString (op_FunctionID op) || negb (bool_decide (op_SourcePath op = "")))
          (Errorf "operation %d requires a function_id and no source_path" [FInt (Z.of_nat i)]);;
        Ok tt
    | _ => Err (Errorf "unsupported narrow operator %q" [])
    end.

(** The loop over the operations, from index [i] on; [seen] are their RDDs. *)
Fixpoint validateOperations (readsShuffle : bool) (i : nat) (seen : gset RDDID) (ops : list StageOperation)
    : result unit :=
  match ops with
  | [] => Ok tt
  | op :: ops =>
      if (i =? 0)%nat && readsShuffle then validateOperations readsShuffle (S i) seen ops
      else
        match so_Kind op, so_RDD op, so_ShuffleRead op with
        | StageOperationRDD, Some rdd, None =>
            fail_if (bool_decide (ro_RDDID rdd ∈ seen))
              (Errorf "duplicate RDD ID %d in pipeline" [FInt (Z.of_N (ro_RDDID rdd))]);;
            _ ← validatePipelineOperator readsShuffle i (ro_Operator rdd);
            validateOperations readsShuffle (S i) ({[ro_RDDID rdd]} ∪ seen) ops
        | _, _, _ => Err (Errorf "operation %d must be an RDD operation" [FInt (Z.of_nat i)])
        end
  end.

(** A result task ends with the RDD its action names. *)
Definition validateTarget (task : Task) : result unit :=
  match t_FinalAction task, last (t_Operations task) with
  | Some f, Some {| so_RDD := Some rdd |} =>
      fail_if (negb (act_TargetRDD f =? ro_RDDID rdd)%N)
        (Errorf "final action target does not match pipeline output RDD" []);; Ok tt
  | _, _ => Err panic_nil
  end.

Definition validateAssignment (a : TaskAssignment) : result unit :=
  let task := pa_Task a in
  _ ← validateExecution (Execution a);
  fail_if (negb (ta_TaskID (pa_Attempt a) =? t_ID task)%N || negb (pa_StageID a =? t_StageID task)%N)
    (Errorf "assignment and task identities do not match" []);;
  fail_if ((t_NumPartitions task <=? 0) || (t_PartitionID task <? 0) ||
           (t_NumPartitions task <=? t_PartitionID task))
    (Errorf "partition_id must be within num_partitions" []);;
  _ ← validateStageKind a;
  match t_Operations task with
  | [] => Err (Errorf "assignment requires a pipeline" [])
  | op :: rest =>
      let readsShuffle := bool_decide (so_Kind op = StageOperationShuffleRead) in
      _ ← (if readsShuffle then validateShuffleRead a op rest
           else match pa_ShuffleInputs a with
                | Some _ => Err (Errorf "narrow pipeline must not contain shuffle inputs" [])
                | None => Ok tt
                end);
      _ ← validateOperations readsShuffle 0 ∅ (op :: rest);
      if bool_decide (t_StageKind task = StageShuffleMap) then Ok tt else validateTarget task
  end.

(** A logical task, as the worker tells them apart. *)
Definition logicalKey (a : TaskAssignment) : JobID * StageID * StageAttemptID * TaskID :=
  (pa_JobID a, pa_StageID a, ta_StageAttemptID (pa_Attempt a), ta_TaskID (pa_Attempt a)).

Fixpoint validateAssignments_from (first : WorkerID) (attempts : gset TaskAttemptID)
    (tasks : gset (JobID * StageID * StageAttemptID * TaskID)) (i : nat) (l : list TaskAssignment) : result unit :=
  match l with
  | [] => Ok tt
  | a :: l =>
      _ ← map_err (fun err => Errorf "assignment %d: %w" [FInt (Z.of_nat i); FWrap err]) (validateAssignment a);
      fail_if (negb (bool_decide (pa_WorkerID a = first))) (Errorf "assignments target different workers" []);;
      fail_if (bool_decide (ta_ID (pa_Attempt a) ∈ attempts) || bool_decide (logicalKey a ∈ tasks))
        (Errorf "duplicate assignment for task %d attempt %d"
           [FInt (Z.of_N (ta_TaskID (pa_Attempt a))); FInt (Z.of_N (ta_ID (pa_Attempt a)))]);;
      validateAssignments_from first ({[ta_ID (pa_Attempt a)]} ∪ attempts) ({[logicalKey a]} ∪ tasks) (S i) l
  end.

Definition validateHeartbeatResponse (r : HeartbeatResponse) : result unit :=
  match hp_Assignments r with
  | None => Err (Errorf "assignments must be an array" [])
  | Some [] => Ok tt
  | Some (a :: l) => validateAssignments_from (pa_WorkerID a) ∅ ∅ 0 (a :: l)
  end.

(** ** Outputs and reports *)

(** [json.Valid]. *)
Definition json_Valid (data : string) : bool :=
  let bs := bytes_of data in
  match parseValue (S (2 * length bs)) 0 bs with
  | Ok (_, rest) => bool_decide (skipSpace rest = [])
  | Err _ => false
  end.

Definition validateTaskOutput (o : TaskOutput) : result unit :=
  match po_ShuffleOutput o with
  | Some m =>
      fail_if (bool_decide (is_Some (po_Records o)) || negb (po_Count o =? 0))
        (Errorf "shuffle output must not contain action results" []);;
      validateMapOutput m
  | None =>
      fail_if (po_Count o <? 0) (Errorf "count must not be negative" []);;
      fail_if (bool_decide (is_Some (po_Records o)) && negb (po_Count o =? 0))
        (Errorf "output cannot contain both records and a nonzero count" []);;
      check_all (fun i record =>
        fail_if (negb (json_Valid record))
          (Errorf "record %d must contain one JSON value" [FInt (Z.of_nat i)]);; Ok tt)
        0 (default [] (po_Records o))
  end.

Definition validateReportIDs (worker : WorkerID) (partition : PartitionID) : result unit :=
  _ ← validateWorker worker;
  fail_if (partition <? 0) (Errorf "partition_id must not be negative" []);; Ok tt.

(** The identity of a map output against the report that carries it. *)
Definition matchesReport (a : AttemptIdentity) (r : TaskSuccessRequest) : bool :=
  (ai_JobID a =? sq_JobID r)%N && (ai_StageID a =? sq_StageID r)%N &&
  (ai_StageAttemptID a =? ta_StageAttemptID (sq_Attempt r))%N && (ai_TaskID a =? ta_TaskID (sq_Attempt r))%N &&
  (ai_TaskAttemptID a =? ta_ID (sq_Attempt r))%N && (ai_MapPartitionID a =? sq_PartitionID r).

Definition validateSuccessRequest (r : TaskSuccessRequest) : result unit :=
  _ ← validateReportIDs (sq_WorkerID r) (sq_PartitionID r);
  _ ← validateTaskOutput (sq_Output r);
  match po_ShuffleOutput (sq_Output r) with
  | Some m =>
      fail_if (negb (matchesReport (mo_Attempt m) r)) (Errorf "map output identity differs from report" []);;
      Ok tt
  | None => Ok tt
  end.

Definition validateFailureRequest (r : TaskFailureRequest) : result unit :=
  _ ← ValidateFailure (fq_Kind r) (fq_ShuffleInput r);
  _ ← match fq_ShuffleInput r with
      | Some i =>
          fail_if (negb (ai_JobID (ir_Attempt i) =? fq_JobID r)%N || negb (ir_PartitionID i =? fq_PartitionID r))
            (Errorf "shuffle failure input differs from report job or partition" []);; Ok tt
      | None => Ok tt
      end;
  _ ← validateReportIDs (fq_WorkerID r) (fq_PartitionID r);
  fail_if (blankString (fq_Error r)) (Errorf "error message must not be empty" []);; Ok tt.

Definition validateReportResponse (r : TaskReportResponse) : result unit :=
  fail_if (negb (rr_Acknowledged r)) (Errorf "successful report response must acknowledge handling" []);; Ok tt.

Definition validateJobResult (r : JobResultResponse) : result unit :=
  _ ← validateTaskOutput (mkTaskOutput None (jp_Records r) (jp_Count r));
  match jp_Action r with
  | ActionCount =>
      fail_if (bool_decide (is_Some (jp_Records r))) (Errorf "Count result must use null records" []);; Ok tt
  | ActionCollect =>
      fail_if (negb (bool_decide (is_Some (jp_Records r))) || negb (jp_Count r =? 0))
        (Errorf "Collect result requires a records array and zero count" []);; Ok tt
  | ActionOther s => Err (Errorf "unsupported result action %q" [FStr s])
  end.

Definition validateErrorResponse (r : ErrorResponse) : result unit :=
  fail_if (blankString (er_Message r)) (Errorf "error response message must not be empty" []);;
  match er_Code r with
  | CodeOther s => Err (Errorf "unknown error code %q" [FStr s])
  | _ => Ok tt
  end.
