(* ===== verification/ProtocolProofs.v ===== *)
(** * ProtocolProofs: which messages are valid

    The meaning of the checks of [Protocol]: what an assignment that a worker
    accepts looks like, and when a response is a batch of them. *)

From S2P Require Import Prelude Bytes Plan Stages Shuffle Reports Json JsonProofs Protocol.
#[local] Open Scope Z_scope.

(** ** Pipelines *)

Definition rdd_operation (rdd : RDDOperationSpec) : StageOperation := mkStageOperation StageOperationRDD (Some rdd) None.
Definition read_operation (read : ShuffleReadSpec) : StageOperation :=
  mkStageOperation StageOperationShuffleRead None (Some read).

Definition nonblank (s : string) : Prop := blankString s = false.

Definition named (op : OperatorSpec) : Prop := nonblank (op_FunctionID op) /\ op_SourcePath op = "".

Definition narrow_kind (k : OperatorKind) : Prop :=
  k = OpMap \/ k = OpFilter \/ k = OpMapToPair \/ k = OpMapValues.

(** The operator of the first operation, and those of the others. *)
Definition first_ok (reads : bool) (op : OperatorSpec) : Prop :=
  if reads then op_Kind op = OpReduceByKey /\ named op
  else op_Kind op = OpSource /\ nonblank (op_SourcePath op) /\ op_FunctionID op = "".
Definition later_ok (rdd : RDDOperationSpec) : Prop :=
  narrow_kind (op_Kind (ro_Operator rdd)) /\ named (ro_Operator rdd).

Definition rdds_ok (reads : bool) (rdds : list RDDOperationSpec) : Prop :=
  NoDup (ro_RDDID <$> rdds) /\
  match rdds with
  | [] => False
  | rdd :: rest => first_ok reads (ro_Operator rdd) /\ Forall later_ok rest
  end.

(** A pipeline is a shuffle read or none, then RDD operations. *)
Definition pipeline (read : option ShuffleReadSpec) (rdds : list RDDOperationSpec) : list StageOperation :=
  option_list (read_operation <$> read) ++ (rdd_operation <$> rdds).

Definition is_read (read : option ShuffleReadSpec) : bool := bool_decide (is_Some read).

(** The input snapshot fits the shuffle read. *)
Definition inputs_fit (a : TaskAssignment) (read : option ShuffleReadSpec) : Prop :=
  match read, pa_ShuffleInputs a with
  | None, None => True
  | Some read, Some input =>
      snapshot_ok input /\ is_RunID input = pa_RunID a /\ is_JobID input = pa_JobID a /\
      is_ShuffleID input = sr_ShuffleID read /\ pt_Kind (sr_Partitioner read) = PartitionerHash /\
      pt_NumPartitions (sr_Partitioner read) = is_NumReducePartitions input /\
      t_NumPartitions (pa_Task a) = is_NumReducePartitions input
  | _, _ => False
  end.

Definition write_ok (w : ShuffleWriteSpec) : Prop :=
  pt_Kind (sw_Partitioner w) = PartitionerHash /\ 0 < pt_NumPartitions (sw_Partitioner w) /\ nonblank (sw_AggregatorID w).

(** What the kind of the stage asks of the rest. *)
Definition kind_ok (a : TaskAssignment) (read : option ShuffleReadSpec) (rdds : list RDDOperationSpec) : Prop :=
  let task := pa_Task a in
  match t_StageKind task with
  | StageShuffleMap =>
      read = None /\ t_FinalAction task = None /\ exists w, t_ShuffleWrite task = Some w /\ write_ok w
  | StageResult =>
      t_ShuffleWrite task = None /\ exists f, t_FinalAction task = Some f /\
      (act_Kind f = ActionCount \/ act_Kind f = ActionCollect) /\
      Some (act_TargetRDD f) = ro_RDDID <$> last rdds
  | StageOther _ => False
  end.

Definition execution_ok (e : TaskExecution) : Prop :=
  lowerHex (te_RunID e) 32 = true /\ nonblank (te_WorkerID e) /\ ta_TaskID (te_Attempt e) = t_ID (te_Task e).

(** The assignments a worker accepts. *)
Record assignment_ok (a : TaskAssignment) : Prop := {
  ao_execution : execution_ok (Execution a);
  ao_stage : pa_StageID a = t_StageID (pa_Task a);
  ao_partition : 0 <= t_PartitionID (pa_Task a) < t_NumPartitions (pa_Task a);
  ao_pipeline : exists read rdds, t_Operations (pa_Task a) = pipeline read rdds /\
    rdds_ok (is_read read) rdds /\ inputs_fit a read /\ kind_ok a read rdds }.

(** ** Executions *)

Lemma is_hex_lower b : is_upper b = false -> is_hex b = is_lower_hex b.
Proof.
  unfold is_hex, is_upper, is_lower_hex, in_range. intros H.
  destruct (N.leb_spec 65 b), (N.leb_spec b 70), (N.leb_spec b 90); cbn in *; try done; try lia; by rewrite orb_false_r.
Qed.

Lemma is_lower_hex_not_upper b : is_lower_hex b = true -> is_upper b = false.
Proof.
  unfold is_upper, is_lower_hex, in_range.
  destruct (N.leb_spec 48 b), (N.leb_spec b 57), (N.leb_spec 97 b), (N.leb_spec b 102), (N.leb_spec 65 b), (N.leb_spec b 90);
    cbn; try done; lia.
Qed.

Lemma run_id_ok s : runIDShape s = true /\ decodeHex s = Ok tt <-> lowerHex s 32 = true.
Proof.
  unfold runIDShape, decodeHex, lowerHex. rewrite !andb_true_iff, negb_true_iff, forallb_forall.
  destruct (List.find _ _) as [b|] eqn:E.
  - apply find_some in E as [Hb Hn]. apply negb_true_iff in Hn. split; [by intros [_ ?]|]. intros [_ H].
    specialize (H b Hb). unfold is_hex in Hn. by rewrite H in Hn.
  - split.
    + intros [[Hl Hu] _]. split; [done|]. intros b Hb. pose proof (find_none _ _ E b Hb) as Hx. cbn in Hx.
      apply negb_false_iff in Hx. rewrite is_hex_lower in Hx; [done|].
      destruct (is_upper b) eqn:Eu; [|done]. rewrite (proj2 (existsb_exists _ _)) in Hu; [done|eauto].
    + intros [Hl H]. split_and!; try done. destruct (existsb _ _) eqn:Eu; [|done].
      apply existsb_exists in Eu as (b & Hb & Hu). by rewrite (is_lower_hex_not_upper b (H b Hb)) in Hu.
Qed.

Lemma validateExecution_spec e : validateExecution e = Ok tt <-> execution_ok e.
Proof.
  unfold validateExecution, execution_ok, nonblank. rewrite <- run_id_ok, fail_if_Ok, bind_unit_Ok, !fail_if_Ok,
    !negb_false_iff, N.eqb_eq. naive_solver.
Qed.

(** ** Pipelines are read as written *)

Lemma rdd_operation_spec (o : StageOperation) :
  match so_Kind o, so_RDD o, so_ShuffleRead o with
  | StageOperationRDD, Some rdd, None => o = rdd_operation rdd
  | _, _, _ => forall rdd, o <> rdd_operation rdd
  end.
Proof. by destruct o as [[] [] []]. Qed.

Lemma named_spec op : blankString (op_FunctionID op) || negb (bool_decide (op_SourcePath op = "")) = false <-> named op.
Proof. unfold named, nonblank. by rewrite orb_false_iff, negb_false_iff, bool_decide_eq_true. Qed.

Lemma first_operator_spec op : validatePipelineOperator false 0 op = Ok tt <-> first_ok false op.
Proof.
  unfold validatePipelineOperator, first_ok, nonblank. cbn [Nat.eqb].
  rewrite fail_if_Ok, !orb_false_iff, !negb_false_iff, !bool_decide_eq_true. naive_solver.
Qed.

Lemma reduce_operator_spec op : validatePipelineOperator true 1 op = Ok tt <-> first_ok true op.
Proof.
  unfold validatePipelineOperator, first_ok. cbn [Nat.eqb].
  destruct (op_Kind op) eqn:E; cbn; rewrite ?fail_if_Ok, ?named_spec; naive_solver.
Qed.

Lemma later_operator_spec reads i op : (0 < i)%nat -> reads && (i =? 1)%nat = false ->
  validatePipelineOperator reads i op = Ok tt <-> narrow_kind (op_Kind op) /\ named op.
Proof.
  intros Hi Hr. unfold validatePipelineOperator, narrow_kind. destruct i as [|i]; [lia|]. cbn [Nat.eqb] in *. rewrite Hr.
  destruct (op_Kind op) eqn:E; cbn; rewrite ?fail_if_Ok, ?named_spec; naive_solver.
Qed.

(** One step of the loop. *)
Lemma validateOperations_cons reads i seen o ops : (i =? 0)%nat && reads = false ->
  validateOperations reads i seen (o :: ops) = Ok tt <->
  exists rdd, o = rdd_operation rdd /\ ro_RDDID rdd ∉ seen /\
    validatePipelineOperator reads i (ro_Operator rdd) = Ok tt /\
    validateOperations reads (S i) ({[ro_RDDID rdd]} ∪ seen) ops = Ok tt.
Proof.
  intros Hi. cbn [validateOperations]. rewrite Hi. pose proof (rdd_operation_spec o) as Ho.
  destruct (so_Kind o), (so_RDD o) as [rdd|], (so_ShuffleRead o) as [r|];
    try (split; [done|]; intros (rdd' & E & _); by destruct (Ho rdd')).
  rewrite fail_if_Ok, bind_unit_Ok, bool_decide_eq_false. split; [naive_solver|].
  intros (rdd' & E & H). rewrite Ho in E. injection E as ->. naive_solver.
Qed.

Lemma validateOperations_later reads ops : forall i seen, (0 < i)%nat -> reads && (i =? 1)%nat = false ->
  validateOperations reads i seen ops = Ok tt <->
  exists rdds, ops = rdd_operation <$> rdds /\ NoDup (ro_RDDID <$> rdds) /\
    (forall id, id ∈ ro_RDDID <$> rdds -> id ∉ seen) /\ Forall later_ok rdds.
Proof.
  induction ops as [|o ops IH]; intros i seen Hi Hr.
  { split; [|done]. intros _. exists []. split_and!; try done; [constructor|set_solver]. }
  rewrite validateOperations_cons by (destruct i; [lia|done]). split.
  - intros (rdd & -> & Hn & Hop%later_operator_spec & Hrest); [|done..].
    apply IH in Hrest as (rdds & -> & Hd & Hs & Hf); [|lia|destruct reads, i as [|[]]; try done; lia].
    exists (rdd :: rdds). split; [done|]. rewrite fmap_cons, NoDup_cons, Forall_cons. split_and!; try done.
    + intros Hin. specialize (Hs _ Hin). set_solver.
    + intros id [->|Hin]%elem_of_cons; [done|]. specialize (Hs _ Hin). set_solver.
  - intros ([|rdd rdds] & E & Hd & Hs & Hf); [done|]. injection E as -> ->.
    rewrite fmap_cons, NoDup_cons in Hd. destruct Hd as [Hni Hd]. apply Forall_cons in Hf as [Hop Hf].
    exists rdd. split; [done|]. split; [apply Hs; rewrite fmap_cons; by left|].
    split; [by apply later_operator_spec|]. apply IH; [lia|destruct reads, i as [|[]]; try done; lia|].
    exists rdds. split_and!; try done. intros id Hin. specialize (Hs id (list_elem_of_further _ _ _ Hin)). set_solver.
Qed.

Lemma validateOperations_head reads i o ops : (i =? 0)%nat = negb reads -> (i =? 1)%nat = reads ->
  validateOperations reads i ∅ (o :: ops) = Ok tt <->
  exists rdds, o :: ops = rdd_operation <$> rdds /\ rdds_ok reads rdds.
Proof.
  intros H0 H1. rewrite validateOperations_cons by (rewrite H0; by destruct reads).
  assert (Hop : forall op, validatePipelineOperator reads i op = Ok tt <-> first_ok reads op).
  { intros op. destruct reads, i as [|[|i]]; try done; [apply reduce_operator_spec|apply first_operator_spec]. }
  setoid_rewrite Hop. setoid_rewrite validateOperations_later; [|lia|destruct reads, i as [|[|i]]; done]. unfold rdds_ok. split.
  - intros (rdd & -> & _ & Hf & rdds & -> & Hd & Hs & Hl). exists (rdd :: rdds).
    split; [done|]. rewrite fmap_cons, NoDup_cons. split_and!; try done. intros Hin. specialize (Hs _ Hin). set_solver.
  - intros ([|rdd rdds] & E & Hd & H); [done|]. injection E as -> ->. rewrite fmap_cons, NoDup_cons in Hd.
    exists rdd. split_and!; [done|set_solver|apply H|]. exists rdds. split_and!; [done|apply Hd| |apply H].
    intros id Hin. set_solver.
Qed.

(** ** Assignments *)

Definition stage_kind_ok (a : TaskAssignment) : Prop :=
  let task := pa_Task a in
  match t_StageKind task with
  | StageShuffleMap =>
      t_FinalAction task = None /\ pa_ShuffleInputs a = None /\ exists w, t_ShuffleWrite task = Some w /\ write_ok w
  | StageResult =>
      t_ShuffleWrite task = None /\ exists f, t_FinalAction task = Some f /\
      (act_Kind f = ActionCount \/ act_Kind f = ActionCollect)
  | StageOther _ => False
  end.

Lemma validateStageKind_spec a : validateStageKind a = Ok tt <-> stage_kind_ok a.
Proof.
  unfold validateStageKind, stage_kind_ok, validateShuffleWrite, write_ok, nonblank.
  destruct (t_StageKind (pa_Task a)); [| |done].
  - destruct (t_FinalAction _), (t_ShuffleWrite _) as [w|], (pa_ShuffleInputs a); try naive_solver.
    rewrite fail_if_Ok, !orb_false_iff, negb_false_iff, bool_decide_eq_true, Z.leb_gt. naive_solver.
  - destruct (t_ShuffleWrite _) as [w|], (t_FinalAction _) as [f|]; try (split; [done|]; intros (? & ? & ? & _); done).
    assert (Hk : (act_Kind f = ActionCount \/ act_Kind f = ActionCollect) <->
      (exists f', Some f = Some f' /\ (act_Kind f' = ActionCount \/ act_Kind f' = ActionCollect))).
    { split; [by exists f|]. by intros (f' & [= <-] & ?). }
    rewrite <- Hk. destruct (act_Kind f); (split; [|intros (_ & [|])]); try done; eauto.
Qed.

(** The first RDD operation of [rest] reduces. *)
Definition starts_reduce (rest : list StageOperation) : Prop :=
  exists o rest' rdd, rest = o :: rest' /\ so_RDD o = Some rdd /\ op_Kind (ro_Operator rdd) = OpReduceByKey.

Lemma reduce_check rest :
  match rest with
  | {| so_RDD := Some rdd |} :: _ =>
      fail_if (negb (bool_decide (op_Kind (ro_Operator rdd) = OpReduceByKey)))
        (Errorf "shuffle read requires ReduceByKey" []);; Ok tt
  | _ => Err (Errorf "shuffle read requires ReduceByKey" [])
  end = Ok tt <-> starts_reduce rest.
Proof.
  unfold starts_reduce. destruct rest as [|[k [rdd|] r] rest]; try naive_solver.
  rewrite fail_if_Ok, negb_false_iff, bool_decide_eq_true. naive_solver.
Qed.

Lemma validateShuffleRead_spec a op rest : so_Kind op = StageOperationShuffleRead ->
  validateShuffleRead a op rest = Ok tt <->
  t_StageKind (pa_Task a) <> StageShuffleMap /\ starts_reduce rest /\
  exists read, op = read_operation read /\ inputs_fit a (Some read).
Proof.
  intros Hk. unfold validateShuffleRead, inputs_fit.
  destruct (bool_decide (t_StageKind _ = _)) eqn:Em.
  { apply bool_decide_eq_true in Em. split; [done|by intros []]. }
  apply bool_decide_eq_false in Em. destruct op as [k [rdd|] [read|]]; cbn in Hk |- *; subst k; try naive_solver.
  destruct (pa_ShuffleInputs a) as [input|]; [|naive_solver].
  rewrite bind_unit_Ok, fail_if_Ok, reduce_check, validateSnapshot_spec, !orb_false_iff, !negb_false_iff, !bool_decide_eq_true,
    !N.eqb_eq, !Z.eqb_eq. split.
  - intros (Hs & (((((H1 & H2) & H3) & H4) & H5) & H6) & Hr). split_and!; [done|done|]. by exists read.
  - intros (_ & Hr & read' & [= <-] & Hs & H1 & H2 & H3 & H4 & H5 & H6). by split_and!.
Qed.

Lemma validateTarget_spec task read rdds :
  t_Operations task = pipeline read rdds -> rdds <> [] ->
  validateTarget task = Ok tt <->
  exists f, t_FinalAction task = Some f /\ Some (act_TargetRDD f) = ro_RDDID <$> last rdds.
Proof.
  intros Hops Hne. unfold validateTarget, pipeline in *. rewrite Hops, last_app.
  destruct (exists_last Hne) as (l & rdd & ->).
  rewrite fmap_app, !last_app. cbn [fmap list_fmap last fmap option_fmap option_map rdd_operation].
  destruct (t_FinalAction task) as [f|]; [|split; [done|by intros (? & ? & _)]].
  rewrite fail_if_Ok, negb_false_iff, N.eqb_eq. split.
  - intros [E _]. exists f. by rewrite E.
  - by intros (f' & [= <-] & [= E]).
Qed.

(** The checks of the operations, one after the other. *)
Definition pipeline_checks (a : TaskAssignment) : result unit :=
  match t_Operations (pa_Task a) with
  | [] => Err (Errorf "assignment requires a pipeline" [])
  | op :: rest =>
      let readsShuffle := bool_decide (so_Kind op = StageOperationShuffleRead) in
      _ ← (if readsShuffle then validateShuffleRead a op rest
           else match pa_ShuffleInputs a with
                | Some _ => Err (Errorf "narrow pipeline must not contain shuffle inputs" [])
                | None => Ok tt
                end);
      validateOperations readsShuffle 0 ∅ (op :: rest)
  end.

Definition target_check (a : TaskAssignment) : result unit :=
  if bool_decide (t_StageKind (pa_Task a) = StageShuffleMap) then Ok tt else validateTarget (pa_Task a).

Lemma validatePipeline_spec a : pipeline_checks a = Ok tt <->
  exists read rdds, t_Operations (pa_Task a) = pipeline read rdds /\ rdds_ok (is_read read) rdds /\
    inputs_fit a read /\ (read <> None -> t_StageKind (pa_Task a) <> StageShuffleMap).
Proof.
  unfold pipeline_checks. destruct (t_Operations (pa_Task a)) as [|op rest].
  { split; [done|]. intros ([read|] & [|rdd rdds] & E & [_ Hr] & _); done. }
  cbn [pipeline]. destruct (bool_decide (so_Kind op = _)) eqn:Ek.
  - apply bool_decide_eq_true in Ek. rewrite bind_unit_Ok, validateShuffleRead_spec by done.
    cbn [validateOperations Nat.eqb andb]. split.
    + intros ((Hm & Hs & read & -> & Hfit) & Hops). destruct rest as [|o rest]; [by destruct Hs as (? & ? & ? & ? & _)|].
      apply validateOperations_head in Hops as (rdds & E & Hr); [|done..]. exists (Some read), rdds.
      unfold pipeline. cbn. rewrite <- E. done.
    + intros ([read|] & rdds & E & Hr & Hfit & Hm); unfold pipeline in E; cbn in E;
        [|by destruct rdds as [|rdd rdds]; [|injection E as -> _]].
      injection E as -> ->. destruct rdds as [|rdd rdds]; [by destruct Hr|]. split.
      * split; [by apply Hm|]. split; [|by exists read]. exists (rdd_operation rdd), (rdd_operation <$> rdds), rdd.
        split_and!; [done|done|]. apply Hr.
      * cbn [fmap list_fmap]. apply validateOperations_head; [done..|]. by exists (rdd :: rdds).
  - apply bool_decide_eq_false in Ek. rewrite bind_unit_Ok, validateOperations_head by done. split.
    + intros (Hi & rdds & E & Hr). exists None, rdds. unfold pipeline, inputs_fit. cbn. rewrite <- E.
      destruct (pa_ShuffleInputs a); done.
    + intros ([read|] & rdds & E & Hr & Hfit & Hm); unfold pipeline in E; cbn in E; [by injection E as -> _|].
      split; [by unfold inputs_fit in Hfit; destruct (pa_ShuffleInputs a)|]. by exists rdds.
Qed.

Lemma pipeline_not_empty reads rdds : rdds_ok reads rdds -> rdds <> [].
Proof. intros [_ H] ->. done. Qed.

Lemma kind_ok_split a read rdds :
  t_Operations (pa_Task a) = pipeline read rdds -> rdds_ok (is_read read) rdds -> inputs_fit a read ->
  kind_ok a read rdds <->
  stage_kind_ok a /\ (read <> None -> t_StageKind (pa_Task a) <> StageShuffleMap) /\
  target_check a = Ok tt.
Proof.
  intros Hops Hr Hfit. unfold kind_ok, stage_kind_ok, inputs_fit, target_check in *.
  destruct (t_StageKind (pa_Task a)); [| |split; [done|by intros []]].
  - rewrite bool_decide_eq_true_2 by done. split.
    + intros (-> & Hf & Hw). destruct (pa_ShuffleInputs a); done.
    + intros ((Hf & Hi & Hw) & Hm & _). split; [|done]. destruct read; [|done]. by rewrite Hi in Hfit.
  - rewrite bool_decide_eq_false_2 by done. rewrite (validateTarget_spec _ _ _ Hops (pipeline_not_empty _ _ Hr)). split.
    + intros (Hw & f & Hf & Hk & Ht). split; [split; [done|by exists f]|]. split; [done|]. by exists f.
    + intros ((Hw & f & Hf & Hk) & _ & f' & Hf' & Ht). split; [done|]. exists f'.
      rewrite Hf in Hf'. by injection Hf' as <-.
Qed.

Lemma validateAssignment_checks a : validateAssignment a = Ok tt <->
  execution_ok (Execution a) /\ pa_StageID a = t_StageID (pa_Task a) /\
  0 <= t_PartitionID (pa_Task a) < t_NumPartitions (pa_Task a) /\ stage_kind_ok a /\
  pipeline_checks a = Ok tt /\ target_check a = Ok tt.
Proof.
  assert (Hid : execution_ok (Execution a) -> ta_TaskID (pa_Attempt a) = t_ID (pa_Task a)) by (intros (_ & _ & ?); done).
  unfold validateAssignment, pipeline_checks, target_check.
  rewrite bind_unit_Ok, validateExecution_spec, !fail_if_Ok, bind_unit_Ok, validateStageKind_spec,
    !orb_false_iff, !negb_false_iff, !N.eqb_eq, !Z.leb_gt, Z.ltb_ge.
  destruct (t_Operations (pa_Task a)) as [|op rest]; [split; [by intros (_ & _ & _ & _ & ?)|by intros (_ & _ & _ & _ & ? & _)]|].
  rewrite !bind_unit_Ok. split.
  - intros (H1 & (_ & H2) & ((_ & H3) & H4) & H5 & H6 & H7 & H8). by split_and!.
  - intros (H1 & H2 & H3 & H5 & (H6 & H7) & H8). split_and!; try done; [by apply Hid|lia|lia|lia].
Qed.

Lemma validateAssignment_spec a : validateAssignment a = Ok tt <-> assignment_ok a.
Proof.
  rewrite validateAssignment_checks, validatePipeline_spec. split.
  - intros (H1 & H2 & H3 & H4 & (read & rdds & Hops & Hr & Hfit & Hm) & H5). split; try done. exists read, rdds.
    split_and!; try done. by apply kind_ok_split.
  - intros [H1 H2 H3 (read & rdds & Hops & Hr & Hfit & Hk)]. apply kind_ok_split in Hk as (Hk & Hm & H5); [|done..].
    split_and!; try done; try lia. by exists read, rdds.
Qed.

(** ** Responses *)

Lemma validateAssignments_from_spec first attempts tasks i l :
  validateAssignments_from first attempts tasks i l = Ok tt <->
  Forall (fun a => assignment_ok a /\ pa_WorkerID a = first) l /\
  NoDup ((fun a => ta_ID (pa_Attempt a)) <$> l) /\ NoDup (logicalKey <$> l) /\
  (forall a, a ∈ l -> ta_ID (pa_Attempt a) ∉ attempts /\ logicalKey a ∉ tasks).
Proof.
  revert attempts tasks i. induction l as [|a l IH]; intros attempts tasks i; cbn [validateAssignments_from].
  { split; [|done]. intros _. split_and!; try constructor; by apply not_elem_of_nil in H. }
  rewrite bind_unit_Ok, map_err_Ok, validateAssignment_spec, !fail_if_Ok, orb_false_iff, negb_false_iff,
    bool_decide_eq_true, !bool_decide_eq_false, IH, Forall_cons, !fmap_cons, !NoDup_cons. clear IH. split.
  - intros (Ha & Hw & (H1 & H2) & Hf & Hd1 & Hd2 & Hs). split_and!; try done.
    + intros (b & E & Hb)%list_elem_of_fmap. destruct (Hs b Hb) as [Hx _]. apply Hx. rewrite <- E. by apply elem_of_union_l, elem_of_singleton.
    + intros (b & E & Hb)%list_elem_of_fmap. destruct (Hs b Hb) as [_ Hx]. apply Hx. rewrite <- E. by apply elem_of_union_l, elem_of_singleton.
    + intros b [->|Hb]%elem_of_cons; [done|]. destruct (Hs b Hb) as [Hx Hy].
      split; intros ?; [apply Hx|apply Hy]; by apply elem_of_union_r.
  - intros (((Ha & Hw) & Hf) & (Hn1 & Hd1) & (Hn2 & Hd2) & Hs). split; [done|]. split; [done|].
    split; [apply Hs; by left|]. split_and!; try done. intros b Hb. destruct (Hs b ltac:(by right)).
    split; (intros [E%elem_of_singleton|?]%elem_of_union; [|done]).
    + apply Hn1, list_elem_of_fmap. by exists b.
    + apply Hn2, list_elem_of_fmap. by exists b.
Qed.

(** A batch for one worker, of distinct attempts of distinct tasks. *)
Definition batch_ok (worker : WorkerID) (l : list TaskAssignment) : Prop :=
  Forall (fun a => assignment_ok a /\ pa_WorkerID a = worker) l /\
  NoDup ((fun a => ta_ID (pa_Attempt a)) <$> l) /\ NoDup (logicalKey <$> l).

Lemma validateHeartbeatResponse_spec r : validateHeartbeatResponse r = Ok tt <->
  exists worker l, hp_Assignments r = Some l /\ batch_ok worker l.
Proof.
  unfold validateHeartbeatResponse, batch_ok. destruct (hp_Assignments r) as [[|a l]|].
  - split; [|done]. intros _. exists "", []. split_and!; try done; constructor.
  - rewrite validateAssignments_from_spec. split.
    + intros (Hf & H1 & H2 & _). by exists (pa_WorkerID a), (a :: l).
    + intros (worker & l' & [= <-] & Hf & H1 & H2). split_and!; try done.
      pose proof Hf as [[_ E] _]%Forall_cons. by rewrite E.
  - split; [done|]. by intros (? & ? & ? & _).
Qed.

Lemma checkDistinct_spec seen ids :
  checkDistinct seen ids = Ok tt <-> NoDup ids /\ forall id, id ∈ ids -> id ∉ seen.
Proof.
  revert seen. induction ids as [|id ids IH]; intros seen; cbn [checkDistinct].
  { split; [|done]. intros _. split; [constructor|set_solver]. }
  rewrite fail_if_Ok, bool_decide_eq_false, IH, NoDup_cons. split.
  - intros (Hn & Hd & Hs). split_and!; try done; set_solver.
  - intros ((Hn & Hd) & Hs). split_and!; try done; set_solver.
Qed.

Lemma ValidateCapacity_spec r total : ValidateCapacity r total = Ok tt <->
  nonblank (hq_WorkerID r) /\ exists ids, hq_RunningAttemptIDs r = Some ids /\ NoDup ids /\
  0 <= hq_FreeSlots r <= total /\ 0 < total /\ Z.of_nat (length ids) <= total - hq_FreeSlots r.
Proof.
  unfold ValidateCapacity, validateHeartbeat, validateWorker, nonblank.
  rewrite !bind_unit_Ok, !fail_if_Ok, !orb_false_iff, !Z.ltb_ge, Z.leb_gt. destruct (hq_RunningAttemptIDs r) as [ids|].
  - rewrite checkDistinct_spec. cbn [default]. split.
    + intros (([Hb _] & H0 & Hd & _) & ((H1 & H2) & H3) & _). split; [done|]. exists ids. split_and!; try done; lia.
    + intros (Hb & ids' & [= <-] & Hd & Hf & Ht & Hl). split_and!; try done; lia.
  - split; [by intros ((_ & _ & ?) & _)|by intros (_ & ? & ? & _)].
Qed.
