(* ===== verification/Coordinator.v ===== *)
(** * Coordinator: the HTTP handlers over the schedulers

    Models [coordinator/{server,worker,task_report,job,job_service,
    worker_monitor}.go], [executor/scheduler_runner.go] and [api/action.go].  A
    handler takes what [DecodeAndValidate] made of its request body, and returns
    its response with the state of the FIFO scheduler.  [heartbeat] takes the
    mutex twice, for [Worker] and for [OfferResources]; a worker's capacity never
    changes in between (see [Growth]), so that it is one step here.  Durations
    are [Z] nanoseconds. *)

From S2P Require Import Prelude Bytes Plan Lineage Stages Dag Shuffle Reports Fifo Api Json Protocol.
#[local] Open Scope Z_scope.

(** ** Responses *)

Inductive body :=
  | BodyRegister (r : RegisterWorkerResponse)
  | BodyHeartbeat (r : HeartbeatResponse)
  | BodyReport (r : TaskReportResponse)
  | BodyJob (r : JobResultResponse)
  | BodyError (r : ErrorResponse).

Record response := mkResponse { re_Status : Z; re_Body : body }.

Definition StatusOK : Z := 200.

(** A message is always encoded: its raw records are valid JSON. *)
Definition writeJSON (status : Z) (b : body) : response := mkResponse status b.
Definition writeError (status : Z) (code : ErrorCode) (message : string) : response :=
  writeJSON status (BodyError (mkErrorResponse code message)).

Notation ErrInvalidMessage := "invalid protocol message"%string (only parsing).
Notation ErrMessageTooLarge := "protocol message exceeds size limit"%string (only parsing).
Notation ErrJobFailed := "job failed"%string (only parsing).

(** What [DecodeAndValidate] returns for the text of message [m], as
    [MessageTheorems.message_received] proves. *)
Definition received {T} (validate : T -> result unit) (m : T) : result T :=
  _ ← map_err (fun err => Errorf "%w: %w" [FWrap (Sentinel ErrInvalidMessage); FWrap err]) (validate m);
  Ok m.

(** ** The server *)

Record Config := mkConfig {
  cf_Addr : string;
  cf_MaxRequestBytes : Z;
  cf_ReadHeaderTimeout : Z;
  cf_ReadTimeout : Z;
  cf_WriteTimeout : Z;
  cf_IdleTimeout : Z;
  cf_JobTimeout : Z }.

Definition Second : Z := 1000000000.
Definition MaxInt64 : Z := 2 ^ 63 - 1.

Definition or_default (z d : Z) : Z := if z =? 0 then d else z.

(** The settings of the server; [tasks] says the scheduler is not nil. *)
Definition NewServer (tasks : bool) (c : Config) : result Config :=
  fail_if (negb tasks) (Errorf "task scheduler is nil" []);;
  fail_if ((cf_MaxRequestBytes c <? 0) || (cf_MaxRequestBytes c =? MaxInt64))
    (Errorf "max request bytes must be positive and bounded" []);;
  fail_if ((cf_ReadHeaderTimeout c <? 0) || (cf_ReadTimeout c <? 0) || (cf_WriteTimeout c <? 0) ||
           (cf_IdleTimeout c <? 0) || (cf_JobTimeout c <? 0))
    (Errorf "HTTP timeouts must not be negative" []);;
  Ok {| cf_Addr := if bool_decide (cf_Addr c = "") then "127.0.0.1:8080" else cf_Addr c;
        cf_MaxRequestBytes := or_default (cf_MaxRequestBytes c) (2 ^ 20);
        cf_ReadHeaderTimeout := or_default (cf_ReadHeaderTimeout c) (5 * Second);
        cf_ReadTimeout := or_default (cf_ReadTimeout c) (10 * Second);
        cf_WriteTimeout := or_default (cf_WriteTimeout c) (10 * Second);
        cf_IdleTimeout := or_default (cf_IdleTimeout c) (60 * Second);
        cf_JobTimeout := or_default (cf_JobTimeout c) (300 * Second) |}.

Section handlers.
(** The text of an error. *)
Variable Error : error -> string.

Definition decodeRequest {T} (decoded : result T) : T + response :=
  match decoded with
  | Ok message => inl message
  | Err err =>
      if errors_Is err ErrMessageTooLarge
      then inr (writeError 413 CodeRequestTooLarge (Error err))
      else inr (writeError 400 CodeInvalidRequest (Error err))
  end.

Definition is_any (err : error) (targets : list string) : bool := existsb (errors_Is err) targets.

Definition writeSchedulerError (err : error) : response :=
  if is_any err [ErrUnknownWorker; ErrUnknownAttempt] then writeError 404 CodeNotFound (Error err)
  else if is_any err [ErrWorkerConflict; ErrWorkerLost; ErrMismatchedReport] then writeError 409 CodeConflict (Error err)
  else if is_any err [ErrInvalidWorker; ErrInvalidResourceOffer; ErrInvalidTaskReport]
  then writeError 400 CodeInvalidRequest (Error err)
  else if is_any err ["FIFO task scheduler is closed"%string] then writeError 503 CodeUnavailable (Error err)
  else writeError 500 CodeInternal "scheduler operation failed".

(** ** Workers *)

Definition registerWorker (s : scheduler) (now : Z) (decoded : result RegisterWorkerRequest)
    : response * scheduler :=
  match decodeRequest decoded with
  | inr r => (r, s)
  | inl request =>
      match RegisterWorker s (rq_WorkerID request) (rq_TotalSlots request) now with
      | Err err => (writeSchedulerError err, s)
      | Ok s => (writeJSON StatusOK (BodyRegister (mkRegisterResponse (rq_WorkerID request) (rq_TotalSlots request))), s)
      end
  end.

(** An assignment of the scheduler as a message. *)
Definition assignmentMessage (a : Fifo.TaskAssignment) : TaskAssignment :=
  {| pa_ShuffleInputs := asg_ShuffleInputs a; pa_RunID := asg_RunID a; pa_JobID := asg_JobID a;
     pa_StageID := asg_StageID a; pa_WorkerID := at_WorkerID (asg_Attempt a);
     pa_Attempt := at_Identity (asg_Attempt a); pa_Task := at_Task (asg_Attempt a) |}.

Definition heartbeat (s : scheduler) (now : Z) (ctxErr : taskSetKey -> option error)
    (decoded : result HeartbeatRequest) : response * scheduler :=
  match decodeRequest decoded with
  | inr r => (r, s)
  | inl request =>
      match Worker s (hq_WorkerID request) with
      | Err err => (writeSchedulerError err, s)
      | Ok worker =>
          match ValidateCapacity request (ws_TotalSlots worker) with
          | Err err => (writeError 400 CodeInvalidRequest (Error err), s)
          | Ok _ =>
              match OfferResources s (hq_WorkerID request) (hq_FreeSlots request)
                      (default [] (hq_RunningAttemptIDs request)) now ctxErr with
              | Err err => (writeSchedulerError err, s)
              | Ok (s, assignments) =>
                  (writeJSON StatusOK (BodyHeartbeat (mkHeartbeatResponse (Some (assignmentMessage <$> assignments)))), s)
              end
          end
      end
  end.

(** ** Reports *)

(** Records stay raw JSON through the scheduler. *)
Definition successOf (request : TaskSuccessRequest) : TaskAttemptSuccess :=
  let o := sq_Output request in
  {| ts_JobID := sq_JobID request; ts_StageID := sq_StageID request; ts_Attempt := sq_Attempt request;
     ts_PartitionID := sq_PartitionID request; ts_WorkerID := sq_WorkerID request;
     ts_Output := mkOutput (map ARaw <$> po_Records o) (po_Count o) (po_ShuffleOutput o) |}.

Definition failureOf (request : TaskFailureRequest) : TaskAttemptFailure :=
  {| tf_Kind := fq_Kind request; tf_ShuffleInput := fq_ShuffleInput request; tf_JobID := fq_JobID request;
     tf_StageID := fq_StageID request; tf_Attempt := fq_Attempt request; tf_PartitionID := fq_PartitionID request;
     tf_WorkerID := fq_WorkerID request; tf_Error := fq_Error request |}.

Definition acknowledge : response := writeJSON StatusOK (BodyReport (mkReportResponse true)).

Definition taskSuccess (s : scheduler) (ctxErr : taskSetKey -> option error)
    (decoded : result TaskSuccessRequest) : response * scheduler :=
  match decodeRequest decoded with
  | inr r => (r, s)
  | inl request =>
      match ReportSuccess s (successOf request) ctxErr with
      | Err err => (writeSchedulerError err, s)
      | Ok s => (acknowledge, s)
      end
  end.

Definition taskFailure (s : scheduler) (ctxErr : taskSetKey -> option error)
    (decoded : result TaskFailureRequest) : response * scheduler :=
  match decodeRequest decoded with
  | inr r => (r, s)
  | inl request =>
      match ReportFailure s (failureOf request) ctxErr with
      | Err err => (writeSchedulerError err, s)
      | Ok s => (acknowledge, s)
      end
  end.

(** ** Jobs *)

(** [json.Marshal] of a [json.RawMessage] drops the space outside its strings and
    escapes as for a string. *)
Fixpoint compact (inString : bool) (bs : list N) : list N :=
  match bs with
  | [] => []
  | b :: t =>
      (if (b =? 92) && inString then
         match t with
         | c :: t => b :: c :: compact inString t
         | [] => [b]
         end
       else if (b =? 34) then b :: compact (negb inString) t
       else if is_space b && negb inString then compact inString t
       else if (b =? 60) || (b =? 62) || (b =? 38)
       then [92; 117; 48; 48; hexDigit (b / 16); hexDigit (b mod 16)] ++ compact inString t
       else
         match t with
         | c :: d :: t' =>
             if (b =? 226) && (c =? 128) && ((d =? 168) || (d =? 169))
             then [92; 117; 50; 48; 50; 56 + (d - 168)] ++ compact inString t'
             else b :: compact inString t
         | _ => b :: compact inString t
         end)%N
  end.

Definition marshalRecord (v : any) : result string :=
  match v with
  | ARaw s =>
      fail_if (negb (json_Valid s)) (Errorf "json: error calling MarshalJSON for type json.RawMessage" []);;
      Ok (string_of (compact false (bytes_of s)))
  | v => data ← marshal v; Ok (string_of data)
  end.

Fixpoint marshalRecords (i : nat) (records : list any) : result (list string) :=
  match records with
  | [] => Ok []
  | record :: records =>
      data ← map_err (fun err => Errorf "encode result record %d: %w" [FInt (Z.of_nat i); FWrap err]) (marshalRecord record);
      rest ← marshalRecords (S i) records;
      Ok (data :: rest)
  end.

(** [DAGScheduler.Run] on a graph and an action, as its callers see it. *)
Definition runner : Type := RDDGraph -> ActionSpec -> result Dag.JobResult.

(** [SchedulerActionRunner.Collect] and [Count]. *)
Definition runCollect (run : runner) (g : RDDGraph) (target : RDDID) : result (list any) :=
  r ← run g (mkAction ActionCollect target); Ok (default [] (Dag.jr_Records r)).
Definition runCount (run : runner) (g : RDDGraph) (target : RDDID) : result Z :=
  r ← run g (mkAction ActionCount target); Ok (Dag.jr_Count r).

(** [RDD.Collect] and [RDD.Count] of a context with a runner. *)
Definition Collect (run : runner) (g : RDDGraph) (r : RDDID) : result (list any) :=
  map_err (fun err => Errorf "collect RDD %d: %w" [FInt (Z.of_N r); FWrap err]) (runCollect run g r).
Definition Count (run : runner) (g : RDDGraph) (r : RDDID) : result Z :=
  map_err (fun err => Errorf "count RDD %d: %w" [FInt (Z.of_N r); FWrap err]) (runCount run g r).

Definition jobFailed (step : string) (err : error) : error :=
  Errorf ("%w: " +:+ step +:+ " job: %w") [FWrap (Sentinel ErrJobFailed); FWrap err].

Definition NewJobService (registry tasks : bool) : result unit :=
  fail_if (negb registry) (Errorf "function registry is nil" []);;
  fail_if (negb tasks) (Errorf "task scheduler is nil" []);;
  Ok tt.

(** [JobService.Submit]; [ctx] is [None] when nil, or [ctx.Err()]. *)
Definition Submit (run : runner) (ctx : option (option error)) (spec : Spec) : result JobResultResponse :=
  match ctx with
  | None => Err (Errorf "job context is nil" [])
  | Some (Some err) => Err err
  | Some None =>
      match Build spec NewRDDGraph with
      | (Err err, _) => Err (jobFailed "build" err)
      | (Ok rdd, g) =>
          match spec_Action spec with
          | ActionCount =>
              count ← map_err (jobFailed "run") (Count run g rdd);
              Ok (mkJobResult ActionCount None count)
          | ActionCollect =>
              records ← map_err (jobFailed "run") (Collect run g rdd);
              texts ← marshalRecords 0 records;
              Ok (mkJobResult ActionCollect (Some texts) 0)
          | ActionOther s => Ok (mkJobResult (ActionOther s) None 0)
          end
      end
  end.

Definition writeJobError (err : error) : response :=
  if is_any err [context_DeadlineExceeded] then writeError 504 CodeJobFailed "job deadline exceeded"
  else if is_any err ["DAG scheduler is closed"%string; "FIFO task scheduler is closed"%string]
  then writeError 503 CodeUnavailable "job scheduling is closed"
  else if is_any err [ErrJobFailed] then writeError 422 CodeJobFailed (Error err)
  else writeError 500 CodeInternal "job submission failed".

(** [setJobWriteDeadline]: the response to give up with, if any. *)
Definition setJobWriteDeadline (err : option error) : option response :=
  match err with
  | None => None
  | Some err =>
      if errors_Is err "feature not supported" then None
      else Some (writeError 500 CodeInternal "cannot set job response deadline")
  end.

(** [deadline1] and [deadline2] are the outcomes of setting the write deadline,
    [client] and [ctx] the errors of the request's context and of the job's, read
    after the submission; there is no response for a client that has gone. *)
Definition submitJob (jobs : bool) (submit : Spec -> result JobResultResponse)
    (deadline1 deadline2 client ctx : option error) (decoded : result Spec) : option response :=
  if negb jobs then Some (writeError 503 CodeUnavailable "job submission is not configured")
  else
    match decodeRequest decoded with
    | inr r => Some r
    | inl spec =>
        match setJobWriteDeadline deadline1 with
        | Some r => Some r
        | None =>
            let result := submit spec in
            if bool_decide (is_Some client) then None
            else
              match setJobWriteDeadline deadline2 with
              | Some r => Some r
              | None =>
                  match (match ctx with Some err => Err err | None => result end) with
                  | Err err => Some (writeJobError err)
                  | Ok result =>
                      if negb (bool_decide (jp_Action result = spec_Action spec)) || negb (is_Ok (validateJobResult result))
                      then Some (writeError 500 CodeInternal "invalid job result")
                      else Some (writeJSON StatusOK (BodyJob result))
                  end
              end
        end
    end.

(** ** Routing *)

Inductive endpoint := EndRegister | EndHeartbeat | EndSuccess | EndFailure | EndSubmit.

Definition route (path : string) : option endpoint :=
  if bool_decide (path = "/v1/workers/register") then Some EndRegister
  else if bool_decide (path = "/v1/workers/heartbeat") then Some EndHeartbeat
  else if bool_decide (path = "/v1/tasks/success") then Some EndSuccess
  else if bool_decide (path = "/v1/tasks/failure") then Some EndFailure
  else if bool_decide (path = "/v1/jobs") then Some EndSubmit
  else None.

Definition ServeHTTP (path method : string) (serve : endpoint -> option response) : option response :=
  match route path with
  | None => Some (writeError 404 CodeNotFound "unknown endpoint")
  | Some e =>
      if negb (bool_decide (method = "POST"))
      then Some (writeError 405 CodeMethodNotAllowed "endpoint requires POST")
      else serve e
  end.

End handlers.

(** ** The worker monitor *)

Record WorkerMonitorConfig := mkMonitorConfig { mc_WorkerTimeout : Z; mc_CheckInterval : Z }.

Definition NewWorkerMonitor (tasks : bool) (c : WorkerMonitorConfig) : result WorkerMonitorConfig :=
  fail_if (negb tasks) (Errorf "worker expirer is nil" []);;
  fail_if ((mc_WorkerTimeout c <? 0) || (mc_CheckInterval c <? 0))
    (Errorf "worker monitor durations must not be negative" []);;
  let timeout := or_default (mc_WorkerTimeout c) (10 * Second) in
  let interval := or_default (mc_CheckInterval c) Second in
  fail_if (timeout <? interval) (Errorf "worker check interval must not exceed timeout" []);;
  Ok (mkMonitorConfig timeout interval).

(** One turn of the monitor's loop: its context is done, or a tick at [now], when
    the context is read again. *)
Inductive monitorEvent :=
  | MonitorDone
  | MonitorTick (now : Z) (ctx : option error) (ctxErr : TaskAttemptID -> taskSetKey -> option error).

(** The loop over the events; [None] when it has not returned yet. *)
Fixpoint runMonitor (c : WorkerMonitorConfig) (s : scheduler) (events : list monitorEvent)
    : option (result unit) * scheduler :=
  match events with
  | [] => (None, s)
  | MonitorDone :: _ => (Some (Ok tt), s)
  | MonitorTick now ctx ctxErr :: events =>
      if bool_decide (is_Some ctx) then (Some (Ok tt), s)
      else
        match ExpireWorkers s now (mc_WorkerTimeout c) ctxErr with
        | Err err => (Some (Err (Errorf "expire workers: %w" [FWrap err])), s)
        | Ok (s, _) => runMonitor c s events
        end
  end.
