(* ===== verification/Growth.v ===== *)
(** * Growth: what the FIFO scheduler never forgets

    Attempts stay known with the assignment that was sent to their worker,
    workers with the capacity they registered, and task sets with their tasks and
    inputs.  Messages in flight rely on it. *)

From S2P Require Import Prelude Bytes Plan Stages Shuffle Reports Fifo FifoProofs FifoInvariant FifoSystem FifoTheorems FifoReports.
From S2P Require Import Json Protocol Coordinator.
#[local] Open Scope Z_scope.

(** ** Assignments and capacities *)

(** Attempt [id] was assigned with message [m]. *)
Definition assigned (s : scheduler) (id : TaskAttemptID) (m : Protocol.TaskAssignment) : Prop :=
  exists a, attempts s !! id = Some a /\ assignmentMessage (aa_assignment a) = m.

Definition capacity (s : scheduler) (id : WorkerID) (slots : Z) : Prop :=
  exists w, workers s !! id = Some w /\ wk_TotalSlots w = slots.

Record extends (s s' : scheduler) : Prop := {
  ex_run : runID s' = runID s;
  ex_assigned id m : assigned s id m -> assigned s' id m;
  ex_capacity id slots : capacity s id slots -> capacity s' id slots }.

#[export] Instance extends_refl : Reflexive extends.
Proof. by intros s. Qed.
#[export] Instance extends_trans : Transitive extends.
Proof. intros s1 s2 s3 [R1 A1 C1] [R2 A2 C2]. split; [congruence|auto|auto]. Qed.

Lemma extends_same s s' : runID s' = runID s -> attempts s' = attempts s -> workers s' = workers s -> extends s s'.
Proof. intros R A W. split; [done| |]; intros ? ?; unfold assigned, capacity; by rewrite ?A, ?W. Qed.

(** Workers are updated in place. *)
Lemma capacity_alter f wid s s' id slots : (forall w, wk_TotalSlots (f w) = wk_TotalSlots w) ->
  workers s' = alter f wid (workers s) -> capacity s id slots -> capacity s' id slots.
Proof.
  intros Hf E (w & Hw & Hs). unfold capacity. rewrite E, lookup_alter. case_decide; [subst id; rewrite Hw|by exists w].
  exists (f w). by rewrite Hf.
Qed.

Lemma retired_extends s id a st set' : extends s (retired s id a st set').
Proof.
  split; [done| |].
  - intros id' m (b & Hb & Hm). unfold assigned. cbn. rewrite lookup_alter. case_decide; [|by exists b].
    subst id'. rewrite Hb. exists (retire st b). split; [done|]. rewrite <- Hm. by destruct b as [[? ? ? ? []] ? ? ?].
  - intros k n. apply (capacity_alter (with_reserved (fun r => r ∖ {[id]})) (attempt_worker a)); done.
Qed.

Lemma failAttempt_extends s id a r ctxErr s' : sched_inv s -> attempts s !! id = Some a -> aa_terminal a = false ->
  failAttempt s a r ctxErr = Ok s' -> extends s s'.
Proof.
  intros H Ha Hl E. destruct (live_attempt_task s id a H Ha Hl) as (set & t & Hk & _).
  rewrite (failAttempt_eq s id a r ctxErr set) in E by done. injection E as <-. by apply retired_extends.
Qed.

Lemma ReportSuccess_extends s r ctxErr s' : sched_inv s -> ReportSuccess s r ctxErr = Ok s' -> extends s s'.
Proof.
  intros H (a & _ & Hs)%ReportSuccess_spec; [|done]. destruct (aa_terminal a); [by rewrite Hs|].
  destruct Hs as (_ & set & _ & ->). by apply retired_extends.
Qed.

Lemma ReportFailure_extends s r ctxErr s' : sched_inv s -> ReportFailure s r ctxErr = Ok s' -> extends s s'.
Proof.
  intros H (_ & a & _ & Hs)%ReportFailure_spec; [|done]. destruct (aa_terminal a); [by rewrite Hs|].
  destruct Hs as (_ & set & _ & ->). by apply retired_extends.
Qed.

Lemma RegisterWorker_extends s id slots now s' :
  RegisterWorker s id slots now = Ok s' -> extends s s' /\ capacity s' id slots.
Proof.
  unfold RegisterWorker, register. intros (_ & Hr)%fail_if_Ok. apply bind_Ok in Hr as (ws & Hr & [= <-]).
  apply fail_if_Ok in Hr as [_ Hr]. destruct (workers s !! id) as [w|] eqn:Hw.
  - apply fail_if_Ok in Hr as [_ Hr]. apply fail_if_Ok in Hr as [Hs Hr]. injection Hr as <-. to_prop.
    split; [by apply extends_same|]. by exists w.
  - injection Hr as <-. split; [split; [done|done|]|].
    + intros k n (w & Hk & Hn). exists w. cbn. rewrite lookup_insert_ne by congruence. done.
    + unfold capacity. cbn. rewrite lookup_insert_eq. by eexists.
Qed.

(** ** Offers *)

Lemma assign_extends s id key i a : attempts s !! nextAttempt s = None -> extends s (assign s id key i a).
Proof.
  intros Hn. split; [done| |].
  - intros k m (b & Hb & Hm). exists b. cbn. rewrite lookup_insert_ne by congruence. done.
  - intros k n. by eapply (capacity_alter (with_reserved _)).
Qed.

Lemma next_unused s : sched_inv s -> attempts s !! nextAttempt s = None.
Proof.
  intros H. destruct (attempts s !! nextAttempt s) as [a|] eqn:Ha; [|done].
  destruct (inv_attempts _ H _ _ Ha) as [Hlt _]. lia.
Qed.

Lemma OfferResources_extends s id free running now ctxErr s' asg :
  sched_inv s -> (nextAttempt s + Z.to_N free < 2 ^ 64)%N ->
  OfferResources s id free running now ctxErr = Ok (s', asg) -> extends s s'.
Proof.
  intros H Hnext (w & s2 & av & Hw & (_ & _ & Hfree & _) & E & ->)%OfferResources_spec; [|done].
  set (s1 := set_workers _ s) in E. set (o := (s1, availableSlots w free (list_to_set running), [])) in E.
  assert (G : offer_good s id (foldl (offerSet ctxErr id) o (queue s)) /\ extends s (foldl (offerSet ctxErr id) o (queue s)).1.1).
  { apply (offer_ind ctxErr id (fun o => offer_good s id o /\ extends s o.1.1)); clear E.
    - intros s3 available assignments key set i t [Hg He] Hpos Hk Hlive Hi Hp. split; [by eapply offer_good_assign|].
      etransitivity; [exact He|]. apply assign_extends, next_unused. destruct Hg as ([Hs3 _] & _). exact Hs3.
    - intros s3 available assignments key err [Hg He]. split; [by apply offer_good_finish|].
      etransitivity; [exact He|]. by apply extends_same.
    - split.
      + split_and!; [by apply heartbeat_keeps|done|]. exists (with_heartbeat free running now w). cbn.
        rewrite lookup_alter_eq, Hw. split; [done|]. unfold availableSlots. cbn. lia.
      + split; [done|done|]. intros k n. by apply (capacity_alter (with_heartbeat free running now) id). }
  rewrite E in G. destruct G as [_ He]. etransitivity; [exact He|]. by apply extends_same.
Qed.

(** ** Expiry *)

Lemma retireAll_extends ctxErr id ids s s' : sched_inv s -> NoDup ids ->
  (forall aid, aid ∈ ids -> exists a, attempts s !! aid = Some a /\ aa_terminal a = false) ->
  retireAll ctxErr id ids s = Ok s' -> extends s s'.
Proof.
  intros H Hn. revert s H. induction Hn as [|aid ids Hnin _ IH]; intros s H Hids; cbn; [by intros [= <-]|].
  destruct (Hids aid ltac:(by left)) as (a & Ha & Hl). rewrite Ha. intros (s1 & E & Hr)%bind_Ok.
  pose proof (failAttempt_extends _ _ _ _ _ _ H Ha Hl E) as Hx. etransitivity; [exact Hx|].
  destruct (failAttempt_keeps s aid a (lostReport (aa_assignment a) id) (ctxErr aid) H Ha Hl) as (s2 & E2 & [H1 _] & _).
  rewrite E in E2. injection E2 as <-. apply IH; [done| |done]. intros bid Hb.
  destruct (Hids bid ltac:(by right)) as (b & Hb1 & Hb2).
  destruct (live_attempt_task s aid a H Ha Hl) as (set & t & Hk & _).
  rewrite (failAttempt_eq s aid a _ _ set) in E by done. injection E as <-.
  exists b. cbn. rewrite lookup_alter_ne; [done|]. intros <-. done.
Qed.

Lemma loseWorker_extends ctxErr s id s' : sched_inv s -> loseWorker ctxErr s id = Ok s' -> extends s s'.
Proof.
  intros H. unfold loseWorker. destruct (workers s !! id) as [w|] eqn:Hw; [|done].
  set (s1 := set_workers (alter (with_status WorkerLost) id) s). intros E.
  assert (K1 : keeps s s1) by by apply heartbeat_keeps.
  etransitivity; [|eapply (retireAll_extends ctxErr id _ s1); [apply K1| | |exact E]].
  - split; [done|done|]. intros k n. by apply (capacity_alter (with_status WorkerLost) id).
  - rewrite merge_sort_Permutation. apply NoDup_elements.
  - intros aid. rewrite merge_sort_Permutation, elem_of_elements. intros Hr.
    destruct (inv_workers _ H _ _ Hw) as (_ & _ & _ & Hres). destruct (Hres aid Hr) as (a & Ha & Hl & _). by exists a.
Qed.

Lemma ExpireWorkers_extends s now timeout ctxErr s' lost :
  sched_inv s -> ExpireWorkers s now timeout ctxErr = Ok (s', lost) -> extends s s'.
Proof.
  intros H. unfold ExpireWorkers. intros (_ & (_ & E)%fail_if_Ok)%fail_if_Ok.
  apply bind_Ok in E as (s1 & E & [= <- <-]).
  assert (Hx : extends s s1).
  { assert (Hids : forall id, id ∈ expiredWorkers s now timeout -> is_Some (workers s !! id))
      by (intros id (w & Hw & _)%elem_of_expiredWorkers; eauto).
    revert Hids E. generalize (expiredWorkers s now timeout) as ids. intros ids. revert s H.
    induction ids as [|id ids IH]; intros s H Hids; cbn; [by intros [= <-]|].
    destruct (Hids id ltac:(by left)) as [w Hw].
    destruct (loseWorker_spec ctxErr s id w H Hw) as (s2 & E2 & [H2 _] & _ & Hw2). rewrite E2. intros E.
    etransitivity; [by eapply loseWorker_extends|]. apply IH; [done| |done].
    intros k Hk. rewrite Hw2. apply lookup_insert_is_Some'. right. apply Hids. by right. }
  etransitivity; [exact Hx|]. by apply extends_same.
Qed.

(** ** Every step *)

Lemma fifo_step_extends y y' : sys_inv y -> fifo_step y y' -> extends (sys_fifo y) (sys_fifo y').
Proof.
  intros H Hstep. pose proof (si_fifo _ H) as Hs.
  destruct Hstep as [y id slots now s Hr|y input observer s key Hsub|y id free running now ctxErr s asg Ho Hn
    |y r ctxErr s Hr|y r ctxErr s Hr|y now timeout ctxErr s lost He|y|y key l ctxErr Hl Hst|y key l set Hl Hst Hk Hw|y key l Hl Hst];
    cbn [sys_fifo].
  - by apply RegisterWorker_extends in Hr as [? _].
  - apply submitTaskSet_spec in Hsub as (_ & _ & _ & _ & _ & _ & ->). by apply extends_same.
  - by eapply OfferResources_extends.
  - by eapply ReportSuccess_extends.
  - by eapply ReportFailure_extends.
  - by eapply ExpireWorkers_extends.
  - by apply extends_same.
  - unfold drainLoop, drainReports. destruct ctxErr as [err|], (sets _ !! key); by apply extends_same.
  - by apply extends_same.
  - done.
Qed.

(** ** Tasks and inputs of a set *)

Definition set_static (set : fifoTaskSet) : taskSetKey * option InputSnapshot * list Task :=
  (fs_key set, fs_inputs set, lt_task <$> fs_tasks set).

Lemma with_task_static i f set : (forall t, lt_task (f t) = lt_task t) -> set_static (with_task i f set) = set_static set.
Proof. intros Hf. unfold set_static. cbn. by rewrite (alter_map lt_task). Qed.

Lemma finish_set_static err set : set_static (finish_set err set) = set_static set.
Proof. unfold set_static. destruct (finish_set_kept err set) as (-> & -> & -> & _). done. Qed.

Lemma set_step_static max set set' : set_step max set set' -> set_static set' = set_static set.
Proof.
  destruct 1.
  - by apply with_task_static.
  - apply finish_set_static.
  - by apply with_task_static.
  - rewrite finish_set_static. by apply with_task_static.
  - unfold acceptSuccess. assert (E : forall s, set_static (with_task i (task_output (ts_Output r)) s) = set_static s)
      by (intros s; by apply with_task_static).
    case_goal; rewrite ?finish_set_static; (etransitivity; [apply (E (with_task i (task_state TaskSucceeded) set))|]);
      by apply with_task_static.
  - unfold recordFailure. cbn zeta. match goal with |- context [if ?b then _ else _] => destruct b end.
    + etransitivity; [apply (with_task_static i (task_state TaskPending)); done|]. by apply with_task_static.
    + rewrite finish_set_static. by apply with_task_static.
Qed.

Lemma moves_static s s' key set' : moves s s' -> sets s' !! key = Some set' ->
  exists set, sets s !! key = Some set /\ set_static set' = set_static set.
Proof.
  intros [_ _ Hs Hn] Hk. destruct (sets s !! key) as [set|] eqn:E; [|by rewrite (Hn _ E) in Hk].
  destruct (Hs _ _ E) as (set2 & E2 & Hst). assert (set2 = set') as -> by congruence. exists set. split; [done|].
  clear -Hst. induction Hst as [|a b c H _ IH]; [done|]. by rewrite IH, (set_step_static _ _ _ H).
Qed.

Lemma alter_static f key s k set' : (forall set, set_static (f set) = set_static set) ->
  alter f key (sets s) !! k = Some set' -> exists set, sets s !! k = Some set /\ set_static set' = set_static set.
Proof.
  intros Hf. rewrite lookup_alter_Some. intros [(<- & set & Hs & ->)|[_ Hs]]; [by exists set|by exists set'].
Qed.

(** No step changes the tasks or inputs of a set; a new one was submitted. *)
Lemma fifo_step_sets y y' key set' : sys_inv y -> fifo_step y y' -> sets (sys_fifo y') !! key = Some set' ->
  (exists set, sets (sys_fifo y) !! key = Some set /\ set_static set' = set_static set) \/
  exists input, task_set_ok input /\ set' = new_set input (nextSequence (sys_fifo y)).
Proof.
  intros H Hstep Hset. pose proof (si_fifo _ H) as Hs.
  destruct Hstep as [y id slots now s Hr|y input observer s k Hsub|y id free running now ctxErr s asg Ho Hn
    |y r ctxErr s Hr|y r ctxErr s Hr|y now timeout ctxErr s lost He|y|y k l ctxErr Hl Hst|y k l set2 Hl Hst Hk2 Hw|y k l Hl Hst];
    cbn [sys_fifo] in *.
  - apply RegisterWorker_keeps in Hr as [_ M]; [|done]. left; by eapply moves_static.
  - pose proof Hsub as (_ & Hok & _ & _ & -> & Hnone & E)%submitTaskSet_spec. rewrite E in Hset. cbn in Hset.
    apply lookup_insert_Some in Hset as [[<- <-]|[_ Hk2]]; [right; by exists input|left; by exists set'].
  - apply OfferResources_keeps in Ho as [_ M]; [|done..]. left; by eapply moves_static.
  - apply ReportSuccess_keeps in Hr as [_ M]; [|done]. left; by eapply moves_static.
  - apply ReportFailure_keeps in Hr as [_ M]; [|done]. left; by eapply moves_static.
  - pose proof He as He'. unfold ExpireWorkers in He'. apply fail_if_Ok in He' as [Ht He'].
    apply fail_if_Ok in He' as [Hc _]. apply Z.leb_gt in Ht.
    destruct (ExpireWorkers_spec _ now timeout ctxErr Hs Ht Hc) as (s2 & E & [_ M] & _). rewrite E in He. injection He as <- <-.
    left; by eapply moves_static.
  - destruct (Close_keeps _ Hs) as [_ M]. left; by eapply moves_static.
  - left. unfold drainLoop, drainReports in Hset.
    destruct ctxErr as [err|]; destruct (sets _ !! k) as [set2|] eqn:Hk2 in Hset; cbn in Hset.
    + apply (alter_static (with_reports []) k (finish k (Some err) (sys_fifo y))) in Hset as (set3 & Hset & Est); [|done].
      rewrite Est. apply (alter_static (finish_set (Some err))) in Hset; [done|]. intros. apply finish_set_static.
    + apply (alter_static (finish_set (Some err))) in Hset; [done|]. intros. apply finish_set_static.
    + by apply (alter_static (with_reports [])) in Hset.
    + by exists set'.
  - left. by apply (alter_static (with_wake false)) in Hset.
  - left. by exists set'.
Qed.
