(* ===== verification/Worker.v ===== *)
(** * Worker: the client and the runtime of a worker

    Models [worker/{client,runtime,task}.go].  [Run] is a loop that polls the
    coordinator and starts a goroutine for each assignment; [runState] is its
    state, and [run_step] what the loop and its goroutines do, labelled with what
    the coordinator sees of it.  Log lines have no counterpart; the end of a
    context is an error given to the steps that read it. *)

From S2P Require Import Prelude Bytes Plan Stages Shuffle Reports Json Protocol.
#[local] Open Scope Z_scope.

Notation ErrInvalidResponse := "invalid coordinator response"%string (only parsing).

Definition invalidResponse (format : string) (args : list farg) : error :=
  Errorf ("%w: " +:+ format) (FWrap (Sentinel ErrInvalidResponse) :: args).

(** ** The client *)

Record ClientConfig := mkClientConfig { cc_RequestTimeout : Z; cc_MaxResponseBytes : Z }.

(** [url] is what [url.Parse] makes of the base URL. *)
Definition NewClient (url : option parsedURL) (c : ClientConfig) : result ClientConfig :=
  let bad := Errorf "coordinator URL must be an absolute HTTP(S) origin without credentials, query, or fragment" [] in
  match url with
  | None => Err bad
  | Some u =>
      fail_if ((negb (bool_decide (url_Scheme u = "http")) && negb (bool_decide (url_Scheme u = "https"))) ||
               bool_decide (url_Hostname u = "") || url_User u ||
               (negb (bool_decide (url_Path u = "")) && negb (bool_decide (url_Path u = "/"))) ||
               negb (bool_decide (url_RawPath u = "")) || negb (bool_decide (url_RawQuery u = "")) || url_ForceQuery u ||
               negb (bool_decide (url_Fragment u = "")) || negb (bool_decide (url_RawFragment u = ""))) bad;;
      fail_if ((cc_RequestTimeout c <? 0) || (cc_MaxResponseBytes c <? 0) || (cc_MaxResponseBytes c =? 2 ^ 63 - 1))
        (Errorf "client timeout and response limit must be positive and bounded" []);;
      Ok {| cc_RequestTimeout := if cc_RequestTimeout c =? 0 then 10000000000 else cc_RequestTimeout c;
            cc_MaxResponseBytes := if cc_MaxResponseBytes c =? 0 then 2 ^ 20 else cc_MaxResponseBytes c |}
  end.

(** An HTTP response: its status, its media type if that parses, and what
    [DecodeAndValidate] makes of its body as a message and as an error. *)
Record httpResponse (T : Type) := mkHTTPResponse {
  hs_StatusCode : Z;
  hs_MediaType : option string;
  hs_Value : result T;
  hs_Error : result ErrorResponse }.
Arguments mkHTTPResponse {T} _ _ _ _.
Arguments hs_StatusCode {T} _.
Arguments hs_MediaType {T} _.
Arguments hs_Value {T} _.
Arguments hs_Error {T} _.

(** A rejection by the coordinator: the text of its [Error]. *)
Definition HTTPError (status : Z) (rejection : ErrorResponse) : error :=
  Errorf "coordinator HTTP %d (%s): %s" [FInt status; FStr (code_name (er_Code rejection)); FStr (er_Message rejection)].

(** [validated] is the outcome of the request's [Validate], [sent] of [http.Do]. *)
Definition post {T} (path : string) (validated : result unit) (sent : result (httpResponse T)) : result T :=
  _ ← map_err (fun err => Errorf "%s request: %w" [FStr path; FWrap err]) validated;
  response ← map_err (fun err => Errorf "POST %s: %w" [FStr path; FWrap err]) sent;
  let status := hs_StatusCode response in
  fail_if (negb (bool_decide (hs_MediaType response = Some "application/json")))
    (invalidResponse "HTTP %d requires application/json" [FInt status]);;
  if negb (status =? 200) then
    fail_if ((status <? 400) || (599 <? status)) (invalidResponse "unexpected HTTP status %d" [FInt status]);;
    rejection ← map_err (fun err => invalidResponse "HTTP %d: %w" [FInt status; FWrap err]) (hs_Error response);
    Err (HTTPError status rejection)
  else map_err (fun err => invalidResponse "%w" [FWrap err]) (hs_Value response).

(** [Client.RegisterWorker] and [Client.Heartbeat] after their [post]. *)
Definition clientRegistration (request : RegisterWorkerRequest) (posted : result RegisterWorkerResponse)
    : result RegisterWorkerResponse :=
  response ← posted;
  fail_if (negb (bool_decide (rp_WorkerID response = rq_WorkerID request)) ||
           negb (rp_TotalSlots response =? rq_TotalSlots request))
    (invalidResponse "registration identity or capacity differs from request" []);;
  Ok response.

Definition checkClientAssignment (request : HeartbeatRequest) (a : TaskAssignment) : result unit :=
  fail_if (negb (bool_decide (pa_WorkerID a = hq_WorkerID request)))
    (invalidResponse "assignment targets another worker" []);;
  fail_if (bool_decide (ta_ID (pa_Attempt a) ∈ default [] (hq_RunningAttemptIDs request)))
    (invalidResponse "assignment repeats running attempt %d" [FInt (Z.of_N (ta_ID (pa_Attempt a)))]);;
  Ok tt.

Definition clientHeartbeat (request : HeartbeatRequest) (posted : result HeartbeatResponse) : result HeartbeatResponse :=
  response ← posted;
  let assignments := default [] (hp_Assignments response) in
  fail_if (hq_FreeSlots request <? Z.of_nat (length assignments))
    (invalidResponse "assignments exceed offered slots" []);;
  _ ← check_all (fun _ => checkClientAssignment request) 0 assignments;
  Ok response.

(** ** Configuration *)

Record RuntimeConfig := mkRuntimeConfig {
  rc_WorkerID : WorkerID;
  rc_Slots : Z;
  rc_HeartbeatInterval : Z;
  rc_RequestTimeout : Z }.

(** [client] says the client is not nil, [registered] is what [RegisterFunctions]
    returned. *)
Definition NewRuntime (client : bool) (c : RuntimeConfig) (registered : result unit) : result RuntimeConfig :=
  fail_if (negb client) (Errorf "coordinator client is nil" []);;
  _ ← validateRegisterRequest (mkRegisterRequest (rc_WorkerID c) (rc_Slots c) None);
  fail_if ((rc_HeartbeatInterval c <? 0) || (rc_RequestTimeout c <? 0))
    (Errorf "worker intervals and timeouts must not be negative" []);;
  _ ← map_err (fun err => Errorf "register worker functions: %w" [FWrap err]) registered;
  Ok {| rc_WorkerID := rc_WorkerID c; rc_Slots := rc_Slots c;
        rc_HeartbeatInterval := if rc_HeartbeatInterval c =? 0 then 100000000 else rc_HeartbeatInterval c;
        rc_RequestTimeout := if rc_RequestTimeout c =? 0 then 10000000000 else rc_RequestTimeout c |}.

(** ** Running one assignment *)

Fixpoint encodeRecords (i : nat) (records : list any) : result (list string) :=
  match records with
  | [] => Ok []
  | record :: records =>
      data ← map_err (fun err => Errorf "encode record %d: %w" [FInt (Z.of_nat i); FWrap err]) (marshal record);
      rest ← encodeRecords (S i) records;
      Ok (string_of data :: rest)
  end.

Definition encodeOutput (action : ActionKind) (r : Reports.TaskOutput) : result TaskOutput :=
  output ← match action with
           | ActionCount => Ok (mkTaskOutput None None (to_Count r))
           | ActionCollect =>
               records ← encodeRecords 0 (default [] (to_Records r)); Ok (mkTaskOutput None (Some records) 0)
           | ActionOther s => Err (Errorf "unsupported task action %q" [FStr s])
           end;
  _ ← validateTaskOutput output;
  Ok output.

(** The output to report for what [RunTask] returned; [ctx] is the context's
    error. *)
Definition taskOutput (a : TaskAssignment) (ran : result Reports.TaskOutput) (ctx : option error) : result TaskOutput :=
  result ← ran;
  _ ← ValidateFor result (Execution a);
  output ← (if bool_decide (t_StageKind (pa_Task a) = StageShuffleMap)
            then Ok (mkTaskOutput (to_ShuffleOutput result) None 0)
            else match t_FinalAction (pa_Task a) with
                 | Some f => encodeOutput (act_Kind f) result
                 | None => Err panic_nil
                 end);
  match ctx with Some err => Err err | None => Ok output end.

Definition report : Type := TaskSuccessRequest + TaskFailureRequest.

Section task.
(** The text of an error. *)
Variable Error : error -> string.

(** The report of [executeAndReport]; the context is read again to classify a
    failure. *)
Definition taskReport (a : TaskAssignment) (ran : result Reports.TaskOutput) (ctx ctx' : option error) : report :=
  match taskOutput a ran ctx with
  | Ok output =>
      inl (mkSuccessRequest (pa_JobID a) (pa_StageID a) (pa_Attempt a) (t_PartitionID (pa_Task a)) (pa_WorkerID a) output)
  | Err err =>
      let '(kind, input) := ClassifyFailure ctx' err in
      let '(kind, input) :=
        if is_Ok ran && negb (bool_decide (kind = FailureCanceled)) then (FailurePermanent, None) else (kind, input) in
      inr (mkFailureRequest kind input (pa_JobID a) (pa_StageID a) (pa_Attempt a) (t_PartitionID (pa_Task a))
             (pa_WorkerID a) (Error err))
  end.

(** What [executeAndReport] returns for the coordinator's answer. *)
Definition reportAnswered (answer : result TaskReportResponse) : result unit :=
  ack ← answer;
  map_err (fun err => invalidResponse "%w" [FWrap err]) (validateReportResponse ack).

(** ** The state of [Run] *)

(** A goroutine: in [RunTask], in the call that reports, or about to signal its
    completion. *)
Inductive goroutine :=
  | GoExecuting (a : TaskAssignment)
  | GoReporting (a : TaskAssignment) (r : report)
  | GoCompleting (a : TaskAssignment).

(** [completed] is the buffered channel; [tasks] the goroutines. *)
Record runtimeState := mkRuntimeState {
  rs_active : gmap TaskAttemptID TaskAssignment;
  rs_seen : gset TaskAttemptID;
  rs_completed : list TaskAttemptID;
  rs_tasks : gmap TaskAttemptID goroutine }.

Definition newRuntimeState : runtimeState := mkRuntimeState ∅ ∅ [] ∅.

Definition with_completed (l : list TaskAttemptID) (s : runtimeState) : runtimeState :=
  mkRuntimeState (rs_active s) (rs_seen s) l (rs_tasks s).
Definition with_tasks (m : gmap TaskAttemptID goroutine) (s : runtimeState) : runtimeState :=
  mkRuntimeState (rs_active s) (rs_seen s) (rs_completed s) m.
Definition with_active (m : gmap TaskAttemptID TaskAssignment) (s : runtimeState) : runtimeState :=
  mkRuntimeState m (rs_seen s) (rs_completed s) (rs_tasks s).

(** [delete(state.active, id)] for every completion in the channel. *)
Definition drainCompleted (s : runtimeState) : runtimeState :=
  with_completed [] (with_active (foldl (fun m id => delete id m) (rs_active s) (rs_completed s)) s).

Definition resourceOffer (c : RuntimeConfig) (active : gmap TaskAttemptID TaskAssignment) : HeartbeatRequest :=
  {| hq_WorkerID := rc_WorkerID c; hq_FreeSlots := rc_Slots c - Z.of_nat (size active);
     hq_RunningAttemptIDs := Some (merge_sort N.le (elements (dom active))) |}.

Definition checkAssignment (offer : HeartbeatRequest) (seen : gset TaskAttemptID) (a : TaskAssignment) : result unit :=
  fail_if (negb (bool_decide (pa_WorkerID a = hq_WorkerID offer)) || bool_decide (ta_ID (pa_Attempt a) ∈ seen))
    (invalidResponse "foreign or reused attempt %d" [FInt (Z.of_N (ta_ID (pa_Attempt a)))]);;
  Ok tt.

Definition validateAssignments (response : HeartbeatResponse) (offer : HeartbeatRequest) (seen : gset TaskAttemptID)
    : result unit :=
  _ ← map_err (fun err => invalidResponse "%w" [FWrap err]) (validateHeartbeatResponse response);
  let assignments := default [] (hp_Assignments response) in
  fail_if (hq_FreeSlots offer <? Z.of_nat (length assignments))
    (invalidResponse "assignments exceed local free slots" []);;
  check_all (fun _ => checkAssignment offer seen) 0 assignments.

(** [poll], given the client's answer and the cause of the context's end. *)
Definition poll (cause : option error) (offer : HeartbeatRequest) (answer : result HeartbeatResponse)
    (seen : gset TaskAttemptID) : result (list TaskAssignment) :=
  match cause with
  | Some err => Err err
  | None =>
      response ← map_err (fun err => Errorf "worker heartbeat: %w" [FWrap err]) answer;
      _ ← validateAssignments response offer seen;
      Ok (default [] (hp_Assignments response))
  end.

(** One iteration of [dispatch]. *)
Definition launch (s : runtimeState) (a : TaskAssignment) : runtimeState :=
  let id := ta_ID (pa_Attempt a) in
  mkRuntimeState (<[id := a]> (rs_active s)) ({[id]} ∪ rs_seen s) (rs_completed s) (<[id := GoExecuting a]> (rs_tasks s)).

Definition dispatch (s : runtimeState) (assignments : list TaskAssignment) : runtimeState :=
  foldl launch s assignments.

(** [register], given the client's answer. *)
Definition registration (c : RuntimeConfig) (answer : result RegisterWorkerResponse) : result unit :=
  response ← map_err (fun err => Errorf "register worker: %w" [FWrap err]) answer;
  let bad := invalidResponse "registration does not match worker" [] in
  _ ← map_err (fun _ => bad) (validateRegisterResponse response);
  fail_if (negb (bool_decide (rp_WorkerID response = rc_WorkerID c)) || negb (rp_TotalSlots response =? rc_Slots c)) bad;;
  Ok tt.

(** Where the loop of [Run] is: in [register], in its select, in the heartbeat of
    [poll], or returned. *)
Inductive runPhase :=
  | RunRegistering
  | RunSelecting
  | RunPolling (offer : HeartbeatRequest)
  | RunReturned (err : option error).

(** The loop, its state, and the cause of the end of [Run]'s context, if it has
    ended.  When [Run] has returned its context is ended and its goroutines go on. *)
Definition runState : Type := runPhase * runtimeState * option error.

Definition startRun : runState := (RunRegistering, newRuntimeState, None).

(** [stop(err)]: the first cause stays. *)
Definition stopped (err : error) (cause : option error) : option error :=
  match cause with Some err => Some err | None => Some err end.

(** What a step exchanges with the coordinator, and which attempts it starts. *)
Inductive action :=
  | ActQuiet
  | ActRegistered (slots : Z)
  | ActOffer (offer : HeartbeatRequest)
  | ActAnswer (answer : result HeartbeatResponse) (started : list TaskAssignment)
  | ActReport (r : report).

(** The runs of a task the runner allows. *)
Variable runs : TaskExecution -> result Reports.TaskOutput -> Prop.

Inductive run_step (c : RuntimeConfig) : runState -> action -> runState -> Prop :=
  (** The context ends: the caller's, or by the deferred [stop]. *)
  | run_canceled ph s err : run_step c (ph, s, None) ActQuiet (ph, s, Some err)
  | run_not_started s err : run_step c (RunRegistering, s, Some err) ActQuiet (RunReturned (Some err), s, Some err)
  (** [register] succeeds or fails. *)
  | run_registered s cause answer :
      registration c answer = Ok tt ->
      run_step c (RunRegistering, s, cause) (ActRegistered (rc_Slots c)) (RunSelecting, s, cause)
  | run_unregistered s cause answer err :
      registration c answer = Err err ->
      run_step c (RunRegistering, s, cause) ActQuiet (RunReturned (Some err), s, cause)
  (** The select of the loop. *)
  | run_done s err : run_step c (RunSelecting, s, Some err) ActQuiet (RunReturned (Some err), s, Some err)
  | run_completed s cause id l :
      rs_completed s = id :: l ->
      run_step c (RunSelecting, s, cause) ActQuiet
        (RunSelecting, with_completed l (with_active (delete id (rs_active s)) s), cause)
  | run_tick s cause :
      let s' := drainCompleted s in
      let offer := resourceOffer c (rs_active s') in
      run_step c (RunSelecting, s, cause) (ActOffer offer) (RunPolling offer, s', cause)
  (** The heartbeat is answered. *)
  | run_polled s cause offer answer l :
      poll cause offer (clientHeartbeat offer answer) (rs_seen s) = Ok l ->
      run_step c (RunPolling offer, s, cause) (ActAnswer answer l) (RunSelecting, dispatch s l, cause)
  | run_rejected s cause offer answer err :
      poll cause offer (clientHeartbeat offer answer) (rs_seen s) = Err err ->
      run_step c (RunPolling offer, s, cause) (ActAnswer answer []) (RunReturned (Some err), s, cause)
  (** A goroutine runs its task and reports; [ctx] is the error of the context
      when it looks at it. *)
  | run_executed ph s cause id a ran ctx ctx' :
      rs_tasks s !! id = Some (GoExecuting a) -> runs (Execution a) ran ->
      let r := taskReport a ran ctx ctx' in
      run_step c (ph, s, cause) (ActReport r) (ph, with_tasks (<[id := GoReporting a r]> (rs_tasks s)) s, cause)
  | run_reported ph s cause id a r answer :
      rs_tasks s !! id = Some (GoReporting a r) ->
      run_step c (ph, s, cause) ActQuiet
        (ph, with_tasks (<[id := GoCompleting a]> (rs_tasks s)) s,
         match reportAnswered answer with
         | Ok _ => cause
         | Err err => stopped (Errorf "report attempt %d: %w" [FInt (Z.of_N id); FWrap err]) cause
         end)
  (** It signals its completion, or ends with the context. *)
  | run_signalled ph s cause id a :
      rs_tasks s !! id = Some (GoCompleting a) -> Z.of_nat (length (rs_completed s)) < rc_Slots c ->
      run_step c (ph, s, cause) ActQuiet
        (ph, with_completed (rs_completed s ++ [id]) (with_tasks (delete id (rs_tasks s)) s), cause)
  | run_abandoned ph s err id a :
      rs_tasks s !! id = Some (GoCompleting a) ->
      run_step c (ph, s, Some err) ActQuiet (ph, with_tasks (delete id (rs_tasks s)) s, Some err).

End task.
