(* ===== verification/WorkerProofs.v ===== *)
(** * WorkerProofs: what a worker keeps

    The invariant of a run: active attempts within the slots, one goroutine at
    most for each, completions that still count as active. *)

From S2P Require Import Prelude Bytes Plan Stages Shuffle Reports Json JsonProofs Protocol ProtocolProofs Worker.
#[local] Open Scope Z_scope.

(** ** The invariant *)

Definition goroutine_of (g : goroutine) : TaskAssignment :=
  match g with GoExecuting a | GoReporting a _ | GoCompleting a => a end.

Definition mine (c : RuntimeConfig) (id : TaskAttemptID) (a : TaskAssignment) : Prop :=
  assignment_ok a /\ pa_WorkerID a = rc_WorkerID c /\ ta_ID (pa_Attempt a) = id.

Record state_ok (c : RuntimeConfig) (s : runtimeState) : Prop := {
  st_slots : Z.of_nat (size (rs_active s)) <= rc_Slots c;
  st_active id a : rs_active s !! id = Some a -> mine c id a /\ id ∈ rs_seen s;
  st_tasks id g : rs_tasks s !! id = Some g -> rs_active s !! id = Some (goroutine_of g);
  st_completed : NoDup (rs_completed s);
  st_signalled id : id ∈ rs_completed s -> is_Some (rs_active s !! id) /\ rs_tasks s !! id = None }.

(** While the worker polls, its offer is what it has. *)
Definition phase_ok (c : RuntimeConfig) (ph : runPhase) (s : runtimeState) : Prop :=
  match ph with RunPolling offer => offer = resourceOffer c (rs_active s) | _ => True end.

Definition run_ok (c : RuntimeConfig) (r : runState) : Prop :=
  let '(ph, s, _) := r in state_ok c s /\ phase_ok c ph s.

Lemma startRun_ok c : 0 <= rc_Slots c -> run_ok c startRun.
Proof.
  intros H. split; [|done]. split; cbn; [by rewrite map_size_empty|..]; try (intros ? ?; by rewrite lookup_empty).
  - constructor.
  - by intros id ?%not_elem_of_nil.
Qed.

(** ** Completions *)

Lemma foldl_delete_lookup (l : list TaskAttemptID) (m : gmap TaskAttemptID TaskAssignment) id :
  foldl (fun m id => delete id m) m l !! id = if decide (id ∈ l) then None else m !! id.
Proof.
  revert m. induction l as [|x l IH]; intros m; cbn; [by rewrite decide_False by apply not_elem_of_nil|].
  rewrite IH. destruct (decide (id ∈ l)).
  - by rewrite decide_True by by right.
  - destruct (decide (id = x)) as [->|Hne].
    + by rewrite decide_True, lookup_delete_eq by left.
    + rewrite decide_False, lookup_delete_ne by (done || by intros [?|?]%elem_of_cons). done.
Qed.

(** Removing completed attempts keeps the invariant. *)
Lemma completed_ok c s l m : state_ok c s -> NoDup l -> (forall id, id ∈ l -> id ∈ rs_completed s) ->
  m ⊆ rs_active s -> (forall id, id ∈ l -> m !! id = rs_active s !! id) ->
  (forall id, rs_tasks s !! id <> None -> m !! id = rs_active s !! id) ->
  state_ok c (with_completed l (with_active m s)).
Proof.
  intros [H1 H2 H3 H4 H5] Hl Hin Hsub Hkeep Htasks. split; cbn.
  - apply map_subseteq_size in Hsub. lia.
  - intros id a Ha. apply H2. by eapply lookup_weaken.
  - intros id g Hg. rewrite Htasks by congruence. by apply H3.
  - done.
  - intros id Hid. rewrite Hkeep by done. by apply H5, Hin.
Qed.

Lemma drain_ok c s : state_ok c s -> state_ok c (drainCompleted s).
Proof.
  intros H. apply completed_ok; [done|constructor|by intros ? ?%not_elem_of_nil| |by intros ? ?%not_elem_of_nil|].
  - apply map_subseteq_spec. intros id a. rewrite foldl_delete_lookup. by case_decide.
  - intros id Ht. rewrite foldl_delete_lookup, decide_False; [done|].
    intros [_ ?]%(st_signalled _ _ H). done.
Qed.

Lemma completed_one_ok c s id l : state_ok c s -> rs_completed s = id :: l ->
  state_ok c (with_completed l (with_active (delete id (rs_active s)) s)).
Proof.
  intros H E. pose proof (st_completed _ _ H) as Hd. rewrite E in Hd. apply NoDup_cons in Hd as [Hn Hd].
  apply completed_ok; [done|done|rewrite E; by right|apply delete_subseteq| |].
  - intros id' Hin. rewrite lookup_delete_ne; [done|]. by intros ->.
  - intros id' Ht. rewrite lookup_delete_ne; [done|]. intros ->.
    destruct (st_signalled _ _ H id') as [_ Hx]; [rewrite E; by left|done].
Qed.

(** ** Goroutines *)

Lemma goroutine_ok c s id g g' : state_ok c s -> rs_tasks s !! id = Some g -> goroutine_of g' = goroutine_of g ->
  state_ok c (with_tasks (<[id := g']> (rs_tasks s)) s).
Proof.
  intros [H1 H2 H3 H4 H5] Hg E. split; cbn; try done.
  - intros id' g2 [[<- <-]|[_ Hx]]%lookup_insert_Some; [rewrite E|]; by apply H3.
  - intros id' Hid. destruct (H5 _ Hid) as [Ha Ht]. split; [done|]. rewrite lookup_insert_ne; [done|]. intros ->. congruence.
Qed.

Lemma finished_ok c s id g l : state_ok c s -> rs_tasks s !! id = Some g ->
  l = rs_completed s \/ l = rs_completed s ++ [id] ->
  state_ok c (with_completed l (with_tasks (delete id (rs_tasks s)) s)).
Proof.
  intros [H1 H2 H3 H4 H5] Hg Hl. assert (Hn : id ∉ rs_completed s) by (intros [_ ?]%H5; congruence). split; cbn; try done.
  - intros id' g2 [_ Hx]%lookup_delete_Some. by apply H3.
  - destruct Hl as [->| ->]; [done|]. apply NoDup_app. split_and!; [done| |apply NoDup_singleton].
    by intros x Hx ->%list_elem_of_singleton.
  - intros id' Hid. assert (Hc : id' ∈ rs_completed s \/ id' = id).
    { destruct Hl as [->| ->]; [by left|]. apply elem_of_app in Hid as [?|?%list_elem_of_singleton]; auto. }
    destruct Hc as [[Ha Ht]%H5| ->].
    + split; [done|]. rewrite lookup_delete_None. by right.
    + split; [by eapply mk_is_Some, H3|apply lookup_delete_eq].
Qed.

(** A signal never waits: the channel has room for every active attempt. *)
Lemma signal_room c s id a : state_ok c s -> rs_tasks s !! id = Some (GoCompleting a) ->
  Z.of_nat (length (rs_completed s)) < rc_Slots c.
Proof.
  intros H Hg. pose proof (st_slots _ _ H).
  assert (Hle : (S (length (rs_completed s)) <= size (rs_active s))%nat); [|lia].
  rewrite <- size_dom. transitivity (size (list_to_set (id :: rs_completed s) : gset TaskAttemptID)).
  - rewrite size_list_to_set; [done|]. apply NoDup_cons. split; [|apply H].
    intros [_ Hx]%(st_signalled _ _ H). congruence.
  - apply subseteq_size. intros x. rewrite elem_of_list_to_set, elem_of_dom. intros [->|Hx]%elem_of_cons.
    + by eapply mk_is_Some, (st_tasks _ _ H).
    + by apply (st_signalled _ _ H).
Qed.

(** ** Dispatch *)

Lemma launch_ok c s a : state_ok c s -> assignment_ok a -> pa_WorkerID a = rc_WorkerID c ->
  ta_ID (pa_Attempt a) ∉ rs_seen s -> Z.of_nat (size (rs_active s)) < rc_Slots c -> state_ok c (launch s a).
Proof.
  intros [H1 H2 H3 H4 H5] Ha Hw Hn Hlt. set (id := ta_ID (pa_Attempt a)) in *.
  assert (Hna : rs_active s !! id = None).
  { destruct (rs_active s !! id) eqn:E; [|done]. apply H2 in E as [_ ?]. done. }
  split; cbn; fold id.
  - rewrite map_size_insert_None by done. lia.
  - intros id' a' [[<- <-]|[_ Hx]]%lookup_insert_Some; [split; [done|set_solver]|].
    destruct (H2 _ _ Hx). split; [done|set_solver].
  - intros id' g [[<- <-]|[Hne Hx]]%lookup_insert_Some; [by rewrite lookup_insert_eq|].
    rewrite lookup_insert_ne by done. by apply H3.
  - done.
  - intros id' Hid. destruct (H5 _ Hid) as [Hx Ht]. assert (id <> id') by (intros ->; rewrite Hna in Hx; by destruct Hx).
    rewrite !lookup_insert_ne by done. done.
Qed.

Lemma dispatch_ok c s l : state_ok c s ->
  Forall (fun a => assignment_ok a /\ pa_WorkerID a = rc_WorkerID c /\ ta_ID (pa_Attempt a) ∉ rs_seen s) l ->
  NoDup ((fun a => ta_ID (pa_Attempt a)) <$> l) ->
  Z.of_nat (size (rs_active s)) + Z.of_nat (length l) <= rc_Slots c ->
  state_ok c (dispatch s l).
Proof.
  revert s. induction l as [|a l IH]; intros s H Hf Hd Hlen; [done|]. unfold dispatch. cbn [foldl]. fold (dispatch (launch s a) l).
  apply Forall_cons in Hf as [(Ha & Hw & Hn) Hf]. rewrite fmap_cons, NoDup_cons in Hd. destruct Hd as [Hni Hd].
  cbn [length] in Hlen. apply IH; [apply launch_ok; try done; lia| |done|].
  - apply Forall_forall. intros b Hb. rewrite Forall_forall in Hf. destruct (Hf b Hb) as (Hb1 & Hb2 & Hb3).
    split_and!; try done. cbn. intros [E%elem_of_singleton|?]%elem_of_union; [|done].
    apply Hni, list_elem_of_fmap. by exists b.
  - cbn. assert (size (<[ta_ID (pa_Attempt a) := a]> (rs_active s)) <= S (size (rs_active s)))%nat.
    { destruct (rs_active s !! ta_ID (pa_Attempt a)) eqn:E; [rewrite map_size_insert_Some by eauto|rewrite map_size_insert_None by done]; lia. }
    lia.
Qed.

(** ** Polls *)

Lemma validateAssignments_spec response offer seen : validateAssignments response offer seen = Ok tt <->
  exists l, hp_Assignments response = Some l /\ batch_ok (hq_WorkerID offer) l /\
    Z.of_nat (length l) <= hq_FreeSlots offer /\ Forall (fun a => ta_ID (pa_Attempt a) ∉ seen) l.
Proof.
  unfold validateAssignments. rewrite bind_unit_Ok, map_err_Ok, fail_if_Ok, validateHeartbeatResponse_spec, check_all_Ok, Z.ltb_ge.
  unfold checkAssignment. setoid_rewrite fail_if_Ok. setoid_rewrite orb_false_iff. setoid_rewrite negb_false_iff.
  setoid_rewrite bool_decide_eq_true. setoid_rewrite bool_decide_eq_false. split.
  - intros ((worker & l & E & Hf & Hd1 & Hd2) & Hlen & Hall). rewrite E in *. cbn in Hlen, Hall. exists l.
    assert (Hx : forall a, a ∈ l -> pa_WorkerID a = hq_WorkerID offer /\ ta_ID (pa_Attempt a) ∉ seen).
    { intros a [j Hj]%list_elem_of_lookup_1. destruct (Hall j a Hj) as [[? ?] _]. done. }
    split_and!; try done; [|apply Forall_forall; intros a Ha; by apply Hx].
    split_and!; try done. rewrite Forall_forall in Hf |- *. intros a Ha. split; [by apply Hf|by apply Hx].
  - intros (l & E & (Hf & Hd1 & Hd2) & Hlen & Hs). rewrite E. cbn. split; [by exists (hq_WorkerID offer), l|]. split; [done|].
    intros j a Hj%list_elem_of_lookup_2. rewrite Forall_forall in Hf, Hs. split; [split; [by apply Hf|by apply Hs]|done].
Qed.

Lemma poll_spec cause offer answer seen l : poll cause offer answer seen = Ok l <->
  cause = None /\ exists response, answer = Ok response /\ hp_Assignments response = Some l /\
    batch_ok (hq_WorkerID offer) l /\ Z.of_nat (length l) <= hq_FreeSlots offer /\
    Forall (fun a => ta_ID (pa_Attempt a) ∉ seen) l.
Proof.
  unfold poll. destruct cause as [err|]; [split; [done|by intros []]|]. rewrite bind_Ok. setoid_rewrite map_err_Ok.
  setoid_rewrite bind_unit_Ok. setoid_rewrite validateAssignments_spec. split.
  - intros (response & -> & (l' & E & H) & [= <-]). split; [done|]. exists response. rewrite E. done.
  - intros (_ & response & -> & E & H). exists response. split; [done|]. rewrite E. split; [|done]. by exists l.
Qed.

Lemma resourceOffer_ids c active id :
  id ∈ default [] (hq_RunningAttemptIDs (resourceOffer c active)) <-> is_Some (active !! id).
Proof. cbn. by rewrite merge_sort_Permutation, elem_of_elements, elem_of_dom. Qed.

(** ** Every step *)

Section steps.
Variable Error : error -> string.
Variable runs : TaskExecution -> result Reports.TaskOutput -> Prop.

Lemma run_step_ok c r act r' : run_ok c r -> run_step Error runs c r act r' -> run_ok c r'.
Proof.
  intros H Hstep. destruct Hstep as [ph s err|s err|s cause answer Ha|s cause answer err Ha|s err|s cause id l Hc|s cause s' offer
    |s cause offer answer l Hp|s cause offer answer err Hp|ph s cause id a ran ctx ctx' Hg Hr rep|ph s cause id a rep answer Hg
    |ph s cause id a Hg Hlen|ph s err id a Hg]; destruct H as [H Hph].
  1-5: by split.
  - split; [by apply completed_one_ok|done].
  - split; [by apply drain_ok|done].
  - split; [|done]. cbn in Hph. subst offer. apply poll_spec in Hp as (_ & response & _ & _ & (Hf & Hd & _) & Hlen & Hs).
    apply dispatch_ok; try done.
    + rewrite Forall_forall in Hf, Hs |- *. intros a Ha. destruct (Hf a Ha) as [? ?]. split_and!; [done|done|by apply Hs].
    + cbn in Hlen. pose proof (st_slots _ _ H). lia.
  - by split.
  - split; [by eapply goroutine_ok|done].
  - split; [by eapply goroutine_ok|done].
  - split; [by eapply finished_ok; [|exact Hg|right]|done].
  - split; [|done]. pose proof (finished_ok c s id _ (rs_completed s) H Hg (or_introl eq_refl)) as H'. by destruct s.
Qed.

End steps.
