(* ===== verification/Cluster.v ===== *)
(** * Cluster: a coordinator and its workers

    The FIFO scheduler behind its HTTP handlers, any number of worker processes,
    and the messages between them.  Each step is one handler call, one step of a
    worker, or the loss of a message: a heartbeat is handled at most once and
    answered to the call that sent it, a report may be handled any number of
    times.  Messages keep their content (the text of a message decodes to it). *)

From S2P Require Import Prelude Bytes Plan Stages Shuffle Reports Fifo FifoProofs FifoInvariant FifoSystem FifoTheorems FifoReports.
From S2P Require Import Json JsonProofs Protocol ProtocolProofs Coordinator Growth Worker WorkerProofs.
#[local] Open Scope Z_scope.

(** ** The message of an assignment *)

(** The message that assigns task [t] of a set. *)
Definition message_of (run : string) (key : taskSetKey) (inputs : option InputSnapshot) (t : Task) (worker : WorkerID)
    (id : TaskAttemptID) : Protocol.TaskAssignment :=
  mkTaskAssignment inputs run (key_job key) (key_stage key) worker (mkAttempt id (t_ID t) (key_attempt key)) t.

(** ** The cluster *)

(** [cl_started] logs every start of a goroutine, with its process. *)
Record cluster := mkCluster {
  cl_system : system;
  cl_runs : gmap nat (RuntimeConfig * runState);
  cl_registered : gset nat;
  cl_offers : gmap nat HeartbeatRequest;
  cl_answers : gmap nat (result HeartbeatResponse);
  cl_reports : list report;
  cl_started : list (nat * TaskAttemptID) }.

Definition cl_fifo (cl : cluster) : scheduler := sys_fifo (cl_system cl).

Section cluster.
(** The text of an error, and the runs of tasks the executor allows. *)
Variable Error : error -> string.
Variable runs : TaskExecution -> result Reports.TaskOutput -> Prop.

(** The response of the coordinator, as [post] returns it. *)
Definition notABody : error := Errorf "%w: unknown field" [FWrap (Sentinel ErrInvalidMessage)].

Definition answered (re : response) : result HeartbeatResponse :=
  post "/v1/workers/heartbeat" (Ok tt)
    (Ok (mkHTTPResponse (re_Status re) (Some "application/json")
           (match re_Body re with BodyHeartbeat r => received validateHeartbeatResponse r | _ => Err notABody end)
           (match re_Body re with BodyError r => received validateErrorResponse r | _ => Err notABody end))).

Definition with_fifo (s : scheduler) (cl : cluster) : cluster :=
  mkCluster (mkSystem s (sys_loops (cl_system cl))) (cl_runs cl) (cl_registered cl) (cl_offers cl) (cl_answers cl)
    (cl_reports cl) (cl_started cl).

(** The effect of an action of process [p] on the messages. *)
Definition perform (p : nat) (act : action) (cl : cluster) : cluster :=
  match act with
  | ActQuiet | ActRegistered _ => cl
  | ActOffer offer =>
      mkCluster (cl_system cl) (cl_runs cl) (cl_registered cl) (<[p := offer]> (cl_offers cl))
        (delete p (cl_answers cl)) (cl_reports cl) (cl_started cl)
  | ActAnswer _ l =>
      mkCluster (cl_system cl) (cl_runs cl) (cl_registered cl) (cl_offers cl) (delete p (cl_answers cl)) (cl_reports cl)
        (cl_started cl ++ ((fun a => (p, ta_ID (pa_Attempt a))) <$> l))
  | ActReport r =>
      mkCluster (cl_system cl) (cl_runs cl) (cl_registered cl) (cl_offers cl) (cl_answers cl) (cl_reports cl ++ [r])
        (cl_started cl)
  end.

Definition with_run (p : nat) (c : RuntimeConfig) (r : runState) (cl : cluster) : cluster :=
  mkCluster (cl_system cl) (<[p := (c, r)]> (cl_runs cl)) (cl_registered cl) (cl_offers cl) (cl_answers cl)
    (cl_reports cl) (cl_started cl).

(** The action is possible: an answer was sent, or the call failed. *)
Definition possible (p : nat) (act : action) (cl : cluster) : Prop :=
  match act with
  | ActRegistered _ => p ∈ cl_registered cl
  | ActAnswer answer _ => cl_answers cl !! p = Some answer \/ exists err, answer = Err err
  | _ => True
  end.

Definition handleReport (s : scheduler) (ctxErr : taskSetKey -> option error) (r : report) : response * scheduler :=
  match r with
  | inl request => taskSuccess Error s ctxErr (received validateSuccessRequest request)
  | inr request => taskFailure Error s ctxErr (received validateFailureRequest request)
  end.

Inductive cluster_step (cl : cluster) : cluster -> Prop :=
  (** Everything else that happens to the scheduler: submissions of any task set and
      their loops, worker expiry, closing, and the calls of other clients. *)
  | step_driver y :
      fifo_step (cl_system cl) y ->
      cluster_step cl (mkCluster y (cl_runs cl) (cl_registered cl) (cl_offers cl) (cl_answers cl) (cl_reports cl) (cl_started cl))
  (** A worker process starts; worker IDs are unique. *)
  | step_start p c c0 registered :
      NewRuntime true c0 registered = Ok c -> cl_runs cl !! p = None ->
      (forall q c' r, cl_runs cl !! q = Some (c', r) -> rc_WorkerID c' <> rc_WorkerID c) ->
      cluster_step cl (with_run p c startRun cl)
  (** The coordinator handles the registration of a process. *)
  | step_registration p c r now re s :
      cl_runs cl !! p = Some (c, r) ->
      registerWorker Error (cl_fifo cl) now
        (received validateRegisterRequest (mkRegisterRequest (rc_WorkerID c) (rc_Slots c) None)) = (re, s) ->
      cluster_step cl
        (mkCluster (mkSystem s (sys_loops (cl_system cl))) (cl_runs cl)
           (if re_Status re =? StatusOK then {[p]} ∪ cl_registered cl else cl_registered cl)
           (cl_offers cl) (cl_answers cl) (cl_reports cl) (cl_started cl))
  (** It handles a heartbeat. *)
  | step_heartbeat p offer now ctxErr re s :
      cl_offers cl !! p = Some offer ->
      heartbeat Error (cl_fifo cl) now ctxErr (received validateHeartbeat offer) = (re, s) ->
      (nextAttempt (cl_fifo cl) + Z.to_N (hq_FreeSlots offer) < 2 ^ 64)%N ->
      cluster_step cl
        (mkCluster (mkSystem s (sys_loops (cl_system cl))) (cl_runs cl) (cl_registered cl) (delete p (cl_offers cl))
           (<[p := answered re]> (cl_answers cl)) (cl_reports cl) (cl_started cl))
  (** It handles a report. *)
  | step_report r ctxErr re s :
      r ∈ cl_reports cl -> handleReport (cl_fifo cl) ctxErr r = (re, s) ->
      cluster_step cl (with_fifo s cl)
  (** A heartbeat, or its answer, is lost. *)
  | step_lost p :
      cluster_step cl (mkCluster (cl_system cl) (cl_runs cl) (cl_registered cl) (delete p (cl_offers cl))
                         (delete p (cl_answers cl)) (cl_reports cl) (cl_started cl))
  (** A process moves. *)
  | step_worker p c r act r' :
      cl_runs cl !! p = Some (c, r) -> run_step Error runs c r act r' -> possible p act cl ->
      cluster_step cl (perform p act (with_run p c r' cl)).

Inductive cluster_reachable : cluster -> Prop :=
  | cluster_init options run s :
      NewFIFOTaskScheduler options run = Ok s -> lowerHex run 32 = true ->
      cluster_reachable (mkCluster (mkSystem s ∅) ∅ ∅ ∅ ∅ [] [])
  | cluster_next cl cl' : cluster_reachable cl -> cluster_step cl cl' -> cluster_reachable cl'.

End cluster.
