(* ===== verification/ClusterProofs.v ===== *)
(** * ClusterProofs: the invariant of the cluster

    What ties the scheduler's attempts to the workers' states and to the messages
    in flight. *)

From S2P Require Import Prelude Bytes Plan Stages Shuffle Reports Fifo FifoProofs FifoInvariant FifoSystem FifoTheorems FifoReports.
From S2P Require Import Json JsonProofs Protocol ProtocolProofs Coordinator Growth Worker WorkerProofs Cluster.
#[local] Open Scope Z_scope.

#[local] Arguments validateHeartbeatResponse : simpl never.
#[local] Arguments validateErrorResponse : simpl never.

(** ** The tasks of a set *)

(** The tasks of a set have distinct IDs: [prepareTasks] checks them. *)
Definition sets_distinct (s : scheduler) : Prop :=
  forall key set, sets s !! key = Some set -> NoDup (t_ID <$> (set_static set).2).

Lemma new_set_tasks input sequence : (set_static (new_set input sequence)).2 ≡ₚ tset_Tasks input.
Proof.
  unfold set_static. cbn. rewrite merge_sort_Permutation, <- list_fmap_compose.
  assert (E : (lt_task ∘ pending_task) <$> tset_Tasks input = tset_Tasks input); [|by rewrite E].
  induction (tset_Tasks input) as [|t l IH]; cbn; [done|]. by f_equal.
Qed.

Lemma fifo_step_distinct y y' : sys_inv y -> sets_distinct (sys_fifo y) -> fifo_step y y' -> sets_distinct (sys_fifo y').
Proof.
  intros H Hd Hstep key set' Hk. destruct (fifo_step_sets _ _ _ _ H Hstep Hk) as [(set & Hs & ->)|(input & Hok & ->)].
  - by eapply Hd.
  - rewrite new_set_tasks. apply Hok.
Qed.

(** The message of an attempt is that of its task. *)
Lemma assigned_message s id a : sched_inv s -> attempts s !! id = Some a ->
  exists set t, sets s !! aa_set a = Some set /\ fs_tasks set !! aa_task a = Some t /\
    assignmentMessage (aa_assignment a) =
    message_of (runID s) (set_static set).1.1 (set_static set).1.2 (lt_task t) (attempt_worker a) id.
Proof.
  intros H Ha. destruct (inv_attempts _ H _ _ Ha) as (_ & (set & t & Hs & Ht & (E1 & E2 & E3 & E4 & E5 & E6) & _) & _).
  exists set, t. split; [done|]. split; [done|]. unfold assignmentMessage, message_of, attempt_worker, set_static. cbn.
  by rewrite E1, E2, E3, E4, E5, E6.
Qed.

(** ** What an offer sends *)

Lemma offered_key s id a : sched_inv s -> attempts s !! id = Some a ->
  (logicalKey (assignmentMessage (aa_assignment a))).1 = (key_job (aa_set a), key_stage (aa_set a), key_attempt (aa_set a)).
Proof.
  intros H Ha. destruct (assigned_message s id a H Ha) as (set & t & Hs & Ht & ->).
  destruct (inv_sets _ H _ _ Hs) as (Ek & _). cbn. by rewrite Ek.
Qed.

(** Two unfinished attempts are of different logical tasks. *)
Lemma live_keys s id1 a1 id2 a2 : sched_inv s -> sets_distinct s ->
  attempts s !! id1 = Some a1 -> attempts s !! id2 = Some a2 -> aa_terminal a1 = false -> aa_terminal a2 = false ->
  logicalKey (assignmentMessage (aa_assignment a1)) = logicalKey (assignmentMessage (aa_assignment a2)) -> id1 = id2.
Proof.
  intros H Hx H1 H2 L1 L2 E. pose proof (offered_key _ _ _ H H1) as K1. pose proof (offered_key _ _ _ H H2) as K2.
  rewrite E, K2 in K1.
  assert (Eset : aa_set a1 = aa_set a2) by (revert K1; destruct (aa_set a1), (aa_set a2); cbn; congruence).
  destruct (assigned_message _ _ _ H H1) as (set & t1 & Hs1 & Ht1 & M1).
  destruct (assigned_message _ _ _ H H2) as (set2 & t2 & Hs2 & Ht2 & M2).
  rewrite Eset, Hs2 in Hs1. injection Hs1 as ->. rewrite M1, M2 in E. unfold logicalKey, message_of in E. cbn in E.
  assert (Eid : t_ID (lt_task t1) = t_ID (lt_task t2)) by congruence.
  pose proof (Hx _ _ Hs2) as Hd. unfold set_static in Hd. cbn in Hd. rewrite <- list_fmap_compose in Hd.
  assert (Etask : aa_task a1 = aa_task a2).
  { eapply (NoDup_lookup _ _ _ (t_ID (lt_task t1)) Hd); rewrite list_lookup_fmap; [by rewrite Ht1|]. rewrite Ht2. cbn. by rewrite Eid. }
  by eapply (live_attempt_unique s id1 a1 id2 a2).
Qed.

Lemma offered_batch s id free running now ctxErr s' asg :
  sched_inv s -> sets_distinct s -> (nextAttempt s + Z.to_N free < 2 ^ 64)%N ->
  OfferResources s id free running now ctxErr = Ok (s', asg) ->
  (Forall assignment_ok (assignmentMessage <$> asg) -> batch_ok id (assignmentMessage <$> asg)) /\
  Z.of_nat (length asg) <= free /\
  forall a, a ∈ assignmentMessage <$> asg ->
    assigned s' (ta_ID (pa_Attempt a)) a /\ attempts s !! ta_ID (pa_Attempt a) = None.
Proof.
  intros H Hx Hnext E. destruct (OfferResources_keeps _ _ _ _ _ _ _ _ H E Hnext) as [H' M].
  assert (Hx' : sets_distinct s').
  { intros key set' Hk. destruct (moves_static _ _ _ _ M Hk) as (set & Hs & ->). by apply (Hx key). }
  pose proof E as (w & _ & _ & Hw & _)%OfferResources_spec; [|done].
  destruct (OfferResources_assigns _ _ _ _ _ _ _ _ _ H Hnext E Hw) as (_ & Hlen & Hsorted & Hall).
  assert (Hmsg : forall a, a ∈ asg -> exists b, attempts s' !! ta_ID (at_Identity (asg_Attempt a)) = Some b /\
    aa_assignment b = a /\ aa_terminal b = false /\ attempt_worker b = id).
  { intros a Ha. destruct (Hall a Ha) as (Hwid & _ & _ & _ & i & Hb). by eexists. }
  assert (Hids : (fun a => ta_ID (pa_Attempt a)) <$> (assignmentMessage <$> asg) =
                 (fun a => ta_ID (at_Identity (asg_Attempt a))) <$> asg) by by rewrite <- list_fmap_compose.
  assert (Hnd : NoDup ((fun a => ta_ID (at_Identity (asg_Attempt a))) <$> asg)).
  { clear -Hsorted. induction Hsorted as [|x l _ IH Hf]; constructor; [|done]. intros Hin.
    rewrite Forall_forall in Hf. specialize (Hf _ Hin). lia. }
  split_and!; [intros Hok; split_and!|done|].
  - rewrite Forall_fmap, Forall_forall in Hok |- *. intros a Ha. split; [by apply Hok|].
    destruct (Hmsg a Ha) as (b & Hb & <- & _ & Hwb). done.
  - by rewrite Hids.
  - rewrite <- list_fmap_compose. apply NoDup_fmap_2_strong; [|by eapply NoDup_fmap_1].
    intros a1 a2 Ha1 Ha2 Ek. destruct (Hmsg a1 Ha1) as (b1 & Hb1 & E1 & L1 & _), (Hmsg a2 Ha2) as (b2 & Hb2 & E2 & L2 & _).
    assert (Eid : ta_ID (at_Identity (asg_Attempt a1)) = ta_ID (at_Identity (asg_Attempt a2))).
    { eapply (live_keys s' _ b1 _ b2); try done. by rewrite E1, E2. }
    rewrite Eid, Hb2 in Hb1. congruence.
  - intros m (a & -> & Ha)%list_elem_of_fmap. destruct (Hmsg a Ha) as (b & Hb & <- & _).
    split; [by exists b|]. by destruct (Hall _ Ha) as (_ & _ & _ & ? & _).
Qed.

(** ** The invariant *)

(** The answer to an outstanding heartbeat: assignments of unknown attempts. *)
Definition answer_good (s : scheduler) (c : RuntimeConfig) (offer : HeartbeatRequest) (st : runtimeState)
    (answer : result HeartbeatResponse) : Prop :=
  match answer with
  | Err _ => True
  | Ok response =>
      exists l, hp_Assignments response = Some l /\ batch_ok (rc_WorkerID c) l /\
        Z.of_nat (length l) <= hq_FreeSlots offer /\
        forall a, a ∈ l -> assigned s (ta_ID (pa_Attempt a)) a /\ ta_ID (pa_Attempt a) ∉ rs_seen st
  end.

(** A success that was reported is one of an assigned attempt, and acceptable. *)
Definition success_good (s : scheduler) (r : TaskSuccessRequest) : Prop :=
  validateSuccessRequest r = Ok tt /\
  exists m, assigned s (ta_ID (sq_Attempt r)) m /\ sq_JobID r = pa_JobID m /\ sq_StageID r = pa_StageID m /\
    sq_Attempt r = pa_Attempt m /\ sq_PartitionID r = t_PartitionID (pa_Task m) /\ sq_WorkerID r = pa_WorkerID m /\
    output_ok (ts_Output (successOf r)) (Execution m).

Definition reports_good (s : scheduler) (l : list report) : Prop := forall r, inl r ∈ l -> success_good s r.

(** What is known of the attempts of a worker. *)
Definition attempts_known (s : scheduler) (c : RuntimeConfig) (st : runtimeState) : Prop :=
  (forall id, id ∈ rs_seen st -> exists m, assigned s id m /\ pa_WorkerID m = rc_WorkerID c) /\
  (forall id a, rs_active st !! id = Some a -> assigned s id a).

Definition registered_phase (ph : runPhase) : bool :=
  match ph with RunSelecting | RunPolling _ => true | _ => false end.

Record run_inv (cl : cluster) (p : nat) (c : RuntimeConfig) (r : runState) : Prop := {
  ri_ok : run_ok c r;
  ri_config : nonblank (rc_WorkerID c) /\ 0 < rc_Slots c;
  ri_phase : registered_phase r.1.1 = true -> p ∈ cl_registered cl;
  ri_known : attempts_known (cl_fifo cl) c r.1.2;
  ri_polling offer : r.1.1 = RunPolling offer ->
    (forall offer', cl_offers cl !! p = Some offer' -> offer' = offer /\ cl_answers cl !! p = None) /\
    (forall answer, cl_answers cl !! p = Some answer -> answer_good (cl_fifo cl) c offer r.1.2 answer);
  ri_started id : (p, id) ∈ cl_started cl <-> id ∈ rs_seen r.1.2 }.

Record cluster_inv (cl : cluster) : Prop := {
  ci_fifo : sys_inv (cl_system cl);
  ci_sets : sets_distinct (cl_fifo cl);
  ci_run p c r : cl_runs cl !! p = Some (c, r) -> run_inv cl p c r;
  ci_unique p q c c' r r' : cl_runs cl !! p = Some (c, r) -> cl_runs cl !! q = Some (c', r') ->
    rc_WorkerID c = rc_WorkerID c' -> p = q;
  ci_registered p : p ∈ cl_registered cl ->
    exists c r, cl_runs cl !! p = Some (c, r) /\ capacity (cl_fifo cl) (rc_WorkerID c) (rc_Slots c);
  ci_started p id : (p, id) ∈ cl_started cl -> is_Some (cl_runs cl !! p);
  ci_once : NoDup ((cl_started cl).*2);
  ci_reports : reports_good (cl_fifo cl) (cl_reports cl) }.

(** *** The scheduler moves *)

Lemma answer_good_extends s s' c offer st answer : extends s s' ->
  answer_good s c offer st answer -> answer_good s' c offer st answer.
Proof.
  intros X. destruct answer as [response|err]; [|done]. intros (l & E & Hb & Hlen & Ha). exists l. split_and!; try done.
  intros a Hin. destruct (Ha a Hin) as [? ?]. split; [by eapply ex_assigned|done].
Qed.

Lemma attempts_known_extends s s' c st : extends s s' -> attempts_known s c st -> attempts_known s' c st.
Proof.
  intros X [H1 H2]. split.
  - intros id Hid. destruct (H1 id Hid) as (m & Hm & Hw). exists m. split; [by eapply ex_assigned|done].
  - intros id a Ha. by eapply ex_assigned, H2.
Qed.

Lemma reports_good_extends s s' l : extends s s' -> reports_good s l -> reports_good s' l.
Proof.
  intros X H r Hr. destruct (H r Hr) as (Hv & m & Hm & Hrest). split; [done|]. exists m. split; [by eapply ex_assigned|done].
Qed.

(** Nothing but the scheduler and the registrations change. *)
Lemma run_inv_fifo cl cl' p c r : extends (cl_fifo cl) (cl_fifo cl') -> cl_registered cl ⊆ cl_registered cl' ->
  cl_offers cl' !! p = cl_offers cl !! p -> cl_answers cl' !! p = cl_answers cl !! p -> cl_started cl' = cl_started cl ->
  run_inv cl p c r -> run_inv cl' p c r.
Proof.
  intros X Hreg Eo Ea Es [H1 H2 H3 H4 H5 H6]. split; try done.
  - intros Hp. by apply Hreg, H3.
  - by eapply attempts_known_extends.
  - intros offer Hph. destruct (H5 offer Hph) as [Ho Ha]. rewrite Eo, Ea. split; [done|].
    intros answer Hans. eapply answer_good_extends; [done|by apply Ha].
  - by rewrite Es.
Qed.

Lemma inv_fifo cl y : cluster_inv cl -> sys_inv y -> sets_distinct (sys_fifo y) -> extends (cl_fifo cl) (sys_fifo y) ->
  cluster_inv (mkCluster y (cl_runs cl) (cl_registered cl) (cl_offers cl) (cl_answers cl) (cl_reports cl) (cl_started cl)).
Proof.
  intros [H1 H2 H3 H4 H5 H6 H7 H8] Hy Hx X. split; try done.
  - intros p c r Hr. by eapply (run_inv_fifo cl), H3.
  - intros p Hp. destruct (H5 p Hp) as (c & r & Hr & Hc). exists c, r. split; [done|]. by eapply ex_capacity.
  - by eapply reports_good_extends.
Qed.

Lemma fifo_step_good y y' : sys_inv y -> sets_distinct (sys_fifo y) -> fifo_step y y' ->
  sys_inv y' /\ sets_distinct (sys_fifo y') /\ extends (sys_fifo y) (sys_fifo y').
Proof.
  intros H Hx Hstep. split; [by eapply fifo_step_inv|]. split; [by eapply fifo_step_distinct|by apply fifo_step_extends].
Qed.

(** A handler of the coordinator. *)
Lemma handler_step_good y s : sys_inv y -> sets_distinct (sys_fifo y) -> fifo_step y (mkSystem s (sys_loops y)) ->
  sys_inv (mkSystem s (sys_loops y)) /\ sets_distinct s /\ extends (sys_fifo y) s.
Proof. intros H Hx Hstep. by apply (fifo_step_good y (mkSystem s (sys_loops y))). Qed.

(** *** The handlers *)

Section handlers.
Variable Error : error -> string.

Lemma writeSchedulerError_status err : re_Status (writeSchedulerError Error err) <> StatusOK.
Proof. unfold writeSchedulerError. by repeat case_match. Qed.

Lemma decodeRequest_cases {T} (decoded : result T) :
  match decodeRequest Error decoded with
  | inl m => decoded = Ok m
  | inr r => re_Status r <> StatusOK
  end.
Proof. destruct decoded as [m|err]; cbn; [done|]. by destruct (errors_Is err _). Qed.

Lemma registerWorker_cases s now decoded re s' : registerWorker Error s now decoded = (re, s') ->
  (s' = s /\ re_Status re <> StatusOK) \/
  exists request, decoded = Ok request /\ RegisterWorker s (rq_WorkerID request) (rq_TotalSlots request) now = Ok s'.
Proof.
  unfold registerWorker. pose proof (decodeRequest_cases decoded) as Hd.
  destruct (decodeRequest Error decoded) as [request|r]; [|intros [= <- <-]; by left].
  destruct (RegisterWorker s _ _ now) as [s2|err] eqn:E; intros [= <- <-].
  - right. by exists request.
  - left. split; [done|]. apply writeSchedulerError_status.
Qed.

Definition batch_response (asg : list Fifo.TaskAssignment) : response :=
  writeJSON StatusOK (BodyHeartbeat (mkHeartbeatResponse (Some (assignmentMessage <$> asg)))).

Lemma heartbeat_cases s now ctxErr decoded re s' : heartbeat Error s now ctxErr decoded = (re, s') ->
  (s' = s /\ re_Status re <> StatusOK) \/
  exists request asg, decoded = Ok request /\ re = batch_response asg /\
    OfferResources s (hq_WorkerID request) (hq_FreeSlots request) (default [] (hq_RunningAttemptIDs request)) now ctxErr =
    Ok (s', asg).
Proof.
  unfold heartbeat. pose proof (decodeRequest_cases decoded) as Hd.
  destruct (decodeRequest Error decoded) as [request|r]; [|intros [= <- <-]; by left].
  destruct (Worker s _) as [worker|err]; [|intros [= <- <-]; left; split; [done|apply writeSchedulerError_status]].
  destruct (ValidateCapacity request _); [|intros [= <- <-]; by left].
  destruct (OfferResources _ _ _ _ _ _) as [[s2 asg]|err] eqn:E; intros [= <- <-].
  - right. by exists request, asg.
  - left. split; [done|apply writeSchedulerError_status].
Qed.

Lemma handleReport_cases s ctxErr r re s' : handleReport Error s ctxErr r = (re, s') ->
  s' = s \/ (exists request, ReportSuccess s request ctxErr = Ok s') \/ exists request, ReportFailure s request ctxErr = Ok s'.
Proof.
  destruct r as [request|request]; cbn; unfold taskSuccess, taskFailure.
  - destruct (decodeRequest Error _) as [m|r]; [|intros [= _ <-]; by left].
    destruct (ReportSuccess s _ ctxErr) eqn:E; intros [= _ <-]; [right; left; by eexists|by left].
  - destruct (decodeRequest Error _) as [m|r]; [|intros [= _ <-]; by left].
    destruct (ReportFailure s _ ctxErr) eqn:E; intros [= _ <-]; [right; right; by eexists|by left].
Qed.

(** What a client gets from the heartbeat handler. *)
Lemma answered_batch asg worker : batch_ok worker (assignmentMessage <$> asg) ->
  answered (batch_response asg) = Ok (mkHeartbeatResponse (Some (assignmentMessage <$> asg))).
Proof.
  intros H. unfold answered, batch_response, post, received. cbn.
  rewrite (proj2 (validateHeartbeatResponse_spec _)); [done|]. by exists worker, (assignmentMessage <$> asg).
Qed.

(** A batch that does not validate is a response the client refuses. *)
Lemma answered_invalid asg err : validateHeartbeatResponse (mkHeartbeatResponse (Some (assignmentMessage <$> asg))) = Err err ->
  exists err', answered (batch_response asg) = Err (invalidResponse "%w" [FWrap err']).
Proof. intros H. unfold answered, batch_response, post, received. cbn. rewrite H. by eexists. Qed.

Lemma answered_error re : re_Status re <> StatusOK -> exists err, answered re = Err err.
Proof.
  intros H. unfold answered, post. cbn. apply Z.eqb_neq in H. unfold StatusOK in H. rewrite H. cbn.
  destruct (_ || _); [by eexists|]. destruct (re_Body re); cbn; try by eexists. destruct (received _ _); cbn; by eexists.
Qed.

Lemma same_fifo cl : with_fifo (cl_fifo cl) cl = cl.
Proof. by destruct cl as [[] ? ? ? ? ? ?]. Qed.

Lemma registration_step cl p c r now re s : cluster_inv cl -> cl_runs cl !! p = Some (c, r) ->
  registerWorker Error (cl_fifo cl) now
    (received validateRegisterRequest (mkRegisterRequest (rc_WorkerID c) (rc_Slots c) None)) = (re, s) ->
  cluster_inv (mkCluster (mkSystem s (sys_loops (cl_system cl))) (cl_runs cl)
    (if re_Status re =? StatusOK then {[p]} ∪ cl_registered cl else cl_registered cl)
    (cl_offers cl) (cl_answers cl) (cl_reports cl) (cl_started cl)).
Proof.
  intros H Hp Hr. apply registerWorker_cases in Hr as [[-> Hs]|(request & Hd & Hr)].
  - apply Z.eqb_neq in Hs. rewrite Hs. pose proof (same_fifo cl) as E. unfold with_fifo in E. by rewrite E.
  - assert (request = mkRegisterRequest (rc_WorkerID c) (rc_Slots c) None) as ->.
    { unfold received in Hd. by destruct (validateRegisterRequest _); [injection Hd as <-|]. }
    cbn in Hr. pose proof (RegisterWorker_extends _ _ _ _ _ Hr) as [_ Hcap].
    apply RegisterWorker_keeps in Hr as HM; [|apply H]. destruct HM as [_ M].
    destruct (handler_step_good (cl_system cl) s) as (Hy & Hx & X); [apply H..|by eapply step_register|].
    pose proof (inv_fifo cl (mkSystem s (sys_loops (cl_system cl))) H Hy Hx X) as [I1 I2 I3 I4 I5 I6 I7 I8].
    destruct (re_Status re =? StatusOK); [|by split]. split; try done.
    + intros q c' r' Hq. apply I3 in Hq. by eapply run_inv_fifo; [| | | | |exact Hq]; try done; cbn; set_solver.
    + intros q [->%elem_of_singleton|Hq]%elem_of_union; [by exists c, r|by apply I5].
Qed.

Lemma report_step cl ctxErr r re s : cluster_inv cl -> handleReport Error (cl_fifo cl) ctxErr r = (re, s) ->
  cluster_inv (with_fifo s cl).
Proof.
  intros H Hr. apply handleReport_cases in Hr as [->|[[request Hr]|[request Hr]]].
  - by rewrite same_fifo.
  - pose proof (ReportSuccess_keeps _ _ _ _ (si_fifo _ (ci_fifo _ H)) Hr) as [_ M].
    destruct (handler_step_good (cl_system cl) s) as (Hy & Hx & X); [apply H..|by eapply step_success|]. by apply inv_fifo.
  - pose proof (ReportFailure_keeps _ _ _ _ (si_fifo _ (ci_fifo _ H)) Hr) as [_ M].
    destruct (handler_step_good (cl_system cl) s) as (Hy & Hx & X); [apply H..|by eapply step_failure|]. by apply inv_fifo.
Qed.

(** The answer to the outstanding heartbeat of a polling process. *)
Lemma heartbeat_answer cl p c offer st cause now ctxErr re s :
  cluster_inv cl -> cl_runs cl !! p = Some (c, (RunPolling offer, st, cause)) ->
  (nextAttempt (cl_fifo cl) + Z.to_N (hq_FreeSlots offer) < 2 ^ 64)%N ->
  heartbeat Error (cl_fifo cl) now ctxErr (received validateHeartbeat offer) = (re, s) ->
  answer_good s c offer st (answered re).
Proof.
  intros H Hp Hnext Hh. destruct (ci_run _ H _ _ _ Hp) as [[_ Hoffer] [Hid _] _ [Hknown _] _ _]. cbn in Hoffer.
  apply heartbeat_cases in Hh as [[_ Hs]|(request & asg & Hd & -> & Ho)].
  { destruct (answered_error re Hs) as [err ->]. done. }
  assert (request = offer) as ->.
  { unfold received in Hd. by destruct (validateHeartbeat _); [injection Hd as <-|]. }
  assert (Ew : hq_WorkerID offer = rc_WorkerID c) by by rewrite Hoffer. rewrite Ew in Ho.
  destruct (offered_batch _ _ _ _ _ _ _ _ (si_fifo _ (ci_fifo _ H)) (ci_sets _ H) Hnext Ho) as (Hb & Hlen & Hall).
  destruct (validateHeartbeatResponse (mkHeartbeatResponse (Some (assignmentMessage <$> asg)))) as [[]|err] eqn:Hv;
    [|by destruct (answered_invalid _ _ Hv) as [err' ->]].
  apply validateHeartbeatResponse_spec in Hv as (worker & l & [= <-] & Hf & _).
  specialize (Hb ltac:(eapply Forall_impl; [exact Hf|by intros a []])). rewrite (answered_batch _ _ Hb). exists (assignmentMessage <$> asg). split; [done|]. split; [done|].
  split; [by rewrite length_fmap|]. intros a Ha. destruct (Hall a Ha) as [Has Hn]. split; [done|].
  intros Hseen. destruct (Hknown _ Hseen) as (m & (b & Hb2 & _) & _). unfold cl_fifo in *. congruence.
Qed.

Lemma heartbeat_step cl p offer now ctxErr re s : cluster_inv cl -> cl_offers cl !! p = Some offer ->
  heartbeat Error (cl_fifo cl) now ctxErr (received validateHeartbeat offer) = (re, s) ->
  (nextAttempt (cl_fifo cl) + Z.to_N (hq_FreeSlots offer) < 2 ^ 64)%N ->
  cluster_inv (mkCluster (mkSystem s (sys_loops (cl_system cl))) (cl_runs cl) (cl_registered cl) (delete p (cl_offers cl))
    (<[p := answered re]> (cl_answers cl)) (cl_reports cl) (cl_started cl)).
Proof.
  intros H Hp Hh Hnext.
  assert (Hgood : sys_inv (mkSystem s (sys_loops (cl_system cl))) /\ sets_distinct s /\ extends (cl_fifo cl) s).
  { pose proof Hh as Hc. apply heartbeat_cases in Hc as [[-> _]|(request & asg & Hd & _ & Ho)].
    - pose proof (ci_fifo _ H) as Hf. unfold cl_fifo. destruct (cl_system cl) eqn:E. cbn in *. split; [done|].
      pose proof (ci_sets _ H) as Hx. unfold cl_fifo in Hx. by rewrite E in Hx.
    - assert (request = offer) as -> by (unfold received in Hd; by destruct (validateHeartbeat _); [injection Hd as <-|]).
      destruct (OfferResources_keeps _ _ _ _ _ _ _ _ (si_fifo _ (ci_fifo _ H)) Ho Hnext) as [_ M].
      apply (handler_step_good (cl_system cl) s); [apply H|apply H|by eapply step_offer]. }
  destruct Hgood as (Hy & Hx & X). pose proof (inv_fifo cl _ H Hy Hx X) as [I1 I2 I3 I4 I5 I6 I7 I8]. split; try done.
  intros q c r Hq. cbn in Hq. destruct (decide (q = p)) as [->|Hne].
  - pose proof (I3 _ _ _ Hq) as [R1 R2 R3 R4 R5 R6]. split; try done. intros offer' Hph. cbn.
    rewrite lookup_delete_eq, lookup_insert_eq. split; [done|]. intros answer [= <-].
    destruct r as [[ph st] cause]. cbn in Hph |- *. subst ph.
    pose proof (ri_polling _ _ _ _ (ci_run _ H _ _ _ Hq) offer' eq_refl) as [Ho _]. destruct (Ho _ Hp) as [-> _].
    by eapply heartbeat_answer.
  - eapply run_inv_fifo; [| | | | |exact (I3 _ _ _ Hq)]; cbn; try done; [by rewrite lookup_delete_ne|by rewrite lookup_insert_ne].
Qed.

End handlers.

(** *** Losses and starts *)

Lemma lost_step cl p : cluster_inv cl ->
  cluster_inv (mkCluster (cl_system cl) (cl_runs cl) (cl_registered cl) (delete p (cl_offers cl))
    (delete p (cl_answers cl)) (cl_reports cl) (cl_started cl)).
Proof.
  intros [H1 H2 H3 H4 H5 H6 H7 H8]. split; try done. intros q c r Hq. cbn in Hq.
  destruct (H3 _ _ _ Hq) as [R1 R2 R3 R4 R5 R6]. split; try done. intros offer Hph. destruct (R5 offer Hph) as [Ho Ha]. cbn. split.
  - intros offer' [_ Hx]%lookup_delete_Some. destruct (Ho _ Hx). split; [done|]. rewrite lookup_delete_None. by right.
  - intros answer [_ Hx]%lookup_delete_Some. by apply Ha.
Qed.

Lemma start_step cl p c c0 registered : cluster_inv cl -> NewRuntime true c0 registered = Ok c -> cl_runs cl !! p = None ->
  (forall q c' r, cl_runs cl !! q = Some (c', r) -> rc_WorkerID c' <> rc_WorkerID c) ->
  cluster_inv (with_run p c startRun cl).
Proof.
  intros H Hc Hn Hu. pose proof H as [H1 H2 H3 H4 H5 H6 H7 H8].
  assert (Hcfg : nonblank (rc_WorkerID c) /\ 0 < rc_Slots c).
  { unfold NewRuntime, validateRegisterRequest, validateWorker in Hc. cbn in Hc. unfold nonblank.
    destruct (blankString (rc_WorkerID c0)) eqn:Eb; [done|]. cbn in Hc.
    destruct (Z.leb_spec (rc_Slots c0) 0); [done|]. cbn in Hc. destruct (_ || _); [done|].
    destruct registered; [|done]. cbn in Hc. injection Hc as <-. done. }
  split; try done; cbn.
  - intros q c' r [[<- [= <- <-]]|[_ Hq]]%lookup_insert_Some.
    + split; [apply startRun_ok; lia|done|done| |done|].
      * split; [intros id ?%elem_of_empty; done|intros id a; cbn; by rewrite lookup_empty].
      * intros id. cbn. split; [intros Hin%H6; rewrite Hn in Hin; by destruct Hin|intros ?%elem_of_empty; done].
    + by eapply run_inv_fifo; [| | | | |exact (H3 _ _ _ Hq)].
  - intros q1 q2 c1 c2 r1 r2 [[<- [= <- <-]]|[_ Hq1]]%lookup_insert_Some [[<- [= <- <-]]|[_ Hq2]]%lookup_insert_Some E; try done.
    + by destruct (Hu _ _ _ Hq2).
    + by destruct (Hu _ _ _ Hq1).
    + by eapply H4.
  - intros q Hq. destruct (H5 q Hq) as (c' & r & Hr & Hcap). exists c', r. split; [|done].
    rewrite lookup_insert_ne; [done|]. intros ->. congruence.
  - intros q id Hq. apply lookup_insert_is_Some'. right. by eapply H6.
Qed.

(** *** Reports of successes *)

Lemma encodeOutput_spec action r output : encodeOutput action r = Ok output ->
  validateTaskOutput output = Ok tt /\ po_ShuffleOutput output = None /\
  match action with
  | ActionCount => po_Records output = None /\ po_Count output = to_Count r
  | ActionCollect => is_Some (po_Records output) /\ po_Count output = 0
  | ActionOther _ => False
  end.
Proof.
  unfold encodeOutput. intros (o & Ho & (Hv & [= <-])%bind_unit_Ok)%bind_Ok. split; [done|]. destruct action; [| |done].
  - apply bind_Ok in Ho as (l & _ & [= <-]). done.
  - by injection Ho as <-.
Qed.

Lemma taskOutput_spec a ran ctx output : taskOutput a ran ctx = Ok output ->
  exists r, ran = Ok r /\ output_ok r (Execution a) /\ validateTaskOutput output = Ok tt /\
    po_ShuffleOutput output = to_ShuffleOutput r /\
    output_ok (mkOutput (map ARaw <$> po_Records output) (po_Count output) (po_ShuffleOutput output)) (Execution a).
Proof.
  unfold taskOutput. intros (r & -> & (Hv%ValidateFor_spec & (o & Ho & Hc)%bind_Ok)%bind_unit_Ok)%bind_Ok.
  destruct ctx; [done|]. injection Hc as <-. exists r. split; [done|]. split; [done|].
  unfold output_ok in Hv |- *. cbn [te_Task Execution] in Hv |- *. destruct (t_StageKind (pa_Task a)) eqn:Ek; [| |done].
  - rewrite bool_decide_eq_true_2 in Ho by done. injection Ho as <-. destruct Hv as (w & m & Hw & Hf & -> & Hm & Hmatch).
    cbn. unfold validateTaskOutput. cbn. rewrite validateMapOutput_spec. split_and!; try done. exists w, m. done.
  - rewrite bool_decide_eq_false_2 in Ho by done. destruct Hv as (f & Hf & Hs & Hk). rewrite Hf in Ho.
    apply encodeOutput_spec in Ho as (Hv & Es & Ho). rewrite Es, Hs. split; [done|]. split; [done|]. exists f. cbn.
    split; [done|]. split; [done|]. destruct (act_Kind f).
    + destruct Ho as [[l ->] ->]. done.
    + destruct Ho as [-> ->]. split; [done|]. by destruct Hk.
    + done.
Qed.

Lemma success_report Error a ran ctx ctx' request s : assignment_ok a -> assigned s (ta_ID (pa_Attempt a)) a ->
  taskReport Error a ran ctx ctx' = inl request -> success_good s request.
Proof.
  intros Ha Has. unfold taskReport. destruct (taskOutput a ran ctx) as [output|err] eqn:E; cycle 1.
  { destruct (ClassifyFailure ctx' err) as [kind input]. by destruct (_ && _). }
  intros [= <-]. apply taskOutput_spec in E as (r & -> & Hr & Hv & Es & Ho). split; [|by exists a].
  destruct Ha as [(_ & Hw & Htask) Hstage Hpart _]. cbn in Htask.
  unfold validateSuccessRequest, validateReportIDs, validateWorker. cbn. unfold nonblank in Hw. cbn in Hw. rewrite Hw. cbn.
  destruct (Z.ltb_spec (t_PartitionID (pa_Task a)) 0); [lia|]. cbn. rewrite Hv. cbn.
  destruct (po_ShuffleOutput output) as [m|] eqn:Em; [|done]. cbn.
  assert (Hmatch : matchesReport (mo_Attempt m)
    (mkSuccessRequest (pa_JobID a) (pa_StageID a) (pa_Attempt a) (t_PartitionID (pa_Task a)) (pa_WorkerID a) output) = true);
    [|by rewrite Hmatch].
  unfold output_ok in Hr. cbn in Hr. destruct (t_StageKind (pa_Task a)); [| |done].
  - destruct Hr as (w & m' & _ & _ & -> & _ & Hm). assert (m' = m) as -> by (cbn in Es; congruence).
    unfold matchesAssignment in Hm. cbn in Hm. unfold matchesReport. cbn. rewrite !andb_true_iff, !bool_decide_eq_true in Hm.
    rewrite !andb_true_iff, !N.eqb_eq, Z.eqb_eq. destruct Hm as (((((((((_ & ?) & _) & ?) & ?) & ?) & ?) & ?) & _) & _).
    split_and!; congruence.
  - destruct Hr as (f & _ & Hs & _). congruence.
Qed.

(** *** Workers *)

Section workers.
Variable Error : error -> string.
Variable runs : TaskExecution -> result Reports.TaskOutput -> Prop.

(** The state [st'] is [st] with fewer active attempts. *)
Definition shrinks (st st' : runtimeState) : Prop :=
  rs_seen st' = rs_seen st /\ rs_active st' ⊆ rs_active st.

Lemma shrinks_refl st : shrinks st st.
Proof. done. Qed.

Lemma shrinks_known s c st st' : shrinks st st' -> attempts_known s c st -> attempts_known s c st'.
Proof.
  intros [Es Ha] [H1 H2]. split; [by rewrite Es|]. intros id a Hid. apply H2. by eapply lookup_weaken.
Qed.

Lemma drain_shrinks st : shrinks st (drainCompleted st).
Proof. split; [done|]. cbn. apply map_subseteq_spec. intros id a. rewrite foldl_delete_lookup. by case_decide. Qed.

(** The runs of other processes. *)
Lemma other_runs cl cl' p : cluster_inv cl ->
  (forall q c r, q <> p -> cl_runs cl' !! q = Some (c, r) -> cl_runs cl !! q = Some (c, r)) ->
  cl_system cl' = cl_system cl -> cl_registered cl' = cl_registered cl ->
  (forall q, q <> p -> cl_offers cl' !! q = cl_offers cl !! q /\ cl_answers cl' !! q = cl_answers cl !! q) ->
  (forall q id, q <> p -> (q, id) ∈ cl_started cl' <-> (q, id) ∈ cl_started cl) ->
  forall q c r, q <> p -> cl_runs cl' !! q = Some (c, r) -> run_inv cl' q c r.
Proof.
  intros H Hr Ey Ereg Hm Hs q c r Hne Hq. destruct (ci_run _ H _ _ _ (Hr _ _ _ Hne Hq)) as [R1 R2 R3 R4 R5 R6].
  destruct (Hm q Hne) as [Eo Ea]. assert (Ef : cl_fifo cl' = cl_fifo cl) by (unfold cl_fifo; by rewrite Ey).
  split; rewrite ?Ef, ?Ereg, ?Eo, ?Ea; try done.
  intros id. by rewrite Hs.
Qed.

(** A process that moves keeps what is said of all of them. *)
Lemma process_moved cl cl' p c r r' : cluster_inv cl -> cl_runs cl !! p = Some (c, r) ->
  cl_runs cl' = <[p := (c, r')]> (cl_runs cl) -> cl_system cl' = cl_system cl -> cl_registered cl' = cl_registered cl ->
  (forall q, q <> p -> cl_offers cl' !! q = cl_offers cl !! q /\ cl_answers cl' !! q = cl_answers cl !! q) ->
  (forall q id, q <> p -> (q, id) ∈ cl_started cl' <-> (q, id) ∈ cl_started cl) ->
  run_inv cl' p c r' -> NoDup ((cl_started cl').*2) -> reports_good (cl_fifo cl) (cl_reports cl') -> cluster_inv cl'.
Proof.
  intros H Hp Er Ey Ereg Hm Hs Hrun Honce Hrep.
  assert (Hdom : forall q, is_Some (cl_runs cl' !! q) <-> is_Some (cl_runs cl !! q)).
  { intros q. rewrite Er, lookup_insert_is_Some'. split; [intros [<-|?]; [by rewrite Hp|done]|by right]. }
  assert (Hcfg : forall q c' x, cl_runs cl' !! q = Some (c', x) -> exists y, cl_runs cl !! q = Some (c', y)).
  { intros q c' x. rewrite Er. intros [[<- [= <- _]]|[_ Hq]]%lookup_insert_Some; by eexists. }
  assert (Ef : cl_fifo cl' = cl_fifo cl) by (unfold cl_fifo; by rewrite Ey).
  split; rewrite ?Ef, ?Ey; try (by apply H); try done.
  - intros q c' x Hq. destruct (decide (q = p)) as [->|Hne].
    + rewrite Er, lookup_insert_eq in Hq. by injection Hq as <- <-.
    + eapply other_runs; try done. intros q' c2 x2 Hq' Hx. rewrite Er, lookup_insert_ne in Hx by done. done.
  - intros q1 q2 c1 c2 x1 x2 [y1 Hq1]%Hcfg [y2 Hq2]%Hcfg. by eapply ci_unique.
  - intros q. rewrite Ereg. intros (c' & x & Hq & Hcap)%(ci_registered _ H).
    destruct (decide (q = p)) as [->|Hne].
    + exists c', r'. rewrite Hp in Hq. injection Hq as <- <-. by rewrite Er, lookup_insert_eq.
    + exists c', x. by rewrite Er, lookup_insert_ne.
  - intros q id Hq. apply Hdom. destruct (decide (q = p)) as [->|Hne]; [by rewrite Hp|]. apply (ci_started _ H q id). by apply Hs.
Qed.

(** A step that exchanges nothing. *)
Lemma quiet_step cl p c r r' : cluster_inv cl -> cl_runs cl !! p = Some (c, r) -> run_ok c r' ->
  (registered_phase r'.1.1 = true -> p ∈ cl_registered cl) -> shrinks r.1.2 r'.1.2 ->
  (forall offer, r'.1.1 = RunPolling offer -> r.1.1 = RunPolling offer) ->
  cluster_inv (with_run p c r' cl).
Proof.
  intros H Hp Hok Hph Hsh Hpoll. destruct (ci_run _ H _ _ _ Hp) as [R1 R2 R3 R4 R5 R6].
  eapply (process_moved cl); try done; [|by apply H|by apply H]. destruct Hsh as [Es Ha]. split; try done.
  - by eapply shrinks_known.
  - intros offer Hof. destruct (R5 offer (Hpoll _ Hof)) as [Ho Hans]. split; [done|]. intros answer Hx.
    pose proof (Hans answer Hx) as Hg. unfold answer_good in *. by rewrite Es.
  - intros id. by rewrite Es.
Qed.

Lemma report_sent cl r : cluster_inv cl -> (forall request, r = inl request -> success_good (cl_fifo cl) request) ->
  cluster_inv (perform 0 (ActReport r) cl).
Proof.
  intros [H1 H2 H3 H4 H5 H6 H7 H8] Hr. split; try done.
  - intros p c x Hp. destruct (H3 _ _ _ Hp). by split.
  - intros request [Hin|Hin%list_elem_of_singleton]%elem_of_app; [by apply H8|by apply Hr].
Qed.

Lemma polled_known s c st l : attempts_known s c st ->
  (forall a, a ∈ l -> assigned s (ta_ID (pa_Attempt a)) a /\ pa_WorkerID a = rc_WorkerID c) ->
  attempts_known s c (dispatch st l).
Proof.
  revert st. induction l as [|a l IH]; intros st H Hl; [done|]. unfold dispatch. cbn [foldl]. fold (dispatch (launch st a) l).
  apply IH; [|intros b Hb; apply Hl; by right]. destruct (Hl a ltac:(by left)) as [Ha Hw]. destruct H as [H1 H2]. split; cbn.
  - intros id [->%elem_of_singleton|Hid]%elem_of_union; [by exists a|by apply H1].
  - intros id b [[<- <-]|[_ Hb]]%lookup_insert_Some; [done|by apply H2].
Qed.

Lemma dispatch_seen st l id : id ∈ rs_seen (dispatch st l) <-> id ∈ rs_seen st \/ id ∈ (fun a => ta_ID (pa_Attempt a)) <$> l.
Proof.
  revert st. induction l as [|a l IH]; intros st; [cbn; rewrite elem_of_nil; tauto|].
  unfold dispatch. cbn [foldl]. fold (dispatch (launch st a) l). rewrite IH. cbn.
  rewrite elem_of_cons, elem_of_union, elem_of_singleton. tauto.
Qed.

Lemma started_in cl p (l : list TaskAssignment) q id :
  (q, id) ∈ cl_started cl ++ ((fun a => (p, ta_ID (pa_Attempt a))) <$> l) <->
  (q, id) ∈ cl_started cl \/ q = p /\ id ∈ (fun a => ta_ID (pa_Attempt a)) <$> l.
Proof.
  rewrite elem_of_app, !list_elem_of_fmap. split.
  - intros [?|(a & [= -> ->] & Ha)]; [by left|right]. split; [done|]. by exists a.
  - intros [?|(-> & a & -> & Ha)]; [by left|right]. by exists a.
Qed.

(** Attempts of a good answer were never started. *)
Lemma answer_fresh cl p c r l : cluster_inv cl -> cl_runs cl !! p = Some (c, r) ->
  (forall a, a ∈ l -> assigned (cl_fifo cl) (ta_ID (pa_Attempt a)) a /\ ta_ID (pa_Attempt a) ∉ rs_seen r.1.2) ->
  (forall a, a ∈ l -> pa_WorkerID a = rc_WorkerID c) -> NoDup ((fun a => ta_ID (pa_Attempt a)) <$> l) ->
  NoDup ((cl_started cl ++ ((fun a => (p, ta_ID (pa_Attempt a))) <$> l)).*2).
Proof.
  intros H Hp Hl Hw Hd. rewrite fmap_app, <- list_fmap_compose. apply NoDup_app. split; [apply H|]. split; [|done].
  intros id ([q id'] & E & Hq)%list_elem_of_fmap (a & Eid & Ha)%list_elem_of_fmap. cbn in E, Eid. subst id'.
  destruct (Hl a Ha) as [(b & Hb & Eb) Hn]. rewrite <- Eid in Hb, Hn.
  destruct (ci_started _ H _ _ Hq) as [[c' r'] Hq']. destruct (ci_run _ H _ _ _ Hq') as [_ _ _ [Hk _] _ Hs].
  apply Hs in Hq. destruct (Hk _ Hq) as (m & (b' & Hb' & Em) & Hwm).
  assert (b' = b) as -> by congruence. assert (Ew : rc_WorkerID c' = rc_WorkerID c) by (rewrite <- Hwm, <- (Hw a Ha); congruence).
  pose proof (ci_unique _ H _ _ _ _ _ _ Hq' Hp Ew) as ->.
  assert (E2 : Some (c', r') = Some (c, r)) by (etransitivity; [symmetry; exact Hq'|exact Hp]). injection E2 as -> ->. done.
Qed.

(** The answer to a poll. *)
Lemma answer_step cl p c offer st cause answer l : cluster_inv cl -> cl_runs cl !! p = Some (c, (RunPolling offer, st, cause)) ->
  cl_answers cl !! p = Some answer \/ (exists err, answer = Err err) ->
  poll cause offer (clientHeartbeat offer answer) (rs_seen st) = Ok l ->
  run_ok c (RunSelecting, dispatch st l, cause) ->
  cluster_inv (perform p (ActAnswer answer l) (with_run p c (RunSelecting, dispatch st l, cause) cl)).
Proof.
  intros H Hp Hans Hpoll Hok. pose proof (ci_run _ H _ _ _ Hp) as [R1 R2 R3 R4 R5 R6].
  destruct Hans as [Hans|[err ->]]; [|by apply poll_spec in Hpoll as (_ & ? & ? & _)].
  destruct (R5 offer eq_refl) as [_ Hgood]. pose proof (Hgood answer Hans) as Hg.
  apply poll_spec in Hpoll as (_ & response & Er & El & _). destruct answer as [resp|err]; [|done].
  assert (response = resp) as ->.
  { unfold clientHeartbeat in Er. cbn in Er. destruct (_ <? _); [done|]. destruct (check_all _ _ _); [|done]. cbn in Er. congruence. }
  destruct Hg as (l' & El' & (Hf & Hd & _) & _ & Hall). assert (l' = l) as -> by congruence.
  assert (Hw : forall a, a ∈ l -> pa_WorkerID a = rc_WorkerID c) by (intros a Ha; rewrite Forall_forall in Hf; by apply Hf).
  eapply (process_moved cl); try done.
  - intros q Hne. cbn. by rewrite lookup_delete_ne.
  - intros q id Hne. cbn. rewrite started_in. naive_solver.
  - split; try done.
    + apply polled_known; [done|]. intros a Ha. split; [by apply Hall|by apply Hw].
    + intros id. cbn. rewrite started_in, dispatch_seen, R6. cbn. naive_solver.
  - cbn. eapply (answer_fresh cl p c (RunPolling offer, st, cause)); try done.
  - apply H.
Qed.

(** A process sends a heartbeat. *)
Lemma offer_step cl p c r r' offer : cluster_inv cl -> cl_runs cl !! p = Some (c, r) -> run_ok c r' ->
  p ∈ cl_registered cl -> shrinks r.1.2 r'.1.2 -> r'.1.1 = RunPolling offer ->
  cluster_inv (perform p (ActOffer offer) (with_run p c r' cl)).
Proof.
  intros H Hp Hok Hreg Hsh Hph. pose proof (ci_run _ H _ _ _ Hp) as [R1 R2 R3 R4 R5 R6].
  eapply (process_moved cl); try done; [|split; try done|apply H|apply H].
  - intros q Hne. cbn. by rewrite lookup_insert_ne, lookup_delete_ne.
  - by eapply shrinks_known.
  - rewrite Hph. intros offer' [= <-]. cbn. rewrite lookup_insert_eq, lookup_delete_eq. split; [|done]. by intros ? [= <-].
  - intros id. cbn. destruct Hsh as [-> _]. apply R6.
Qed.

(** The loop ends without starting anything. *)
Lemma rejected_step cl p c r ph' answer : cluster_inv cl -> cl_runs cl !! p = Some (c, r) ->
  registered_phase ph' = false ->
  cluster_inv (perform p (ActAnswer answer []) (with_run p c (ph', r.1.2, r.2) cl)).
Proof.
  intros H Hp Hph. pose proof (ci_run _ H _ _ _ Hp) as [R1 R2 R3 R4 R5 R6].
  eapply (process_moved cl); try done; [| |split; try done|cbn|apply H].
  - intros q Hne. cbn. by rewrite lookup_delete_ne.
  - intros q id Hne. cbn. by rewrite app_nil_r.
  - destruct r as [[ph st] cause]. destruct R1 as [Hst _]. split; [done|]. by destruct ph'.
  - cbn. by rewrite Hph.
  - cbn. intros offer ->. done.
  - intros id. cbn. by rewrite app_nil_r, R6.
  - rewrite app_nil_r. apply H.
Qed.

Lemma executed_report cl p c ph s cause id a ran ctx ctx' request :
  cluster_inv cl -> cl_runs cl !! p = Some (c, (ph, s, cause)) -> rs_tasks s !! id = Some (GoExecuting a) ->
  taskReport Error a ran ctx ctx' = inl request -> success_good (cl_fifo cl) request.
Proof.
  intros H Hp Hg E. destruct (ci_run _ H _ _ _ Hp) as [[Hok _] _ _ [_ Hact] _ _].
  apply (st_tasks _ _ Hok) in Hg. destruct (st_active _ _ Hok _ _ Hg) as [(Ha & _ & Eid) _]. cbn in Ha, Eid.
  eapply success_report; [exact Ha| |exact E]. rewrite Eid. by apply Hact.
Qed.

Lemma worker_step cl p c r act r' : cluster_inv cl -> cl_runs cl !! p = Some (c, r) -> run_step Error runs c r act r' ->
  possible p act cl -> cluster_inv (perform p act (with_run p c r' cl)).
Proof.
  intros H Hp Hstep Hposs. pose proof (ci_run _ H _ _ _ Hp) as [R1 R2 R3 R4 R5 R6].
  pose proof (run_step_ok _ _ _ _ _ _ R1 Hstep) as Hok.
  destruct Hstep as [ph s err|s err|s cause answer Ha|s cause answer err Ha|s err|s cause id l Hc|s cause s' offer
    |s cause offer answer l Hpl|s cause offer answer err Hpl|ph s cause id a ran ctx ctx' Hg Hr rep|ph s cause id a rep answer Hg
    |ph s cause id a Hg Hlen|ph s err id a Hg].
  1,2,4,5,11-13: by eapply quiet_step.
  - by eapply quiet_step.
  - eapply quiet_step; try done. split; [done|]. cbn. apply delete_subseteq.
  - eapply offer_step; try done; [by apply R3|apply drain_shrinks].
  - by eapply answer_step.
  - by apply (rejected_step cl p c (RunPolling offer, s, cause)).
  - apply (report_sent (with_run p c (ph, with_tasks (<[id:=GoReporting a rep]> (rs_tasks s)) s, cause) cl)).
    + by eapply quiet_step.
    + intros request E. exact (executed_report cl p c ph s cause id a ran ctx ctx' request H Hp Hg E).
Qed.

Lemma cluster_step_inv cl cl' : cluster_inv cl -> cluster_step Error runs cl cl' -> cluster_inv cl'.
Proof.
  intros H Hstep. destruct Hstep.
  - destruct (fifo_step_good (cl_system cl) y) as (? & ? & ?); [apply H|apply H|done|]. by apply inv_fifo.
  - by eapply start_step.
  - by eapply registration_step.
  - by eapply heartbeat_step.
  - by eapply report_step.
  - by apply lost_step.
  - by eapply worker_step.
Qed.

Lemma cluster_reachable_inv cl : cluster_reachable Error runs cl -> cluster_inv cl.
Proof.
  induction 1 as [options run s Hs Hrun|cl cl' _ IH Hstep]; [|by eapply cluster_step_inv].
  pose proof (NewFIFOTaskScheduler_inv _ _ _ Hs Hrun) as Hi. unfold NewFIFOTaskScheduler in Hs.
  apply bind_Ok in Hs as (o & _ & [= <-]). split; try done; cbn.
  - by intros p id Hp%elem_of_nil.
  - constructor.
  - by intros r Hr%elem_of_nil.
Qed.

End workers.
