(* ===== verification/ClusterTheorems.v ===== *)
(** * ClusterTheorems: the coordinator and its workers together

    What holds in every state a cluster can reach: attempts are started once, by
    the worker they were assigned to, and the two sides accept each other's
    messages.  The examples run one job on one worker. *)

From S2P Require Import Prelude Bytes Plan Stages Shuffle Reports Fifo FifoProofs FifoInvariant FifoSystem FifoTheorems FifoReports.
From S2P Require Import Json JsonProofs Protocol ProtocolProofs Coordinator Growth Worker WorkerProofs Cluster ClusterProofs.
#[local] Open Scope Z_scope.

#[local] Arguments validateHeartbeat : simpl never.
#[local] Arguments validateSuccessRequest : simpl never.

(** ** Agreement *)

Section agreement.
Variable Error : error -> string.
Variable runs : TaskExecution -> result Reports.TaskOutput -> Prop.









(** C16. Attempts are started once.  In every state a cluster can reach, each
    attempt was started at most once, and only by the worker it was assigned to;
    a worker's goroutines run attempts it started, at most as many as its slots,
    each the task of its attempt, in an assignment that passes every check. *)
Theorem started_once cl :
  cluster_reachable Error runs cl ->
  NoDup ((cl_started cl).*2) /\
  (forall p id, (p, id) ∈ cl_started cl -> exists c r m,
     cl_runs cl !! p = Some (c, r) /\ assigned (cl_fifo cl) id m /\ pa_WorkerID m = rc_WorkerID c) /\
  (forall p c ph st cause, cl_runs cl !! p = Some (c, (ph, st, cause)) ->
     Z.of_nat (size (rs_tasks st)) <= rc_Slots c /\
     forall id g, rs_tasks st !! id = Some g ->
       (p, id) ∈ cl_started cl /\ assigned (cl_fifo cl) id (goroutine_of g) /\ assignment_ok (goroutine_of g)).
Proof.
  intros H%cluster_reachable_inv. split; [apply H|]. split.
  - intros p id Hin. destruct (ci_started _ H _ _ Hin) as [[c r] Hp]. destruct (ci_run _ H _ _ _ Hp) as [_ _ _ [Hk _] _ Hs].
    apply Hs in Hin. destruct (Hk _ Hin) as (m & Hm & Hw). by exists c, r, m.
  - intros p c ph st cause Hp. destruct (ci_run _ H _ _ _ Hp) as [[Hst _] _ _ [_ Hact] _ Hs]. split.
    + etransitivity; [|apply (st_slots _ _ Hst)]. rewrite <- !size_dom. apply Nat2Z.inj_le, subseteq_size.
      intros id. rewrite !elem_of_dom. intros [g Hg]. by eapply mk_is_Some, (st_tasks _ _ Hst).
    + intros id g Hg%(st_tasks _ _ Hst). destruct (st_active _ _ Hst _ _ Hg) as [(Ha & _ & _) Hseen].
      split; [by apply Hs|]. split; [by apply Hact|done].
Qed.

End agreement.

(** ** A cluster of one worker *)

(** The count of a text file of two partitions. *)
Definition example_lines : StageOperation :=
  rdd_operation {| ro_RDDID := 0%N;
    ro_Operator := {| op_Kind := OpSource; op_FunctionID := ""; op_SourcePath := "examples/input.txt" |} |}.

Definition count_task (i : nat) : Task :=
  {| t_ID := N.of_nat i; t_StageID := 0%N; t_StageKind := StageResult; t_PartitionID := Z.of_nat i;
     t_NumPartitions := 2; t_Operations := [example_lines]; t_ShuffleWrite := None;
     t_FinalAction := Some {| act_Kind := ActionCount; act_TargetRDD := 0%N |} |}.

Definition count_set : TaskSet := mkTaskSet None 7%N 0%N 0%N [count_task 0; count_task 1].

(** One whose path is a space. *)
Definition blank_task : Task :=
  {| t_ID := 0%N; t_StageID := 0%N; t_StageKind := StageResult; t_PartitionID := 0;
     t_NumPartitions := 1; t_Operations := [rdd_operation {| ro_RDDID := 0%N;
       ro_Operator := {| op_Kind := OpSource; op_FunctionID := ""; op_SourcePath := " " |} |}]; t_ShuffleWrite := None;
     t_FinalAction := Some {| act_Kind := ActionCount; act_TargetRDD := 0%N |} |}.

Definition blank_set : TaskSet := mkTaskSet None 7%N 0%N 0%N [blank_task].

Definition quiet_error (e : error) : string := "error".
Definition any_run (e : TaskExecution) (r : result Reports.TaskOutput) : Prop := True.
Definition example_config : RuntimeConfig := mkRuntimeConfig "w" 2 100000000 10000000000.

Notation step := (cluster_step quiet_error any_run) (only parsing).

(** The states of a run: a set is submitted, the worker starts, registers and
    polls; of the first set it starts both tasks, and reports one of them. *)
Definition cl_submitted (set : TaskSet) : cluster :=
  mkCluster (default empty_system (run_calls [CallSubmit set] empty_system)) ∅ ∅ ∅ ∅ [] [].

Definition cl_running (set : TaskSet) : cluster := with_run 0 example_config startRun (cl_submitted set).

Definition registering (cl : cluster) : response * scheduler :=
  registerWorker quiet_error (cl_fifo cl) 0 (received validateRegisterRequest (mkRegisterRequest "w" 2 None)).

Definition cl_known (set : TaskSet) : cluster :=
  let cl := cl_running set in
  mkCluster (mkSystem (registering cl).2 (sys_loops (cl_system cl))) (cl_runs cl)
    (if re_Status (registering cl).1 =? StatusOK then {[0%nat]} ∪ cl_registered cl else cl_registered cl)
    (cl_offers cl) (cl_answers cl) (cl_reports cl) (cl_started cl).

Definition cl_selecting (set : TaskSet) : cluster :=
  perform 0 (ActRegistered 2) (with_run 0 example_config (RunSelecting, newRuntimeState, None) (cl_known set)).

Definition first_offer : HeartbeatRequest := resourceOffer example_config ∅.

Definition cl_polling (set : TaskSet) : cluster :=
  perform 0 (ActOffer first_offer)
    (with_run 0 example_config (RunPolling first_offer, drainCompleted newRuntimeState, None) (cl_selecting set)).

Definition offering (set : TaskSet) : response * scheduler :=
  heartbeat quiet_error (cl_fifo (cl_polling set)) 5 (fun _ => None) (received validateHeartbeat first_offer).

Definition cl_answering : cluster :=
  let cl := cl_polling count_set in
  mkCluster (mkSystem (offering count_set).2 (sys_loops (cl_system cl))) (cl_runs cl) (cl_registered cl)
    (delete 0%nat (cl_offers cl)) (<[0%nat := answered (offering count_set).1]> (cl_answers cl))
    (cl_reports cl) (cl_started cl).

Definition first_answer : result HeartbeatResponse := answered (offering count_set).1.
Definition first_tasks : list TaskAssignment := default [] (hp_Assignments (match first_answer with Ok r => r | Err _ => mkHeartbeatResponse None end)).
Definition started_state : runtimeState := dispatch (drainCompleted newRuntimeState) first_tasks.

Definition cl_dispatched : cluster :=
  perform 0 (ActAnswer first_answer first_tasks)
    (with_run 0 example_config (RunSelecting, started_state, None) cl_answering).



Definition example_set (set : TaskSet) : Prop := set = count_set \/ set = blank_set.

Lemma cl_submitted_reachable set : example_set set -> cluster_reachable quiet_error any_run (cl_submitted set).
Proof.
  intros Hset. assert (H : cluster_reachable quiet_error any_run (mkCluster empty_system ∅ ∅ ∅ ∅ [] [])).
  { by apply (cluster_init _ _ [WithMaxTaskAttempts 2] example_run). }
  refine (cluster_next _ _ _ _ H _). apply (step_driver _ _ (mkCluster empty_system ∅ ∅ ∅ ∅ [] [])).
  eapply (exec_step _ (CallSubmit set)). destruct Hset as [->| ->]; vm_compute; reflexivity.
Qed.

Lemma cl_selecting_reachable set : example_set set -> cluster_reachable quiet_error any_run (cl_selecting set).
Proof.
  intros Hset. assert (H1 : cluster_reachable quiet_error any_run (cl_running set)).
  { eapply cluster_next; [by apply cl_submitted_reachable|]. eapply (step_start _ _ _ 0%nat _ (mkRuntimeConfig "w" 2 0 0) (Ok tt));
      [vm_compute; reflexivity|apply lookup_empty|]. intros q c' r Hq. cbn in Hq. discriminate Hq. }
  assert (H2 : cluster_reachable quiet_error any_run (cl_known set)).
  { eapply cluster_next; [exact H1|]. eapply (step_registration _ _ _ 0%nat example_config); [apply lookup_insert_eq|].
    apply surjective_pairing. }
  eapply cluster_next; [exact H2|]. eapply (step_worker _ _ _ 0%nat example_config); [apply lookup_insert_eq| |].
  - eapply (run_registered _ _ example_config _ _ (Ok (mkRegisterResponse "w" 2))). vm_compute. reflexivity.
  - apply (bool_decide_unpack (0%nat ∈ cl_registered (cl_known set))). destruct Hset as [->| ->]; vm_compute; exact I.
Qed.

Lemma cl_polling_reachable set : example_set set -> cluster_reachable quiet_error any_run (cl_polling set).
Proof.
  intros Hset. eapply cluster_next; [by apply cl_selecting_reachable|].
  eapply (step_worker _ _ _ 0%nat example_config); [apply lookup_insert_eq| |done].
  apply (run_tick _ _ example_config newRuntimeState None).
Qed.

Lemma cl_dispatched_reachable : cluster_reachable quiet_error any_run cl_dispatched.
Proof.
  assert (H : cluster_reachable quiet_error any_run cl_answering).
  { eapply cluster_next; [apply (cl_polling_reachable count_set); by left|].
    eapply (step_heartbeat _ _ _ 0%nat first_offer 5 (fun _ => None));
      [apply lookup_insert_eq|apply surjective_pairing|vm_compute; reflexivity]. }
  eapply cluster_next; [exact H|]. eapply (step_worker _ _ _ 0%nat example_config); [apply lookup_insert_eq| |].
  - apply (run_polled _ _ example_config (drainCompleted newRuntimeState) None). vm_compute. reflexivity.
  - left. apply lookup_insert_eq.
Qed.



Lemma started_once_witness :
  cl_started cl_dispatched = [(0%nat, 0%N); (0%nat, 1%N)] /\ NoDup ((cl_started cl_dispatched).*2) /\
  Z.of_nat (size (rs_tasks started_state)) <= 2.
Proof.
  destruct (started_once quiet_error any_run cl_dispatched cl_dispatched_reachable) as (H1 & _ & H3).
  split; [vm_compute; reflexivity|]. split; [exact H1|].
  apply (H3 0%nat example_config RunSelecting started_state None). apply lookup_insert_eq.
Defined.
