(* ===== verification/Planned.v ===== *)
(** * Planned: from a plan to the messages that workers accept

    The tasks of a plan become assignments, which a worker checks again
    ([Protocol.validateAssignment]).  [planned_accepted] says which of them pass:
    all but those whose lineage has a blank name, a case the planner lets
    through. *)

From S2P Require Import Prelude Bytes Plan Lineage Stages Shuffle Json JsonProofs Protocol ProtocolProofs.
From S2P Require Import Planner PlannerProofs TaskGenerator Api Reports Fifo Coordinator Worker Cluster.
#[local] Open Scope Z_scope.

(** ** Tasks of a plan *)

Lemma appendStage_in tasks s t : t ∈ appendStage tasks s ->
  t ∈ tasks \/ exists id i, t = newTask s id i /\ Z.of_nat i < st_NumPartitions s.
Proof.
  rewrite appendStage_eq. intros [?|(i & -> & Hi)%list_elem_of_fmap]%elem_of_app; [by left|right].
  apply elem_of_seq in Hi. eexists _, i. split; [done|lia].
Qed.

Lemma generated_task p tasks t : GenerateTasks p = Ok tasks -> t ∈ tasks ->
  exists s id i, s ∈ sp_Stages p /\ t = newTask s id i /\ Z.of_nat i < st_NumPartitions s.
Proof.
  unfold GenerateTasks. intros (n & _ & [_ [= <-]]%fail_if_Ok)%bind_Ok.
  assert (H : forall stages acc, t ∈ foldl appendStage acc stages -> t ∈ acc \/
    exists s id i, s ∈ stages /\ t = newTask s id i /\ Z.of_nat i < st_NumPartitions s).
  { induction stages as [|s stages IH]; intros acc Ht; [by left|]. cbn in Ht.
    apply IH in Ht as [[?|(id & i & ? & ?)]%appendStage_in|(s' & id & i & ? & ? & ?)]; [by left|right..].
    - exists s, id, i. split; [by left|done].
    - exists s', id, i. split; [by right|done]. }
  intros [[]%elem_of_nil|?]%H. done.
Qed.

(** ** The pipelines of a plan *)

(** An operator with the name its kind needs, and no other. *)
Definition operator_named (op : OperatorSpec) : Prop :=
  match op_Kind op with
  | OpSource => nonblank (op_SourcePath op) /\ op_FunctionID op = ""
  | _ => named op
  end.

Definition names_ok (t : Task) : Prop :=
  Forall (fun o => forall rdd, so_RDD o = Some rdd -> operator_named (ro_Operator rdd)) (t_Operations t) /\
  forall w, t_ShuffleWrite t = Some w -> nonblank (sw_AggregatorID w).

(** The shuffle a task reads. *)
Definition task_read (t : Task) : option ShuffleReadSpec := head (t_Operations t) ≫= so_ShuffleRead.

Definition node_rdd (n : RDDNode) : RDDOperationSpec := {| ro_RDDID := node_ID n; ro_Operator := node_Operator n |}.

(** What the planner makes of a stage that executes. *)
Definition planned (a : ActionSpec) (s : Stage) : Prop :=
  exists read n ns,
    st_Operations s = ProtocolProofs.pipeline read (node_rdd <$> n :: ns) /\ NoDup (node_ID <$> n :: ns) /\
    Forall (fun m => PlannerProofs.narrow_kind (op_Kind (node_Operator m)) = true) ns /\
    op_Kind (node_Operator n) = (if is_read read then OpReduceByKey else OpSource) /\
    match st_Kind s with
    | StageShuffleMap => read = None /\ st_FinalAction s = None /\
        exists w, st_ShuffleWrite s = Some w /\ partitioner_ok (sw_Partitioner w)
    | StageResult => st_FinalAction s = Some a /\ st_ShuffleWrite s = None /\
        Some (act_TargetRDD a) = node_ID <$> last (n :: ns)
    | StageOther _ => False
    end.

Lemma narrow_rdds rest : Forall narrow_operation rest -> exists ns, rest = rdd_operation <$> (node_rdd <$> ns) /\
  Forall (fun m => PlannerProofs.narrow_kind (op_Kind (node_Operator m)) = true) ns.
Proof.
  induction 1 as [|o rest (n & -> & Hn) _ (ns & -> & Hns)]; [by exists []|]. exists (n :: ns). by split; [|constructor].
Qed.

Lemma head_shape prev ops : head_ok prev ops -> exists read n ns,
  ops = ProtocolProofs.pipeline read (node_rdd <$> n :: ns) /\
  Forall (fun m => PlannerProofs.narrow_kind (op_Kind (node_Operator m)) = true) ns /\
  op_Kind (node_Operator n) = (if is_read read then OpReduceByKey else OpSource) /\ (prev = None -> read = None).
Proof.
  intros (n & rest & (ns & -> & Hns)%narrow_rdds & H). destruct prev as [s|].
  - destruct H as (sd & _ & _ & -> & Hk). eexists (Some _), n, ns. by split.
  - destruct H as [-> Hk]. by exists None, n, ns.
Qed.

Lemma pipeline_rdds read (ns : list RDDNode) :
  omap (fun op => ro_RDDID <$> so_RDD op) (ProtocolProofs.pipeline read (node_rdd <$> ns)) = node_ID <$> ns.
Proof.
  unfold ProtocolProofs.pipeline. rewrite omap_app. destruct read; cbn; (induction ns as [|n ns IH]; cbn; [done|by rewrite IH]).
Qed.

Lemma NoDup_concat_in {A} (ls : list (list A)) l : NoDup (concat ls) -> l ∈ ls -> NoDup l.
Proof.
  intros H (l1 & l2 & ->)%list_elem_of_split. rewrite concat_app in H. cbn in H.
  apply NoDup_app in H as (_ & _ & H). by apply NoDup_app in H as (? & _ & _).
Qed.

Section plans.
Context (g : RDDGraph) (Hwf : graph_wf g).

(** The last RDD of the result stage is the target. *)
Lemma result_target l (x y : list RDDID) target : chain g target l -> x ++ y = reverse (node_ID <$> l) -> y <> [] ->
  last y = Some target.
Proof.
  intros Hc E Hy. destruct (chain_head _ _ _ Hc) as (n & l' & -> & Hn). rewrite fmap_cons, reverse_cons in E.
  destruct (exists_last Hy) as (y' & z & ->). rewrite app_assoc in E. apply app_inj_tail in E as [_ ->].
  rewrite last_snoc. by rewrite (wf_id g Hwf _ _ Hn).
Qed.

Lemma planned_stage a p s : lineage_ok g (act_TargetRDD a) -> plan_ok g a p -> validateExecutionPlan p = Ok tt ->
  s ∈ sp_Stages p -> planned a s.
Proof.
  intros Hl (_ & l & sts & r & Hc & Est & Hstages & Hmap & (Hrk & Hrf & Hrw) & Hrdds & _) Hexec Hin.
  assert (Hnd : NoDup (concat (stage_rdds <$> sp_Stages p))).
  { rewrite Hrdds, reverse_Permutation. by eapply chain_NoDup. }
  assert (Hshape : forall i s', sp_Stages p !! i = Some s' -> exists read n ns,
    st_Operations s' = ProtocolProofs.pipeline read (node_rdd <$> n :: ns) /\ NoDup (node_ID <$> n :: ns) /\
    Forall (fun m => PlannerProofs.narrow_kind (op_Kind (node_Operator m)) = true) ns /\
    op_Kind (node_Operator n) = (if is_read read then OpReduceByKey else OpSource) /\ (i = 0%nat -> read = None) /\
    stage_rdds s' = node_ID <$> n :: ns).
  { intros i s' Hi. destruct (Hstages i s' Hi) as [_ _ (read & n & ns & Eops & Hns & Hk & Hread)%head_shape _].
    assert (Er : stage_rdds s' = node_ID <$> n :: ns) by (unfold stage_rdds; by rewrite Eops, pipeline_rdds).
    exists read, n, ns. split_and!; try done.
    - rewrite <- Er. eapply NoDup_concat_in; [exact Hnd|]. apply list_elem_of_fmap. exists s'. split; [done|].
      by eapply list_elem_of_lookup_2.
    - intros ->. by apply Hread. }
  assert (Hresult : forall i, sp_Stages p !! i = Some r -> planned a r).
  { intros i Hi. destruct (Hshape i r Hi) as (read & n & ns & Eops & Hd & Hns & Hk & _ & Er).
    exists read, n, ns. split_and!; try done. rewrite Hrk. split_and!; try done.
    rewrite <- fmap_last, <- Er. symmetry.
    eapply (result_target l (concat (stage_rdds <$> sts))); [done| |by rewrite Er].
    rewrite <- Hrdds, Est, fmap_app, concat_app. cbn. by rewrite app_nil_r. }
  unfold validateExecutionPlan in Hexec. rewrite Est in Hexec, Hin, Hresult, Hstages, Hshape.
  destruct sts as [|m [|m' sts]]; [| |by destruct sts].
  - apply list_elem_of_singleton in Hin as ->. by apply (Hresult 0%nat).
  - apply elem_of_cons in Hin as [->| ->%list_elem_of_singleton]; [|by apply (Hresult 1%nat)].
    apply Forall_cons in Hmap as [(Hmk & Hmf & Hmw) _].
    destruct (Hshape 0%nat m eq_refl) as (read & n & ns & Eops & Hd & Hns & Hk & Hread & _).
    exists read, n, ns. split_and!; try done. rewrite Hmk. split; [by apply Hread|]. split; [done|].
    destruct (Hstages 1%nat r eq_refl) as [_ _ (? & ? & _ & sd & Hw & Hsd & _) _]. cbn in Hw.
    by exists (shuffleWriteSpec sd).
Qed.

End plans.

(** ** What the checks of a worker add *)

Lemma pipeline_inj read rdds read' rdds' :
  ProtocolProofs.pipeline read rdds = ProtocolProofs.pipeline read' rdds' -> read = read' /\ rdds = rdds'.
Proof.
  assert (Hinj : forall l l' : list RDDOperationSpec, rdd_operation <$> l = rdd_operation <$> l' -> l = l').
  { induction l as [|x l IH]; intros [|x' l']; try done. intros [= -> ?%IH]. by subst. }
  unfold ProtocolProofs.pipeline. destruct read as [r|], read' as [r'|]; cbn.
  - intros [= -> ?%Hinj]. by subst.
  - destruct rdds'; done.
  - destruct rdds; done.
  - intros ?%Hinj. by subst.
Qed.

Lemma pipeline_read read n ns : head (ProtocolProofs.pipeline read (node_rdd <$> n :: ns)) ≫= so_ShuffleRead = read.
Proof. by destruct read. Qed.

Lemma pipeline_named read rdds :
  Forall (fun o => forall rdd, so_RDD o = Some rdd -> operator_named (ro_Operator rdd)) (ProtocolProofs.pipeline read rdds) <->
  Forall (fun rdd => operator_named (ro_Operator rdd)) rdds.
Proof.
  unfold ProtocolProofs.pipeline. rewrite Forall_app, Forall_fmap. split.
  - intros [_ H]. eapply Forall_impl; [exact H|]. intros rdd Hr. by apply Hr.
  - intros H. split; [destruct read; cbn; [by constructor|constructor]|]. eapply Forall_impl; [exact H|]. by intros rdd Hr rdd' [= <-].
Qed.

Lemma later_named m : PlannerProofs.narrow_kind (op_Kind (node_Operator m)) = true ->
  later_ok (node_rdd m) <-> operator_named (node_Operator m).
Proof.
  unfold later_ok, operator_named, ProtocolProofs.narrow_kind. cbn. destruct (op_Kind (node_Operator m)); try done; intros _; tauto.
Qed.

Lemma planned_rdds_ok read n ns : NoDup (node_ID <$> n :: ns) ->
  Forall (fun m => PlannerProofs.narrow_kind (op_Kind (node_Operator m)) = true) ns ->
  op_Kind (node_Operator n) = (if is_read read then OpReduceByKey else OpSource) ->
  rdds_ok (is_read read) (node_rdd <$> n :: ns) <->
  Forall (fun rdd => operator_named (ro_Operator rdd)) (node_rdd <$> n :: ns).
Proof.
  intros Hd Hns Hk. unfold rdds_ok. rewrite <- list_fmap_compose. rewrite !fmap_cons, Forall_cons.
  assert (Hf : first_ok (is_read read) (node_Operator n) <-> operator_named (node_Operator n)).
  { unfold first_ok, operator_named. rewrite Hk. destruct (is_read read); tauto. }
  assert (Hl : Forall later_ok (node_rdd <$> ns) <-> Forall (fun rdd => operator_named (ro_Operator rdd)) (node_rdd <$> ns)).
  { rewrite !Forall_fmap. induction Hns as [|m ns Hm _ IH]; [done|]. rewrite !Forall_cons.
    cbn [compose]. rewrite <- (later_named m Hm). rewrite IH; [done|]. cbn in Hd |- *.
    apply NoDup_cons in Hd as [Hn Hd]. apply NoDup_cons in Hd as [_ Hd]. apply NoDup_cons. split; [|done]. set_solver. }
  rewrite Hl. cbn. rewrite Hf. split; [tauto|]. intros [? ?]. split; [exact Hd|done].
Qed.

Lemma planned_kind_ok a s m read n ns : planned a s -> action_ok a ->
  st_Operations s = ProtocolProofs.pipeline read (node_rdd <$> n :: ns) ->
  t_StageKind (pa_Task m) = st_Kind s -> t_FinalAction (pa_Task m) = st_FinalAction s ->
  t_ShuffleWrite (pa_Task m) = st_ShuffleWrite s ->
  kind_ok m read (node_rdd <$> n :: ns) <-> forall w, st_ShuffleWrite s = Some w -> nonblank (sw_AggregatorID w).
Proof.
  intros (read' & n' & ns' & Eops & _ & _ & _ & Hk) Ha E Ek Ef Ew.
  rewrite E in Eops. apply pipeline_inj in Eops as [-> Ens]. unfold kind_ok. rewrite Ek, Ef, Ew. destruct (st_Kind s); [| |done].
  - destruct Hk as (-> & -> & w & -> & Hp1 & Hp2). unfold write_ok. split.
    + intros (_ & _ & w' & [= <-] & _ & _ & ?). by intros w' [= <-].
    + intros Hw. split; [done|]. split; [done|]. exists w. split; [done|]. split_and!; try done. by apply Hw.
  - destruct Hk as (-> & -> & Ht). split; [done|]. intros _. split; [done|]. exists a. split; [done|].
    split; [by destruct Ha; [right|left]|]. rewrite Ens, Ht, fmap_last. by destruct (last (n' :: ns')).
Qed.

(** C20. A worker accepts what was planned, but for blank names.  For a plan that
    executes, the assignment of any of its tasks passes the worker's checks
    exactly when the run and the worker are well named, the shuffle inputs are a
    valid snapshot of what the pipeline reads, and no source path, function or
    aggregator on the pipeline is blank or in the wrong place.  The pipeline's
    shape, its target, its partition and its writes are always right. *)
Theorem planned_accepted g fs a p tasks t run key inputs worker id :
  graph_wf g -> PlanAction (Some (Some fs)) (Some g) a = Some (Ok p) -> validateExecutionPlan p = Ok tt ->
  GenerateTasks p = Ok tasks -> t ∈ tasks -> key_stage key = t_StageID t ->
  let m := message_of run key inputs t worker id in
  validateAssignment m = Ok tt <->
  lowerHex run 32 = true /\ nonblank worker /\ inputs_fit m (task_read t) /\ names_ok t.
Proof.
  intros Hwf Hplan Hexec Htasks Hin Hkey m. destruct (PlanAction_total g Hwf fs a) as (r & Hr & H).
  rewrite Hplan in Hr. injection Hr as <-. destruct H as (Hp & Ha & Hl & _).
  destruct (generated_task _ _ _ Htasks Hin) as (s & tid & i & Hs & -> & Hi).
  pose proof (planned_stage g Hwf a p s Hl Hp Hexec Hs) as Hplanned.
  pose proof Hplanned as (read & n & ns & Eops & Hd & Hns & Hk & _).
  pose proof (planned_kind_ok a s m read n ns Hplanned Ha Eops eq_refl eq_refl eq_refl) as Hkind.
  pose proof (planned_rdds_ok read n ns Hd Hns Hk) as Hrdds.
  assert (Eread : task_read (newTask s tid i) = read) by (unfold task_read; cbn [t_Operations newTask]; by rewrite Eops, pipeline_read).
  rewrite validateAssignment_spec, Eread. unfold names_ok. cbn [t_Operations t_ShuffleWrite newTask].
  rewrite Eops, pipeline_named, <- Hrdds, <- Hkind. split.
  - intros [(Hrun & Hw & _) _ _ (read' & rdds & Eops' & Hr & Hfit & Hkd)]. cbn [pa_Task m message_of newTask t_Operations] in Eops'.
    rewrite Eops in Eops'. apply pipeline_inj in Eops' as [<- <-]. done.
  - intros (Hrun & Hw & Hfit & Hr & Hkd). split; [done|done|cbn; lia|]. by exists read, (node_rdd <$> n :: ns).
Qed.

(** The jobs of the examples pass; one whose path is a space does not. *)
Definition example_action : ActionSpec := {| act_Kind := ActionCount; act_TargetRDD := 2%N |}.

Lemma planned_accepted_witness :
  exists p tasks t, PlanAction (Some (Some example_functions)) (Some example_graph) example_action = Some (Ok p) /\
    GenerateTasks p = Ok tasks /\ tasks !! 0%nat = Some t /\
    validateAssignment (message_of "0123456789abcdef0123456789abcdef" (mkKey 0%N 0%N 0%N) None t "w" 0%N) = Ok tt.
Proof.
  destruct (PlanAction (Some (Some example_functions)) (Some example_graph) example_action) as [[p|e]|] eqn:Ep;
    [|by vm_compute in Ep..].
  assert (Hx : Some (Ok p) = PlanAction (Some (Some example_functions)) (Some example_graph) example_action) by exact (eq_sym Ep).
  vm_compute in Hx. injection Hx as Hp.
  destruct (GenerateTasks p) as [tasks|e] eqn:Et; [|subst p; vm_compute in Et; discriminate Et].
  assert (Hx : Ok tasks = GenerateTasks p) by exact (eq_sym Et). rewrite Hp in Hx. vm_compute in Hx. injection Hx as Htasks.
  destruct (tasks !! 0%nat) as [t|] eqn:E0; [|subst tasks; discriminate E0].
  exists p, tasks, t. split; [done|]. split; [done|]. split; [done|].
  apply (planned_accepted example_graph example_functions example_action p tasks t _ (mkKey 0%N 0%N 0%N) None "w" 0%N
    example_graph_wf Ep).
  - rewrite Hp. vm_compute. reflexivity.
  - exact Et.
  - by eapply list_elem_of_lookup_2.
  - subst tasks. injection E0 as <-. reflexivity.
  - subst tasks. injection E0 as <-. split; [vm_compute; reflexivity|]. split; [vm_compute; reflexivity|].
    split; [exact I|]. split.
    + repeat (constructor; [intros rdd Hr; injection Hr as <-; vm_compute; by split|]). constructor.
    + intros w Hw. injection Hw as <-. vm_compute. reflexivity.
Defined.

(** A job that every check of the driver and of the schedulers lets through,
    although its source path is a space. *)
Definition blank_spec : Spec :=
  {| spec_Source := {| src_Path := " "; src_NumPartitions := 1 |}; spec_Transformations := []; spec_Action := ActionCount |}.

Definition blank_offer : HeartbeatRequest := mkHeartbeat "w" 1 (Some []).

(** Its only assignment makes the worker's poll fail, which ends [Run]. *)
Theorem blank_source_rejected :
  exists r g p t, Build blank_spec NewRDDGraph = (Ok r, g) /\
    PlanAction (Some (Some example_functions)) (Some g) (mkAction ActionCount r) = Some (Ok p) /\
    validateExecutionPlan p = Ok tt /\ GenerateTasks p = Ok [t] /\
    forall id, let m := message_of "0123456789abcdef0123456789abcdef" (mkKey 0%N 0%N 0%N) None t "w" id in
      exists err, Worker.poll None blank_offer (Ok (mkHeartbeatResponse (Some [m]))) ∅ = Err err.
Proof.
  destruct (Build blank_spec NewRDDGraph) as [[r|e] g] eqn:Eb; [|by vm_compute in Eb].
  destruct (PlanAction (Some (Some example_functions)) (Some g) (mkAction ActionCount r)) as [[p|e]|] eqn:Ep;
    [|vm_compute in Eb; injection Eb as <- <-; vm_compute in Ep; discriminate Ep..].
  vm_compute in Eb. injection Eb as <- <-. vm_compute in Ep. injection Ep as <-.
  eexists _, _, _, _. split; [reflexivity|]. split; [vm_compute; reflexivity|]. split; [vm_compute; reflexivity|].
  split; [vm_compute; reflexivity|]. intros id m. eexists. vm_compute. reflexivity.
Qed.
