(* ===== verification/Wire.v ===== *)
(** * Wire: the text of the messages

    Models [protocol/decode.go] over the part of [encoding/json] it uses: a Go
    type is a [goType], a value of it a [goValue]; [marshalType] is [json.Marshal],
    [decodeType] what [Decoder.Decode] does with [DisallowUnknownFields], and
    [checkFields] and [DecodeAndValidate] are the source's.  The texts of the
    errors of [encoding/json] are not modelled, nor which of several it reports. *)

From S2P Require Import Prelude Bytes Plan Stages Shuffle Reports Runtime Json JsonProofs ExampleFuncs.
From S2P Require Import Dag Coordinator.
#[local] Open Scope Z_scope.

(** ** Types and values *)

(** A field is its JSON name, whether it has [omitempty], and its type; [int] and
    [int64], and all [uint64] identifiers, are the same here. *)
Inductive goType :=
  | TRawMessage
  | TBool
  | TString
  | TInt
  | TUint
  | TPointer (t : goType)
  | TSlice (t : goType)
  | TStruct (fields : list (string * bool * goType)).

Inductive goValue :=
  | VRaw (data : list N)
  | VBool (b : bool)
  | VString (s : string)
  | VInt (z : Z)
  | VUint (n : N)
  | VPointer (v : option goValue)
  | VSlice (l : option (list goValue))
  | VStruct (fields : list goValue).

Notation goField := (string * bool * goType)%type.
Definition field_name (f : goField) : string := f.1.1.
Definition field_omitempty (f : goField) : bool := f.1.2.

Fixpoint zeroValue (t : goType) : goValue :=
  match t with
  | TRawMessage => VRaw []
  | TBool => VBool false
  | TString => VString ""
  | TInt => VInt 0
  | TUint => VUint 0
  | TPointer _ => VPointer None
  | TSlice _ => VSlice None
  | TStruct fields => VStruct (map (fun f => zeroValue f.2) fields)
  end.

(** ** Marshal *)

(** What [omitempty] leaves out. *)
Definition emptyValue (v : goValue) : bool :=
  match v with
  | VRaw [] | VBool false | VPointer None | VSlice None | VSlice (Some []) => true
  | VString s => bool_decide (s = "")
  | VInt z => z =? 0
  | VUint n => (n =? 0)%N
  | _ => false
  end.

Definition unsupportedType : error := Sentinel "json: unsupported type".

Definition json_array (items : list (list N)) : list N := [91%N] ++ commas items ++ [93%N].

Fixpoint marshal_all {A} (f : A -> result (list N)) (l : list A) : result (list (list N)) :=
  match l with
  | [] => Ok []
  | x :: l => p ← f x; ps ← marshal_all f l; Ok (p :: ps)
  end.

(** The members of a struct, from the encoders of its fields. *)
Fixpoint marshalFields (fields : list (string * bool * (goValue -> result (list N)))) (vs : list goValue)
    : result (list (list N)) :=
  match fields, vs with
  | [], [] => Ok []
  | (name, omitempty, encode) :: fields, v :: vs =>
      if omitempty && emptyValue v then marshalFields fields vs
      else p ← encode v; ps ← marshalFields fields vs; Ok (member name p :: ps)
  | _, _ => Err unsupportedType
  end.

Fixpoint marshalType (t : goType) (v : goValue) {struct t} : result (list N) :=
  match t, v with
  | TRawMessage, VRaw [] => Ok (bytes_of "null")
  | TRawMessage, VRaw data => fail_if (negb (json_Valid data)) syntaxError;; Ok (compact false data)
  | TBool, VBool b => Ok (bytes_of (if b then "true" else "false"))
  | TString, VString s => Ok (encodeString s)
  | TInt, VInt z => Ok (bytes_of (pretty z))
  | TUint, VUint n => Ok (bytes_of (pretty n))
  | TPointer _, VPointer None => Ok (bytes_of "null")
  | TPointer t, VPointer (Some v) => marshalType t v
  | TSlice _, VSlice None => Ok (bytes_of "null")
  | TSlice t, VSlice (Some l) => items ← marshal_all (marshalType t) l; Ok (json_array items)
  | TStruct fields, VStruct vs =>
      ms ← marshalFields (map (fun f => (f.1, marshalType f.2)) fields) vs; Ok (object ms)
  | _, _ => Err unsupportedType
  end.

(** ** The parts of a text *)

(** The text of the value [bs] starts with, without the space before it. *)
Definition rawValue (bs : list N) : result (list N * list N) :=
  let bs := skipSpace bs in
  '(_, rest) ← parseValue (S (2 * length bs)) 0 bs;
  Ok (take (length bs - length rest) bs, rest).

Fixpoint arrayLoop (fuel : nat) (bs : list N) : result (list (list N)) :=
  match fuel with
  | O => Err outOfFuel
  | S fuel =>
      '(item, t) ← rawValue bs;
      match expect 44 t with
      | Some t => items ← arrayLoop fuel t; Ok (item :: items)
      | None => match expect 93 t with Some _ => Ok [item] | None => Err syntaxError end
      end
  end.

(** [json.Unmarshal] into a slice of raw messages. *)
Definition arrayItems (data : list N) : result (list (list N)) :=
  match expect 91 data with
  | Some t => match expect 93 t with Some _ => Ok [] | None => arrayLoop (S (length t)) t end
  | None => Err syntaxError
  end.

Fixpoint objectLoop (fuel : nat) (bs : list N) : result (list (string * list N)) :=
  match fuel with
  | O => Err outOfFuel
  | S fuel =>
      match expect 34 bs with
      | None => Err syntaxError
      | Some t =>
          '(key, t) ← unquote t;
          match expect 58 t with
          | None => Err syntaxError
          | Some t =>
              '(value, t) ← rawValue t;
              let m := (string_of (fixUTF8 key), value) in
              match expect 44 t with
              | Some t => ms ← objectLoop fuel t; Ok (m :: ms)
              | None => match expect 125 t with Some _ => Ok [m] | None => Err syntaxError end
              end
          end
      end
  end.

(** The names and values the tokens of an object give. *)
Definition objectMembers (data : list N) : result (list (string * list N)) :=
  match expect 123 data with
  | Some t => match expect 125 t with Some _ => Ok [] | None => objectLoop (S (length t)) t end
  | None => Err syntaxError
  end.

(** ** Decode *)

Definition typeError : error := Sentinel "json: cannot unmarshal value".
Definition unknownField : error := Sentinel "json: unknown field".

(** [foldName]; of the runes beyond ASCII only two fold to a letter. *)
Fixpoint foldName (bs : list N) : list N :=
  match bs with
  | [] => []
  | b :: t =>
      if in_range 97 122 b then (b - 32)%N :: foldName t
      else
        match t with
        | c :: t' =>
            if (b =? 197)%N && (c =? 191)%N then 83%N :: foldName t'
            else
              match t' with
              | d :: t'' =>
                  if (b =? 226)%N && (c =? 132)%N && (d =? 170)%N then 75%N :: foldName t''
                  else b :: foldName t
              | [] => b :: foldName t
              end
        | [] => [b]
        end
  end.

Fixpoint findIndex {A} (f : A -> bool) (l : list A) : option nat :=
  match l with
  | [] => None
  | x :: l => if f x then Some O else S <$> findIndex f l
  end.

(** The field a name is decoded into: the one of that name, or the first that
    differs in case only. *)
Definition findField (names : list string) (name : string) : option nat :=
  match findIndex (String.eqb name) names with
  | Some i => Some i
  | None => findIndex (fun n => bool_decide (foldName (bytes_of n) = foldName (bytes_of name))) names
  end.

(** Of a repeated field the last value stays; [checkFields] rejects it later. *)
Fixpoint decodeLast (decode : list N -> result goValue) (v : goValue) (l : list (list N)) : result goValue :=
  match l with
  | [] => Ok v
  | data :: l => v ← decode data; decodeLast decode v l
  end.

Fixpoint decode_all (decode : list N -> result goValue) (l : list (list N)) : result (list goValue) :=
  match l with
  | [] => Ok []
  | data :: l => v ← decode data; vs ← decode_all decode l; Ok (v :: vs)
  end.

(** The values of field [i] and of those after it. *)
Fixpoint decodeFields (names : list string) (members : list (string * list N)) (i : nat)
    (fields : list (goValue * (list N -> result goValue))) : result (list goValue) :=
  match fields with
  | [] => Ok []
  | (zero, decode) :: fields =>
      v ← decodeLast decode zero (snd <$> List.filter (fun m => bool_decide (findField names m.1 = Some i)) members);
      vs ← decodeFields names members (S i) fields;
      Ok (v :: vs)
  end.

Definition is_null (data : list N) : bool := bool_decide (data = bytes_of "null").

(** [data] is the text of one value; [null] leaves a value as it is, which is
    zero. *)
Fixpoint decodeType (t : goType) (data : list N) {struct t} : result goValue :=
  match t with
  | TRawMessage => Ok (VRaw data)
  | TPointer t => if is_null data then Ok (VPointer None) else v ← decodeType t data; Ok (VPointer (Some v))
  | _ =>
      if is_null data then Ok (zeroValue t)
      else
        match t with
        | TBool =>
            if bool_decide (data = bytes_of "true") then Ok (VBool true)
            else if bool_decide (data = bytes_of "false") then Ok (VBool false) else Err typeError
        | TString =>
            match expect 34 data with
            | Some t => '(s, _) ← unquote t; Ok (VString (string_of (fixUTF8 s)))
            | None => Err typeError
            end
        | TInt => if isValidNumber data then z ← ParseInt (string_of data); Ok (VInt z) else Err typeError
        | TUint =>
            match parseUint data with
            | Some n => if (n <? 2 ^ 64)%N then Ok (VUint n) else Err typeError
            | None => Err typeError
            end
        | TSlice t => items ← arrayItems data; vs ← decode_all (decodeType t) items; Ok (VSlice (Some vs))
        | TStruct fields =>
            members ← objectMembers data;
            let names := map field_name fields in
            fail_if (existsb (fun m => bool_decide (findField names m.1 = None)) members) unknownField;;
            vs ← decodeFields names members 0 (map (fun f => (zeroValue f.2, decodeType f.2)) fields);
            Ok (VStruct vs)
        | _ => Err typeError
        end
  end.

(** ** The checks of the text *)

(** [bytes.TrimSpace]. *)
Definition trimBytes (data : list N) : list N := rev (trimReversed (rev (trimLeft data))).

Definition nullText (data : list N) : bool := is_null (trimBytes data).

(** The loop over the members; [check] has the checker of each field. *)
Fixpoint checkMembers (fields : list (string * bool * (string -> list N -> result unit))) (path : string)
    (seen : list string) (members : list (string * list N)) : result (list string) :=
  match members with
  | [] => Ok seen
  | (name, value) :: members =>
      match List.find (fun f => String.eqb name f.1.1) fields with
      | None => Err (Errorf "%s has unknown field %q" [FStr path; FStr name])
      | Some f =>
          fail_if (bool_decide (name ∈ seen)) (Errorf "%s has duplicate field %q" [FStr path; FStr name]);;
          _ ← f.2 (path +:+ "." +:+ name) value;
          checkMembers fields path (name :: seen) members
      end
  end.

Fixpoint checkMissing (fields : list (string * bool * (string -> list N -> result unit))) (path : string)
    (seen : list string) : result unit :=
  match fields with
  | [] => Ok tt
  | f :: fields =>
      fail_if (negb (bool_decide (f.1.1 ∈ seen)) && negb f.1.2)
        (Errorf "%s is missing field %q" [FStr path; FStr f.1.1]);;
      checkMissing fields path seen
  end.

Fixpoint checkFields (t : goType) (path : string) (data : list N) {struct t} : result unit :=
  match t with
  | TRawMessage => Ok tt
  | TPointer t => if nullText data then Ok tt else checkFields t path data
  | TSlice t =>
      if nullText data then Ok tt
      else items ← arrayItems data; check_all (fun i item => checkFields t (path +:+ "[" +:+ pretty (Z.of_nat i) +:+ "]") item) 0 items
  | TStruct fields =>
      fail_if (nullText data) (Errorf "%s must not be null" [FStr path]);;
      match expect 123 data with
      | None => Err (Errorf "%s must be an object" [FStr path])
      | Some _ =>
          members ← objectMembers data;
          let table := map (fun f => (f.1, checkFields f.2)) fields in
          seen ← checkMembers table path [] members;
          checkMissing table path seen
      end
  | _ => fail_if (nullText data) (Errorf "%s must not be null" [FStr path]);; Ok tt
  end.

(** ** Messages *)

Notation ErrMessageTooLarge := "protocol message exceeds size limit"%string (only parsing).

(** What a reader gives: its bytes, and the error that ends them if they do not
    end by themselves. *)
Record reader := mkReader { rd_content : list N; rd_err : option error }.

(** A message: its struct type, its fields as values, and [Validate]. *)
Class Message (M : Type) := {
  wire_type : goType;
  to_wire : M -> goValue;
  of_wire : goValue -> option M;
  validateMessage : M -> result unit }.

Definition invalidMessage (format : string) (args : list farg) : error :=
  Errorf ("%w: " +:+ format) (FWrap (Sentinel ErrInvalidMessage) :: args).

Definition DecodeAndValidate {M} `{Message M} (r : reader) (maxBytes : Z) : result M :=
  fail_if ((maxBytes <=? 0) || (maxBytes =? 2 ^ 63 - 1))
    (Errorf "decode requires a reader, positive bounded limit, and struct message type" []);;
  let data := rd_content r in
  fail_if (maxBytes <? Z.of_nat (length data)) (Sentinel ErrMessageTooLarge);;
  _ ← match rd_err r with
      | Some err => Err (Errorf "read protocol message: %w" [FWrap err])
      | None => Ok tt
      end;
  '(value, rest) ← map_err (fun err => invalidMessage "%w" [FWrap err]) (rawValue data);
  decoded ← map_err (fun err => invalidMessage "%w" [FWrap err]) (decodeType wire_type value);
  fail_if (negb (bool_decide (skipSpace rest = []))) (invalidMessage "multiple JSON values" []);;
  _ ← map_err (fun err => invalidMessage "%w" [FWrap err]) (checkFields wire_type "message" data);
  match of_wire decoded with
  | None => Err panic_nil
  | Some message =>
      _ ← map_err (fun err => invalidMessage "%w" [FWrap err]) (validateMessage message);
      Ok message
  end.

(** [json.Marshal] of a message. *)
Definition Marshal {M} `{Message M} (m : M) : result (list N) := marshalType wire_type (to_wire m).
