(* ===== verification/WireProofs.v ===== *)
(** * WireProofs: what is marshalled is decoded

    For a value that a Go program can marshal ([value_ok]), of a type whose fields
    have distinct names ([type_ok]): its text is one JSON value ([wired]), which
    the typed decoder reads back and the field checks accept. *)

From S2P Require Import Prelude Bytes Plan Stages Shuffle Reports Runtime Json JsonProofs ExampleFuncs.
From S2P Require Import Dag Coordinator Wire.
#[local] Open Scope Z_scope.

(** ** Types and values *)

Definition is_struct (t : goType) : bool := match t with TStruct _ => true | _ => false end.

(** Fields have distinct names, in UTF-8, and pointers point to structs. *)
Fixpoint type_ok (t : goType) : bool :=
  match t with
  | TPointer t => is_struct t && type_ok t
  | TSlice t => type_ok t
  | TStruct fields =>
      bool_decide (NoDup (map field_name fields)) && forallb utf8_ValidString (map field_name fields) &&
      forallb id (map (fun f => type_ok f.2) fields)
  | _ => true
  end.

(** How deep the text of a value is nested at most; a raw message may have most of
    the 10000 levels. *)
Definition rawDepth : N := 9000.

Fixpoint typeDepth (t : goType) : N :=
  match t with
  | TRawMessage => rawDepth
  | TPointer t => typeDepth t
  | TSlice t => 1 + typeDepth t
  | TStruct fields => 1 + foldr N.max 0 (map (fun f => typeDepth f.2) fields)
  | _ => 0
  end%N.

(** Compact text of one value. *)
Definition raw_ok (data : list N) : Prop :=
  compact false data = data /\ exists a, decodes data a rawDepth.

(** What [omitempty] leaves out is zero: no empty slice that is not nil. *)
Fixpoint value_ok (t : goType) (v : goValue) {struct t} : Prop :=
  match t, v with
  | TRawMessage, VRaw data => raw_ok data
  | TBool, VBool _ => True
  | TString, VString s => utf8_ValidString s = true
  | TInt, VInt z => MinInt64 <= z <= ExampleFuncs.MaxInt64
  | TUint, VUint n => (n < 2 ^ 64)%N
  | TPointer t, VPointer o => match o with Some v => value_ok t v | None => True end
  | TSlice t, VSlice o => match o with Some l => Forall (value_ok t) l | None => True end
  | TStruct fields, VStruct vs =>
      Forall2 (fun (ok : goValue -> Prop) v => ok v)
        (map (fun f v => value_ok f.2 v /\ (f.1.2 = true -> emptyValue v = true -> v = zeroValue f.2)) fields) vs
  | _, _ => False
  end.

Section goType_nested.
Variable P : goType -> Prop.
Hypothesis Hraw : P TRawMessage.
Hypothesis Hbool : P TBool.
Hypothesis Hstring : P TString.
Hypothesis Hint : P TInt.
Hypothesis Huint : P TUint.
Hypothesis Hpointer : forall t, P t -> P (TPointer t).
Hypothesis Hslice : forall t, P t -> P (TSlice t).
Hypothesis Hstruct : forall fields, Forall (fun f => P f.2) fields -> P (TStruct fields).

Fixpoint goType_nested (t : goType) : P t :=
  match t with
  | TRawMessage => Hraw
  | TBool => Hbool
  | TString => Hstring
  | TInt => Hint
  | TUint => Huint
  | TPointer t => Hpointer t (goType_nested t)
  | TSlice t => Hslice t (goType_nested t)
  | TStruct fields =>
      Hstruct fields
        ((fix go l : Forall (fun f => P f.2) l :=
            match l with [] => Forall_nil_2 _ | f :: l => Forall_cons_2 _ f l (goType_nested f.2) (go l) end) fields)
  end.
End goType_nested.

(** ** The parts of a text *)

Lemma skipSpace_value p rest : value_start p -> skipSpace (p ++ rest) = p ++ rest.
Proof. intros (b & t & -> & Hb & _). by apply skipSpace_head. Qed.

Lemma rawValue_parsed p a rest : value_start p ->
  (forall fuel, (length p < fuel)%nat -> parseValue fuel 0 (p ++ rest) = Ok (a, rest)) -> rawValue (p ++ rest) = Ok (p, rest).
Proof.
  intros Hs H. unfold rawValue. rewrite skipSpace_value by done. rewrite H by (rewrite length_app; lia).
  cbn. rewrite length_app. replace (length p + length rest - length rest)%nat with (length p) by lia. by rewrite take_app_length.
Qed.

Lemma rawValue_app p a n rest : decodes p a n -> (n <= maxNestingDepth)%N -> after_value rest -> rawValue (p ++ rest) = Ok (p, rest).
Proof. intros [Hs H] Hn Hr. apply (rawValue_parsed _ a); [done|]. intros fuel Hf. by apply H. Qed.

(** Text of a value that nests at most [n] deep. *)
Definition text (n : N) (p : list N) : Prop := exists a, decodes p a n.

Lemma text_mono n n' p : text n p -> (n <= n')%N -> text n' p.
Proof. intros [a Ha] Hn. exists a. by eapply decodes_mono. Qed.

Lemma text_start n p : text n p -> value_start p.
Proof. by intros (a & Hs & _). Qed.

Lemma arrayLoop_spec n ps : (n <= maxNestingDepth)%N -> Forall (text n) ps -> ps <> [] ->
  forall fuel rest, (length ps <= fuel)%nat -> arrayLoop fuel (commas ps ++ 93%N :: rest) = Ok ps.
Proof.
  intros Hn. induction 1 as [|p ps [a Hp] Hps IH]; [done|]. intros _ [|fuel] rest Hf; cbn in Hf; [lia|]. cbn [arrayLoop].
  destruct ps as [|p' ps].
  - cbn [commas]. rewrite (rawValue_app p a n) by (done || (cbn; set_solver)). done.
  - change (commas (p :: p' :: ps)) with (p ++ [44%N] ++ commas (p' :: ps)). rewrite <- !app_assoc.
    rewrite (rawValue_app p a n) by (done || (cbn; set_solver)). cbn [mbind result_bind].
    change (expect 44 ([44%N] ++ commas (p' :: ps) ++ 93%N :: rest)) with (Some (commas (p' :: ps) ++ 93%N :: rest)).
    cbn beta iota. rewrite IH; [done|done|cbn in *; lia].
Qed.

Lemma commas_length ps n : Forall (text n) ps -> (length ps <= length (commas ps))%nat.
Proof.
  induction 1 as [|p ps Hp Hps IH]; [done|]. destruct (text_start _ _ Hp) as (b & t & -> & _).
  destruct ps; [cbn; lia|]. change (commas ((b :: t) :: l :: ps)) with ((b :: t) ++ [44%N] ++ commas (l :: ps)).
  rewrite !length_app. cbn [length] in *. lia.
Qed.

Lemma arrayItems_spec n ps : (n <= maxNestingDepth)%N -> Forall (text n) ps -> arrayItems (json_array ps) = Ok ps.
Proof.
  intros Hn H. unfold arrayItems, json_array.
  change (expect 91 ([91%N] ++ commas ps ++ [93%N])) with (Some (commas ps ++ [93%N])). cbn beta iota.
  destruct ps as [|p ps]; [done|].
  rewrite expect_other; [|apply commas_start; eapply text_start; by inversion_clear H|by left].
  eapply arrayLoop_spec; [done|done|done|]. pose proof (commas_length _ _ H). rewrite length_app. lia.
Qed.

(** The members of an object: a name and the text of a value. *)
Definition named (m : string * list N) : list N := member m.1 m.2.

Lemma objectLoop_spec n ms : (n <= maxNestingDepth)%N ->
  Forall (fun m => utf8_ValidString m.1 = true /\ text n m.2) ms -> ms <> [] ->
  forall fuel rest, (length ms <= fuel)%nat ->
    objectLoop fuel (commas (map named ms) ++ 125%N :: rest) = Ok ms.
Proof.
  intros Hn. induction 1 as [|[name p] ms [Hname [a Hp]] Hms IH]; [done|]. intros _ [|fuel] rest Hf; cbn in Hf; [lia|].
  cbn [fst snd] in *.
  assert (Hstep : forall t, after_value t -> objectLoop (S fuel) (member name p ++ t) =
    match expect 44 t with
    | Some t => ms ← objectLoop fuel t; Ok ((name, p) :: ms)
    | None => match expect 125 t with Some _ => Ok [(name, p)] | None => Err syntaxError end
    end).
  { intros t Ht. unfold member. rewrite <- !app_assoc. cbn [objectLoop].
    destruct (encodeString_read name ([58%N] ++ p ++ t)) as (t1 & -> & Ht1).
    change (expect 34 (34%N :: t1)) with (Some t1). cbn beta iota. rewrite Ht1. cbn [mbind result_bind].
    change (expect 58 ([58%N] ++ p ++ t)) with (Some (p ++ t)). cbn beta iota.
    rewrite (rawValue_app p a n) by done. cbn [mbind result_bind].
    by rewrite !fixUTF8_valid, string_of_bytes by (rewrite ?fixUTF8_valid by done; done). }
  destruct ms as [|m ms].
  - cbn [map commas]. unfold named. cbn [fst snd]. rewrite Hstep by (cbn; set_solver). done.
  - change (commas (map named ((name, p) :: m :: ms))) with (member name p ++ [44%N] ++ commas (map named (m :: ms))).
    rewrite <- !app_assoc, Hstep by (cbn; set_solver).
    change (expect 44 ([44%N] ++ commas (map named (m :: ms)) ++ 125%N :: rest))
      with (Some (commas (map named (m :: ms)) ++ 125%N :: rest)). cbn beta iota.
    rewrite IH; [done|done|cbn in *; lia].
Qed.

Lemma members_length ms : (length ms <= length (commas (map named ms)))%nat.
Proof.
  induction ms as [|m ms IH]; [done|]. destruct ms as [|m' ms]; [cbn; lia|].
  change (commas (map named (m :: m' :: ms))) with (named m ++ [44%N] ++ commas (map named (m' :: ms))).
  rewrite !length_app. cbn [length] in *. lia.
Qed.

Lemma objectMembers_spec n ms rest : (n <= maxNestingDepth)%N ->
  Forall (fun m => utf8_ValidString m.1 = true /\ text n m.2) ms -> objectMembers (object (map named ms) ++ rest) = Ok ms.
Proof.
  intros Hn H. unfold objectMembers, object. rewrite <- !app_assoc.
  change (expect 123 ([123%N] ++ commas (map named ms) ++ [125%N] ++ rest)) with (Some (commas (map named ms) ++ 125%N :: rest)).
  cbn beta iota. destruct ms as [|m ms]; [done|].
  rewrite expect_other; [|apply commas_start; by do 2 eexists|by right].
  apply (objectLoop_spec n); [done|done|done|]. pose proof (members_length (m :: ms)). rewrite length_app. lia.
Qed.

(** A text that does not start like [null] or a space. *)
Definition not_null (p : list N) : Prop := exists b t, p = b :: t /\ (b < 128)%N /\ space1 b = false /\ b <> 110%N.

Lemma trimReversed_suffix bs : exists q, bs = q ++ trimReversed bs.
Proof.
  remember (length bs) as n eqn:En. revert bs En. induction (lt_wf n) as [n _ IH]. intros bs ->.
  assert (Hrec : forall q t, bs = q ++ t -> (length t < length bs)%nat -> exists q', bs = q' ++ trimReversed t).
  { intros q t -> Ht. destruct (IH (length t) Ht t eq_refl) as (q' & E). exists (q ++ q'). by rewrite <- app_assoc, <- E. }
  destruct bs as [|b0 t0]; [by exists []|]. cbn [trimReversed].
  destruct (space1 b0); [apply (Hrec [b0]); [done|cbn; lia]|].
  destruct t0 as [|b1 t1]; [by exists []|]. destruct (space2 b1 b0); [apply (Hrec [b0; b1]); [done|cbn; lia]|].
  destruct t1 as [|b2 t2]; [by exists []|]. destruct (space3 b2 b1 b0); [apply (Hrec [b0; b1; b2]); [done|cbn; lia]|by exists []].
Qed.

Lemma trimLeft_ascii b t : (b < 128)%N -> space1 b = false -> trimLeft (b :: t) = b :: t.
Proof.
  intros Hb Hs. cbn [trimLeft]. rewrite Hs. destruct t as [|b1 t1]; [done|].
  assert (space2 b b1 = false) as ->.
  { unfold space2. destruct (N.eqb_spec b 194); [lia|done]. }
  destruct t1 as [|b2 t2]; [done|].
  assert (space3 b b1 b2 = false) as ->; [|done].
  unfold space3. destruct (N.eqb_spec b 225), (N.eqb_spec b 226), (N.eqb_spec b 227); try lia; done.
Qed.

Lemma not_null_text p : not_null p -> nullText p = false /\ is_null p = false.
Proof.
  intros (b & t & -> & Hb & Hs & Hn). unfold nullText, is_null, trimBytes. rewrite trimLeft_ascii by done.
  split; apply bool_decide_eq_false_2; [|by intros [= ->]].
  destruct (trimReversed_suffix (rev (b :: t))) as (q & E). apply (f_equal (@rev N)) in E.
  rewrite rev_involutive, rev_app_distr in E. destruct (rev (trimReversed _)) as [|c r]; [done|].
  injection E as <- _. by intros [= ->].
Qed.

(** ** Values *)

(** The text [p] of [v] is one value, which is decoded to [v] and accepted, a
    struct with anything after it. *)
Record wired (t : goType) (v : goValue) (p : list N) : Prop := {
  wr_marshal : marshalType t v = Ok p;
  wr_text : text (typeDepth t) p;
  wr_decode : decodeType t p = Ok v;
  wr_check path : checkFields t path p = Ok tt;
  wr_struct : is_struct t = true -> not_null p /\
    forall rest, rawValue (p ++ rest) = Ok (p, rest) /\ forall path, checkFields t path (p ++ rest) = Ok tt }.

(** A scalar that is not [null]. *)
Lemma wired_scalar t v p : is_struct t = false -> (forall t', t <> TPointer t') -> (forall t', t <> TSlice t') -> t <> TRawMessage ->
  marshalType t v = Ok p -> text 0 p -> decodeType t p = Ok v -> not_null p -> wired t v p.
Proof.
  intros Hs Hp Hl Hr Hm Ht Hd Hn. destruct (not_null_text p Hn) as [E _].
  split; try done; destruct t; try done; try (by destruct (Hp t)); try (by destruct (Hl t)); intros; cbn; by rewrite E.
Qed.

Lemma digit_head d ds : (48 <= d <= 57)%N -> not_null (d :: ds).
Proof.
  intros Hd. exists d, ds. split_and!; [done|lia| |lia]. unfold space1, in_range.
  destruct (N.leb_spec 9 d), (N.leb_spec d 13), (N.eqb_spec d 32); try lia; done.
Qed.

Lemma pretty_Z_head (z : Z) : not_null (bytes_of (pretty z)).
Proof.
  destruct z as [|p|p].
  - by apply digit_head.
  - destruct (pretty_N_number (N.pos p)) as (_ & d & ds & E & Hd).
    change (bytes_of (pretty (Z.pos p))) with (bytes_of (pretty (N.pos p))). rewrite E. by apply digit_head.
  - exists 45%N, (bytes_of (pretty (N.pos p))). by split_and!.
Qed.

Lemma wired_bool b : wired TBool (VBool b) (bytes_of (if b then "true" else "false")).
Proof.
  apply wired_scalar; try done.
  - exists (ABool b). destruct b; apply decodes_word; set_solver.
  - by destruct b.
  - destruct b; by do 2 eexists.
Qed.

Lemma wired_string s : utf8_ValidString s = true -> wired TString (VString s) (encodeString s).
Proof.
  intros Hs. apply wired_scalar; try done.
  - eexists. apply decodes_string.
  - pose proof (encodeString_read s []) as (t & E & Ht). rewrite app_nil_r in E. cbn [decodeType]. rewrite E.
    change (is_null (34%N :: t)) with false. change (expect 34 (34%N :: t)) with (Some t). cbn beta iota. rewrite Ht.
    cbn [mbind result_bind]. rewrite !fixUTF8_valid, string_of_bytes by (rewrite ?fixUTF8_valid by done; done). done.
  - by do 2 eexists.
Qed.

Lemma wired_int z : MinInt64 <= z <= ExampleFuncs.MaxInt64 -> wired TInt (VInt z) (bytes_of (pretty z)).
Proof.
  intros Hz. pose proof (pretty_Z_head z) as Hn. apply wired_scalar; try done.
  - eexists. by apply decodes_number, pretty_Z_number.
  - cbn [decodeType]. destruct (not_null_text _ Hn) as [_ ->]. rewrite pretty_Z_number, string_of_bytes.
    by rewrite ParseInt_pretty.
Qed.

Lemma wired_uint n : (n < 2 ^ 64)%N -> wired TUint (VUint n) (bytes_of (pretty n)).
Proof.
  intros Hn. destruct (pretty_N_number n) as (Hu & d & ds & E & Hd).
  assert (Hnull : not_null (bytes_of (pretty n))) by (rewrite E; by apply digit_head).
  apply wired_scalar; try done.
  - eexists. apply decodes_number. pose proof (pretty_Z_number (Z.of_N n)) as H. by destruct n.
  - cbn [decodeType]. destruct (not_null_text _ Hnull) as [_ ->]. rewrite parseUint_pretty.
    by destruct (N.ltb_spec n (2 ^ 64)); [|lia].
Qed.

Lemma null_text n : text n (bytes_of "null").
Proof. apply (text_mono 0); [|lia]. exists ANil. apply decodes_word. set_solver. Qed.

Lemma wired_raw data : raw_ok data -> wired TRawMessage (VRaw data) data.
Proof.
  intros [Hc [a Ha]]. assert (Hv : json_Valid data = true).
  { destruct Ha as [_ H]. unfold json_Valid. specialize (H (S (2 * length data)) 0%N [] ltac:(lia) ltac:(done) I).
    rewrite app_nil_r in H. by rewrite H. }
  split; try done; [|by exists a]. destruct Ha as [(b & t & -> & _) _]. cbn [marshalType]. rewrite Hv. cbn. by f_equal.
Qed.

Lemma wired_nil_pointer t : wired (TPointer t) (VPointer None) (bytes_of "null").
Proof. split; [done|apply null_text|done|done|done]. Qed.

Lemma wired_nil_slice t : wired (TSlice t) (VSlice None) (bytes_of "null").
Proof. split; [done|apply null_text|done|done|done]. Qed.

Lemma wired_pointer t v p : is_struct t = true -> wired t v p -> wired (TPointer t) (VPointer (Some v)) p.
Proof.
  intros Hs [Hm Ht Hd Hc Hn]. destruct (not_null_text p (proj1 (Hn Hs))) as [E1 E2].
  split; cbn; [done|done| | |done]; [by rewrite E2, Hd|intros; by rewrite E1].
Qed.

Lemma marshal_all_wired t vs ps : Forall2 (wired t) vs ps -> marshal_all (marshalType t) vs = Ok ps.
Proof. induction 1 as [|v p vs ps H _ IH]; [done|]. cbn. by rewrite (wr_marshal _ _ _ H), IH. Qed.

Lemma decode_all_wired t vs ps : Forall2 (wired t) vs ps -> decode_all (decodeType t) ps = Ok vs.
Proof. induction 1 as [|v p vs ps H _ IH]; [done|]. cbn. by rewrite (wr_decode _ _ _ H), IH. Qed.

Lemma bracket_not_null b t : b = 91%N \/ b = 123%N -> not_null (b :: t).
Proof. intros [->| ->]; by do 2 eexists. Qed.

Lemma wired_slice t vs ps : (1 + typeDepth t <= maxNestingDepth)%N -> Forall2 (wired t) vs ps ->
  wired (TSlice t) (VSlice (Some vs)) (json_array ps).
Proof.
  intros Hdepth H. assert (Htext : Forall (text (typeDepth t)) ps).
  { apply Forall_forall. intros p [i Hi]%list_elem_of_lookup_1.
    destruct (Forall2_lookup_r _ _ _ _ _ H Hi) as (v & _ & Hv). apply Hv. }
  destruct (not_null_text (json_array ps) (bracket_not_null _ _ (or_introl eq_refl))) as [E1 E2].
  assert (Hitems : arrayItems (json_array ps) = Ok ps) by (eapply arrayItems_spec; [|exact Htext]; lia).
  split; cbn [typeDepth].
  - cbn. by rewrite (marshal_all_wired _ _ _ H).
  - assert (exists vs, Forall2 (fun p a => decodes p a (typeDepth t)) ps vs) as [as_ Has].
    { clear -Htext. induction Htext as [|p ps [a Ha] _ [l Hl]]; [by exists []|]. exists (a :: l). by constructor. }
    eexists. by apply decodes_array.
  - cbn [decodeType]. rewrite E2, Hitems. cbn [mbind result_bind]. by rewrite (decode_all_wired _ _ _ H).
  - intros path. cbn [checkFields]. rewrite E1, Hitems. cbn [mbind result_bind]. apply check_all_Ok.
    intros j p Hp. destruct (Forall2_lookup_r _ _ _ _ _ H Hp) as (v & _ & Hv). apply Hv.
  - done.
Qed.

(** ** Structs *)

(** The fields of a struct, their values, and the texts of those that are not left
    out. *)
Inductive encoded : list goField -> list goValue -> list (option (list N)) -> Prop :=
  | encoded_nil : encoded [] [] []
  | encoded_omitted f fields v vs ps :
      f.1.2 = true -> emptyValue v = true -> v = zeroValue f.2 -> encoded fields vs ps ->
      encoded (f :: fields) (v :: vs) (None :: ps)
  | encoded_member f fields v vs p ps :
      f.1.2 && emptyValue v = false -> wired f.2 v p -> encoded fields vs ps ->
      encoded (f :: fields) (v :: vs) (Some p :: ps).

Fixpoint membersOf (fields : list goField) (ps : list (option (list N))) : list (string * list N) :=
  match fields, ps with
  | f :: fields, Some p :: ps => (field_name f, p) :: membersOf fields ps
  | f :: fields, None :: ps => membersOf fields ps
  | _, _ => []
  end.

Lemma encoded_marshal fields vs ps : encoded fields vs ps ->
  marshalFields (map (fun f => (f.1, marshalType f.2)) fields) vs = Ok (map named (membersOf fields ps)).
Proof.
  induction 1 as [|[[name om] t] fields v vs ps Ho He Hz H IH|[[name om] t] fields v vs p ps Ho Hp H IH]; cbn in *; [done| |].
  - by rewrite Ho, He.
  - by rewrite Ho, (wr_marshal _ _ _ Hp), IH.
Qed.

Lemma membersOf_names fields vs ps m : encoded fields vs ps -> m ∈ membersOf fields ps -> m.1 ∈ map field_name fields.
Proof.
  induction 1 as [|f fields v vs ps Ho He Hz H IH|f fields v vs p ps Ho Hp H IH]; cbn; [by intros ?%elem_of_nil| |].
  - intros Hm. right. by apply IH.
  - intros [->|Hm]%elem_of_cons; [by left|right; by apply IH].
Qed.

Notation fieldsDepth fields := (foldr N.max 0%N (map (fun f : goField => typeDepth f.2) fields)).

Definition member_ok (n : N) (m : string * list N) : Prop := utf8_ValidString m.1 = true /\ text n m.2.

Lemma members_mono n n' ms : Forall (member_ok n) ms -> (n <= n')%N -> Forall (member_ok n') ms.
Proof. intros H Hn. eapply Forall_impl; [exact H|]. intros m [Hm Ht]. split; [done|]. by eapply text_mono. Qed.

Lemma membersOf_text fields vs ps : encoded fields vs ps -> forallb utf8_ValidString (map field_name fields) = true ->
  Forall (member_ok (fieldsDepth fields)) (membersOf fields ps).
Proof.
  induction 1 as [|f fields v vs ps Ho He Hz H IH|f fields v vs p ps Ho Hp H IH]; cbn [map forallb membersOf];
    [constructor| |]; intros [Hf Hfs]%andb_true_iff.
  - eapply members_mono; [by apply IH|]. cbn. lia.
  - constructor; [split; [done|]|eapply members_mono; [by apply IH|cbn; lia]]. eapply text_mono; [apply Hp|]. cbn. lia.
Qed.

(** *** The field of a name *)

Lemma findIndex_Some {A} (f : A -> bool) l i : findIndex f l = Some i -> exists x, l !! i = Some x /\ f x = true.
Proof.
  revert i. induction l as [|x l IH]; intros i; cbn; [done|]. destruct (f x) eqn:E; [intros [= <-]; by exists x|].
  destruct (findIndex f l) as [j|] eqn:Ej; [|done]. intros [= <-]. by apply IH.
Qed.

Lemma findField_exact names i name : NoDup names -> names !! i = Some name -> findField names name = Some i.
Proof.
  intros Hnd Hi. unfold findField. destruct (findIndex (String.eqb name) names) as [j|] eqn:Ej.
  - apply findIndex_Some in Ej as (n & Hj & ->%String.eqb_eq). f_equal. by eapply NoDup_lookup.
  - exfalso. clear Hnd. revert i Hi. induction names as [|n names IH]; intros i; [done|]. cbn in Ej.
    destruct (String.eqb_spec name n) as [E|Hne]; [done|]. destruct (findIndex _ names); [done|].
    destruct i as [|i]; cbn; [intros [= E]; by destruct Hne|]. by apply IH.
Qed.

(** The values of field [i], looking from field [k] on. *)
Definition values_at (names : list string) (i : nat) (ms : list (string * list N)) : list (list N) :=
  snd <$> List.filter (fun m => bool_decide (findField names m.1 = Some i)) ms.

Lemma values_before names fields vs ps k i : NoDup names -> encoded fields vs ps ->
  (forall j f, fields !! j = Some f -> names !! (k + j)%nat = Some (field_name f)) -> (i < k)%nat ->
  values_at names i (membersOf fields ps) = [].
Proof.
  intros Hnd H. revert k. induction H as [|f fields v vs ps Ho He Hz H IH|f fields v vs p ps Ho Hp H IH]; intros k Hn Hi; [done| |].
  - apply (IH (S k)); [|lia]. intros j g Hj. replace (S k + j)%nat with (k + S j)%nat by lia. by apply Hn.
  - unfold values_at. cbn [membersOf List.filter fst]. rewrite (findField_exact names k).
    + rewrite bool_decide_eq_false_2 by (intros [= ->]; lia). apply (IH (S k)); [|lia].
      intros j g Hj. replace (S k + j)%nat with (k + S j)%nat by lia. by apply Hn.
    + done.
    + rewrite <- (Nat.add_0_r k). by apply Hn.
Qed.

Lemma decodeFields_spec names fields vs ps k before : NoDup names -> encoded fields vs ps ->
  (forall j f, fields !! j = Some f -> names !! (k + j)%nat = Some (field_name f)) ->
  (forall i, (k <= i)%nat -> values_at names i before = []) ->
  decodeFields names (before ++ membersOf fields ps) k (map (fun f => (zeroValue f.2, decodeType f.2)) fields) = Ok vs.
Proof.
  intros Hnd H. revert k before.
  induction H as [|f fields v vs ps Ho He Hz H IH|f fields v vs p ps Ho Hp H IH]; intros k before Hn Hb; [done| |];
    assert (Hn' : forall j g, fields !! j = Some g -> names !! (S k + j)%nat = Some (field_name g))
      by (intros j g Hj; replace (S k + j)%nat with (k + S j)%nat by lia; by apply Hn).
  - cbn [map decodeFields membersOf]. fold (values_at names k (before ++ membersOf fields ps)).
    assert (values_at names k (before ++ membersOf fields ps) = []) as ->.
    { unfold values_at. rewrite List.filter_app, fmap_app. fold (values_at names k before).
      fold (values_at names k (membersOf fields ps)). rewrite Hb by done.
      apply (values_before names fields vs ps (S k)); [done|done|done|lia]. }
    cbn [decodeLast mbind result_bind]. rewrite IH; [by rewrite Hz|done|]. intros i Hi. apply Hb. lia.
  - cbn [map decodeFields membersOf].
    assert (Hk : findField names (field_name f) = Some k).
    { apply findField_exact; [done|]. rewrite <- (Nat.add_0_r k). by apply Hn. }
    fold (values_at names k (before ++ (field_name f, p) :: membersOf fields ps)).
    assert (values_at names k (before ++ (field_name f, p) :: membersOf fields ps) = [p]) as ->.
    { unfold values_at. rewrite List.filter_app, fmap_app. fold (values_at names k before). rewrite Hb by done.
      cbn [List.filter fst]. rewrite Hk, bool_decide_eq_true_2 by done. cbn [app fmap list_fmap snd].
      fold (values_at names k (membersOf fields ps)). f_equal.
      apply (values_before names fields vs ps (S k)); [done|done|done|lia]. }
    cbn [decodeLast]. rewrite (wr_decode _ _ _ Hp). cbn [mbind result_bind].
    rewrite (cons_middle (field_name f, p)), app_assoc, IH; [done|done|].
    intros i Hi. unfold values_at. rewrite List.filter_app, fmap_app. fold (values_at names i before). rewrite Hb by lia.
    cbn [List.filter fst]. by rewrite Hk, bool_decide_eq_false_2 by (intros [= ->]; lia).
Qed.

(** *** The checks *)

Notation checkTable fields := (map (fun f : goField => (f.1, checkFields f.2)) fields).

Lemma find_field fields i (f : goField) : NoDup (map field_name fields) -> fields !! i = Some f ->
  List.find (fun g => String.eqb (field_name f) g.1.1) (checkTable fields) = Some (f.1, checkFields f.2).
Proof.
  revert i. induction fields as [|g fields IH]; intros i Hnd; [done|]. cbn [map] in Hnd. apply NoDup_cons in Hnd as [Hg Hnd].
  destruct i as [|i]; cbn; [intros [= ->]; unfold field_name; by rewrite String.eqb_refl|]. intros Hi.
  destruct (String.eqb_spec (field_name f) g.1.1) as [E|_]; [|by eapply IH].
  destruct Hg. unfold field_name at 1. rewrite <- E. change (field_name f ∈ field_name <$> fields).
  apply list_elem_of_fmap. exists f. split; [done|]. by eapply list_elem_of_lookup_2.
Qed.

Lemma checkMembers_spec all path fields vs ps seen : NoDup (map field_name all) -> encoded fields vs ps ->
  (forall f, f ∈ fields -> f ∈ all) -> NoDup (map field_name fields) -> (forall f, f ∈ fields -> field_name f ∉ seen) ->
  exists seen', checkMembers (checkTable all) path seen (membersOf fields ps) = Ok seen' /\
    (forall name, name ∈ seen -> name ∈ seen') /\
    (forall f, f ∈ fields -> f.1.2 = false -> field_name f ∈ seen').
Proof.
  intros Hall H. revert seen.
  induction H as [|f fields v vs ps Ho He Hz H IH|f fields v vs p ps Ho Hp H IH]; intros seen Hin Hnd Hnew.
  - exists seen. split_and!; [done|done|]. by intros f Hf%elem_of_nil.
  - cbn [map] in Hnd. apply NoDup_cons in Hnd as [Hf Hnd]. destruct (IH seen) as (seen' & E & Hs & Hr); [|done| |].
    + intros g Hg. apply Hin. by right.
    + intros g Hg. apply Hnew. by right.
    + exists seen'. split_and!; [done|done|]. intros g [->|Hg]%elem_of_cons; [congruence|by apply Hr].
  - cbn [map] in Hnd. apply NoDup_cons in Hnd as [Hf Hnd].
    destruct (list_elem_of_lookup_1 _ _ (Hin f (list_elem_of_here _ _))) as [i Hi].
    cbn [membersOf checkMembers]. rewrite (find_field _ i f Hall Hi).
    rewrite bool_decide_eq_false_2 by (apply Hnew; by left). cbn [fst snd mbind result_bind].
    rewrite (wr_check _ _ _ Hp). cbn [mbind result_bind].
    destruct (IH (field_name f :: seen)) as (seen' & E & Hs & Hr); [|done| |].
    + intros g Hg. apply Hin. by right.
    + intros g Hg. intros [E|Hs]%elem_of_cons; [|by eapply Hnew; [right|]].
      destruct Hf. rewrite <- E. change (field_name g ∈ field_name <$> fields). apply list_elem_of_fmap. by exists g.
    + exists seen'. split_and!; [done|intros name Hn; apply Hs; by right|].
      intros g [->|Hg]%elem_of_cons Hom; [apply Hs; by left|by apply Hr].
Qed.

Lemma checkMissing_spec fields path seen : (forall f, f ∈ fields -> f.1.2 = false -> field_name f ∈ seen) ->
  checkMissing (checkTable fields) path seen = Ok tt.
Proof.
  induction fields as [|[[name om] t] fields IH]; intros H; cbn; [done|].
  rewrite IH by (intros f Hf; apply H; by right).
  destruct om; [by rewrite andb_false_r|]. rewrite bool_decide_eq_true_2; [done|].
  apply (H (name, false, t)); [by left|done].
Qed.

Lemma wired_struct fields vs ps : type_ok (TStruct fields) = true -> (typeDepth (TStruct fields) <= maxNestingDepth)%N ->
  encoded fields vs ps -> wired (TStruct fields) (VStruct vs) (object (map named (membersOf fields ps))).
Proof.
  cbn [type_ok typeDepth]. intros [[Hnd%bool_decide_eq_true Hutf]%andb_true_iff Hok]%andb_true_iff Hdepth H.
  pose proof (membersOf_text _ _ _ H Hutf) as Htext.
  assert (Hmem : forall rest, objectMembers (object (map named (membersOf fields ps)) ++ rest) = Ok (membersOf fields ps)).
  { intros rest. eapply objectMembers_spec; [|exact Htext]. lia. }
  assert (Hn : forall rest, not_null (object (map named (membersOf fields ps)) ++ rest)) by (intros; by apply bracket_not_null; right).
  assert (Hcheck : forall path rest, checkFields (TStruct fields) path (object (map named (membersOf fields ps)) ++ rest) = Ok tt).
  { intros path rest. destruct (not_null_text _ (Hn rest)) as [E1 _]. cbn [checkFields]. rewrite E1, Hmem.
    destruct (expect 123 _) eqn:E; [|done]. cbn [mbind result_bind].
    destruct (checkMembers_spec fields path fields vs ps []) as (seen & -> & _ & Hreq); [done|done|done|done| |].
    { by intros f _ ?%elem_of_nil. }
    cbn [mbind result_bind]. by apply checkMissing_spec. }
  specialize (Hmem []). pose proof (Hn []) as Hn0. rewrite app_nil_r in Hmem, Hn0.
  assert (exists kvs, Forall2 (fun m kv => decodes_member m kv (fieldsDepth fields)) (map named (membersOf fields ps)) kvs)
    as [kvs Hkvs].
  { clear -Htext. induction Htext as [|[name p] ms [Hm [a Ha]] _ [kvs IH]]; [by exists []|].
    exists ((fixString name, a) :: kvs). constructor; [|done]. by exists name, p. }
  assert (Hraw : forall rest, rawValue (object (map named (membersOf fields ps)) ++ rest) = Ok (object (map named (membersOf fields ps)), rest)).
  { intros rest. apply (rawValue_parsed _ (AMap (mapOf kvs))); [by do 2 eexists|]. intros fuel Hf.
    by apply (parse_object _ _ (fieldsDepth fields)). }
  destruct (not_null_text _ Hn0) as [E1 E2]. split; [| | | |by split].
  - cbn [marshalType]. by rewrite (encoded_marshal _ _ _ H).
  - eexists. by apply decodes_object.
  - cbn [decodeType]. rewrite E2, Hmem. cbn [mbind result_bind].
    assert (existsb (fun m => bool_decide (findField (map field_name fields) m.1 = None)) (membersOf fields ps) = false) as ->.
    { apply not_true_is_false. intros (m & Hm%list_elem_of_In & Hnone%bool_decide_eq_true)%existsb_exists. pose proof (membersOf_names _ _ _ _ H Hm) as Hin.
      apply list_elem_of_lookup_1 in Hin as [i Hi]. by rewrite (findField_exact _ i _ Hnd Hi) in Hnone. }
    pose proof (decodeFields_spec (map field_name fields) fields vs ps 0 [] Hnd H) as Hdec.
    cbn [app] in Hdec. rewrite Hdec; [done| |done].
    intros j f Hj. cbn. change (map field_name fields) with (field_name <$> fields). by rewrite list_lookup_fmap, Hj.
  - intros path. rewrite <- (app_nil_r (object _)). apply Hcheck.
Qed.

(** ** Every value *)

Lemma struct_encoded fields vs :
  Forall (fun f => type_ok f.2 = true -> (typeDepth f.2 <= maxNestingDepth)%N -> forall v, value_ok f.2 v -> exists p, wired f.2 v p) fields ->
  forallb id (map (fun f : goField => type_ok f.2) fields) = true -> (fieldsDepth fields <= maxNestingDepth)%N ->
  value_ok (TStruct fields) (VStruct vs) -> exists ps, encoded fields vs ps.
Proof.
  cbn [value_ok]. revert vs. induction fields as [|f fields IH]; intros vs HP Hok Hd Hv.
  - apply Forall2_nil_inv_l in Hv as ->. exists []. constructor.
  - cbn [map] in Hv. apply Forall2_cons_inv_l in Hv as (v & vs' & [Hv Hom] & Hvs & ->).
    apply Forall_cons in HP as [Hf HP]. cbn [map forallb] in Hok. apply andb_true_iff in Hok as [Hf' Hok].
    cbn [map foldr] in Hd. destruct (IH vs' HP Hok ltac:(lia) Hvs) as [ps Hps].
    destruct (f.1.2 && emptyValue v) eqn:E.
    + apply andb_true_iff in E as [E1 E2]. exists (None :: ps). constructor; auto.
    + destruct (Hf Hf' ltac:(lia) v Hv) as [p Hp]. exists (Some p :: ps). by constructor.
Qed.

Lemma value_wired t : type_ok t = true -> (typeDepth t <= maxNestingDepth)%N -> forall v, value_ok t v -> exists p, wired t v p.
Proof.
  induction t as [| | | | |t IH|t IH|fields IH] using goType_nested; intros Hok Hd v Hv.
  - destruct v as [d| | | | | | |]; try done. exists d. by apply wired_raw.
  - destruct v; try done. eexists. apply wired_bool.
  - destruct v; try done. eexists. by apply wired_string.
  - destruct v; try done. eexists. by apply wired_int.
  - destruct v; try done. eexists. by apply wired_uint.
  - destruct v as [| | | | |[v|]| |]; try done; [|eexists; apply wired_nil_pointer].
    cbn in Hok, Hd, Hv. apply andb_true_iff in Hok as [Hs Hok]. destruct (IH Hok Hd v Hv) as [p Hp].
    exists p. by apply wired_pointer.
  - destruct v as [| | | | | |[l|]|]; try done; [|eexists; apply wired_nil_slice]. cbn in Hok, Hd, Hv.
    assert (exists ps, Forall2 (wired t) l ps) as [ps Hps]; [|eexists; by apply wired_slice].
    induction Hv as [|v l Hv _ IHl]; [by exists []|]. destruct IHl as [ps Hps].
    destruct (IH Hok ltac:(lia) v Hv) as [p Hp]. exists (p :: ps). by constructor.
  - destruct v as [| | | | | | |vs]; try done. pose proof Hok as Hok'. cbn [type_ok] in Hok'.
    apply andb_true_iff in Hok' as [_ Hok']. cbn [typeDepth] in Hd.
    destruct (struct_encoded fields vs IH Hok' ltac:(lia) Hv) as [ps Hps]. eexists. by apply wired_struct.
Qed.

(** ** Every value that is decoded *)

(** A value of a type: strings are UTF-8, integers in their range. *)
Fixpoint typed (t : goType) (v : goValue) {struct t} : Prop :=
  match t, v with
  | TRawMessage, VRaw _ => True
  | TBool, VBool _ => True
  | TString, VString s => utf8_ValidString s = true
  | TInt, VInt z => MinInt64 <= z <= ExampleFuncs.MaxInt64
  | TUint, VUint n => (n < 2 ^ 64)%N
  | TPointer t, VPointer o => match o with Some v => typed t v | None => True end
  | TSlice t, VSlice o => match o with Some l => Forall (typed t) l | None => True end
  | TStruct fields, VStruct vs => Forall2 (fun (ok : goValue -> Prop) v => ok v) (map (fun f => typed f.2) fields) vs
  | _, _ => False
  end.

(** The replacement character, and whole runes, keep a string valid. *)
Lemma fixUTF8_utf8 bs : utf8_Valid (fixUTF8 bs) = true.
Proof.
  remember (length bs) as n eqn:En. revert bs En. induction (lt_wf n) as [n _ IH]. intros bs ->.
  destruct bs as [|b bs]; [done|].
  destruct (piece_of b bs) as [Hb|b1 u Hb -> E2|b1 b2 u Hb -> E2 E3|b1 b2 b3 u Hb -> E2 E3 E4|Hb (_ & Hf & _)].
  - cbn [fixUTF8]. destruct (N.ltb_spec b 128); [|lia]. cbn [utf8_Valid]. destruct (N.ltb_spec b 128); [|lia].
    apply (IH (length bs)); [cbn; lia|done].
  - replace (fixUTF8 (b :: b1 :: u)) with (b :: b1 :: fixUTF8 u) by by rune_cases.
    pose proof E2 as H. unfold valid2 in H. apply andb_true_iff in H as [H _].
    rewrite utf8_Valid2, E2 by done. apply (IH (length u)); [cbn; lia|done].
  - replace (fixUTF8 (b :: b1 :: b2 :: u)) with (b :: b1 :: b2 :: fixUTF8 u) by by rune_cases.
    pose proof E3 as H. unfold valid3 in H. rewrite !andb_true_iff in H. destruct H as ((H & _) & _).
    rewrite utf8_Valid3, E3 by auto using range_3. apply (IH (length u)); [cbn; lia|done].
  - replace (fixUTF8 (b :: b1 :: b2 :: b3 :: u)) with (b :: b1 :: b2 :: b3 :: fixUTF8 u) by by rune_cases.
    pose proof E4 as H. unfold valid4 in H. rewrite !andb_true_iff in H. destruct H as (((H & _) & _) & _).
    destruct (range_4 _ H). rewrite utf8_Valid4, E4 by done. apply (IH (length u)); [cbn; lia|done].
  - rewrite Hf. change (utf8_Valid (fixUTF8 bs) = true). apply (IH (length bs)); [cbn; lia|done].
Qed.

Lemma utf8_bytes bs : utf8_Valid bs = true -> Forall (fun b => (b < 256)%N) bs.
Proof.
  remember (length bs) as n eqn:En. revert bs En. induction (lt_wf n) as [n _ IH]. intros bs -> Hv.
  destruct bs as [|b bs]; [constructor|].
  destruct (piece_of b bs) as [Hb|b1 u Hb -> E2|b1 b2 u Hb -> E2 E3|b1 b2 b3 u Hb -> E2 E3 E4|Hb H].
  - revert Hv. cbn [utf8_Valid]. destruct (N.ltb_spec b 128); [|lia]. intros Hv.
    constructor; [lia|]. apply (IH (length bs)); [cbn; lia|done|done].
  - pose proof E2 as H. unfold valid2, cont in H. apply andb_true_iff in H as [H0 H1%in_range_ge].
    rewrite utf8_Valid2, E2 in Hv by done. apply in_range_ge in H0.
    repeat (constructor; [lia|]). apply (IH (length u)); [cbn; lia|done|done].
  - pose proof E3 as H. unfold valid3, cont in H. rewrite !andb_true_iff in H. destruct H as ((H0 & H1%in_range_ge) & H2%in_range_ge).
    rewrite utf8_Valid3, E3 in Hv by auto using range_3. apply in_range_ge in H0.
    assert (b1 < 256)%N by (destruct (b =? 224)%N, (b =? 237)%N; lia).
    repeat (constructor; [lia|]). apply (IH (length u)); [cbn; lia|done|done].
  - pose proof E4 as H. unfold valid4, cont in H. rewrite !andb_true_iff in H.
    destruct H as (((H0 & H1%in_range_ge) & H2%in_range_ge) & H3%in_range_ge).
    destruct (range_4 _ H0). rewrite utf8_Valid4, E4 in Hv by done. apply in_range_ge in H0.
    assert (b1 < 256)%N by (destruct (b =? 240)%N, (b =? 244)%N; lia).
    repeat (constructor; [lia|]). apply (IH (length u)); [cbn; lia|done|done].
  - destruct H as (_ & _ & _ & _ & _ & H). destruct (H Hv) as [E _]. apply (f_equal length) in E. cbn in E. lia.
Qed.

Lemma bytes_of_string bs : Forall (fun b => (b < 256)%N) bs -> bytes_of (string_of bs) = bs.
Proof.
  induction 1 as [|b bs Hb _ IH]; [done|]. cbn. rewrite IH. f_equal. by apply Ascii.N_ascii_embedding.
Qed.

Lemma fixed_utf8 bs : utf8_ValidString (string_of (fixUTF8 bs)) = true.
Proof.
  unfold utf8_ValidString. rewrite bytes_of_string by apply utf8_bytes, fixUTF8_utf8. apply fixUTF8_utf8.
Qed.

Lemma ParseInt_range s z : ParseInt s = Ok z -> MinInt64 <= z <= ExampleFuncs.MaxInt64.
Proof.
  unfold ParseInt. match goal with |- context [let '(_, _) := ?p in _] => destruct p as [negative ds] end.
  destruct (parseUint ds) as [m|]; [|done]. destruct (_ && _) eqn:E; [|done]. intros [= <-].
  apply andb_true_iff in E as [?%Z.leb_le ?%Z.ltb_lt]. unfold MinInt64, ExampleFuncs.MaxInt64. lia.
Qed.

Lemma zero_typed t : typed t (zeroValue t).
Proof.
  induction t as [| | | | |t IH|t IH|fields IH] using goType_nested; try done. cbn.
  induction IH as [|f fields Hf _ IH]; [constructor|]. cbn. by constructor.
Qed.

Lemma decodeFields_typed names members fields : forall k vs,
  Forall (fun f : goField => forall data v, decodeType f.2 data = Ok v -> typed f.2 v) fields ->
  decodeFields names members k (map (fun f => (zeroValue f.2, decodeType f.2)) fields) = Ok vs ->
  typed (TStruct fields) (VStruct vs).
Proof.
  cbn [typed]. induction fields as [|f fields IH]; intros k vs HF; cbn [map decodeFields]; [by intros [= <-]|].
  apply Forall_cons in HF as [Hf HF]. intros (v & Hv & (vs' & Hvs & [= <-])%bind_Ok)%bind_Ok.
  constructor; [|by eapply IH]. revert Hv. generalize (zero_typed f.2). generalize (zeroValue f.2) as z.
  induction (snd <$> _) as [|data l IHl]; intros z Hz; cbn [decodeLast]; [by intros [= <-]|].
  intros (v' & Hv' & H)%bind_Ok. eapply IHl; [|exact H]. by eapply Hf.
Qed.

(** The decoder returns values of its type. *)
Lemma decodeType_typed t : forall data v, decodeType t data = Ok v -> typed t v.
Proof.
  induction t as [| | | | |t IH|t IH|fields IH] using goType_nested; intros data v; cbn [decodeType]; [by intros [= <-]|..];
    (destruct (is_null data); [intros [= <-]; first [done|exact (zero_typed TString)|exact (zero_typed (TStruct fields))]|]).
  - repeat case_bool_decide; by intros [= <-].
  - destruct (expect 34 data) as [u|]; [|done]. intros ([s ?] & _ & [= <-])%bind_Ok. apply fixed_utf8.
  - destruct (isValidNumber data); [|done]. intros (z & Hz & [= <-])%bind_Ok. by eapply ParseInt_range.
  - destruct (parseUint data) as [n|]; [|done]. destruct (N.ltb_spec n (2 ^ 64)); [|done]. by intros [= <-].
  - intros (w & Hw & [= <-])%bind_Ok. by eapply IH.
  - intros (items & _ & (vs & Hvs & [= <-])%bind_Ok)%bind_Ok. cbn [typed]. revert vs Hvs.
    induction items as [|item items IHl]; intros vs; cbn [decode_all]; [intros [= <-]; constructor|].
    intros (w & Hw & (ws & Hws & [= <-])%bind_Ok)%bind_Ok. constructor; [by eapply IH|by apply IHl].
  - intros (members & _ & H)%bind_Ok. destruct (existsb _ _); [done|]. apply bind_Ok in H as (vs & Hvs & [= <-]).
    by eapply decodeFields_typed.
Qed.
