(* ===== verification/Messages.v ===== *)
(** * Messages: every message as it is on the wire

    The JSON types of [protocol/{worker,task_report,job,error}.go], of
    [jobspec/spec.go] and of the records of [plan], [scheduler] and [shuffle] they
    carry, in the order of the source, and the conversions between the records of
    the model and their fields.  A list that the model does not tell from nil is
    marshalled as an array. *)

From S2P Require Import Prelude Bytes Plan Stages Shuffle Reports Api Runtime Json JsonProofs ExampleFuncs.
From S2P Require Import Runner Protocol Dag Coordinator Wire WireProofs.
#[local] Open Scope Z_scope.

#[local] Unset Program Cases.

(** ** The interface *)

(** [wireGood] values are marshalled and come back; of those whose field may have
    [omitempty], the empty one is zero.  Every value that is decoded is one, and a
    good one if the type is [wireExact]: has no raw messages and no URLs. *)
Class Wire (A : Type) := {
  wireType : goType;
  wireTo : A -> goValue;
  wireOf : goValue -> option A;
  wireGood : A -> Prop;
  wireOmits : bool;
  wireExact : bool;
  wire_back a : wireGood a -> wireOf (wireTo a) = Some a;
  wire_value a : wireGood a -> value_ok wireType (wireTo a);
  wire_empty a : wireOmits = true -> emptyValue (wireTo a) = true -> wireTo a = zeroValue wireType;
  wire_typed v : typed wireType v -> exists a, wireOf v = Some a /\ (wireExact = true -> wireGood a) }.
Arguments wireType A {_}.
#[export] Hint Mode Wire ! : typeclass_instances.

(** ** Scalars *)

#[export] Program Instance string_wire : Wire string := {|
  wireType := TString; wireTo := VString; wireOf v := match v with VString s => Some s | _ => None end;
  wireGood s := utf8_ValidString s = true; wireOmits := true; wireExact := true |}.
Next Obligation. done. Qed.
Next Obligation. done. Qed.
Next Obligation. intros s _ E. cbn in *. f_equal. by apply bool_decide_eq_true_1 in E. Qed.
Next Obligation. intros []; cbn; try done. eauto. Qed.

#[export] Program Instance bool_wire : Wire bool := {|
  wireType := TBool; wireTo := VBool; wireOf v := match v with VBool b => Some b | _ => None end;
  wireGood _ := True; wireOmits := true; wireExact := true |}.
Next Obligation. done. Qed.
Next Obligation. done. Qed.
Next Obligation. by intros []. Qed.
Next Obligation. intros []; cbn; try done. eauto. Qed.

#[export] Program Instance int_wire : Wire Z := {|
  wireType := TInt; wireTo := VInt; wireOf v := match v with VInt z => Some z | _ => None end;
  wireGood z := MinInt64 <= z <= ExampleFuncs.MaxInt64; wireOmits := true; wireExact := true |}.
Next Obligation. done. Qed.
Next Obligation. done. Qed.
Next Obligation. intros z _ E. cbn in *. f_equal. by apply Z.eqb_eq. Qed.
Next Obligation. intros []; cbn; try done. eauto. Qed.

#[export] Program Instance uint_wire : Wire N := {|
  wireType := TUint; wireTo := VUint; wireOf v := match v with VUint n => Some n | _ => None end;
  wireGood n := (n < 2 ^ 64)%N; wireOmits := true; wireExact := true |}.
Next Obligation. done. Qed.
Next Obligation. done. Qed.
Next Obligation. intros n _ E. cbn in *. f_equal. by apply N.eqb_eq. Qed.
Next Obligation. intros []; cbn; try done. eauto. Qed.

(** A [json.RawMessage]. *)
Program Definition raw_wire : Wire string := {|
  wireType := TRawMessage; wireTo s := VRaw (bytes_of s);
  wireOf v := match v with VRaw d => Some (string_of d) | _ => None end;
  wireGood s := raw_ok (bytes_of s); wireOmits := true; wireExact := false |}.
Next Obligation. intros s _. cbn. by rewrite string_of_bytes. Qed.
Next Obligation. done. Qed.
Next Obligation. intros s _. cbn. by destruct (bytes_of s). Qed.
Next Obligation. intros []; cbn; try done. by eexists. Qed.

(** A string type with named constants. *)
Program Definition kind_wire {K} (toString : K -> string) (ofString : string -> K) (Hname : forall s, toString (ofString s) = s) : Wire K := {|
  wireType := TString; wireTo k := VString (toString k);
  wireOf v := match v with VString s => Some (ofString s) | _ => None end;
  wireGood k := ofString (toString k) = k /\ utf8_ValidString (toString k) = true; wireOmits := true; wireExact := true |}.
Next Obligation. intros K toS ofS H k [E _]. cbn. by rewrite E. Qed.
Next Obligation. by intros K toS ofS H k [_ E]. Qed.
Next Obligation. intros K toS ofS H k _ E. cbn in *. f_equal. by apply bool_decide_eq_true_1 in E. Qed.
Next Obligation. intros K toS ofS H []; cbn; try done. intros E. eexists. split; [done|]. by rewrite !H. Qed.

(** The names of a type are read back. *)
Ltac named ofString := intros ?; unfold ofString; repeat case_bool_decide; by subst.

(** ** Containers *)

#[export] Program Instance pointer_wire {A} `{Wire A} : Wire (option A) | 2 := {|
  wireType := TPointer (wireType A); wireTo o := VPointer (wireTo <$> o);
  wireOf v := match v with VPointer None => Some None | VPointer (Some v) => a ← wireOf v; Some (Some a) | _ => None end;
  wireGood o := match o with Some a => wireGood a | None => True end; wireOmits := true; wireExact := wireExact (A := A) |}.
Next Obligation. intros A W [a|] H; cbn in *; [by rewrite wire_back|done]. Qed.
Next Obligation. intros A W [a|] H; cbn in *; [by apply wire_value|done]. Qed.
Next Obligation. by intros A W [a|] _ H. Qed.
Next Obligation.
  intros A W [ | | | | | [v|] | | ]; cbn; try done; [|by exists None].
  intros (a & -> & Ha)%wire_typed. by exists (Some a).
Qed.

Fixpoint all_some {A B} (f : A -> option B) (l : list A) : option (list B) :=
  match l with [] => Some [] | a :: l => b ← f a; bs ← all_some f l; Some (b :: bs) end.

Lemma all_some_back {A} `{Wire A} (l : list A) : Forall wireGood l -> all_some wireOf (map wireTo l) = Some l.
Proof. induction 1 as [|a l Ha _ IH]; cbn; [done|]. by rewrite wire_back, IH. Qed.

Lemma values_ok {A} `{Wire A} (l : list A) : Forall wireGood l -> Forall (value_ok (wireType A)) (map wireTo l).
Proof. intros Hl. change (map wireTo l) with (wireTo <$> l). apply Forall_fmap. eapply Forall_impl; [exact Hl|]. apply wire_value. Qed.

Lemma all_some_typed {A} `{Wire A} l : Forall (typed (wireType A)) l ->
  exists r : list A, all_some wireOf l = Some r /\ (wireExact (A := A) = true -> Forall wireGood r).
Proof.
  induction 1 as [|v l Hv _ (r & Hr & Hg)]; cbn; [by exists []|]. apply wire_typed in Hv as (a & -> & Ha).
  cbn. rewrite Hr. cbn. exists (a :: r). split; [done|]. constructor; auto.
Qed.

(** A slice that may be nil, one that is not, and one that is nil when empty. *)
#[export] Program Instance slice_wire {A} `{Wire A} : Wire (option (list A)) | 1 := {|
  wireType := TSlice (wireType A); wireTo o := VSlice (match o with Some l => Some (map (wireTo (A := A)) l) | None => None end);
  wireOf v := match v with VSlice None => Some None | VSlice (Some l) => match all_some (wireOf (A := A)) l with Some l => Some (Some l) | None => None end | _ => None end;
  wireGood o := match o with Some l => Forall wireGood l | None => True end; wireOmits := false; wireExact := wireExact (A := A) |}.
Next Obligation. intros A W [l|] H; cbn in *; [by rewrite all_some_back|done]. Qed.
Next Obligation. intros A W [l|] H; cbn in *; [by apply values_ok|done]. Qed.
Next Obligation. done. Qed.
Next Obligation.
  intros A W [ | | | | | | [l|] | ]; cbn; try done; [|by exists None].
  intros (r & -> & Hr)%all_some_typed. by exists (Some r).
Qed.

#[export] Program Instance list_wire {A} `{Wire A} : Wire (list A) | 2 := {|
  wireType := TSlice (wireType A); wireTo l := VSlice (Some (map (wireTo (A := A)) l));
  wireOf v := match v with VSlice None => Some [] | VSlice (Some l) => all_some (wireOf (A := A)) l | _ => None end;
  wireGood l := Forall wireGood l; wireOmits := false; wireExact := wireExact (A := A) |}.
Next Obligation. intros A W l Hl. cbn. by apply all_some_back. Qed.
Next Obligation. intros A W l Hl. cbn. by apply values_ok. Qed.
Next Obligation. done. Qed.
Next Obligation.
  intros A W [ | | | | | | [l|] | ]; cbn; try done; [|by exists []].
  by intros (r & -> & Hr)%all_some_typed; exists r.
Qed.

Program Definition nil_wire {A} `{Wire A} : Wire (list A) := {|
  wireType := TSlice (wireType A); wireTo l := VSlice (match l with [] => None | _ => Some (map (wireTo (A := A)) l) end);
  wireOf v := match v with VSlice None => Some [] | VSlice (Some l) => all_some (wireOf (A := A)) l | _ => None end;
  wireGood l := Forall wireGood l; wireOmits := true; wireExact := wireExact (A := A) |}.
Next Obligation. intros A W [|a l] Hl; [done|]. by apply (all_some_back (a :: l)). Qed.
Next Obligation. intros A W [|a l] Hl; [done|]. by apply (values_ok (a :: l)). Qed.
Next Obligation. by intros A W [|a l] _ H. Qed.
Next Obligation.
  intros A W [ | | | | | | [l|] | ]; cbn; try done; [|by exists []].
  by intros (r & -> & Hr)%all_some_typed; exists r.
Qed.

(** ** Structs *)

(** The fields of a struct, as nested pairs. *)
Class Fields (A : Type) := {
  fieldsType : list goField;
  fieldsTo : A -> list goValue;
  fieldsOf : list goValue -> option A;
  fieldsGood : A -> Prop;
  fields_back a : fieldsGood a -> fieldsOf (fieldsTo a) = Some a;
  fieldsExact : bool;
  fields_value a : fieldsGood a -> value_ok (TStruct fieldsType) (VStruct (fieldsTo a));
  fields_typed vs : typed (TStruct fieldsType) (VStruct vs) ->
    exists a, fieldsOf vs = Some a /\ (fieldsExact = true -> fieldsGood a) }.

Program Definition no_fields : Fields unit := {|
  fieldsType := []; fieldsTo _ := []; fieldsOf vs := match vs with [] => Some tt | _ => None end; fieldsGood _ := True; fieldsExact := true |}.
Next Obligation. by intros []. Qed.
Next Obligation. constructor. Qed.
Next Obligation. intros vs ->%Forall2_nil_inv_l. by exists tt. Qed.

(** Only the empty value of a type that has [wireOmits] may be left out. *)
Program Definition field {A R} (name : string) (omitempty : bool) (W : Wire A) (F : Fields R) : Fields (A * R) := {|
  fieldsType := (name, omitempty, wireType A) :: fieldsType;
  fieldsTo a := wireTo a.1 :: fieldsTo a.2;
  fieldsOf vs := match vs with v :: vs => a ← wireOf v; r ← fieldsOf vs; Some (a, r) | [] => None end;
  fieldsGood a := (implb omitempty (wireOmits (A := A)) = true /\ wireGood a.1) /\ fieldsGood a.2;
  fieldsExact := implb omitempty (wireOmits (A := A)) && wireExact (A := A) && fieldsExact |}.
Next Obligation. intros A R name om W F [a r] [[_ Ha] Hr]. cbn in *. by rewrite wire_back, fields_back. Qed.
Next Obligation.
  intros A R name om W F [a r] [[Ho Ha] Hr]. cbn [value_ok map fst snd] in *. constructor; [|by apply fields_value].
  split; [by apply wire_value|]. intros ->. by apply wire_empty.
Qed.
Next Obligation.
  intros A R name om W F vs. cbn [typed map fst snd]. intros (v & vs' & Hv & Hvs & ->)%Forall2_cons_inv_l.
  apply wire_typed in Hv as (a & -> & Ha). cbn. apply fields_typed in Hvs as (r & -> & Hr). cbn.
  exists (a, r). split; [done|]. intros [[Ho He]%andb_true_iff Hf]%andb_true_iff. auto.
Qed.

(** A record by its fields. *)
Program Definition struct_wire {A R} (F : Fields R) (f : A -> R) (g : R -> A) (Hgf : forall a, g (f a) = a)
    (Hfg : forall r, f (g r) = r) : Wire A := {|
  wireType := TStruct fieldsType; wireTo a := VStruct (fieldsTo (f a));
  wireOf v := match v with VStruct vs => g <$> fieldsOf vs | _ => None end;
  wireGood a := fieldsGood (f a); wireOmits := true; wireExact := fieldsExact |}.
Next Obligation. intros A R F f g Hgf Hfg a H. cbn. rewrite fields_back by done. cbn. by rewrite Hgf. Qed.
Next Obligation. intros A R F f g Hgf Hfg a H. by apply fields_value. Qed.
Next Obligation. done. Qed.
Next Obligation.
  intros A R F f g Hgf Hfg [ | | | | | | | vs]; try done. intros (a & E & Ha)%fields_typed. rewrite E. cbn.
  exists (g a). by rewrite Hfg.
Qed.

(** ** String types *)

Definition operator_of (s : string) : OperatorKind :=
  if bool_decide (s = "source") then OpSource
  else if bool_decide (s = "map") then OpMap
  else if bool_decide (s = "filter") then OpFilter
  else if bool_decide (s = "map_to_pair") then OpMapToPair
  else if bool_decide (s = "map_values") then OpMapValues
  else if bool_decide (s = "reduce_by_key") then OpReduceByKey else OpOther s.
#[export] Instance operator_wire : Wire OperatorKind := kind_wire operator_name operator_of ltac:(named operator_of).

Definition operation_of (s : string) : StageOperationKind :=
  if bool_decide (s = "rdd") then StageOperationRDD
  else if bool_decide (s = "shuffle_read") then StageOperationShuffleRead else StageOperationOther s.
#[export] Instance operation_wire : Wire StageOperationKind := kind_wire operation_name operation_of ltac:(named operation_of).

Definition stage_name (k : StageKind) : string :=
  match k with StageShuffleMap => "shuffle_map" | StageResult => "result" | StageOther s => s end.
Definition stage_of (s : string) : StageKind :=
  if bool_decide (s = "shuffle_map") then StageShuffleMap
  else if bool_decide (s = "result") then StageResult else StageOther s.
#[export] Instance stage_wire : Wire StageKind := kind_wire stage_name stage_of ltac:(named stage_of).

Definition action_name (k : ActionKind) : string :=
  match k with ActionCollect => "collect" | ActionCount => "count" | ActionOther s => s end.
Definition action_of (s : string) : ActionKind :=
  if bool_decide (s = "collect") then ActionCollect
  else if bool_decide (s = "count") then ActionCount else ActionOther s.
#[export] Instance action_wire : Wire ActionKind := kind_wire action_name action_of ltac:(named action_of).

Definition partitioner_name (k : PartitionerKind) : string :=
  match k with PartitionerHash => "hash" | PartitionerOther s => s end.
Definition partitioner_of (s : string) : PartitionerKind :=
  if bool_decide (s = "hash") then PartitionerHash else PartitionerOther s.
#[export] Instance partitioner_kind_wire : Wire PartitionerKind := kind_wire partitioner_name partitioner_of ltac:(named partitioner_of).

Definition failure_name (k : FailureKind) : string :=
  match k with
  | FailureExecution => "execution"
  | FailurePermanent => "permanent"
  | FailureShuffleInput => "shuffle_input"
  | FailureCanceled => "canceled"
  | FailureWorkerLost => "worker_lost"
  | FailureOther s => s
  end.
Definition failure_of (s : string) : FailureKind :=
  if bool_decide (s = "execution") then FailureExecution
  else if bool_decide (s = "permanent") then FailurePermanent
  else if bool_decide (s = "shuffle_input") then FailureShuffleInput
  else if bool_decide (s = "canceled") then FailureCanceled
  else if bool_decide (s = "worker_lost") then FailureWorkerLost else FailureOther s.
#[export] Instance failure_wire : Wire FailureKind := kind_wire failure_name failure_of ltac:(named failure_of).

Definition code_of (s : string) : ErrorCode :=
  if bool_decide (s = "invalid_request") then CodeInvalidRequest
  else if bool_decide (s = "request_too_large") then CodeRequestTooLarge
  else if bool_decide (s = "not_found") then CodeNotFound
  else if bool_decide (s = "method_not_allowed") then CodeMethodNotAllowed
  else if bool_decide (s = "conflict") then CodeConflict
  else if bool_decide (s = "unavailable") then CodeUnavailable
  else if bool_decide (s = "job_failed") then CodeJobFailed
  else if bool_decide (s = "internal_error") then CodeInternal else CodeOther s.
#[export] Instance code_wire : Wire ErrorCode := kind_wire code_name code_of ltac:(named code_of).

(** ** Records *)

Ltac tupled := intros r; repeat match goal with r : prod _ _ |- _ => destruct r | r : unit |- _ => destruct r end; reflexivity.

Notation req name F := (field name false _ F).
Notation opt name F := (field name true _ F).

#[export] Instance operator_spec_wire : Wire OperatorSpec :=
  struct_wire (req "kind" (opt "function_id" (opt "source_path" no_fields)))
    (fun o => (op_Kind o, (op_FunctionID o, (op_SourcePath o, tt))))
    (fun '(k, (f, (s, _))) => mkOperatorSpec k f s) ltac:(by intros []) ltac:(tupled).

#[export] Instance partitioner_wire : Wire PartitionerSpec :=
  struct_wire (req "kind" (req "num_partitions" no_fields))
    (fun p => (pt_Kind p, (pt_NumPartitions p, tt))) (fun '(k, (n, _)) => mkPartitionerSpec k n) ltac:(by intros []) ltac:(tupled).

#[export] Instance action_spec_wire : Wire ActionSpec :=
  struct_wire (req "kind" (req "target_rdd" no_fields))
    (fun a => (act_Kind a, (act_TargetRDD a, tt))) (fun '(k, (r, _)) => mkAction k r) ltac:(by intros []) ltac:(tupled).

#[export] Instance shuffle_write_wire : Wire ShuffleWriteSpec :=
  struct_wire (req "shuffle_id" (req "partitioner" (req "aggregator_id" (req "map_side_combine" no_fields))))
    (fun w => (sw_ShuffleID w, (sw_Partitioner w, (sw_AggregatorID w, (sw_MapSideCombine w, tt)))))
    (fun '(i, (p, (a, (m, _)))) => mkShuffleWrite i p a m) ltac:(by intros []) ltac:(tupled).

#[export] Instance rdd_operation_wire : Wire RDDOperationSpec :=
  struct_wire (req "rdd_id" (req "operator" no_fields))
    (fun o => (ro_RDDID o, (ro_Operator o, tt))) (fun '(i, (o, _)) => mkRDDOperation i o) ltac:(by intros []) ltac:(tupled).

#[export] Instance shuffle_read_wire : Wire ShuffleReadSpec :=
  struct_wire (req "shuffle_id" (req "partitioner" no_fields))
    (fun r => (sr_ShuffleID r, (sr_Partitioner r, tt))) (fun '(i, (p, _)) => mkShuffleRead i p) ltac:(by intros []) ltac:(tupled).

#[export] Instance stage_operation_wire : Wire StageOperation :=
  struct_wire (req "kind" (opt "rdd" (opt "shuffle_read" no_fields)))
    (fun o => (so_Kind o, (so_RDD o, (so_ShuffleRead o, tt))))
    (fun '(k, (r, (s, _))) => mkStageOperation k r s) ltac:(by intros []) ltac:(tupled).

#[export] Instance task_wire : Wire Task :=
  struct_wire (req "id" (req "stage_id" (req "stage_kind" (req "partition_id" (req "num_partitions" (req "operations"
      (opt "shuffle_write" (opt "final_action" no_fields))))))))
    (fun t => (t_ID t, (t_StageID t, (t_StageKind t, (t_PartitionID t, (t_NumPartitions t, (t_Operations t,
      (t_ShuffleWrite t, (t_FinalAction t, tt)))))))))
    (fun '(i, (s, (k, (p, (n, (o, (w, (a, _)))))))) => mkTask i s k p n o w a) ltac:(by intros []) ltac:(tupled).

#[export] Instance attempt_wire : Wire TaskAttemptIdentity :=
  struct_wire (req "id" (req "task_id" (req "stage_attempt_id" no_fields)))
    (fun a => (ta_ID a, (ta_TaskID a, (ta_StageAttemptID a, tt)))) (fun '(i, (t, (s, _))) => mkAttempt i t s) ltac:(by intros []) ltac:(tupled).

#[export] Instance identity_wire : Wire AttemptIdentity :=
  struct_wire (req "run_id" (req "job_id" (req "shuffle_id" (req "stage_id" (req "stage_attempt_id" (req "task_id"
      (req "task_attempt_id" (req "map_partition_id" no_fields))))))))
    (fun a => (ai_RunID a, (ai_JobID a, (ai_ShuffleID a, (ai_StageID a, (ai_StageAttemptID a, (ai_TaskID a,
      (ai_TaskAttemptID a, (ai_MapPartitionID a, tt)))))))))
    (fun '(r, (j, (h, (s, (sa, (t, (ta, (m, _)))))))) => mkIdentity r j h s sa t ta m) ltac:(by intros []) ltac:(tupled).

#[export] Instance bucket_wire : Wire BucketMetadata :=
  struct_wire (req "partition_id" (req "record_count" (req "byte_count" (req "sha256" no_fields))))
    (fun b => (bk_PartitionID b, (bk_RecordCount b, (bk_ByteCount b, (bk_SHA256 b, tt)))))
    (fun '(p, (r, (b, (s, _)))) => mkBucket p r b s) ltac:(by intros []) ltac:(tupled).

#[export] Instance map_output_wire : Wire MapOutput :=
  struct_wire (req "version" (req "attempt" (req "num_map_partitions" (req "num_reduce_partitions" (req "buckets" no_fields)))))
    (fun o => (mo_Version o, (mo_Attempt o, (mo_NumMapPartitions o, (mo_NumReducePartitions o, (mo_Buckets o, tt))))))
    (fun '(v, (a, (m, (r, (b, _))))) => mkMapOutput v a m r b) ltac:(by intros []) ltac:(tupled).

#[export] Instance snapshot_wire : Wire InputSnapshot :=
  struct_wire (req "run_id" (req "job_id" (req "shuffle_id" (req "stage_id" (req "stage_attempt_id"
      (req "num_map_partitions" (req "num_reduce_partitions" (req "outputs" no_fields))))))))
    (fun s => (is_RunID s, (is_JobID s, (is_ShuffleID s, (is_StageID s, (is_StageAttemptID s,
      (is_NumMapPartitions s, (is_NumReducePartitions s, (is_Outputs s, tt)))))))))
    (fun '(r, (j, (h, (s, (sa, (m, (n, (o, _)))))))) => mkSnapshot r j h s sa m n o) ltac:(by intros []) ltac:(tupled).

#[export] Instance reference_wire : Wire InputReference :=
  struct_wire (req "attempt" (req "partition_id" no_fields))
    (fun r => (ir_Attempt r, (ir_PartitionID r, tt))) (fun '(a, (p, _)) => mkReference a p) ltac:(by intros []) ltac:(tupled).

(** ** Messages *)

#[export] Instance assignment_wire : Wire TaskAssignment :=
  struct_wire (opt "shuffle_inputs" (req "run_id" (req "job_id" (req "stage_id" (req "worker_id" (req "attempt" (req "task" no_fields)))))))
    (fun a => (pa_ShuffleInputs a, (pa_RunID a, (pa_JobID a, (pa_StageID a, (pa_WorkerID a, (pa_Attempt a, (pa_Task a, tt))))))))
    (fun '(i, (r, (j, (s, (w, (a, (t, _))))))) => mkTaskAssignment i r j s w a t) ltac:(by intros []) ltac:(tupled).

Definition records_wire : Wire (option (list string)) := @slice_wire string raw_wire.

#[export] Instance task_output_wire : Wire TaskOutput :=
  struct_wire (opt "shuffle_output" (field "records" false records_wire (req "count" no_fields)))
    (fun o => (po_ShuffleOutput o, (po_Records o, (po_Count o, tt))))
    (fun '(s, (r, (c, _))) => mkTaskOutput s r c) ltac:(by intros []) ltac:(tupled).

#[export] Instance register_response_wire : Wire RegisterWorkerResponse :=
  struct_wire (req "worker_id" (req "total_slots" no_fields))
    (fun r => (rp_WorkerID r, (rp_TotalSlots r, tt))) (fun '(w, (t, _)) => mkRegisterResponse w t) ltac:(by intros []) ltac:(tupled).

#[export] Instance heartbeat_wire : Wire HeartbeatRequest :=
  struct_wire (req "worker_id" (req "free_slots" (req "running_attempt_ids" no_fields)))
    (fun r => (hq_WorkerID r, (hq_FreeSlots r, (hq_RunningAttemptIDs r, tt))))
    (fun '(w, (f, (r, _))) => mkHeartbeat w f r) ltac:(by intros []) ltac:(tupled).

#[export] Instance heartbeat_response_wire : Wire HeartbeatResponse :=
  struct_wire (req "assignments" no_fields)
    (fun r => (hp_Assignments r, tt)) (fun '(a, _) => mkHeartbeatResponse a) ltac:(by intros []) ltac:(tupled).

#[export] Instance success_wire : Wire TaskSuccessRequest :=
  struct_wire (req "job_id" (req "stage_id" (req "attempt" (req "partition_id" (req "worker_id" (req "output" no_fields))))))
    (fun r => (sq_JobID r, (sq_StageID r, (sq_Attempt r, (sq_PartitionID r, (sq_WorkerID r, (sq_Output r, tt)))))))
    (fun '(j, (s, (a, (p, (w, (o, _)))))) => mkSuccessRequest j s a p w o) ltac:(by intros []) ltac:(tupled).

#[export] Instance failure_request_wire : Wire TaskFailureRequest :=
  struct_wire (req "kind" (opt "shuffle_input" (req "job_id" (req "stage_id" (req "attempt" (req "partition_id" (req "worker_id"
      (req "error" no_fields))))))))
    (fun r => (fq_Kind r, (fq_ShuffleInput r, (fq_JobID r, (fq_StageID r, (fq_Attempt r, (fq_PartitionID r, (fq_WorkerID r,
      (fq_Error r, tt)))))))))
    (fun '(k, (i, (j, (s, (a, (p, (w, (e, _)))))))) => mkFailureRequest k i j s a p w e) ltac:(by intros []) ltac:(tupled).

#[export] Instance report_response_wire : Wire TaskReportResponse :=
  struct_wire (req "acknowledged" no_fields) (fun r => (rr_Acknowledged r, tt)) (fun '(a, _) => mkReportResponse a) ltac:(by intros []) ltac:(tupled).

#[export] Instance job_result_wire : Wire JobResultResponse :=
  struct_wire (req "action" (field "records" false records_wire (req "count" no_fields)))
    (fun r => (jp_Action r, (jp_Records r, (jp_Count r, tt)))) (fun '(a, (r, (c, _))) => mkJobResult a r c) ltac:(by intros []) ltac:(tupled).

#[export] Instance error_wire : Wire ErrorResponse :=
  struct_wire (req "code" (req "message" no_fields))
    (fun r => (er_Code r, (er_Message r, tt))) (fun '(c, (m, _)) => mkErrorResponse c m) ltac:(by intros []) ltac:(tupled).

#[export] Instance source_wire : Wire SourceSpec :=
  struct_wire (req "path" (req "num_partitions" no_fields))
    (fun s => (src_Path s, (src_NumPartitions s, tt))) (fun '(p, (n, _)) => mkSource p n) ltac:(by intros []) ltac:(tupled).

#[export] Instance transformation_wire : Wire TransformationSpec :=
  struct_wire (req "kind" (req "function_id" (opt "num_partitions" no_fields)))
    (fun t => (tr_Kind t, (tr_FunctionID t, (tr_NumPartitions t, tt)))) (fun '(k, (f, (n, _))) => mkTransformation k f n) ltac:(by intros []) ltac:(tupled).

#[export] Instance spec_wire : Wire Spec :=
  struct_wire (req "source" (field "transformations" true nil_wire (req "action" no_fields)))
    (fun s => (spec_Source s, (spec_Transformations s, (spec_Action s, tt)))) (fun '(s, (t, (a, _))) => mkSpec s t a) ltac:(by intros []) ltac:(tupled).

(** The base URL is what [url.Parse] makes of a string, which is empty when
    absent; a worker sends none. *)
Section register.
Variable urlParse : string -> option parsedURL.

Program Definition base_url_wire : Wire (option (option parsedURL)) := {|
  wireType := TString; wireTo u := VString "";
  wireOf v := match v with VString s => Some (if bool_decide (s = "") then None else Some (urlParse s)) | _ => None end;
  wireGood u := u = None; wireOmits := true; wireExact := false |}.
Next Obligation. by intros u ->. Qed.
Next Obligation. done. Qed.
Next Obligation. done. Qed.
Next Obligation. intros []; cbn; try done. by eexists. Qed.

Definition register_request_wire : Wire RegisterWorkerRequest :=
  struct_wire (req "worker_id" (req "total_slots" (field "base_url" true base_url_wire no_fields)))
    (fun r => (rq_WorkerID r, (rq_TotalSlots r, (rq_BaseURL r, tt))))
    (fun '(w, (t, (u, _))) => mkRegisterRequest w t u) ltac:(by intros []) ltac:(tupled).
End register.

(** A message type: a struct within the nesting limit. *)
Definition message_type_ok (t : goType) : bool :=
  is_struct t && type_ok t && (typeDepth t <=? maxNestingDepth)%N.

Class WireMessage (M : Type) := {
  message_wire : Wire M;
  message_validate : M -> result unit;
  message_type : message_type_ok (wireType M) = true }.

#[export] Instance message_of {M} `{W : WireMessage M} : Message M := {|
  wire_type := @wireType M message_wire;
  to_wire := @wireTo M message_wire;
  of_wire := @wireOf M message_wire;
  validateMessage := message_validate |}.

Definition message_good {M} `{WireMessage M} (m : M) : Prop := @wireGood M message_wire m.

(** The messages of the worker's and of the client's calls, and their answers. *)
Notation message W validate := {| message_wire := W; message_validate := validate; message_type := eq_refl |}.

Definition register_request_message urlParse : WireMessage RegisterWorkerRequest :=
  message (register_request_wire urlParse) validateRegisterRequest.
#[export] Instance register_response_message : WireMessage RegisterWorkerResponse := message _ validateRegisterResponse.
#[export] Instance heartbeat_message : WireMessage HeartbeatRequest := message _ validateHeartbeat.
#[export] Instance heartbeat_response_message : WireMessage HeartbeatResponse := message _ validateHeartbeatResponse.
#[export] Instance success_message : WireMessage TaskSuccessRequest := message _ validateSuccessRequest.
#[export] Instance failure_message : WireMessage TaskFailureRequest := message _ validateFailureRequest.
#[export] Instance report_response_message : WireMessage TaskReportResponse := message _ validateReportResponse.
#[export] Instance submit_message : WireMessage Spec := message _ validateSpec.
#[export] Instance job_result_message : WireMessage JobResultResponse := message _ validateJobResult.
#[export] Instance error_message : WireMessage ErrorResponse := message _ validateErrorResponse.
