(* ===== verification/MessageTheorems.v ===== *)
(** * MessageTheorems: messages arrive as they were sent

    The theorems about [DecodeAndValidate]: the text of a message is received as
    that message, and what is accepted is strict. *)

From S2P Require Import Prelude Bytes Plan Stages Shuffle Reports Api Runtime Json JsonProofs ExampleFuncs.
From S2P Require Import Runner Protocol Dag Coordinator Wire WireProofs Messages.
#[local] Open Scope Z_scope.

(** ** What the field checks accept *)

(** A text that [checkFields] accepts: fields by their exact names, each once, the
    required ones present, and [null] only for pointers and slices. *)
Inductive strict : goType -> list N -> Prop :=
  | strict_raw data : strict TRawMessage data
  | strict_scalar t data : t ∈ [TBool; TString; TInt; TUint] -> nullText data = false -> strict t data
  | strict_nil_pointer t data : nullText data = true -> strict (TPointer t) data
  | strict_nil_slice t data : nullText data = true -> strict (TSlice t) data
  | strict_pointer t data : nullText data = false -> strict t data -> strict (TPointer t) data
  | strict_slice t data items : nullText data = false -> arrayItems data = Ok items ->
      (forall item, item ∈ items -> strict t item) -> strict (TSlice t) data
  | strict_struct fields data members : nullText data = false -> objectMembers data = Ok members ->
      NoDup (fst <$> members) ->
      (forall name value, (name, value) ∈ members -> exists f, f ∈ fields /\ field_name f = name /\ strict f.2 value) ->
      (forall f, f ∈ fields -> field_omitempty f = false -> field_name f ∈ (fst <$> members)) ->
      strict (TStruct fields) data.

Lemma find_table fields name f : List.find (fun g => String.eqb name g.1.1) (checkTable fields) = Some f ->
  exists g : goField, g ∈ fields /\ field_name g = name /\ f = (g.1, checkFields g.2).
Proof.
  intros [Hin Heq%String.eqb_eq]%List.find_some. apply in_map_iff in Hin as (g & <- & Hg%list_elem_of_In).
  exists g. by split_and!.
Qed.

Lemma checkMembers_Ok fields path members : NoDup (map field_name fields) -> forall seen seen',
  checkMembers (checkTable fields) path seen members = Ok seen' <->
  seen' = rev (fst <$> members) ++ seen /\ NoDup (fst <$> members) /\ (forall name, name ∈ (fst <$> members) -> name ∉ seen) /\
  forall name value, (name, value) ∈ members -> exists f, f ∈ fields /\ field_name f = name /\ checkFields f.2 (path +:+ "." +:+ name) value = Ok tt.
Proof.
  intros Hnd. induction members as [|[name value] members IH]; intros seen seen'; cbn [checkMembers].
  { split; [intros [= <-]|by intros (-> & _)]. split_and!; [done|constructor|by intros ? ?%elem_of_nil|by intros ?? ?%elem_of_nil]. }
  cbn [fmap list_fmap fst rev]. rewrite NoDup_cons. split.
  - destruct (List.find _ _) as [f|] eqn:Ef; [|done]. apply find_table in Ef as (g & Hg & En & ->). cbn [fst snd].
    case_bool_decide as Hs; [done|]. intros ([] & Hc & H)%bind_Ok. apply IH in H as (-> & Hn & Hnew & Hall).
    split_and!.
    + by rewrite <- app_assoc.
    + intros Hin. apply (Hnew name Hin). by left.
    + done.
    + intros n [->|Hn']%elem_of_cons; [done|]. intros Hs'. apply (Hnew n Hn'). by right.
    + intros n v [[= -> ->]|Hin]%elem_of_cons; [by exists g|by apply Hall].
  - intros (-> & [Hname Hn] & Hnew & Hall). destruct (Hall name value) as (f & Hf & En & Hc); [by left|].
    apply list_elem_of_lookup_1 in Hf as [i Hi]. rewrite <- En, (find_field _ i f Hnd Hi). cbn [fst snd]. rewrite En.
    rewrite bool_decide_eq_false_2 by (apply Hnew; by left). rewrite Hc. cbn [mbind result_bind].
    apply IH. split_and!; [by rewrite <- app_assoc|done| |].
    + intros n Hin. intros [->|Hs]%elem_of_cons; [done|]. revert Hs. apply Hnew. by right.
    + intros n v Hin. apply Hall. by right.
Qed.

Lemma checkMissing_Ok fields path seen : checkMissing (checkTable fields) path seen = Ok tt <->
  forall f, f ∈ fields -> field_omitempty f = false -> field_name f ∈ seen.
Proof.
  induction fields as [|[[name om] t] fields IH]; cbn [map checkMissing fst snd].
  { split; [by intros _ f ?%elem_of_nil|done]. }
  destruct (negb (bool_decide (name ∈ seen)) && negb om) eqn:E.
  - apply andb_true_iff in E as [E1%negb_true_iff%bool_decide_eq_false E2%negb_true_iff].
    split; [done|]. intros H. destruct E1. apply (H (name, om, t)); [by left|done].
  - rewrite IH. split.
    + intros H f [->|Hf]%elem_of_cons Hom; [|by apply H]. unfold field_omitempty, field_name in *. cbn in *. subst om.
      rewrite andb_true_r in E. by apply negb_false_iff, bool_decide_eq_true in E.
    + intros H f Hf. apply H. by right.
Qed.

Lemma scalar_strict t path data : t ∈ [TBool; TString; TInt; TUint] -> checkFields t path data = Ok tt <-> strict t data.
Proof.
  intros Ht. transitivity (nullText data = false).
  - clear -Ht. repeat (apply elem_of_cons in Ht as [->|Ht]; [cbn; by destruct (nullText data)|]). by apply elem_of_nil in Ht.
  - split; [by apply strict_scalar|]. inversion 1; subst; try done; set_solver.
Qed.

Lemma slice_strict t path data : (forall path data, checkFields t path data = Ok tt <-> strict t data) ->
  checkFields (TSlice t) path data = Ok tt <-> strict (TSlice t) data.
Proof.
  intros IH. cbn [checkFields]. destruct (nullText data) eqn:E; [split; [by constructor|done]|]. rewrite bind_Ok. split.
  - intros (items & Hi & H). eapply strict_slice; [done|exact Hi|]. intros item [i Hin]%list_elem_of_lookup_1.
    apply check_all_Ok with (j := i) (x := item) in H; [|done]. by apply IH in H.
  - inversion 1 as [|? ? Hs| | | |? ? items ? Hi Hall|]; subst; try congruence; [set_solver|].
    exists items. split; [done|]. apply check_all_Ok. intros j item Hj. by eapply IH, Hall, list_elem_of_lookup_2.
Qed.

Lemma struct_strict fields path data : NoDup (map field_name fields) ->
  (forall f, f ∈ fields -> forall path data, checkFields f.2 path data = Ok tt <-> strict f.2 data) ->
  checkFields (TStruct fields) path data = Ok tt <-> strict (TStruct fields) data.
Proof.
  intros Hnd Hf. cbn [checkFields]. destruct (nullText data) eqn:E.
  { split; [done|inversion 1; subst; [set_solver|congruence]]. }
  split.
  - destruct (expect 123 data) eqn:Ee; [|done]. intros (members & Hm & (seen & Hc & Hmiss)%bind_Ok)%bind_Ok.
    apply checkMembers_Ok in Hc as (-> & Hn & _ & Hall); [|done]. rewrite app_nil_r in Hmiss.
    apply (strict_struct fields data members); [done|done|done| |].
    + intros name value Hin. destruct (Hall name value Hin) as (f & Hin' & En & Hc). exists f.
      split_and!; [done|done|by apply Hf in Hc].
    + intros f Hin Hom. apply (proj1 (checkMissing_Ok _ _ _) Hmiss) in Hom; [|done].
      apply list_elem_of_In. apply list_elem_of_In, in_rev in Hom. done.
  - inversion 1 as [|? ? Hs| | | | |? ? members ? Hm Hn Hall Hreq]; subst; [set_solver|].
    assert (exists t, expect 123 data = Some t) as [t Et].
    { revert Hm. unfold objectMembers. destruct (expect 123 data); [by eexists|done]. }
    rewrite Et, Hm. cbn [mbind result_bind].
    assert (Hc : checkMembers (checkTable fields) path [] members = Ok (rev (fst <$> members))).
    { apply checkMembers_Ok; [done|]. rewrite app_nil_r. split_and!; [done|done|by intros ? _ ?%elem_of_nil|].
      intros name value Hin. destruct (Hall name value Hin) as (f & Hin' & En & Hs). exists f.
      split_and!; [done|done|by apply Hf]. }
    rewrite Hc. cbn [mbind result_bind]. apply checkMissing_Ok. intros f Hin Hom.
    apply list_elem_of_In. rewrite <- in_rev. by apply list_elem_of_In, Hreq.
Qed.

Lemma checkFields_strict t : type_ok t = true -> forall path data, checkFields t path data = Ok tt <-> strict t data.
Proof.
  induction t as [| | | | |t IH|t IH|fields IH] using goType_nested; intros Hok path data.
  2-5: apply scalar_strict; clear; set_solver.
  - split; [constructor|done].
  - cbn [type_ok checkFields] in *. apply andb_true_iff in Hok as [_ Hok]. destruct (nullText data) eqn:E.
    + split; [by constructor|done].
    + rewrite IH by done. split; [by apply strict_pointer|]. inversion 1; subst; try congruence; set_solver.
  - apply slice_strict. by apply IH.
  - cbn [type_ok] in Hok. apply andb_true_iff in Hok as [[Hnd%bool_decide_eq_true _]%andb_true_iff Hoks].
    apply struct_strict; [done|]. intros f Hf. rewrite Forall_forall in IH. apply IH; [done|].
    rewrite forallb_forall in Hoks. apply (Hoks (type_ok f.2)). apply in_map_iff. exists f. split; [done|by apply list_elem_of_In].
Qed.

(** ** The decoder returns *)

(** Not the end of some fuel. *)
Definition fine {A} (r : result A) : Prop := match r with Ok _ => True | Err err => errors_Is err "out of fuel" = false end.

Lemma fine_bind {A B} (r : result A) (k : A -> result B) : fine r -> (forall a, fine (k a)) -> fine (mbind k r).
Proof. destruct r; [by intros _ H; apply H|done]. Qed.

Lemma returns_fine {A} (bs : list N) (r : result (A * list N)) : returns bs r -> fine r.
Proof. by destruct r as [[? ?]|]. Qed.

Lemma rawValue_returns bs : returns bs (rawValue bs).
Proof.
  unfold rawValue. eapply returns_weaken; [|apply skipSpace_length].
  apply returns_bind; [apply parse_fuel; lia|]. done.
Qed.

Lemma arrayLoop_fine fuel : forall bs, (length bs < fuel)%nat -> fine (arrayLoop fuel bs).
Proof.
  induction fuel as [|fuel IH]; intros bs Hf; [lia|]. cbn [arrayLoop].
  pose proof (rawValue_returns bs) as Hr. destruct (rawValue bs) as [[item t]|err]; [|done]. cbn [returns mbind result_bind] in *.
  destruct (expect 44 t) as [t'|] eqn:E; [apply expect_length in E|by destruct (expect 93 t)].
  apply fine_bind; [apply IH; lia|done].
Qed.

Lemma arrayItems_fine data : fine (arrayItems data).
Proof. unfold arrayItems. destruct (expect 91 data); [|done]. destruct (expect 93 _); [done|]. apply arrayLoop_fine. lia. Qed.

Lemma objectLoop_fine fuel : forall bs, (length bs < fuel)%nat -> fine (objectLoop fuel bs).
Proof.
  induction fuel as [|fuel IH]; intros bs Hf; [lia|]. cbn [objectLoop].
  destruct (expect 34 bs) as [t|] eqn:E; [apply expect_length in E|done].
  pose proof (unquote_returns t) as Hu. destruct (unquote t) as [[key t1]|err]; [|done]. cbn [returns mbind result_bind] in *.
  destruct (expect 58 t1) as [t2|] eqn:E2; [apply expect_length in E2|done].
  pose proof (rawValue_returns t2) as Hr. destruct (rawValue t2) as [[v t3]|err]; [|done]. cbn [returns mbind result_bind] in *.
  destruct (expect 44 t3) as [t4|] eqn:E3; [apply expect_length in E3|by destruct (expect 125 t3)].
  apply fine_bind; [apply IH; lia|done].
Qed.

Lemma objectMembers_fine data : fine (objectMembers data).
Proof. unfold objectMembers. destruct (expect 123 data); [|done]. destruct (expect 125 _); [done|]. apply objectLoop_fine. lia. Qed.

Lemma decodeLast_fine decode v l : (forall data, fine (decode data)) -> fine (decodeLast decode v l).
Proof. intros H. revert v. induction l as [|data l IH]; intros v; [done|]. by apply fine_bind. Qed.

Lemma decodeType_fine t : forall data, fine (decodeType t data).
Proof.
  induction t as [| | | | |t IH|t IH|fields IH] using goType_nested; intros data; [done|..]; cbn [decodeType];
    destruct (is_null data); try done.
  - repeat case_bool_decide; done.
  - destruct (expect 34 data); [|done]. apply fine_bind; [eapply returns_fine, unquote_returns|by intros []].
  - destruct (isValidNumber data); [|done]. apply fine_bind; [|done]. unfold ParseInt.
    repeat (case_match; try done).
  - by repeat case_match.
  - by apply fine_bind.
  - apply fine_bind; [apply arrayItems_fine|]. intros items. apply fine_bind; [|done].
    induction items as [|item items IHl]; [done|]. by apply fine_bind; [|intros; apply fine_bind].
  - apply fine_bind; [apply objectMembers_fine|]. intros members. destruct (existsb _ _); [done|].
    apply fine_bind; [|done]. generalize (map field_name fields) as names, 0%nat as i. intros names.
    induction IH as [|f fields Hf _ IH]; intros i; [done|]. cbn [map decodeFields].
    apply fine_bind; [by apply decodeLast_fine|]. intros v. by apply fine_bind.
Qed.

Lemma checkFields_fine t : forall path data, fine (checkFields t path data).
Proof.
  induction t as [| | | | |t IH|t IH|fields IH] using goType_nested; intros path data; cbn [checkFields]; [done|..];
    destruct (nullText data); try done.
  - apply fine_bind; [apply arrayItems_fine|]. intros items. generalize 0%nat.
    induction items as [|item items IHl]; intros i; [done|]. by apply fine_bind.
  - destruct (expect 123 data); [|done]. apply fine_bind; [apply objectMembers_fine|]. intros members.
    apply fine_bind.
    + generalize (@nil string) as seen. induction members as [|[name value] members IHm]; intros seen; [done|].
      cbn [checkMembers]. destruct (List.find _ _) as [f|] eqn:Ef; [|done]. apply find_table in Ef as (g & Hg & _ & ->).
      cbn [fst snd]. case_bool_decide; [done|]. rewrite Forall_forall in IH. apply fine_bind; [by apply IH|intros; apply IHm].
    + intros seen. clear IH. induction fields as [|f fields IHf]; [done|]. cbn [map checkMissing].
      destruct (negb _ && negb _); [done|]. apply IHf.
Qed.

Lemma fine_invalid {A} (r : result A) : fine r -> fine (map_err (fun err => invalidMessage "%w" [FWrap err]) r).
Proof. destruct r as [|err]; [done|]. unfold fine, errors_Is. cbn. case_bool_decide; [done|]. by destruct (errors_find _ err). Qed.

(** The fuel of the decoder never runs out, whatever the input. *)
Lemma decode_returns {M} `{WireMessage M} r maxBytes : rd_err r = None -> (forall m : M, fine (message_validate m)) ->
  fine (DecodeAndValidate (M := M) r maxBytes).
Proof.
  intros Hr Hv. unfold DecodeAndValidate. destruct (_ || _); [done|]. destruct (_ <? _); [done|]. rewrite Hr.
  cbn [mbind result_bind]. apply fine_bind; [eapply fine_invalid, returns_fine, rawValue_returns|]. intros [value rest].
  apply fine_bind; [apply fine_invalid, decodeType_fine|]. intros v. destruct (negb _); [done|].
  apply fine_bind; [apply fine_invalid, checkFields_fine|]. intros _. destruct (of_wire v); [|done].
  apply fine_bind; [apply fine_invalid, Hv|done].
Qed.

(** ** Properties *)

Lemma message_type_spec {M} `{W : WireMessage M} : let t := @wireType M message_wire in
  is_struct t = true /\ type_ok t = true /\ (typeDepth t <= maxNestingDepth)%N.
Proof.
  pose proof message_type as H. unfold message_type_ok in H. apply andb_true_iff in H as [[Hs Ht]%andb_true_iff Hd].
  apply N.leb_le in Hd. by split_and!.
Qed.

(** The text of a message within the limit. *)
Lemma marshal_received {M} `{WireMessage M} (m : M) rest :
  message_good m -> rest = [] \/ rest = [newline] ->
  exists data, Marshal m = Ok data /\ data <> [] /\ forall maxBytes,
    Z.of_nat (length (data ++ rest)) <= maxBytes < 2 ^ 63 - 1 ->
    DecodeAndValidate (mkReader (data ++ rest) None) maxBytes = received message_validate m.
Proof.
  intros Hgood Hrest. destruct (message_type_spec (M := M)) as (Hs & Ht & Hd).
  destruct (value_wired _ Ht Hd (wireTo m) (wire_value m Hgood)) as [p Hp]. exists p.
  destruct (wr_struct _ _ _ Hp Hs) as [Hnull Hstruct]. destruct (Hstruct rest) as [Hraw Hcheck].
  assert (Hne : p <> []) by (by destruct Hnull as (b & t & -> & _)).
  split; [apply Hp|]. split; [done|]. unfold DecodeAndValidate. cbn [rd_content rd_err]. intros maxBytes [Hle Hlt].
  assert (Hpos : 0 < Z.of_nat (length (p ++ rest))) by (rewrite length_app; destruct p; [done|cbn; lia]).
  destruct (Z.leb_spec maxBytes 0); [lia|]. destruct (Z.eqb_spec maxBytes (2 ^ 63 - 1)); [lia|]. cbn [orb].
  destruct (Z.ltb_spec maxBytes (Z.of_nat (length (p ++ rest)))); [lia|].
  rewrite Hraw. cbn [map_err mbind result_bind]. change (@wire_type M message_of) with (@wireType M message_wire).
  rewrite (wr_decode _ _ _ Hp). cbn [map_err mbind result_bind].
  rewrite bool_decide_eq_true_2 by (by destruct Hrest as [->| ->]). cbn [negb].
  rewrite Hcheck. cbn [map_err mbind result_bind]. change (@of_wire M message_of) with (@wireOf M message_wire).
  by rewrite (wire_back m Hgood).
Qed.

(** What arrives is what was sent.  A message whose fields JSON can carry is
    marshalled; read to its end, alone or with the newline the server appends and
    within the limit, its text is received as that message, after its [Validate]:
    [DecodeAndValidate] is [received], with which the coordinator and its workers
    are modelled. *)
Theorem message_received {M} `{WireMessage M} (m : M) rest maxBytes :
  message_good m -> rest = [] \/ rest = [newline] ->
  exists data, Marshal m = Ok data /\
    (Z.of_nat (length (data ++ rest)) <= maxBytes < 2 ^ 63 - 1 ->
     DecodeAndValidate (mkReader (data ++ rest) None) maxBytes = received message_validate m) /\
    (0 < maxBytes < Z.of_nat (length (data ++ rest)) -> maxBytes <> 2 ^ 63 - 1 ->
     DecodeAndValidate (M := M) (mkReader (data ++ rest) None) maxBytes = Err (Sentinel ErrMessageTooLarge)).
Proof.
  intros Hgood Hrest. destruct (marshal_received m rest Hgood Hrest) as (data & Hm & _ & Hd). exists data.
  split; [done|]. split; [apply Hd|]. unfold DecodeAndValidate. cbn [rd_content rd_err]. intros [Hpos Hlt] Hne.
  destruct (Z.leb_spec maxBytes 0); [lia|]. destruct (Z.eqb_spec maxBytes (2 ^ 63 - 1)); [lia|].
  cbn [orb]. by destruct (Z.ltb_spec maxBytes (Z.of_nat (length (data ++ rest)))); [|lia].
Qed.

(** A heartbeat, as a worker sends it. *)
Definition example_heartbeat : HeartbeatRequest := mkHeartbeat "w1" 2 (Some [3%N; 7%N]).

Lemma message_received_witness : exists data,
  Marshal example_heartbeat = Ok data /\ length data = 61%nat /\
  DecodeAndValidate (mkReader (data ++ [newline]) None) 1048576 = Ok example_heartbeat.
Proof.
  destruct (message_received example_heartbeat [newline] 1048576) as (data & Hm & Hd & _).
  - repeat split; try done. repeat constructor.
  - by right.
  - exists data. assert (E : data = match Marshal example_heartbeat with Ok d => d | Err _ => [] end) by by rewrite Hm.
    split; [done|]. split; [rewrite E; by vm_compute|]. rewrite Hd; [by vm_compute|]. rewrite E. by vm_compute.
Defined.

Lemma accepted_strict {M} `{WireMessage M} r maxBytes (m : M) : DecodeAndValidate r maxBytes = Ok m ->
  (0 < maxBytes /\ maxBytes <> 2 ^ 63 - 1 /\ Z.of_nat (length (rd_content r)) <= maxBytes /\ rd_err r = None) /\
  exists value rest v, rawValue (rd_content r) = Ok (value, rest) /\ skipSpace rest = [] /\
    decodeType (@wireType M message_wire) value = Ok v /\ strict (@wireType M message_wire) (rd_content r) /\
    @wireOf M message_wire v = Some m /\ message_validate m = Ok tt.
Proof.
  destruct (message_type_spec (M := M)) as (_ & Ht & _). unfold DecodeAndValidate.
  destruct (Z.leb_spec maxBytes 0); [done|]. destruct (Z.eqb_spec maxBytes (2 ^ 63 - 1)); [done|]. cbn [orb].
  destruct (Z.ltb_spec maxBytes (Z.of_nat (length (rd_content r)))); [done|].
  destruct (rd_err r); [done|]. cbn [mbind result_bind].
  intros ([value rest] & Hraw%map_err_Ok & (v & Hv%map_err_Ok & H')%bind_Ok)%bind_Ok.
  destruct (bool_decide (skipSpace rest = [])) eqn:Er; [|done]. apply bool_decide_eq_true in Er. cbn [negb] in H'.
  apply bind_Ok in H' as ([] & Hc%map_err_Ok & H'). apply checkFields_strict in Hc; [|done].
  destruct (of_wire v) as [m'|] eqn:Em; [|done]. apply bind_Ok in H' as ([] & Hval%map_err_Ok & [= ->]).
  split; [by split_and!|]. exists value, rest, v. by split_and!.
Qed.

(** C22.  What is accepted is strict.  A text is received as a message exactly when
    it is within the limit, is one JSON value that the typed decoder takes, names
    every field of every struct by its exact name and once, has the required ones,
    has [null] only in place of pointers and slices, and the message is valid. *)
Theorem decode_strict {M} `{WireMessage M} r maxBytes (m : M) :
  DecodeAndValidate r maxBytes = Ok m <->
  (0 < maxBytes /\ maxBytes <> 2 ^ 63 - 1 /\ Z.of_nat (length (rd_content r)) <= maxBytes /\ rd_err r = None) /\
  exists value rest v, rawValue (rd_content r) = Ok (value, rest) /\ skipSpace rest = [] /\
    decodeType (@wireType M message_wire) value = Ok v /\ strict (@wireType M message_wire) (rd_content r) /\
    @wireOf M message_wire v = Some m /\ message_validate m = Ok tt.
Proof.
  split; [apply accepted_strict|].
  destruct (message_type_spec (M := M)) as (_ & Ht & _). unfold DecodeAndValidate.
  intros [(Hpos & Hne & Hle & ->) (value & rest & v & -> & Hrest & Hv & Hc & Em & Hval)].
  destruct (Z.leb_spec maxBytes 0); [lia|]. destruct (Z.eqb_spec maxBytes (2 ^ 63 - 1)); [lia|]. cbn [orb].
  destruct (Z.ltb_spec maxBytes (Z.of_nat (length (rd_content r)))); [lia|]. cbn [map_err mbind result_bind].
  change (@wire_type M message_of) with (@wireType M message_wire). rewrite Hv. cbn [map_err mbind result_bind].
  rewrite bool_decide_eq_true_2 by done. cbn [negb].
  rewrite (proj2 (checkFields_strict _ Ht "message" _) Hc). cbn [map_err mbind result_bind].
  change (@of_wire M message_of) with (@wireOf M message_wire). rewrite Em. cbn. by rewrite Hval.
Qed.
