(* ===== verification/Explain.v ===== *)
(** * Explain: the lineage and the stage DAG as text

    Models [plan/explain.go], [scheduler/explain.go], [api/explain.go] and
    [api/stage_plan.go]: [ExplainLineage], its depth-first collection of
    ancestors (on fuel, as [validateFrom]), [ExplainStagePlan], and the two
    methods of [RDD].  A [strings.Builder] is the string it returns. *)

From Stdlib Require Import Ascii.
From S2P Require Import Prelude Bytes Plan Lineage Stages Planner PlannerProofs Runner Json JsonProofs Messages.
#[local] Open Scope Z_scope.

(** ** Formatting *)

(** [fmt.Fprintf] of [%d] and [%t]. *)
Definition fmt_uint (n : N) : string := pretty n.
Definition fmt_int (z : Z) : string := pretty z.
Definition fmt_bool (b : bool) : string := if b then "true" else "false".

Definition dependency_name (k : DependencyKind) : string :=
  match k with DependencyNarrow => "narrow" | DependencyShuffle => "shuffle" | DependencyOther s => s end.

(** [%s[%d]] of a partitioner. *)
Definition partitioner_text (p : PartitionerSpec) : string :=
  partitioner_name (pt_Kind p) +:+ "[" +:+ fmt_int (pt_NumPartitions p) +:+ "]".

(** The byte ['\n'], and the strings without one. *)
Definition nl : string := String (Ascii.ascii_of_N newline) EmptyString.
Definition one_line (s : string) : Prop := newline ∉ bytes_of s.

(** ** Lineages *)

Definition dependencyExplanation (d : Dependency) : string :=
  " " +:+ dependency_name (dep_Kind d) +:+ " <- RDD " +:+ fmt_uint (dep_ParentID d) +:+
  match dep_Shuffle d with
  | None => ""
  | Some sd =>
      " shuffle=" +:+ fmt_uint (sd_ShuffleID sd) +:+
      " shuffle_partitioner=" +:+ partitioner_text (sd_Partitioner sd) +:+
      " aggregator=" +:+ quoteString (sd_AggregatorID sd) +:+
      " map_side_combine=" +:+ fmt_bool (sd_MapSideCombine sd)
  end.

(** [ key=%q] when the value is not empty. *)
Definition quotedField (key value : string) : string :=
  if bool_decide (value = "") then "" else " " +:+ key +:+ "=" +:+ quoteString value.

Definition nodeExplanation (n : RDDNode) : string :=
  "RDD " +:+ fmt_uint (node_ID n) +:+ " " +:+ node_Name n +:+
  "[" +:+ fmt_int (node_NumPartitions n) +:+ "] operator=" +:+ operator_name (op_Kind (node_Operator n)) +:+
  quotedField "source" (op_SourcePath (node_Operator n)) +:+
  quotedField "function" (op_FunctionID (node_Operator n)) +:+
  match node_Partitioner n with None => "" | Some p => " partitioner=" +:+ partitioner_text p end +:+
  String.concat "" (dependencyExplanation <$> node_Dependencies n).

Definition writeNodeExplanation (output : string) (n : RDDNode) : string :=
  output +:+ nodeExplanation n +:+ nl.

Fixpoint collectDependencies (visit : RDDID -> gset N -> fuelled (gset N))
    (ds : list Dependency) (reachable : gset N) : fuelled (gset N) :=
  match ds with
  | [] => Some (Ok reachable)
  | d :: ds =>
      reachable ←? visit (dep_ParentID d) reachable;
      collectDependencies visit ds reachable
  end.

Fixpoint collectAncestors (fuel : nat) (g : RDDGraph) (id : RDDID) (reachable : gset N)
    : fuelled (gset N) :=
  match fuel with
  | O => None
  | S fuel =>
      if bool_decide (id ∈ reachable) then Some (Ok reachable)
      else collectDependencies (collectAncestors fuel g)
             (node_Dependencies (default zeroNode (nodes g !! id))) ({[id]} ∪ reachable)
  end.

(** Ranging over the map gives its keys in some order; sorting forgets it. *)
Definition sortedIDs (reachable : gset N) : list RDDID := merge_sort N.le (elements reachable).

Definition lineageHeader : string := "== RDD Lineage ==".

Definition ExplainLineage (g : option RDDGraph) (target : RDDID) : fuelled string :=
  _ ←? Validate g target;
  match g with
  | None => Some (Err panic_nil)
  | Some g =>
      reachable ←? collectAncestors (S (size (nodes g))) g target ∅;
      Some (Ok (foldl (fun output id => writeNodeExplanation output (default zeroNode (nodes g !! id)))
                  (lineageHeader +:+ nl) (sortedIDs reachable)))
  end.

(** ** Stage plans *)

Definition formatStageIDs (ids : list StageID) : string :=
  if bool_decide (ids = []) then "[]"
  else "[" +:+ String.concat "," ((fun id => fmt_int (i64 (Z.of_N id))) <$> ids) +:+ "]".

Definition formatStageOperation (o : StageOperation) : list string :=
  match so_Kind o, so_RDD o, so_ShuffleRead o with
  | StageOperationRDD, Some rdd, _ =>
      ["RDD " +:+ fmt_uint (ro_RDDID rdd) +:+ " " +:+ operator_name (op_Kind (ro_Operator rdd))]
  | StageOperationShuffleRead, _, Some sr =>
      ["ShuffleRead " +:+ fmt_uint (sr_ShuffleID sr) +:+ " " +:+ partitioner_text (sr_Partitioner sr)]
  | _, _, _ => []
  end.

Definition formatStageOperations (operations : list StageOperation) : string :=
  String.concat " -> " (operations ≫= formatStageOperation).

Definition stageExplanation (s : Stage) : string :=
  "Stage " +:+ fmt_uint (st_ID s) +:+ " kind=" +:+ stage_name (st_Kind s) +:+
  " partitions=" +:+ fmt_int (st_NumPartitions s) +:+
  " parents=" +:+ formatStageIDs (st_ParentIDs s) +:+
  " tasks=" +:+ fmt_int (st_NumPartitions s) +:+ nl +:+
  "  Pipeline: " +:+ formatStageOperations (st_Operations s) +:+ nl +:+
  match st_ShuffleWrite s with
  | None => ""
  | Some sw =>
      "  ShuffleWrite: shuffle=" +:+ fmt_uint (sw_ShuffleID sw) +:+
      " partitioner=" +:+ partitioner_text (sw_Partitioner sw) +:+
      " aggregator=" +:+ quoteString (sw_AggregatorID sw) +:+
      " map_side_combine=" +:+ fmt_bool (sw_MapSideCombine sw) +:+ nl
  end +:+
  match st_FinalAction s with
  | None => ""
  | Some a =>
      "  Action: " +:+ action_name (act_Kind a) +:+ " target=RDD " +:+ fmt_uint (act_TargetRDD a) +:+ nl
  end.

Definition ExplainStagePlan (p : StagePlan) : string :=
  foldl (fun output s => output +:+ stageExplanation s)
    ("== Stage DAG ==" +:+ nl +:+ "Target RDD " +:+ fmt_uint (sp_TargetRDD p) +:+ nl) (sp_Stages p).

(** ** The methods of [RDD] *)

(** The handle's context is [None] when nil; it holds its graph. *)
Definition RDD_ExplainLineage (ctx : option (option RDDGraph)) (id : RDDID) : fuelled string :=
  match ctx with
  | None => Some (Err (Errorf "explain RDD %d: missing context" [FInt (Z.of_N id)]))
  | Some g => map_err (fun e => Errorf "explain RDD %d: %w" [FInt (Z.of_N id); FWrap e]) <$> ExplainLineage g id
  end.

Definition RDD_PlanStages (ctx : option (option RDDGraph)) (id : RDDID) (action : ActionKind)
    (functions : option FunctionLookup) : fuelled StagePlan :=
  match ctx with
  | None => Some (Err (Errorf "plan RDD %d: missing context" [FInt (Z.of_N id)]))
  | Some g =>
      map_err (fun e => Errorf "plan RDD %d: %w" [FInt (Z.of_N id); FWrap e]) <$>
        PlanAction (Some functions) g (mkAction action id)
  end.

Example explained :
  ExplainLineage (Some example_graph) 1%N = Some (Ok
    ("== RDD Lineage ==" +:+ nl +:+ nodeExplanation example_source +:+ nl +:+
     "RDD 1 MapToPair[2] operator=map_to_pair function=" +:+ quoteString "word_pair" +:+
     " narrow <- RDD 0" +:+ nl)).
Proof. vm_compute. reflexivity. Qed.

(** The text of [scheduler/explain_test.go]. *)
Example explained_stages :
  ExplainStagePlan
    (mkStagePlan 2
       [mkStage 0 StageShuffleMap [] 4
          [mkStageOperation StageOperationRDD (Some (mkRDDOperation 0 (mkOperatorSpec OpSource "" "events.txt"))) None;
           mkStageOperation StageOperationRDD (Some (mkRDDOperation 1 (mkOperatorSpec OpMapToPair "pair" ""))) None]
          (Some (mkShuffleWrite 9 (HashPartitioner 2) "sum" true)) None;
        mkStage 1 StageResult [0%N] 2
          [mkStageOperation StageOperationShuffleRead None (Some (mkShuffleRead 9 (HashPartitioner 2)));
           mkStageOperation StageOperationRDD (Some (mkRDDOperation 2 (mkOperatorSpec OpReduceByKey "sum" ""))) None]
          None (Some (mkAction ActionCollect 2))]) =
  "== Stage DAG ==" +:+ nl +:+ "Target RDD 2" +:+ nl +:+
  "Stage 0 kind=shuffle_map partitions=4 parents=[] tasks=4" +:+ nl +:+
  "  Pipeline: RDD 0 source -> RDD 1 map_to_pair" +:+ nl +:+
  "  ShuffleWrite: shuffle=9 partitioner=hash[2] aggregator=" +:+ quoteString "sum" +:+ " map_side_combine=true" +:+ nl +:+
  "Stage 1 kind=result partitions=2 parents=[0] tasks=2" +:+ nl +:+
  "  Pipeline: ShuffleRead 9 hash[2] -> RDD 2 reduce_by_key" +:+ nl +:+
  "  Action: collect target=RDD 2" +:+ nl.
Proof. vm_compute. reflexivity. Qed.

(** ** The search for ancestors *)

Section ancestors.
Context (g : RDDGraph).

(** What a search from [id] adds to [seen]: only ancestors of the roots, [id] among
    them, and with every node its parents. *)
Record searched (roots : list RDDID) (seen seen' : gset N) : Prop := {
  se_keeps : seen ⊆ seen';
  se_roots : forall id, id ∈ roots -> id ∈ seen';
  se_sound : forall x, x ∈ seen' -> x ∈ seen \/ exists id, id ∈ roots /\ rtc (parent_of g) id x;
  se_closed : forall x y, x ∈ seen' -> parent_of g x y -> x ∈ seen \/ y ∈ seen' }.

Lemma searched_nil seen : searched [] seen seen.
Proof. split; [done|by intros ? ?%elem_of_nil|auto|auto]. Qed.

Lemma searched_cons id ids s1 s2 s3 :
  searched [id] s1 s2 -> searched ids s2 s3 -> searched (id :: ids) s1 s3.
Proof.
  intros [K1 R1 S1 C1] [K2 R2 S2 C2]. split.
  - set_solver.
  - intros x [->|Hx]%elem_of_cons; [apply K2, R1; by left|by apply R2].
  - intros x [Hx|(r & Hr & Hx)]%S2; [|right; exists r; split; [by right|done]].
    apply S1 in Hx as [Hx|(r & Hr & Hx)]; [by left|]. apply list_elem_of_singleton in Hr as ->.
    right. exists id. split; [by left|done].
  - intros x y Hx Hy. destruct (C2 x y Hx Hy) as [H|H]; [|by right].
    destruct (C1 x y H Hy) as [H'|H']; [by left|right; by apply K2].
Qed.

Lemma collectDependencies_searched visit ds seen (k : nat) :
  (forall d s, d ∈ ds -> (size (dom (nodes g) ∖ s) <= k)%nat ->
     exists s', visit (dep_ParentID d) s = Some (Ok s') /\ searched [dep_ParentID d] s s') ->
  (size (dom (nodes g) ∖ seen) <= k)%nat ->
  exists seen', collectDependencies visit ds seen = Some (Ok seen') /\ searched (dep_ParentID <$> ds) seen seen'.
Proof.
  revert seen. induction ds as [|d ds IH]; intros seen Hv Hk; cbn [collectDependencies].
  - exists seen. split; [done|apply searched_nil].
  - destruct (Hv d seen) as (s1 & -> & H1); [by left|done|]. cbn [fbind].
    destruct (IH s1) as (s2 & -> & H2).
    + intros d' s Hd. apply Hv. by right.
    + enough (size (dom (nodes g) ∖ s1) <= size (dom (nodes g) ∖ seen))%nat by lia.
      apply subseteq_size. pose proof (se_keeps _ _ _ H1). set_solver.
    + exists s2. split; [done|]. rewrite fmap_cons. by eapply searched_cons.
Qed.

Lemma collectAncestors_searched fuel id seen :
  lineage_ok g id -> (size (dom (nodes g) ∖ seen) < fuel)%nat ->
  exists seen', collectAncestors fuel g id seen = Some (Ok seen') /\ searched [id] seen seen'.
Proof.
  revert id seen. induction fuel as [|fuel IH]; intros id seen Hl Hf; [lia|]. cbn [collectAncestors].
  case_bool_decide as Hin.
  { exists seen. split; [done|]. split; [done|by intros ? ->%list_elem_of_singleton|auto|auto]. }
  destruct Hl as [n (Hn & _) Hds]. rewrite Hn, default_Some.
  assert (Hlt : (size (dom (nodes g) ∖ ({[id]} ∪ seen)) < size (dom (nodes g) ∖ seen))%nat).
  { apply subset_size. apply mk_is_Some, elem_of_dom in Hn. set_solver. }
  destruct (collectDependencies_searched (collectAncestors fuel g) (node_Dependencies n) ({[id]} ∪ seen)
    (size (dom (nodes g) ∖ ({[id]} ∪ seen)))) as (s & -> & [K R S C]); [|done|].
  { intros d s Hd Hs. apply IH; [by apply Hds|lia]. }
  exists s. split; [done|]. split.
  - set_solver.
  - intros x ->%list_elem_of_singleton. set_solver.
  - intros x [[->%elem_of_singleton|Hx]%elem_of_union|(p & (d & -> & Hd)%list_elem_of_fmap & Hx)]%S; [|by left|];
      right; exists id; (split; [by left|]); [apply rtc_refl|]. eapply rtc_l; [|exact Hx]. by exists n, d.
  - intros x y Hx Hy. destruct (C x y Hx Hy) as [[->%elem_of_singleton|?]%elem_of_union|?]; [|by left|by right].
    right. apply R. destruct Hy as (m & d & Hm & Hd & <-). assert (m = n) as -> by congruence.
    apply list_elem_of_fmap. by exists d.
Qed.

Lemma collectAncestors_spec id : lineage_ok g id ->
  exists s, collectAncestors (S (size (nodes g))) g id ∅ = Some (Ok s) /\
    forall x, x ∈ s <-> rtc (parent_of g) id x.
Proof.
  intros Hl. destruct (collectAncestors_searched (S (size (nodes g))) id ∅ Hl) as (s & Hs & [_ R S C]).
  { rewrite difference_empty_L, size_dom. lia. }
  exists s. split; [done|]. intros x. split.
  - intros [?|(r & ->%list_elem_of_singleton & H)]%S; [set_solver|done].
  - intros Hr. assert (Hid : id ∈ s) by (apply R; by left). clear -C Hr Hid.
    induction Hr as [x|x y z Hxy _ IH]; [done|]. apply IH. by destruct (C x y Hid Hxy); [set_solver|].
Qed.
End ancestors.

(** ** Lines *)

Definition unlines (ls : list string) : string := String.concat "" ((fun l => l +:+ nl) <$> ls).

Lemma append_empty_r (s : string) : s +:+ "" = s.
Proof. induction s as [|c s IH]; [done|]. by rewrite append_cons, IH. Qed.

Lemma append_assoc (s t u : string) : (s +:+ t) +:+ u = s +:+ t +:+ u.
Proof. induction s as [|c s IH]; [done|]. by rewrite !append_cons, IH. Qed.

Lemma concat_cons (s : string) ss : String.concat "" (s :: ss) = s +:+ String.concat "" ss.
Proof. destruct ss; [cbn; by rewrite append_empty_r|done]. Qed.

Lemma unlines_cons l ls : unlines (l :: ls) = l +:+ nl +:+ unlines ls.
Proof. unfold unlines. by rewrite fmap_cons, concat_cons, append_assoc. Qed.

Lemma unlines_app ls ls' : unlines (ls ++ ls') = unlines ls +:+ unlines ls'.
Proof.
  induction ls as [|l ls IH]; [done|]. cbn [app]. by rewrite !unlines_cons, IH, !append_assoc.
Qed.

Lemma foldl_unlines {A} (f : A -> string) (l : list A) ls :
  foldl (fun output a => output +:+ f a +:+ nl) (unlines ls) l = unlines (ls ++ (f <$> l)).
Proof.
  revert ls. induction l as [|a l IH]; intros ls; cbn; [by rewrite app_nil_r|].
  replace (unlines ls +:+ f a +:+ nl) with (unlines (ls ++ [f a])) by by rewrite unlines_app.
  by rewrite IH, <- app_assoc.
Qed.

Create HintDb line discriminated.

Lemma one_line_app s t : one_line s -> one_line t -> one_line (s +:+ t).
Proof. unfold one_line. rewrite bytes_of_app, not_elem_of_app. done. Qed.

Lemma one_line_concat ss : Forall one_line ss -> one_line (String.concat "" ss).
Proof.
  induction 1 as [|s ss Hs _ IH]; [by apply not_elem_of_nil|]. rewrite concat_cons. by apply one_line_app.
Qed.

Lemma one_line_int (z : Z) : one_line (fmt_int z).
Proof. by destruct (isValidNumber_parse _ [] (pretty_Z_number z) I). Qed.

Lemma one_line_uint (n : N) : one_line (fmt_uint n).
Proof. pose proof (one_line_int (Z.of_N n)) as H. by destruct n. Qed.

Lemma quoteByte_line b x : (b < 256)%N -> x ∈ quoteByte b -> N_of_ascii (ascii_of_N x) <> newline.
Proof.
  intros Hb. assert (H : Forall (fun x => N_of_ascii (ascii_of_N x) <> newline) (quoteByte b)); [|by rewrite Forall_forall in H; auto].
  revert b Hb. apply (below 256). apply (bool_decide_unpack _). vm_compute. exact I.
Qed.

Lemma one_line_string_of bs : (forall x, x ∈ bs -> N_of_ascii (ascii_of_N x) <> newline) -> one_line (string_of bs).
Proof.
  induction bs as [|b bs IH]; intros H; [by apply not_elem_of_nil|]. unfold one_line. cbn [string_of bytes_of].
  intros [E|Hin]%elem_of_cons; [by apply (H b); [left|] |]. revert Hin. apply IH. intros x Hx. apply H. by right.
Qed.

(** A quoted string is on one line, whatever it holds. *)
Lemma one_line_quote s : one_line (quoteString s).
Proof.
  apply one_line_string_of. intros x. rewrite !elem_of_app.
  intros [->%list_elem_of_singleton|[Hx| ->%list_elem_of_singleton]]; [done| |done].
  apply list_elem_of_In, in_concat in Hx as (l & Hl%list_elem_of_In & Hx%list_elem_of_In).
  apply list_elem_of_fmap in Hl as (b & -> & Hb). by eapply quoteByte_line; [eapply bytes_of_lt|].
Qed.

Lemma one_line_ascii (s : string) : bool_decide (newline ∈ bytes_of s) = false -> one_line s.
Proof. apply bool_decide_eq_false_1. Qed.

#[export] Hint Resolve one_line_app one_line_int one_line_uint one_line_quote : line.
#[export] Hint Extern 1 (one_line (String _ _)) => (apply one_line_ascii; vm_compute; reflexivity) : line.
#[export] Hint Extern 1 (one_line EmptyString) => (apply one_line_ascii; reflexivity) : line.

Lemma partitioner_line p : partitioner_ok p -> one_line (partitioner_text p).
Proof. intros [Hk _]. unfold partitioner_text. rewrite Hk. cbn [partitioner_name]. auto 10 with line. Qed.

Lemma dependency_line d : dependency_ok d -> one_line (dependencyExplanation d).
Proof.
  unfold dependencyExplanation. intros [(-> & _ & ->)|(sd & -> & -> & _ & Hp%partitioner_line)]; cbn [dependency_name]; [auto 10 with line|].
  destruct (sd_MapSideCombine sd); cbn [fmt_bool]; auto 20 with line.
Qed.

Lemma quotedField_line key value : one_line key -> one_line (quotedField key value).
Proof. intros Hk. unfold quotedField. case_bool_decide; auto 10 with line. Qed.

(** The line of a valid node, if its name is on one line. *)
Lemma node_line g id n : node_ok g id n -> one_line (node_Name n) -> one_line (nodeExplanation n).
Proof.
  intros (_ & (_ & Hp & Hd) & Hop & _) Hname. unfold nodeExplanation.
  assert (Hk : one_line (operator_name (op_Kind (node_Operator n)))).
  { unfold operator_ok in Hop. destruct (op_Kind (node_Operator n)); [..|done]; cbn [operator_name]; auto with line. }
  assert (Hpt : one_line (match node_Partitioner n with None => "" | Some p => " partitioner=" +:+ partitioner_text p end)).
  { destruct (node_Partitioner n) as [p|]; [|auto with line].
    apply one_line_app; [auto with line|]. by apply partitioner_line, Hp. }
  assert (Hds : one_line (String.concat "" (dependencyExplanation <$> node_Dependencies n))).
  { apply one_line_concat, Forall_fmap, Forall_forall. intros d Hin. by apply dependency_line, Hd. }
  repeat (apply one_line_app; [auto using quotedField_line with line|]). done.
Qed.

(** ** The order of the lines *)

Lemma sorted_strict (l : list N) : StronglySorted N.le l -> NoDup l -> StronglySorted N.lt l.
Proof.
  induction 1 as [|x l Hl IH Hx]; intros Hnd; [constructor|]. apply NoDup_cons in Hnd as [Hn Hnd].
  constructor; [by apply IH|]. rewrite Forall_forall in *. intros y Hy. specialize (Hx y Hy).
  enough (x <> y) by lia. by intros ->.
Qed.

Lemma sortedIDs_spec s : StronglySorted N.lt (sortedIDs s) /\ forall id, id ∈ sortedIDs s <-> id ∈ s.
Proof.
  unfold sortedIDs. assert (Hp : merge_sort N.le (elements s) ≡ₚ elements s) by apply merge_sort_Permutation. split.
  - apply sorted_strict; [apply (StronglySorted_merge_sort _)|]. rewrite Hp. apply NoDup_elements.
  - intros id. by rewrite Hp, elem_of_elements.
Qed.

Lemma ExplainLineage_Ok g t : graph_wf g -> lineage_ok g t -> exists text, ExplainLineage (Some g) t = Some (Ok text).
Proof.
  intros Hwf Hl. unfold ExplainLineage. rewrite (proj2 (Validate_lineage_ok g Hwf t) Hl). cbn [fbind].
  destruct (collectAncestors_spec g t Hl) as (s & -> & _). by eexists.
Qed.

(** ** Properties *)

(** [ExplainLineage] always returns.  It succeeds exactly when the lineage is
    executable, and then the text is a header and one line for each RDD that the
    target is computed from, itself included, in the increasing order of their
    identifiers.  A quoted path or name never breaks a line. *)
Theorem ExplainLineage_correct g t :
  graph_wf g ->
  exists r, ExplainLineage (Some g) t = Some r /\
    match r with
    | Ok text =>
        lineage_valid g t /\
        exists ns, StronglySorted N.lt (node_ID <$> ns) /\
          (forall n, n ∈ ns <-> nodes g !! node_ID n = Some n /\ rtc (parent_of g) t (node_ID n)) /\
          text = unlines (lineageHeader :: (nodeExplanation <$> ns)) /\
          (Forall (fun n => one_line (node_Name n)) ns -> Forall (fun n => one_line (nodeExplanation n)) ns)
    | Err _ => ~ lineage_valid g t
    end.
Proof.
  intros Hwf. pose proof (Validate_lineage_ok g Hwf t) as Hv. unfold ExplainLineage.
  destruct (Validate_total g Hwf t) as [[[]|e] E]; rewrite E in *.
  2:{ eexists. split; [done|]. intros Hl%(lineage_valid_ok g Hwf). by apply Hv in Hl. }
  destruct Hv as [Hv _]. specialize (Hv eq_refl). cbn [fbind].
  destruct (collectAncestors_spec g t Hv) as (s & -> & Hs). cbn [fbind].
  eexists. split; [done|]. split; [by apply lineage_ok_valid|].
  destruct (sortedIDs_spec s) as [Hsort Hin]. setoid_rewrite Hs in Hin.
  assert (Hnode : forall id, id ∈ sortedIDs s -> exists n, node_ok g id n).
  { intros id Hid%Hin. destruct (lineage_ok_reach g t id Hv Hid) as [n ? _]. by exists n. }
  set (ids := sortedIDs s) in *. set (node := fun id => default zeroNode (nodes g !! id)).
  assert (Hid : forall id, id ∈ ids -> node_ID (node id) = id /\ node_ok g id (node id)).
  { intros id Hid. destruct (Hnode id Hid) as [n Hn]. pose proof Hn as (Hl & _). unfold node. rewrite Hl.
    split; [by eapply wf_id|done]. }
  exists (node <$> ids).
  assert (Hids : node_ID <$> (node <$> ids) = ids).
  { rewrite <- list_fmap_compose. rewrite <- (list_fmap_id ids) at 2. apply list_fmap_ext.
    intros i id Hi%list_elem_of_lookup_2. by apply Hid. }
  rewrite Hids. split_and!; [done| | |].
  - intros n. rewrite list_elem_of_fmap. split.
    + intros (id & -> & H). destruct (Hid id H) as [E' (Hl & _)]. rewrite E'. split; [done|by apply Hin].
    + intros [Hl Hr%Hin]. exists (node_ID n). split; [|done]. unfold node. by rewrite Hl.
  - rewrite <- list_fmap_compose. change (lineageHeader +:+ nl) with (unlines [lineageHeader]).
    unfold writeNodeExplanation. by rewrite (foldl_unlines (nodeExplanation ∘ node)).
  - rewrite !Forall_fmap, !Forall_forall. intros Hname id H. eapply node_line; [by apply Hid|by apply Hname].
Qed.

Lemma ExplainLineage_correct_witness : lineage_valid example_graph 2%N.
Proof.
  destruct (ExplainLineage_correct example_graph 2%N example_graph_wf) as (r & Hr & H).
  vm_compute in Hr. injection Hr as <-. exact (proj1 H).
Defined.
