(* ===== verification/JsonExtend.v ===== *)
(** * JsonExtend: a value is read alike with space after it

    What the JSON parser reads is a prefix of its input, and it reads the same when
    the input goes on with space: the text of a value, once it is cut out of a
    file, is decoded as the file was. *)

From S2P Require Import Prelude Bytes Plan Stages Shuffle Reports Runtime Json JsonProofs ExampleFuncs.
From S2P Require Import Dag Coordinator Wire WireProofs.
#[local] Open Scope Z_scope.

(** ** Space *)

(** Nothing but space. *)
Definition blank (rest : list N) : Prop := Forall (fun b => is_space b = true) rest.

Lemma skipSpace_blank rest : skipSpace rest = [] <-> blank rest.
Proof.
  unfold blank. induction rest as [|b rest IH]; cbn; [by split|]. rewrite Forall_cons.
  destruct (is_space b); [rewrite IH; naive_solver|]. split; [done|]. by intros [? _].
Qed.

Lemma blank_after rest : blank rest -> after_value rest.
Proof.
  destruct 1 as [|b rest Hb _]; [done|]. cbn. unfold is_space in Hb. rewrite !orb_true_iff, !N.eqb_eq in Hb.
  rewrite !elem_of_cons. tauto.
Qed.

Lemma skipSpace_split bs : exists p, bs = p ++ skipSpace bs /\ blank p.
Proof.
  unfold blank. induction bs as [|b bs (p & E & H)]; [by exists []|]. cbn. destruct (is_space b) eqn:Eb.
  - exists (b :: p). split; [cbn; congruence|by constructor].
  - by exists [].
Qed.

Section blank.
Context (rest : list N) (Hrest : blank rest).

Lemma skipSpace_app bs : skipSpace (bs ++ rest) = if bool_decide (skipSpace bs = []) then [] else skipSpace bs ++ rest.
Proof.
  induction bs as [|b bs IH]; cbn; [by apply skipSpace_blank|]. by destruct (is_space b); [|rewrite bool_decide_eq_false_2].
Qed.

Lemma expect_app c bs : expect c (bs ++ rest) = (fun t => t ++ rest) <$> expect c bs.
Proof.
  unfold expect. rewrite skipSpace_app. destruct (skipSpace bs) as [|b t]; [by rewrite bool_decide_eq_true_2|].
  rewrite bool_decide_eq_false_2 by done. cbn. by destruct (b =? c)%N.
Qed.

Lemma stripPrefix_app p bs : Forall (fun c => is_space c = false) p ->
  stripPrefix p (bs ++ rest) = (fun t => t ++ rest) <$> stripPrefix p bs.
Proof.
  intros Hp. revert bs. induction Hp as [|c p Hc _ IH]; intros bs; [done|]. destruct bs as [|b bs]; cbn.
  - destruct Hrest as [|b rest' Hb _]; [done|]. destruct (N.eqb_spec c b); [congruence|done].
  - by destruct (c =? b)%N; [apply IH|].
Qed.

(** [f] reads a prefix [p] of [bs], and the same with space after it. *)
Definition reads_more {A} (f : list N -> result (A * list N)) (bs : list N) : Prop :=
  forall a r, f bs = Ok (a, r) -> suffix r bs /\ f (bs ++ rest) = Ok (a, r ++ rest).

Lemma parseNumber_more bs : reads_more parseNumber bs.
Proof.
  intros n r H. destruct (parseNumber_splits _ _ _ H) as (-> & _ & Hr). split; [by exists n|]. by apply Hr, blank_after.
Qed.

Lemma parseScalar_more bs : reads_more parseScalar bs.
Proof.
  assert (Hstrip : forall p bs t, stripPrefix p bs = Some t -> bs = p ++ t).
  { clear. induction p as [|c p IH]; intros [|b bs] t; cbn; try congruence. destruct (N.eqb_spec c b) as [->|_]; [|done].
    by intros ->%IH. }
  intros a r. unfold parseScalar. rewrite !stripPrefix_app by repeat constructor.
  destruct (stripPrefix _ bs) as [t|] eqn:E; [apply Hstrip in E; intros [= <- <-]; split; [by eexists|done]|]. clear E.
  destruct (stripPrefix _ bs) as [t|] eqn:E; [apply Hstrip in E; intros [= <- <-]; split; [by eexists|done]|]. clear E.
  destruct (stripPrefix _ bs) as [t|] eqn:E; [apply Hstrip in E; intros [= <- <-]; split; [by eexists|done]|]. cbn [fmap option_fmap option_map].
  destruct (parseNumber bs) as [[n r']|] eqn:En; [|done]. intros [= <- <-].
  destruct (parseNumber_more _ _ _ En) as [Hp ->]. done.
Qed.

Lemma expect_split c bs t : expect c bs = Some t -> suffix t bs.
Proof.
  unfold expect. destruct (skipSpace_split bs) as (p & E & _). destruct (skipSpace bs) as [|b t']; [done|].
  destruct (b =? c)%N; [|done]. intros [= ->]. exists (p ++ [b]). by rewrite <- app_assoc.
Qed.

(** ** Strings *)

Lemma prepend_more p q bs t f : bs = q ++ t -> f bs = prepend p (unquote t) ->
  f (bs ++ rest) = prepend p (unquote (t ++ rest)) -> reads_more unquote t -> reads_more f bs.
Proof.
  intros -> E E' Ht s r. rewrite E, E'. destruct (unquote t) as [[s' r']|] eqn:Eu; [|done]. intros [= <- <-].
  destruct (Ht _ _ Eu) as [[p' ->] ->]. split; [|done]. exists (q ++ p'). by rewrite app_assoc.
Qed.

(** The second escape of a surrogate pair. *)
Definition secondHalf (r : N) (bs : list N) : option (N * list N) :=
  match bs with
  | c1 :: c2 :: g1 :: g2 :: g3 :: g4 :: t =>
      r ← (if (c1 =? 92)%N && (c2 =? 117)%N then r2 ← hexRune g1 g2 g3 g4; joinSurrogates r r2 else None); Some (r, t)
  | _ => None
  end.

Lemma unquote_unicode r h1 h2 h3 h4 t : hexRune h1 h2 h3 h4 = Some r ->
  unquote (92%N :: 117%N :: h1 :: h2 :: h3 :: h4 :: t) =
  if is_surrogate r then
    match secondHalf r t with
    | Some (r, t') => prepend (encodeRune r) (unquote t')
    | None => prepend replacement (unquote t)
    end
  else prepend (encodeRune r) (unquote t).
Proof.
  intros Hr. cbn [unquote]. change (92 =? 34)%N with false. change (92 =? 92)%N with true.
  change (117 =? 117)%N with true. cbn beta iota. rewrite Hr. destruct (is_surrogate r); [|done]. unfold secondHalf.
  destruct t as [|c1 [|c2 [|g1 [|g2 [|g3 [|g4 t']]]]]]; try done. by destruct (if _ && _ then _ else _).
Qed.

Lemma secondHalf_split r bs r' t : secondHalf r bs = Some (r', t) -> suffix t bs.
Proof.
  unfold secondHalf. destruct bs as [|c1 [|c2 [|g1 [|g2 [|g3 [|g4 t']]]]]]; try done.
  destruct (if _ && _ then _ else _); [|done]. intros [= <- <-]. by exists [c1; c2; g1; g2; g3; g4].
Qed.

(** What is too short to be the second half, but starts like it, is no string. *)
Lemma secondHalf_other r bs : (forall t, bs <> 92%N :: 117%N :: t) -> secondHalf r bs = None.
Proof.
  intros H. unfold secondHalf. destruct bs as [|c1 [|c2 [|g1 [|g2 [|g3 [|g4 t']]]]]]; try done.
  destruct (N.eqb_spec c1 92) as [->|_], (N.eqb_spec c2 117) as [->|_]; try done. by destruct (H (g1 :: g2 :: g3 :: g4 :: t')).
Qed.

Lemma secondHalf_app r bs : is_Ok (unquote bs) = true \/ is_Some (secondHalf r bs) ->
  secondHalf r (bs ++ rest) = (fun x => (x.1, x.2 ++ rest)) <$> secondHalf r bs.
Proof.
  intros H. destruct (decide (6 <= length bs)%nat) as [Hl|Hl].
  - destruct bs as [|c1 [|c2 [|g1 [|g2 [|g3 [|g4 t']]]]]]; cbn in Hl; try lia. cbn. by destruct (if _ && _ then _ else _).
  - assert (Hn : secondHalf r bs = None).
    { destruct bs as [|c1 [|c2 [|g1 [|g2 [|g3 [|g4 t']]]]]]; try done. cbn in Hl. lia. }
    rewrite Hn in *. destruct H as [H|[? ?]]; [|done]. assert (Ho : forall t, bs <> 92%N :: 117%N :: t).
    { intros t ->. cbn [length] in Hl. destruct t as [|h1 [|h2 [|h3 [|h4 t]]]]; try (by cbn in H). cbn in Hl. lia. }
    rewrite secondHalf_other; [done|]. intros t E.
    destruct bs as [|b1 [|b2 bs]]; [done|injection E as -> _; by cbn in H|]. injection E as -> -> _. by apply (Ho bs).
Qed.

Lemma unquote_more bs : reads_more unquote bs.
Proof.
  remember (length bs) as n eqn:En. revert bs En. induction (lt_wf n) as [n _ IH]. intros bs ->.
  assert (Hrec : forall q t, bs = q ++ t -> q <> [] -> reads_more unquote t).
  { intros q t -> Hq. apply (IH (length t)); [|done]. rewrite length_app. destruct q; [done|cbn; lia]. }
  destruct bs as [|b t]; [done|]. destruct (N.eqb_spec b 34) as [->|Hq].
  { intros s r [= <- <-]. split; [by exists [34%N]|done]. }
  destruct (N.eqb_spec b 92) as [->|Hb].
  2:{ destruct (b <? 32)%N eqn:Hc.
      - intros s r. cbn [unquote]. rewrite (proj2 (N.eqb_neq _ _) Hq), (proj2 (N.eqb_neq _ _) Hb), Hc. done.
      - apply (prepend_more [b] [b] _ t); [done|..]; [..|by apply (Hrec [b])];
          cbn [unquote app]; by rewrite (proj2 (N.eqb_neq _ _) Hq), (proj2 (N.eqb_neq _ _) Hb), Hc. }
  destruct t as [|e t]; [done|]. destruct (N.eqb_spec e 117) as [->|He].
  2:{ destruct (simpleEscape e) as [c|] eqn:Ec.
      - apply (prepend_more [c] [92%N; e] _ t); [done|..]; [..|by apply (Hrec [92%N; e])];
          cbn [unquote app]; change (92 =? 34)%N with false; change (92 =? 92)%N with true;
          rewrite (proj2 (N.eqb_neq _ _) He), Ec; done.
      - intros s r. cbn [unquote app]. change (92 =? 34)%N with false. change (92 =? 92)%N with true.
        rewrite (proj2 (N.eqb_neq _ _) He), Ec. done. }
  destruct t as [|h1 [|h2 [|h3 [|h4 t]]]]; [done..|]. destruct (hexRune h1 h2 h3 h4) as [r|] eqn:Er.
  2:{ intros s r. cbn [unquote]. change (92 =? 34)%N with false. change (92 =? 92)%N with true.
      change (117 =? 117)%N with true. cbn beta iota. by rewrite Er. }
  assert (Ht : forall q t', t = q ++ t' -> reads_more unquote t')
    by (intros q t' ->; by apply (Hrec ([92; 117; h1; h2; h3; h4]%N ++ q))).
  pose proof (fun bs => unquote_unicode r h1 h2 h3 h4 bs Er) as Hu. destruct (is_surrogate r).
  2:{ apply (prepend_more (encodeRune r) [92; 117; h1; h2; h3; h4]%N _ t); [done|apply Hu|apply Hu|by apply (Ht [])]. }
  destruct (secondHalf r t) as [[r' t']|] eqn:Eh.
  - pose proof (secondHalf_app r t (or_intror (mk_is_Some _ _ Eh))) as Ea. rewrite Eh in Ea.
    destruct (secondHalf_split _ _ _ _ Eh) as [q Eq].
    apply (prepend_more (encodeRune r') ([92; 117; h1; h2; h3; h4]%N ++ q) _ t').
    + by rewrite Eq.
    + by rewrite Hu, Eh.
    + cbn [app]. by rewrite Hu, Ea.
    + by apply (Ht q).
  - intros s rst H. assert (Hok : is_Ok (unquote t) = true).
    { rewrite Hu, Eh in H. by destruct (unquote t). }
    pose proof (secondHalf_app r t (or_introl Hok)) as Ea. rewrite Eh in Ea. revert H.
    apply (prepend_more replacement [92; 117; h1; h2; h3; h4]%N _ t); [done|by rewrite Hu, Eh| |by apply (Ht [])].
    cbn [app]. by rewrite Hu, Ea.
Qed.

(** ** Values *)

Lemma expect_more c bs t : expect c bs = Some t -> suffix t bs /\ expect c (bs ++ rest) = Some (t ++ rest).
Proof. intros E. split; [by apply (expect_split c)|]. by rewrite expect_app, E. Qed.

Lemma expect_less c bs : expect c bs = None -> expect c (bs ++ rest) = None.
Proof. intros E. by rewrite expect_app, E. Qed.

(** [H] says what was read: split it at what it expects next. *)
Ltac expect_step H Hs Er :=
  match type of H with
  | context [match expect ?c ?bs with _ => _ end] =>
      let E := fresh "E" in
      destruct (expect c bs) eqn:E; [apply expect_more in E as [Hs Er]|apply expect_less in E as Er]
  end.

(** The three parsers, at some fuel. *)
Definition more {A} (f : nat -> N -> list N -> result (A * list N)) (fuel : nat) : Prop :=
  forall depth bs a r, f fuel depth bs = Ok (a, r) ->
    suffix r bs /\ forall fuel', (fuel <= fuel')%nat -> f fuel' depth (bs ++ rest) = Ok (a, r ++ rest).

Lemma more_step {A} (f : nat -> N -> list N -> result (A * list N)) fuel :
  (forall depth bs a r, f (S fuel) depth bs = Ok (a, r) ->
     suffix r bs /\ forall fuel', (fuel <= fuel')%nat -> f (S fuel') depth (bs ++ rest) = Ok (a, r ++ rest)) ->
  more f (S fuel).
Proof.
  intros H depth bs a r [Hs Hf]%H. split; [done|]. intros [|fuel'] Hle; [lia|]. apply Hf. lia.
Qed.

Ltac suffixes := repeat (eassumption || (etrans; [eassumption|]) || reflexivity).

Lemma parseElements_more fuel : more parseValue fuel -> more parseElements fuel -> more parseElements (S fuel).
Proof.
  intros HV HE. apply more_step. intros depth bs a r H. cbn [parseElements] in *.
  destruct (parseValue fuel depth bs) as [[v t]|] eqn:Ev; [|done]. destruct (HV _ _ _ _ Ev) as [Hs1 Hv].
  cbn [mbind result_bind] in H. expect_step H Hs2 E1.
  - destruct (parseElements fuel depth l) as [[l' r']|] eqn:Ee; [|done]. injection H as <- <-.
    destruct (HE _ _ _ _ Ee) as [Hs3 He]. split; [suffixes|].
    intros fuel' Hle. rewrite Hv by done. cbn [mbind result_bind]. by rewrite E1, He.
  - expect_step H Hs2 E2; [|done]. injection H as <- <-. split; [suffixes|].
    intros fuel' Hle. rewrite Hv by done. cbn [mbind result_bind]. by rewrite E1, E2.
Qed.

Lemma parseMembers_more fuel : more parseValue fuel -> more parseMembers fuel -> more parseMembers (S fuel).
Proof.
  intros HV HM. apply more_step. intros depth bs a r H. cbn [parseMembers] in *.
  expect_step H Hs1 E1; [|done]. destruct (unquote l) as [[key t]|] eqn:Eu; [|done].
  destruct (unquote_more _ _ _ Eu) as [Hs2 Hu]. cbn [mbind result_bind] in H. expect_step H Hs3 E2; [|done].
  destruct (parseValue fuel depth l0) as [[v t']|] eqn:Ev; [|done]. destruct (HV _ _ _ _ Ev) as [Hs4 Hv].
  cbn [mbind result_bind] in H. expect_step H Hs5 E3.
  - destruct (parseMembers fuel depth l1) as [[l' r']|] eqn:Ee; [|done]. injection H as <- <-.
    destruct (HM _ _ _ _ Ee) as [Hs6 He]. split; [suffixes|]. intros fuel' Hle.
    rewrite E1, Hu. cbn [mbind result_bind]. rewrite E2, Hv by done. cbn [mbind result_bind]. by rewrite E3, He.
  - expect_step H Hs6 E4; [|done]. injection H as <- <-. split; [suffixes|]. intros fuel' Hle.
    rewrite E1, Hu. cbn [mbind result_bind]. rewrite E2, Hv by done. cbn [mbind result_bind]. by rewrite E3, E4.
Qed.

Lemma parseValue_more fuel : more parseElements fuel -> more parseMembers fuel -> more parseValue (S fuel).
Proof.
  intros HE HM. apply more_step. intros depth bs a r H. cbn [parseValue] in *. expect_step H Hs1 E1.
  { destruct (unquote l) as [[s t]|] eqn:Eu; [|done]. injection H as <- <-.
    destruct (unquote_more _ _ _ Eu) as [Hs2 Hu]. split; [suffixes|]. intros fuel' _. by rewrite E1, Hu. }
  expect_step H Hs1 E2.
  { destruct (maxNestingDepth <=? depth)%N; [done|]. expect_step H Hs2 E3.
    - injection H as <- <-. split; [suffixes|]. intros fuel' _. by rewrite E1, E2, E3.
    - destruct (parseMembers fuel (depth + 1) l) as [[m t]|] eqn:Em; [|done]. injection H as <- <-.
      destruct (HM _ _ _ _ Em) as [Hs3 Hm]. split; [suffixes|]. intros fuel' Hle. by rewrite E1, E2, E3, Hm. }
  expect_step H Hs1 E3.
  { destruct (maxNestingDepth <=? depth)%N; [done|]. expect_step H Hs2 E4.
    - injection H as <- <-. split; [suffixes|]. intros fuel' _. by rewrite E1, E2, E3, E4.
    - destruct (parseElements fuel (depth + 1) l) as [[m t]|] eqn:Em; [|done]. injection H as <- <-.
      destruct (HE _ _ _ _ Em) as [Hs3 Hm]. split; [suffixes|]. intros fuel' Hle. by rewrite E1, E2, E3, E4, Hm. }
  destruct (parseScalar_more _ _ _ H) as [Hs2 Hp]. destruct (skipSpace_split bs) as (p & Ep & _). split.
  - etrans; [exact Hs2|]. by exists p.
  - intros fuel' _. rewrite E1, E2, E3, skipSpace_app. by rewrite bool_decide_eq_false_2 by (intros E'; by rewrite E' in H).
Qed.

Lemma parse_more fuel : more parseValue fuel /\ more parseElements fuel /\ more parseMembers fuel.
Proof.
  induction fuel as [|fuel (HV & HE & HM)]; [done|].
  split_and!; [by apply parseValue_more|by apply parseElements_more|by apply parseMembers_more].
Qed.

(** ** Texts *)

Lemma rawValue_more bs : reads_more rawValue bs.
Proof.
  intros v r. unfold rawValue. destruct (parseValue _ 0 (skipSpace bs)) as [[a t]|] eqn:E; [|done]. cbn [mbind result_bind].
  intros [= <- <-]. destruct (proj1 (parse_more _) _ _ _ _ E) as [Hs Hp]. destruct (skipSpace_split bs) as (p & Ep & _).
  split; [etrans; [exact Hs|by exists p]|]. rewrite skipSpace_app.
  assert (Hne : skipSpace bs <> []) by (intros E'; rewrite E' in E; cbn in E; done).
  rewrite bool_decide_eq_false_2 by done. rewrite Hp by (rewrite length_app; lia). cbn [mbind result_bind].
  destruct Hs as [q ->]. rewrite <- app_assoc, !length_app.
  replace (length q + (length t + length rest) - (length t + length rest))%nat with (length q) by lia.
  replace (length q + length t - length t)%nat with (length q) by lia. by rewrite !take_app_length.
Qed.

Lemma objectLoop_more fuel : forall bs ms, objectLoop fuel bs = Ok ms ->
  forall fuel', (fuel <= fuel')%nat -> objectLoop fuel' (bs ++ rest) = Ok ms.
Proof.
  induction fuel as [|fuel IH]; intros bs ms H; [done|]. intros [|fuel'] Hle; [lia|]. cbn [objectLoop] in *.
  expect_step H Hs1 E1; [|done]. rewrite E1. destruct (unquote l) as [[key t]|] eqn:Eu; [|done].
  destruct (unquote_more _ _ _ Eu) as [_ ->]. cbn [mbind result_bind] in *. expect_step H Hs3 E2; [|done]. rewrite E2.
  destruct (rawValue l0) as [[v t']|] eqn:Ev; [|done]. destruct (rawValue_more _ _ _ Ev) as [_ ->]. cbn [mbind result_bind] in *.
  expect_step H Hs5 E3; rewrite E3.
  - destruct (objectLoop fuel l1) as [ms'|] eqn:Eo; [|done]. by rewrite (IH _ _ Eo) by lia.
  - expect_step H Hs6 E4; [|done]. by rewrite E4.
Qed.

Lemma objectMembers_more bs ms : objectMembers bs = Ok ms -> objectMembers (bs ++ rest) = Ok ms.
Proof.
  unfold objectMembers. intros H. expect_step H Hs1 E1; [|done]. rewrite E1. expect_step H Hs2 E2; rewrite E2; [done|].
  eapply objectLoop_more; [exact H|]. rewrite length_app. lia.
Qed.
End blank.

(** The members of a value are those of the file it was cut out of. *)
Lemma objectMembers_value data value rest ms : rawValue data = Ok (value, rest) -> skipSpace rest = [] ->
  objectMembers value = Ok ms -> objectMembers data = Ok ms.
Proof.
  intros Hr Hb%skipSpace_blank Hm. assert (Hd : objectMembers (skipSpace data) = objectMembers data).
  { assert (Hi : forall bs, skipSpace (skipSpace bs) = skipSpace bs).
    { induction bs as [|b bs IH]; [done|]. cbn. destruct (is_space b) eqn:E; [done|]. cbn. by rewrite E. }
    unfold objectMembers, expect. by rewrite Hi. }
  rewrite <- Hd. revert Hr. unfold rawValue. destruct (parseValue _ 0 (skipSpace data)) as [[a t]|] eqn:E; [|done]. cbn [mbind result_bind].
  intros [= <- <-]. destruct (proj1 (parse_more [] (Forall_nil_2 _) _) _ _ _ _ E) as [[q Eq] _].
  apply (objectMembers_more t Hb) in Hm. rewrite Eq in *. rewrite length_app in Hm.
  replace (length q + length t - length t)%nat with (length q) in Hm by lia. by rewrite take_app_length in Hm.
Qed.
