(* ===== verification/JobSpec.v ===== *)
(** * JobSpec: decoding a job specification

    Models [jobspec.Decode].  Unlike the messages of the protocol, a specification
    is decoded by [encoding/json] alone, which takes a field more than once and by
    any spelling of its case: each time the value is decoded into what is there.
    So [decodeInto] works on a [goMemory], where a slice has an array that may hold
    elements beyond its length, which [Decode] finds again when it grows.  The
    texts of the errors of [encoding/json] are not modelled, nor which of several
    it reports. *)

From S2P Require Import Prelude Bytes Plan Lineage Stages Planner PlannerProofs Shuffle Reports Api Runtime Json JsonProofs ExampleFuncs.
From S2P Require Import Runner Protocol Dag Coordinator Wire WireProofs Messages MessageTheorems JsonExtend.
#[local] Open Scope Z_scope.

(** ** Decoding into a value *)

(** A slice is nil or has a length; its array holds every element that was set since
    it was allocated, and beyond them zeroes. *)
Inductive goMemory :=
  | MRaw (data : list N)
  | MBool (b : bool)
  | MString (s : string)
  | MInt (z : Z)
  | MUint (n : N)
  | MPointer (m : option goMemory)
  | MSlice (len : option nat) (array : list goMemory)
  | MStruct (fields : list goMemory).

Fixpoint zeroMemory (t : goType) : goMemory :=
  match t with
  | TRawMessage => MRaw []
  | TBool => MBool false
  | TString => MString ""
  | TInt => MInt 0
  | TUint => MUint 0
  | TPointer _ => MPointer None
  | TSlice _ => MSlice None []
  | TStruct fields => MStruct (map (fun f => zeroMemory f.2) fields)
  end.

Fixpoint readMemory (m : goMemory) : goValue :=
  match m with
  | MRaw data => VRaw data
  | MBool b => VBool b
  | MString s => VString s
  | MInt z => VInt z
  | MUint n => VUint n
  | MPointer None => VPointer None
  | MPointer (Some m) => VPointer (Some (readMemory m))
  | MSlice None _ => VSlice None
  | MSlice (Some n) array => VSlice (Some (take n (map readMemory array)))
  | MStruct fields => VStruct (map readMemory fields)
  end.

(** A scalar is replaced. *)
Definition setScalar (v : goValue) (m : goMemory) : goMemory :=
  match v with
  | VRaw data => MRaw data
  | VBool b => MBool b
  | VString s => MString s
  | VInt z => MInt z
  | VUint n => MUint n
  | _ => m
  end.

(** Each item into the element at its place. *)
Fixpoint decodeItems (decode : goMemory -> list N -> result goMemory) (zero : goMemory)
    (items : list (list N)) (array : list goMemory) : result (list goMemory) :=
  match items with
  | [] => Ok array
  | data :: items =>
      m ← decode (default zero (head array)) data;
      ms ← decodeItems decode zero items (tail array);
      Ok (m :: ms)
  end.

(** Each member into the field of its name, in the order of the text. *)
Fixpoint decodeMembers (names : list string) (decoders : list (goMemory -> list N -> result goMemory))
    (fields : list goMemory) (members : list (string * list N)) : result (list goMemory) :=
  match members with
  | [] => Ok fields
  | (name, data) :: members =>
      match findField names name with
      | None => Err unknownField
      | Some i =>
          match decoders !! i, fields !! i with
          | Some decode, Some m =>
              m ← decode m data;
              decodeMembers names decoders (<[i := m]> fields) members
          | _, _ => Err panic_range
          end
      end
  end.

(** [null] leaves a value as it is, but for pointers and slices. *)
Fixpoint decodeInto (t : goType) (m : goMemory) (data : list N) {struct t} : result goMemory :=
  match t with
  | TPointer t =>
      if is_null data then Ok (MPointer None)
      else
        m ← decodeInto t (match m with MPointer (Some m) => m | _ => zeroMemory t end) data;
        Ok (MPointer (Some m))
  | TSlice t =>
      if is_null data then Ok (MSlice None [])
      else
        items ← arrayItems data;
        array ← decodeItems (decodeInto t) (zeroMemory t) items (match m with MSlice _ array => array | _ => [] end);
        Ok (MSlice (Some (length items)) (match items with [] => [] | _ => array end))
  | TStruct fields =>
      if is_null data then Ok m
      else
        members ← objectMembers data;
        ms ← decodeMembers (map field_name fields) (map (fun f => decodeInto f.2) fields)
               (match m with MStruct ms => ms | _ => [] end) members;
        Ok (MStruct ms)
  | TRawMessage => Ok (MRaw data)
  | _ => if is_null data then Ok m else v ← decodeType t data; Ok (setScalar v m)
  end.

(** ** The source *)

Definition decodeJob (err : error) : error := Errorf "decode job: %w" [FWrap err].
Definition trailingData (err : error) : error := Errorf "decode job: trailing data: %w" [FWrap err].

(** The second [Decode] of the reader must find its end. *)
Definition checkTrailing (rest : list N) (err : option error) : result unit :=
  match skipSpace rest, err with
  | [], None => Ok tt
  | [], Some err => Err (trailingData err)
  | _, _ =>
      _ ← map_err trailingData (rawValue rest);
      Err (Errorf "decode job: multiple JSON values" [])
  end.

(** A nil reader is [None]. *)
Definition Decode (r : option reader) : result Spec :=
  match r with
  | None => Err (Errorf "decode job: reader is nil" [])
  | Some r =>
      '(value, rest) ← map_err decodeJob (rawValue (rd_content r));
      m ← map_err decodeJob (decodeInto (wireType Spec) (zeroMemory (wireType Spec)) value);
      _ ← checkTrailing rest (rd_err r);
      match wireOf (readMemory m) with
      | None => Err panic_nil
      | Some spec => _ ← validateSpec spec; Ok spec
      end
  end.

(** The elements of a repeated field meet what the earlier one left: the function
    of the second transformation comes from the first list. *)
#[local] Notation q := quoteString.

Example decode_again :
  Decode (Some (mkReader (bytes_of (
    "{" +:+ q "source" +:+ ":{" +:+ q "path" +:+ ":" +:+ q "in" +:+ "," +:+ q "num_partitions" +:+ ":2}," +:+
    q "transformations" +:+ ":[{" +:+ q "kind" +:+ ":" +:+ q "map" +:+ "},{" +:+ q "function_id" +:+ ":" +:+ q "f" +:+ "}]," +:+
    q "transformations" +:+ ":[{" +:+ q "function_id" +:+ ":" +:+ q "g" +:+ "}]," +:+
    q "TRANSFORMATIONS" +:+ ":[{},{" +:+ q "kind" +:+ ":" +:+ q "filter" +:+ "}]," +:+
    q "action" +:+ ":" +:+ q "count" +:+ "} ")) None)) =
  Ok (mkSpec (mkSource "in" 2) [mkTransformation OpMap "g" 0; mkTransformation OpFilter "f" 0] ActionCount).
Proof. vm_compute. reflexivity. Qed.

(** ** Decoding anew is decoding *)

(** [decodeInto] a zero value does what [decodeType] does. *)
Definition agrees (t : goType) (data : list N) : Prop :=
  forall v, decodeType t data = Ok v -> exists m, decodeInto t (zeroMemory t) data = Ok m /\ readMemory m = v.

Lemma scalar_agrees t data : t ∈ [TBool; TString; TInt; TUint] -> is_null data = false -> agrees t data.
Proof.
  intros Ht Hn v Hv.
  assert (Hd : decodeInto t (zeroMemory t) data = Ok (setScalar v (zeroMemory t)) /\ readMemory (setScalar v (zeroMemory t)) = v).
  { repeat (apply elem_of_cons in Ht as [->|Ht]; [cbn [decodeInto]; rewrite Hn, Hv; cbn [mbind result_bind]; split; [done|]|]);
      [..|by apply elem_of_nil in Ht]; revert Hv; cbn [decodeType]; rewrite Hn.
    - repeat case_bool_decide; by intros [= <-].
    - destruct (expect 34 data) as [u|]; [|done]. by destruct (unquote u) as [[s ?]|]; intros [= <-].
    - destruct (isValidNumber data); [|done]. by destruct (ParseInt _); intros [= <-].
    - destruct (parseUint data) as [n|]; [|done]. by destruct (n <? 2 ^ 64)%N; intros [= <-]. }
  eexists. exact Hd.
Qed.

Lemma items_agree t items vs : (forall item, item ∈ items -> agrees t item) ->
  decode_all (decodeType t) items = Ok vs ->
  exists ms, decodeItems (decodeInto t) (zeroMemory t) items [] = Ok ms /\ map readMemory ms = vs /\ length ms = length items.
Proof.
  revert vs. induction items as [|item items IH]; intros vs Ha; cbn.
  - intros [= <-]. by exists [].
  - destruct (decodeType t item) as [v|] eqn:Ev; [|done]. destruct (Ha item ltac:(by left) v Ev) as (m & -> & Hm).
    cbn [mbind result_bind]. destruct (decode_all _ items) as [vs'|] eqn:Es; [|done]. intros [= <-].
    destruct (IH vs') as (ms & -> & Hms & Hl); [intros; apply Ha; by right|done|].
    cbn [mbind result_bind]. eexists. split; [done|]. cbn. by rewrite Hm, Hms, Hl.
Qed.

Lemma slice_agrees t data : (forall items, arrayItems data = Ok items -> forall item, item ∈ items -> agrees t item) ->
  agrees (TSlice t) data.
Proof.
  intros Ha v. cbn [decodeType decodeInto zeroMemory]. destruct (is_null data).
  { intros [= <-]. by eexists. }
  destruct (arrayItems data) as [items|]; [|done]. cbn [mbind result_bind].
  destruct (decode_all _ items) as [vs|] eqn:Ev; [|done]. intros [= <-].
  destruct (items_agree t items vs (Ha items eq_refl) Ev) as (ms & -> & Hms & Hl). cbn [mbind result_bind].
  eexists. split; [done|]. cbn. destruct items; [by destruct ms; cbn in *; subst|].
  by rewrite <- Hl, <- (length_map readMemory), firstn_all, Hms.
Qed.

(** *** Structs *)

Section fields.
Context (fields : list goField) (Hnd : NoDup (map field_name fields)).

Notation names := (map field_name fields).
Notation decoders := (map (fun f : goField => decodeInto f.2) fields).

(** The members name fields, each at most once. *)
Definition exact (members : list (string * list N)) : Prop :=
  NoDup (fst <$> members) /\ forall m, m ∈ members -> m.1 ∈ names.

Lemma name_lookup i f : fields !! i = Some f -> names !! i = Some (field_name f).
Proof. intros Hf. change names with (field_name <$> fields). by rewrite list_lookup_fmap, Hf. Qed.

Lemma field_at i f : fields !! i = Some f -> findField names (field_name f) = Some i.
Proof. intros Hf. apply findField_exact; [done|]. by apply name_lookup. Qed.

Lemma field_of name i : name ∈ names -> findField names name = Some i -> exists f, fields !! i = Some f /\ field_name f = name.
Proof.
  intros (j & Hj)%list_elem_of_lookup_1 Hi. pose proof Hj as Hj'. change names with (field_name <$> fields) in Hj'.
  rewrite list_lookup_fmap in Hj'. destruct (fields !! j) as [f|] eqn:Ef; [|done]. injection Hj' as <-.
  rewrite (field_at j f Ef) in Hi. injection Hi as <-. by exists f.
Qed.

(** The values of a field among exact members. *)
Lemma values_absent i f members : fields !! i = Some f -> exact members -> field_name f ∉ (fst <$> members) ->
  values_at names i members = [].
Proof.
  intros Hf [_ Hex] Hni. unfold values_at. induction members as [|[name data] members IH]; [done|]. cbn [List.filter fst].
  rewrite bool_decide_eq_false_2.
  - apply IH; [intros; apply Hex; by right|]. intros H. apply Hni. by right.
  - intros (g & Hg & En)%field_of; [|by apply (Hex (name, data)); left]. apply Hni. cbn. apply elem_of_cons. left. congruence.
Qed.

Lemma values_present i f members data : fields !! i = Some f -> exact members -> (field_name f, data) ∈ members ->
  values_at names i members = [data].
Proof.
  intros Hf. induction members as [|[name d] members IH]; [by intros _ ?%elem_of_nil|].
  intros [[Hni Hn]%NoDup_cons Hex] Hin. assert (He : exact members) by (split; [done|intros; apply Hex; by right]).
  unfold values_at. cbn [List.filter fst]. apply elem_of_cons in Hin as [[= <- <-]|Hin].
  - rewrite (field_at i f Hf), bool_decide_eq_true_2 by done. cbn. fold (values_at names i members).
    f_equal. by apply (values_absent i f).
  - rewrite bool_decide_eq_false_2; [by apply IH|]. intros (g & Hg & En)%field_of; [|by apply (Hex (name, d)); left].
    apply Hni. cbn. rewrite <- En. assert (g = f) as -> by congruence. by apply (list_elem_of_fmap_2 fst) in Hin.
Qed.

Lemma decodeFields_lookup members k l vs : decodeFields names members k l = Ok vs ->
  length vs = length l /\ forall i zero decode, l !! i = Some (zero, decode) ->
    exists v, vs !! i = Some v /\ decodeLast decode zero (values_at names (k + i) members) = Ok v.
Proof.
  revert k vs. induction l as [|[z d] l IH]; intros k vs; cbn [decodeFields].
  { intros [= <-]. split; [done|]. by intros [|i]. }
  intros (v & Hv & (vs' & Hvs & [= <-])%bind_Ok)%bind_Ok. apply IH in Hvs as [Hl Hvs]. split; [cbn; by rewrite Hl|].
  intros [|i] zero decode; cbn.
  - intros [= -> ->]. exists v. by rewrite Nat.add_0_r.
  - intros Hi. destruct (Hvs i zero decode Hi) as (w & ? & ?). exists w. by rewrite Nat.add_succ_r.
Qed.

(** Every member is decoded into what its field held at first. *)
Lemma decodeMembers_exact members : exact members -> forall ms,
  (forall i f, fields !! i = Some f -> forall data, (field_name f, data) ∈ members ->
     exists m m', ms !! i = Some m /\ decodeInto f.2 m data = Ok m') ->
  exists ms', decodeMembers names decoders ms members = Ok ms' /\ length ms' = length ms /\
    forall i f, fields !! i = Some f ->
      (field_name f ∉ (fst <$> members) -> ms' !! i = ms !! i) /\
      (forall data m, (field_name f, data) ∈ members -> ms !! i = Some m ->
         exists m', decodeInto f.2 m data = Ok m' /\ ms' !! i = Some m').
Proof.
  induction members as [|[name d] members IH]; intros Hex ms Hd; cbn [decodeMembers].
  { exists ms. split_and!; [done|done|]. intros i f Hf. split; [done|]. by intros ?? ?%elem_of_nil. }
  pose proof Hex as [[Hni Hn]%NoDup_cons Hin]. cbn in Hni.
  assert (He : exact members) by (split; [done|intros; apply Hin; by right]).
  destruct (list_elem_of_lookup_1 _ _ (Hin (name, d) ltac:(by left))) as (i & Hi). cbn in Hi.
  rewrite (findField_exact names i name Hnd Hi). pose proof Hi as Hi'. change names with (field_name <$> fields) in Hi'.
  rewrite list_lookup_fmap in Hi'. destruct (fields !! i) as [f|] eqn:Ef; [|done]. injection Hi' as <-.
  destruct (Hd i f Ef d ltac:(by left)) as (m & m' & Hm & Hm').
  assert (decoders !! i = Some (decodeInto f.2)) as ->.
  { change decoders with ((fun f : goField => decodeInto f.2) <$> fields). by rewrite list_lookup_fmap, Ef. }
  rewrite Hm. cbn beta iota. rewrite Hm'. cbn [mbind result_bind].
  assert (Hother : forall j g, fields !! j = Some g -> field_name g ∈ (fst <$> members) -> i <> j).
  { intros j g Hj Hg ->. assert (g = f) as -> by congruence. done. }
  destruct (IH He (<[i := m']> ms)) as (ms' & -> & Hl & Hms).
  { intros j g Hj data Hdata. rewrite list_lookup_insert_ne; [apply (Hd j g Hj); by right|].
    apply (Hother j g Hj). by apply (list_elem_of_fmap_2 fst) in Hdata. }
  exists ms'. rewrite length_insert in Hl. split_and!; [done|done|]. intros j g Hj. destruct (Hms j g Hj) as [Habs Hpres].
  assert (Hii : (i < length ms)%nat) by by eapply lookup_lt_Some. split.
  - cbn. rewrite not_elem_of_cons. intros [Hne Hg]. rewrite Habs by done. rewrite list_lookup_insert_ne; [done|].
    intros ->. apply Hne. congruence.
  - intros data m0 [[= En ->]|Hdata]%elem_of_cons Hm0.
    + assert (j = i) as -> by (pose proof (field_at j g Hj) as H1; rewrite En, (field_at i f Ef) in H1; congruence).
      assert (g = f) as -> by congruence. assert (m0 = m) as -> by congruence. exists m'. split; [done|].
      rewrite Habs by done. by rewrite list_lookup_insert_eq.
    + apply (Hpres data m0 Hdata). rewrite list_lookup_insert_ne; [done|].
      apply (Hother j g Hj). by apply (list_elem_of_fmap_2 fst) in Hdata.
Qed.
End fields.

Lemma read_zero t : readMemory (zeroMemory t) = zeroValue t.
Proof.
  induction t as [| | | | |t IH|t IH|fields IH] using goType_nested; try done. cbn. f_equal. rewrite map_map.
  induction IH as [|f fields Hf _ IH]; [done|]. cbn. by rewrite Hf, IH.
Qed.

Lemma struct_agrees fields data : NoDup (map field_name fields) ->
  (forall members, objectMembers data = Ok members -> exact fields members /\
     forall f d, f ∈ fields -> (field_name f, d) ∈ members -> agrees f.2 d) ->
  agrees (TStruct fields) data.
Proof.
  intros Hnd Hm v. cbn [decodeType decodeInto]. destruct (is_null data).
  { intros [= <-]. exists (zeroMemory (TStruct fields)). split; [done|]. apply (read_zero (TStruct fields)). }
  destruct (objectMembers data) as [members|]; [|done]. cbn [mbind result_bind]. destruct (existsb _ _); [done|].
  destruct (Hm members eq_refl) as [He Ha]. intros (vs & Hvs & [= <-])%bind_Ok. apply decodeFields_lookup in Hvs as [Hl Hvs].
  cbn [zeroMemory]. set (zeroes := map (fun f : goField => zeroMemory f.2) fields).
  assert (Hzero : forall i f, fields !! i = Some f -> zeroes !! i = Some (zeroMemory f.2)).
  { intros i f Hf. unfold zeroes. change (map (fun f : goField => zeroMemory f.2) fields) with ((fun f : goField => zeroMemory f.2) <$> fields).
    by rewrite list_lookup_fmap, Hf. }
  assert (Hval : forall i f, fields !! i = Some f -> exists v, vs !! i = Some v /\
    decodeLast (decodeType f.2) (zeroValue f.2) (values_at (map field_name fields) i members) = Ok v).
  { intros i f Hf. apply (Hvs i (zeroValue f.2) (decodeType f.2)).
    change (map (fun f : goField => (zeroValue f.2, decodeType f.2)) fields) with ((fun f : goField => (zeroValue f.2, decodeType f.2)) <$> fields).
    by rewrite list_lookup_fmap, Hf. }
  assert (Hone : forall i f d, fields !! i = Some f -> (field_name f, d) ∈ members ->
    exists v m, vs !! i = Some v /\ decodeInto f.2 (zeroMemory f.2) d = Ok m /\ readMemory m = v).
  { intros i f d Hf Hin. destruct (Hval i f Hf) as (w & Hw & Hd). rewrite (values_present fields Hnd i f members d Hf He Hin) in Hd.
    cbn in Hd. destruct (decodeType f.2 d) as [w'|] eqn:Ed; [|done]. injection Hd as ->.
    destruct (Ha f d (list_elem_of_lookup_2 _ _ _ Hf) Hin w Ed) as (m & ? & ?). eauto. }
  destruct (decodeMembers_exact fields Hnd members He zeroes) as (ms & -> & Hlen & Hms).
  { intros i f Hf d Hin. destruct (Hone i f d Hf Hin) as (_ & m & _ & ? & _). eauto. }
  cbn [mbind result_bind]. eexists. split; [done|]. cbn. f_equal. apply list_eq. intros i.
  change (map readMemory ms) with (readMemory <$> ms). rewrite list_lookup_fmap.
  destruct (fields !! i) as [f|] eqn:Hf.
  - destruct (Hms i f Hf) as [Habs Hpres]. destruct (decide (field_name f ∈ (fst <$> members))) as [Hin|Hni].
    + apply list_elem_of_fmap in Hin as ([n d] & En & Hin). cbn in En. subst n.
      destruct (Hone i f d Hf Hin) as (w & m & -> & Hd & <-).
      destruct (Hpres d _ Hin (Hzero i f Hf)) as (m' & Hm' & ->). cbn. congruence.
    + destruct (Hval i f Hf) as (w & -> & Hd). rewrite (values_absent fields Hnd i f members Hf He Hni) in Hd.
      injection Hd as <-. rewrite Habs, (Hzero i f Hf) by done. cbn. by rewrite read_zero.
  - apply lookup_ge_None in Hf. rewrite length_map in Hl. rewrite (proj2 (lookup_ge_None vs i)) by lia.
    rewrite (proj2 (lookup_ge_None ms i)); [done|]. unfold zeroes in Hlen. rewrite length_map in Hlen. lia.
Qed.

(** A bracket is not [null]. *)
Lemma bracket_text c data t : c = 91%N \/ c = 123%N -> expect c data = Some t -> nullText data = false.
Proof.
  intros Hc. unfold expect. assert (Hn : nullText data = nullText (skipSpace data)).
  { induction data as [|b data IH]; [done|]. cbn [skipSpace]. destruct (is_space b) eqn:Eb; [|done]. rewrite <- IH.
    unfold nullText, trimBytes. cbn [trimLeft]. assert (space1 b = true) as ->; [|done].
    revert Eb. unfold is_space, space1. rewrite !orb_true_iff, !N.eqb_eq. intros [[[->| ->]| ->]| ->]; auto. }
  rewrite Hn. destruct (skipSpace data) as [|b u]; [done|]. destruct (N.eqb_spec b c) as [->|_]; [|done].
  intros _. exact (proj1 (not_null_text _ (bracket_not_null _ _ Hc))).
Qed.

Lemma members_text data members : objectMembers data = Ok members -> nullText data = false.
Proof. unfold objectMembers. destruct (expect 123 data) eqn:E; [|done]. intros _. eapply bracket_text; [|exact E]. by right. Qed.

Lemma items_text data items : arrayItems data = Ok items -> nullText data = false.
Proof. unfold arrayItems. destruct (expect 91 data) eqn:E; [|done]. intros _. eapply bracket_text; [|exact E]. by left. Qed.

Lemma null_nullText data : nullText data = false -> is_null data = false.
Proof. unfold is_null. case_bool_decide as E; [|done]. by rewrite E. Qed.

(** The members of a strict struct are exact. *)
Lemma strict_exact fields members : NoDup (fst <$> members) ->
  (forall name value, (name, value) ∈ members -> exists f, f ∈ fields /\ field_name f = name /\ strict f.2 value) ->
  exact fields members.
Proof.
  intros Hn Hall. split; [done|]. intros [name value] Hin. destruct (Hall name value Hin) as (f & Hf & <- & _).
  cbn. change (map field_name fields) with (field_name <$> fields). by apply list_elem_of_fmap_2.
Qed.

Lemma name_unique fields (f g : goField) : NoDup (map field_name fields) -> f ∈ fields -> g ∈ fields ->
  field_name f = field_name g -> f = g.
Proof.
  intros Hnd [i Hi]%list_elem_of_lookup_1 [j Hj]%list_elem_of_lookup_1 E.
  pose proof (name_lookup fields i f Hi) as H1. pose proof (name_lookup fields j g Hj) as H2. rewrite E in H1.
  assert (i = j) as -> by by eapply NoDup_lookup. congruence.
Qed.

Lemma strict_struct_agrees fields data :
  NoDup (map field_name fields) ->
  (forall f, f ∈ fields -> forall data, strict f.2 data -> agrees f.2 data) ->
  (forall members, objectMembers data = Ok members -> NoDup (fst <$> members) /\
    forall name value, (name, value) ∈ members -> exists f, f ∈ fields /\ field_name f = name /\ strict f.2 value) ->
  agrees (TStruct fields) data.
Proof.
  intros Hnd IH Hm. apply struct_agrees; [done|]. intros members E. destruct (Hm members E) as [Hn Hall].
  split; [by apply strict_exact|]. intros f d Hf Hin. apply IH; [done|].
  destruct (Hall _ _ Hin) as (g & Hg & En & Hs). by rewrite (name_unique fields f g).
Qed.

Lemma strict_agrees t : type_ok t = true -> forall data, strict t data -> agrees t data.
Proof.
  induction t as [| | | | |t IH|t IH|fields IH] using goType_nested; intros Hok data Hs.
  - intros v [= <-]. by eexists.
  - inversion Hs; subst. apply scalar_agrees; [done|by apply null_nullText].
  - inversion Hs; subst. apply scalar_agrees; [done|by apply null_nullText].
  - inversion Hs; subst. apply scalar_agrees; [done|by apply null_nullText].
  - inversion Hs; subst. apply scalar_agrees; [done|by apply null_nullText].
  - cbn [type_ok] in Hok. apply andb_true_iff in Hok as [Hst Hok]. intros v. cbn [decodeType decodeInto zeroMemory].
    destruct (is_null data) eqn:E; [intros [= <-]; by eexists|]. intros (w & Hw & [= <-])%bind_Ok.
    assert (Ht : strict t data).
    { inversion Hs as [|? ? Hin| ? ? Hn| | | |]; subst; [set_solver| |done]. exfalso. destruct t; try done.
      cbn [decodeType] in Hw. rewrite E in Hw. apply bind_Ok in Hw as (members & Hm & _). apply members_text in Hm. congruence. }
    destruct (IH Hok data Ht w Hw) as (m & -> & <-). by eexists.
  - apply slice_agrees. intros items Hi item Hin.
    inversion Hs as [|? ? Ht| | ? ? Hn| |? ? items' ? Hi' Hall|]; subst; [set_solver|apply items_text in Hi; congruence|].
    apply IH; [done|]. apply Hall. congruence.
  - cbn [type_ok] in Hok. apply andb_true_iff in Hok as [[Hnd%bool_decide_eq_true _]%andb_true_iff Hoks].
    apply strict_struct_agrees; [done| |].
    + intros f Hf. rewrite Forall_forall in IH. apply IH; [done|]. rewrite forallb_forall in Hoks.
      apply (Hoks (type_ok f.2)). apply in_map_iff. exists f. split; [done|by apply list_elem_of_In].
    + intros members Hm. inversion Hs as [|? ? Ht| | | | |? ? members' ? Hm' Hn Hall _]; subst; [set_solver|].
      by assert (members' = members) as -> by congruence.
Qed.

(** What the protocol accepts is decoded as the same specification. *)
Lemma accepted_decodes r maxBytes s : DecodeAndValidate (M := Spec) r maxBytes = Ok s -> Decode (Some r) = Ok s.
Proof.
  intros ([_ (_ & _ & Herr)] & value & rest & v & Hr & Hrest & Hv & Hs & Hof & Hval)%accepted_strict.
  unfold Decode. rewrite Hr. cbn [map_err mbind result_bind].
  assert (Ha : agrees (wireType Spec) value).
  { change (wireType Spec) with (TStruct (match wireType Spec with TStruct l => l | _ => [] end)) in *.
    apply strict_struct_agrees; [apply (bool_decide_unpack _); vm_compute; exact I| |].
    - intros f Hf data. apply strict_agrees. revert f Hf. apply Forall_forall. by repeat constructor.
    - intros members Hm. inversion Hs as [|? ? Ht| | | | |? ? members' ? Hm' Hn Hall _]; subst; [set_solver|].
      rewrite (objectMembers_value _ _ _ _ Hr Hrest Hm) in Hm'. by injection Hm' as <-. }
  destruct (Ha v Hv) as (m & -> & Hm). cbn [map_err mbind result_bind]. unfold checkTrailing. rewrite Hrest, Herr.
  cbn [mbind result_bind]. rewrite Hm. change (@message_wire Spec _) with spec_wire in Hof. rewrite Hof.
  change (validateSpec s = Ok tt) in Hval. by rewrite Hval.
Qed.

(** What [Decode] returns is valid. *)
Lemma decoded_valid r s : Decode (Some r) = Ok s -> spec_ok s /\ rd_err r = None /\
  exists value rest, rawValue (rd_content r) = Ok (value, rest) /\ skipSpace rest = [].
Proof.
  unfold Decode. intros ([value rest] & Hr%map_err_Ok & H)%bind_Ok.
  apply bind_Ok in H as (m & _ & ([] & Ht & H)%bind_Ok). destruct (wireOf (readMemory m)) as [s'|]; [|done].
  apply bind_Ok in H as ([] & Hval & [= ->]). apply validateSpec_spec in Hval. split; [done|].
  revert Ht. unfold checkTrailing. destruct (skipSpace rest) as [|b t] eqn:Eb.
  - destruct (rd_err r); [done|]. intros _. split; [done|]. by exists value, rest.
  - by destruct (rawValue rest) as [[]|].
Qed.

(** ** Types *)

(** Memory of a type; the length of a slice is within its array. *)
Fixpoint typedMemory (t : goType) (m : goMemory) {struct t} : Prop :=
  match t, m with
  | TRawMessage, MRaw _ => True
  | TBool, MBool _ => True
  | TString, MString s => utf8_ValidString s = true
  | TInt, MInt z => MinInt64 <= z <= ExampleFuncs.MaxInt64
  | TUint, MUint n => (n < 2 ^ 64)%N
  | TPointer t, MPointer o => match o with Some m => typedMemory t m | None => True end
  | TSlice t, MSlice n array => Forall (typedMemory t) array /\ match n with Some n => (n <= length array)%nat | None => True end
  | TStruct fields, MStruct ms => Forall2 (fun (ok : goMemory -> Prop) m => ok m) (map (fun f => typedMemory f.2) fields) ms
  | _, _ => False
  end.

Lemma zero_typedMemory t : typedMemory t (zeroMemory t).
Proof.
  induction t as [| | | | |t IH|t IH|fields IH] using goType_nested; try done. cbn.
  induction IH as [|f fields Hf _ IH]; [constructor|]. cbn. by constructor.
Qed.

Lemma read_typed t : forall m, typedMemory t m -> typed t (readMemory m).
Proof.
  induction t as [| | | | |t IH|t IH|fields IH] using goType_nested; intros [ | | | | |[m|]|[n|] array|ms]; cbn; try done.
  - by apply IH.
  - intros [Ha _]. apply Forall_take. change (map readMemory array) with (readMemory <$> array).
    apply Forall_fmap. eapply Forall_impl; [exact Ha|]. intros m. apply IH.
  - revert ms. induction IH as [|f fields Hf _ IHf]; intros ms; cbn.
    + intros ->%Forall2_nil_inv_l. constructor.
    + intros (m & ms' & Hm & Hms & ->)%Forall2_cons_inv_l. constructor; [by apply Hf|by apply IHf].
Qed.

Lemma scalar_typed t m data m' : t ∈ [TBool; TString; TInt; TUint] -> typedMemory t m ->
  (if is_null data then Ok m else v ← decodeType t data; Ok (setScalar v m)) = Ok m' -> typedMemory t m'.
Proof.
  intros Ht Hm. destruct (is_null data); [by intros [= <-]|]. intros (v & Hv%decodeType_typed & [= <-])%bind_Ok.
  repeat (apply elem_of_cons in Ht as [->|Ht]; [by destruct v|]). by apply elem_of_nil in Ht.
Qed.

Lemma decodeItems_typed t items array ms :
  (forall m data m', typedMemory t m -> decodeInto t m data = Ok m' -> typedMemory t m') ->
  Forall (typedMemory t) array -> decodeItems (decodeInto t) (zeroMemory t) items array = Ok ms ->
  Forall (typedMemory t) ms /\ (length items <= length ms)%nat.
Proof.
  intros IH. revert array ms. induction items as [|item items IHl]; intros array ms Ha; cbn [decodeItems].
  - intros [= <-]. split; [done|cbn; lia].
  - intros (m & Hm & (ms' & Hms & [= <-])%bind_Ok)%bind_Ok.
    apply IHl in Hms as [Hms Hl]; [|by destruct Ha]. split; [|cbn; lia]. constructor; [|done].
    eapply IH; [|exact Hm]. destruct Ha; [apply zero_typedMemory|done].
Qed.

Lemma decodeMembers_typed (fields : list goField) members :
  Forall (fun f => forall m data m', typedMemory f.2 m -> decodeInto f.2 m data = Ok m' -> typedMemory f.2 m') fields ->
  forall ms ms', typedMemory (TStruct fields) (MStruct ms) ->
  decodeMembers (map field_name fields) (map (fun f => decodeInto f.2) fields) ms members = Ok ms' ->
  typedMemory (TStruct fields) (MStruct ms').
Proof.
  intros HF. induction members as [|[name data] members IH]; intros ms ms' Hms; cbn [decodeMembers]; [by intros [= <-]|].
  destruct (findField _ name) as [i|]; [|done]. destruct (map _ fields !! i) as [decode|] eqn:Ed; [|done].
  destruct (ms !! i) as [m|] eqn:Em; [|done]. intros (m' & Hm' & H)%bind_Ok. eapply IH; [|exact H]. clear IH H.
  change (map (fun f : goField => decodeInto f.2) fields) with ((fun f : goField => decodeInto f.2) <$> fields) in Ed.
  rewrite list_lookup_fmap in Ed. destruct (fields !! i) as [f|] eqn:Ef; [|done]. injection Ed as <-.
  cbn [typedMemory] in *. assert (Ht : typedMemory f.2 m').
  { rewrite Forall_forall in HF. eapply (HF f); [by eapply list_elem_of_lookup_2| |exact Hm'].
    eapply (Forall2_lookup_lr _ _ _ i (typedMemory f.2) m Hms); [|done].
    change (map (fun f : goField => typedMemory f.2) fields) with ((fun f : goField => typedMemory f.2) <$> fields).
    by rewrite list_lookup_fmap, Ef. }
  rewrite <- (list_insert_id (map (fun f : goField => typedMemory f.2) fields) i (typedMemory f.2)).
  - by apply Forall2_insert.
  - change (map (fun f : goField => typedMemory f.2) fields) with ((fun f : goField => typedMemory f.2) <$> fields).
    by rewrite list_lookup_fmap, Ef.
Qed.

Lemma decodeInto_typed t : forall m data m', typedMemory t m -> decodeInto t m data = Ok m' -> typedMemory t m'.
Proof.
  induction t as [| | | | |t IH|t IH|fields IH] using goType_nested; intros m data m' Hm; cbn [decodeInto].
  - by intros [= <-].
  - apply scalar_typed; [set_solver|done].
  - apply scalar_typed; [set_solver|done].
  - apply scalar_typed; [set_solver|done].
  - apply scalar_typed; [set_solver|done].
  - destruct (is_null data); [by intros [= <-]|]. intros (p & Hp & [= <-])%bind_Ok. eapply IH; [|exact Hp].
    destruct m as [ | | | | |[m|]| | ]; try done; apply zero_typedMemory.
  - destruct (is_null data); [intros [= <-]; by split|]. intros (items & _ & (array & Ha & [= <-])%bind_Ok)%bind_Ok.
    apply decodeItems_typed in Ha as [Ha Hl]; [|done|by destruct m; try done; destruct Hm]. by destruct items; split.
  - destruct (is_null data); [by intros [= <-]|]. intros (members & _ & (ms & Hms & [= <-])%bind_Ok)%bind_Ok.
    destruct m as [ | | | | | | |ms0]; try done. by eapply decodeMembers_typed.
Qed.

(** What is decoded can be sent. *)
Lemma Decode_good r spec : Decode (Some r) = Ok spec -> message_good spec.
Proof.
  unfold Decode. intros ([value rest] & _ & (m & Hm%map_err_Ok & H)%bind_Ok)%bind_Ok.
  apply decodeInto_typed in Hm; [|apply zero_typedMemory]. apply read_typed, wire_typed in Hm as (spec' & E & Hg).
  apply bind_Ok in H as (_ & _ & H). rewrite E in H. apply bind_Ok in H as (_ & _ & [= ->]). by apply Hg.
Qed.

(** ** Properties *)

(** C30.  One job specification for both commands.  What [cmd/submit] and the
    coordinator accept, [jobspec.Decode] reads as the same job, though it decodes
    repeated fields into each other; and what it returns is valid, whatever it
    read, from one value and the end of the file. *)
Theorem jobs_agree r :
  (forall maxBytes s, DecodeAndValidate (M := Spec) r maxBytes = Ok s -> Decode (Some r) = Ok s) /\
  (forall s, Decode (Some r) = Ok s -> spec_ok s /\ rd_err r = None /\
     exists value rest, rawValue (rd_content r) = Ok (value, rest) /\ skipSpace rest = []).
Proof. split; [apply accepted_decodes|apply decoded_valid]. Qed.

(** A job file, with a newline at its end. *)
Definition example_job : reader :=
  mkReader (bytes_of (
    "{" +:+ q "source" +:+ ":{" +:+ q "num_partitions" +:+ ":2, " +:+ q "path" +:+ ":" +:+ q "in" +:+ "}," +:+
    q "action" +:+ ":" +:+ q "count" +:+ "," +:+
    q "transformations" +:+ ": [{" +:+ q "kind" +:+ ":" +:+ q "map" +:+ "," +:+ q "function_id" +:+ ":" +:+ q "f" +:+ "}]}")
    ++ [newline]) None.

Lemma jobs_agree_witness :
  DecodeAndValidate (M := Spec) example_job 1048576 = Decode (Some example_job) /\
  Decode (Some example_job) = Ok (mkSpec (mkSource "in" 2) [mkTransformation OpMap "f" 0] ActionCount).
Proof.
  assert (E : DecodeAndValidate (M := Spec) example_job 1048576 =
    Ok (mkSpec (mkSource "in" 2) [mkTransformation OpMap "f" 0] ActionCount)) by (vm_compute; reflexivity).
  pose proof (proj1 (jobs_agree example_job) _ _ E) as H. rewrite E, H. split; reflexivity.
Defined.
