(* ===== verification/JobFiles.v ===== *)
(** * JobFiles: what [jobspec.Decode] accepts, and what it reads

    Which files [Decode] of [JobSpec] takes, stated on the text alone: every object
    has known fields only, every value is of its field's type.  And what job it
    takes: of a field that is repeated, the last value that is not [null]. *)

From S2P Require Import Prelude Bytes Plan Lineage Stages Planner PlannerProofs Shuffle Reports Api Runtime Json JsonProofs ExampleFuncs.
From S2P Require Import Runner Protocol Dag Coordinator Wire WireProofs Messages MessageTheorems JsonExtend JobSpec.
#[local] Open Scope Z_scope.

(** ** Texts of a type *)

(** The text of a value of type [t], with any names that fold to those of known
    fields, and [null] anywhere. *)
Fixpoint fits (t : goType) (data : list N) {struct t} : Prop :=
  match t with
  | TRawMessage => True
  | TPointer t => is_null data = true \/ fits t data
  | TSlice t =>
      is_null data = true \/
      exists items, arrayItems data = Ok items /\ Forall (fits t) items
  | TStruct fields =>
      is_null data = true \/
      exists members, objectMembers data = Ok members /\
        Forall (fun m => exists i (ok : list N -> Prop),
          findField (map field_name fields) m.1 = Some i /\ map (fun f => fits f.2) fields !! i = Some ok /\ ok m.2) members
  | t => is_null data = true \/ is_Ok (decodeType t data) = true
  end.

Definition decodes (t : goType) (m : goMemory) (data : list N) : Prop := exists m', decodeInto t m data = Ok m'.

(** Whether a text decodes does not depend on what is there. *)
Definition fits_ok (t : goType) : Prop := forall m data, typedMemory t m -> decodes t m data <-> fits t data.

Lemma scalar_fits t : t ∈ [TBool; TString; TInt; TUint] -> fits_ok t.
Proof.
  intros Ht m data _. unfold decodes.
  assert (H : (exists m', (if is_null data then Ok m else v ← decodeType t data; Ok (setScalar v m)) = Ok m') <->
    is_null data = true \/ is_Ok (decodeType t data) = true).
  { destruct (is_null data); [split; [by left|by eexists]|]. destruct (decodeType t data) as [v|]; cbn.
    - split; [by right|by eexists].
    - split; [by intros [? ?]|by intros [?|?]]. }
  repeat (apply elem_of_cons in Ht as [->|Ht]; [exact H|]). by apply elem_of_nil in Ht.
Qed.

Lemma items_fit t items : fits_ok t -> forall array, Forall (typedMemory t) array ->
  (exists ms, decodeItems (decodeInto t) (zeroMemory t) items array = Ok ms) <-> Forall (fits t) items.
Proof.
  intros Ht. induction items as [|data items IH]; intros array Ha; cbn [decodeItems].
  { split; [by constructor|by eexists]. }
  assert (Hm : typedMemory t (default (zeroMemory t) (head array))) by (destruct Ha; [apply zero_typedMemory|done]).
  assert (Htail : Forall (typedMemory t) (tail array)) by by destruct Ha.
  rewrite Forall_cons, <- (Ht _ data Hm), <- (IH _ Htail). split.
  - intros (ms & (m & Hd & (ms' & Hr & _)%bind_Ok)%bind_Ok). split; by eexists.
  - intros [[m Hd] [ms Hr]]. exists (m :: ms). rewrite Hd. cbn. by rewrite Hr.
Qed.

Lemma decoder_at (fields : list goField) i f : fields !! i = Some f ->
  map (fun f => decodeInto f.2) fields !! i = Some (decodeInto f.2) /\
  map (fun f => fits f.2) fields !! i = Some (fits f.2) /\
  map (fun f => typedMemory f.2) fields !! i = Some (typedMemory f.2).
Proof.
  intros Hf. change (map (fun f => decodeInto f.2) fields) with ((fun f : goField => decodeInto f.2) <$> fields).
  change (map (fun f => fits f.2) fields) with ((fun f : goField => fits f.2) <$> fields).
  change (map (fun f => typedMemory f.2) fields) with ((fun f : goField => typedMemory f.2) <$> fields).
  by rewrite !list_lookup_fmap, Hf.
Qed.

Lemma found_field (fields : list goField) name i : findField (map field_name fields) name = Some i -> is_Some (fields !! i).
Proof.
  intros H. apply lookup_lt_is_Some. rewrite <- (length_map field_name). revert H. unfold findField.
  assert (Hi : forall (p : string -> bool) l j, findIndex p l = Some j -> (j < length l)%nat).
  { intros p l. induction l as [|x l IH]; cbn; [done|]. intros j. destruct (p x); [intros [= <-]; lia|].
    destruct (findIndex p l); [|done]. intros [= <-]. specialize (IH _ eq_refl). lia. }
  destruct (findIndex _ _) eqn:E; [intros [= <-]; by eapply Hi|apply Hi].
Qed.

Lemma members_fit (fields : list goField) members : Forall (fun f => fits_ok f.2) fields ->
  forall ms, typedMemory (TStruct fields) (MStruct ms) ->
  (exists ms', decodeMembers (map field_name fields) (map (fun f => decodeInto f.2) fields) ms members = Ok ms') <->
  Forall (fun m => exists i (ok : list N -> Prop), findField (map field_name fields) m.1 = Some i /\
    map (fun f => fits f.2) fields !! i = Some ok /\ ok m.2) members.
Proof.
  intros HF. induction members as [|[name data] members IH]; intros ms Hms; cbn [decodeMembers].
  { split; [by constructor|by eexists]. }
  rewrite Forall_cons. cbn [fst snd]. destruct (findField (map field_name fields) name) as [i|] eqn:Hi.
  2: { split; [by intros [? ?]|]. by intros [(? & ? & ? & _) _]. }
  destruct (found_field _ _ _ Hi) as [f Hf]. destruct (decoder_at _ _ _ Hf) as (-> & _ & Htm). cbn [typedMemory] in Hms.
  destruct (Forall2_lookup_l _ _ _ _ _ Hms Htm) as (m & Hm & Htyped). rewrite Hm.
  rewrite Forall_forall in HF. pose proof (HF f (list_elem_of_lookup_2 _ _ _ Hf) m data Htyped) as Hfit.
  assert (Hone : (exists i0 (ok : list N -> Prop), Some i = Some i0 /\ map (fun f => fits f.2) fields !! i0 = Some ok /\ ok data) <->
    fits f.2 data).
  { split; [|intros ?; exists i, (fits f.2); split; [done|split; [by apply decoder_at|done]]].
    intros (? & ok & [= <-] & Hok & ?). destruct (decoder_at _ _ _ Hf) as (_ & E & _). rewrite E in Hok. by injection Hok as <-. }
  assert (Hstep : forall m', decodeInto f.2 m data = Ok m' ->
    (exists ms', decodeMembers (map field_name fields) (map (fun f => decodeInto f.2) fields) (<[i:=m']> ms) members = Ok ms') <->
    Forall (fun m => exists i (ok : list N -> Prop), findField (map field_name fields) m.1 = Some i /\
      map (fun f => fits f.2) fields !! i = Some ok /\ ok m.2) members).
  { intros m' Hd. apply IH. cbn [typedMemory].
    rewrite <- (list_insert_id (map (fun f : goField => typedMemory f.2) fields) i (typedMemory f.2)) by done.
    apply Forall2_insert; [done|]. by eapply decodeInto_typed. }
  rewrite Hone, <- Hfit. split.
  - intros (ms' & (m' & Hd & Hr)%bind_Ok). split; [by exists m'|]. apply (Hstep m' Hd). by eexists.
  - intros [[m' Hd] Hr]. apply (Hstep m' Hd) in Hr as [ms' Hr]. exists ms'. rewrite Hd. cbn. done.
Qed.

Lemma decode_fits t : fits_ok t.
Proof.
  induction t as [| | | | |t IH|t IH|fields IH] using goType_nested; try (apply scalar_fits; set_solver).
  - intros m data _. split; [done|]. by eexists.
  - intros m data Hm. unfold decodes. cbn [decodeInto fits]. destruct (is_null data); [split; [by left|by eexists]|].
    assert (Ht : typedMemory t (match m with MPointer (Some m) => m | _ => zeroMemory t end))
      by (destruct m as [ | | | | |[m|]| | ]; try done; apply zero_typedMemory).
    rewrite <- (IH _ data Ht). split.
    + intros (? & (m' & ? & _)%bind_Ok). right. by exists m'.
    + intros [?|[m' Hd]]; [done|]. exists (MPointer (Some m')). by rewrite Hd.
  - intros m data Hm. unfold decodes. cbn [decodeInto fits]. destruct (is_null data); [split; [by left|by eexists]|].
    assert (Ha : Forall (typedMemory t) (match m with MSlice _ array => array | _ => [] end)) by (destruct m; try done; by destruct Hm).
    split.
    + intros (? & (items & Hi & (array & Hd & _)%bind_Ok)%bind_Ok). right. exists items. split; [done|].
      apply (items_fit t items IH _ Ha). by eexists.
    + intros [?|(items & Hi & Hf)]; [done|]. apply (items_fit t items IH _ Ha) in Hf as [ms Hd]. rewrite Hi. cbn. rewrite Hd. by eexists.
  - intros m data Hm. unfold decodes. cbn [decodeInto fits]. destruct (is_null data); [split; [by left|by eexists]|].
    destruct m as [ | | | | | | |ms]; try done. split.
    + intros (? & (members & Hi & (ms' & Hd & _)%bind_Ok)%bind_Ok). right. exists members. split; [done|].
      apply (members_fit fields members IH ms Hm). by eexists.
    + intros [?|(members & Hi & Hf)]; [done|]. apply (members_fit fields members IH ms Hm) in Hf as [ms' Hd].
      rewrite Hi. cbn. rewrite Hd. by eexists.
Qed.

(** ** What is read *)

(** One text after another into the same place. *)
Fixpoint decodeEach (decode : goMemory -> list N -> result goMemory) (m : goMemory) (texts : list (list N)) : result goMemory :=
  match texts with
  | [] => Ok m
  | data :: texts => m ← decode m data; decodeEach decode m texts
  end.

Lemma decodeEach_app decode m l1 l2 : decodeEach decode m (l1 ++ l2) = (m ← decodeEach decode m l1; decodeEach decode m l2).
Proof. revert m. induction l1 as [|data l1 IH]; intros m; cbn; [done|]. destruct (decode m data); cbn; [apply IH|done]. Qed.

(** The texts of field [i] in the text of an object. *)
Definition texts_at (names : list string) (i : nat) (data : list N) : list (list N) :=
  if is_null data then [] else match objectMembers data with Ok members => values_at names i members | Err _ => [] end.

Lemma members_each names decoders members : forall ms ms', decodeMembers names decoders ms members = Ok ms' ->
  length ms' = length ms /\ forall i decode m, decoders !! i = Some decode -> ms !! i = Some m ->
    exists m', decodeEach decode m (values_at names i members) = Ok m' /\ ms' !! i = Some m'.
Proof.
  induction members as [|[name data] members IH]; intros ms ms'; cbn [decodeMembers].
  { intros [= <-]. split; [done|]. intros i decode m _ Hm. by exists m. }
  destruct (findField names name) as [k|] eqn:Hk; [|done]. destruct (decoders !! k) as [dk|] eqn:Hdk; [|done].
  destruct (ms !! k) as [mk|] eqn:Hmk; [|done]. intros (m1 & Hm1 & H)%bind_Ok. apply IH in H as [Hlen H].
  rewrite length_insert in Hlen. split; [done|]. intros i decode m Hd Hm. unfold values_at. cbn [List.filter fst].
  rewrite Hk. destruct (decide (k = i)) as [<-|Hne].
  - rewrite bool_decide_eq_true_2 by done. rewrite Hdk in Hd. injection Hd as ->. rewrite Hmk in Hm. injection Hm as ->.
    cbn [fmap list_fmap]. cbn [decodeEach snd]. rewrite Hm1. cbn [mbind result_bind]. apply H; [done|].
    apply list_lookup_insert_eq. by eapply lookup_lt_Some.
  - rewrite bool_decide_eq_false_2 by congruence. apply H; [done|]. by rewrite list_lookup_insert_ne.
Qed.

(** The texts of an object, one after another, leave in each field what the texts
    of that field leave. *)
Lemma struct_each (fields : list goField) texts : forall ms m', length ms = length fields ->
  decodeEach (decodeInto (TStruct fields)) (MStruct ms) texts = Ok m' ->
  exists ms', m' = MStruct ms' /\ length ms' = length fields /\
    forall i f m, fields !! i = Some f -> ms !! i = Some m ->
      exists m', decodeEach (decodeInto f.2) m (flat_map (texts_at (map field_name fields) i) texts) = Ok m' /\ ms' !! i = Some m'.
Proof.
  induction texts as [|data texts IH]; intros ms m' Hl; cbn [decodeEach].
  { intros [= <-]. exists ms. split_and!; [done|done|]. intros i f m _ Hm. by exists m. }
  cbn [decodeInto flat_map]. unfold texts_at at 1. destruct (is_null data).
  { cbn [mbind result_bind]. intros (ms' & -> & Hl' & H)%IH; [|done]. exists ms'. done. }
  intros (m1 & (members & Hmem & (ms1 & Hms1 & [= <-])%bind_Ok)%bind_Ok & H)%bind_Ok.
  apply members_each in Hms1 as [Hl1 Hms1]. apply IH in H as (ms' & -> & Hl' & H); [|lia]. exists ms'. split_and!; [done|done|].
  intros i f m Hf Hm. destruct (Hms1 i (decodeInto f.2) m) as (m2 & Hm2 & Hi); [by apply decoder_at|done|].
  destruct (H i f m2 Hf Hi) as (m3 & Hm3 & ?). exists m3. split; [|done]. unfold texts_at at 1. rewrite Hmem, decodeEach_app, Hm2. done.
Qed.

(** The last text that is not [null]. *)
Definition lastOf {A} (read : list N -> option A) (zero : A) (texts : list (list N)) : A :=
  foldl (fun a data => if is_null data then a else default a (read data)) zero texts.

Definition stringText (data : list N) : option string :=
  match decodeType TString data with Ok (VString s) => Some s | _ => None end.
Definition intText (data : list N) : option Z :=
  match decodeType TInt data with Ok (VInt z) => Some z | _ => None end.

Lemma string_each texts : forall s m', decodeEach (decodeInto TString) (MString s) texts = Ok m' ->
  m' = MString (lastOf stringText s texts).
Proof.
  induction texts as [|data texts IH]; intros s m'; cbn [decodeEach]; [by intros [= <-]|]. cbn [decodeInto].
  unfold lastOf. cbn [foldl]. destruct (is_null data); [apply IH|].
  intros (m1 & (v & Hv & [= <-])%bind_Ok & H)%bind_Ok. pose proof (decodeType_typed _ _ _ Hv) as Ht.
  destruct v as [ | |x| | | | | ]; try done. assert (E : stringText data = Some x) by (unfold stringText; by rewrite Hv).
  rewrite E. by apply IH in H.
Qed.

Lemma int_each texts : forall z m', decodeEach (decodeInto TInt) (MInt z) texts = Ok m' ->
  m' = MInt (lastOf intText z texts).
Proof.
  induction texts as [|data texts IH]; intros s m'; cbn [decodeEach]; [by intros [= <-]|]. cbn [decodeInto].
  unfold lastOf. cbn [foldl]. destruct (is_null data); [apply IH|].
  intros (m1 & (v & Hv & [= <-])%bind_Ok & H)%bind_Ok. pose proof (decodeType_typed _ _ _ Hv) as Ht.
  destruct v as [ | | |x| | | | ]; try done. assert (E : intText data = Some x) by (unfold intText; by rewrite Hv).
  rewrite E. by apply IH in H.
Qed.

(** *** Lists *)

Definition items_of (data : list N) : list (list N) := match arrayItems data with Ok items => items | Err _ => [] end.

(** A list that is [null] or empty drops the array; any other one is decoded into
    the elements of those before it. *)
Definition arrays_since (texts : list (list N)) : list (list (list N)) :=
  foldl (fun arrays data => if is_null data then [] else match items_of data with [] => [] | items => arrays ++ [items] end) [] texts.

Definition last_length (texts : list (list N)) : option nat :=
  data ← last texts; if is_null data then None else Some (length (items_of data)).

(** The texts of element [j]. *)
Definition texts_of (j : nat) (arrays : list (list (list N))) : list (list N) := omap (fun items => items !! j) arrays.

Lemma items_each decode zero items : forall array ms, decodeItems decode zero items array = Ok ms ->
  (length items <= length ms)%nat /\ forall j,
  match items !! j with
  | Some data => exists m, decode (default zero (array !! j)) data = Ok m /\ ms !! j = Some m
  | None => ms !! j = array !! j
  end.
Proof.
  induction items as [|data items IH]; intros array ms; cbn [decodeItems].
  { intros [= <-]. split; [cbn; lia|done]. }
  intros (m & Hm & (ms' & Hms & [= <-])%bind_Ok)%bind_Ok. apply IH in Hms as [Hl Hms]. split; [cbn; lia|].
  intros [|j]; cbn; [exists m; split; [by destruct array|done]|].
  specialize (Hms j). destruct array as [|a array]; [|exact Hms]. cbn [tail] in Hms. by destruct j.
Qed.

Lemma list_each t texts : forall m', decodeEach (decodeInto (TSlice t)) (MSlice None []) texts = Ok m' ->
  exists array, m' = MSlice (last_length texts) array /\ (default 0%nat (last_length texts) <= length array)%nat /\
    forall j, decodeEach (decodeInto t) (zeroMemory t) (texts_of j (arrays_since texts)) = Ok (default (zeroMemory t) (array !! j)).
Proof.
  induction texts as [|data texts IH] using rev_ind; intros m'.
  { intros [= <-]. exists []. split_and!; [done|cbn; lia|done]. }
  rewrite decodeEach_app. intros (m & Hm & H)%bind_Ok. destruct (IH m Hm) as (array & -> & _ & Hj). clear IH Hm.
  unfold last_length, arrays_since in *. rewrite last_snoc, foldl_app. cbn [mbind option_bind foldl].
  cbn [decodeEach decodeInto] in H. destruct (is_null data).
  { injection H as <-. exists []. split_and!; [done|cbn; lia|done]. }
  apply bind_Ok in H as (m & (items & Hi & (ms & Hms & [= <-])%bind_Ok)%bind_Ok & [= <-]). unfold items_of. rewrite Hi.
  apply items_each in Hms as [Hl Hms]. destruct items as [|d0 items]; [exists []; split_and!; [done|cbn; lia|done]|].
  exists ms. split_and!; [done|done|]. intros j. unfold texts_of. rewrite omap_app, decodeEach_app. fold (texts_of j).
  unfold texts_of in Hj. rewrite Hj. cbn [mbind result_bind omap list_omap]. specialize (Hms j).
  destruct ((d0 :: items) !! j) as [data'|]; cbn; [|by rewrite Hms]. destruct Hms as (m & -> & ->). done.
Qed.

(** ** The job of a text *)

Definition source_fields : list string := ["path"; "num_partitions"].
Definition transformation_fields : list string := ["kind"; "function_id"; "num_partitions"].
Definition spec_fields : list string := ["source"; "transformations"; "action"].

Definition source_of (texts : list (list N)) : SourceSpec :=
  mkSource (lastOf stringText "" (flat_map (texts_at source_fields 0) texts))
    (lastOf intText 0 (flat_map (texts_at source_fields 1) texts)).

Definition transformation_of (texts : list (list N)) : TransformationSpec :=
  mkTransformation (operator_of (lastOf stringText "" (flat_map (texts_at transformation_fields 0) texts)))
    (lastOf stringText "" (flat_map (texts_at transformation_fields 1) texts))
    (lastOf intText 0 (flat_map (texts_at transformation_fields 2) texts)).

Definition transformations_of (texts : list (list N)) : list TransformationSpec :=
  (fun j => transformation_of (texts_of j (arrays_since texts))) <$> seq 0 (default 0%nat (last_length texts)).

(** The job that the text of an object means. *)
Definition job_of (value : list N) : Spec :=
  mkSpec (source_of (texts_at spec_fields 0 value)) (transformations_of (texts_at spec_fields 1 value))
    (action_of (lastOf stringText "" (texts_at spec_fields 2 value))).

Definition transformation_type : list goField :=
  [("kind", false, TString); ("function_id", false, TString); ("num_partitions", true, TInt)].

Lemma read_transformation texts m :
  decodeEach (decodeInto (TStruct transformation_type)) (zeroMemory (TStruct transformation_type)) texts = Ok m ->
  wireOf (readMemory m) = Some (transformation_of texts).
Proof.
  intros H. apply (struct_each transformation_type texts [MString ""; MString ""; MInt 0]) in H as (ms & -> & Hl & H); [|done].
  destruct (H 0%nat _ _ eq_refl eq_refl) as (m0 & E0%string_each & H0).
  destruct (H 1%nat _ _ eq_refl eq_refl) as (m1 & E1%string_each & H1).
  destruct (H 2%nat _ _ eq_refl eq_refl) as (m2 & E2%int_each & H2). subst m0 m1 m2.
  destruct ms as [|a [|b [|c [|? ?]]]]; try done. injection H0 as ->. injection H1 as ->. injection H2 as ->. reflexivity.
Qed.

Lemma read_source texts m :
  decodeEach (decodeInto (wireType SourceSpec)) (zeroMemory (wireType SourceSpec)) texts = Ok m ->
  wireOf (readMemory m) = Some (source_of texts).
Proof.
  intros H. apply (struct_each [("path", false, TString); ("num_partitions", false, TInt)] texts [MString ""; MInt 0]) in H
    as (ms & -> & Hl & H); [|done].
  destruct (H 0%nat _ _ eq_refl eq_refl) as (m0 & E0%string_each & H0).
  destruct (H 1%nat _ _ eq_refl eq_refl) as (m1 & E1%int_each & H1). subst m0 m1.
  destruct ms as [|a [|b [|? ?]]]; try done. injection H0 as ->. injection H1 as ->. reflexivity.
Qed.

Lemma read_transformations texts m :
  decodeEach (decodeInto (TSlice (TStruct transformation_type))) (MSlice None []) texts = Ok m ->
  wireOf (Wire := nil_wire) (readMemory m) = Some (transformations_of texts).
Proof.
  intros (array & -> & Hlen & Hj)%list_each. unfold transformations_of. destruct (last_length texts) as [n|]; [|done].
  cbn [readMemory]. change (wireOf (VSlice (Some (take n (map readMemory array))))) with
    (all_some (wireOf (A := TransformationSpec)) (take n (readMemory <$> array))). cbn [default] in *. 
  assert (Hall : forall k, (k + n <= length array)%nat ->
    all_some (wireOf (A := TransformationSpec)) (take n (drop k (readMemory <$> array))) =
    Some ((fun j => transformation_of (texts_of j (arrays_since texts))) <$> seq k n)); [|apply (Hall 0%nat); unfold id in *; lia].
  clear Hlen. induction n as [|n IH]; intros k Hk; [done|].
  destruct (lookup_lt_is_Some_2 array k) as [m Hm]; [lia|]. pose proof (Hj k) as Ek. rewrite Hm in Ek. unfold default, id in Ek.
  rewrite (drop_S _ (readMemory m)) by by rewrite list_lookup_fmap, Hm. cbn [take all_some].
  rewrite (read_transformation _ _ Ek). cbn [mbind option_bind]. rewrite IH by lia. reflexivity.
Qed.

Lemma wireOf_spec v0 v1 x source l : wireOf v0 = Some source -> wireOf (Wire := nil_wire) v1 = Some l ->
  wireOf (VStruct [v0; v1; VString x]) = Some (mkSpec source l (action_of x)).
Proof.
  intros E0 E1. cbn [wireOf spec_wire struct_wire fieldsOf field no_fields].
  rewrite E0. cbn [mbind option_bind]. rewrite E1. reflexivity.
Qed.

(** What [Decode] has read. *)
Lemma read_job value m : decodeInto (wireType Spec) (zeroMemory (wireType Spec)) value = Ok m ->
  wireOf (readMemory m) = Some (job_of value).
Proof.
  intros H0. assert (H : decodeEach (decodeInto (wireType Spec)) (zeroMemory (wireType Spec)) [value] = Ok m)
    by (cbn [decodeEach]; by rewrite H0).
  set (fields := [("source", false, wireType SourceSpec); ("transformations", true, TSlice (TStruct transformation_type));
    ("action", false, TString)] : list goField).
  assert (Et : wireType Spec = TStruct fields) by reflexivity.
  assert (Ez : zeroMemory (wireType Spec) = MStruct [zeroMemory (wireType SourceSpec); MSlice None []; MString ""]) by reflexivity.
  rewrite Ez, Et in H. destruct (struct_each fields [value] [zeroMemory (wireType SourceSpec); MSlice None []; MString ""] m eq_refl H) as (ms & -> & Hl & Hf).
  destruct (Hf 0%nat _ _ eq_refl eq_refl) as (m0 & E0%read_source & F0).
  destruct (Hf 1%nat _ _ eq_refl eq_refl) as (m1 & E1%read_transformations & F1).
  destruct (Hf 2%nat _ _ eq_refl eq_refl) as (m2 & E2%string_each & F2). subst m2.
  destruct ms as [|a [|b [|c [|? ?]]]]; try done. injection F0 as ->. injection F1 as ->. injection F2 as ->.
  cbn [flat_map] in *. rewrite !app_nil_r in *. by apply wireOf_spec.
Qed.

(** ** Properties *)

(** C31.  Which job files [jobspec.Decode] accepts, and which job each one means.
    It returns the job [s] exactly when the reader ends without an error, after
    one JSON value and nothing but blanks; the value and all objects inside it have
    known fields only (in any case), each with a value of its type or [null]; [s] is
    the job the value means; and [s] is valid.  Of a field that is repeated the last
    value counts: a source or a transformation keeps what an earlier one set and the
    later one leaves out, and a list that is [null] or empty starts anew. *)
Theorem Decode_correct r s : Decode (Some r) = Ok s <->
  rd_err r = None /\ exists value rest,
    rawValue (rd_content r) = Ok (value, rest) /\ skipSpace rest = [] /\
    fits (wireType Spec) value /\ s = job_of value /\ spec_ok s.
Proof.
  pose proof (decode_fits (wireType Spec) (zeroMemory (wireType Spec))) as Hfit.
  unfold Decode. rewrite bind_Ok. split.
  - intros ([value rest] & Hr%map_err_Ok & (m & Hm%map_err_Ok & ([] & Ht & H)%bind_Ok)%bind_Ok).
    rewrite (read_job _ _ Hm) in H. apply bind_Ok in H as ([] & Hval%validateSpec_spec & [= <-]).
    assert (Hend : skipSpace rest = [] /\ rd_err r = None).
    { revert Ht. unfold checkTrailing. destruct (skipSpace rest); [by destruct (rd_err r)|]. by destruct (rawValue rest) as [[]|]. }
    destruct Hend. split; [done|]. exists value, rest. split_and!; try done.
    apply Hfit; [apply zero_typedMemory|]. by exists m.
  - intros (He & value & rest & Hr & Hrest & Hf & -> & Hok).
    apply Hfit in Hf as [m Hm]; [|apply zero_typedMemory]. exists (value, rest). rewrite Hr. split; [done|].
    rewrite Hm. cbn [map_err mbind result_bind]. unfold checkTrailing. rewrite Hrest, He. cbn [mbind result_bind].
    rewrite (read_job _ _ Hm). apply validateSpec_spec in Hok. by rewrite Hok.
Qed.

(** The source of [repeated_job] is given twice, its list of transformations three
    times; a field with an unknown name is refused. *)
#[local] Notation q := quoteString.

Definition repeated_job (name : string) : list N :=
  bytes_of (
    "{" +:+ q "source" +:+ ":{" +:+ q "path" +:+ ":" +:+ q "in" +:+ "," +:+ q "num_partitions" +:+ ":3}," +:+
    q "Source" +:+ ":{" +:+ q "num_partitions" +:+ ":2," +:+ q "PATH" +:+ ":null}," +:+
    q name +:+ ":[{" +:+ q "kind" +:+ ":" +:+ q "map" +:+ "},{" +:+ q "function_id" +:+ ":" +:+ q "f" +:+ "}]," +:+
    q "transformations" +:+ ":[{" +:+ q "function_id" +:+ ":" +:+ q "g" +:+ "}]," +:+
    q "TRANSFORMATIONS" +:+ ":[{},{" +:+ q "kind" +:+ ":" +:+ q "filter" +:+ "}]," +:+
    q "action" +:+ ":" +:+ q "count" +:+ "} ").

Lemma Decode_correct_witness :
  (exists value rest, rawValue (repeated_job "transformations") = Ok (value, rest) /\ skipSpace rest = [] /\
     fits (wireType Spec) value /\
     job_of value = mkSpec (mkSource "in" 2) [mkTransformation OpMap "g" 0; mkTransformation OpFilter "f" 0] ActionCount) /\
  forall value rest, rawValue (repeated_job "steps") = Ok (value, rest) -> skipSpace rest = [] ->
    spec_ok (job_of value) -> ~ fits (wireType Spec) value.
Proof.
  split.
  - destruct (proj1 (Decode_correct (mkReader (repeated_job "transformations") None)
      (mkSpec (mkSource "in" 2) [mkTransformation OpMap "g" 0; mkTransformation OpFilter "f" 0] ActionCount)))
      as (_ & value & rest & H1 & H2 & H3 & H4 & _); [vm_compute; reflexivity|].
    exists value, rest. split; [exact H1|]. split; [exact H2|]. split; [exact H3|symmetry; exact H4].
  - intros value rest H1 H2 H3 H4.
    assert (H : Decode (Some (mkReader (repeated_job "steps") None)) = Ok (job_of value)).
    { apply (Decode_correct (mkReader (repeated_job "steps") None) (job_of value)). split; [reflexivity|]. by exists value, rest. }
    assert (Hn : is_Ok (Decode (Some (mkReader (repeated_job "steps") None))) = false) by (vm_compute; reflexivity).
    rewrite H in Hn. discriminate Hn.
Defined.
