(* ===== verification/Commands.v ===== *)
(** * Commands: what the programs do once their flags are parsed

    Models [cmd/submit/{client,main}.go], [cmd/local/main.go], [cmd/explain/main.go],
    [cmd/worker/main.go] and [cmd/coordinator/main.go] after [flag.Parse].  The
    files, the network, the schedulers' [Run] and the parsed URLs are arguments; a
    program returns the text it writes, which its writer takes, and its error. *)

From S2P Require Import Prelude Bytes Plan Lineage Stages Planner PlannerProofs Shuffle Reports Fifo Api Runtime TextSource.
From S2P Require Import Runner FileStore Json JsonProofs ExampleFuncs Protocol Dag Coordinator Worker.
From S2P Require Import Wire WireProofs Messages Explain JobSpec.
#[local] Open Scope Z_scope.

(** ** cmd/submit *)

(** [url] is what [url.Parse] makes of the flag, [text] its [String]. *)
Definition submissionURL (url : option parsedURL) (text : string) : result string :=
  let bad := Errorf "coordinator URL must be an absolute HTTP(S) origin without credentials, query, or fragment" [] in
  match url with
  | None => Err bad
  | Some u =>
      fail_if ((negb (bool_decide (url_Scheme u = "http")) && negb (bool_decide (url_Scheme u = "https"))) ||
               bool_decide (url_Hostname u = "") || url_User u ||
               (negb (bool_decide (url_Path u = "")) && negb (bool_decide (url_Path u = "/"))) ||
               negb (bool_decide (url_RawPath u = "")) || negb (bool_decide (url_RawQuery u = "")) || url_ForceQuery u ||
               negb (bool_decide (url_Fragment u = "")) || negb (bool_decide (url_RawFragment u = ""))) bad;;
      Ok (string_of (TrimSuffix 47 (bytes_of text)) +:+ "/v1/jobs")
  end.

(** A reply: its status, its media type if that parses, its body. *)
Record httpReply := mkReply {
  ht_StatusCode : Z;
  ht_MediaType : option string;
  ht_Body : reader }.

(** [newRequest] is the outcome of [http.NewRequestWithContext], [post] that of
    [client.Do] on a request with the given body. *)
Definition submitJob (newRequest : result unit) (post : list N -> result httpReply) (spec : Spec) (maxBytes : Z)
    : result JobResultResponse :=
  data ← map_err (fun err => Errorf "encode job: %w" [FWrap err]) (Marshal spec);
  _ ← newRequest;
  response ← map_err (fun err => Errorf "submit job: %w" [FWrap err]) (post data);
  let status := ht_StatusCode response in
  fail_if (negb (bool_decide (ht_MediaType response = Some "application/json")))
    (Errorf "invalid coordinator response: HTTP %d requires application/json" [FInt status]);;
  if negb (status =? 200) then
    fail_if ((status <? 400) || (599 <? status)) (Errorf "unexpected coordinator HTTP status %d" [FInt status]);;
    rejection ← map_err (fun err => Errorf "invalid coordinator HTTP %d error: %w" [FInt status; FWrap err])
                  (DecodeAndValidate (M := ErrorResponse) (ht_Body response) maxBytes);
    Err (Errorf "coordinator HTTP %d (%s): %s" [FInt status; FStr (code_name (er_Code rejection)); FStr (er_Message rejection)])
  else
    result ← map_err (fun err => Errorf "invalid job result: %w" [FWrap err])
               (DecodeAndValidate (M := JobResultResponse) (ht_Body response) maxBytes);
    fail_if (negb (bool_decide (jp_Action result = spec_Action spec)))
      (Errorf "job result action %q differs from submitted action %q"
         [FStr (action_name (jp_Action result)); FStr (action_name (spec_Action spec))]);;
    Ok result.

Record submitFlags := mkSubmitFlags {
  su_NArg : Z;
  su_Coordinator : option parsedURL;
  su_CoordinatorText : string;
  su_Job : string;
  su_RequestTimeout : Z;
  su_MaxResponseBytes : Z }.

(** [fmt.Fprintln] of a count, [json.Encoder.Encode] of raw records. *)
Definition printCount (count : Z) : list N := bytes_of (pretty count) ++ [newline].
Definition printRaw (records : option (list string)) : result (list N) :=
  data ← marshalType (TSlice TRawMessage) (VSlice (map (fun s => VRaw (bytes_of s)) <$> records));
  Ok (data ++ [newline]).

(** [ctx] is the error of the context before the file is opened, [open] that. *)
Definition runSubmit (f : submitFlags) (ctx : option error) (open : result reader)
    (newRequest : string -> result unit) (post : string -> list N -> result httpReply) : result (list N) :=
  fail_if (negb (su_NArg f =? 0)) (Errorf "unexpected positional arguments: %v" []);;
  fail_if (bool_decide (su_Job f = "") || (su_RequestTimeout f <=? 0) || (su_MaxResponseBytes f <=? 0) ||
           (su_MaxResponseBytes f =? 2 ^ 63 - 1))
    (Errorf "job is required; request timeout and response limit must be positive and bounded" []);;
  endpoint ← submissionURL (su_Coordinator f) (su_CoordinatorText f);
  _ ← match ctx with Some err => Err err | None => Ok tt end;
  file ← map_err (fun err => Errorf "open job: %w" [FWrap err]) open;
  spec ← map_err (fun err => Errorf "read job: %w" [FWrap err]) (DecodeAndValidate (M := Spec) file (2 ^ 20));
  result ← submitJob (newRequest endpoint) (post endpoint) spec (su_MaxResponseBytes f);
  if bool_decide (jp_Action result = ActionCount) then Ok (printCount (jp_Count result))
  else printRaw (jp_Records result).

(** ** cmd/local *)

Record localFlags := mkLocalFlags {
  lo_NArg : Z;
  lo_ShuffleRoot : string;
  lo_MaxStageAttempts : Z;
  lo_Job : string }.

(** [json.Encoder.Encode] of records. *)
Definition printRecords (records : list any) : result (list N) :=
  data ← marshal (AArray records); Ok (data ++ [newline]).

Definition exampleRegistry : result FunctionRegistry := Register (Some NewFunctionRegistry).

(** Building and running the job, once the stores are open. *)
Definition runJob (run : runner) (spec : Spec) : result (list N) :=
  match Build spec NewRDDGraph with
  | (Err err, _) => Err err
  | (Ok rdd, g) =>
      match spec_Action spec with
      | ActionCount => count ← Count run g rdd; Ok (printCount count)
      | ActionCollect => records ← Collect run g rdd; printRecords records
      | ActionOther s => Err (Errorf "unsupported action %q" [FStr s])
      end
  end.

(** The text it writes and its error: the shuffle store, if there is one, is closed
    at the end, which may fail when the text is written.  [store] is the outcome of
    [shuffle.NewFilesystem], [closed] of [Close], [run] the [Run] of the scheduler
    made from the registry. *)
Definition runLocal (f : localFlags) (open : result reader) (store : result unit) (closed : option error)
    (run : FunctionRegistry -> Spec -> Z -> runner) : list N * option error :=
  let before :=
    (fail_if (negb (lo_NArg f =? 0)) (Errorf "unexpected positional arguments: %v" []);;
     fail_if (lo_MaxStageAttempts f <=? 0) (Errorf "max stage attempts must be positive" []);;
     fail_if (bool_decide (lo_Job f = "")) (Errorf "-job is required" []);;
     file ← map_err (fun err => Errorf "open job %q: %w" [FStr (lo_Job f); FWrap err]) open;
     spec ← Decode (Some file);
     registry ← exampleRegistry;
     Ok (spec, registry)) in
  match before with
  | Err err => ([], Some err)
  | Ok (spec, registry) =>
      let ran := runJob (run registry spec (lo_MaxStageAttempts f)) spec in
      let text := match ran with Ok text => text | Err _ => [] end in
      let err := match ran with Ok _ => None | Err err => Some err end in
      if bool_decide (lo_ShuffleRoot f = "") then (text, err)
      else
        match store with
        | Err err => ([], Some (Errorf "open shuffle store: %w" [FWrap err]))
        | Ok _ => (text, errors_Join [err; closed])
        end
  end.

(** ** cmd/explain *)

Definition runExplain (job : string) (open : result reader) : fuelled string :=
  if bool_decide (job = "") then Some (Err (Errorf "-job is required" []))
  else
    match map_err (fun err => Errorf "open job %q: %w" [FStr job; FWrap err]) open ≫= (fun file =>
          Decode (Some file) ≫= (fun spec => exampleRegistry ≫= (fun registry => Ok (spec, registry)))) with
    | Err err => Some (Err err)
    | Ok (spec, registry) =>
        match Build spec NewRDDGraph with
        | (Err err, _) => Some (Err err)
        | (Ok rdd, g) =>
            lineage ←? RDD_ExplainLineage (Some (Some g)) rdd;
            stagePlan ←? RDD_PlanStages (Some (Some g)) rdd (spec_Action spec) (Some (registryLookup registry));
            Some (Ok (lineage +:+ ExplainStagePlan stagePlan))
        end
    end.

(** ** cmd/worker *)

Record workerFlags := mkWorkerFlags {
  wo_NArg : Z;
  wo_Coordinator : option parsedURL;
  wo_ShuffleRoot : string;
  wo_ID : string;
  wo_Slots : Z;
  wo_HeartbeatInterval : Z;
  wo_RequestTimeout : Z }.

(** The settings of the client and of the runtime. *)
Definition startWorker (f : workerFlags) (store : result unit) : result (ClientConfig * RuntimeConfig) :=
  fail_if (negb (wo_NArg f =? 0)) (Errorf "unexpected positional arguments: %v" []);;
  fail_if (bool_decide (wo_ID f = "") || (wo_Slots f <=? 0) || (wo_HeartbeatInterval f <=? 0) || (wo_RequestTimeout f <=? 0))
    (Errorf "id is required; slots, heartbeat interval and request timeout must be positive" []);;
  client ← NewClient (wo_Coordinator f) (mkClientConfig (wo_RequestTimeout f) 0);
  _ ← (if bool_decide (wo_ShuffleRoot f = "") then Ok tt
       else map_err (fun err => Errorf "open shuffle store: %w" [FWrap err]) store);
  runtime ← NewRuntime true (mkRuntimeConfig (wo_ID f) (wo_Slots f) (wo_HeartbeatInterval f) (wo_RequestTimeout f))
              (_ ← exampleRegistry; Ok tt);
  Ok (client, runtime).

(** The error of the command for what [Runtime.Run] returned; the end of the
    context is none.  [closed] is that of the shuffle store, if there is one. *)
Definition workerStopped (f : workerFlags) (ctx ran closed : option error) : option error :=
  let err :=
    match ran with
    | None => None
    | Some err =>
        if match ctx with Some (Sentinel cause) => errors_Is err cause | _ => false end then None
        else Some (Errorf "run worker %q: %w" [FStr (wo_ID f); FWrap err])
    end in
  if bool_decide (wo_ShuffleRoot f = "") then err else errors_Join [err; closed].

(** ** cmd/coordinator *)

Record coordinatorFlags := mkCoordinatorFlags {
  co_NArg : Z;
  co_MaxTaskAttempts : Z;
  co_MaxStageAttempts : Z;
  co_WorkerTimeout : Z;
  co_WorkerCheckInterval : Z;
  co_Listen : string;
  co_JobTimeout : Z;
  co_ShutdownTimeout : Z }.

Definition checkCoordinatorFlags (f : coordinatorFlags) : result unit :=
  fail_if (negb (co_NArg f =? 0)) (Errorf "unexpected positional arguments: %v" []);;
  fail_if (bool_decide (co_Listen f = "") || (co_JobTimeout f <=? 0) || (co_ShutdownTimeout f <=? 0))
    (Errorf "listen address must not be empty and timeouts must be positive" []);;
  fail_if ((co_MaxTaskAttempts f <=? 0) || (co_MaxStageAttempts f <=? 0))
    (Errorf "task and stage attempt limits must be positive" []);;
  fail_if ((co_WorkerTimeout f <=? 0) || (co_WorkerCheckInterval f <=? 0) || (co_WorkerTimeout f <? co_WorkerCheckInterval f))
    (Errorf "worker timeout and check interval must be positive; check interval must not exceed timeout" []);;
  Ok tt.

(** What it creates: the schedulers, the settings of the server and the monitor. *)
Record coordinatorParts := mkCoordinatorParts {
  cp_Tasks : Fifo.scheduler;
  cp_Jobs : dag;
  cp_Server : Config;
  cp_Monitor : WorkerMonitorConfig }.

(** The calls that stop the parts, deferred ones included. *)
Inductive coordinatorCall :=
  | CallStopMonitor | CallCloseJobs | CallCloseServer | CallShutdown | CallAwaitServe | CallCloseListener | CallCloseTasks.

(** The parts, and the deferred calls that are then due.  [run] is the fresh run
    identifier, [listen] the outcome of [net.Listen]. *)
Definition startCoordinator (f : coordinatorFlags) (run : string) (listen : string -> result unit)
    : list coordinatorCall * result coordinatorParts :=
  match exampleRegistry with
  | Err err => ([], Err err)
  | Ok registry =>
      match NewFIFOTaskScheduler [WithMaxTaskAttempts (co_MaxTaskAttempts f)] run with
      | Err err => ([], Err err)
      | Ok tasks =>
          let deferred := [CallCloseTasks] in
          match NewJobService true true ≫= (fun _ =>
                  NewDAGScheduler (Some (registryLookup registry)) true [WithMaxStageAttempts (co_MaxStageAttempts f)]) with
          | Err err => (deferred, Err err)
          | Ok jobs =>
              let deferred := CallCloseJobs :: deferred in
              match NewServer true {| cf_Addr := co_Listen f; cf_MaxRequestBytes := 0; cf_ReadHeaderTimeout := 0;
                                      cf_ReadTimeout := 0; cf_WriteTimeout := 0; cf_IdleTimeout := 0;
                                      cf_JobTimeout := co_JobTimeout f |} with
              | Err err => (deferred, Err err)
              | Ok server =>
                  match listen (cf_Addr server) with
                  | Err err => (deferred, Err (Errorf "listen: %w" [FWrap err]))
                  | Ok _ =>
                      let deferred := CallCloseListener :: deferred in
                      match NewWorkerMonitor true (mkMonitorConfig (co_WorkerTimeout f) (co_WorkerCheckInterval f)) with
                      | Err err => (deferred, Err err)
                      | Ok monitor => (CallStopMonitor :: deferred, Ok (mkCoordinatorParts tasks jobs server monitor))
                      end
                  end
              end
          end
      end
  end.

(** How the select ends, with what [Serve] and the monitor returned. *)
Inductive coordinatorEnd :=
  | EndServed (err : error)
  | EndMonitor (err : option error)
  | EndContext.

Definition ErrServerClosed : string := "http: Server closed".

(** [shutdown] is the outcome of [server.Shutdown], [served] what [Serve] returns
    in the end. *)
Definition drainCoordinator (shutdown : option error) (served : error) : list coordinatorCall * option error :=
  match shutdown with
  | Some err => ([CallShutdown; CallCloseServer; CallAwaitServe], Some (Errorf "drain coordinator: %w" [FWrap err]))
  | None =>
      ([CallShutdown; CallAwaitServe],
       if errors_Is served ErrServerClosed then None else Some (Errorf "serve coordinator: %w" [FWrap served]))
  end.

Definition stopCoordinator (e : coordinatorEnd) (shutdown : option error) (served : error)
    : list coordinatorCall * option error :=
  match e with
  | EndServed err =>
      ([CallStopMonitor; CallCloseJobs; CallCloseServer], Some (Errorf "serve coordinator: %w" [FWrap err]))
  | EndMonitor (Some err) => ([CallCloseJobs; CallCloseServer; CallAwaitServe], Some err)
  | EndMonitor None | EndContext =>
      let '(calls, err) := drainCoordinator shutdown served in ([CallStopMonitor; CallCloseJobs] ++ calls, err)
  end.

(** The calls of the command and its error; [ctx] is the error of the context at the
    start. *)
Definition runCoordinator (f : coordinatorFlags) (ctx : option error) (run : string) (listen : string -> result unit)
    (e : coordinatorEnd) (shutdown : option error) (served : error) : list coordinatorCall * option error :=
  match checkCoordinatorFlags f with
  | Err err => ([], Some err)
  | Ok _ =>
      if bool_decide (is_Some ctx) then ([], None)
      else
        let '(deferred, parts) := startCoordinator f run listen in
        match parts with
        | Err err => (deferred, Some err)
        | Ok _ => let '(calls, err) := stopCoordinator e shutdown served in (calls ++ deferred, err)
        end
  end.

(** ** What the coordinator sends *)

(** The text of a response, with the newline that ends it. *)
Definition bodyText (b : body) : result (list N) :=
  match b with
  | BodyRegister r => Marshal r
  | BodyHeartbeat r => Marshal r
  | BodyReport r => Marshal r
  | BodyJob r => Marshal r
  | BodyError r => Marshal r
  end.

Definition writeReply (r : response) : httpReply :=
  let text status data := mkReply status (Some "application/json") (mkReader (data ++ [newline]) None) in
  match bodyText (re_Body r) with
  | Ok data => text (re_Status r) data
  | Err _ => text 500 (bytes_of ("{" +:+ quoteString "code" +:+ ":" +:+ quoteString "internal_error" +:+ "," +:+
                                 quoteString "message" +:+ ":" +:+ quoteString "response encoding failed" +:+ "}"))
  end.
