(* ===== verification/Http.v ===== *)
(** * Http: the worker's calls over the wire

    The client of [worker/client.go] on bytes, the handlers of
    [coordinator/server.go] on bytes, and that a call through both is the call of
    the handler: what [Cluster] assumes of a message that arrives. *)

From S2P Require Import Prelude Bytes Plan Stages Shuffle Reports Fifo Api Json JsonProofs Protocol Dag Coordinator Worker.
From S2P Require Import Cluster Wire WireProofs Messages MessageTheorems Commands.
#[local] Open Scope Z_scope.

(** ** The client *)

(** The whole of [post]: [newRequest] is the outcome of [http.NewRequestWithContext],
    [exchange] that of [http.Client.Do] on a request with the given body. *)
Definition postMessage {Q T} `{WireMessage Q} `{WireMessage T} (path : string) (request : Q)
    (newRequest : result unit) (exchange : list N -> result httpReply) (maxBytes : Z) : result T :=
  _ ← map_err (fun err => Errorf "%s request: %w" [FStr path; FWrap err]) (message_validate request);
  data ← map_err (fun err => Errorf "encode %s request: %w" [FStr path; FWrap err]) (Marshal request);
  _ ← newRequest;
  post path (Ok tt)
    (reply ← exchange data;
     Ok (mkHTTPResponse (ht_StatusCode reply) (ht_MediaType reply)
           (DecodeAndValidate (ht_Body reply) maxBytes) (DecodeAndValidate (ht_Body reply) maxBytes))).

(** The methods of the client.  [urlParse] is [url.Parse], with which an address is checked. *)
Definition callRegister urlParse (request : RegisterWorkerRequest) newRequest exchange maxBytes : result RegisterWorkerResponse :=
  clientRegistration request
    (postMessage (H := register_request_message urlParse) "/v1/workers/register" request newRequest exchange maxBytes).
Definition callHeartbeat (request : HeartbeatRequest) newRequest exchange maxBytes : result HeartbeatResponse :=
  clientHeartbeat request (postMessage "/v1/workers/heartbeat" request newRequest exchange maxBytes).
Definition callSuccess (request : TaskSuccessRequest) newRequest exchange maxBytes : result TaskReportResponse :=
  postMessage "/v1/tasks/success" request newRequest exchange maxBytes.
Definition callFailure (request : TaskFailureRequest) newRequest exchange maxBytes : result TaskReportResponse :=
  postMessage "/v1/tasks/failure" request newRequest exchange maxBytes.

(** ** The coordinator *)

(** A handler reads the whole body, within the limit, and writes its response. *)
Definition serveMessage {Q} `{WireMessage Q} (maxRequest : Z) (serve : result Q -> response) (data : list N) : response :=
  serve (DecodeAndValidate (mkReader data None) maxRequest).

Section coordinator.
Variable Error : error -> string.
Variable urlParse : string -> option parsedURL.
Variables (s : scheduler) (now : Z) (ctxErr : taskSetKey -> option error) (maxRequest : Z).

(** The worker endpoints in a state of the scheduler; [jobs] serves submissions. *)
Definition serveEndpoint (jobs : list N -> option response) (e : endpoint) (data : list N) : option response :=
  match e with
  | EndRegister => Some (serveMessage (H := register_request_message urlParse) maxRequest (fun q => (registerWorker Error s now q).1) data)
  | EndHeartbeat => Some (serveMessage maxRequest (fun q => (heartbeat Error s now ctxErr q).1) data)
  | EndSuccess => Some (serveMessage maxRequest (fun q => (taskSuccess Error s ctxErr q).1) data)
  | EndFailure => Some (serveMessage maxRequest (fun q => (taskFailure Error s ctxErr q).1) data)
  | EndSubmit => jobs data
  end.

(** A request to the server, and its reply; none closes the connection. *)
Definition roundTrip (jobs : list N -> option response) (path : string) (data : list N) : result httpReply :=
  match ServeHTTP path "POST" (fun e => serveEndpoint jobs e data) with
  | Some r => Ok (writeReply r)
  | None => Err (Sentinel "EOF")
  end.
End coordinator.

(** ** What arrives *)

(** A valid message that JSON can carry, with a text below the limit. *)
Definition sent {M} `{WireMessage M} (m : M) (limit : Z) : Prop :=
  message_good m /\ message_validate m = Ok tt /\
  exists data, Marshal m = Ok data /\ Z.of_nat (length data) < limit < 2 ^ 63 - 1.

Definition sendable (limit : Z) (b : body) : Prop :=
  match b with
  | BodyRegister r => sent r limit
  | BodyHeartbeat r => sent r limit
  | BodyReport r => sent r limit
  | BodyJob r => sent r limit
  | BodyError r => sent r limit
  end.

(** What a response says: its value, or its rejection. *)
Definition said {T} (value : body -> option T) (re : response) : result T :=
  match re_Body re with
  | BodyError e => Err (HTTPError (re_Status re) e)
  | b => match value b with Some t => Ok t | None => Err notABody end
  end.

Definition registered (b : body) := match b with BodyRegister r => Some r | _ => None end.
Definition assigned (b : body) := match b with BodyHeartbeat r => Some r | _ => None end.
Definition reported (b : body) := match b with BodyReport r => Some r | _ => None end.

(** A handler's response: a value of its kind, or a rejection. *)
Definition proper {T} (value : body -> option T) (re : response) : Prop :=
  match re_Body re with
  | BodyError _ => 400 <= re_Status re <= 599
  | b => re_Status re = 200 /\ is_Some (value b)
  end.

Lemma sent_received {M} `{WireMessage M} (m : M) limit : sent m limit -> exists data, Marshal m = Ok data /\
  DecodeAndValidate (mkReader data None) limit = Ok m /\ DecodeAndValidate (mkReader (data ++ [newline]) None) limit = Ok m.
Proof.
  intros (Hgood & Hv & data & Hm & Hlen). exists data. split; [done|].
  assert (Hrec : forall rest, rest = [] \/ rest = [newline] -> (length rest <= 1)%nat -> DecodeAndValidate (mkReader (data ++ rest) None) limit = Ok m).
  { intros rest Hrest Hl. destruct (marshal_received m rest Hgood Hrest) as (data' & Hm' & _ & Hd).
    assert (data' = data) as -> by congruence. rewrite Hd; [unfold received; by rewrite Hv|]. rewrite length_app. lia. }
  split; [|by apply Hrec; [right|]]. specialize (Hrec []). rewrite app_nil_r in Hrec. apply Hrec; [by left|cbn; lia].
Qed.

(** The reply of a handler is read back as what it says. *)
Lemma postMessage_said {Q T} `{WireMessage Q} `{WireMessage T} path (q : Q) exchange limit maxBytes (value : body -> option T) re :
  sent q limit -> (forall data, Marshal q = Ok data -> exchange data = Ok (writeReply re)) ->
  proper value re -> sendable maxBytes (re_Body re) ->
  (forall b t, value b = Some t -> sendable maxBytes b -> sent t maxBytes /\ bodyText b = Marshal t) ->
  postMessage (T := T) path q (Ok tt) exchange maxBytes = said value re.
Proof.
  intros (_ & Hv & data & Hm & _) Hex Hp Hs Hval. unfold postMessage. rewrite Hv, Hm. cbn [map_err mbind result_bind].
  rewrite (Hex _ Hm). cbn [mbind result_bind]. unfold proper in Hp. unfold said, writeReply.
  assert (Hok : forall t, value (re_Body re) = Some t -> re_Status re = 200 ->
    post path (Ok tt) (Ok (mkHTTPResponse (ht_StatusCode (writeReply re)) (ht_MediaType (writeReply re))
       (DecodeAndValidate (M := T) (ht_Body (writeReply re)) maxBytes) (DecodeAndValidate (ht_Body (writeReply re)) maxBytes))) = Ok t).
  { intros t Ht Hst. destruct (Hval _ _ Ht Hs) as [Hsent Htext].
    destruct (sent_received t maxBytes Hsent) as (text & Hmt & _ & Hback). unfold writeReply. rewrite Htext, Hmt.
    cbn [ht_StatusCode ht_MediaType ht_Body]. rewrite Hst, Hback. reflexivity. }
  destruct (re_Body re) as [r|r|r|r|e] eqn:Eb; try (destruct Hp as [Hst [t Ht]]; rewrite Ht; specialize (Hok t Ht Hst);
    unfold writeReply in Hok; rewrite Eb in Hok; exact Hok).
  cbn [sendable] in Hs. destruct (sent_received e maxBytes Hs) as (text & Hmt & _ & Hback). cbn [bodyText]. rewrite Hmt.
  unfold post. cbn [ht_StatusCode ht_MediaType ht_Body hs_StatusCode hs_MediaType hs_Value hs_Error map_err mbind result_bind].
  rewrite bool_decide_eq_true_2 by done. cbn [negb]. destruct (Z.eqb_spec (re_Status re) 200); [lia|]. cbn [negb].
  destruct (Z.ltb_spec (re_Status re) 400); [lia|]. destruct (Z.ltb_spec 599 (re_Status re)); [lia|]. cbn [orb].
  by rewrite Hback.
Qed.

(** ** What the handlers answer *)

Lemma writeSchedulerError_proper {T} (value : body -> option T) Error err : proper value (writeSchedulerError Error err).
Proof. unfold writeSchedulerError. repeat case_match; cbn; lia. Qed.

Section handlers.
Variable Error : error -> string.
Variables (s : scheduler) (now : Z) (ctxErr : taskSetKey -> option error).

Lemma registerWorker_proper q : proper registered (registerWorker Error s now (Ok q)).1.
Proof.
  unfold registerWorker. cbn [decodeRequest]. destruct (RegisterWorker _ _ _ _); cbn [fst]; [|apply writeSchedulerError_proper].
  cbn. eauto.
Qed.

Lemma heartbeat_proper q : proper assigned (heartbeat Error s now ctxErr (Ok q)).1.
Proof.
  unfold heartbeat. cbn [decodeRequest]. destruct (Worker s _); cbn [fst]; [|apply writeSchedulerError_proper].
  destruct (ValidateCapacity _ _); cbn [fst]; [|cbn; lia].
  destruct (OfferResources _ _ _ _ _ _) as [[s' l]|]; cbn [fst]; [|apply writeSchedulerError_proper]. cbn. eauto.
Qed.

Lemma taskSuccess_proper q : proper reported (taskSuccess Error s ctxErr (Ok q)).1.
Proof.
  unfold taskSuccess. cbn [decodeRequest]. destruct (ReportSuccess _ _ _); cbn [fst]; [|apply writeSchedulerError_proper]. cbn. eauto.
Qed.

Lemma taskFailure_proper q : proper reported (taskFailure Error s ctxErr (Ok q)).1.
Proof.
  unfold taskFailure. cbn [decodeRequest]. destruct (ReportFailure _ _ _); cbn [fst]; [|apply writeSchedulerError_proper]. cbn. eauto.
Qed.

(** A request is handled as it was sent. *)
Lemma roundTrip_received {Q} `{WireMessage Q} urlParse maxRequest jobs path e serve (q : Q) :
  route path = Some e ->
  (forall data, serveEndpoint Error urlParse s now ctxErr maxRequest jobs e data = Some (serveMessage maxRequest serve data)) ->
  sent q maxRequest -> forall data, Marshal q = Ok data ->
  roundTrip Error urlParse s now ctxErr maxRequest jobs path data = Ok (writeReply (serve (Ok q))).
Proof.
  intros Hr Hs Hq data Hm. destruct (sent_received q _ Hq) as (data' & Hm' & Hd & _). assert (data' = data) as -> by congruence.
  unfold roundTrip, ServeHTTP. rewrite Hr, bool_decide_eq_true_2 by done. cbn [negb]. rewrite Hs. unfold serveMessage. by rewrite Hd.
Qed.

(** C21. A call over HTTP is the call of the handler.  A worker's valid request, in
    a text within the coordinator's limit, is handled as that request; and if the
    response is a valid message within the client's limit, the client returns what
    the handler answered: the registration, the assignments or the acknowledgement
    after its own checks, or a rejection with its status, code and message. *)
Theorem calls_direct urlParse maxRequest maxResponse jobs :
  let exchange := roundTrip Error urlParse s now ctxErr maxRequest jobs in
  (forall q, sent (H := register_request_message urlParse) q maxRequest ->
     let re := (registerWorker Error s now (Ok q)).1 in sendable maxResponse (re_Body re) ->
     callRegister urlParse q (Ok tt) (exchange "/v1/workers/register") maxResponse = clientRegistration q (said registered re)) /\
  (forall q, sent q maxRequest ->
     let re := (heartbeat Error s now ctxErr (Ok q)).1 in sendable maxResponse (re_Body re) ->
     callHeartbeat q (Ok tt) (exchange "/v1/workers/heartbeat") maxResponse = clientHeartbeat q (said assigned re)) /\
  (forall q, sent q maxRequest ->
     let re := (taskSuccess Error s ctxErr (Ok q)).1 in sendable maxResponse (re_Body re) ->
     callSuccess q (Ok tt) (exchange "/v1/tasks/success") maxResponse = said reported re) /\
  (forall q, sent q maxRequest ->
     let re := (taskFailure Error s ctxErr (Ok q)).1 in sendable maxResponse (re_Body re) ->
     callFailure q (Ok tt) (exchange "/v1/tasks/failure") maxResponse = said reported re).
Proof.
  cbv zeta. split_and!; intros q Hq Hre; unfold callRegister, callHeartbeat, callSuccess, callFailure; try f_equal.
  - apply (postMessage_said (H := register_request_message urlParse) _ q _ maxRequest); [done| |apply registerWorker_proper|done|].
    + by apply (roundTrip_received (H := register_request_message urlParse)) with (e := EndRegister)
        (serve := fun q => (registerWorker Error s now q).1).
    + by intros [r|r|r|r|r] t; try done; intros [= <-].
  - apply (postMessage_said _ q _ maxRequest); [done| |apply heartbeat_proper|done|].
    + by apply roundTrip_received with (e := EndHeartbeat) (serve := fun q => (heartbeat Error s now ctxErr q).1).
    + by intros [r|r|r|r|r] t; try done; intros [= <-].
  - apply (postMessage_said _ q _ maxRequest); [done| |apply taskSuccess_proper|done|].
    + by apply roundTrip_received with (e := EndSuccess) (serve := fun q => (taskSuccess Error s ctxErr q).1).
    + by intros [r|r|r|r|r] t; try done; intros [= <-].
  - apply (postMessage_said _ q _ maxRequest); [done| |apply taskFailure_proper|done|].
    + by apply roundTrip_received with (e := EndFailure) (serve := fun q => (taskFailure Error s ctxErr q).1).
    + by intros [r|r|r|r|r] t; try done; intros [= <-].
Qed.
End handlers.

(** ** An example *)

(** A coordinator where the worker [w1] with two slots has registered. *)
Definition http_scheduler : scheduler :=
  match NewFIFOTaskScheduler [] example_run ≫= (fun s => RegisterWorker s "w1" 2 0) with
  | Ok s => s
  | Err _ => mkScheduler 0 "" ∅ ∅ [] ∅ 0 0%N false
  end.
Definition http_exchange : string -> list N -> result httpReply :=
  roundTrip (fun _ => "error"%string) (fun _ => None) http_scheduler 1 (fun _ => None) (2 ^ 20) (fun _ => None).
Definition http_heartbeat : HeartbeatRequest := mkHeartbeat "w1" 2 (Some []).
Definition http_unknown : HeartbeatRequest := mkHeartbeat "w2" 2 (Some []).

Lemma heartbeat_sent (q : HeartbeatRequest) : message_good q -> message_validate q = Ok tt ->
  match Marshal q with Ok data => Z.of_nat (length data) <? 2 ^ 20 | Err _ => false end = true -> sent q (2 ^ 20).
Proof.
  intros Hg Hv. destruct (Marshal q) as [data|] eqn:E; [|done]. intros Hlt%Z.ltb_lt. split; [done|]. split; [done|].
  exists data. split; [done|]. lia.
Qed.

(** A heartbeat of a known worker, and one of an unknown worker. *)
Lemma calls_direct_witness :
  callHeartbeat http_heartbeat (Ok tt) (http_exchange "/v1/workers/heartbeat") (2 ^ 20) = Ok (mkHeartbeatResponse (Some [])) /\
  callHeartbeat http_unknown (Ok tt) (http_exchange "/v1/workers/heartbeat") (2 ^ 20) =
    Err (HTTPError 404 (mkErrorResponse CodeNotFound "error")).
Proof.
  destruct (calls_direct (fun _ => "error"%string) http_scheduler 1 (fun _ => None) (fun _ => None) (2 ^ 20) (2 ^ 20) (fun _ => None))
    as (_ & Hcall & _).
  assert (Hgood : forall id, utf8_Valid (bytes_of id) = true -> message_good (mkHeartbeat id 2 (Some []))).
  { intros id Hid. repeat split; try done. constructor. }
  split.
  - unfold http_exchange. rewrite Hcall.
    + vm_compute. reflexivity.
    + apply heartbeat_sent; [by apply Hgood|vm_compute; reflexivity|vm_compute; reflexivity].
    + split; [repeat split; try done; constructor|]. split; [vm_compute; reflexivity|].
      eexists. split; [vm_compute; reflexivity|]. split; vm_compute; reflexivity.
  - unfold http_exchange. rewrite Hcall.
    + vm_compute. reflexivity.
    + apply heartbeat_sent; [by apply Hgood|vm_compute; reflexivity|vm_compute; reflexivity].
    + split; [repeat split; try done|]. split; [vm_compute; reflexivity|].
      eexists. split; [vm_compute; reflexivity|]. split; vm_compute; reflexivity.
Defined.
