(* ===== verification/CommandProofs.v ===== *)
(** * CommandProofs: the text of a result is not changed on its way

    [compact], which [json.Marshal] applies to a raw message, leaves the text that
    [json.Marshal] itself made of a record as it is: what a worker encodes reaches
    the client of a job byte by byte. *)

From S2P Require Import Prelude Bytes Plan Stages Shuffle Reports Runtime Json JsonProofs ExampleFuncs.
From S2P Require Import Dag Coordinator Wire WireProofs.
#[local] Open Scope Z_scope.

(** ** Bytes [compact] copies *)

(** A byte that is copied whatever follows. *)
Definition plain (inString : bool) (b : N) : bool :=
  negb ((b =? 34) || (b =? 60) || (b =? 62) || (b =? 38) || (b =? 226))%N &&
  negb (if inString then (b =? 92)%N else is_space b).

Lemma compact_plain s b t : plain s b = true -> compact s (b :: t) = b :: compact s t.
Proof.
  unfold plain. rewrite andb_true_iff, !negb_true_iff, !orb_false_iff. intros [[[[[H1 H2] H3] H4] H5] H6].
  cbn [compact]. rewrite H1, H2, H3, H4, H5. destruct s; rewrite ?H6, ?andb_false_r; cbn;
    destruct t as [|c [|d t]]; done.
Qed.

Lemma compact_plains s p t : forallb (plain s) p = true -> compact s (p ++ t) = p ++ compact s t.
Proof.
  induction p as [|b p IH]; [done|]. cbn [forallb app]. intros [Hb Hp]%andb_true_iff.
  by rewrite compact_plain, IH.
Qed.

(** ** Strings *)

Definition same_in (p : list N) : Prop := forall t, compact true (p ++ t) = p ++ compact true t.

(** Plain bytes, or an escape and plain bytes. *)
Definition escaped (p : list N) : bool :=
  forallb (plain true) p ||
  match p with b :: _ :: es => (b =? 92)%N && forallb (plain true) es | _ => false end.

Lemma escaped_same p : escaped p = true -> same_in p.
Proof.
  unfold escaped. intros [H|H]%orb_true_iff t; [by apply compact_plains|].
  destruct p as [|b [|e es]]; [done..|]. apply andb_true_iff in H as [->%N.eqb_eq H].
  cbn [app compact]. change ((92 =? 92)%N && true) with true. cbn beta iota. by rewrite compact_plains.
Qed.

Lemma escape_same b : (b < 128)%N -> same_in (escapeByte b).
Proof.
  intros Hb. apply escaped_same. revert b Hb. apply (below 128). apply (bool_decide_unpack _). vm_compute. exact I.
Qed.

Lemma high_plain b : (128 <= b)%N -> b <> 226%N -> plain true b = true.
Proof.
  intros Hb Hn. unfold plain. rewrite andb_true_iff, !negb_true_iff, !orb_false_iff, !N.eqb_neq. lia.
Qed.

Lemma copy_same p : Forall (fun b => (128 <= b)%N /\ b <> 226%N) p -> same_in p.
Proof.
  intros Hp t. apply compact_plains. apply forallb_forall. intros b Hb%list_elem_of_In.
  rewrite Forall_forall in Hp. by apply high_plain; apply Hp.
Qed.

Lemma escape3_same b0 b1 b2 : valid3 b0 b1 b2 = true -> same_in (escape3 b0 b1 b2).
Proof.
  unfold valid3, cont, escape3. rewrite !andb_true_iff. intros ((H0%in_range_ge & H1%in_range_ge) & H2%in_range_ge).
  destruct (_ && _ && _) eqn:E.
  - rewrite !andb_true_iff, orb_true_iff, !N.eqb_eq in E. destruct E as ((-> & ->) & [-> | ->]); by apply escaped_same.
  - assert (Hb1 : (128 <= b1 < 226)%N) by (destruct (b0 =? 224)%N, (b0 =? 237)%N; lia).
    destruct (N.eq_dec b0 226%N) as [->|Hne].
    + intros t. change (226 =? 226)%N with true in E. cbn [andb] in E. cbn [app]. cbn [compact].
      change (226 =? 92)%N with false. change (226 =? 34)%N with false. change (is_space 226%N) with false.
      change (226 =? 60)%N with false. change (226 =? 62)%N with false. change (226 =? 38)%N with false.
      change (226 =? 226)%N with true. cbn [andb orb]. rewrite E.
      f_equal. apply (compact_plains true [b1; b2]). cbn [forallb]. by rewrite !high_plain by lia.
    + apply copy_same. repeat constructor; lia.
Qed.

Lemma quote_same bs t : compact true (quote bs ++ 34%N :: t) = quote bs ++ 34%N :: compact false t.
Proof.
  remember (length bs) as n eqn:En. revert bs En. induction (lt_wf n) as [n _ IH]. intros bs ->.
  assert (Hrec : forall p u, same_in p -> (length u < length bs)%nat ->
    compact true ((p ++ quote u) ++ 34%N :: t) = (p ++ quote u) ++ 34%N :: compact false t).
  { intros p u Hp Hu. rewrite <- !app_assoc, Hp, (IH (length u) Hu u eq_refl). done. }
  destruct bs as [|b bs]; [done|].
  destruct (piece_of b bs) as [Hb|b1 u Hb -> E2|b1 b2 u Hb -> E2 E3|b1 b2 b3 u Hb -> E2 E3 E4|Hb (Hq & _)].
  - cbn [quote]. destruct (N.ltb_spec b 128); [|lia]. apply Hrec; [by apply escape_same|cbn; lia].
  - change (quote (b :: b1 :: u)) with (quote ([b; b1] ++ u)). replace (quote ([b; b1] ++ u)) with ([b; b1] ++ quote u).
    + apply Hrec; [|cbn; lia]. apply copy_same. unfold valid2, cont in E2. apply andb_true_iff in E2 as [?%in_range_ge ?%in_range_ge].
      repeat constructor; lia.
    + by rune_cases.
  - replace (quote (b :: b1 :: b2 :: u)) with (escape3 b b1 b2 ++ quote u).
    + apply Hrec; [by apply escape3_same|cbn; lia].
    + by rune_cases.
  - replace (quote (b :: b1 :: b2 :: b3 :: u)) with ([b; b1; b2; b3] ++ quote u).
    + apply Hrec; [|cbn; lia]. apply copy_same. unfold valid4, cont in E4. rewrite !andb_true_iff in E4.
      destruct E4 as (((?%in_range_ge & Hr%in_range_ge) & ?%in_range_ge) & ?%in_range_ge).
      repeat constructor; try lia; destruct (b =? 240)%N, (b =? 244)%N; lia.
    + by rune_cases.
  - rewrite Hq. apply Hrec; [by apply escaped_same|cbn; lia].
Qed.

(** ** Numbers *)

(** [f] returns plain bytes only. *)
Definition gives_plain (f : list N -> result (list N * list N)) : Prop :=
  forall bs n r, f bs = Ok (n, r) -> forallb (plain false) n = true.

Lemma digit_plain b : is_digit b = true -> plain false b = true.
Proof.
  intros Hb%in_range_ge. unfold plain, is_space. rewrite andb_true_iff, !negb_true_iff, !orb_false_iff, !N.eqb_neq. lia.
Qed.

Lemma digits_plain bs : forallb (plain false) (digits bs).1 = true.
Proof.
  induction bs as [|b bs IH]; [done|]. cbn. destruct (is_digit b) eqn:E; [|done].
  destruct (digits bs) as [ds r]. cbn in *. by rewrite digit_plain.
Qed.

Lemma digits1_plain : gives_plain digits1.
Proof.
  intros bs n r. unfold digits1. pose proof (digits_plain bs) as H. destruct (digits bs) as [[|d ds] r']; [done|].
  by intros [= <- <-].
Qed.

Lemma part_after_plain marks f : forallb (plain false) marks = true -> gives_plain f -> gives_plain (part_after marks f).
Proof.
  intros Hm Hf [|b bs] n r; cbn; [by intros [= <- <-]|].
  destruct (existsb _ _) eqn:E; [|by intros [= <- <-]]. destruct (f bs) as [[ds r']|] eqn:Ef; [|done]. intros [= <- <-].
  apply existsb_exists in E as (m & Hin & ->%N.eqb_eq). rewrite forallb_forall in Hm. cbn.
  by rewrite (Hm _ Hin), (Hf _ _ _ Ef).
Qed.

Lemma after_plain f g : gives_plain f -> gives_plain g -> gives_plain (after f g).
Proof.
  intros Hf Hg bs n r. unfold after. destruct (f bs) as [[a r1]|] eqn:Ef; [|done]. cbn.
  destruct (g r1) as [[b r2]|] eqn:Eg; [|done]. cbn. intros [= <- <-]. by rewrite forallb_app, (Hf _ _ _ Ef), (Hg _ _ _ Eg).
Qed.

Lemma intPart_plain : gives_plain intPart.
Proof.
  intros [|b bs] n r; [done|]. cbn [intPart]. destruct (N.eqb_spec b 48) as [->|_]; [by intros [= <- <-]|apply digits1_plain].
Qed.

Lemma exponent_plain : gives_plain exponent.
Proof.
  intros [|b bs] n r; [done|]. destruct (_ || _) eqn:E; [|apply digits1_plain].
  destruct (digits1 bs) as [[ds r']|] eqn:Ed; [|done]. intros [= <- <-]. cbn. rewrite (digits1_plain _ _ _ Ed), andb_true_r.
  apply orb_true_iff in E as [->%N.eqb_eq| ->%N.eqb_eq]; done.
Qed.

Lemma unsignedNumber_plain : gives_plain unsignedNumber.
Proof.
  intros bs n r. rewrite unsignedNumber_after. revert bs n r.
  repeat first [apply after_plain | apply part_after_plain]; auto using intPart_plain, digits1_plain, exponent_plain.
Qed.

Lemma number_plain bs : isValidNumber bs = true -> forallb (plain false) bs = true.
Proof.
  unfold isValidNumber. destruct (parseNumber bs) as [[n [|]]|] eqn:E; try done. intros _.
  destruct (parseNumber_splits _ _ _ E) as (-> & _). rewrite app_nil_r in *. revert E.
  destruct n as [|b n]; [done|]. cbn [parseNumber]. destruct (N.eqb_spec b 45) as [->|_]; [|apply unsignedNumber_plain].
  destruct (unsignedNumber n) as [[ds r']|] eqn:Eu; [|done]. intros [= -> _]. cbn. by apply (unsignedNumber_plain _ _ _ Eu).
Qed.

(** ** Values *)

Definition same (p : list N) : Prop := forall t, compact false (p ++ t) = p ++ compact false t.

Lemma same_app p q : same p -> same q -> same (p ++ q).
Proof. intros Hp Hq t. by rewrite <- !app_assoc, Hp, Hq. Qed.

Lemma plain_same p : forallb (plain false) p = true -> same p.
Proof. intros H t. by apply compact_plains. Qed.

Lemma string_same s : same (encodeString s).
Proof.
  intros t. unfold encodeString. cbn [app]. rewrite <- app_assoc. cbn [app].
  change (34%N :: compact true (quote (bytes_of s) ++ 34%N :: t) = 34%N :: (quote (bytes_of s) ++ [34%N]) ++ compact false t).
  by rewrite quote_same, <- app_assoc.
Qed.

Lemma commas_same ps : Forall same ps -> same (commas ps).
Proof.
  induction 1 as [|p ps Hp Hps IH]; [done|]. destruct ps as [|p' ps]; [done|].
  change (commas (p :: p' :: ps)) with (p ++ [44%N] ++ commas (p' :: ps)).
  apply same_app; [done|]. apply same_app; [by apply plain_same|done].
Qed.

Lemma array_same ps : Forall same ps -> same ([91%N] ++ commas ps ++ [93%N]).
Proof. intros H. apply same_app; [by apply plain_same|]. apply same_app; [by apply commas_same|by apply plain_same]. Qed.

Lemma object_same ms : Forall same ms -> same (object ms).
Proof. intros H. apply same_app; [by apply plain_same|]. apply same_app; [by apply commas_same|by apply plain_same]. Qed.

Lemma member_same key p : same p -> same (member key p).
Proof. intros H. apply same_app; [apply string_same|]. apply same_app; [by apply plain_same|done]. Qed.

Lemma marshal_same v bs : marshal v = Ok bs -> same bs.
Proof.
  revert bs. induction v as [|b|s|z|z|s|key value IH|s|l IH|l IH|s] using any_nested; intros bs; cbn [marshal]; try done.
  - intros [= <-]. by apply plain_same.
  - intros [= <-]. by apply plain_same; destruct b.
  - intros [= <-]. apply string_same.
  - intros [= <-]. apply plain_same, number_plain, pretty_Z_number.
  - intros [= <-]. apply plain_same, number_plain, pretty_Z_number.
  - destruct (isValidNumber _) eqn:E; [|done]. intros [= <-]. by apply plain_same, number_plain.
  - destruct (marshal value) as [p|]; [|done]. intros [= <-]. apply object_same.
    apply Forall_cons_2; [apply member_same, string_same|]. apply Forall_cons_2; [|apply Forall_nil_2]. apply member_same. by apply IH.
  - intros (ps & Hps & ->)%marshal_array. apply array_same.
    induction Hps as [|v p l ps Hp Hps IHl]; [constructor|]. apply Forall_cons in IH as [Hv IH]. constructor; auto.
  - intros (ps & Hps & ->)%marshal_map. apply object_same.
    induction Hps as [|v p l ps Hp Hps IHl]; [constructor|]. apply Forall_cons in IH as [Hv IH].
    constructor; [apply member_same|]; auto.
Qed.

(** The text of a record may be sent as a raw message. *)
Lemma marshal_raw v bs : marshal v = Ok bs -> (nesting v <= rawDepth)%N -> raw_ok bs.
Proof.
  intros Hm Hn. split.
  - pose proof (marshal_same v bs Hm []) as H. by rewrite !app_nil_r in H.
  - exists (jsonWire v). eapply decodes_mono; [by apply marshal_decodes|done].
Qed.
