(* ===== verification/CommandTheorems.v ===== *)
(** * CommandTheorems: the commands agree

    A job prints the same run in one process or submitted to a cluster, what
    [cmd/explain] accepts, and how [cmd/coordinator] starts and stops. *)

From S2P Require Import Prelude Bytes Plan Lineage Stages Planner PlannerProofs Shuffle Reports Fifo Api Runtime TextSource.
From S2P Require Import Runner FileStore Json JsonProofs ExampleFuncs Protocol Dag Coordinator Worker.
From S2P Require Import Wire WireProofs Messages MessageTheorems Explain JobSpec Commands CommandProofs.
#[local] Open Scope Z_scope.

(** ** A submission over HTTP *)

Section submission.
(** The coordinator: the text of an error, [DAGScheduler.Run], the limit of a
    request.  The client's context does not end. *)
Variable Error : error -> string.
Variable run : runner.
Variable maxRequest : Z.

Definition serveJob (data : list N) : result httpReply :=
  match ServeHTTP "/v1/jobs" "POST" (fun _ =>
          Coordinator.submitJob Error true (Submit run (Some None)) None None None None
            (DecodeAndValidate (M := Spec) (mkReader data None) maxRequest)) with
  | Some r => Ok (writeReply r)
  | None => Err (Sentinel "EOF")
  end.

(** ** What the coordinator answers *)

(** The client gets the result that the job service returns, if it is the result of
    its action and is valid. *)
Lemma submitted_result spec data m maxBytes text :
  message_good spec -> Marshal spec = Ok data -> validateSpec spec = Ok tt ->
  Z.of_nat (length data) <= maxRequest < 2 ^ 63 - 1 ->
  Submit run (Some None) spec = Ok m -> jp_Action m = spec_Action spec -> validateJobResult m = Ok tt ->
  message_good m -> Marshal m = Ok text -> Z.of_nat (length text) < maxBytes < 2 ^ 63 - 1 ->
  Commands.submitJob (Ok tt) serveJob spec maxBytes = Ok m.
Proof.
  intros Hgood Hdata Hval Hlen Hsub Hact Hm Hmgood Htext Hmax.
  destruct (marshal_received spec [] Hgood (or_introl eq_refl)) as (data' & Hd & _ & Hrec).
  assert (data' = data) as -> by congruence. rewrite app_nil_r in Hrec. specialize (Hrec maxRequest Hlen).
  destruct (marshal_received m [newline] Hmgood (or_intror eq_refl)) as (text' & Ht & _ & Hback).
  assert (text' = text) as -> by congruence. specialize (Hback maxBytes).
  unfold Commands.submitJob. rewrite Hdata. cbn [map_err mbind result_bind]. unfold serveJob.
  change (ServeHTTP "/v1/jobs" "POST" ?f) with (f EndSubmit). unfold Coordinator.submitJob. cbn [negb].
  rewrite Hrec. unfold received. change (@message_validate Spec _) with validateSpec. rewrite Hval.
  cbn [map_err mbind result_bind decodeRequest setJobWriteDeadline]. rewrite Hsub. cbn beta iota.
  rewrite bool_decide_eq_false_2 by (by intros [? ?]). cbn beta iota. rewrite Hact, bool_decide_eq_true_2, Hm by done.
  cbn [negb orb is_Ok]. unfold writeReply, writeJSON. cbn [re_Body re_Status bodyText]. rewrite Htext.
  cbn [map_err mbind result_bind ht_StatusCode ht_MediaType ht_Body]. rewrite bool_decide_eq_true_2 by done.
  change (negb (StatusOK =? 200)) with false. cbn [negb]. rewrite Hback by (rewrite length_app; cbn; lia).
  unfold received. change (@message_validate JobResultResponse _) with validateJobResult. rewrite Hm.
  cbn [map_err mbind result_bind]. by rewrite Hact, bool_decide_eq_true_2.
Qed.
End submission.

(** ** The same result *)

(** What [Run] returns in one process and in a cluster, where the workers encode the
    records. *)
Record same_result (l c : Dag.JobResult) (texts : list string) : Prop := {
  sr_count : Dag.jr_Count c = Dag.jr_Count l;
  sr_range : 0 <= Dag.jr_Count l <= ExampleFuncs.MaxInt64;
  sr_texts : Forall2 (fun v s => marshal v = Ok (bytes_of s) /\ (nesting v <= rawDepth)%N) (default [] (Dag.jr_Records l)) texts;
  sr_raw : default [] (Dag.jr_Records c) = ARaw <$> texts }.

Lemma raw_texts l texts : Forall2 (fun v s => marshal v = Ok (bytes_of s) /\ (nesting v <= rawDepth)%N) l texts ->
  Forall (fun s => raw_ok (bytes_of s)) texts.
Proof.
  intros H. apply Forall_forall. intros s [i Hi]%list_elem_of_lookup_1.
  destruct (Forall2_lookup_r _ _ _ _ _ H Hi) as (v & _ & Hm & Hn). by eapply marshal_raw.
Qed.

Lemma raw_valid s : raw_ok (bytes_of s) -> Protocol.json_Valid s = true.
Proof.
  intros [_ [a [_ H]]]. unfold Protocol.json_Valid.
  specialize (H (S (2 * length (bytes_of s))) 0%N [] ltac:(lia) ltac:(done) I).
  rewrite app_nil_r in H. by rewrite H.
Qed.

Lemma marshalRecords_raw texts i : Forall (fun s => raw_ok (bytes_of s)) texts -> marshalRecords i (ARaw <$> texts) = Ok texts.
Proof.
  intros H. revert i. induction H as [|s texts Hs _ IH]; intros i; [done|]. cbn [fmap list_fmap marshalRecords marshalRecord].
  rewrite (raw_valid _ Hs). cbn [negb mbind result_bind map_err].
  destruct Hs as [Hc _]. by rewrite IH, Hc, string_of_bytes.
Qed.

(** *** The text of the result *)

Lemma marshal_raws texts : Forall (fun s => raw_ok (bytes_of s)) texts ->
  marshal_all (marshalType TRawMessage) (map (fun s => VRaw (bytes_of s)) texts) = Ok (bytes_of <$> texts).
Proof.
  induction 1 as [|s texts Hs _ IH]; [done|]. cbn [map marshal_all fmap list_fmap].
  rewrite (wr_marshal _ _ _ (wired_raw _ Hs)). cbn [mbind result_bind]. by rewrite IH.
Qed.

Lemma marshal_slice texts : Forall (fun s => raw_ok (bytes_of s)) texts ->
  marshalType (TSlice TRawMessage) (VSlice (Some (map (fun s => VRaw (bytes_of s)) texts))) = Ok (json_array (bytes_of <$> texts)).
Proof.
  intros H. change (marshalType (TSlice TRawMessage) (VSlice (Some ?l)))
    with (items ← marshal_all (marshalType TRawMessage) l; Ok (json_array items)). by rewrite (marshal_raws texts H).
Qed.

Lemma printRaw_texts texts : Forall (fun s => raw_ok (bytes_of s)) texts ->
  printRaw (Some texts) = Ok (json_array (bytes_of <$> texts) ++ [newline]).
Proof. intros H. unfold printRaw. cbn [fmap option_fmap option_map]. by rewrite (marshal_slice texts H). Qed.

Lemma printRecords_texts l texts :
  Forall2 (fun v s => marshal v = Ok (bytes_of s) /\ (nesting v <= rawDepth)%N) l texts ->
  printRecords l = Ok (json_array (bytes_of <$> texts) ++ [newline]).
Proof.
  intros H. unfold printRecords. cbn [marshal].
  assert (E : forall go, go = (fix all (l : list any) : result (list (list N)) :=
    match l with [] => Ok [] | v :: l => p ← marshal v; ps ← all l; Ok (p :: ps) end) -> go l = Ok (bytes_of <$> texts)).
  { intros go ->. induction H as [|v s l texts [Hm _] _ IH]; [done|]. cbn [fmap list_fmap]. rewrite Hm. cbn [mbind result_bind]. by rewrite IH. }
  by rewrite (E _ eq_refl).
Qed.

(** The response is the printed text with a little around it. *)
Lemma count_text n : Marshal (mkJobResult ActionCount None n) =
  Ok (object [member "action" (encodeString "count"); member "records" (bytes_of "null"); member "count" (bytes_of (pretty n))]).
Proof. reflexivity. Qed.

Lemma collect_text texts : Forall (fun s => raw_ok (bytes_of s)) texts -> Marshal (mkJobResult ActionCollect (Some texts) 0) =
  Ok (object [member "action" (encodeString "collect"); member "records" (json_array (bytes_of <$> texts)); member "count" (bytes_of "0")]).
Proof.
  intros H. change (Marshal (mkJobResult ActionCollect (Some texts) 0)) with
    (ms ← (ps ← (p ← marshalType (TSlice TRawMessage) (VSlice (Some (map (fun s => VRaw (bytes_of s)) texts)));
                 Ok [member "records" p; member "count" (bytes_of "0")]);
           Ok (member "action" (encodeString "collect") :: ps)); Ok (object ms)).
  by rewrite (marshal_slice texts H).
Qed.

(** ** What both print *)

Lemma runLocal_Ok lf file store closed run spec out :
  Decode (Some file) = Ok spec -> runLocal lf (Ok file) store closed run = (out, None) ->
  exists registry, runJob (run registry spec (lo_MaxStageAttempts lf)) spec = Ok out.
Proof.
  intros Hd. unfold runLocal. destruct (negb (lo_NArg lf =? 0)); [done|]. destruct (lo_MaxStageAttempts lf <=? 0); [done|].
  destruct (bool_decide (lo_Job lf = "")); [done|]. cbn [map_err mbind result_bind]. rewrite Hd. cbn [mbind result_bind].
  destruct exampleRegistry as [registry|]; [|done]. cbn [mbind result_bind]. intros H. exists registry.
  destruct (runJob _ spec) as [text|err].
  - destruct (bool_decide (lo_ShuffleRoot lf = "")); [by injection H as ->|]. destruct store; [|done]. by injection H as -> _.
  - destruct (bool_decide (lo_ShuffleRoot lf = "")); [done|]. destruct store; [|done]. exfalso. revert H.
    unfold errors_Join. by destruct closed.
Qed.

(** What the client prints of a result. *)
Definition printed (m : JobResultResponse) : result (list N) :=
  if bool_decide (jp_Action m = ActionCount) then Ok (printCount (jp_Count m)) else printRaw (jp_Records m).

Lemma object_length p q r : length (object [p; q; r]) = (length p + length q + length r + 4)%nat.
Proof. unfold object. cbn [commas]. rewrite !length_app. cbn [length]. lia. Qed.

Lemma member_length key p n : length (encodeString key) = n -> length (member key p) = (n + 1 + length p)%nat.
Proof. unfold member. rewrite !length_app. cbn [length]. lia. Qed.

Lemma collected_valid texts : Forall (fun s => raw_ok (bytes_of s)) texts ->
  validateJobResult (mkJobResult ActionCollect (Some texts) 0) = Ok tt.
Proof.
  intros H. unfold validateJobResult. cbn [jp_Records jp_Count jp_Action]. unfold validateTaskOutput.
  cbn [po_ShuffleOutput po_Records po_Count default]. change (0 <? 0) with false. change (negb (0 =? 0)) with false.
  rewrite andb_false_r. cbn [mbind result_bind].
  rewrite (proj2 (check_all_Ok _ 0 texts)); [done|]. intros j s Hj. rewrite raw_valid; [done|].
  rewrite Forall_forall in H. by eapply H, list_elem_of_lookup_2.
Qed.

Lemma same_printed run_l run_c spec out :
  (forall g a l, run_l g a = Ok l -> exists c texts, run_c g a = Ok c /\ same_result l c texts) ->
  runJob run_l spec = Ok out ->
  exists m text, Submit run_c (Some None) spec = Ok m /\ jp_Action m = spec_Action spec /\ validateJobResult m = Ok tt /\
    message_good m /\ Marshal m = Ok text /\ (length text < length out + 64)%nat /\ printed m = Ok out.
Proof.
  intros Hrun. unfold runJob, Submit. destruct (Build spec NewRDDGraph) as [[rdd|err] g]; [|done].
  destruct (spec_Action spec) eqn:Ha; [| |done].
  - unfold Collect, runCollect. destruct (run_l g _) as [l|] eqn:El; [|done]. cbn [mbind result_bind map_err].
    destruct (Hrun _ _ _ El) as (c & texts & -> & [_ _ Ht Hraw]). cbn [mbind result_bind map_err].
    rewrite (printRecords_texts _ _ Ht). intros [= <-]. pose proof (raw_texts _ _ Ht) as Hok.
    rewrite Hraw, marshalRecords_raw by done. cbn [mbind result_bind].
    do 2 eexists. split; [done|]. split; [done|]. split; [by apply collected_valid|]. split; [by repeat split|].
    split; [by apply collect_text|]. split; [|by apply printRaw_texts].
    change (91%N :: (commas (bytes_of <$> texts) ++ [93%N]) ++ [newline]) with (json_array (bytes_of <$> texts) ++ [newline]).
    rewrite object_length, (member_length "action" _ 8), (member_length "records" _ 9), (member_length "count" _ 7), length_app by done.
    change (length (encodeString "collect")) with 9%nat. cbn [length bytes_of]. lia.
  - unfold Count, runCount. destruct (run_l g _) as [l|] eqn:El; [|done]. cbn [mbind result_bind map_err].
    destruct (Hrun _ _ _ El) as (c & texts & -> & [Hc Hr _ _]). cbn [mbind result_bind map_err].
    intros [= <-]. rewrite Hc. do 2 eexists. split; [done|]. split; [done|]. split.
    { unfold validateJobResult, validateTaskOutput. cbn. by destruct (Z.ltb_spec (Dag.jr_Count l) 0); [lia|]. }
    split; [by repeat split; cbn; unfold ExampleFuncs.MinInt64; lia|]. split; [by apply count_text|]. split; [|done].
    unfold printCount. rewrite object_length, (member_length "action" _ 8), (member_length "records" _ 9), (member_length "count" _ 7), length_app by done.
    change (length (encodeString "count")) with 7%nat. cbn [length bytes_of]. lia.
Qed.

(** ** Properties *)

(** The flags of both commands name the same job: its file passes the strict decoder
    of [cmd/submit], and its request is within the coordinator's limit. *)
Record same_job (sf : submitFlags) (file : reader) (maxRequest : Z) (spec : Spec) (endpoint : string) : Prop := {
  sj_submit : su_NArg sf = 0 /\ su_Job sf <> "" /\ 0 < su_RequestTimeout sf /\ 0 < su_MaxResponseBytes sf < 2 ^ 63 - 1;
  sj_url : submissionURL (su_Coordinator sf) (su_CoordinatorText sf) = Ok endpoint;
  sj_spec : DecodeAndValidate (M := Spec) file (2 ^ 20) = Ok spec;
  sj_size : exists data, Marshal spec = Ok data /\ Z.of_nat (length data) <= maxRequest < 2 ^ 63 - 1 }.

(** C14.  A job that both commands accept prints the same, run in one process or
    submitted to a cluster.  [cmd/submit] reads the file with the strict decoder,
    which [cmd/local] does not use: let the file pass it, within its limit of 1 MiB,
    let the flags of [cmd/submit] be valid and let the request and the output fit
    the limits of the coordinator and of the response.  If [cmd/local] then prints
    the result of the job, [cmd/submit] prints the very same bytes, whenever the two
    schedulers return the same result, the workers having encoded its records:
    decoding, building, encoding, sending and printing change nothing.  (A file that
    only [cmd/local] accepts, with a repeated field or a name in other case or
    larger than the limit, is rejected by [cmd/submit].) *)
Theorem same_output Error maxRequest sf lf file spec endpoint store run_local run_cluster out :
  same_job sf file maxRequest spec endpoint ->
  (forall registry g a l, run_local registry spec (lo_MaxStageAttempts lf) g a = Ok l ->
     exists c texts, run_cluster g a = Ok c /\ same_result l c texts) ->
  runLocal lf (Ok file) store None run_local = (out, None) ->
  Z.of_nat (length out) + 64 <= su_MaxResponseBytes sf ->
  runSubmit sf None (Ok file) (fun _ => Ok tt) (fun _ => serveJob Error run_cluster maxRequest) = Ok out.
Proof.
  intros [(Hn & Hj & Ht & Hmax) Hurl Hspec (data & Hdata & Hlen)] Hrun Hlocal Hout.
  pose proof (Decode_good _ _ (accepted_decodes _ _ _ Hspec)) as Hgood.
  destruct (runLocal_Ok lf file store None run_local spec out (accepted_decodes _ _ _ Hspec) Hlocal) as [registry Hjob].
  destruct (same_printed _ run_cluster spec out (fun g a l => Hrun registry g a l) Hjob)
    as (m & text & Hsub & Hact & Hvalid & Hm & Htext & Hlt & Hprint).
  pose proof Hspec as ([_ _] & _ & _ & _ & _ & _ & _ & _ & _ & Hval)%accepted_strict.
  unfold runSubmit. rewrite Hn. cbn [negb Z.eqb mbind result_bind].
  rewrite bool_decide_eq_false_2 by done. destruct (Z.leb_spec (su_RequestTimeout sf) 0); [lia|].
  destruct (Z.leb_spec (su_MaxResponseBytes sf) 0); [lia|]. destruct (Z.eqb_spec (su_MaxResponseBytes sf) (2 ^ 63 - 1)); [lia|].
  cbn [orb]. rewrite Hurl. cbn [mbind result_bind map_err]. rewrite Hspec. cbn [mbind result_bind map_err].
  rewrite (submitted_result Error run_cluster maxRequest spec data m _ text); try done. lia.
Qed.

(** A job that collects the lines of a file; the cluster's workers encode them. *)
Definition collect_job : reader :=
  mkReader (bytes_of (
    "{" +:+ quoteString "source" +:+ ":{" +:+ quoteString "path" +:+ ":" +:+ quoteString "in" +:+ "," +:+
    quoteString "num_partitions" +:+ ":1}," +:+ quoteString "action" +:+ ":" +:+ quoteString "collect" +:+ "}") ++ [newline]) None.

Definition collect_spec : Spec := mkSpec (mkSource "in" 1) [] ActionCollect.

Definition run_one : runner := fun _ _ => Ok (Dag.mkResult (Some [AString "a<b"; AInt 7]) 0).
Definition run_many : runner := fun _ _ =>
  Ok (Dag.mkResult (Some [ARaw (string_of (encodeString "a<b")); ARaw "7"]) 0).

Definition submit_flags : submitFlags :=
  mkSubmitFlags 0 (Some (mkURL "http" "coordinator" false "" "" "" false "" "")) "http://coordinator" "job.json" 1000 1048576.
Definition local_flags : localFlags := mkLocalFlags 0 "" 2 "job.json".

Lemma same_output_witness :
  runSubmit submit_flags None (Ok collect_job) (fun _ => Ok tt) (fun _ => serveJob (fun _ => "failed") run_many 1048576) =
  Ok ([91%N] ++ encodeString "a<b" ++ bytes_of ",7]" ++ [newline]).
Proof.
  apply (same_output (fun _ => "failed") 1048576 submit_flags local_flags collect_job collect_spec
    "http://coordinator/v1/jobs" (Ok tt) (fun _ _ _ => run_one) run_many).
  - split.
    + repeat split; done.
    + vm_compute. reflexivity.
    + vm_compute. reflexivity.
    + exists (match Marshal collect_spec with Ok data => data | Err _ => [] end). split; [vm_compute; reflexivity|].
      vm_compute. split; [discriminate|reflexivity].
  - intros registry g a l E. injection E as <-. eexists _, [string_of (encodeString "a<b"); "7"]. split; [reflexivity|].
    split; [reflexivity|vm_compute; split; discriminate| |reflexivity].
    repeat constructor; vm_compute; discriminate.
  - vm_compute. reflexivity.
  - vm_compute. discriminate.
Defined.

(** [cmd/explain] always returns.  It succeeds exactly on the files that
    [jobspec.Decode] takes and whose functions are all registered, and then prints
    the lineage of the job followed by its stage plan, which has the promised
    shape. *)
Theorem explain_returns job file :
  job <> "" ->
  (forall spec, Decode (Some file) = Ok spec -> (N.of_nat (length (spec_Transformations spec)) + 1 < 2 ^ 64)%N) ->
  exists r, runExplain job (Ok file) = Some r /\
    match r with
    | Ok text =>
        exists spec registry rdd g lineage p, Decode (Some file) = Ok spec /\ exampleRegistry = Ok registry /\
          Build spec NewRDDGraph = (Ok rdd, g) /\ functions_registered g rdd (registryLookup registry) /\
          ExplainLineage (Some g) rdd = Some (Ok lineage) /\ plan_ok g (mkAction (spec_Action spec) rdd) p /\
          text = lineage +:+ ExplainStagePlan p
    | Err _ =>
        forall spec registry rdd g, Decode (Some file) = Ok spec -> exampleRegistry = Ok registry ->
          Build spec NewRDDGraph = (Ok rdd, g) -> ~ functions_registered g rdd (registryLookup registry)
    end.
Proof.
  intros Hj Hlen. unfold runExplain. rewrite bool_decide_eq_false_2 by done. cbn [map_err mbind result_bind].
  destruct (Decode (Some file)) as [spec|err] eqn:Ed; [|eexists; split; [done|]; by intros].
  cbn [mbind result_bind]. destruct exampleRegistry as [registry|err] eqn:Er; [|eexists; split; [done|]; by intros].
  cbn [mbind result_bind]. pose proof Ed as [Hs _]%decoded_valid.
  destruct (Build_Ok spec Hs (Hlen spec eq_refl)) as (rdd & g & l & src & Hb & [Hwf Hl _] & _). rewrite Hb.
  destruct (ExplainLineage_Ok g rdd Hwf Hl) as [lineage Ht]. unfold RDD_ExplainLineage. rewrite Ht. cbn [fmap option_fmap option_map map_err fbind].
  destruct (PlanAction_total g Hwf (registryLookup registry) (mkAction (spec_Action spec) rdd)) as (r & Hr & Hp).
  unfold RDD_PlanStages. rewrite Hr. cbn [fmap option_fmap option_map]. destruct r as [p|err]; cbn [map_err fbind].
  - destruct Hp as (Hp & _ & _ & Hf). eexists. split; [done|]. by exists spec, registry, rdd, g, lineage, p.
  - eexists. split; [done|]. intros spec' registry' rdd' g' [= <-] [= <-] E Hf. apply Hp. split; [apply Hs|].
    rewrite Hb in E. by injection E as <- <-.
Qed.

Lemma explain_returns_witness : exists text, runExplain "job.json" (Ok collect_job) = Some (Ok text) /\
  text = "== RDD Lineage ==" +:+ nl +:+ "RDD 0 TextFile[1] operator=source source=" +:+ quoteString "in" +:+ nl +:+
         "== Stage DAG ==" +:+ nl +:+ "Target RDD 0" +:+ nl +:+ "Stage 0 kind=result partitions=1 parents=[] tasks=1" +:+ nl +:+
         "  Pipeline: RDD 0 source" +:+ nl +:+ "  Action: collect target=RDD 0" +:+ nl.
Proof.
  destruct (explain_returns "job.json" collect_job) as (r & Hr & _).
  - discriminate.
  - intros spec E. vm_compute in E. injection E as <-. vm_compute. reflexivity.
  - pose proof Hr as H. vm_compute in H. injection H as E. rewrite Hr, <- E. eexists. split; [reflexivity|].
    vm_compute. reflexivity.
Defined.

(** ** The coordinator *)

#[export] Instance coordinatorCall_eq_dec : EqDecision coordinatorCall.
Proof. solve_decision. Defined.

(** The calls before the first [b]. *)
Fixpoint until (b : coordinatorCall) (calls : list coordinatorCall) : list coordinatorCall :=
  match calls with
  | [] => []
  | c :: calls => if decide (c = b) then [] else c :: until b calls
  end.

Definition precedes (a b : coordinatorCall) (calls : list coordinatorCall) : Prop := b ∈ calls /\ a ∈ until b calls.

Lemma checkCoordinatorFlags_spec f : checkCoordinatorFlags f = Ok tt ->
  co_Listen f <> "" /\ 0 < co_JobTimeout f /\ 0 < co_MaxTaskAttempts f /\ 0 < co_MaxStageAttempts f /\
  0 < co_WorkerCheckInterval f <= co_WorkerTimeout f.
Proof.
  unfold checkCoordinatorFlags. destruct (negb _); [done|]. case_bool_decide; [done|]. cbn [orb].
  destruct (Z.leb_spec (co_JobTimeout f) 0); [done|]. destruct (Z.leb_spec (co_ShutdownTimeout f) 0); [done|]. cbn [orb].
  destruct (Z.leb_spec (co_MaxTaskAttempts f) 0); [done|]. destruct (Z.leb_spec (co_MaxStageAttempts f) 0); [done|]. cbn [orb].
  destruct (Z.leb_spec (co_WorkerTimeout f) 0); [done|]. destruct (Z.leb_spec (co_WorkerCheckInterval f) 0); [done|]. cbn [orb].
  destruct (Z.ltb_spec (co_WorkerTimeout f) (co_WorkerCheckInterval f)); [done|]. intros _. by split_and!.
Qed.

(** Only listening can fail. *)
Lemma startCoordinator_spec f run listen : checkCoordinatorFlags f = Ok tt ->
  match listen (co_Listen f) with
  | Err err => startCoordinator f run listen = ([CallCloseJobs; CallCloseTasks], Err (Errorf "listen: %w" [FWrap err]))
  | Ok _ => exists p,
      startCoordinator f run listen = ([CallStopMonitor; CallCloseListener; CallCloseJobs; CallCloseTasks], Ok p) /\
      maxTaskAttempts (cp_Tasks p) = co_MaxTaskAttempts f /\ dag_maxStageAttempts (cp_Jobs p) = co_MaxStageAttempts f /\
      cf_Addr (cp_Server p) = co_Listen f /\ cf_JobTimeout (cp_Server p) = co_JobTimeout f /\
      cp_Monitor p = mkMonitorConfig (co_WorkerTimeout f) (co_WorkerCheckInterval f)
  end.
Proof.
  intros (Hl & Hj & Ht & Hs & Hc)%checkCoordinatorFlags_spec. unfold startCoordinator.
  assert (exists registry, exampleRegistry = Ok registry) as [registry ->].
  { assert (Hok : is_Ok exampleRegistry = true) by (vm_compute; reflexivity).
    destruct exampleRegistry as [registry|]; [by exists registry|done]. }
  unfold NewFIFOTaskScheduler, NewDAGScheduler, resolveSchedulerOptions, NewJobService. cbn [foldl mbind result_bind applyOption negb].
  destruct (Z.leb_spec (co_MaxTaskAttempts f) 0); [lia|]. destruct (Z.leb_spec (co_MaxStageAttempts f) 0); [lia|].
  cbn [mbind result_bind]. unfold NewServer. cbn [negb cf_MaxRequestBytes cf_ReadHeaderTimeout cf_ReadTimeout cf_WriteTimeout cf_IdleTimeout cf_JobTimeout cf_Addr].
  change (0 <? 0) with false. change (0 =? MaxInt64) with false. cbn [orb].
  destruct (Z.ltb_spec (co_JobTimeout f) 0); [lia|]. rewrite bool_decide_eq_false_2 by done. cbn [mbind result_bind cf_Addr].
  destruct (listen (co_Listen f)); [|done]. unfold NewWorkerMonitor, or_default. cbn [negb mc_WorkerTimeout mc_CheckInterval].
  destruct (Z.ltb_spec (co_WorkerTimeout f) 0); [lia|]. destruct (Z.ltb_spec (co_WorkerCheckInterval f) 0); [lia|]. cbn [orb].
  destruct (Z.eqb_spec (co_WorkerTimeout f) 0); [lia|]. destruct (Z.eqb_spec (co_WorkerCheckInterval f) 0); [lia|].
  destruct (Z.ltb_spec (co_WorkerTimeout f) (co_WorkerCheckInterval f)); [lia|].
  eexists. split; [done|]. cbn. by destruct (Z.eqb_spec (co_JobTimeout f) 0); [lia|].
Qed.

Lemma drained e shutdown served : e = EndContext \/ e = EndMonitor None ->
  let '(calls, err) := drainCoordinator shutdown served in
  let calls := ([CallStopMonitor; CallCloseJobs] ++ calls) ++ [CallStopMonitor; CallCloseListener; CallCloseJobs; CallCloseTasks] in
  last calls = Some CallCloseTasks /\ CallCloseListener ∈ calls /\ CallStopMonitor ∈ calls /\
  (precedes CallCloseJobs CallCloseServer calls \/
   precedes CallCloseJobs CallShutdown calls /\ precedes CallStopMonitor CallCloseJobs calls) /\
  (err = None <-> (e = EndContext \/ e = EndMonitor None) /\ shutdown = None /\ errors_Is served ErrServerClosed = true).
Proof.
  intros He. unfold drainCoordinator. destruct shutdown as [err|]; [|destruct (errors_Is served ErrServerClosed) eqn:Es].
  - split_and!; [done|set_solver|set_solver|right; split; split; set_solver|naive_solver].
  - split_and!; [done|set_solver|set_solver|right; split; split; set_solver|naive_solver].
  - split_and!; [done|set_solver|set_solver|right; split; split; set_solver|naive_solver].
Qed.

(** Flags that [cmd/coordinator] accepts are what its parts run with: nothing
    but listening can fail.  However it ends, the server is closed or drained, jobs
    are stopped before the server is drained, the task scheduler is closed last,
    and there is an error unless the end was asked for and everything drained. *)
Theorem coordinator_lifecycle f run listen e shutdown served :
  checkCoordinatorFlags f = Ok tt ->
  (forall err, listen (co_Listen f) = Err err ->
     runCoordinator f None run listen e shutdown served =
       ([CallCloseJobs; CallCloseTasks], Some (Errorf "listen: %w" [FWrap err]))) /\
  (listen (co_Listen f) = Ok tt ->
     (exists deferred p, startCoordinator f run listen = (deferred, Ok p) /\
        maxTaskAttempts (cp_Tasks p) = co_MaxTaskAttempts f /\ dag_maxStageAttempts (cp_Jobs p) = co_MaxStageAttempts f /\
        cf_Addr (cp_Server p) = co_Listen f /\ cf_JobTimeout (cp_Server p) = co_JobTimeout f /\
        cp_Monitor p = mkMonitorConfig (co_WorkerTimeout f) (co_WorkerCheckInterval f)) /\
     let '(calls, err) := runCoordinator f None run listen e shutdown served in
     last calls = Some CallCloseTasks /\ CallCloseListener ∈ calls /\ CallStopMonitor ∈ calls /\
     (precedes CallCloseJobs CallCloseServer calls \/
      precedes CallCloseJobs CallShutdown calls /\ precedes CallStopMonitor CallCloseJobs calls) /\
     (err = None <-> (e = EndContext \/ e = EndMonitor None) /\ shutdown = None /\ errors_Is served ErrServerClosed = true)).
Proof.
  intros Hf. pose proof (startCoordinator_spec f run listen Hf) as Hstart. unfold runCoordinator. rewrite Hf.
  cbn [is_Some]. rewrite bool_decide_eq_false_2 by (by intros [? ?]). split.
  - intros err Hl. rewrite Hl in Hstart. by rewrite Hstart.
  - intros Hl. rewrite Hl in Hstart. destruct Hstart as (p & Hp & Hparts). rewrite Hp. split; [by do 2 eexists|].
    destruct e as [err|[err|]|]; cbn [stopCoordinator].
    + split_and!; [done|set_solver|set_solver|left; split; set_solver|naive_solver].
    + split_and!; [done|set_solver|set_solver|left; split; set_solver|naive_solver].
    + pose proof (drained (EndMonitor None) shutdown served (or_intror eq_refl)) as H.
      by destruct (drainCoordinator shutdown served).
    + pose proof (drained EndContext shutdown served (or_introl eq_refl)) as H.
      by destruct (drainCoordinator shutdown served).
Qed.

(** The default flags, on a port that is free, until the context ends. *)
Definition coordinator_flags : coordinatorFlags :=
  mkCoordinatorFlags 0 3 2 (10 * Second) Second "127.0.0.1:8080" (300 * Second) (10 * Second).

Lemma coordinator_lifecycle_witness :
  checkCoordinatorFlags coordinator_flags = Ok tt /\
  let '(calls, err) := runCoordinator coordinator_flags None "run" (fun _ => Ok tt) EndContext None (Sentinel ErrServerClosed) in
  last calls = Some CallCloseTasks /\ err = None.
Proof.
  split; [vm_compute; reflexivity|].
  pose proof (proj2 (coordinator_lifecycle coordinator_flags "run" (fun _ => Ok tt) EndContext None (Sentinel ErrServerClosed)
    ltac:(vm_compute; reflexivity)) eq_refl) as [_ H].
  destruct (runCoordinator _ _ _ _ _ _ _) as [calls err]. destruct H as (Hl & _ & _ & _ & He).
  split; [exact Hl|]. apply He. split; [left; reflexivity|]. split; [reflexivity|]. vm_compute. reflexivity.
Defined.

